(* ===== verification/_CoqProject ===== *)
-Q . S2P
Prelude.v
Sql.v
PyString.v
Json.v
JsonText.v
VaultPaths.v
Schema.v
ProtectionStates.v
DirectoryAggregates.v
JobScheduler.v
Backoff.v
Sessions.v
Lifecycle.v
JobClaims.v
DirtyMarks.v
CloudDeletion.v
ProtectionStop.v
Fnmatch.v
OperationPolicies.v
Catalog.v
Automation.v
CatalogBatch.v
CatalogIncidents.v
CatalogVersions.v
CatalogRename.v
CatalogListing.v
EventJournal.v
EventStream.v
Notifications.v
FolderMaintenance.v
UploadTables.v
Effects.v
S3Client.v
S3Copy.v
WorkerJobs.v
LocalFiles.v
UploadSnapshot.v
CloudPreflight.v
S3Upload.v
UploadReconcile.v
VaultMoves.v
UploadProvenance.v
SnapshotCleanup.v
UploadResume.v
UploadDiscovery.v
UploadRemediation.v
UploadEpisodes.v
WorkerPurge.v
WorkerRelease.v
WorkerStorageClass.v
WorkerReconcile.v
WorkerRecover.v
WorkerUpload.v
