(* ===== verification/Prelude.v ===== *)
(** * FrostVault: a verification library

    FrostVault (src/app) keeps folders ("Vaults") protected in S3: it observes
    local files, uploads versions, shows for every file whether it is protected,
    releases local copies that are safe in the cloud, recovers them, and deletes
    cloud content only after a seven-day delay.  This library models the part of
    the program that decides, the services and the catalog that turn database
    state and observations into Jobs, leases, states, rules and Sessions, and the
    part of the worker that acts on Jobs against S3 and the disk.

    ** The program and the files that model it

    The program is a set of services over one PostgreSQL database.  Each service
    function runs in a transaction of its caller; an exception rolls the
    transaction back.  A modelled operation therefore takes the tables it uses
    and returns either the new tables and its answer, or a raised exception
    ([result], below); nothing is written when it raises.

    - [Sql], [PyString], [Json], [JsonText], [Fnmatch]: what the source uses of SQL
      (rows, NULL, three-valued conditions, UPSERT, ORDER BY ... LIMIT), of Python
      strings, of decoded JSON, of its canonical text and of [fnmatch].
    - [Schema]: the rows of the catalog (migrations 0002, 0019, 0059 and the later
      ones that add columns) and the record [catalog] of the tables several
      components share.
    - [ProtectionStates]: src/app/services/protection_states.py.  The SQL CASE
      that classifies a file, the headline of a folder, the "unconfirmed" overlay.
    - [DirectoryAggregates], [DirtyMarks], [FolderMaintenance]:
      src/app/services/directory_aggregates.py.  The streaming rebuild of all folder
      rows, the SQL refresh of one folder, the marks that say which folders to
      refresh, and the flush and the maintenance queue that act on them.
    - [JobScheduler]: src/app/services/job_scheduler.py, the fair interleaving.
    - [JobClaims]: lines 2779-3231 of src/app/catalog.py, the leases of Jobs.
    - [Catalog]: observation of Local Copies and admission of Jobs in
      src/app/catalog.py, with src/app/services/job_admission.py;
      [CatalogBatch]: the observation of many files in one statement;
      [CatalogVersions]: recording, reuse, placement and verification of Archive
      Versions and the two scans; [CatalogRename]: path history and renames;
      [CatalogListing]: pages, searches and the summary, with the folder queries
      of directory_aggregates.py.
    - [CatalogIncidents]: src/app/services/catalog_incidents.py, lost versions and
      conflicts at cloud-only paths.
    - [EventJournal]: src/app/services/catalog_events.py, revisions and events of a
      Vault; [EventStream]: catalog_event_hub.py and catalog_event_stream.py, what a
      browser is told of them.
    - [Notifications]: src/app/services/notifications.py and src/app/owner.py.
    - [OperationPolicies], [Automation]: src/app/services/operation_policies.py.
    - [CloudDeletion]: src/app/services/cloud_deletion.py, the delayed deletion;
      [ProtectionStop]: src/app/services/protection_stop.py, which uses it.
    - [VaultPaths]: src/app/services/vault_paths.py.
    - [Lifecycle]: lifecycle_profiles.py, lifecycle_policies.py,
      s3_lifecycle_rules.py and storage_classes.py under src/app/services.
    - [Sessions]: src/app/sessions.py and the bootstrap of the owner in
      src/app/database.py; [Backoff]: src/app/backoff.py.

    Code that acts outside its transaction, src/app/storage.py and what it calls:

    - [Effects]: such code as a function from the world to the world it leaves and a
      value or an exception; [S3Client]: the world (tables, provider and disk, the
      record of the calls made, with the tables as they stood at each), the requests
      of S3 and of the disk, transactions.
    - [S3Copy]: src/app/services/s3_copy.py, listings, checksums, copies and their
      read-back; [CloudPreflight]: cloud_preflight_gate.py; [LocalFiles]:
      local_files.py, local_observation.py, [inspect_entry] and the identities of
      roots in vault_relocation.py; [VaultMoves]: vault_moves.py, a whole Vault onto
      another storage class.
    - Uploads: [UploadTables]: the tables of migrations 0064 and 0065;
      [UploadSnapshot]: upload_snapshot.py, the evidence of a send and its JSON;
      [S3Upload]: s3_upload.py, the exclusive send of evidenced bytes;
      [UploadReconcile]: the adoption or the proof of absence of a write whose answer
      was lost (s3_upload.py and upload_provenance.py); [UploadProvenance]:
      upload_provenance.py, the life of an upload intent; [UploadResume]: the resumption
      of uploads of before its tables; [UploadDiscovery]:
      upload_remediation_discovery.py; [UploadRemediation]: upload_remediation.py, the
      episodes that repair failed uploads; [UploadEpisodes]: the theorems on them;
      [SnapshotCleanup]: snapshot_cleanup.py, the removal of the versions an upload
      replaced.
    - [WorkerJobs]: the claim context, the checkpoints and the Job writes of
      storage.py; [WorkerPurge]: [process_cloud_purge]; [WorkerRelease]:
      [process_free_space]; [WorkerStorageClass]: [process_storage_class];
      [WorkerRecover]: [process_recover]; [WorkerReconcile]: the sweep after a
      restart; [WorkerUpload]: [process_upload] with all the functions it is made of.

    How they interact: every change of the catalog is followed by an event of
    [EventJournal], which the streams of [EventStream] read under a Session of
    [Sessions]; [CatalogVersions] reports lost versions to [CatalogIncidents],
    whose incidents become notifications; [Automation] and the HTTP handlers ask [Catalog] to admit
    Jobs; [Catalog] reads policies ([OperationPolicies]), marks folders
    ([DirtyMarks]), cancels deletions ([CloudDeletion]) and hands uploads first to
    the remediation component, whose contract is the pair of classes
    [UploadInterceptor] and [UploadInterceptorLaws] of [Catalog]:
    [UploadRemediation.intercept_upload] keeps these laws
    ([interception_keeps_admission_laws]), and its transitions are the instance of
    [UploadTransitions] the Job writes of [WorkerJobs] use; the worker picks
    Jobs with [JobScheduler], leases them with [JobClaims] and carries them out with
    the handlers of the [Worker] files, which pass the gate of [CloudPreflight] and
    re-check the catalog and their lease before they act; a stop of protection
    schedules a deletion and releases the root when it has ended.

    ** What the theorems show

    - Classification: the SQL state of a file is exactly the described one, the
      overlay never invents protection, and the incremental folder refresh equals
      the full rebuild (the storage-class counts excepted, where the two differ).
    - Data is never lost by a decision: free-space Jobs, manual or automatic, are
      only admitted for copies whose bytes a verified and available version has;
      recovery never overwrites; reappearing content is held against upload;
      evidence of protection does not survive a change of the bytes.
    - Deletion: a request captures exact versions; the re-validation before any
      delete call is sound; refusal and cancellation are final; only captured
      versions become purged; a root is released only after the deletion ended.
    - The worker keeps what the catalog promised, whatever the provider, the disk and
      other connections do between its steps: each theorem speaks of every call in
      the record of a run.  A batch delete names only captured items after a
      re-validation under its leases; a Vault move deletes only the source it has
      replaced by a proved copy; a local file is unlinked only when its bytes were
      just hashed to the digest of a version that is confirmed in the cloud; a
      recovered file has the digest of its version and overwrites nothing; a copy to
      another class is believed only when it was read back; the sweep after a restart
      completes a Job only on evidence; multipart copies cover the object or are
      aborted; the gate opens only on a probe of this process.
    - Uploads: the evidence of a send describes the bytes that were read, and only
      these bytes leave; an acknowledged write is reported even when the code after it
      fails; a send starts once, under the fences of its exact target, and its intent
      stays pinned; an answer that was lost is replaced only by the object that carries
      the token and the digests of the intent, and absence is concluded only from
      complete and unchanged listings.  An episode of remediation keeps its target and
      only advances; it is resolved only by a completed clean-up around the exact
      keeper; its attempts authorise no new send without a proof of absence.  The whole
      handler keeps this: a Job that may only reconcile sends nothing before its own
      calls have proved the absence; the versions an upload replaces are deleted only
      after the new one is confirmed, one by one, each with a stored proof against a
      keeper that is verified and available in the tables of that moment; and a
      clean-up that returns has seen the keeper as the only version left.
    - Folder rows: whenever a Vault is reported ready its rows are those of a full
      rebuild, and a flush catches up with every mark that is not newer.
    - Jobs: at most one active Job per file, exclusive leases, all-or-nothing
      group leases, every offered Job can be leased, fair selection.
    - Configuration: policies and lifecycle plans round-trip and are validated
      exactly as described; bucket rules are synchronised without touching foreign
      rules, and twice is once; logical paths are canonical and cloud keys
      round-trip.
    - Versions and renames: the constraints of the version table hold by
      construction, a scan reports exactly the losses, a discovered version never
      outranks a verified one, uploads are skipped only for the same bytes; batch
      and single observation agree; a rename is unambiguous and moves exactly one
      identity.
    - What is shown and told: pages partition one listing, the summary agrees with
      the filtered search; the event journal refines an append-only history and a
      stream loses no event of it; incidents and problems are announced once, and
      email delivery terminates.
    - Sign-in: a dead Session never resolves again, rotations and password changes
      replace and revoke, the backoff policy is the documented one and never locks
      out for longer than fifteen minutes.

    Where an input makes the code differ from its own documentation or from its
    other half, the theorem states the difference on that input
    ([select_fair_jobs_second_round_order], [storage_class_counts_diverge],
    [drive_check_bypassed], [batch_repeated_path_diverges],
    [sha256_check_admits_a_sign], [claim_of_bracket_name_is_missed],
    [claim_of_another_file_is_taken]).

    ** Abstractions

    - Time stamps are instants in microseconds (Z); their ISO text and the time
      zone checks are not modelled.  The clock is an argument.  Python and SQL
      integers are unbounded here; nothing modelled relies on wrap-around.  The
      one floating-point computation, a file's mtime as a date, is written with
      IEEE doubles.
    - Text is ASCII ([lower], [upper] and white space on ASCII characters only).
    - JSON columns hold decoded values.
    - Random tokens and uuids are arguments.  Token and password hashes, the S3
      client, the file system and the operating system are parameters, as
      functions or as records of their answers.
    - Row locks are not modelled: an operation sees one state.  Interleavings of
      workers are sequences of operations ([JobClaims.claim_op],
      [Sessions.session_op], [EventStream.observed]).
    - In the worker the provider ([Provider]), the disk ([Disk]), the operating
      system's view of paths and mounts ([Host]), and the clock, cancellations and
      other connections ([Environment]) are parameters without laws: they answer
      anything, change at every step and may raise.  Other connections change the
      tables between transactions, not within one.  The locks of a process, metrics
      and the closing of descriptors are left out; messages that quote an exception
      or a path are shortened where a comment says so.
    - In the upload code the digests SHA-256 and CRC32, the identity of the provider,
      [uuid4] ([new_id], a function of the tables), [isoformat] and the readiness of the
      bucket are parameters.  The transfer manager of the S3 library is an arbitrary
      program over the calls the code hands to it.  [ut_signals] collects the
      invalidations a transaction asks for; [no_target] is the empty JSON object of a
      rejected target; a list of locked Vaults stands for SKIP LOCKED.  In
      [WorkerUpload] what the throttled reporter of a transfer tells is read from
      [progress_due] and [progress_total], [credentials] says whether a client can be
      made, and [remedy] is the text of a reason.
    - Columns no modelled operation reads are left out of the rows.

    Fuel: [JobScheduler.serve] gets one unit per waiting Job, and
    [select_fair_jobs_round_robin] shows that it is enough; [chunks_fuel] gets the
    length of the list; [Fnmatch.glob_parse_fuel] gets the length of the pattern
    ([glob_parse_fuel_enough]).  [S3Copy.list_pages] follows the pages of a
    provider; [StillRunning] stands for fuel that is used up, no handler catches it,
    and [list_pages_terminates] shows that a listing of n pages needs n.  All other
    recursion is structural.

    ** Not modelled

    Of src/app/storage.py the Jobs that rename, the local and cloud scans and the loops
    of the worker process; the retry clock and the activity log of uploads, Vault relocation, the audit of the catalog, the HTTP handlers,
    metadata backups and the runtime.  Input and output, templates and process
    management stay outside. *)

From stdpp Require Export base gmap strings list sorting.
From Stdlib Require Export ZArith Lia.

Declare Scope fv_scope.
Delimit Scope fv_scope with fv.
Open Scope Z_scope.
Open Scope fv_scope.

Create HintDb fv.

(** ** Python exceptions

    The exception classes the modelled functions raise, each with its message
    (or the payload the handlers read). *)
Inductive exn :=
  | ValueError (msg : string)
  | LookupError (msg : string)
  | RuntimeError (msg : string)
  | TypeError (msg : string)
  | InvalidLogicalPath
  | BackoffError (retry_after : Z)
  | SessionTransitionError (msg : string)
  | LifecycleRuleLimitExceeded (count : Z)
  | CloudDeletionError (msg : string)
  | ConfirmationRequired (msg : string)
  | MoveBlocked (msg : string)
  | UploadBlocked (reason : string)
  | ProvenAbsent   (* a subclass of UploadBlocked, with the reason ambiguous_send *)
  | UploadProofMismatch (msg : string)
  | AttributeError (msg : string)
  | ClientError (code : string) (status : Z)
  | OperationCancelled (msg : string)
  | KeyError (key : string)
  | VaultFileNotFound
  | NoCloudOnlyConflict (path : string)
  | IntegrityError (constraint : string)
  | JobLeaseLost (msg : string)
  | CloudPreflightBlocked (msg : string)
  | ReadinessFailure (msg : string)
  | WorkerStopping (msg : string)
  | OSError (errno : string)   (* FileNotFoundError is ENOENT, FileExistsError EEXIST *)
  | ScanRootMismatch (msg : string)
  | ScanRootUnreadable (msg : string)
  | SourceVolumeUnavailable (msg : string)
  | VaultRelocationError (reason : string)
  (* not an exception of the program: the fuel of a loop ran out, the loop is
     still running *)
  | StillRunning.

#[global] Instance exn_eq_dec : EqDecision exn.
Proof. solve_decision. Defined.

(** [isinstance(exc, RuntimeError)] and [isinstance(exc, OSError)]. *)
Definition is_runtime_error (e : exn) : bool :=
  match e with
  | RuntimeError _ | SessionTransitionError _ | LifecycleRuleLimitExceeded _ | UploadBlocked _ | ProvenAbsent | UploadProofMismatch _
  | OperationCancelled _ | JobLeaseLost _ | WorkerStopping _ | CloudPreflightBlocked _ | ReadinessFailure _
  | ScanRootMismatch _ | ScanRootUnreadable _ | SourceVolumeUnavailable _ => true
  | _ => false
  end.
Definition is_os_error (e : exn) : bool := match e with OSError _ => true | _ => false end.

(** ** Results: a returned value or a raised exception *)
Inductive result (A : Type) :=
  | Ok (a : A)
  | Raise (e : exn).
Arguments Ok {A} a.
Arguments Raise {A} e.

#[global] Instance result_ret : MRet result := @Ok.
#[global] Instance result_bind : MBind result :=
  fun A B f m => match m with Ok a => f a | Raise e => Raise e end.
#[global] Instance result_fmap : FMap result :=
  fun A B f m => match m with Ok a => Ok (f a) | Raise e => Raise e end.

(** [guard_r b e k]: raise [e] when the condition [b] holds, otherwise go on.
    It reads like the source's [if b: raise e]. *)
Definition raise_if (b : bool) (e : exn) : result unit :=
  if b then Raise e else Ok tt.

Notation "'raise!' e 'when' b ; k" := (mbind (M := result) (fun _ : unit => k) (raise_if b e))
  (at level 100, e at level 99, b at level 99, k at level 200, right associativity) : fv_scope.

Definition is_ok {A} (r : result A) : bool :=
  match r with Ok _ => true | Raise _ => false end.

Lemma bind_ok {A B} (m : result A) (f : A → result B) b :
  m ≫= f = Ok b ↔ ∃ a, m = Ok a ∧ f a = Ok b.
Proof. destruct m; cbn; naive_solver. Qed.

Lemma bind_raise {A B} (m : result A) (f : A → result B) e :
  m ≫= f = Raise e ↔ m = Raise e ∨ ∃ a, m = Ok a ∧ f a = Raise e.
Proof. destruct m; cbn; naive_solver. Qed.

Lemma raise_if_ok b e u : raise_if b e = Ok u ↔ b = false.
Proof. destruct b, u; cbn; naive_solver. Qed.

Lemma raise_if_bind_ok {B} b e (f : unit → result B) x :
  raise_if b e ≫= f = Ok x ↔ b = false ∧ f tt = Ok x.
Proof. destruct b; cbn; naive_solver. Qed.

Lemma raise_if_raise b e e' : raise_if b e = Raise e' ↔ b = true ∧ e' = e.
Proof. destruct b; cbn; naive_solver. Qed.

(** [mapM_r]: a [for] loop that collects one value per element and stops at
    the first exception. *)
Fixpoint mapM_r {A B} (f : A → result B) (l : list A) : result (list B) :=
  match l with
  | [] => Ok []
  | x :: l => y ← f x; ys ← mapM_r f l; Ok (y :: ys)
  end.

(** [foldM_r]: a [for] loop that threads a state and stops at an exception. *)
Fixpoint foldM_r {S A} (f : S → A → result S) (s : S) (l : list A) : result S :=
  match l with
  | [] => Ok s
  | x :: l => s' ← f s x; foldM_r f s' l
  end.

(** [for_each]: a [for] loop run only for the exceptions it raises. *)
Fixpoint for_each {A} (f : A → result unit) (l : list A) : result unit :=
  match l with
  | [] => Ok tt
  | x :: l => f x ≫= fun _ => for_each f l
  end.

Lemma mapM_r_ok {A B} (f : A → result B) l k :
  mapM_r f l = Ok k ↔ Forall2 (fun x y => f x = Ok y) l k.
Proof.
  revert k; induction l as [|x l IH]; intros k; cbn.
  - split; [intros [= <-]; constructor | inversion 1; done].
  - rewrite bind_ok. setoid_rewrite bind_ok. setoid_rewrite IH. split.
    + intros (y & Hy & ys & Hys & [= <-]). by constructor.
    + inversion 1; subst; eauto 10.
Qed.

Lemma for_each_ok {A} (f : A → result unit) l :
  for_each f l = Ok tt ↔ Forall (fun x => f x = Ok tt) l.
Proof.
  induction l as [|x l IH]; cbn; [by split|].
  rewrite bind_ok, Forall_cons, <- IH. split.
  - intros ([] & -> & ->). done.
  - intros [-> ->]. eauto.
Qed.

Lemma foldM_r_app {S A} (f : S → A → result S) s l1 l2 :
  foldM_r f s (l1 ++ l2) = (foldM_r f s l1 ≫= fun s' => foldM_r f s' l2).
Proof.
  revert s; induction l1 as [|x l1 IH]; intros s; [done|].
  cbn. destruct (f s x); cbn; auto.
Qed.

(** An invariant of every turn is an invariant of the loop. *)
Lemma foldM_r_invariant {S A} (P : S → Prop) (f : S → A → result S) l s s' :
  (∀ s x s', x ∈ l → P s → f s x = Ok s' → P s') →
  P s → foldM_r f s l = Ok s' → P s'.
Proof.
  revert s; induction l as [|x l IH]; intros s Hstep HP; cbn.
  - by intros [= <-].
  - intros (s1 & H1 & H2)%bind_ok. apply (IH s1); [|by eapply Hstep; [left|..]|done].
    intros ????; apply Hstep. by right.
Qed.

(** The Standard Library's [map] and stdpp's [fmap] on lists. *)
Lemma map_fmap {A B} (f : A → B) l : map f l = f <$> l.
Proof. induction l as [|x l IH]; [done|]. cbn. by rewrite IH. Qed.

(** ** Booleans *)
Notation "x =b y" := (bool_decide (x = y)) (at level 70, no associativity) : fv_scope.
Notation "x <>b y" := (negb (bool_decide (x = y))) (at level 70, no associativity) : fv_scope.
Notation "x ∈b l" := (bool_decide (x ∈ l)) (at level 70, no associativity) : fv_scope.

(** [bsimpl]: turn the boolean conditions of the code into propositions. *)
Ltac bsimpl :=
  repeat match goal with
  | H : _ && _ = true |- _ => apply andb_true_iff in H as [? H]
  | H : _ || _ = false |- _ => apply orb_false_iff in H as [? H]
  | H : negb _ = true |- _ => apply negb_true_iff in H
  | H : negb _ = false |- _ => apply negb_false_iff in H
  | H : bool_decide _ = true |- _ => apply bool_decide_eq_true in H
  | H : bool_decide _ = false |- _ => apply bool_decide_eq_false in H
  | H : Z.leb _ _ = true |- _ => apply Z.leb_le in H
  | H : Z.leb _ _ = false |- _ => apply Z.leb_gt in H
  | H : Z.ltb _ _ = true |- _ => apply Z.ltb_lt in H
  | H : Z.ltb _ _ = false |- _ => apply Z.ltb_ge in H
  | H : Z.eqb _ _ = true |- _ => apply Z.eqb_eq in H
  | H : Z.eqb _ _ = false |- _ => apply Z.eqb_neq in H
  end.

(** [inv_ok]: peel the binds and guards of a computation that returned. *)
Ltac inv_ok :=
  repeat match goal with
  | H : mbind _ _ = Ok _ |- _ =>
      first [ apply raise_if_bind_ok in H as [? H]
            | let a := fresh "r" in let E := fresh "E" in
              apply bind_ok in H as (a & E & H) ]
  | H : Ok _ = Ok _ |- _ => injection H as H
  | H : Raise _ = Ok _ |- _ => discriminate H
  | H : Ok _ = Raise _ |- _ => discriminate H
  | H : raise_if _ _ = Ok _ |- _ => apply raise_if_ok in H
  end.

(** [case_scrut]: destruct the scrutinee of an [if] or [match] of the goal. *)
Ltac case_scrut :=
  match goal with
  | |- context [match ?x with _ => _ end] =>
      lazymatch x with context [match _ with _ => _ end] => fail | _ => destruct x eqn:? end
  end.

(** ** Options: Python's [x or default] on an optional value *)
Definition or_default {A} (o : option A) (d : A) : A :=
  match o with Some x => x | None => d end.

Definition is_none {A} (o : option A) : bool :=
  match o with None => true | Some _ => false end.

Definition is_some {A} (o : option A) : bool := negb (is_none o).

(** [str or ""] is falsy both for [None] and for the empty string. *)
Definition truthy (o : option string) : bool :=
  match o with Some EmptyString | None => false | Some _ => true end.
