(* ===== verification/Sql.v ===== *)
(** * Sql: the part of PostgreSQL the catalog queries rely on

    - three-valued logic: a truth value is [option bool], [None] is NULL, and
      [WHERE]/[CASE WHEN] keep a row only when the value is [Some true];
    - tables as lists of rows: [select], [update_where], [delete_where];
    - [ORDER BY key DESC LIMIT 1] as [latest], a stable [ORDER BY] as
      [sort_by], [SUM] over a list as [sumZ]. *)
From S2P Require Import Prelude.

(** ** Three-valued logic *)
Definition tv := option bool.

Definition tv_and (a b : tv) : tv :=
  match a, b with
  | Some false, _ | _, Some false => Some false
  | Some true, Some true => Some true
  | _, _ => None
  end.

Definition tv_or (a b : tv) : tv :=
  match a, b with
  | Some true, _ | _, Some true => Some true
  | Some false, Some false => Some false
  | _, _ => None
  end.

Definition tv_not (a : tv) : tv := option_map negb a.

(** [=] on nullable columns: NULL when one side is NULL. *)
Definition sql_eq {A} `{EqDecision A} (a b : option A) : tv :=
  match a, b with
  | Some x, Some y => Some (bool_decide (x = y))
  | _, _ => None
  end.

Definition sql_is_null {A} (a : option A) : tv := Some (is_none a).
Definition sql_is_not_null {A} (a : option A) : tv := Some (is_some a).

Definition sql_in {A} `{EqDecision A} (a : option A) (l : list A) : tv :=
  match a with
  | Some x => Some (bool_decide (x ∈ l))
  | None => None
  end.

Definition coalesce {A} (a : option A) (d : A) : A := or_default a d.

(** [IS NOT DISTINCT FROM]: equality that treats NULL as a value. *)
Definition sql_not_distinct {A} `{EqDecision A} (a b : option A) : tv :=
  Some (bool_decide (a = b)).

(** [holds t]: the test of [WHERE], [CASE WHEN] and [FILTER]. *)
Definition holds (t : tv) : bool :=
  match t with Some true => true | _ => false end.

Declare Scope sql_scope.
Delimit Scope sql_scope with sql.
Infix "AND" := tv_and (at level 40, left associativity) : sql_scope.
Infix "OR" := tv_or (at level 50, left associativity) : sql_scope.
Notation "'NOT' a" := (tv_not a) (at level 35, right associativity) : sql_scope.
Infix "==" := sql_eq (at level 30, no associativity) : sql_scope.

Lemma holds_and a b : holds (tv_and a b) = holds a && holds b.
Proof. destruct a as [[]|], b as [[]|]; done. Qed.

Lemma holds_or a b : holds (tv_or a b) = holds a || holds b.
Proof. destruct a as [[]|], b as [[]|]; done. Qed.

Lemma holds_not_coalesce a : holds (tv_not (Some (coalesce a false))) = negb (holds a).
Proof. destruct a as [[]|]; done. Qed.

Lemma holds_eq {A} `{EqDecision A} (a b : option A) :
  holds (sql_eq a b) = bool_decide (a = b ∧ a ≠ None).
Proof.
  destruct a as [x|], b as [y|]; cbn;
    repeat (rewrite ?bool_decide_eq_true_2, ?bool_decide_eq_false_2 by naive_solver); try done.
  destruct (decide (x = y)) as [->|H].
  - rewrite !bool_decide_eq_true_2; naive_solver.
  - rewrite !bool_decide_eq_false_2; naive_solver.
Qed.

Lemma holds_eq_const {A} `{EqDecision A} (a : option A) (c : A) :
  holds (sql_eq a (Some c)) = bool_decide (a = Some c).
Proof. rewrite holds_eq. apply bool_decide_ext. naive_solver. Qed.

Lemma holds_in {A} `{EqDecision A} (a : option A) (l : list A) :
  holds (sql_in a l) = match a with Some x => bool_decide (x ∈ l) | None => false end.
Proof. destruct a; cbn; [by case_bool_decide|done]. Qed.

Lemma holds_some b : holds (Some b) = b.
Proof. by destruct b. Qed.

Lemma holds_is_not_null {A} (o : option A) : holds (sql_is_not_null o) = is_some o.
Proof. by destruct o. Qed.

Lemma is_none_true {A} (o : option A) : is_none o = true ↔ o = None.
Proof. by destruct o. Qed.

Lemma is_some_true {A} (o : option A) : is_some o = true ↔ is_Some o.
Proof. destruct o; cbn; split; try done. Qed.

#[export] Hint Rewrite holds_and holds_or @holds_eq_const @holds_in holds_some : fv.

(** ** Tables *)
Section tables.
Context {A : Type}.
Implicit Types (p : A → bool) (f : A → A) (t : list A).

Definition select p t : list A := List.filter p t.

(** [UPDATE t SET ... WHERE p]. *)
Definition update_where p f t : list A := map (fun r => if p r then f r else r) t.

(** [DELETE FROM t WHERE p]. *)
Definition delete_where p t : list A := List.filter (fun r => negb (p r)) t.

(** [SELECT ... WHERE p LIMIT 1]/[fetchone]. *)
Definition fetchone p t : option A := List.find p t.

Lemma elem_of_select p t r : r ∈ select p t ↔ r ∈ t ∧ p r = true.
Proof. unfold select. rewrite !list_elem_of_In. apply filter_In. Qed.

Lemma elem_of_delete_where p t r : r ∈ delete_where p t ↔ r ∈ t ∧ p r = false.
Proof.
  unfold delete_where. rewrite !list_elem_of_In, filter_In, negb_true_iff. done.
Qed.

Lemma elem_of_update_where p f t r :
  r ∈ update_where p f t ↔ ∃ r0, r0 ∈ t ∧ r = if p r0 then f r0 else r0.
Proof. unfold update_where. rewrite list_elem_of_In, in_map_iff. setoid_rewrite list_elem_of_In. naive_solver. Qed.

Lemma length_update_where p f t : length (update_where p f t) = length t.
Proof. apply length_map. Qed.

(** A column no assignment touches keeps its values. *)
Lemma update_where_column {K} (k : A → K) p f t :
  (∀ r, k (f r) = k r) → map k (update_where p f t) = map k t.
Proof.
  intros Hk. unfold update_where. rewrite map_map. apply map_ext.
  intros r. by destruct (p r).
Qed.

Lemma fetchone_some p t r : fetchone p t = Some r → r ∈ t ∧ p r = true.
Proof. intros H. apply find_some in H. by rewrite list_elem_of_In. Qed.

Lemma fetchone_none p t : fetchone p t = None ↔ ∀ r, r ∈ t → p r = false.
Proof.
  split.
  - intros H r Hr. eapply find_none; [done|]. by apply list_elem_of_In.
  - intros H. destruct (fetchone p t) eqn:E; [|done].
    apply fetchone_some in E as [E1 E2]. rewrite H in E2; done.
Qed.

Lemma fetchone_unique {K} (k : A → K) p t r :
  NoDup (map k t) → (∀ r', p r' = true → k r' = k r) → r ∈ t → p r = true →
  fetchone p t = Some r.
Proof.
  intros Hnd Hk Hin Hp. induction t as [|x t IH]; [by apply not_elem_of_nil in Hin|].
  cbn in *. apply NoDup_cons in Hnd as [Hx Hnd].
  apply elem_of_cons in Hin as [<-|Hin]; [by rewrite Hp|].
  destruct (p x) eqn:Ep; [|auto].
  exfalso. apply Hx. rewrite (Hk x Ep). rewrite list_elem_of_In. apply in_map.
  by apply list_elem_of_In.
Qed.

(** Some row satisfies [p]: [EXISTS (SELECT 1 ... WHERE p)]. *)
Definition exists_row p t : bool := existsb p t.

Lemma exists_row_true p t : exists_row p t = true ↔ ∃ r, r ∈ t ∧ p r = true.
Proof. unfold exists_row. rewrite existsb_exists. setoid_rewrite list_elem_of_In. done. Qed.

Lemma exists_row_false p t : exists_row p t = false ↔ ∀ r, r ∈ t → p r = false.
Proof.
  rewrite <- not_true_iff_false, exists_row_true. split.
  - intros H r Hr. apply not_true_iff_false. intros ?. apply H; eauto.
  - intros H (r & Hr & Hp). rewrite H in Hp; done.
Qed.

Lemma select_none p t : exists_row p t = false → select p t = [].
Proof.
  induction t as [|r t IH]; [done|]. cbn. intros [-> H]%orb_false_iff. auto.
Qed.

(** [ORDER BY key DESC LIMIT 1]: a row with the greatest key. *)
Fixpoint latest (key : A → Z) t : option A :=
  match t with
  | [] => None
  | r :: t =>
      match latest key t with
      | Some s => if key r <? key s then Some s else Some r
      | None => Some r
      end
  end.

Lemma latest_none key t : latest key t = None ↔ t = [].
Proof. destruct t as [|r t]; cbn; [done|]. destruct (latest key t); [case_match|]; done. Qed.

Lemma latest_some key t r :
  latest key t = Some r → r ∈ t ∧ ∀ s, s ∈ t → key s ≤ key r.
Proof.
  revert r; induction t as [|x t IH]; intros r; cbn; [done|].
  destruct (latest key t) as [s|] eqn:E.
  - destruct (IH s eq_refl) as [Hin Hmax].
    destruct (Z.ltb_spec (key x) (key s)); intros [= <-]; split.
    + by right.
    + intros z [->|Hz]%elem_of_cons; [lia|auto].
    + by left.
    + intros z [->|Hz]%elem_of_cons; [lia|]. specialize (Hmax z Hz). lia.
  - apply latest_none in E as ->. intros [= <-]. split; [by left|].
    intros z [->|[]%not_elem_of_nil]%elem_of_cons. lia.
Qed.
End tables.

(** A key without duplicates decides the row. *)
Lemma NoDup_key_inj {A K} (k : A → K) l x y :
  NoDup (map k l) → x ∈ l → y ∈ l → k x = k y → x = y.
Proof.
  induction l as [|z l IH]; intros Hnd Hx Hy E; [by apply not_elem_of_nil in Hx|].
  cbn in Hnd. apply NoDup_cons in Hnd as [Hz Hnd].
  assert (Hin : ∀ w, w ∈ l → k w ∈ map k l) by (intros w Hw; apply list_elem_of_In, in_map; by apply list_elem_of_In).
  apply elem_of_cons in Hx as [->|Hx], Hy as [->|Hy]; try done.
  - exfalso. apply Hz. rewrite E. auto.
  - exfalso. apply Hz. rewrite <- E. auto.
  - auto.
Qed.

Lemma filter_sublist {A} (p : A → bool) (l : list A) : sublist (List.filter p l) l.
Proof. induction l as [|x l IH]; cbn; [constructor|]. destruct (p x); by constructor. Qed.

Lemma NoDup_keys_sublist {A K} (k : A → K) l l' : sublist l l' → NoDup (map k l') → NoDup (map k l).
Proof.
  intros Hs Hnd. eapply sublist_NoDup; [exact Hnd|]. clear Hnd. induction Hs; cbn; by constructor.
Qed.

Lemma NoDup_map_select {A K} (k : A → K) (p : A → bool) l : NoDup (map k l) → NoDup (map k (select p l)).
Proof. apply NoDup_keys_sublist, filter_sublist. Qed.

(** ** Aggregates *)
Fixpoint sumZ (l : list Z) : Z :=
  match l with [] => 0 | x :: l => x + sumZ l end.

Lemma sumZ_app l k : sumZ (l ++ k) = sumZ l + sumZ k.
Proof. induction l; cbn; lia. Qed.

Definition countZ {A} (p : A → bool) (l : list A) : Z :=
  sumZ (map (fun x => if p x then 1 else 0) l).

Lemma countZ_length {A} (p : A → bool) l : countZ p l = Z.of_nat (length (List.filter p l)).
Proof. induction l as [|x l IH]; [done|]. unfold countZ in *. cbn. destruct (p x); cbn; lia. Qed.

Lemma countZ_nonneg {A} (p : A → bool) l : 0 ≤ countZ p l.
Proof. rewrite countZ_length. lia. Qed.

(** ** Stable ordering: Python's [sorted] and [ORDER BY] *)
Section sorting.
Context {A : Type} (le : A → A → bool).

Fixpoint insert_by (x : A) (l : list A) : list A :=
  match l with
  | [] => [x]
  | y :: l' => if le x y then x :: l else y :: insert_by x l'
  end.

Fixpoint sort_by (l : list A) : list A :=
  match l with [] => [] | x :: l => insert_by x (sort_by l) end.

Lemma insert_by_perm x l : insert_by x l ≡ₚ x :: l.
Proof.
  induction l as [|y l IH]; cbn; [done|].
  destruct (le x y); [done|]. rewrite IH. apply perm_swap.
Qed.

Lemma sort_by_perm l : sort_by l ≡ₚ l.
Proof. induction l as [|x l IH]; cbn; [done|]. by rewrite insert_by_perm, IH. Qed.

Lemma length_sort_by l : length (sort_by l) = length l.
Proof. by rewrite sort_by_perm. Qed.

Context (le_total : ∀ x y, le x y = true ∨ le y x = true).
Context (le_trans : ∀ x y z, le x y = true → le y z = true → le x z = true).

Lemma insert_by_sorted x l :
  StronglySorted (fun a b => le a b = true) l →
  StronglySorted (fun a b => le a b = true) (insert_by x l).
Proof.
  induction 1 as [|y l Hl IH Hy]; cbn; [repeat constructor|].
  destruct (le x y) eqn:E.
  - constructor; [by constructor|]. constructor; [done|].
    eapply Forall_impl; [done|]. eauto.
  - constructor; [done|]. rewrite insert_by_perm. constructor; [|done].
    destruct (le_total x y); congruence.
Qed.

Lemma sort_by_sorted l : StronglySorted (fun a b => le a b = true) (sort_by l).
Proof. induction l; cbn; [constructor|]. by apply insert_by_sorted. Qed.
End sorting.

#[export] Hint Resolve sort_by_perm : fv.
