(* ===== verification/PyString.v ===== *)
(** * PyString: Python string methods and SQL LIKE

    [str.split], [str.join], [str.strip], [str.replace] of one character,
    [startswith]/[endswith], ASCII [lower]/[upper], and PostgreSQL's
    [LIKE ... ESCAPE '\'].  Text is a sequence of 8-bit characters; case
    mapping and white space are those of ASCII. *)
From S2P Require Import Prelude.
From Stdlib Require Import Ascii.

(** Concatenation reduces on a constructor (stdpp makes it opaque to [simpl]). *)
#[global] Arguments String.append !s1 s2 : simpl nomatch.

Definition slash : ascii := "/"%char.
Definition backslash : ascii := "\"%char.
Definition percent : ascii := "%"%char.
Definition underscore : ascii := "_"%char.

#[global] Instance string_app_assoc : Assoc (=) String.append.
Proof. intros s t u. induction s as [|a s IH]; cbn; [done|]. by rewrite IH. Qed.

Lemma string_app_nil_r s : String.append s EmptyString = s.
Proof. induction s as [|a s IH]; cbn; [done|]. by rewrite IH. Qed.

Lemma string_app_inj_l s t u : String.append s t = String.append s u → t = u.
Proof. induction s; cbn; [done|]. intros [= H]. auto. Qed.

(** ** split and join *)
Fixpoint split_on (c : ascii) (s : string) : list string :=
  match s with
  | EmptyString => [EmptyString]
  | String a s =>
      if bool_decide (a = c) then EmptyString :: split_on c s
      else match split_on c s with
           | h :: t => String a h :: t
           | [] => [String a EmptyString]
           end
  end.

Fixpoint join (sep : string) (l : list string) : string :=
  match l with
  | [] => EmptyString
  | [x] => x
  | x :: l => String.append x (String.append sep (join sep l))
  end.

Lemma split_on_cons c s : ∃ h t, split_on c s = h :: t.
Proof. induction s as [|a s (h & t & IH)]; cbn; [eauto|]. rewrite IH. case_bool_decide; eauto. Qed.

Lemma split_on_app c s t :
  split_on c (String.append s (String c t)) = split_on c s ++ split_on c t.
Proof.
  induction s as [|a s IH]; cbn; [by rewrite bool_decide_eq_true_2|].
  rewrite IH. destruct (split_on_cons c s) as (h & l & ->). by case_bool_decide.
Qed.

Lemma join_app sep l k : l ≠ [] → k ≠ [] →
  join sep (l ++ k) = String.append (join sep l) (String.append sep (join sep k)).
Proof.
  induction l as [|x l IH]; intros Hl Hk; [done|]. destruct l as [|y l]; cbn.
  - destruct k; [done|]. done.
  - cbn in IH. rewrite IH by done. by rewrite <- !(assoc_L String.append).
Qed.

Lemma join_split c s : join (String c EmptyString) (split_on c s) = s.
Proof.
  induction s as [|a s IH]; cbn; [done|].
  destruct (split_on_cons c s) as (h & l & E). rewrite E in *. case_bool_decide as Ha.
  - rewrite Ha, <- IH. done.
  - rewrite <- IH. by destruct l.
Qed.

(** The character [c] occurs in [s]: Python's [c in s]. *)
Fixpoint has_char (c : ascii) (s : string) : bool :=
  match s with
  | EmptyString => false
  | String a s => bool_decide (a = c) || has_char c s
  end.

Lemma split_on_no_char c s : has_char c s = false → split_on c s = [s].
Proof.
  induction s as [|a s IH]; cbn; [done|]. intros [H1 H2]%orb_false_iff.
  by rewrite H1, IH.
Qed.

Lemma split_on_pieces c s x : x ∈ split_on c s → has_char c x = false.
Proof.
  revert x; induction s as [|a s IH]; cbn; intros x.
  - intros ->%list_elem_of_singleton. done.
  - destruct (split_on_cons c s) as (h & l & E). rewrite E in *. case_bool_decide as Ha.
    + intros [->|Hx]%elem_of_cons; [done|]. auto.
    + intros [->|Hx]%elem_of_cons; [|apply IH; by right].
      cbn. rewrite bool_decide_eq_false_2 by done. apply IH. by left.
Qed.

Lemma split_join c l : l ≠ [] → Forall (fun x => has_char c x = false) l →
  split_on c (join (String c EmptyString) l) = l.
Proof.
  induction l as [|x l IH]; [done|]. intros _ [Hx Hl]%Forall_cons. destruct l as [|y l].
  - cbn. by apply split_on_no_char.
  - change (join _ (x :: y :: l)) with
      (String.append x (String c (join (String c EmptyString) (y :: l)))).
    rewrite split_on_app, split_on_no_char by done. by rewrite IH.
Qed.

(** ** strip *)
Section strip.
Context (p : ascii → bool).

Fixpoint lstrip (s : string) : string :=
  match s with
  | EmptyString => EmptyString
  | String a s' => if p a then lstrip s' else s
  end.

Fixpoint rstrip (s : string) : string :=
  match s with
  | EmptyString => EmptyString
  | String a s' =>
      match rstrip s' with
      | EmptyString => if p a then EmptyString else String a EmptyString
      | t => String a t
      end
  end.

Definition strip (s : string) : string := rstrip (lstrip s).

Lemma rstrip_app_non s a t : p a = false →
  rstrip (String.append s (String a t)) = String.append s (rstrip (String a t)).
Proof.
  intros Ha. induction s as [|b s IH]; cbn; [done|]. rewrite IH.
  assert (∃ x y, rstrip (String a t) = String x y) as (x & y & Ex).
  { cbn. destruct (rstrip t); [rewrite Ha|]; eauto. }
  rewrite Ex. cbn in Ex. rewrite Ex. by destruct s.
Qed.

Lemma rstrip_app_empty s t : rstrip t = EmptyString → rstrip (String.append s t) = rstrip s.
Proof. intros Ht. induction s as [|b s IH]; cbn; [done|]. by rewrite IH. Qed.

Lemma rstrip_head a s b t : rstrip (String a s) = String b t → b = a.
Proof. cbn. destruct (rstrip s); [destruct (p a); [done|]|]; congruence. Qed.
End strip.

(** [str.strip()]: ASCII white space. *)
Definition is_space (a : ascii) : bool :=
  let n := nat_of_ascii a in (Nat.leb 9 n && Nat.leb n 13) || (Nat.leb 28 n && Nat.leb n 32).
Definition py_strip : string → string := strip is_space.
Definition strip_slash : string → string := strip (fun a => bool_decide (a = slash)).
Definition rstrip_slash : string → string := rstrip (fun a => bool_decide (a = slash)).

(** ** Characters *)
Fixpoint string_map (f : ascii → ascii) (s : string) : string :=
  match s with EmptyString => EmptyString | String a s => String (f a) (string_map f s) end.

(** [s.replace(a, b)] for two characters. *)
Definition replace_char (a b : ascii) : string → string :=
  string_map (fun x => if bool_decide (x = a) then b else x).

(** [s.replace(c, t)] for a character and a text. *)
Fixpoint replace_text (c : ascii) (t : string) (s : string) : string :=
  match s with
  | EmptyString => EmptyString
  | String a s =>
      if bool_decide (a = c) then String.append t (replace_text c t s)
      else String a (replace_text c t s)
  end.

Definition ascii_lower (a : ascii) : ascii :=
  let n := nat_of_ascii a in
  if Nat.leb 65 n && Nat.leb n 90 then ascii_of_nat (n + 32) else a.
Definition ascii_upper (a : ascii) : ascii :=
  let n := nat_of_ascii a in
  if Nat.leb 97 n && Nat.leb n 122 then ascii_of_nat (n - 32) else a.
Definition lower : string → string := string_map ascii_lower.
Definition upper : string → string := string_map ascii_upper.

Fixpoint starts_with (p s : string) : bool :=
  match p, s with
  | EmptyString, _ => true
  | String a p, String b s => bool_decide (a = b) && starts_with p s
  | String _ _, EmptyString => false
  end.

Fixpoint ends_with (suf s : string) : bool :=
  (suf =b s) || match s with EmptyString => false | String _ s => ends_with suf s end.

(** [s[n:]] and [s[:n]]. *)
Fixpoint drop_chars (n : nat) (s : string) : string :=
  match n, s with
  | O, _ => s
  | S n, String _ s => drop_chars n s
  | _, EmptyString => EmptyString
  end.
Fixpoint take_chars (n : nat) (s : string) : string :=
  match n, s with
  | O, _ | _, EmptyString => EmptyString
  | S n, String a s => String a (take_chars n s)
  end.

(** [needle in haystack]. *)
Fixpoint contains (needle s : string) : bool :=
  starts_with needle s || match s with EmptyString => false | String _ s => contains needle s end.

Lemma starts_with_spec p s : starts_with p s = true ↔ ∃ t, s = String.append p t.
Proof.
  revert s; induction p as [|a p IH]; intros s; cbn; [split; eauto|].
  destruct s as [|b s]; [split; [done|by intros (?&?)]|].
  rewrite andb_true_iff, bool_decide_eq_true, IH. split.
  - intros (-> & t & ->). eauto.
  - intros (t & [= -> ->]). eauto.
Qed.

Lemma drop_chars_app s t : drop_chars (String.length s) (String.append s t) = t.
Proof. induction s; cbn; auto. Qed.

Lemma ends_with_spec suf s : ends_with suf s = true ↔ ∃ t, s = String.append t suf.
Proof.
  induction s as [|a s IH]; cbn.
  - rewrite orb_true_iff, bool_decide_eq_true. split.
    + intros [->|?]; [by exists EmptyString|done].
    + intros ([|b t] & H); cbn in H; [left; congruence|done].
  - rewrite orb_true_iff, bool_decide_eq_true, IH. split.
    + intros [->|(t & ->)]; [by exists EmptyString|by exists (String a t)].
    + intros ([|b t] & H); cbn in H; [left; congruence|]. injection H as -> ->. eauto.
Qed.

(** ** LIKE with ESCAPE *)
Inductive like_token := Lit (a : ascii) | AnyOne | AnyMany.

Fixpoint like_parse (s : string) : list like_token :=
  match s with
  | EmptyString => []
  | String a s =>
      if bool_decide (a = backslash) then
        match s with
        | String b s => Lit b :: like_parse s
        | EmptyString => []     (* rejected by PostgreSQL: a pattern cannot end with the escape *)
        end
      else if bool_decide (a = percent) then AnyMany :: like_parse s
      else if bool_decide (a = underscore) then AnyOne :: like_parse s
      else Lit a :: like_parse s
  end.

Fixpoint like_tokens (l : list like_token) : string → bool :=
  match l with
  | [] => fun s => bool_decide (s = EmptyString)
  | Lit a :: l => fun s => match s with String b s => bool_decide (a = b) && like_tokens l s | _ => false end
  | AnyOne :: l => fun s => match s with String _ s => like_tokens l s | _ => false end
  | AnyMany :: l =>
      fix any (s : string) : bool :=
        like_tokens l s || match s with String _ s => any s | EmptyString => false end
  end.

Definition like (pattern s : string) : bool := like_tokens (like_parse pattern) s.

(** [value.replace("\\", "\\\\").replace("%", "\\%").replace("_", "\\_")]. *)
Definition escape_like (value : string) : string :=
  replace_text underscore (String backslash (String underscore EmptyString))
    (replace_text percent (String backslash (String percent EmptyString))
      (replace_text backslash (String backslash (String backslash EmptyString)) value)).

Fixpoint literals (s : string) : list like_token :=
  match s with EmptyString => [] | String a s => Lit a :: literals s end.

Definition escape_char (a : ascii) : string :=
  if decide (a = backslash ∨ a = percent ∨ a = underscore)
  then String backslash (String a EmptyString) else String a EmptyString.

Lemma escape_like_cons a value :
  escape_like (String a value) = String.append (escape_char a) (escape_like value).
Proof.
  unfold escape_like, escape_char. cbn [replace_text].
  destruct (decide (a = backslash)) as [->|H1]; [reflexivity|].
  rewrite (bool_decide_eq_false_2 (a = backslash)) by done. cbn [replace_text].
  destruct (decide (a = percent)) as [->|H2]; [reflexivity|].
  rewrite (bool_decide_eq_false_2 (a = percent)) by done. cbn [replace_text].
  destruct (decide (a = underscore)) as [->|H3]; [reflexivity|].
  rewrite (bool_decide_eq_false_2 (a = underscore)) by done.
  rewrite decide_False by tauto. done.
Qed.

Lemma like_parse_escape_char a rest :
  like_parse (String.append (escape_char a) rest) = Lit a :: like_parse rest.
Proof.
  unfold escape_char. destruct (decide _) as [H|H]; [reflexivity|].
  cbn [String.append like_parse].
  rewrite !bool_decide_eq_false_2 by (intros ->; tauto). done.
Qed.

Lemma like_parse_escape value rest :
  like_parse (String.append (escape_like value) rest) = literals value ++ like_parse rest.
Proof.
  induction value as [|a value IH]; [done|].
  rewrite escape_like_cons, <- (assoc_L String.append), like_parse_escape_char, IH. done.
Qed.

Lemma like_any_end s : like_tokens [AnyMany] s = true.
Proof. induction s; cbn in *; [done|]. by rewrite IHs, orb_true_r. Qed.

Lemma like_literals p l s :
  like_tokens (literals p ++ l) s = true ↔ ∃ t, s = String.append p t ∧ like_tokens l t = true.
Proof.
  revert s; induction p as [|a p IH]; intros s.
  - change (literals EmptyString ++ l) with l. cbn [String.append]. naive_solver.
  - cbn. destruct s as [|b s]; [split; [done|by intros (?&?&?)]|].
    rewrite andb_true_iff, bool_decide_eq_true, IH. split.
    + intros (-> & t & -> & ?). eauto.
    + intros (t & [= -> ->] & ?). eauto.
Qed.

(** An escaped prefix matches literally: no character of [dir] acts as a
    wildcard. *)
Lemma like_escape_prefix dir s :
  like (String.append (escape_like dir) "/%") s = starts_with (String.append dir "/") s.
Proof.
  apply eq_bool_prop_intro. rewrite !Is_true_true, starts_with_spec. unfold like.
  rewrite like_parse_escape, like_literals. setoid_rewrite <- (assoc_L String.append).
  change (like_parse "/%") with [Lit slash; AnyMany]. split.
  - intros ([|b t] & -> & H); [done|]. apply andb_true_iff in H as [H _]. bsimpl. subst. eauto.
  - intros (t & ->). exists (String "/" t). split; [done|]. cbn. apply (like_any_end t).
Qed.
