(* ===== verification/Json.v ===== *)
(** * Json: decoded JSON values

    [json.loads] and [json.dumps] are the Standard Library of the source; the
    catalog stores the text and the code works on the decoded value, so the
    columns that hold JSON text are modelled by the value the text decodes to.
    A dictionary is the list of its items with distinct keys. *)
From S2P Require Import Prelude.

Inductive json :=
  | JNull
  | JBool (b : bool)
  | JInt (z : Z)
  | JFloat (repr : string)
  | JStr (s : string)
  | JList (l : list json)
  | JDict (d : list (string * json)).

(** [d.get(k)] and [set(d)]. *)
Definition dict_get (d : list (string * json)) (k : string) : option json :=
  snd <$> List.find (fun kv => bool_decide (kv.1 = k)) d.

Definition dict_keys (d : list (string * json)) : list string := map fst d.

(** [set(d) == {...}]. *)
Definition keys_are (d : list (string * json)) (keys : list string) : bool :=
  forallb (fun k => k ∈b keys) (dict_keys d) && forallb (fun k => k ∈b dict_keys d) keys.

(** [v == "text"] and [v in (...)] for text constants. *)
Definition json_is_str (v : json) (s : string) : bool :=
  match v with JStr t => t =b s | _ => false end.

Definition json_in (v : json) (l : list string) : bool :=
  match v with JStr t => t ∈b l | _ => false end.
