(* ===== verification/JsonText.v ===== *)
(** * JsonText: the text of JSON values

    [json.dumps] with [separators=(",", ":")], with and without [sort_keys], and
    [json.loads], for the columns whose text the code compares or that are read by
    another component than the one that wrote them.

    Text is ASCII: an escape of another character is read as a question mark.
    A number with a fraction or an exponent stays the text it is. *)
From S2P Require Import Prelude Sql PyString Json.
From Stdlib Require Import Ascii Numbers.DecimalString Numbers.DecimalZ.
Open Scope Z_scope.

Definition text := list ascii.
Definition chars (s : string) : text := String.list_ascii_of_string s.
Definition of_chars (l : text) : string := String.string_of_list_ascii l.

(** ** Writing *)
Definition dquote : ascii := ascii_of_nat 34.
Definition backslash : ascii := ascii_of_nat 92.

Definition hex_char (n : nat) : ascii := ascii_of_nat (if (n <? 10)%nat then 48 + n else 87 + n)%nat.

(** The two-character escapes, with the character they stand for. *)
Definition short_escapes : list (ascii * ascii) :=
  [(dquote, dquote); (backslash, backslash); (ascii_of_nat 10, "n"%char); (ascii_of_nat 13, "r"%char); (ascii_of_nat 9, "t"%char);
   (ascii_of_nat 12, "f"%char); (ascii_of_nat 8, "b"%char)].

Definition escape_char (a : ascii) : text :=
  match List.find (fun e => bool_decide (e.1 = a)) short_escapes with
  | Some (_, e) => [backslash; e]
  | None =>
      let n := nat_of_ascii a in
      if (n <? 32)%nat then [backslash; "u"%char; "0"%char; "0"%char; hex_char (n / 16); hex_char (n mod 16)] else [a]
  end.

Definition dump_str (s : string) : text := dquote :: concat (map escape_char (chars s)) ++ [dquote].
Definition dump_int (z : Z) : text := chars (NilZero.string_of_int (Z.to_int z)).

(** [sep.join(l)]. *)
Fixpoint join_text (l : list text) : text :=
  match l with
  | [] => []
  | [x] => x
  | x :: l => x ++ ","%char :: join_text l
  end.

Fixpoint dump (v : json) : text :=
  match v with
  | JNull => chars "null"
  | JBool b => chars (if b then "true" else "false")
  | JInt z => dump_int z
  | JFloat repr => chars repr
  | JStr s => dump_str s
  | JList l => "["%char :: join_text (map dump l) ++ ["]"%char]
  | JDict d => "{"%char :: join_text (map (fun kv => dump_str kv.1 ++ ":"%char :: dump kv.2) d) ++ ["}"%char]
  end.

Definition dumps (v : json) : string := of_chars (dump v).

(** [sort_keys=True]. *)
Fixpoint sort_keys (v : json) : json :=
  match v with
  | JList l => JList (map sort_keys l)
  | JDict d => JDict (sort_by (fun a b => String.leb a.1 b.1) (map (fun kv => (kv.1, sort_keys kv.2)) d))
  | v => v
  end.

Definition canonical (v : json) : string := dumps (sort_keys v).

(** ** Reading *)
Definition is_blank (a : ascii) : bool := bool_decide (nat_of_ascii a ∈ [32; 9; 10; 13]%nat).
Fixpoint skip_blanks (l : text) : text :=
  match l with a :: l' => if is_blank a then skip_blanks l' else l | [] => [] end.

(** The character of four hexadecimal digits. *)
Definition hex_digit_value (a : ascii) : option nat :=
  let n := nat_of_ascii a in
  if ((48 <=? n) && (n <=? 57))%nat then Some (n - 48)%nat
  else if ((65 <=? n) && (n <=? 70))%nat then Some (n - 55)%nat
  else if ((97 <=? n) && (n <=? 102))%nat then Some (n - 87)%nat
  else None.
Definition unicode_char (a b c d : ascii) : option ascii :=
  match hex_digit_value a, hex_digit_value b, hex_digit_value c, hex_digit_value d with
  | Some a, Some b, Some c, Some d =>
      let n := (4096 * a + 256 * b + 16 * c + d)%nat in Some (if (n <? 128)%nat then ascii_of_nat n else "?"%char)
  | _, _, _, _ => None
  end.

(** What [\e] stands for; the escaped slash is only read. *)
Definition unescape (e : ascii) : option ascii :=
  if bool_decide (e = "/"%char) then Some e
  else fst <$> List.find (fun p => bool_decide (p.2 = e)) short_escapes.

(** The characters up to the closing quote, and what follows it. *)
Fixpoint load_chars (l : text) : option (text * text) :=
  match l with
  | [] => None
  | a :: l =>
      if bool_decide (a = dquote) then Some ([], l)
      else if bool_decide (a = backslash) then
        match l with
        | e :: l =>
            if bool_decide (e = "u"%char) then
              match l with
              | b :: c :: d :: f :: l =>
                  x ← unicode_char b c d f; '(s, rest) ← load_chars l; Some (x :: s, rest)
              | _ => None
              end
            else x ← unescape e; '(s, rest) ← load_chars l; Some (x :: s, rest)
        | [] => None
        end
      else if (nat_of_ascii a <? 32)%nat then None
      else '(s, rest) ← load_chars l; Some (a :: s, rest)
  end.

Definition is_number_char (a : ascii) : bool :=
  let n := nat_of_ascii a in ((48 <=? n) && (n <=? 57))%nat || bool_decide (a ∈ ["-"; "+"; "."; "e"; "E"]%char).
Fixpoint span_number (l : text) : text * text :=
  match l with
  | a :: l' => if is_number_char a then let (tok, rest) := span_number l' in (a :: tok, rest) else ([], l)
  | [] => ([], [])
  end.

(** An integer has no leading zeros; minus zero is zero. *)
Definition number_of (tok : text) : option json :=
  match NilZero.int_of_string (of_chars tok) with
  | Some d =>
      let z := Z.of_int d in
      if bool_decide (dump_int z = tok) || bool_decide (tok = chars "-0") then Some (JInt z) else None
  | None => if existsb (fun a => bool_decide (a ∈ ["."; "e"; "E"]%char)) tok then Some (JFloat (of_chars tok)) else None
  end.

Definition load_number (l : text) : option (json * text) :=
  let (tok, rest) := span_number l in v ← number_of tok; Some (v, rest).

(** A later item with the same key replaces the value in place. *)
Definition dict_put (d : list (string * json)) (k : string) (v : json) : list (string * json) :=
  if k ∈b map fst d then map (fun kv => if bool_decide (kv.1 = k) then (k, v) else kv) d else d ++ [(k, v)].

Fixpoint strip_text (p l : text) : option text :=
  match p, l with
  | [], l => Some l
  | a :: p, b :: l => if bool_decide (a = b) then strip_text p l else None
  | _, [] => None
  end.

Section loads.
Context (load : text → option (json * text)).

(** Items after an opening bracket; each round reads one. *)
Fixpoint load_items (fuel : nat) (acc : list json) (l : text) : option (list json * text) :=
  match fuel with
  | O => None
  | S fuel =>
      '(v, l) ← load l;
      match skip_blanks l with
      | a :: l =>
          if bool_decide (a = ","%char) then load_items fuel (acc ++ [v]) l
          else if bool_decide (a = "]"%char) then Some (acc ++ [v], l) else None
      | [] => None
      end
  end.

Definition load_pair (l : text) : option (string * json * text) :=
  match skip_blanks l with
  | a :: l =>
      if bool_decide (a = dquote) then
        '(k, l) ← load_chars l;
        match skip_blanks l with
        | c :: l => if bool_decide (c = ":"%char) then '(v, l) ← load l; Some (of_chars k, v, l) else None
        | [] => None
        end
      else None
  | [] => None
  end.

Fixpoint load_pairs (fuel : nat) (acc : list (string * json)) (l : text) : option (list (string * json) * text) :=
  match fuel with
  | O => None
  | S fuel =>
      '(k, v, l) ← load_pair l;
      match skip_blanks l with
      | a :: l =>
          if bool_decide (a = ","%char) then load_pairs fuel (dict_put acc k v) l
          else if bool_decide (a = "}"%char) then Some (dict_put acc k v, l) else None
      | [] => None
      end
  end.
End loads.

Definition load_word (l : text) : option (json * text) :=
  match strip_text (chars "null") l with
  | Some l => Some (JNull, l)
  | None => match strip_text (chars "true") l with
            | Some l => Some (JBool true, l)
            | None => l ← strip_text (chars "false") l; Some (JBool false, l)
            end
  end.

(** One value, with the text after it; [fuel] bounds the depth and the items. *)
Fixpoint load_value (fuel : nat) (l : text) : option (json * text) :=
  match fuel with
  | O => None
  | S fuel =>
      match skip_blanks l with
      | [] => None
      | a :: l =>
          if bool_decide (a = dquote) then '(s, l) ← load_chars l; Some (JStr (of_chars s), l)
          else if bool_decide (a = "["%char) then
            match strip_text ["]"%char] (skip_blanks l) with
            | Some l => Some (JList [], l)
            | None => '(items, l) ← load_items (load_value fuel) fuel [] l; Some (JList items, l)
            end
          else if bool_decide (a = "{"%char) then
            match strip_text ["}"%char] (skip_blanks l) with
            | Some l => Some (JDict [], l)
            | None => '(items, l) ← load_pairs (load_value fuel) fuel [] l; Some (JDict items, l)
            end
          else if is_number_char a then load_number (a :: l)
          else load_word (a :: l)
      end
  end.

Definition loads (s : string) : result json :=
  match load_value (S (String.length s)) (chars s) with
  | Some (v, rest) =>
      match skip_blanks rest with [] => Ok v | _ => Raise (ValueError "Extra data") end
  | None => Raise (ValueError "Expecting value")
  end.

(** ** What is written is read back *)

(** A value without floating-point numbers whose dictionaries have distinct keys,
    as every dictionary of the source has. *)
Fixpoint plain (v : json) : bool :=
  match v with
  | JFloat _ => false
  | JList l => forallb plain l
  | JDict d => bool_decide (NoDup (map fst d)) && forallb (fun kv => plain kv.2) d
  | _ => true
  end.

(** Enough fuel for a value. *)
Fixpoint weight (v : json) : nat :=
  match v with
  | JList l => S (foldr (fun x m => Nat.max (weight x) m) (length l) l)
  | JDict d => S (foldr (fun kv m => Nat.max (weight kv.2) m) (length d) d)
  | _ => 1
  end.

Lemma chars_of_chars l : chars (of_chars l) = l.
Proof. apply String.list_ascii_of_string_of_list_ascii. Qed.
Lemma of_chars_chars s : of_chars (chars s) = s.
Proof. apply String.string_of_list_ascii_of_string. Qed.

Lemma load_escaped a l : load_chars (escape_char a ++ l) = ('(s, rest) ← load_chars l; Some (a :: s, rest)).
Proof. destruct a as [[] [] [] [] [] [] [] []]; reflexivity. Qed.

Lemma load_dumped_chars s rest : load_chars (concat (map escape_char s) ++ dquote :: rest) = Some (s, rest).
Proof. induction s as [|a s IH]; [done|]. cbn [map concat]. by rewrite <- app_assoc, load_escaped, IH. Qed.

Definition opens_value (a : ascii) : Prop := is_blank a = false ∧ a ≠ "]"%char ∧ a ≠ "}"%char.

Lemma number_char_opens a : is_number_char a = true → opens_value a ∧ a ≠ dquote ∧ a ≠ "["%char ∧ a ≠ "{"%char.
Proof. destruct a as [[] [] [] [] [] [] [] []]; done. Qed.

Lemma uint_chars d : Forall (fun a => is_number_char a = true) (chars (NilEmpty.string_of_uint d)).
Proof. induction d; cbn; by constructor. Qed.

Lemma dump_int_chars z : Forall (fun a => is_number_char a = true) (dump_int z).
Proof.
  unfold dump_int, NilZero.string_of_int, NilZero.string_of_uint.
  destruct (Z.to_int z) as [d|d]; destruct d; cbn; repeat constructor; apply uint_chars.
Qed.

Lemma dump_int_nonempty z : dump_int z ≠ [].
Proof.
  unfold dump_int, NilZero.string_of_int, NilZero.string_of_uint. by destruct (Z.to_int z) as [d|d]; destruct d.
Qed.

Lemma span_number_app tok rest :
  Forall (fun a => is_number_char a = true) tok → match rest with a :: _ => is_number_char a = false | [] => True end →
  span_number (tok ++ rest) = (tok, rest).
Proof.
  intros Ht Hr. induction Ht as [|a tok Ha _ IH]; cbn.
  - destruct rest as [|b rest]; cbn; [done|]. by rewrite Hr.
  - by rewrite Ha, IH.
Qed.

Lemma number_of_dump z : number_of (dump_int z) = Some (JInt z).
Proof.
  unfold number_of. unfold dump_int at 1. rewrite of_chars_chars, NilZero.isi.
  - by rewrite DecimalZ.of_to, bool_decide_eq_true_2.
  - intros E. apply (f_equal Z.of_int) in E as E'. rewrite DecimalZ.of_to in E'. cbn in E'. by rewrite E' in E.
  - intros E. apply (f_equal Z.of_int) in E as E'. rewrite DecimalZ.of_to in E'. cbn in E'. by rewrite E' in E.
Qed.

(** The text after a value does not continue a number. *)
Definition ends_number (rest : text) : Prop := match rest with a :: _ => is_number_char a = false | [] => True end.

Lemma load_dumped_number z rest : ends_number rest → load_number (dump_int z ++ rest) = Some (JInt z, rest).
Proof.
  intros Hr. unfold load_number. rewrite span_number_app; [|apply dump_int_chars|done]. by rewrite number_of_dump.
Qed.

Lemma dump_opens v : plain v = true → ∃ a t, dump v = a :: t ∧ opens_value a.
Proof.
  intros Hp. destruct v as [|[]|z|f|s|l|d]; try done; try (eexists _, _; split; [reflexivity | done]).
  pose proof (dump_int_chars z) as Hc. cbn. destruct (dump_int z) as [|a t] eqn:E; [by destruct (dump_int_nonempty z)|].
  exists a, t. split; [done|]. apply Forall_cons in Hc as [Hc _]. by apply number_char_opens in Hc as [? _].
Qed.

Lemma skip_opens a l : is_blank a = false → skip_blanks (a :: l) = a :: l.
Proof. intros H. cbn. by rewrite H. Qed.

Lemma join_cons x l rest : l ≠ [] → join_text (x :: l) ++ rest = x ++ ","%char :: join_text l ++ rest.
Proof. destruct l; [done|]. intros _. cbn [join_text]. by rewrite <- app_assoc. Qed.

Lemma load_dumped_items load l acc fuel rest :
  (∀ v rest, v ∈ l → ends_number rest → load (dump v ++ rest) = Some (v, rest)) → l ≠ [] → (length l ≤ fuel)%nat →
  load_items load fuel acc (join_text (map dump l) ++ "]"%char :: rest) = Some (acc ++ l, rest).
Proof.
  revert acc fuel. induction l as [|v l IH]; intros acc fuel Hl Hne Hf; [done|]. destruct fuel as [|fuel]; [cbn in Hf; lia|].
  destruct (decide (l = [])) as [->|Hn].
  - cbn. rewrite Hl; [cbn; done | set_solver | done].
  - cbn [map]. rewrite join_cons by (by destruct l). cbn [load_items]. rewrite Hl; [|set_solver|done].
    cbn [mbind option_bind]. rewrite skip_opens, bool_decide_eq_true_2 by done.
    rewrite IH; [by rewrite <- app_assoc | intros; apply Hl; set_solver | done | cbn in Hf; lia].
Qed.

Lemma dict_put_fresh d k v : k ∉ map fst d → dict_put d k v = d ++ [(k, v)].
Proof. intros H. unfold dict_put. by rewrite bool_decide_eq_false_2. Qed.

Definition dump_pair (kv : string * json) : text := dump_str kv.1 ++ ":"%char :: dump kv.2.

Lemma load_dumped_pair load kv rest :
  load (dump kv.2 ++ rest) = Some (kv.2, rest) → load_pair load (dump_pair kv ++ rest) = Some (kv.1, kv.2, rest).
Proof.
  intros Hl. unfold dump_pair, dump_str. cbn [app]. rewrite <- !app_assoc. unfold load_pair. rewrite skip_opens by done.
  rewrite bool_decide_eq_true_2 by done. cbn [app]. rewrite load_dumped_chars. cbn [mbind option_bind].
  rewrite skip_opens, bool_decide_eq_true_2 by done. rewrite Hl. cbn. by rewrite of_chars_chars.
Qed.

Lemma load_dumped_pairs load d acc fuel rest :
  (∀ kv rest, kv ∈ d → ends_number rest → load (dump kv.2 ++ rest) = Some (kv.2, rest)) →
  NoDup (map fst (acc ++ d)) → d ≠ [] → (length d ≤ fuel)%nat →
  load_pairs load fuel acc (join_text (map dump_pair d) ++ "}"%char :: rest) = Some (acc ++ d, rest).
Proof.
  revert acc fuel. induction d as [|kv d IH]; intros acc fuel Hl Hk Hne Hf; [done|]. destruct fuel as [|fuel]; [cbn in Hf; lia|].
  assert (Hput : dict_put acc kv.1 kv.2 = acc ++ [kv]).
  { rewrite map_app in Hk. apply NoDup_app in Hk as (_ & Hd & _). rewrite dict_put_fresh; [by destruct kv|].
    intros Hin. apply (Hd _ Hin). cbn. left. }
  destruct (decide (d = [])) as [->|Hn].
  - cbn [map join_text load_pairs]. rewrite load_dumped_pair by (apply Hl; [set_solver | done]). cbn. by rewrite Hput.
  - cbn [map]. rewrite join_cons by (by destruct d). cbn [load_pairs].
    rewrite load_dumped_pair by (apply Hl; [set_solver | done]). cbn [mbind option_bind].
    rewrite skip_opens, bool_decide_eq_true_2 by done. rewrite Hput.
    rewrite IH; [by rewrite <- app_assoc | intros; apply Hl; set_solver | by rewrite <- app_assoc | done | cbn in Hf; lia].
Qed.

Lemma weight_list l v : v ∈ l → (weight v ≤ foldr (fun x m => Nat.max (weight x) m) (length l) l)%nat.
Proof. generalize (length l). intros n H. induction H as [|v w l _ IH]; cbn; lia. Qed.
Lemma weight_length l : (length l ≤ foldr (fun x m => Nat.max (weight x) m) (length l) l)%nat.
Proof. generalize (length l). intros n. induction l; cbn; lia. Qed.
Lemma weight_dict (d : list (string * json)) kv : kv ∈ d → (weight kv.2 ≤ foldr (fun kv m => Nat.max (weight kv.2) m) (length d) d)%nat.
Proof. generalize (length d). intros n H. induction H as [|v w l _ IH]; cbn; lia. Qed.
Lemma weight_dict_length (d : list (string * json)) : (length d ≤ foldr (fun kv m => Nat.max (weight kv.2) m) (length d) d)%nat.
Proof. generalize (length d). intros n. induction d; cbn; lia. Qed.

Lemma load_dumped fuel v rest :
  (weight v ≤ fuel)%nat → plain v = true → ends_number rest → load_value fuel (dump v ++ rest) = Some (v, rest).
Proof.
  revert v rest. induction fuel as [|fuel IH]; intros v rest Hw Hp Hr; [destruct v; cbn in Hw; lia|].
  destruct v as [|[]|z|f|s|l|d]; try done.
  - cbn [dump]. pose proof (dump_int_chars z) as Hc. pose proof (load_dumped_number z rest Hr) as Hn.
    destruct (dump_int z) as [|a t] eqn:E; [by destruct (dump_int_nonempty z)|]. apply Forall_cons in Hc as [Hc _].
    pose proof (number_char_opens a Hc) as ((Hb & _) & H1 & H2 & H3). cbn [app load_value]. rewrite skip_opens by done.
    by rewrite !bool_decide_eq_false_2, Hc by done.
  - cbn [dump]. unfold dump_str. cbn [app load_value]. rewrite skip_opens by done. rewrite bool_decide_eq_true_2 by done.
    rewrite <- app_assoc. cbn [app]. rewrite load_dumped_chars. cbn. by rewrite of_chars_chars.
  - cbn [dump]. cbn [app load_value]. rewrite skip_opens by done. rewrite bool_decide_eq_false_2, bool_decide_eq_true_2 by done.
    rewrite <- app_assoc. cbn [app]. destruct l as [|v l]; [done|].
    cbn in Hw, Hp. apply andb_true_iff in Hp as [Hv Hp]. rewrite forallb_forall in Hp.
    assert (Hs : strip_text ["]"%char] (skip_blanks (join_text (map dump (v :: l)) ++ "]"%char :: rest)) = None).
    { destruct (dump_opens v Hv) as (a & t & E & Hb & Hc & _). cbn [map]. destruct l as [|v' l]; cbn [map join_text]; rewrite E;
      cbn [app]; rewrite skip_opens by done; cbn; by rewrite bool_decide_eq_false_2. }
    rewrite Hs. rewrite load_dumped_items; [done| |done|].
    + intros x r Hx Hr'. apply IH; [|apply elem_of_cons in Hx as [->|Hx]; [done | apply Hp; by apply list_elem_of_In]|done].
      pose proof (weight_list (v :: l) x Hx) as Hle. cbn in Hle. lia.
    + pose proof (weight_length (v :: l)) as Hle. cbn in Hle |- *. lia.
  - cbn [dump]. cbn [app load_value]. rewrite skip_opens by done.
    rewrite bool_decide_eq_false_2, bool_decide_eq_false_2, bool_decide_eq_true_2 by done.
    rewrite <- app_assoc. cbn [app]. destruct d as [|kv d]; [done|].
    cbn [plain] in Hp. apply andb_true_iff in Hp as [Hk%bool_decide_eq_true Hp]. rewrite forallb_forall in Hp.
    change (map (fun kv => dump_str kv.1 ++ ":"%char :: dump kv.2) (kv :: d)) with (map dump_pair (kv :: d)).
    assert (Hs : strip_text ["}"%char] (skip_blanks (join_text (map dump_pair (kv :: d)) ++ "}"%char :: rest)) = None).
    { cbn [map]. destruct d as [|kv' d]; reflexivity. }
    rewrite Hs. rewrite load_dumped_pairs; [done| |done|done|].
    + intros x r Hx Hr'. apply IH; [|apply Hp; by apply list_elem_of_In|done].
      pose proof (weight_dict (kv :: d) x Hx) as Hle. cbn in Hle, Hw. lia.
    + pose proof (weight_dict_length (kv :: d)) as Hle. cbn in Hle, Hw |- *. lia.
Qed.

Lemma length_join l : Forall (fun x => x ≠ []) l → (length l ≤ length (join_text l))%nat.
Proof.
  induction 1 as [|x l Hx _ IH]; [done|]. destruct x as [|a x]; [done|]. destruct l as [|y l]; cbn; [lia|].
  rewrite length_app. cbn in *. lia.
Qed.

Lemma length_join_elem l x : x ∈ l → (length x ≤ length (join_text l))%nat.
Proof.
  induction 1 as [x l|x y l Hx IH]; [destruct l; cbn; [lia | rewrite length_app; lia]|].
  destruct l as [|z l]; [by apply elem_of_nil in Hx|]. cbn in *. rewrite length_app. cbn. lia.
Qed.

Lemma foldr_max_le {A} (f : A → nat) l n m : (n ≤ m)%nat → (∀ x, x ∈ l → f x ≤ m)%nat → (foldr (fun x m => Nat.max (f x) m) n l ≤ m)%nat.
Proof.
  intros Hn. induction l as [|x l IH]; cbn; intros Hl; [done|]. pose proof (Hl x ltac:(set_solver)).
  assert (∀ y, y ∈ l → f y ≤ m)%nat by (intros; apply Hl; set_solver). specialize (IH H0). lia.
Qed.

Lemma weight_dump fuel v : (weight v ≤ fuel)%nat → plain v = true → (weight v ≤ length (dump v))%nat.
Proof.
  revert v. induction fuel as [|fuel IH]; intros v Hw Hp; [destruct v; cbn in Hw; lia|].
  destruct v as [|[]|z|f|s|l|d]; try done; try (cbn; lia).
  - cbn. pose proof (dump_int_nonempty z). destruct (dump_int z); [done | cbn; lia].
  - cbn [dump weight plain] in *. rewrite forallb_forall in Hp. cbn [length]. rewrite length_app. cbn.
    enough (foldr (fun x m => Nat.max (weight x) m) (length l) l ≤ length (join_text (map dump l)))%nat by lia.
    apply foldr_max_le.
    + rewrite <- (length_map dump). apply length_join. apply Forall_map, Forall_forall. intros x Hx.
      destruct (dump_opens x) as (a & t & -> & _); [|done]. by apply Hp, list_elem_of_In.
    + intros x Hx. assert (Hx' : plain x = true) by (by apply Hp, list_elem_of_In). pose proof (weight_list l x Hx).
      etrans; [apply IH; [lia|done]|]. by apply length_join_elem, list_elem_of_fmap_2.
  - cbn [dump weight plain] in *. apply andb_true_iff in Hp as [_ Hp]. rewrite forallb_forall in Hp. cbn [length]. rewrite length_app. cbn [length].
    change (map (fun kv => dump_str kv.1 ++ ":"%char :: dump kv.2) d) with (map dump_pair d).
    enough (foldr (fun kv m => Nat.max (weight kv.2) m) (length d) d ≤ length (join_text (map dump_pair d)))%nat by lia.
    apply foldr_max_le.
    + rewrite <- (length_map dump_pair). apply length_join. apply Forall_map, Forall_forall. done.
    + intros x Hx. assert (Hx' : plain x.2 = true) by (by apply Hp, list_elem_of_In). pose proof (weight_dict d x Hx).
      etrans; [apply IH; [lia|done]|]. etrans; [|by apply length_join_elem, list_elem_of_fmap_2].
      unfold dump_pair. rewrite length_app. cbn. lia.
Qed.

(** [json.loads] reads what [json.dumps] wrote. *)
Theorem loads_dumps v : plain v = true → loads (dumps v) = Ok v.
Proof.
  intros Hp. unfold loads, dumps. rewrite chars_of_chars.
  assert (Hl : String.length (of_chars (dump v)) = length (dump v)).
  { unfold of_chars. induction (dump v) as [|a l IH]; cbn; [done | by rewrite IH]. }
  rewrite Hl. rewrite <- (app_nil_r (dump v)) at 2.
  rewrite load_dumped; [done | pose proof (weight_dump (weight v) v ltac:(done) Hp); lia | done | done].
Qed.
