(* ===== verification/VaultPaths.v ===== *)
(** * VaultPaths: logical paths, local paths and cloud keys

    Models [src/app/services/vault_paths.py].  [PurePosixPath] is modelled by
    its parts: splitting at ['/'] and dropping empty and ["."] components.  The
    file system ([Path.resolve], [is_symlink]) is the record [fs_view]; an
    absolute path is the list of its parts below the root. *)
From S2P Require Import Prelude Sql PyString.
From Stdlib Require Import Ascii.

(** ** PurePosixPath *)
Definition posix_parts (s : string) : list string :=
  List.filter (fun p => negb ((p =b "") || (p =b "."))) (split_on slash s).

Definition posix_is_absolute (s : string) : bool := starts_with "/" s.

(** [as_posix()] of a relative path with these parts. *)
Definition as_posix (parts : list string) : string :=
  match parts with [] => "." | _ => join "/" parts end.

(** ** Model *)
Definition nul : ascii := zero.

Definition is_alpha (a : ascii) : bool :=
  let n := nat_of_ascii a in
  ((65 <=? n) && (n <=? 90))%nat || ((97 <=? n) && (n <=? 122))%nat.

(** [re.match(r"^[A-Za-z]:/", s)]. *)
Definition has_drive (s : string) : bool :=
  match s with
  | String a (String b (String c _)) => is_alpha a && (b =b ":"%char) && (c =b slash)
  | _ => false
  end.

Definition safe_relative_path (value : string) : result (list string) :=
  raise! InvalidLogicalPath when has_char nul value;
  let normalized := replace_char backslash slash value in
  raise! InvalidLogicalPath when has_drive normalized;
  let parts := posix_parts normalized in
  raise! InvalidLogicalPath when
    posix_is_absolute normalized || (bool_decide (parts = [])) || (".." ∈b parts);
  Ok parts.

(** The file system as the path functions see it. *)
Record fs_view := {
  fs_absolute : string → list string;   (* [Path(text)] made absolute *)
  fs_resolve : list string → list string;
  fs_is_symlink : list string → bool;
}.

(** [root in path.parents or path == root]. *)
Definition is_below (root path : list string) : bool := bool_decide (root `prefix_of` path).

Definition safe_local_entry_path (fs : fs_view) (root_value logical_path : string)
  : result (list string) :=
  let root := fs_resolve fs (fs_absolute fs root_value) in
  relative ← safe_relative_path logical_path;
  let candidate := root ++ relative in
  let parent := fs_resolve fs (removelast candidate) in
  raise! ValueError "Path is outside the allowed folder" when negb (is_below root parent);
  raise! ValueError "Symbolic links are not allowed" when fs_is_symlink fs candidate;
  Ok candidate.

Definition safe_local_path (fs : fs_view) (root_value logical_path : string)
  : result (list string) :=
  let root := fs_resolve fs (fs_absolute fs root_value) in
  candidate ← safe_local_entry_path fs root_value logical_path;
  let resolved := fs_resolve fs candidate in
  raise! ValueError "Path is outside the allowed folder" when negb (is_below root resolved);
  Ok resolved.

Definition cloud_relative_key (key prefix_value : string) : option string :=
  let stripped := strip_slash prefix_value in
  let prefix := if stripped =b "" then "" else stripped +:+ "/" in
  if (prefix <>b "") && negb (starts_with prefix key) then None
  else
    let relative := drop_chars (String.length prefix) key in
    if (relative =b "") || ends_with "/" relative then None else Some relative.

Definition object_key_to_path (key prefix_value : string) : option string :=
  match cloud_relative_key key prefix_value with
  | None => None
  | Some relative =>
      if (relative =b "") || ends_with "/" relative then None
      else match safe_relative_path relative with
           | Ok parts => Some (as_posix parts)
           | Raise _ => None
           end
  end.

Definition expected_cloud_key (logical_path prefix_value : string) : result string :=
  parts ← safe_relative_path logical_path;
  let relative := as_posix parts in
  let prefix := strip_slash prefix_value in
  Ok (if prefix =b "" then relative else prefix +:+ "/" +:+ relative).

(** ** Temporary names *)

Definition is_hex (a : ascii) : bool :=
  let n := nat_of_ascii a in
  ((48 <=? n) && (n <=? 57))%nat || ((97 <=? n) && (n <=? 102))%nat.

Definition is_alnum (a : ascii) : bool :=
  let n := nat_of_ascii a in is_alpha a || ((48 <=? n) && (n <=? 57))%nat.

Fixpoint all_chars (p : ascii → bool) (s : string) : bool :=
  match s with EmptyString => true | String a s => p a && all_chars p s end.

(** [dots s]: [.+] matches [s] ([.] does not match a newline). *)
Definition dots (s : string) : bool :=
  (s <>b "") && all_chars (fun a => negb (a =b "010"%char)) s.

(** All ways to cut a text in two. *)
Fixpoint cuts (s : string) : list (string * string) :=
  ("", s) :: match s with
             | EmptyString => []
             | String a s => map (fun p => (String a p.1, p.2)) (cuts s)
             end.

(** [\..+\.<marker>-[0-9a-f]{32}\.tmp<tail>]. *)
Definition temporary_name (marker : string) (tail : string → bool) (name : string) : bool :=
  match name with
  | String d name =>
      (d =b "."%char)
      && existsb (fun '(stem, rest) =>
           dots stem
           && starts_with ("." +:+ marker +:+ "-") rest
           && (let rest := drop_chars (String.length ("." +:+ marker +:+ "-")) rest in
               let digits := take_chars 32 rest in
               let rest := drop_chars 32 rest in
               (String.length digits =? 32)%nat && all_chars is_hex digits
               && starts_with ".tmp" rest && tail (drop_chars 4 rest)))
         (cuts name)
  | EmptyString => false
  end.

(** [(?:\.[A-Za-z0-9]{8})?]. *)
Definition transfer_suffix (s : string) : bool :=
  (s =b "")
  || match s with
     | String d s => (d =b "."%char) && (String.length s =? 8)%nat && all_chars is_alnum s
     | EmptyString => false
     end.

(** [\..+\.partial]. *)
Definition partial_suffix (s : string) : bool :=
  match s with
  | String d s => (d =b "."%char) && existsb (fun '(a, b) => dots a && (b =b ".partial")) (cuts s)
  | EmptyString => false
  end.

Definition is_restore_temporary_name (name : string) : bool :=
  temporary_name "restore" (fun s => transfer_suffix s || partial_suffix s) name
  || temporary_name "cleanup" (fun s => s =b "") name
  || temporary_name "verify" transfer_suffix name.

(** ** Lemmas *)
Definition good_part (p : string) : Prop :=
  p ≠ "" ∧ p ≠ "." ∧ p ≠ ".." ∧ has_char slash p = false ∧ has_char backslash p = false
  ∧ has_char nul p = false.

Lemma elem_of_posix_parts s p :
  p ∈ posix_parts s ↔ p ∈ split_on slash s ∧ p ≠ "" ∧ p ≠ ".".
Proof.
  unfold posix_parts. rewrite list_elem_of_In, filter_In, <- list_elem_of_In, negb_true_iff,
    orb_false_iff, !bool_decide_eq_false. done.
Qed.

Lemma has_char_split c d s p : p ∈ split_on d s → has_char c s = false → has_char c p = false.
Proof.
  revert p; induction s as [|a s IH]; cbn; intros p.
  - by intros ->%list_elem_of_singleton.
  - intros Hp [H1 H2]%orb_false_iff. destruct (split_on_cons d s) as (h & l & E). rewrite E in *.
    destruct (bool_decide (a = d)); apply elem_of_cons in Hp as [->|Hp];
      [done|by apply IH| |apply IH; [by right|done]].
    cbn. rewrite H1. apply IH; [by left|done].
Qed.

Lemma has_char_replace a b s : a ≠ b → has_char a (replace_char a b s) = false.
Proof.
  intros Hab. unfold replace_char. induction s as [|c s IH]; cbn; [done|]. rewrite IH, orb_false_r.
  apply bool_decide_eq_false_2. case_bool_decide; congruence.
Qed.

Lemma has_char_replace_other a b c s :
  c ≠ b → has_char c s = false → has_char c (replace_char a b s) = false.
Proof.
  intros Hb. unfold replace_char. induction s as [|d s IH]; cbn; [done|].
  intros [H1 H2]%orb_false_iff. rewrite IH, orb_false_r by done. bsimpl.
  apply bool_decide_eq_false_2. case_bool_decide; congruence.
Qed.

Lemma replace_char_none a b s : has_char a s = false → replace_char a b s = s.
Proof.
  unfold replace_char. induction s as [|c s IH]; cbn; [done|]. intros [H1 H2]%orb_false_iff.
  by rewrite H1, IH.
Qed.

Lemma has_char_app c s t : has_char c (s +:+ t) = has_char c s || has_char c t.
Proof. induction s as [|a s IH]; [done|]. cbn. by rewrite IH, orb_assoc. Qed.

Lemma has_char_join c l :
  c ≠ slash → Forall (fun p => has_char c p = false) l → has_char c (join "/" l) = false.
Proof.
  intros Hc. induction 1 as [|p l Hp Hl IH]; [done|]. destruct l as [|q l]; [done|].
  change (join "/" (p :: q :: l)) with (p +:+ ("/" +:+ join "/" (q :: l))).
  rewrite !has_char_app, Hp, IH. cbn. by rewrite bool_decide_eq_false_2.
Qed.

Lemma safe_relative_path_ok v parts :
  safe_relative_path v = Ok parts ↔
  has_char nul v = false ∧ has_drive (replace_char backslash slash v) = false
  ∧ posix_is_absolute (replace_char backslash slash v) = false
  ∧ parts = posix_parts (replace_char backslash slash v) ∧ parts ≠ [] ∧ ".." ∉ parts.
Proof.
  unfold safe_relative_path. rewrite !raise_if_bind_ok, !orb_false_iff, !bool_decide_eq_false. split.
  - intros (? & ? & ((? & ?) & ?) & [= <-]). done.
  - intros (? & ? & ? & -> & ? & ?). done.
Qed.

Lemma safe_parts_good v parts :
  safe_relative_path v = Ok parts → parts ≠ [] ∧ Forall good_part parts.
Proof.
  intros (Hn & _ & _ & -> & Hne & Hdd)%safe_relative_path_ok. split; [done|].
  apply Forall_forall. intros p Hp. assert (Hp' := Hp).
  apply elem_of_posix_parts in Hp as (Hs & H1 & H2). repeat split; try done.
  - by intros ->.
  - by eapply split_on_pieces.
  - eapply has_char_split; [done|]. by apply has_char_replace.
  - eapply has_char_split; [done|]. by apply has_char_replace_other.
Qed.

(** The parts name a drive: ["C:"] followed by something. *)
Definition drive_parts (parts : list string) : bool :=
  match parts with
  | String a (String b EmptyString) :: _ :: _ => is_alpha a && (b =b ":"%char)
  | _ => false
  end.

Lemma posix_parts_join parts :
  parts ≠ [] → Forall good_part parts → posix_parts (join "/" parts) = parts.
Proof.
  intros Hne Hg. unfold posix_parts. rewrite split_join; [|done|eapply Forall_impl; [exact Hg|unfold good_part; tauto]].
  apply forallb_filter_id, forallb_forall. intros p Hp. apply list_elem_of_In in Hp.
  rewrite Forall_forall in Hg. destruct (Hg p Hp) as (? & ? & _).
  by rewrite !bool_decide_eq_false_2.
Qed.

Lemma has_drive_join parts :
  Forall good_part parts → drive_parts parts = false → has_drive (join "/" parts) = false.
Proof.
  destruct parts as [|p parts]; [done|]. intros [Hp _]%Forall_cons Hd.
  destruct Hp as (H1 & _ & _ & Hs & _).
  destruct parts as [|q parts].
  - cbn. destruct p as [|a [|b [|c p]]]; try done. cbn in Hs |- *.
    rewrite !orb_false_iff in Hs. destruct Hs as (_ & _ & -> & _). by rewrite andb_false_r.
  - change (join "/" (p :: q :: parts)) with (p +:+ ("/" +:+ join "/" (q :: parts))).
    generalize (join "/" (q :: parts)); intros r.
    destruct p as [|a [|b [|c p]]]; try done.
    + destruct r as [|x r]; [done|]. cbn.
      rewrite (bool_decide_eq_false_2 (slash = ":"%char)) by done. by rewrite andb_false_r.
    + cbn in Hd |- *. by rewrite Hd.
    + cbn in Hs |- *. rewrite !orb_false_iff in Hs. destruct Hs as (_ & _ & -> & _).
      by rewrite andb_false_r.
Qed.

Lemma not_absolute_join parts :
  parts ≠ [] → Forall good_part parts → posix_is_absolute (join "/" parts) = false.
Proof.
  destruct parts as [|p parts]; [done|]. intros _ [Hp _]%Forall_cons.
  destruct Hp as (H1 & _ & _ & Hs & _). destruct p as [|a p]; [done|].
  cbn in Hs. apply orb_false_iff in Hs as [Ha _]. bsimpl.
  unfold posix_is_absolute. destruct parts; cbn; rewrite bool_decide_eq_false_2; done.
Qed.

Lemma safe_relative_path_join parts :
  parts ≠ [] → Forall good_part parts → drive_parts parts = false →
  safe_relative_path (join "/" parts) = Ok parts.
Proof.
  intros Hne Hg Hd. apply safe_relative_path_ok.
  assert (Hb : has_char backslash (join "/" parts) = false).
  { apply has_char_join; [done|]. eapply Forall_impl; [exact Hg|]. unfold good_part. tauto. }
  rewrite (replace_char_none _ _ _ Hb), posix_parts_join, not_absolute_join, has_drive_join by done.
  repeat split; try done.
  - apply has_char_join; [done|]. eapply Forall_impl; [exact Hg|]. unfold good_part. tauto.
  - intros Hin. rewrite Forall_forall in Hg. destruct (Hg _ Hin) as (_ & _ & ? & _). done.
Qed.

Lemma join_no_trailing_slash parts :
  parts ≠ [] → Forall good_part parts → ends_with "/" (join "/" parts) = false.
Proof.
  intros Hne Hg. apply not_true_iff_false. rewrite ends_with_spec. intros [t Ht].
  assert (Hsplit : split_on slash (join "/" parts) = parts).
  { apply split_join; [done|]. eapply Forall_impl; [exact Hg|]. unfold good_part. tauto. }
  rewrite Ht, (split_on_app slash t "" : split_on slash (t +:+ "/") = _) in Hsplit.
  assert (Hin : "" ∈ parts) by (rewrite <- Hsplit; apply elem_of_app; right; by left).
  rewrite Forall_forall in Hg. by destruct (Hg _ Hin).
Qed.

Lemma join_nonempty parts : parts ≠ [] → Forall good_part parts → join "/" parts ≠ "".
Proof.
  destruct parts as [|p parts]; [done|]. intros _ [(Hp & _) _]%Forall_cons.
  destruct p as [|a p]; [done|]. by destruct parts.
Qed.

Lemma as_posix_join parts : parts ≠ [] → as_posix parts = join "/" parts.
Proof. by destruct parts. Qed.

Lemma cloud_relative_key_roundtrip parts prefix :
  parts ≠ [] → Forall good_part parts →
  cloud_relative_key (if strip_slash prefix =b "" then join "/" parts
                      else strip_slash prefix +:+ "/" +:+ join "/" parts) prefix
  = Some (join "/" parts).
Proof.
  intros Hne Hg. unfold cloud_relative_key.
  assert (Hfin : (join "/" parts =b "") || ends_with "/" (join "/" parts) = false).
  { rewrite bool_decide_eq_false_2 by by apply join_nonempty. by apply join_no_trailing_slash. }
  destruct (strip_slash prefix =b "") eqn:E; cbn [negb andb].
  - rewrite (bool_decide_eq_true_2 ("" = "")) by done. cbn [negb andb String.length drop_chars].
    by rewrite Hfin.
  - rewrite (assoc_L String.append (strip_slash prefix) "/" (join "/" parts)).
    rewrite (proj2 (starts_with_spec _ _)), andb_false_r by (by eexists).
    rewrite drop_chars_app, Hfin. done.
Qed.

(** ** Properties *)

(** An accepted path is canonical and traversal-safe: it has at least one part,
    and no part is empty, ["."], [".."] or contains a separator (of either kind)
    or NUL.  Unless the parts spell a drive, submitting the normalised text again
    gives the same parts. *)
Theorem safe_relative_path_canonical value parts :
  safe_relative_path value = Ok parts →
  parts ≠ [] ∧ Forall good_part parts
  ∧ (drive_parts parts = false → safe_relative_path (as_posix parts) = Ok parts).
Proof.
  intros H. destruct (safe_parts_good value parts H) as [Hne Hg]. split; [done|]. split; [done|].
  intros Hd. rewrite as_posix_join by done. by apply safe_relative_path_join.
Qed.

Lemma safe_relative_path_canonical_witness :
  safe_relative_path "docs/a.txt" = Ok ["docs"; "a.txt"]
  ∧ safe_relative_path (as_posix ["docs"; "a.txt"]) = Ok ["docs"; "a.txt"].
Proof.
  split; [reflexivity|].
  apply (safe_relative_path_canonical "docs\.\a.txt"); reflexivity.
Defined.

(** The cloud key of a logical path leads back to it.  For every accepted path
    that does not spell a drive and every Vault prefix, reading the key that
    [expected_cloud_key] builds under the same prefix gives the normalised path. *)
Theorem cloud_key_roundtrip path prefix parts :
  safe_relative_path path = Ok parts → drive_parts parts = false →
  ∃ key, expected_cloud_key path prefix = Ok key
    ∧ object_key_to_path key prefix = Some (as_posix parts).
Proof.
  intros H Hd. destruct (safe_parts_good path parts H) as [Hne Hg].
  unfold expected_cloud_key. rewrite H. cbn. eexists. split; [done|].
  rewrite as_posix_join by done. unfold object_key_to_path.
  rewrite cloud_relative_key_roundtrip by done.
  rewrite bool_decide_eq_false_2 by by apply join_nonempty.
  rewrite join_no_trailing_slash by done. cbn.
  rewrite safe_relative_path_join by done. by rewrite as_posix_join.
Qed.

Lemma cloud_key_roundtrip_witness :
  ∃ key, expected_cloud_key "docs/a.txt" "/vaults/u1/" = Ok key
    ∧ object_key_to_path key "/vaults/u1/" = Some "docs/a.txt".
Proof. apply (cloud_key_roundtrip "docs/a.txt" "/vaults/u1/" ["docs"; "a.txt"]); reflexivity. Defined.

(** The drive check can be bypassed.  ["./C:/x"] is accepted and normalised to
    the logical path ["C:/x"], which the same function then refuses, so no cloud
    key leads back to it. *)
Theorem drive_check_bypassed :
  safe_relative_path "./C:/x" = Ok ["C:"; "x"]
  ∧ safe_relative_path (as_posix ["C:"; "x"]) = Raise InvalidLogicalPath
  ∧ expected_cloud_key "./C:/x" "p" = Ok "p/C:/x"
  ∧ object_key_to_path "p/C:/x" "p" = None.
Proof. repeat split; reflexivity. Qed.

Lemma safe_local_path_confined fs root_value logical_path path :
  safe_local_path fs root_value logical_path = Ok path →
  let root := fs_resolve fs (fs_absolute fs root_value) in
  root `prefix_of` path
  ∧ ∃ candidate, path = fs_resolve fs candidate ∧ fs_is_symlink fs candidate = false
      ∧ root `prefix_of` fs_resolve fs (removelast candidate)
      ∧ ∃ parts, safe_relative_path logical_path = Ok parts ∧ candidate = root ++ parts.
Proof.
  unfold safe_local_path, safe_local_entry_path, is_below. intros H. inv_ok. subst.
  repeat match goal with H : negb _ = false |- _ => apply negb_false_iff, bool_decide_eq_true in H end.
  split; [done|]. eexists. repeat split; try done. by eexists.
Qed.
