(* ===== verification/Schema.v ===== *)
(** * Schema: the catalog tables the components share

    One record per table of [migrations/versions], restricted to the columns
    the modelled operations read or write.  A nullable column is an [option];
    a CHECK-constrained text column is an enumeration with the source's values;
    [jobs.status], [jobs.action] and [jobs.origin] stay text because their
    admitted values change over the migrations.  A time stamp, stored as the
    ISO-8601 text of a UTC instant and compared as text, is the instant itself
    in microseconds: for UTC instants of four-digit years the two orders agree.
    The advisory cost estimates of recovery Jobs ([estimated_cost_eur],
    [estimated_hours]) are left out: no modelled operation reads them. *)
From S2P Require Import Prelude Sql.

Definition timestamp := Z.
Definition seconds (n : Z) : Z := n * 1000000.
Definition days (n : Z) : Z := seconds (n * 86400).

(** ** CHECK-constrained columns *)
Inductive presence := Present | Missing | Unsupported.
Inductive file_type := Regular | Symlink | OtherType.
Inductive integrity := Unverified | Verified | Mismatch.
Inductive availability := Unknown | Available | AvMissing | Purged.
Inductive file_status := Active | Retired | FilePurged.
Inductive version_origin := Upload | Discovered | Legacy.

#[global] Instance presence_eq_dec : EqDecision presence.
Proof. solve_decision. Defined.
#[global] Instance file_type_eq_dec : EqDecision file_type.
Proof. solve_decision. Defined.
#[global] Instance integrity_eq_dec : EqDecision integrity.
Proof. solve_decision. Defined.
#[global] Instance availability_eq_dec : EqDecision availability.
Proof. solve_decision. Defined.
#[global] Instance file_status_eq_dec : EqDecision file_status.
Proof. solve_decision. Defined.
#[global] Instance version_origin_eq_dec : EqDecision version_origin.
Proof. solve_decision. Defined.

(** ** Rows *)
Record vault_file := {
  vf_id : string;
  vf_vault_id : Z;
  vf_status : file_status;
  vf_created_at : timestamp;
  vf_retired_at : option timestamp;
}.

Record file_path := {
  fp_vault_file_id : string;
  fp_vault_id : Z;
  fp_path : string;
  fp_valid_from : timestamp;
  fp_valid_to : option timestamp;
}.

(** Where S3 keeps the version, and since when. *)
Record version_placement := {
  vp_etag : option string;
  vp_uploaded_at : timestamp;
  vp_discovered_at : timestamp;
  vp_storage_class_source : option string;
  vp_restore_expiry : option timestamp;
  vp_restore_checked_at : option timestamp;
}.

(** The upload snapshot a version was sent with, and how it was verified. *)
Record version_evidence := {
  ve_upload_snapshot : option string;
  ve_verification_requested : option string;
  ve_method : option string;
  ve_fallback_reason : option string;
  ve_egress_bytes : option Z;
  ve_provider_checksums : option string;
}.

Record archive_version := {
  av_id : string;
  av_vault_file_id : string;
  av_vault_id : Z;
  av_version_number : Z;
  av_object_key : option string;
  av_provider_version_id : option string;
  av_size : option Z;
  av_storage_class : option string;
  av_plaintext_sha256 : option string;
  av_origin : version_origin;
  av_integrity : integrity;
  av_verified_at : option timestamp;
  av_availability : availability;
  av_availability_checked_at : option timestamp;
  av_restore_state : option string;
  av_placement : version_placement;
  av_evidence : version_evidence;
}.

Definition new_placement (discovered_at : timestamp) : version_placement :=
  {| vp_etag := None; vp_uploaded_at := discovered_at; vp_discovered_at := discovered_at;
     vp_storage_class_source := None; vp_restore_expiry := None; vp_restore_checked_at := None |}.

Definition no_evidence : version_evidence :=
  {| ve_upload_snapshot := None; ve_verification_requested := None; ve_method := None;
     ve_fallback_reason := None; ve_egress_bytes := None; ve_provider_checksums := None |}.

Record delete_marker := {
  dm_id : string;
  dm_vault_file_id : string;
  dm_vault_id : Z;
  dm_object_key : string;
  dm_provider_version_id : string;
  dm_created_at : timestamp;
  dm_discovered_at : timestamp;
}.

Record local_copy := {
  lc_vault_file_id : string;
  lc_presence : presence;
  lc_file_type : file_type;
  lc_size : option Z;
  lc_mtime_ns : option Z;
  lc_plaintext_sha256 : option string;
  lc_matched_archive_version_id : option string;
  lc_cloud_only_version_id : option string;
  lc_last_seen_at : option timestamp;
  lc_observed_at : timestamp;
  lc_content_observed_at : option timestamp;
  lc_recovered_at : option timestamp;
}.

(** The columns of a Job only uploads use. *)
Record job_upload := {
  ju_plaintext_sha256 : option string;
  ju_snapshot : option string;
  ju_reconcile_only : bool;
  ju_retry_count : Z;
}.

Definition no_upload : job_upload :=
  {| ju_plaintext_sha256 := None; ju_snapshot := None; ju_reconcile_only := false; ju_retry_count := 0 |}.

Record job := {
  j_id : Z;
  j_vault_id : Z;
  j_vault_file_id : string;
  j_archive_version_id : option string;
  j_path : string;
  j_action : string;
  j_status : string;
  j_origin : string;
  j_message : option string;
  j_message_key : option string;
  j_message_params : option string;
  j_requested_by : option Z;
  j_requested_at : timestamp;
  j_updated_at : timestamp;
  j_group_id : option string;
  j_group_path : option string;
  j_total_bytes : Z;
  j_transferred_bytes : Z;
  j_reason : option string;
  j_confirmation_phrase : option string;
  j_restore_tier : option string;
  j_restore_days : option Z;
  j_target_storage_class : option string;
  j_upload_verification_requested : option string;
  j_pending_until : option timestamp;
  j_retry_after : option timestamp;
  j_claim_token : option string;
  j_claimed_at : option timestamp;
  j_claim_expires_at : option timestamp;
  j_upload : job_upload;
}.

(** The assignments several UPDATE statements on [jobs] share. *)
Definition set_claim (token : option string) (at_ expires : option timestamp) (j : job) : job :=
  {| j_id := j_id j; j_vault_id := j_vault_id j; j_vault_file_id := j_vault_file_id j;
     j_archive_version_id := j_archive_version_id j; j_path := j_path j; j_action := j_action j;
     j_status := j_status j; j_origin := j_origin j; j_message := j_message j;
     j_message_key := j_message_key j; j_message_params := j_message_params j;
     j_requested_by := j_requested_by j; j_requested_at := j_requested_at j;
     j_updated_at := j_updated_at j; j_group_id := j_group_id j; j_group_path := j_group_path j;
     j_total_bytes := j_total_bytes j; j_transferred_bytes := j_transferred_bytes j;
     j_reason := j_reason j; j_confirmation_phrase := j_confirmation_phrase j;
     j_restore_tier := j_restore_tier j; j_restore_days := j_restore_days j;
     j_target_storage_class := j_target_storage_class j;
     j_upload_verification_requested := j_upload_verification_requested j;
     j_pending_until := j_pending_until j; j_retry_after := j_retry_after j;
     j_claim_token := token; j_claimed_at := at_; j_claim_expires_at := expires; j_upload := j_upload j |}.

(** [SET status, message, message_key, message_params=NULL, updated_at]. *)
Definition set_status (status : string) (message message_key : option string) (at_ : timestamp)
    (j : job) : job :=
  {| j_id := j_id j; j_vault_id := j_vault_id j; j_vault_file_id := j_vault_file_id j;
     j_archive_version_id := j_archive_version_id j; j_path := j_path j; j_action := j_action j;
     j_status := status; j_origin := j_origin j; j_message := message;
     j_message_key := message_key; j_message_params := None;
     j_requested_by := j_requested_by j; j_requested_at := j_requested_at j;
     j_updated_at := at_; j_group_id := j_group_id j; j_group_path := j_group_path j;
     j_total_bytes := j_total_bytes j; j_transferred_bytes := j_transferred_bytes j;
     j_reason := j_reason j; j_confirmation_phrase := j_confirmation_phrase j;
     j_restore_tier := j_restore_tier j; j_restore_days := j_restore_days j;
     j_target_storage_class := j_target_storage_class j;
     j_upload_verification_requested := j_upload_verification_requested j;
     j_pending_until := j_pending_until j; j_retry_after := j_retry_after j;
     j_claim_token := j_claim_token j; j_claimed_at := j_claimed_at j;
     j_claim_expires_at := j_claim_expires_at j; j_upload := j_upload j |}.

Record vault := {
  va_id : Z;
  va_enabled : bool;
  va_decommission_state : option string;
  va_relocation_state : string;
  va_source_root : string;
  va_name : string;
  va_s3_prefix : string;
  va_root_released_at : option timestamp;
  va_decommissioned_at : option timestamp;
  va_root_identity : option string;
  va_root_identity_version : option string;
}.

(** A row of [vault_operation_policies]; the glob columns hold JSON lists. *)
Record policy_row := {
  pr_vault_id : Z;
  pr_auto_upload : bool;
  pr_local_release_after_days : option Z;
  pr_stability_seconds : Z;
  pr_include_globs : list string;
  pr_exclude_globs : list string;
  pr_upload_verification : option string;
  pr_suspended_at : option timestamp;
}.

Record cloud_deletion_item := {
  cdi_id : Z;
  cdi_job_id : Z;
  cdi_vault_id : Z;
  cdi_vault_file_id : string;
  cdi_is_version : bool;   (* kind='version' rather than 'delete_marker' *)
  cdi_archive_version_id : option string;
  cdi_delete_marker_id : option string;
  cdi_object_key : string;
  cdi_provider_version_id : string;
  cdi_size_bytes : Z;
  cdi_status : string;
  cdi_error_message : option string;
  cdi_updated_at : timestamp;
}.

#[global] Instance version_placement_eq_dec : EqDecision version_placement.
Proof. solve_decision. Defined.
#[global] Instance version_evidence_eq_dec : EqDecision version_evidence.
Proof. solve_decision. Defined.
#[global] Instance job_upload_eq_dec : EqDecision job_upload.
Proof. solve_decision. Defined.
#[global] Instance vault_file_eq_dec : EqDecision vault_file.
Proof. solve_decision. Defined.
#[global] Instance file_path_eq_dec : EqDecision file_path.
Proof. solve_decision. Defined.
#[global] Instance archive_version_eq_dec : EqDecision archive_version.
Proof. solve_decision. Defined.
#[global] Instance delete_marker_eq_dec : EqDecision delete_marker.
Proof. solve_decision. Defined.
#[global] Instance local_copy_eq_dec : EqDecision local_copy.
Proof. solve_decision. Defined.
#[global] Instance job_eq_dec : EqDecision job.
Proof. solve_decision. Defined.
#[global] Instance vault_eq_dec : EqDecision vault.
Proof. solve_decision. Defined.
#[global] Instance policy_row_eq_dec : EqDecision policy_row.
Proof. solve_decision. Defined.
#[global] Instance cloud_deletion_item_eq_dec : EqDecision cloud_deletion_item.
Proof. solve_decision. Defined.

(** A row of [protection_stops]. *)
Record protection_stop := {
  ps_vault_id : Z;
  ps_requested_at : timestamp;
  ps_requested_by : option Z;
  ps_cloud_disposition : string;
  ps_group_id : option string;
  ps_reason : string;
}.

(** A row of [audit_events], without its free-form details. *)
Record audit_event := {
  ae_event : string;
  ae_actor : option Z;
  ae_vault_id : Z;
  ae_job_id : option Z;
  ae_outcome : string;
}.

(** A row of [catalog_incidents]. *)
Record incident := {
  ci_id : Z;
  ci_vault_id : Z;
  ci_vault_file_id : string;
  ci_archive_version_id : string;
  ci_kind : string;
  ci_status : string;
  ci_reason : string;
  ci_path : string;
  ci_object_key : option string;
  ci_provider_version_id : option string;
  ci_opened_at : timestamp;
  ci_last_seen_at : timestamp;
  ci_resolved_at : option timestamp;
}.

#[global] Instance incident_eq_dec : EqDecision incident.
Proof. solve_decision. Defined.
#[global] Instance protection_stop_eq_dec : EqDecision protection_stop.
Proof. solve_decision. Defined.
#[global] Instance audit_event_eq_dec : EqDecision audit_event.
Proof. solve_decision. Defined.

(** ** The catalog: the tables one transaction works on

    [t_health] is what [load_vault_health] reads: the last error of each
    component of a Vault.  [t_dirty] holds the [(vault_id, path)] marks of
    [directory_aggregate_dirty] the transaction made, [t_rebuilds] the Vaults
    whose folder rows [request_vault_rebuild] marked for a full rebuild, and
    [t_outbox] the notifications queued for an incident, by kind and incident. *)
Record catalog := {
  t_vaults : list vault;
  t_files : list vault_file;
  t_paths : list file_path;
  t_versions : list archive_version;
  t_markers : list delete_marker;
  t_copies : list local_copy;
  t_jobs : list job;
  t_items : list cloud_deletion_item;
  t_stops : list protection_stop;
  t_policies : list policy_row;
  t_health : list (Z * list (string * option string));
  t_audit : list audit_event;
  t_dirty : list (Z * string);
  t_rebuilds : list Z;
  t_incidents : list incident;
  t_outbox : list (string * Z);
}.

Definition set_vaults (l : list vault) (db : catalog) : catalog :=
  {| t_vaults := l; t_files := t_files db; t_paths := t_paths db; t_versions := t_versions db;
     t_markers := t_markers db; t_copies := t_copies db; t_jobs := t_jobs db; t_items :=
     t_items db; t_stops := t_stops db; t_policies := t_policies db; t_health := t_health db;
     t_audit := t_audit db; t_dirty := t_dirty db; t_rebuilds := t_rebuilds db; t_incidents :=
     t_incidents db; t_outbox := t_outbox db |}.
Definition set_files (l : list vault_file) (db : catalog) : catalog :=
  {| t_vaults := t_vaults db; t_files := l; t_paths := t_paths db; t_versions := t_versions db;
     t_markers := t_markers db; t_copies := t_copies db; t_jobs := t_jobs db; t_items :=
     t_items db; t_stops := t_stops db; t_policies := t_policies db; t_health := t_health db;
     t_audit := t_audit db; t_dirty := t_dirty db; t_rebuilds := t_rebuilds db; t_incidents :=
     t_incidents db; t_outbox := t_outbox db |}.
Definition set_paths (l : list file_path) (db : catalog) : catalog :=
  {| t_vaults := t_vaults db; t_files := t_files db; t_paths := l; t_versions := t_versions db;
     t_markers := t_markers db; t_copies := t_copies db; t_jobs := t_jobs db; t_items :=
     t_items db; t_stops := t_stops db; t_policies := t_policies db; t_health := t_health db;
     t_audit := t_audit db; t_dirty := t_dirty db; t_rebuilds := t_rebuilds db; t_incidents :=
     t_incidents db; t_outbox := t_outbox db |}.
Definition set_versions (l : list archive_version) (db : catalog) : catalog :=
  {| t_vaults := t_vaults db; t_files := t_files db; t_paths := t_paths db; t_versions := l;
     t_markers := t_markers db; t_copies := t_copies db; t_jobs := t_jobs db; t_items :=
     t_items db; t_stops := t_stops db; t_policies := t_policies db; t_health := t_health db;
     t_audit := t_audit db; t_dirty := t_dirty db; t_rebuilds := t_rebuilds db; t_incidents :=
     t_incidents db; t_outbox := t_outbox db |}.
Definition set_markers (l : list delete_marker) (db : catalog) : catalog :=
  {| t_vaults := t_vaults db; t_files := t_files db; t_paths := t_paths db; t_versions :=
     t_versions db; t_markers := l; t_copies := t_copies db; t_jobs := t_jobs db; t_items :=
     t_items db; t_stops := t_stops db; t_policies := t_policies db; t_health := t_health db;
     t_audit := t_audit db; t_dirty := t_dirty db; t_rebuilds := t_rebuilds db; t_incidents :=
     t_incidents db; t_outbox := t_outbox db |}.
Definition set_copies (l : list local_copy) (db : catalog) : catalog :=
  {| t_vaults := t_vaults db; t_files := t_files db; t_paths := t_paths db; t_versions :=
     t_versions db; t_markers := t_markers db; t_copies := l; t_jobs := t_jobs db; t_items :=
     t_items db; t_stops := t_stops db; t_policies := t_policies db; t_health := t_health db;
     t_audit := t_audit db; t_dirty := t_dirty db; t_rebuilds := t_rebuilds db; t_incidents :=
     t_incidents db; t_outbox := t_outbox db |}.
Definition set_jobs (l : list job) (db : catalog) : catalog :=
  {| t_vaults := t_vaults db; t_files := t_files db; t_paths := t_paths db; t_versions :=
     t_versions db; t_markers := t_markers db; t_copies := t_copies db; t_jobs := l; t_items :=
     t_items db; t_stops := t_stops db; t_policies := t_policies db; t_health := t_health db;
     t_audit := t_audit db; t_dirty := t_dirty db; t_rebuilds := t_rebuilds db; t_incidents :=
     t_incidents db; t_outbox := t_outbox db |}.
Definition set_items (l : list cloud_deletion_item) (db : catalog) : catalog :=
  {| t_vaults := t_vaults db; t_files := t_files db; t_paths := t_paths db; t_versions :=
     t_versions db; t_markers := t_markers db; t_copies := t_copies db; t_jobs := t_jobs db;
     t_items := l; t_stops := t_stops db; t_policies := t_policies db; t_health := t_health db;
     t_audit := t_audit db; t_dirty := t_dirty db; t_rebuilds := t_rebuilds db; t_incidents :=
     t_incidents db; t_outbox := t_outbox db |}.
Definition set_stops (l : list protection_stop) (db : catalog) : catalog :=
  {| t_vaults := t_vaults db; t_files := t_files db; t_paths := t_paths db; t_versions :=
     t_versions db; t_markers := t_markers db; t_copies := t_copies db; t_jobs := t_jobs db;
     t_items := t_items db; t_stops := l; t_policies := t_policies db; t_health := t_health db;
     t_audit := t_audit db; t_dirty := t_dirty db; t_rebuilds := t_rebuilds db; t_incidents :=
     t_incidents db; t_outbox := t_outbox db |}.
Definition set_policies (l : list policy_row) (db : catalog) : catalog :=
  {| t_vaults := t_vaults db; t_files := t_files db; t_paths := t_paths db; t_versions :=
     t_versions db; t_markers := t_markers db; t_copies := t_copies db; t_jobs := t_jobs db;
     t_items := t_items db; t_stops := t_stops db; t_policies := l; t_health := t_health db;
     t_audit := t_audit db; t_dirty := t_dirty db; t_rebuilds := t_rebuilds db; t_incidents :=
     t_incidents db; t_outbox := t_outbox db |}.
Definition set_audit (l : list audit_event) (db : catalog) : catalog :=
  {| t_vaults := t_vaults db; t_files := t_files db; t_paths := t_paths db; t_versions :=
     t_versions db; t_markers := t_markers db; t_copies := t_copies db; t_jobs := t_jobs db;
     t_items := t_items db; t_stops := t_stops db; t_policies := t_policies db; t_health :=
     t_health db; t_audit := l; t_dirty := t_dirty db; t_rebuilds := t_rebuilds db; t_incidents
     := t_incidents db; t_outbox := t_outbox db |}.
Definition set_dirty (l : list (Z * string)) (db : catalog) : catalog :=
  {| t_vaults := t_vaults db; t_files := t_files db; t_paths := t_paths db; t_versions :=
     t_versions db; t_markers := t_markers db; t_copies := t_copies db; t_jobs := t_jobs db;
     t_items := t_items db; t_stops := t_stops db; t_policies := t_policies db; t_health :=
     t_health db; t_audit := t_audit db; t_dirty := l; t_rebuilds := t_rebuilds db; t_incidents
     := t_incidents db; t_outbox := t_outbox db |}.
Definition set_rebuilds (l : list Z) (db : catalog) : catalog :=
  {| t_vaults := t_vaults db; t_files := t_files db; t_paths := t_paths db; t_versions :=
     t_versions db; t_markers := t_markers db; t_copies := t_copies db; t_jobs := t_jobs db;
     t_items := t_items db; t_stops := t_stops db; t_policies := t_policies db; t_health :=
     t_health db; t_audit := t_audit db; t_dirty := t_dirty db; t_rebuilds := l; t_incidents :=
     t_incidents db; t_outbox := t_outbox db |}.
Definition set_incidents (l : list incident) (db : catalog) : catalog :=
  {| t_vaults := t_vaults db; t_files := t_files db; t_paths := t_paths db; t_versions :=
     t_versions db; t_markers := t_markers db; t_copies := t_copies db; t_jobs := t_jobs db;
     t_items := t_items db; t_stops := t_stops db; t_policies := t_policies db; t_health :=
     t_health db; t_audit := t_audit db; t_dirty := t_dirty db; t_rebuilds := t_rebuilds db;
     t_incidents := l; t_outbox := t_outbox db |}.
Definition set_outbox (l : list (string * Z)) (db : catalog) : catalog :=
  {| t_vaults := t_vaults db; t_files := t_files db; t_paths := t_paths db; t_versions :=
     t_versions db; t_markers := t_markers db; t_copies := t_copies db; t_jobs := t_jobs db;
     t_items := t_items db; t_stops := t_stops db; t_policies := t_policies db; t_health :=
     t_health db; t_audit := t_audit db; t_dirty := t_dirty db; t_rebuilds := t_rebuilds db;
     t_incidents := t_incidents db; t_outbox := l |}.

(** [record_audit_event]. *)
Definition audit (event : string) (actor : option Z) (vault_id : Z) (job_id : option Z)
    (outcome : string) (db : catalog) : catalog :=
  set_audit (t_audit db ++ [{| ae_event := event; ae_actor := actor; ae_vault_id := vault_id;
                               ae_job_id := job_id; ae_outcome := outcome |}]) db.

(** [INSERT ... RETURNING id]: the next value of the sequence. *)
Definition next_id (ids : list Z) : Z := 1 + foldr Z.max 0 ids.

(** ** Queries several components share *)

(** The latest Archive Version of a file that is not purged:
    [ORDER BY version_number DESC LIMIT 1]. *)
Definition latest_version (versions : list archive_version) (file_id : string)
  : option archive_version :=
  latest av_version_number
    (select (fun v => (av_vault_file_id v =b file_id) && (av_availability v <>b Purged)) versions).

Definition local_copy_of (copies : list local_copy) (file_id : string) : option local_copy :=
  fetchone (fun c => lc_vault_file_id c =b file_id) copies.

(** The current path of a file: [valid_to IS NULL]. *)
Definition current_path_of (paths : list file_path) (file_id : string) : option file_path :=
  fetchone (fun p => (fp_vault_file_id p =b file_id) && is_none (fp_valid_to p)) paths.

(** [status NOT IN ('completed','failed','cancelled')]. *)
Definition TERMINAL_JOB_STATUSES : list string := ["completed"; "failed"; "cancelled"].
Definition job_is_active (j : job) : bool := negb (j_status j ∈b TERMINAL_JOB_STATUSES).

Lemma latest_version_some versions f v :
  latest_version versions f = Some v →
  v ∈ versions ∧ av_vault_file_id v = f ∧ av_availability v ≠ Purged
  ∧ ∀ w, w ∈ versions → av_vault_file_id w = f → av_availability w ≠ Purged →
      av_version_number w ≤ av_version_number v.
Proof.
  intros [Hin Hmax]%latest_some. apply elem_of_select in Hin as [Hin Hp]. bsimpl.
  repeat split; try done. intros w Hw Hf Ha. apply Hmax, elem_of_select. split; [done|].
  rewrite bool_decide_eq_true_2, bool_decide_eq_false_2; done.
Qed.

Lemma latest_version_none versions f :
  latest_version versions f = None ↔
  ∀ w, w ∈ versions → av_vault_file_id w = f → av_availability w = Purged.
Proof.
  unfold latest_version. rewrite latest_none. split.
  - intros H w Hw Hf. destruct (decide (av_availability w = Purged)) as [|Hne]; [done|].
    exfalso. apply (not_elem_of_nil w). rewrite <- H. apply elem_of_select. split; [done|].
    by rewrite bool_decide_eq_true_2, bool_decide_eq_false_2.
  - intros H. destruct (select _ _) as [|w l] eqn:E; [done|].
    assert (Hw : w ∈ w :: l) by left. rewrite <- E in Hw.
    apply elem_of_select in Hw as [Hw Hp]. bsimpl. exfalso; eauto.
Qed.

#[export] Hint Resolve latest_version_some : fv.

Lemma next_id_fresh ids i : i ∈ ids → i < next_id ids.
Proof.
  unfold next_id. induction ids as [|x ids IH]; [by intros ?%not_elem_of_nil|].
  intros [->|Hi]%elem_of_cons; cbn; [lia|]. specialize (IH Hi). lia.
Qed.
