(* ===== verification/ProtectionStates.v ===== *)
(** * ProtectionStates: the five observations of [app/services/protection_states.py]

    [STATE_SQL] classifies a catalog row in three-valued logic; [project_file]
    overlays the loss of observability; [aggregate_state] picks the headline of
    a folder.  The theorems give the meaning of each state in plain terms and
    relate the headline to the counts. *)
From S2P Require Import Prelude Sql Schema.

Inductive protection_state := pending | protected | problem | unconfirmed | cloud_only.

#[global] Instance protection_state_eq_dec : EqDecision protection_state.
Proof. solve_decision. Defined.

Definition STATES : list protection_state := [pending; protected; problem; unconfirmed; cloud_only].

(** A joined row: the file, its local copy (LEFT JOIN) and its latest
    non-purged version (LEFT JOIN), with the job history the state reads. *)
Record joined_row := {
  jr_lc : option local_copy;
  jr_av : option archive_version;
  (** statuses of the file's upload jobs, by increasing id *)
  jr_upload_jobs : list string;
}.

Section state_sql.
Context (r : joined_row).
Let lc {A} (f : local_copy → A) : option A := f <$> jr_lc r.
Let lcn {A} (f : local_copy → option A) : option A := jr_lc r ≫= f.
Let av {A} (f : archive_version → A) : option A := f <$> jr_av r.
Let avn {A} (f : archive_version → option A) : option A := jr_av r ≫= f.
Local Open Scope sql_scope.

Definition LOCAL_EXISTS_SQL : tv :=
  sql_in (Some (coalesce (lc lc_presence) Missing)) [Present; Unsupported].

Definition PROTECTED_SQL : tv :=
  (lc lc_presence == Some Present) AND (lc lc_file_type == Some Regular)
  AND (av av_integrity == Some Verified) AND (av av_availability == Some Available)
  AND (lcn lc_matched_archive_version_id == av av_id)
  AND sql_is_not_null (lcn lc_plaintext_sha256)
  AND (lcn lc_plaintext_sha256 == avn av_plaintext_sha256).

(** [coalesce((SELECT j.status ... ORDER BY j.id DESC LIMIT 1), '') = 'failed']. *)
Definition FAILED_UPLOAD_SQL : tv :=
  Some (coalesce (last (jr_upload_jobs r)) EmptyString) == Some "failed"%string.

Definition PROBLEM_SQL : tv :=
  (av av_availability == Some AvMissing) OR (av av_integrity == Some Mismatch)
  OR sql_is_not_null (lcn lc_cloud_only_version_id)
  OR (lc lc_presence == Some Unsupported)
  OR ((NOT Some (coalesce PROTECTED_SQL false)) AND FAILED_UPLOAD_SQL).

Definition STATE_SQL : protection_state :=
  if holds PROBLEM_SQL then problem
  else if holds (av av_availability == Some Unknown) then unconfirmed
  else if holds ((NOT LOCAL_EXISTS_SQL) AND sql_is_not_null (av av_id)) then
    if holds ((av av_integrity == Some Verified) AND (av av_availability == Some Available))
    then cloud_only else unconfirmed
  else if holds PROTECTED_SQL then protected
  else pending.

Definition VISIBLE_SQL : tv := LOCAL_EXISTS_SQL OR sql_is_not_null (av av_id).
End state_sql.

(** ** The meaning of the states *)

(** The current bytes are a regular local file whose digest is the digest of a
    verified, available version the local copy is matched to. *)
Definition copy_protected (c : local_copy) (v : archive_version) : Prop :=
  lc_presence c = Present ∧ lc_file_type c = Regular ∧
  av_integrity v = Verified ∧ av_availability v = Available ∧
  lc_matched_archive_version_id c = Some (av_id v) ∧
  is_Some (lc_plaintext_sha256 c) ∧ lc_plaintext_sha256 c = av_plaintext_sha256 v.

Definition row_protected (r : joined_row) : Prop :=
  ∃ c v, jr_lc r = Some c ∧ jr_av r = Some v ∧ copy_protected c v.

(** A local entry exists: regular content or an unsupported entry. *)
Definition local_exists (r : joined_row) : Prop :=
  ∃ c, jr_lc r = Some c ∧ lc_presence c ≠ Missing.

Definition last_upload_failed (r : joined_row) : Prop :=
  last (jr_upload_jobs r) = Some "failed"%string.

Definition row_problem (r : joined_row) : Prop :=
  (∃ v, jr_av r = Some v ∧ (av_availability v = AvMissing ∨ av_integrity v = Mismatch))
  ∨ (∃ c, jr_lc r = Some c ∧
        (is_Some (lc_cloud_only_version_id c) ∨ lc_presence c = Unsupported))
  ∨ (¬ row_protected r ∧ last_upload_failed r).

Lemma protected_sql_spec r : holds (PROTECTED_SQL r) = true ↔ row_protected r.
Proof.
  unfold PROTECTED_SQL, row_protected, copy_protected.
  rewrite !holds_and, !holds_eq_const, !holds_eq, holds_is_not_null.
  destruct (jr_lc r) as [c|], (jr_av r) as [v|]; cbn;
    rewrite ?andb_true_iff, ?bool_decide_eq_true, ?is_some_true; split;
    try (intros; destruct_and?; done); try (intros (?&?&?&?&?); done).
  - intros (((((([= ?]&[= ?])&[= ?])&[= ?])&[??])&?)&[??]). eauto 15.
  - intros (?&?&[= <-]&[= <-]&Hp). destruct Hp as (->&->&->&->&->&[? ->]&Hs).
    rewrite <- Hs. repeat split; eauto.
Qed.

Lemma local_exists_sql_spec r : holds (LOCAL_EXISTS_SQL r) = true ↔ local_exists r.
Proof.
  unfold LOCAL_EXISTS_SQL, local_exists. rewrite holds_in.
  destruct (jr_lc r) as [c|]; cbn.
  - destruct (lc_presence c) eqn:E; split; intros; try done;
      try (eexists; split; [done|]; rewrite E; done).
    destruct H as (? & [= <-] & H). congruence.
  - split; [done|]. by intros (?&?&?).
Qed.

Lemma failed_upload_sql_spec r : holds (FAILED_UPLOAD_SQL r) = true ↔ last_upload_failed r.
Proof.
  unfold FAILED_UPLOAD_SQL, last_upload_failed. rewrite holds_eq_const, bool_decide_eq_true.
  destruct (last (jr_upload_jobs r)); cbn; naive_solver.
Qed.

Lemma problem_sql_spec r : holds (PROBLEM_SQL r) = true ↔ row_problem r.
Proof.
  unfold PROBLEM_SQL, row_problem.
  rewrite !holds_or, holds_and, holds_not_coalesce, !orb_true_iff, andb_true_iff, negb_true_iff,
    <- not_true_iff_false, protected_sql_spec, failed_upload_sql_spec, !holds_eq_const,
    !bool_decide_eq_true, holds_is_not_null, is_some_true.
  destruct (jr_lc r) as [c|], (jr_av r) as [v|]; cbn;
    setoid_rewrite (inj_iff Some) || idtac; split; intros H;
    repeat match goal with
    | H : _ ∨ _ |- _ => destruct H | H : _ ∧ _ |- _ => destruct H | H : ∃ _, _ |- _ => destruct H
    | H : Some _ = Some _ |- _ => injection H as H | H : None = Some _ |- _ => discriminate H
    | H : is_Some None |- _ => destruct H; discriminate
    end; subst; eauto 10.
Qed.

(** Which state a row is in, as a statement about the catalog. *)
Definition state_spec (r : joined_row) (s : protection_state) : Prop :=
  match s with
  | problem => row_problem r
  | cloud_only => ¬ row_problem r ∧ ¬ local_exists r
      ∧ ∃ v, jr_av r = Some v ∧ av_integrity v = Verified ∧ av_availability v = Available
  | protected => ¬ row_problem r ∧ row_protected r
  | unconfirmed => ¬ row_problem r ∧ ∃ v, jr_av r = Some v ∧
      (av_availability v = Unknown
       ∨ (¬ local_exists r ∧ ¬ (av_integrity v = Verified ∧ av_availability v = Available)))
  | pending => ¬ row_problem r ∧ ¬ row_protected r
      ∧ (∀ v, jr_av r = Some v → av_availability v ≠ Unknown ∧ local_exists r)
  end.

Lemma row_protected_local r : row_protected r → local_exists r.
Proof. intros (c & v & Hc & _ & Hp & _). exists c. rewrite Hp. done. Qed.

Lemma holds_tv_not_local r :
  holds (tv_not (LOCAL_EXISTS_SQL r)) = negb (holds (LOCAL_EXISTS_SQL r)).
Proof. unfold LOCAL_EXISTS_SQL; cbn. by destruct (bool_decide _). Qed.

Lemma protected_reflect r : reflect (row_protected r) (holds (PROTECTED_SQL r)).
Proof. apply iff_reflect. symmetry. apply protected_sql_spec. Qed.
Lemma local_exists_reflect r : reflect (local_exists r) (holds (LOCAL_EXISTS_SQL r)).
Proof. apply iff_reflect. symmetry. apply local_exists_sql_spec. Qed.
Lemma problem_reflect r : reflect (row_problem r) (holds (PROBLEM_SQL r)).
Proof. apply iff_reflect. symmetry. apply problem_sql_spec. Qed.

Lemma av_column_some {A} (f : archive_version → A) r x :
  f <$> jr_av r = Some x ↔ ∃ v, jr_av r = Some v ∧ f v = x.
Proof. rewrite fmap_Some. naive_solver. Qed.

Lemma state_sql_sound r : state_spec r (STATE_SQL r).
Proof.
  unfold STATE_SQL. rewrite !holds_and, holds_tv_not_local, !holds_eq_const, holds_is_not_null.
  destruct (problem_reflect r) as [Hpb|Hpb]; [done|].
  destruct (bool_decide_reflect (av_availability <$> jr_av r = Some Unknown)) as [Hu|Hu].
  { apply av_column_some in Hu as (v & Hv & Hu). split; eauto. }
  destruct (local_exists_reflect r) as [Hl|Hl]; cbn.
  - destruct (protected_reflect r) as [Hp|Hp]; [done|].
    repeat split; [done..| |done]. intros Ha. apply Hu, av_column_some. eauto.
  - destruct (jr_av r) as [v|] eqn:Ev; cbn.
    + assert (Hnot : ¬ (av_integrity v = Verified ∧ av_availability v = Available) →
        state_spec r unconfirmed) by (intros; split; [done|]; exists v; eauto).
      repeat case_bool_decide; cbn; try (apply Hnot; intros [??]; congruence).
      simplify_eq. split_and!; eauto.
    + destruct (protected_reflect r) as [Hp|Hp]; [by destruct (Hl (row_protected_local r Hp))|].
      repeat split; [done..| |]; congruence.
Qed.

Lemma state_spec_functional r s1 s2 : state_spec r s1 → state_spec r s2 → s1 = s2.
Proof.
  assert (Hl := row_protected_local r).
  assert (Hp : row_protected r → ∃ v, jr_av r = Some v ∧ av_availability v = Available).
  { intros (c & v & _ & Hv & Hp). exists v. split; [done|]. apply Hp. }
  assert (Hx : ∀ s t, state_spec r s → state_spec r t →
    match s, t with
    | problem, problem => True | problem, _ | _, problem => False
    | cloud_only, (protected | pending | unconfirmed) => False
    | protected, (pending | unconfirmed) | unconfirmed, pending => False
    | _, _ => True
    end).
  { intros [] [] H1 H2; try exact I; cbn in H1, H2; destruct_and?; try done;
      repeat match goal with H : ∃ _, _ |- _ => destruct H as (?&?&?) end;
      try (destruct Hp as (?&?&?); [done|]); try specialize (Hl ltac:(done));
      simplify_eq; intuition (congruence || eauto).
    all: match goal with Hv : jr_av _ = Some ?x, Ha : ∀ v, jr_av _ = Some v → _ |- _ => destruct (Ha x Hv); auto end. }
  intros H1 H2. pose proof (Hx s1 s2 H1 H2). pose proof (Hx s2 s1 H2 H1).
  destruct s1, s2; done.
Qed.

Lemma state_sql_is r s : STATE_SQL r = s → state_spec r s.
Proof. intros <-. apply state_sql_sound. Qed.

(** C1: the SQL classification of a catalog row, with its NULLs and LEFT
    JOINs, is exactly the README's reading of the five states: [STATE_SQL]
    yields a state iff the catalog satisfies that state's description. *)
Theorem state_sql_spec r s : STATE_SQL r = s ↔ state_spec r s.
Proof.
  split; [apply state_sql_is|].
  intros H. eapply state_spec_functional; [apply state_sql_sound|done].
Qed.

(** ** Rows as the API layer reads them *)

(** The columns of the shared SELECT over visible files. *)
Record file_row := {
  fr_path : string;
  fr_protection_state : protection_state;
  fr_local_presence : option presence;
  fr_local_file_type : option file_type;
  fr_local_size : option Z;
  fr_local_sha256 : option string;
  fr_matched_archive_version_id : option string;
  fr_cloud_only_version_id : option string;
  fr_archive_version_id : option string;
  fr_cloud_size : option Z;
  fr_storage_class : option string;
  fr_version_sha256 : option string;
  fr_integrity : option integrity;
  fr_availability : option availability;
  fr_restore_state : option string;
  fr_recoverable_version_count : Z;
  fr_protection_observed_at : option timestamp;
}.

(** The row the SELECT produces for a joined row. *)
Definition select_row (path : string) (recoverable : Z) (observed : option timestamp)
    (r : joined_row) : file_row := {|
  fr_path := path;
  fr_protection_state := STATE_SQL r;
  fr_local_presence := lc_presence <$> jr_lc r;
  fr_local_file_type := lc_file_type <$> jr_lc r;
  fr_local_size := jr_lc r ≫= lc_size;
  fr_local_sha256 := jr_lc r ≫= lc_plaintext_sha256;
  fr_matched_archive_version_id := jr_lc r ≫= lc_matched_archive_version_id;
  fr_cloud_only_version_id := jr_lc r ≫= lc_cloud_only_version_id;
  fr_archive_version_id := av_id <$> jr_av r;
  fr_cloud_size := jr_av r ≫= av_size;
  fr_storage_class := jr_av r ≫= av_storage_class;
  fr_version_sha256 := jr_av r ≫= av_plaintext_sha256;
  fr_integrity := av_integrity <$> jr_av r;
  fr_availability := av_availability <$> jr_av r;
  fr_restore_state := jr_av r ≫= av_restore_state;
  fr_recoverable_version_count := recoverable;
  fr_protection_observed_at := observed;
|}.

Record protection_view := {
  pv_state : protection_state;
  pv_last_known_state : protection_state;
  pv_last_known_at : option timestamp;
  pv_previous_snapshot_protected : bool;
}.

Definition project_file (row : file_row) (is_unconfirmed : bool) : protection_view :=
  let known := fr_protection_state row in
  let last_known :=
    if (known =b unconfirmed) && (fr_integrity row =b Some Verified) then
      if (fr_local_presence row =b Some Present)
         && (fr_matched_archive_version_id row =b fr_archive_version_id row)
         && is_some (fr_local_sha256 row)
         && (fr_local_sha256 row =b fr_version_sha256 row)
      then protected
      else if negb ((fr_local_presence row =b Some Present)
                    || (fr_local_presence row =b Some Unsupported))
      then cloud_only else pending
    else known in
  {| pv_state := if is_unconfirmed then unconfirmed else known;
     pv_last_known_state := last_known;
     pv_last_known_at := fr_protection_observed_at row;
     pv_previous_snapshot_protected :=
       (known =b pending)
       && ((0 <? fr_recoverable_version_count row)
           || ((fr_integrity row =b Some Verified) && (fr_availability row =b Some Available))) |}.

(** [counts.get(state, 0)] for a mapping given as an association list. *)
Fixpoint count_of (counts : list (protection_state * Z)) (s : protection_state) : Z :=
  match counts with
  | [] => 0
  | (s', n) :: counts => if s' =b s then n else count_of counts s
  end.

(** Priority of the headline, worst first. *)
Definition headline_order : list protection_state :=
  [problem; unconfirmed; pending; protected; cloud_only].

Definition aggregate_state (counts : list (protection_state * Z)) : option protection_state :=
  List.find (fun s => 0 <? count_of counts s) headline_order.

(** [health.get(component) or {}] with its [last_error]; an empty message is
    no error. *)
Definition observation_is_unconfirmed (health : list (string * option string)) : bool :=
  existsb (fun component =>
      match List.find (fun h => fst h =b component) health with
      | Some (_, last_error) => truthy last_error
      | None => false
      end) ["source"; "cloud"; "audit"]%string.

(** The overlay never invents protection. The state shown is the
    catalog's or [unconfirmed]; a row shown as last known [protected] has
    either the catalog state [protected] or a present local copy whose digest
    is the digest of the verified version it is matched to. *)
Theorem project_file_no_invented_protection path n o r b :
  let v := project_file (select_row path n o r) b in
  (pv_state v = STATE_SQL r ∨ pv_state v = unconfirmed)
  ∧ (pv_last_known_state v = protected →
     ∃ c w, jr_lc r = Some c ∧ jr_av r = Some w ∧ lc_presence c = Present
       ∧ av_integrity w = Verified ∧ lc_matched_archive_version_id c = Some (av_id w)
       ∧ is_Some (lc_plaintext_sha256 c) ∧ lc_plaintext_sha256 c = av_plaintext_sha256 w).
Proof.
  split; [destruct b; [by right|by left]|]. cbn -[STATE_SQL].
  destruct (bool_decide_reflect (STATE_SQL r = unconfirmed)) as [Hu|_]; cbn -[STATE_SQL].
  - rewrite Hu. destruct (jr_av r) as [w|], (jr_lc r) as [c|]; cbn; repeat case_bool_decide; cbn;
      try done; rewrite ?andb_true_r, ?andb_false_r; try done.
    all: destruct (is_some _) eqn:Es; [|done]; apply is_some_true in Es; simplify_eq; eauto 12.
  - intros Hp. apply state_sql_is in Hp as (_ & c & w & Hc & Hw & Hcp).
    unfold copy_protected in Hcp. destruct_and?. eauto 12.
Qed.

Lemma find_headline counts l s :
  List.find (fun s => 0 <? count_of counts s) l = Some s →
  0 < count_of counts s ∧ ∃ l1 l2, l = l1 ++ s :: l2 ∧ Forall (fun t => count_of counts t ≤ 0) l1.
Proof.
  induction l as [|t l IH]; cbn; [done|].
  destruct (Z.ltb_spec 0 (count_of counts t)); intros Hs.
  - simplify_eq. split; [done|]. by exists [], l.
  - destruct (IH Hs) as (? & l1 & l2 & -> & ?). split; [done|]. exists (t :: l1), l2.
    split; [done|]. by constructor.
Qed.

(** The headline of a folder is the worst state some file is in: it has a
    positive count, every state before it in the priority order has none, and
    there is no headline exactly when no state has a positive count. *)
Theorem aggregate_state_worst counts :
  match aggregate_state counts with
  | Some s => 0 < count_of counts s ∧
      ∃ worse rest, headline_order = worse ++ s :: rest
                    ∧ Forall (fun t => count_of counts t ≤ 0) worse
  | None => ∀ s, count_of counts s ≤ 0
  end.
Proof.
  unfold aggregate_state. destruct (List.find _ _) as [s|] eqn:E; [by apply find_headline|].
  intros s. assert (Hs : In s headline_order) by (destruct s; cbn; tauto).
  apply (find_none _ _ E) in Hs. by apply Z.ltb_ge in Hs.
Qed.
