(* ===== verification/DirectoryAggregates.v ===== *)
(** * DirectoryAggregates: folder roll-ups of [app/services/directory_aggregates.py]

    A folder row is computed in two ways: [rebuild_vault] streams every visible
    file and folds it into the roll-up of each ancestor folder, while
    [rebuild_directory] refreshes one folder with SQL aggregation over the files
    below it.  The theorems show when the two agree, column by column, and where
    they do not. *)
From S2P Require Import Prelude Sql PyString Schema ProtectionStates.

(** ** Predicates over one row *)
Definition local_copy_is_protected (row : file_row) : bool :=
  match fr_archive_version_id row with
  | None => false
  | Some _ =>
      (fr_integrity row =b Some Verified)
      && (fr_availability row =b Some Available)
      && (fr_matched_archive_version_id row =b fr_archive_version_id row)
      && is_some (fr_local_sha256 row)
      && (fr_local_sha256 row =b fr_version_sha256 row)
  end.

Definition local_copy_is_upload_eligible (row : file_row) : bool :=
  (fr_local_presence row =b Some Present)
  && (fr_local_file_type row =b Some Regular)
  && (fr_restore_state row <>b Some "restoring"%string)
  && negb (truthy (fr_cloud_only_version_id row))
  && negb (local_copy_is_protected row).

(** ** Paths *)
Definition ancestor_directories (path : string) : list string :=
  let normalized := strip_slash (py_strip path) in
  if (normalized =b EmptyString) || negb (has_char slash normalized) then []
  else let parts := split_on slash normalized in
       map (fun index => join "/" (take index parts)) (seq 1 (length parts - 1)).

Definition parent_and_name (directory_path : string) : string * string :=
  let normalized := strip_slash (py_strip directory_path) in
  if normalized =b EmptyString then (EmptyString, EmptyString)
  else if negb (has_char slash normalized) then (EmptyString, normalized)
  else let parts := split_on slash normalized in
       (join "/" (take (length parts - 1) parts), or_default (last parts) EmptyString).

(** ** One file's contribution *)

(** An active Vault File with its current path, the state the SELECT joins. *)
Record catalog_file := {
  cf_path : string;
  cf_lc : option local_copy;
  cf_versions : list archive_version;
  cf_upload_jobs : list string;
}.

Definition joined (f : catalog_file) : joined_row := {|
  jr_lc := cf_lc f;
  jr_av := latest av_version_number
    (select (fun v => av_availability v <>b Purged) (cf_versions f));
  jr_upload_jobs := cf_upload_jobs f;
|}.

Definition recoverable_version_count (f : catalog_file) : Z :=
  countZ (fun v => (av_integrity v =b Verified) && (av_availability v =b Available)) (cf_versions f).

Definition visible_file_select (f : catalog_file) : file_row :=
  select_row (cf_path f) (recoverable_version_count f) None (joined f).

Record file_contribution := {
  fc_path : string;
  fc_state : protection_state;
  fc_total_size : Z;
  fc_local_size : Z;
  fc_cloud_size : Z;
  fc_upload_eligible : bool;
  fc_recover_eligible : bool;
  fc_cleanup_eligible : bool;
  fc_has_cloud : bool;
  fc_storage_class : option string;
}.

Definition row_local_exists (row : file_row) : bool :=
  (fr_local_presence row =b Some Present) || (fr_local_presence row =b Some Unsupported).

Definition row_has_cloud (row : file_row) : bool :=
  is_some (fr_archive_version_id row)
  && negb ((fr_availability row =b Some AvMissing) || (fr_availability row =b Some Purged)).

Definition contribution_from_row (row : file_row) : option file_contribution :=
  let local_exists := row_local_exists row in
  let cloud_exists := is_some (fr_archive_version_id row) in
  if negb local_exists && negb cloud_exists then None else
  let state := fr_protection_state row in
  let local_size := coalesce (fr_local_size row) 0 in
  let cloud_size := coalesce (fr_cloud_size row) 0 in
  let total_size := match fr_local_size row with Some n => n | None => cloud_size end in
  let recover_eligible := negb local_exists && (0 <? fr_recoverable_version_count row) in
  let cleanup_eligible :=
    (fr_local_presence row =b Some Present) && (fr_local_file_type row =b Some Regular)
    && cloud_exists && (fr_integrity row =b Some Verified)
    && (fr_availability row =b Some Available)
    && (fr_matched_archive_version_id row =b fr_archive_version_id row)
    && is_some (fr_local_sha256 row) && (fr_local_sha256 row =b fr_version_sha256 row) in
  let has_cloud := row_has_cloud row in
  Some {|
    fc_path := fr_path row;
    fc_state := state;
    fc_total_size := total_size;
    fc_local_size := if local_exists then local_size else 0;
    fc_cloud_size := if has_cloud then cloud_size else 0;
    fc_upload_eligible := local_copy_is_upload_eligible row;
    fc_recover_eligible := recover_eligible;
    fc_cleanup_eligible := cleanup_eligible && (state =b protected);
    fc_has_cloud := has_cloud;
    fc_storage_class := if has_cloud then fr_storage_class row else None;
  |}.

(** ** Roll-ups *)
Record directory_rollup := {
  dr_item_count : Z;
  dr_total_size : Z;
  dr_local_size : Z;
  dr_cloud_size : Z;
  dr_state_counts : protection_state → Z;
  dr_action_upload : Z;
  dr_action_recover : Z;
  dr_action_free_space : Z;
  dr_action_cloud_purge : Z;
  dr_storage_classes : gmap string Z;
}.

Definition empty_rollup : directory_rollup := {|
  dr_item_count := 0; dr_total_size := 0; dr_local_size := 0; dr_cloud_size := 0;
  dr_state_counts := fun _ => 0;
  dr_action_upload := 0; dr_action_recover := 0; dr_action_free_space := 0;
  dr_action_cloud_purge := 0; dr_storage_classes := ∅;
|}.

Definition b2z (b : bool) : Z := if b then 1 else 0.

Definition bump (k : string) (m : gmap string Z) : gmap string Z :=
  <[k := or_default (m !! k) 0 + 1]> m.

(** [_DirectoryRollup.add]. *)
Definition rollup_add (r : directory_rollup) (c : file_contribution) : directory_rollup := {|
  dr_item_count := dr_item_count r + 1;
  dr_total_size := dr_total_size r + fc_total_size c;
  dr_local_size := dr_local_size r + fc_local_size c;
  dr_cloud_size := dr_cloud_size r + fc_cloud_size c;
  dr_state_counts := fun s => if s =b fc_state c then dr_state_counts r s + 1 else dr_state_counts r s;
  dr_action_upload := if fc_upload_eligible c then dr_action_upload r + 1 else dr_action_upload r;
  dr_action_recover := if fc_recover_eligible c then dr_action_recover r + 1 else dr_action_recover r;
  dr_action_free_space :=
    if fc_cleanup_eligible c then dr_action_free_space r + 1 else dr_action_free_space r;
  dr_action_cloud_purge :=
    if fc_state c =b cloud_only then dr_action_cloud_purge r + 1 else dr_action_cloud_purge r;
  dr_storage_classes :=
    match fc_storage_class c with
    | Some key => if truthy (Some key) then bump key (dr_storage_classes r) else dr_storage_classes r
    | None => dr_storage_classes r
    end;
|}.

Definition rollup_of (cs : list file_contribution) : directory_rollup :=
  fold_left rollup_add cs empty_rollup.

(** The contributions of the visible files, by path order. *)
Definition visible_contributions (files : list catalog_file) : list file_contribution :=
  omap (fun f => contribution_from_row (visible_file_select f)) files.

(** ** Full rebuild: fold every file into each of its ancestors *)
Definition rolled_add (rolled : gmap string directory_rollup) (c : file_contribution)
  : gmap string directory_rollup :=
  fold_left (fun m d => <[d := rollup_add (or_default (m !! d) empty_rollup) c]> m)
    (ancestor_directories (fc_path c)) rolled.

Definition rebuild_vault_directory_aggregates (files : list catalog_file)
  : gmap string directory_rollup :=
  fold_left rolled_add (visible_contributions files) ∅.

(** ** Incremental refresh of one folder with SQL aggregation *)
Definition sql_group (rows : list file_row) (s : protection_state) : list file_row :=
  select (fun row => fr_protection_state row =b s) rows.

Section sql_summary.
Local Open Scope sql_scope.

Definition sql_visible (row : file_row) : tv :=
  sql_in (fr_local_presence row) [Present; Unsupported]
  OR sql_is_not_null (fr_archive_version_id row).

Definition sql_upload_case (row : file_row) : tv :=
  (fr_local_presence row == Some Present) AND (fr_local_file_type row == Some Regular)
  AND (NOT (Some (coalesce (fr_restore_state row) EmptyString) == Some "restoring"%string))
  AND sql_is_null (fr_cloud_only_version_id row)
  AND (NOT Some (coalesce
        ((fr_integrity row == Some Verified) AND (fr_availability row == Some Available)
         AND (fr_matched_archive_version_id row == fr_archive_version_id row)
         AND sql_is_not_null (fr_local_sha256 row)
         AND (fr_local_sha256 row == fr_version_sha256 row)) false)).

Definition sql_recover_case (row : file_row) : tv :=
  (NOT sql_in (Some (coalesce (fr_local_presence row) Missing)) [Present; Unsupported])
  AND Some (0 <? fr_recoverable_version_count row).

(** [availability NOT IN ('missing', 'purged')]. *)
Definition sql_cloud_case (row : file_row) : tv :=
  NOT sql_in (fr_availability row) [AvMissing; Purged].
End sql_summary.

(** One row of the GROUP BY. *)
Record summary_row := {
  sr_state : protection_state;
  sr_item_count : Z;
  sr_total_size : Z;
  sr_local_size : Z;
  sr_cloud_size : Z;
  sr_action_upload : Z;
  sr_action_recover : Z;
  sr_action_free_space : Z;
  sr_action_cloud_purge : Z;
}.

Definition summarize (s : protection_state) (rows : list file_row) : summary_row := {|
  sr_state := s;
  sr_item_count := countZ (fun _ => true) rows;
  sr_total_size := sumZ (map (fun row =>
      match fr_local_size row with Some n => n | None => coalesce (fr_cloud_size row) 0 end) rows);
  sr_local_size := sumZ (map (fun row =>
      if holds (sql_in (fr_local_presence row) [Present; Unsupported])
      then coalesce (fr_local_size row) 0 else 0) rows);
  sr_cloud_size := sumZ (map (fun row =>
      if holds (sql_cloud_case row) then coalesce (fr_cloud_size row) 0 else 0) rows);
  sr_action_upload := countZ (fun row => holds (sql_upload_case row)) rows;
  sr_action_recover := countZ (fun row => holds (sql_recover_case row)) rows;
  sr_action_free_space := countZ (fun row => fr_protection_state row =b protected) rows;
  sr_action_cloud_purge := countZ (fun row => fr_protection_state row =b cloud_only) rows;
|}.

(** [GROUP BY protection_state]: one row per state that occurs. *)
Definition summaries (rows : list file_row) : list summary_row :=
  map (fun s => summarize s (sql_group rows s))
    (List.filter (fun s => exists_row (fun row => fr_protection_state row =b s) rows) STATES).

Definition state_count (l : list summary_row) (s : protection_state) : Z :=
  match List.find (fun r => sr_state r =b s) l with Some r => sr_item_count r | None => 0 end.

(** The latest version that is neither missing nor purged: the join of the
    storage-class query. *)
Definition latest_live (f : catalog_file) : option archive_version :=
  latest av_version_number
    (select (fun v => negb ((av_availability v =b AvMissing) || (av_availability v =b Purged)))
       (cf_versions f)).

(** [SELECT av.storage_class, COUNT] grouped by class, as the dict. *)
Definition storage_class_counts (files : list catalog_file) : gmap string Z :=
  fold_left (fun m f => match latest_live f ≫= av_storage_class with
                        | Some k => bump k m
                        | None => m
                        end) files ∅.

(** The files the SELECT restricts to: [fp.path LIKE escaped || '/%']. *)
Definition files_below (directory : string) (files : list catalog_file) : list catalog_file :=
  select (fun f => like (String.append (escape_like directory) "/%") (cf_path f)) files.

(** [None]: the folder row is deleted because nothing visible is below it. *)
Definition directory_summary (files : list catalog_file) : option directory_rollup :=
  let rows := select (fun row => holds (sql_visible row)) (map visible_file_select files) in
  let l := summaries rows in
  let total (g : summary_row → Z) := sumZ (map g l) in
  let item_count := total sr_item_count in
  if item_count <=? 0 then None else
  Some {|
    dr_item_count := item_count;
    dr_total_size := total sr_total_size;
    dr_local_size := total sr_local_size;
    dr_cloud_size := total sr_cloud_size;
    dr_state_counts := state_count l;
    dr_action_upload := total sr_action_upload;
    dr_action_recover := total sr_action_recover;
    dr_action_free_space := total sr_action_free_space;
    dr_action_cloud_purge := total sr_action_cloud_purge;
    dr_storage_classes := storage_class_counts files;
  |}.

(** [_rebuild_directory] on the folder rows of one Vault. *)
Definition rebuild_directory (files : list catalog_file) (directory : string)
    (aggregates : gmap string directory_rollup) : gmap string directory_rollup :=
  let directory := strip_slash (py_strip directory) in
  if directory =b EmptyString then aggregates else
  match directory_summary (files_below directory files) with
  | None => delete directory aggregates
  | Some rollup => <[directory := rollup]> aggregates
  end.

(** ** Agreement of the two computations *)

(** Two roll-ups with the same persisted columns, storage classes aside. *)
Definition same_columns (a b : directory_rollup) : Prop :=
  dr_item_count a = dr_item_count b ∧ dr_total_size a = dr_total_size b
  ∧ dr_local_size a = dr_local_size b ∧ dr_cloud_size a = dr_cloud_size b
  ∧ (∀ s, dr_state_counts a s = dr_state_counts b s)
  ∧ dr_action_upload a = dr_action_upload b ∧ dr_action_recover a = dr_action_recover b
  ∧ dr_action_free_space a = dr_action_free_space b
  ∧ dr_action_cloud_purge a = dr_action_cloud_purge b.

(** Text identifiers are never empty: ids are UUIDs, and a recorded storage
    class names a class. *)
Definition well_formed (f : catalog_file) : Prop :=
  (∀ c, cf_lc f = Some c → lc_cloud_only_version_id c ≠ Some EmptyString)
  ∧ ∀ v, v ∈ cf_versions f → av_storage_class v ≠ Some EmptyString.

Lemma fold_add_column (π : directory_rollup → Z) (h : file_contribution → Z) cs r :
  (∀ r c, π (rollup_add r c) = π r + h c) →
  π (fold_left rollup_add cs r) = π r + sumZ (map h cs).
Proof.
  intros Hstep. revert r; induction cs as [|c cs IH]; intros r; cbn; [lia|].
  rewrite IH, Hstep. lia.
Qed.

(** Summing per group and then over the groups is summing over the rows. *)
Lemma sum_groups (g : file_row → Z) rows :
  sumZ (map (fun s => sumZ (map g (sql_group rows s)))
         (List.filter (fun s => exists_row (fun row => fr_protection_state row =b s) rows) STATES))
  = sumZ (map g rows).
Proof.
  transitivity (sumZ (map (fun s => sumZ (map g (sql_group rows s))) STATES)).
  - generalize STATES as l. induction l as [|s l IH]; [done|]. cbn.
    destruct (exists_row _ rows) eqn:E; cbn; rewrite IH; [done|].
    unfold sql_group at 2. by rewrite (select_none _ _ E).
  - unfold STATES, sql_group, select. cbn [map sumZ].
    induction rows as [|row rows IH]; [done|]. cbn [map sumZ List.filter].
    destruct (fr_protection_state row);
      repeat (first [rewrite bool_decide_eq_true_2 by done | rewrite bool_decide_eq_false_2 by done]);
      cbn [map sumZ]; lia.
Qed.

Lemma summaries_total (π : summary_row → Z) (g : file_row → Z) rows :
  (∀ s l, π (summarize s l) = sumZ (map g l)) →
  sumZ (map π (summaries rows)) = sumZ (map g rows).
Proof.
  intros Hπ. unfold summaries. rewrite map_map, <- sum_groups. f_equal. apply map_ext.
  intros s. apply Hπ.
Qed.

Lemma summaries_state_count rows s :
  state_count (summaries rows) s = countZ (fun row => fr_protection_state row =b s) rows.
Proof.
  unfold state_count, summaries.
  assert (Hfind : ∀ l, List.find (fun r => sr_state r =b s)
      (map (fun t => summarize t (sql_group rows t)) l)
    = if bool_decide (s ∈ l) then Some (summarize s (sql_group rows s)) else None).
  { induction l as [|t l IH]; [done|]. cbn. destruct (decide (t = s)) as [->|Hne].
    - rewrite !bool_decide_eq_true_2; [done|by left|done].
    - rewrite (bool_decide_eq_false_2 (t = s)), IH by done.
      rewrite (bool_decide_ext (s ∈ l) (s ∈ t :: l)); [done|]. rewrite elem_of_cons. naive_solver. }
  rewrite Hfind. case_bool_decide as Hin.
  - cbn. rewrite !countZ_length. unfold sql_group, select. do 2 f_equal.
    generalize (List.filter (fun row => fr_protection_state row =b s) rows) as l.
    induction l as [|x l IH]; cbn; [done|]. by rewrite IH.
  - symmetry. rewrite countZ_length. fold (sql_group rows s).
    destruct (exists_row (fun row => fr_protection_state row =b s) rows) eqn:E.
    + exfalso. apply Hin. rewrite list_elem_of_In, filter_In. split; [|done].
      destruct s; cbn; tauto.
    + fold (select (fun row => fr_protection_state row =b s) rows). by rewrite select_none.
Qed.

Lemma sum_visible (h : file_contribution → Z) (g : file_row → Z) files :
  (∀ f, f ∈ files → match contribution_from_row (visible_file_select f) with
        | Some c => holds (sql_visible (visible_file_select f)) = true
                    ∧ g (visible_file_select f) = h c
        | None => holds (sql_visible (visible_file_select f)) = false
        end) →
  sumZ (map g (select (fun row => holds (sql_visible row)) (map visible_file_select files)))
  = sumZ (map h (visible_contributions files)).
Proof.
  unfold select, visible_contributions.
  induction files as [|f files IH]; intros H; [done|]. cbn.
  pose proof (H f ltac:(left)) as Hf.
  assert (IH' := IH ltac:(intros; apply H; by right)). clear IH H.
  destruct (contribution_from_row _) as [c|]; [destruct Hf as [-> Hg]|rewrite Hf]; cbn.
  - rewrite IH', Hg. done.
  - done.
Qed.

Lemma sql_visible_spec row :
  holds (sql_visible row) = row_local_exists row || is_some (fr_archive_version_id row).
Proof.
  unfold sql_visible, row_local_exists. rewrite holds_or, holds_in, holds_is_not_null. f_equal.
  destruct (fr_local_presence row) as [[]|]; done.
Qed.

Lemma sql_protected_spec row :
  (if fr_archive_version_id row is Some _ then true else false) && holds (
     (tv_and (tv_and (tv_and (tv_and (sql_eq (fr_integrity row) (Some Verified))
        (sql_eq (fr_availability row) (Some Available)))
        (sql_eq (fr_matched_archive_version_id row) (fr_archive_version_id row)))
        (sql_is_not_null (fr_local_sha256 row)))
        (sql_eq (fr_local_sha256 row) (fr_version_sha256 row))))
  = local_copy_is_protected row.
Proof.
  unfold local_copy_is_protected. destruct (fr_archive_version_id row) as [x|]; [|done].
  rewrite !holds_and, !holds_eq_const, !holds_eq, holds_is_not_null. cbn.
  destruct (fr_local_sha256 row) as [h|]; cbn; rewrite ?andb_false_r; [|done].
  do 2 f_equal. apply bool_decide_ext. naive_solver.
Qed.

Lemma sql_upload_spec row :
  fr_cloud_only_version_id row ≠ Some EmptyString →
  holds (sql_upload_case row) = local_copy_is_upload_eligible row.
Proof.
  intros Hne. unfold sql_upload_case, local_copy_is_upload_eligible.
  rewrite !holds_and, holds_not_coalesce, !holds_eq_const, <- sql_protected_spec, !holds_and.
  f_equal; [f_equal; [f_equal|]|].
  - destruct (fr_restore_state row) as [s|]; cbn; [|done]. destruct (decide (s = "restoring"%string)) as [->|Hs].
    + done.
    + rewrite !bool_decide_eq_false_2; [done|congruence|done].
  - destruct (fr_cloud_only_version_id row) as [[|]|]; done.
  - f_equal. destruct (fr_archive_version_id row) as [x|]; [done|].
    rewrite (holds_eq (fr_matched_archive_version_id row)).
    rewrite bool_decide_eq_false_2 by (intros [-> ?]; done). by rewrite !andb_false_r.
Qed.

Lemma sql_recover_spec row :
  holds (sql_recover_case row)
  = negb (row_local_exists row) && (0 <? fr_recoverable_version_count row).
Proof.
  unfold sql_recover_case, row_local_exists. rewrite holds_and, holds_some. f_equal.
  destruct (fr_local_presence row) as [[]|]; done.
Qed.

Lemma sql_cloud_spec f :
  holds (sql_cloud_case (visible_file_select f)) = row_has_cloud (visible_file_select f).
Proof.
  unfold sql_cloud_case, row_has_cloud. cbn.
  destruct (latest _ _) as [v|]; [|done]. cbn. by destruct (av_availability v).
Qed.

Lemma cleanup_when_protected f :
  STATE_SQL (joined f) = protected →
  local_copy_is_protected (visible_file_select f) = true
  ∧ fr_local_presence (visible_file_select f) = Some Present
  ∧ fr_local_file_type (visible_file_select f) = Some Regular.
Proof.
  intros (_ & c & v & Hc & Hv & Hp)%state_sql_is. unfold copy_protected in Hp. destruct_and?.
  unfold local_copy_is_protected, visible_file_select, select_row. cbn -[STATE_SQL] in *.
  rewrite Hc, Hv. cbn. repeat split; try by f_equal.
  rewrite !bool_decide_eq_true_2 by congruence. cbn. rewrite andb_true_r. by apply is_some_true.
Qed.

(** Every aggregated column of a visible row is the file's contribution. *)
Lemma contribution_columns f : well_formed f →
  let row := visible_file_select f in
  match contribution_from_row row with
  | Some c => holds (sql_visible row) = true
      ∧ fc_state c = fr_protection_state row
      ∧ fc_total_size c = match fr_local_size row with Some n => n | None => coalesce (fr_cloud_size row) 0 end
      ∧ fc_local_size c = (if holds (sql_in (fr_local_presence row) [Present; Unsupported])
                           then coalesce (fr_local_size row) 0 else 0)
      ∧ fc_cloud_size c = (if holds (sql_cloud_case row) then coalesce (fr_cloud_size row) 0 else 0)
      ∧ fc_upload_eligible c = holds (sql_upload_case row)
      ∧ fc_recover_eligible c = holds (sql_recover_case row)
      ∧ fc_cleanup_eligible c = (fr_protection_state row =b protected)
  | None => holds (sql_visible row) = false
  end.
Proof.
  intros [Hco _] row. subst row. rewrite sql_visible_spec. unfold contribution_from_row.
  destruct (row_local_exists (visible_file_select f)) eqn:El,
    (is_some (fr_archive_version_id (visible_file_select f))) eqn:Ea; cbn [negb andb orb]; [..|done].
  all: repeat match goal with |- _ ∧ _ => split end; try done.
  all: try (rewrite sql_cloud_spec; done).
  all: try (rewrite sql_upload_spec; [done|]; cbn; destruct (cf_lc f) as [c|] eqn:Ec;
            [by apply (Hco c)|done]).
  all: try (rewrite sql_recover_spec, El; done).
  all: try (unfold row_local_exists in El; cbn [fc_local_size];
            destruct (fr_local_presence (visible_file_select f)) as [[]|]; done).
  all: cbn [fc_cleanup_eligible]; destruct (bool_decide_reflect
            (fr_protection_state (visible_file_select f) = protected)) as [Hp|Hp];
       [|by rewrite andb_false_r];
       destruct (cleanup_when_protected f Hp) as (H1 & H2 & H3);
       unfold local_copy_is_protected in H1;
       destruct (fr_archive_version_id (visible_file_select f)) as [x|]; [|done];
       rewrite H2, H3; cbn [is_some is_none negb andb] in *; rewrite andb_true_r; try done.
  all: rewrite !bool_decide_eq_true_2 by done; exact H1.
Qed.

Lemma summary_column (π : summary_row → Z) (ρ : directory_rollup → Z)
    (g : file_row → Z) (h : file_contribution → Z) files :
  Forall well_formed files →
  (∀ s l, π (summarize s l) = sumZ (map g l)) →
  (∀ r c, ρ (rollup_add r c) = ρ r + h c) → ρ empty_rollup = 0 →
  (∀ f c, well_formed f → contribution_from_row (visible_file_select f) = Some c →
     g (visible_file_select f) = h c) →
  sumZ (map π (summaries
    (select (fun row => holds (sql_visible row)) (map visible_file_select files))))
  = ρ (rollup_of (visible_contributions files)).
Proof.
  intros Hwf Hπ Hρ H0 Hg. rewrite (summaries_total π g) by done. unfold rollup_of.
  rewrite (fold_add_column ρ h), H0, Z.add_0_l by done. apply sum_visible.
  intros f Hf. rewrite Forall_forall in Hwf. specialize (Hwf f Hf).
  pose proof (contribution_columns f Hwf) as Hc. cbn zeta in Hc.
  destruct (contribution_from_row _) as [c|] eqn:E; [|done]. split; [apply Hc|]. by apply Hg.
Qed.

Ltac column :=
  intros; match goal with
  | Hw : well_formed ?f, E : contribution_from_row (visible_file_select ?f) = Some _ |- _ =>
      pose proof (contribution_columns f Hw) as Hcols; cbn zeta in Hcols; rewrite E in Hcols;
      destruct Hcols as (Hvis & Hst & Htot & Hloc & Hcl & Hup & Hrec & Hfree)
  end.

Lemma state_count_column files s : Forall well_formed files →
  countZ (fun row => fr_protection_state row =b s)
    (select (fun row => holds (sql_visible row)) (map visible_file_select files))
  = dr_state_counts (rollup_of (visible_contributions files)) s.
Proof.
  intros Hwf. unfold rollup_of.
  rewrite (fold_add_column (fun r => dr_state_counts r s) (fun c => if fc_state c =b s then 1 else 0)).
  - rewrite Z.add_0_l. apply sum_visible. intros f Hf. rewrite Forall_forall in Hwf.
    specialize (Hwf f Hf). destruct (contribution_from_row _) as [c|] eqn:E.
    + column. split; [done|]. cbv beta. by rewrite Hst.
    + pose proof (contribution_columns f Hwf) as Hc. cbn zeta in Hc. by rewrite E in Hc.
  - intros r c. cbn. destruct (decide (s = fc_state c)) as [->|Hne].
    + rewrite !bool_decide_eq_true_2 by done. done.
    + rewrite !bool_decide_eq_false_2 by congruence. lia.
Qed.

Lemma item_count_column files : Forall well_formed files →
  sumZ (map sr_item_count (summaries
    (select (fun row => holds (sql_visible row)) (map visible_file_select files))))
  = Z.of_nat (length (visible_contributions files)).
Proof.
  intros Hwf. rewrite (summary_column sr_item_count dr_item_count (fun _ => 1) (fun _ => 1)); try done.
  unfold rollup_of. rewrite (fold_add_column dr_item_count (fun _ => 1)) by done.
  generalize (visible_contributions files). induction l; cbn in *; lia.
Qed.

(** The SQL refresh of a folder computes the streamed roll-up of the files it
    reads, and deletes the row exactly when none of them is visible. *)
Lemma directory_summary_agrees files : Forall well_formed files →
  match directory_summary files with
  | Some r => visible_contributions files ≠ []
              ∧ same_columns r (rollup_of (visible_contributions files))
              ∧ dr_storage_classes r = storage_class_counts files
  | None => visible_contributions files = []
  end.
Proof.
  intros Hwf. unfold directory_summary. rewrite item_count_column by done.
  destruct (Z.leb_spec (Z.of_nat (length (visible_contributions files))) 0) as [Hle|Hgt].
  { destruct (visible_contributions files); [done|]. cbn in Hle. lia. }
  split; [intros E; by rewrite E in Hgt|]. split; [|done].
  split_and!; cbn [dr_item_count dr_total_size dr_local_size dr_cloud_size dr_state_counts
    dr_action_upload dr_action_recover dr_action_free_space dr_action_cloud_purge].
  - rewrite <- item_count_column by done.
    by apply (summary_column _ dr_item_count (fun _ => 1) (fun _ => 1)).
  - eapply (summary_column _ dr_total_size _ fc_total_size); [done|reflexivity|done|done|]. by column.
  - eapply (summary_column _ dr_local_size _ fc_local_size); [done|reflexivity|done|done|]. by column.
  - eapply (summary_column _ dr_cloud_size _ fc_cloud_size); [done|reflexivity|done|done|]. by column.
  - intros s. rewrite summaries_state_count. by apply state_count_column.
  - eapply (summary_column _ dr_action_upload _ (fun c => if fc_upload_eligible c then 1 else 0)); [done|reflexivity| |done|].
    + intros r c. cbn. destruct (fc_upload_eligible c); lia.
    + column. by rewrite Hup.
  - eapply (summary_column _ dr_action_recover _ (fun c => if fc_recover_eligible c then 1 else 0)); [done|reflexivity| |done|].
    + intros r c. cbn. destruct (fc_recover_eligible c); lia.
    + column. by rewrite Hrec.
  - eapply (summary_column _ dr_action_free_space _ (fun c => if fc_cleanup_eligible c then 1 else 0)); [done|reflexivity| |done|].
    + intros r c. cbn. destruct (fc_cleanup_eligible c); lia.
    + column. by rewrite Hfree.
  - eapply (summary_column _ dr_action_cloud_purge _ (fun c => if fc_state c =b cloud_only then 1 else 0)); [done|reflexivity| |done|].
    + intros r c. cbn. destruct (bool_decide _); lia.
    + column. by rewrite Hst.
Qed.

(** ** Ancestors of a path *)

(** A path [strip] leaves unchanged: no white space and no slash at the ends. *)
Definition canonical (path : string) : Prop := strip_slash (py_strip path) = path.

Lemma take_join_inj (parts : list string) i j :
  Forall (fun x => has_char slash x = false) parts →
  (0 < i ≤ length parts)%nat → (0 < j ≤ length parts)%nat →
  join "/" (take i parts) = join "/" (take j parts) → i = j.
Proof.
  intros Hp Hi Hj H. apply (f_equal (split_on slash)) in H.
  assert (Hne : ∀ k, (0 < k)%nat → take k parts ≠ []).
  { intros k Hk. destruct k, parts; cbn in *; try lia. done. }
  rewrite !split_join in H by (first [by apply Hne; lia | by apply Forall_take]).
  apply (f_equal length) in H. rewrite !length_take in H. lia.
Qed.

Lemma ancestor_directories_NoDup path : NoDup (ancestor_directories path).
Proof.
  unfold ancestor_directories. destruct (_ || _); [constructor|].
  set (parts := split_on slash _).
  assert (Hp : Forall (fun x => has_char slash x = false) parts).
  { apply Forall_forall. intros x. apply split_on_pieces. }
  clearbody parts.
  assert (Hn : (length parts - 1 < length parts ∨ parts = [])%nat) by (destruct parts; cbn; auto; lia).
  destruct Hn as [Hn| ->]; [|constructor].
  assert (Hgen : ∀ n, (n < length parts)%nat →
    NoDup (map (fun index => join "/" (take index parts)) (seq 1 n))).
  { induction n as [|n IH]; intros Hlt; [constructor|].
    rewrite seq_S, map_app. cbn. apply NoDup_app. split; [apply IH; lia|]. split; [|apply NoDup_singleton].
    intros x Hx ->%list_elem_of_singleton. apply list_elem_of_In, in_map_iff in Hx as (k & Hk & Hin).
    apply in_seq in Hin. apply take_join_inj in Hk; [lia|done|lia|lia]. }
  by apply Hgen.
Qed.

(** The ancestors of a canonical path are its proper folder prefixes. *)
Lemma elem_of_ancestors path d : canonical path →
  d ∈ ancestor_directories path ↔ ∃ rest, path = String.append d (String slash rest).
Proof.
  intros Hc. unfold ancestor_directories. rewrite Hc. split.
  - destruct (_ || _) eqn:E; [intros []%not_elem_of_nil|]. rewrite list_elem_of_In, in_map_iff.
    intros (i & <- & Hi%in_seq). set (parts := split_on slash path) in *.
    exists (join "/" (drop i parts)). rewrite <- (join_split slash path) at 1. fold parts.
    rewrite <- (take_drop i parts) at 1. change (String slash EmptyString) with "/"%string.
    rewrite join_app; [done| |].
    + intros Ht. apply (f_equal length) in Ht. rewrite length_take in Ht. cbn in Ht. lia.
    + intros Hd. apply (f_equal length) in Hd. rewrite length_drop in Hd. cbn in Hd. lia.
  - intros (rest & Hp).
    assert (Hs : split_on slash path = split_on slash d ++ split_on slash rest)
      by (rewrite Hp; apply split_on_app).
    destruct (split_on_cons slash d) as (h & t & Ed), (split_on_cons slash rest) as (h' & t' & Er).
    assert (Hch : has_char slash path = true).
    { destruct (has_char slash path) eqn:E; [done|]. apply split_on_no_char in E.
      rewrite Hs, Ed, Er in E. destruct t; done. }
    rewrite Hch. rewrite bool_decide_eq_false_2 by (intros ->; by destruct d). cbn [negb orb].
    rewrite list_elem_of_In, in_map_iff. exists (length (split_on slash d)). split.
    + rewrite Hs, take_app_length. apply (join_split slash).
    + rewrite in_seq, Hs, length_app, Ed, Er. cbn. lia.
Qed.

(** ** The full rebuild, folder by folder *)
Lemma rolled_add_lookup m c d :
  rolled_add m c !! d =
    if bool_decide (d ∈ ancestor_directories (fc_path c))
    then Some (rollup_add (or_default (m !! d) empty_rollup) c) else m !! d.
Proof.
  unfold rolled_add. pose proof (ancestor_directories_NoDup (fc_path c)) as Hnd.
  revert m; induction Hnd as [|x l Hx Hnd IH]; intros m; [done|].
  cbn [fold_left]. rewrite IH. destruct (decide (d = x)) as [->|Hne].
  - rewrite (bool_decide_eq_false_2 (x ∈ l)), bool_decide_eq_true_2 by (done || left).
    by rewrite lookup_insert_eq.
  - rewrite lookup_insert_ne by done.
    rewrite (bool_decide_ext (d ∈ l) (d ∈ x :: l)); [done|]. rewrite elem_of_cons. naive_solver.
Qed.

Lemma rebuild_fold_lookup cs m d :
  fold_left rolled_add cs m !! d =
    match List.filter (fun c => bool_decide (d ∈ ancestor_directories (fc_path c))) cs with
    | [] => m !! d
    | l => Some (fold_left rollup_add l (or_default (m !! d) empty_rollup))
    end.
Proof.
  revert m; induction cs as [|c cs IH]; intros m; [done|]. cbn [fold_left List.filter].
  rewrite IH, rolled_add_lookup. case_bool_decide; [|done].
  destruct (List.filter _ cs); done.
Qed.

Lemma rebuild_vault_lookup files d :
  rebuild_vault_directory_aggregates files !! d =
    match List.filter (fun c => bool_decide (d ∈ ancestor_directories (fc_path c)))
            (visible_contributions files) with
    | [] => None
    | l => Some (rollup_of l)
    end.
Proof. unfold rebuild_vault_directory_aggregates. by rewrite rebuild_fold_lookup, lookup_empty. Qed.

Lemma contribution_path row c : contribution_from_row row = Some c → fc_path c = fr_path row.
Proof. unfold contribution_from_row. destruct (_ && _); [done|]. by intros [= <-]. Qed.

(** LIKE selects exactly the files that have the folder as an ancestor. *)
Lemma contributions_below files d : Forall (fun f => canonical (cf_path f)) files →
  List.filter (fun c => bool_decide (d ∈ ancestor_directories (fc_path c))) (visible_contributions files)
  = visible_contributions (files_below d files).
Proof.
  intros Hc. unfold files_below, select, visible_contributions.
  induction Hc as [|f files Hf Hc IH]; [done|].
  assert (Hb : like (String.append (escape_like d) "/%") (cf_path f)
             = bool_decide (d ∈ ancestor_directories (cf_path f))).
  { apply eq_bool_prop_intro. rewrite !Is_true_true, like_escape_prefix, starts_with_spec,
      bool_decide_eq_true, elem_of_ancestors by done.
    split; intros (t & ->); exists t; by rewrite <- (assoc_L String.append). }
  cbn [List.filter]. rewrite Hb. cbn [omap list_omap].
  destruct (contribution_from_row (visible_file_select f)) as [c|] eqn:E.
  - cbn [List.filter]. rewrite (contribution_path _ _ E). cbn [fr_path visible_file_select select_row].
    case_bool_decide; cbn [omap list_omap]; rewrite ?E, <- IH; done.
  - case_bool_decide; cbn [omap list_omap]; rewrite ?E, <- IH; done.
Qed.

(** The row the refresh leaves, against the full rebuild. *)
Definition agree_rows (x y : option directory_rollup) : Prop :=
  match x, y with
  | Some r, Some r' => same_columns r r'
  | None, None => True
  | _, _ => False
  end.

Lemma refresh_agrees files d agg :
  Forall well_formed files → Forall (fun f => canonical (cf_path f)) files →
  canonical d → d ≠ EmptyString →
  agree_rows (rebuild_directory files d agg !! d) (rebuild_vault_directory_aggregates files !! d).
Proof.
  intros Hwf Hc Hd Hne. unfold rebuild_directory. rewrite Hd, bool_decide_eq_false_2 by done.
  rewrite rebuild_vault_lookup, contributions_below by done.
  assert (Hwf' : Forall well_formed (files_below d files)).
  { rewrite Forall_forall in *. intros f [Hf _]%elem_of_select. auto. }
  pose proof (directory_summary_agrees _ Hwf') as Ha.
  destruct (directory_summary _) as [r|].
  - destruct Ha as (Hn & Hcols & _). rewrite lookup_insert_eq.
    by destruct (visible_contributions (files_below d files)).
  - rewrite Ha, lookup_delete_eq. done.
Qed.

(** Incremental refresh is a full rebuild. For files with canonical paths
    and a canonical folder, refreshing the folder with SQL leaves a row exactly
    when the full rebuild of the Vault has one, with the same persisted columns
    (counts, sizes, states and available actions). *)
Theorem rebuild_directory_is_full_rebuild files d agg :
  Forall well_formed files → Forall (fun f => canonical (cf_path f)) files →
  canonical d → d ≠ EmptyString →
  match rebuild_directory files d agg !! d, rebuild_vault_directory_aggregates files !! d with
  | Some r, Some r' => same_columns r r'
  | None, None => True
  | _, _ => False
  end.
Proof. apply refresh_agrees. Qed.

(** ** A file whose latest version was lost *)
Definition w_version (n : Z) (a : availability) : archive_version :=
  {| av_id := if n =? 1 then "v1" else "v2"; av_vault_file_id := "f"; av_vault_id := 1;
     av_version_number := n; av_object_key := Some "k"; av_provider_version_id := Some "p";
     av_size := Some 10; av_storage_class := Some "GLACIER_IR"; av_plaintext_sha256 := Some "h";
     av_origin := Upload; av_integrity := Verified; av_verified_at := Some 0;
     av_availability := a; av_availability_checked_at := None; av_restore_state := None; av_placement := new_placement 0;
     av_evidence := no_evidence |}.

Definition w_file (versions : list archive_version) : catalog_file :=
  {| cf_path := "a/b.txt"; cf_lc := None; cf_versions := versions; cf_upload_jobs := [] |}.

Lemma rebuild_directory_is_full_rebuild_witness :
  match rebuild_directory [w_file [w_version 1 Available]] "a" ∅ !! "a",
        rebuild_vault_directory_aggregates [w_file [w_version 1 Available]] !! "a" with
  | Some r, Some r' => same_columns r r'
  | None, None => True
  | _, _ => False
  end.
Proof.
  apply rebuild_directory_is_full_rebuild.
  - repeat constructor; [discriminate|]. intros v ->%list_elem_of_singleton. discriminate.
  - repeat constructor.
  - reflexivity.
  - discriminate.
Defined.

(** The storage-class counts of the two computations differ.  For a file whose
    latest Archive Version went missing while an older one is available, the
    full rebuild counts no storage class for the folder and the refresh of the
    same folder counts the class of the older version. *)
Theorem storage_class_counts_diverge :
  let files := [w_file [w_version 1 Available; w_version 2 AvMissing]] in
  dr_storage_classes <$> rebuild_vault_directory_aggregates files !! "a" = Some ∅
  ∧ dr_storage_classes <$> rebuild_directory files "a" ∅ !! "a" = Some {["GLACIER_IR" := 1]}.
Proof. split; vm_compute; reflexivity. Qed.
