(* ===== verification/JobScheduler.v ===== *)
(** * JobScheduler: fair selection of Jobs across Vaults

    Models [src/app/services/job_scheduler.py].  [select_fair_jobs] is the
    code's own loop: a dictionary of queues per Vault, a visiting order, a
    [while] that serves one Job per Vault and round.  The [while] runs on fuel;
    the main lemma shows that one unit per Job is enough.  The reference
    [round_robin] states what the loop computes without any state. *)
From S2P Require Import Prelude Sql Schema.

(** ** Model *)

(** The sort key [(requested_at, id)]. *)
Definition job_le (a b : job) : bool :=
  (j_requested_at a <? j_requested_at b)
  || ((j_requested_at a =? j_requested_at b) && (j_id a <=? j_id b)).

Definition item_vault_id (j : job) : Z := j_vault_id j.

Notation queues := (gmap Z (list job)).

(** [by_vault[item_vault_id(job)].append(job)] on a [defaultdict(deque)]. *)
Definition enqueue (by_vault : queues) (j : job) : queues :=
  <[item_vault_id j := or_default (by_vault !! item_vault_id j) [] ++ [j]]> by_vault.

Definition group_by_vault (jobs : list job) : queues :=
  foldl enqueue ∅ (sort_by job_le jobs).

(** The key of a Vault in the visiting order: its head Job, then its id. *)
Definition vault_le (by_vault : queues) (v w : Z) : bool :=
  match by_vault !! v, by_vault !! w with
  | Some (a :: _), Some (b :: _) =>
      (j_requested_at a <? j_requested_at b)
      || ((j_requested_at a =? j_requested_at b)
          && ((j_id a <? j_id b) || ((j_id a =? j_id b) && (v <=? w))))
  | _, _ => v <=? w
  end.

Definition order_vaults (by_vault : queues) : list Z :=
  sort_by (vault_le by_vault) (map fst (map_to_list by_vault)).

(** The [for vault_id in vault_order] of one round.  The [break] ends the
    recursion; [next_order] keeps the Vaults that still have Jobs. *)
Fixpoint serve_round (limit : Z) (vault_order : list Z)
    (selected : list job) (by_vault : queues) (next_order : list Z) (progressed : bool)
  : list job * queues * list Z * bool :=
  match vault_order with
  | [] => (selected, by_vault, next_order, progressed)
  | v :: rest =>
      match by_vault !! v with
      | None | Some [] => serve_round limit rest selected (delete v by_vault) next_order progressed
      | Some (j :: queue) =>
          let selected := selected ++ [j] in
          let '(by_vault, next_order) :=
            match queue with
            | [] => (delete v by_vault, next_order)
            | _ => (<[v := queue]> by_vault, next_order ++ [v])
            end in
          if limit <=? Z.of_nat (length selected)
          then (selected, by_vault, next_order, true)
          else serve_round limit rest selected by_vault next_order true
      end
  end.

(** The [while len(selected) < limit and by_vault] loop; [None] is fuel
    exhaustion. *)
Fixpoint serve (fuel : nat) (limit : Z) (vault_order : list Z)
    (selected : list job) (by_vault : queues) : option (list job) :=
  if (Z.of_nat (length selected) <? limit) && negb (bool_decide (by_vault = ∅)) then
    match fuel with
    | O => None
    | S fuel =>
        let '(selected, by_vault, next_order, progressed) :=
          serve_round limit vault_order selected by_vault [] false in
        if negb progressed then Some selected
        else serve fuel limit
               (match next_order with [] => order_vaults by_vault | _ => next_order end)
               selected by_vault
    end
  else Some selected.

Definition select_fair_jobs (jobs : list job) (limit : Z) : option (list job) :=
  if (limit <=? 0) || (bool_decide (jobs = [])) then Some []
  else
    let by_vault := group_by_vault jobs in
    serve (length jobs) limit (order_vaults by_vault) [] by_vault.

(** ** Reference: round [k] serves the [k]-th Job of every Vault *)
Definition vault_queue (jobs : list job) (v : Z) : list job :=
  List.filter (fun j => item_vault_id j =b v) (sort_by job_le jobs).

Definition round (Q : Z → list job) (order : list Z) (k : nat) : list job :=
  omap (fun v => Q v !! k) order.

Lemma round_cons Q v order k :
  round Q (v :: order) k
  = match Q v !! k with Some j => j :: round Q order k | None => round Q order k end.
Proof. done. Qed.

Definition round_robin (Q : Z → list job) (order : list Z) (n : nat) : list job :=
  concat (map (round Q order) (seq 0 n)).

Definition jobs_of (v : Z) (l : list job) : list job :=
  List.filter (fun j => item_vault_id j =b v) l.

(** ** The queues *)
Lemma group_lookup_aux l m v :
  foldl enqueue m l !! v =
  match jobs_of v l with [] => m !! v | q => Some (or_default (m !! v) [] ++ q) end.
Proof.
  revert m; induction l as [|j l IH]; intros m; [done|].
  cbn. rewrite IH. unfold enqueue. case_bool_decide as E; cbn.
  - subst v. rewrite lookup_insert_eq. fold (jobs_of (item_vault_id j) l).
    destruct (jobs_of _ l); cbn; [done|]. by rewrite <- app_assoc.
  - fold (jobs_of v l). by rewrite lookup_insert_ne by done.
Qed.

Lemma group_lookup jobs v :
  group_by_vault jobs !! v =
  match vault_queue jobs v with [] => None | q => Some q end.
Proof. unfold group_by_vault. rewrite group_lookup_aux, lookup_empty. done. Qed.

Lemma drop_cons_lookup {A} (l : list A) k x q :
  drop k l = x :: q → l !! k = Some x ∧ drop (S k) l = q.
Proof.
  intros H. split.
  - rewrite <- (Nat.add_0_r k), <- lookup_drop, H. done.
  - replace (S k) with (k + 1)%nat by lia. by rewrite <- drop_drop, H.
Qed.

Lemma drop_nil_lookup {A} (l : list A) k : drop k l = [] → l !! k = None.
Proof. intros H. rewrite <- (Nat.add_0_r k), <- lookup_drop, H. done. Qed.

(** ** One round *)

Definition some_queue (q : list job) : option (list job) :=
  match q with [] => None | _ => Some q end.

(** [by_vault] after [k] full rounds over the queues [Q]. *)
Definition state_at (Q : Z → list job) (k : nat) (m : queues) : Prop :=
  ∀ v, m !! v = some_queue (drop k (Q v)).

(** In the middle of round [k] the Vaults still to visit are [rest]. *)
Definition mid_round (Q : Z → list job) (k : nat) (rest : list Z) (m : queues) : Prop :=
  ∀ v, m !! v = some_queue (drop (if v ∈b rest then k else S k) (Q v)).

Definition has_job (Q : Z → list job) (k : nat) (v : Z) : bool :=
  match drop k (Q v) with [] => false | _ => true end.

Lemma mid_round_step Q k v rest m j q :
  v ∉ rest → drop k (Q v) = j :: q → mid_round Q k (v :: rest) m →
  mid_round Q k rest
    (match q with [] => delete v m | _ => <[v := q]> m end).
Proof.
  intros Hv Hd Hm w. destruct (drop_cons_lookup _ _ _ _ Hd) as [_ Hq].
  destruct (decide (w = v)) as [->|Hw].
  - rewrite bool_decide_eq_false_2 by done. rewrite Hq.
    destruct q; [by rewrite lookup_delete_eq | by rewrite lookup_insert_eq].
  - replace (w ∈b rest) with (w ∈b (v :: rest)).
    + rewrite <- Hm. destruct q; [by rewrite lookup_delete_ne | by rewrite lookup_insert_ne].
    + apply bool_decide_ext. rewrite elem_of_cons. naive_solver.
Qed.

Lemma serve_round_spec Q k limit rest sel m next p :
  NoDup rest → mid_round Q k rest m → (∀ v, v ∈ rest → has_job Q k v = true) →
  Z.of_nat (length sel) < limit →
  ∃ m' next', serve_round limit rest sel m next p
    = (sel ++ take (Z.to_nat limit - length sel) (round Q rest k), m', next',
       match rest with [] => p | _ => true end)
  ∧ (Z.of_nat (length sel) + Z.of_nat (length (round Q rest k)) < limit →
     mid_round Q k [] m' ∧ next' = next ++ List.filter (has_job Q (S k)) rest).
Proof.
  revert sel m next p; induction rest as [|v rest IH]; intros sel m next p Hnd Hm Hr Hl.
  { exists m, next. cbn. rewrite take_nil, !app_nil_r. by split. }
  apply NoDup_cons in Hnd as [Hv Hnd].
  assert (Hj := Hr v ltac:(left)). unfold has_job in Hj.
  destruct (drop k (Q v)) as [|j q] eqn:Hd; [done|].
  destruct (drop_cons_lookup _ _ _ _ Hd) as [Hk Hq].
  assert (Hmv := Hm v). rewrite bool_decide_eq_true_2, Hd in Hmv by left. cbn in Hmv.
  assert (Hstep := mid_round_step _ _ _ _ _ _ _ Hv Hd Hm).
  assert (Hround : round Q (v :: rest) k = j :: round Q rest k) by (cbn; by rewrite Hk).
  assert (Hnext : List.filter (has_job Q (S k)) (v :: rest)
    = match q with [] => [] | _ => [v] end ++ List.filter (has_job Q (S k)) rest).
  { cbn. unfold has_job at 1. rewrite Hq. by destruct q. }
  rewrite Hround. cbn [serve_round]. rewrite Hmv, length_app. cbn [length].
  replace (Z.to_nat limit - length sel)%nat with (S (Z.to_nat limit - length (sel ++ [j])))
    by (rewrite length_app; cbn; lia).
  cbn [take].
  rewrite (app_assoc sel [j] (take (Z.to_nat limit - length (sel ++ [j])) (round Q rest k)) :
    sel ++ j :: take _ _ = _).
  destruct (Z.leb_spec limit (Z.of_nat (length sel + 1))) as [Hle|Hgt].
  - replace (Z.to_nat limit - length (sel ++ [j]))%nat with O by (rewrite length_app; cbn; lia).
    rewrite app_nil_r. destruct q; (do 2 eexists; split; [done|]); cbn; lia.
  - assert (Hl' : Z.of_nat (length (sel ++ [j])) < limit) by (rewrite length_app; cbn; lia).
    rewrite Hnext.
    destruct q as [|j' q];
    (edestruct (IH (sel ++ [j])) as (m' & next' & Heq & Hfin);
      [done|exact Hstep|intros w Hw; apply Hr; right; exact Hw|exact Hl'|];
     exists m', next'; rewrite Heq; split; [destruct rest; reflexivity|];
     rewrite length_app in Hfin; cbn in Hfin |- *; intros Hlt;
     destruct Hfin as [? ->]; [lia|]; split; [done|]; by rewrite <- ?app_assoc).
Qed.

(** ** The loop *)

Section loop.
Context (Q : Z → list job) (order : list Z).
Context (Hnd : NoDup order) (Hcover : ∀ v, Q v ≠ [] → v ∈ order).

Lemma has_job_spec k v : has_job Q k v = true ↔ (k < length (Q v))%nat.
Proof.
  unfold has_job. assert (H := length_drop (Q v) k).
  destruct (drop k (Q v)); cbn in H; split; intros; try done; lia.
Qed.

Lemma has_job_covered k v : has_job Q k v = true → v ∈ order.
Proof. rewrite has_job_spec. intros H. apply Hcover. intros E. rewrite E in H. cbn in H. lia. Qed.

Lemma round_filter k : round Q (List.filter (has_job Q k) order) k = round Q order k.
Proof.
  clear Hnd Hcover. induction order as [|v l IH]; [done|]. cbn [List.filter].
  destruct (has_job Q k v) eqn:E; rewrite !round_cons, IH; [done|].
  replace (Q v !! k) with (@None job); [done|]. symmetry. apply lookup_ge_None_2.
  destruct (decide (k < length (Q v))%nat) as [H|]; [|lia].
  apply has_job_spec in H. congruence.
Qed.

Lemma filter_has_job_mono k :
  List.filter (has_job Q (S k)) (List.filter (has_job Q k) order)
  = List.filter (has_job Q (S k)) order.
Proof.
  clear Hnd Hcover. induction order as [|v l IH]; [done|]. cbn.
  destruct (has_job Q k v) eqn:E; cbn; rewrite IH; [done|].
  destruct (has_job Q (S k) v) eqn:E'; [|done].
  apply has_job_spec in E'. enough (has_job Q k v = true) by congruence.
  apply has_job_spec. lia.
Qed.

Lemma state_mid k m : state_at Q k m → mid_round Q k (List.filter (has_job Q k) order) m.
Proof.
  intros Hm v. rewrite Hm. case_bool_decide as Hv; [done|].
  destruct (has_job Q k v) eqn:E.
  - exfalso. apply Hv. rewrite list_elem_of_In, filter_In, <- list_elem_of_In.
    eauto using has_job_covered.
  - assert (¬ (k < length (Q v))%nat) by (rewrite <- has_job_spec; congruence).
    by rewrite !drop_ge by lia.
Qed.

Lemma state_empty k m : state_at Q k m → m = ∅ ↔ ∀ v, (length (Q v) ≤ k)%nat.
Proof.
  intros Hm. split.
  - intros -> v. assert (H := Hm v). rewrite lookup_empty in H.
    destruct (drop k (Q v)) eqn:E; [|done]. assert (H' := length_drop (Q v) k).
    rewrite E in H'. cbn in H'. lia.
  - intros H. apply map_empty. intros v. by rewrite Hm, drop_ge by auto.
Qed.

Lemma round_past k : (∀ v, (length (Q v) ≤ k)%nat) → round Q order k = [].
Proof.
  intros H. clear Hnd Hcover. induction order as [|v l IH]; [done|].
  rewrite round_cons, IH. by rewrite lookup_ge_None_2 by done.
Qed.

Lemma rounds_past k n :
  (∀ v, (length (Q v) ≤ k)%nat) → concat (map (round Q order) (seq k n)) = [].
Proof.
  revert k; induction n as [|n IH]; intros k H; [done|]. cbn.
  rewrite round_past, IH; [done| |done]. intros v. specialize (H v). lia.
Qed.

Lemma no_order_no_job k m :
  state_at Q k m → List.filter (has_job Q k) order = [] → m = ∅.
Proof.
  intros Hm Hf. apply (state_empty k m Hm). intros v.
  destruct (decide (length (Q v) ≤ k)%nat) as [|Hlt]; [done|].
  assert (Hj : has_job Q k v = true) by (apply has_job_spec; lia).
  exfalso. apply (not_elem_of_nil v). rewrite <- Hf.
  rewrite list_elem_of_In, filter_In, <- list_elem_of_In. eauto using has_job_covered.
Qed.

Lemma serve_full fuel limit vo sel m :
  limit ≤ Z.of_nat (length sel) → serve fuel limit vo sel m = Some sel.
Proof. intros H. destruct fuel; cbn; by destruct (Z.ltb_spec (Z.of_nat (length sel)) limit); [lia|]. Qed.

Lemma serve_spec fuel k limit sel m :
  state_at Q k m → (∀ v, (length (Q v) ≤ k + fuel)%nat) →
  Z.of_nat (length sel) ≤ limit →
  serve fuel limit (List.filter (has_job Q k) order) sel m
  = Some (take (Z.to_nat limit) (sel ++ concat (map (round Q order) (seq k fuel)))).
Proof.
  revert k sel m; induction fuel as [|fuel IH]; intros k sel m Hm Hlen Hl.
  - cbn. rewrite app_nil_r, take_ge by lia.
    rewrite (proj2 (state_empty k m Hm)), bool_decide_eq_true_2, andb_false_r; [done|done|].
    intros v. specialize (Hlen v). lia.
  - destruct (decide (limit ≤ Z.of_nat (length sel))) as [Hfull|Hroom].
    { rewrite serve_full, take_app_le by lia. by rewrite take_ge by lia. }
    cbn [serve]. rewrite (proj2 (Z.ltb_lt _ _)) by lia. cbn.
    case_bool_decide as Hemp; cbn.
    { rewrite (state_empty k m Hm) in Hemp.
      rewrite (round_past k Hemp), rounds_past, app_nil_r, take_ge by (try lia; intros v; specialize (Hemp v); lia).
      done. }
    destruct (serve_round_spec Q k limit (List.filter (has_job Q k) order) sel m [] false)
      as (m' & next' & -> & Hfin).
    { by apply NoDup_ListNoDup, List.NoDup_filter, NoDup_ListNoDup. }
    { by apply state_mid. }
    { intros v. rewrite list_elem_of_In, filter_In. naive_solver. }
    { lia. }
    destruct (List.filter (has_job Q k) order) as [|v0 l0] eqn:Ef.
    { exfalso. eauto using no_order_no_job. }
    rewrite <- Ef in Hfin |- *. rewrite round_filter in Hfin |- *. cbn.
    destruct (decide (Z.of_nat (length sel) + Z.of_nat (length (round Q order k)) < limit)) as [Hlt|Hge].
    + destruct Hfin as [Hm' ->]; [done|]. rewrite filter_has_job_mono. cbn [app].
      assert (Hs : state_at Q (S k) m') by (intros v; rewrite (Hm' v); by case_bool_decide as Hx; [apply not_elem_of_nil in Hx|]).
      rewrite (take_ge (round Q order k)) by lia.
      replace (match List.filter (has_job Q (S k)) order with [] => order_vaults m' | _ => _ end)
        with (List.filter (has_job Q (S k)) order).
      2:{ destruct (List.filter (has_job Q (S k)) order) eqn:En; [|done].
          by rewrite (no_order_no_job (S k) m' Hs En). }
      rewrite IH; [by rewrite app_assoc|done| |rewrite length_app; lia].
      intros v. specialize (Hlen v). lia.
    + rewrite serve_full by (rewrite length_app, length_take; lia).
      rewrite take_app, (take_ge sel) by lia. f_equal. f_equal.
      rewrite take_app_le by lia. done.
Qed.
End loop.

(** ** What each Vault receives *)

Lemma jobs_of_app v l k : jobs_of v (l ++ k) = jobs_of v l ++ jobs_of v k.
Proof. apply List.filter_app. Qed.

Lemma jobs_of_prefix v l k : l `prefix_of` k → jobs_of v l `prefix_of` jobs_of v k.
Proof. intros [r ->]. rewrite jobs_of_app. by eexists. Qed.

Lemma jobs_of_count l x :
  count_occ job_eq_dec (jobs_of (item_vault_id x) l) x = count_occ job_eq_dec l x.
Proof.
  induction l as [|y l IH]; [done|].
  cbn [jobs_of List.filter]. case_bool_decide as E; cbn [count_occ];
    fold (jobs_of (item_vault_id x) l); rewrite IH; [done|].
  destruct (job_eq_dec y x); congruence.
Qed.

Lemma jobs_of_perm l k : (∀ v, jobs_of v l = jobs_of v k) → l ≡ₚ k.
Proof.
  intros H. apply (Permutation_count_occ job_eq_dec). intros x.
  by rewrite <- (jobs_of_count l x), <- (jobs_of_count k x), H.
Qed.

Lemma take_concat {A} (f : nat → list A) n s c :
  ∃ k r, take n (concat (map f (seq s c))) = concat (map f (seq s k)) ++ take r (f (s + k)%nat).
Proof.
  revert n s; induction c as [|c IH]; intros n s.
  - exists O, O. cbn. by rewrite take_nil.
  - destruct (decide (n ≤ length (f s))%nat) as [Hle|Hgt].
    + exists O, n. cbn. by rewrite Nat.add_0_r, take_app_le.
    + destruct (IH (n - length (f s))%nat (S s)) as (k & r & E).
      exists (S k), r. cbn. rewrite take_app, (take_ge (f s)) by lia. rewrite E, app_assoc.
      by rewrite Nat.add_succ_r.
Qed.

Section served.
Context (Q : Z → list job) (order : list Z).
Context (Hnd : NoDup order) (Hcover : ∀ v, Q v ≠ [] → v ∈ order).
Context (Hown : ∀ v j, j ∈ Q v → item_vault_id j = v).

Lemma jobs_of_round_aux v k l :
  NoDup l → jobs_of v (round Q l k) = if v ∈b l then option_list (Q v !! k) else [].
Proof.
  clear Hnd Hcover. induction l as [|w l IH]; intros Hl; [done|].
  apply NoDup_cons in Hl as [Hw Hl]. rewrite round_cons.
  assert (Hcons : ∀ j, jobs_of v (j :: round Q l k)
    = if item_vault_id j =b v then j :: jobs_of v (round Q l k) else jobs_of v (round Q l k)) by done.
  destruct (decide (w = v)) as [->|Hne].
  - rewrite (bool_decide_eq_true_2 (v ∈ v :: l)) by left.
    assert (Hnil : jobs_of v (round Q l k) = []) by (by rewrite IH, bool_decide_eq_false_2).
    destruct (Q v !! k) as [j|] eqn:E; [|done].
    rewrite Hcons, Hnil, bool_decide_eq_true_2; [done|]. eauto using list_elem_of_lookup_2.
  - replace (v ∈b w :: l) with (v ∈b l) by (apply bool_decide_ext; rewrite elem_of_cons; naive_solver).
    rewrite <- IH by done. destruct (Q w !! k) as [j|] eqn:E; [|done].
    rewrite Hcons, bool_decide_eq_false_2; [done|].
    by rewrite (Hown w j) by eauto using list_elem_of_lookup_2.
Qed.

Lemma jobs_of_round v k : jobs_of v (round Q order k) = option_list (Q v !! k).
Proof.
  rewrite jobs_of_round_aux by done. case_bool_decide as Hv; [done|].
  destruct (Q v) eqn:E; [done|]. exfalso. apply Hv, Hcover. by rewrite E.
Qed.

Lemma jobs_of_rounds v k : jobs_of v (concat (map (round Q order) (seq 0 k))) = take k (Q v).
Proof.
  induction k as [|k IH]; [done|].
  rewrite seq_S, map_app, concat_app, jobs_of_app, IH, Nat.add_0_l. cbn [map concat].
  rewrite app_nil_r, jobs_of_round. destruct (Q v !! k) as [j|] eqn:E; cbn.
  - symmetry. by apply take_S_r.
  - rewrite app_nil_r. apply lookup_ge_None in E. by rewrite !take_ge by lia.
Qed.

(** In every prefix of the schedule the Vaults that still wait have received
    at least [k] Jobs and no Vault more than [k + 1]. *)
Lemma round_robin_counts n c :
  ∃ k, ∀ v, let got := length (jobs_of v (take n (round_robin Q order c))) in
    (Nat.min k (length (Q v)) ≤ got ≤ S k)%nat.
Proof.
  unfold round_robin. destruct (take_concat (round Q order) n 0 c) as (k & r & ->).
  exists k. intros v. cbn zeta. rewrite Nat.add_0_l, jobs_of_app, jobs_of_rounds, length_app, length_take.
  enough (length (jobs_of v (take r (round Q order k))) ≤ 1)%nat by lia.
  etrans; [eapply prefix_length, jobs_of_prefix, prefix_take|].
  rewrite jobs_of_round. by destruct (Q v !! k); cbn; lia.
Qed.
End served.

(** ** The schedule of [select_fair_jobs] *)

Lemma sort_jobs_elem jobs j : j ∈ sort_by job_le jobs ↔ j ∈ jobs.
Proof. by rewrite sort_by_perm. Qed.

Lemma order_vaults_NoDup m : NoDup (order_vaults m).
Proof. unfold order_vaults. rewrite sort_by_perm. apply NoDup_fst_map_to_list. Qed.

Lemma order_vaults_cover jobs v : vault_queue jobs v ≠ [] → v ∈ order_vaults (group_by_vault jobs).
Proof.
  intros H. unfold order_vaults. rewrite sort_by_perm.
  destruct (vault_queue jobs v) as [|j q] eqn:E; [done|].
  rewrite list_elem_of_In, in_map_iff. exists (v, j :: q). split; [done|].
  apply list_elem_of_In, elem_of_map_to_list. by rewrite group_lookup, E.
Qed.

Lemma vault_queue_own jobs v j : j ∈ vault_queue jobs v → item_vault_id j = v.
Proof.
  unfold vault_queue. rewrite list_elem_of_In, filter_In. intros [_ H]. by bsimpl.
Qed.

Lemma vault_queue_length jobs v : (length (vault_queue jobs v) ≤ length jobs)%nat.
Proof. unfold vault_queue. rewrite filter_length_le. by rewrite length_sort_by. Qed.

Lemma order_all_have_jobs jobs :
  List.filter (has_job (vault_queue jobs) 0) (order_vaults (group_by_vault jobs))
  = order_vaults (group_by_vault jobs).
Proof.
  apply forallb_filter_id, forallb_forall. intros v. unfold order_vaults.
  rewrite <- list_elem_of_In, sort_by_perm, list_elem_of_In, in_map_iff.
  intros ([w q] & <- & Hin). apply list_elem_of_In, elem_of_map_to_list in Hin.
  rewrite group_lookup in Hin. cbn in *. unfold has_job. cbn. by destruct (vault_queue jobs w).
Qed.

Definition fair_schedule (jobs : list job) : list job :=
  round_robin (vault_queue jobs) (order_vaults (group_by_vault jobs)) (length jobs).

Lemma select_fair_jobs_eq jobs limit :
  select_fair_jobs jobs limit = Some (take (Z.to_nat limit) (fair_schedule jobs)).
Proof.
  unfold select_fair_jobs. destruct (Z.leb_spec limit 0) as [H0|H0]; cbn.
  { by replace (Z.to_nat limit) with O by lia. }
  case_bool_decide as Hj; [subst; cbn; by rewrite take_nil|].
  rewrite <- order_all_have_jobs. apply serve_spec.
  - apply order_vaults_NoDup.
  - apply order_vaults_cover.
  - intros v. rewrite group_lookup. by destruct (vault_queue jobs v).
  - intros v. apply vault_queue_length.
  - cbn. lia.
Qed.

Lemma fair_schedule_perm jobs : fair_schedule jobs ≡ₚ jobs.
Proof.
  rewrite <- (sort_by_perm job_le jobs) at 2. apply jobs_of_perm. intros v.
  unfold fair_schedule, round_robin.
  rewrite jobs_of_rounds; eauto using order_vaults_NoDup, order_vaults_cover, vault_queue_own.
  by rewrite take_ge by apply vault_queue_length.
Qed.

(** [select_fair_jobs] terminates with one unit of fuel per Job and returns
    the first [limit] Jobs of the round-robin schedule: round [k] holds the
    [k]-th oldest Job of every Vault that has one, and every round visits the
    Vaults in the order of the first round. *)
Theorem select_fair_jobs_round_robin jobs limit :
  select_fair_jobs jobs limit
  = Some (take (Z.to_nat limit)
      (round_robin (vault_queue jobs) (order_vaults (group_by_vault jobs)) (length jobs))).
Proof. apply select_fair_jobs_eq. Qed.

(** C26: the selection is work-conserving, keeps each Vault's own order and is
    fair: it holds [min limit (length jobs)] of the given Jobs, each at most
    once; the Jobs of a Vault are the oldest ones of that Vault, oldest first;
    and in every prefix of the selection no Vault is more than one Job ahead of
    a Vault that still has a Job waiting. *)
Theorem select_fair_jobs_fair jobs limit :
  ∃ selected,
    select_fair_jobs jobs limit = Some selected
    ∧ length selected = Nat.min (Z.to_nat limit) (length jobs)
    ∧ selected ⊆+ jobs
    ∧ (∀ v, jobs_of v selected `prefix_of` vault_queue jobs v)
    ∧ (∀ n v w,
         (length (jobs_of w (take n selected)) < length (vault_queue jobs w))%nat →
         (length (jobs_of v (take n selected)) ≤ S (length (jobs_of w (take n selected))))%nat).
Proof.
  eexists. split; [apply select_fair_jobs_eq|]. repeat split.
  - by rewrite length_take, (Permutation_length (fair_schedule_perm jobs)).
  - rewrite <- (fair_schedule_perm jobs) at 2. apply submseteq_take.
  - intros v. etrans; [apply jobs_of_prefix, prefix_take|].
    unfold fair_schedule, round_robin.
    rewrite jobs_of_rounds; eauto using order_vaults_NoDup, order_vaults_cover, vault_queue_own.
    apply prefix_take.
  - intros n v w. rewrite take_take. unfold fair_schedule.
    destruct (round_robin_counts (vault_queue jobs) _ (order_vaults_NoDup _)
      (order_vaults_cover jobs) (vault_queue_own jobs) (Nat.min n (Z.to_nat limit)) (length jobs))
      as [k Hk].
    intros Hw. assert (Hkw := Hk w). assert (Hkv := Hk v). cbn in Hkw, Hkv. lia.
Qed.

(** Two Vaults: the second round still visits Vault 1 first although the next
    Job of Vault 2 is older. *)
Definition queued_job (id vault requested : Z) : job :=
  {| j_id := id; j_vault_id := vault; j_vault_file_id := "f"; j_archive_version_id := None;
     j_path := "p"; j_action := "upload"; j_status := "queued"; j_origin := "manual";
     j_message := None; j_message_key := None; j_message_params := None;
     j_requested_by := None; j_requested_at := requested;
     j_updated_at := requested; j_group_id := None; j_group_path := None; j_total_bytes := 0;
     j_transferred_bytes := 0; j_reason := None; j_confirmation_phrase := None; j_restore_tier := None; j_restore_days := None;
     j_target_storage_class := None; j_upload_verification_requested := None;
     j_pending_until := None; j_retry_after := None; j_claim_token := None;
     j_claimed_at := None; j_claim_expires_at := None; j_upload := no_upload |}.

(** The Vault order is fixed by the first round.  With Vault 1 waiting at
    times 1 and 10 and Vault 2 at times 2 and 3, the second round serves the Job
    of time 10 before the Job of time 3, although the documentation of
    [select_fair_jobs] says that each round serves first the Vault whose next
    Job is oldest. *)
Theorem select_fair_jobs_second_round_order :
  map j_requested_at <$>
    select_fair_jobs [queued_job 1 1 1; queued_job 2 1 10; queued_job 3 2 2; queued_job 4 2 3] 4
  = Some [1; 2; 10; 3].
Proof. vm_compute. reflexivity. Qed.
