(* ===== verification/Backoff.v ===== *)
(** * Backoff: throttling of sign-in and Reauthentication failures

    Models [src/app/backoff.py].  The table [auth_backoff] is a finite map from
    [(scope, key)] to its row; the clock [_now()] is an argument in
    microseconds.  [record_failure] keeps the code's UPSERT: the count and the
    deadline come from a CASE table over the stored count, computed from the
    seven deadlines prepared in Python. *)
From S2P Require Import Prelude Sql PyString Schema.

(** ** Model *)
Definition THRESHOLD : Z := 5.
Definition BASE_SECONDS : Z := 30.
Definition CAP_SECONDS : Z := 15 * 60.
Definition DECAY_SECONDS : Z := 60 * 60.

Definition reauth_ip_key (client_ip : string) : string := ("reauth:ip:" +:+ client_ip)%string.

Record backoff_row := {
  failure_count : Z;
  next_allowed_at : option timestamp;
  updated_at : timestamp;
}.

Notation auth_backoff := (gmap (string * string) backoff_row).

Definition is_decayed (row : backoff_row) (now : timestamp) : bool :=
  seconds DECAY_SECONDS <=? now - updated_at row.

Definition backoff_seconds (failure_count : Z) : Z :=
  if failure_count <? THRESHOLD then 0
  else
    let delay := BASE_SECONDS * 2 ^ (failure_count - THRESHOLD) in
    Z.min delay CAP_SECONDS.

Definition next_allowed (row : backoff_row) : option timestamp :=
  match next_allowed_at row with
  | Some t => Some t
  | None =>
      let delay := backoff_seconds (failure_count row) in
      if delay =? 0 then None else Some (updated_at row + seconds delay)
  end.

(** [math.ceil(delta.total_seconds())]. *)
Definition ceil_seconds (delta : Z) : Z := - ((- delta) / 1000000).

Definition guard (db : auth_backoff) (now : timestamp) (scope key : string) : result unit :=
  match db !! (scope, key) with
  | None => Ok tt
  | Some row =>
      if is_decayed row now then Ok tt
      else match next_allowed row with
           | Some t => if now <? t then Raise (BackoffError (ceil_seconds (t - now))) else Ok tt
           | None => Ok tt
           end
  end.

(** [deadline_values]: the deadlines of the counts THRESHOLD .. THRESHOLD+6. *)
Definition deadline_values (now : timestamp) : list timestamp :=
  map (fun i => now + seconds (backoff_seconds (THRESHOLD + Z.of_nat i))) (seq 0 7).

Definition deadline_value (now : timestamp) (i : nat) : timestamp :=
  List.nth i (deadline_values now) 0.

(** The CASE expression of the UPSERT for [next_allowed_at]. *)
Definition upsert_deadline (now : timestamp) (row : backoff_row) : option timestamp :=
  let decay_cutoff := now - seconds DECAY_SECONDS in
  let c := failure_count row in
  if (updated_at row <=? decay_cutoff) || (c <? THRESHOLD - 1) then None
  else Some (
    if c =? THRESHOLD - 1 then deadline_value now 0
    else if c =? THRESHOLD then deadline_value now 1
    else if c =? THRESHOLD + 1 then deadline_value now 2
    else if c =? THRESHOLD + 2 then deadline_value now 3
    else if c =? THRESHOLD + 3 then deadline_value now 4
    else if c =? THRESHOLD + 4 then deadline_value now 5
    else deadline_value now 6).

Definition record_failure (db : auth_backoff) (now : timestamp) (scope key : string)
  : auth_backoff * (Z * option timestamp) :=
  let row :=
    match db !! (scope, key) with
    | None => {| failure_count := 1; next_allowed_at := None; updated_at := now |}
    | Some row =>
        {| failure_count :=
             if updated_at row <=? now - seconds DECAY_SECONDS then 1 else failure_count row + 1;
           next_allowed_at := upsert_deadline now row;
           updated_at := now |}
    end in
  (<[(scope, key) := row]> db, (failure_count row, next_allowed_at row)).

Definition record_success (db : auth_backoff) (scope key : string) : auth_backoff :=
  delete (scope, key) db.

(** ** Invariant

    Every stored row has counted at least one failure and carries the deadline
    of its own count, counted from its own time stamp. *)
Definition deadline_of (now : timestamp) (count : Z) : option timestamp :=
  if count <? THRESHOLD then None else Some (now + seconds (backoff_seconds count)).

Definition row_wf (row : backoff_row) : Prop :=
  1 ≤ failure_count row
  ∧ next_allowed_at row = deadline_of (updated_at row) (failure_count row).

Definition backoff_wf (db : auth_backoff) : Prop := map_Forall (fun _ => row_wf) db.

Lemma backoff_seconds_bounds c : 0 ≤ backoff_seconds c ≤ CAP_SECONDS.
Proof.
  unfold backoff_seconds, CAP_SECONDS, BASE_SECONDS, THRESHOLD.
  destruct (Z.ltb_spec c 5); [lia|].
  assert (0 < 2 ^ (c - 5)) by (apply Z.pow_pos_nonneg; lia). lia.
Qed.

Lemma backoff_seconds_at_least c : THRESHOLD ≤ c → BASE_SECONDS ≤ backoff_seconds c.
Proof.
  unfold backoff_seconds, CAP_SECONDS, BASE_SECONDS, THRESHOLD.
  destruct (Z.ltb_spec c 5); [lia|]. intros _.
  assert (0 < 2 ^ (c - 5)) by (apply Z.pow_pos_nonneg; lia). lia.
Qed.

(** The CAP is reached from the tenth failure on. *)
Lemma backoff_seconds_capped c : THRESHOLD + 5 ≤ c → backoff_seconds c = CAP_SECONDS.
Proof.
  unfold backoff_seconds, CAP_SECONDS, BASE_SECONDS, THRESHOLD. intros H.
  destruct (Z.ltb_spec c 5); [lia|].
  assert (2 ^ 5 ≤ 2 ^ (c - 5)) by (apply Z.pow_le_mono_r; lia). lia.
Qed.

(** The CASE table of the UPSERT is the formula of [backoff_seconds]. *)
Lemma upsert_deadline_spec now row :
  upsert_deadline now row
  = if updated_at row <=? now - seconds DECAY_SECONDS then None
    else deadline_of now (failure_count row + 1).
Proof.
  unfold upsert_deadline, deadline_of.
  destruct (_ <=? _); cbn [orb]; [done|].
  destruct (Z.ltb_spec (failure_count row) (THRESHOLD - 1)) as [H1|H1];
    destruct (Z.ltb_spec (failure_count row + 1) THRESHOLD) as [H2|H2]; try (exfalso; lia); [done|].
  f_equal. unfold THRESHOLD in *.
  repeat match goal with
  | |- context [if ?c =? ?k then _ else _] =>
      destruct (Z.eqb_spec c k) as [->|?]; [done|]
  end.
  unfold deadline_value, deadline_values. cbn.
  rewrite !backoff_seconds_capped; unfold THRESHOLD; lia.
Qed.

Lemma record_failure_row db now scope key db' c d :
  record_failure db now scope key = (db', (c, d)) →
  db' = <[(scope, key) := {| failure_count := c; next_allowed_at := d; updated_at := now |}]> db
  ∧ d = deadline_of now c.
Proof.
  unfold record_failure. destruct (db !! (scope, key)) as [row|]; cbn; intros [= <- <- <-];
    split; try done.
  rewrite upsert_deadline_spec. by destruct (_ <=? _).
Qed.

Lemma record_failure_wf db now scope key :
  backoff_wf db → backoff_wf (record_failure db now scope key).1.
Proof.
  intros H. destruct (record_failure db now scope key) as [db' [c d]] eqn:E.
  assert (Hc : 1 ≤ c).
  { unfold record_failure in E. destruct (db !! (scope, key)) as [row|] eqn:El; cbn in E;
      injection E as _ <- _; [|lia].
    destruct (H _ _ El). destruct (_ <=? _); lia. }
  apply record_failure_row in E as [-> ->]. cbn. by apply map_Forall_insert_2.
Qed.

Lemma record_success_wf db scope key : backoff_wf db → backoff_wf (record_success db scope key).
Proof. apply map_Forall_delete. Qed.

#[export] Hint Resolve record_failure_wf record_success_wf : fv.

Lemma next_allowed_wf row :
  row_wf row → next_allowed row = deadline_of (updated_at row) (failure_count row).
Proof.
  intros [_ H]. unfold next_allowed. rewrite H. unfold deadline_of, backoff_seconds.
  by destruct (failure_count row <? THRESHOLD).
Qed.

Lemma ceil_seconds_spec d s : ceil_seconds d = s ↔ (s - 1) * 1000000 < d ≤ s * 1000000.
Proof.
  unfold ceil_seconds. pose proof (Z.div_mod (- d) 1000000 ltac:(lia)).
  pose proof (Z.mod_pos_bound (- d) 1000000 ltac:(lia)). lia.
Qed.

(** ** Histories of one key *)
Inductive backoff_op := Failure (now : timestamp) | Success.

Definition apply_op (scope key : string) (db : auth_backoff) (op : backoff_op) : auth_backoff :=
  match op with
  | Failure now => (record_failure db now scope key).1
  | Success => record_success db scope key
  end.

(** Consecutive failures no two of which are an hour apart. *)
Fixpoint close_failures (last : timestamp) (times : list timestamp) : Prop :=
  match times with
  | [] => True
  | t :: times => t - last < seconds DECAY_SECONDS ∧ close_failures t times
  end.

Lemma last_default_cons {A} (x : A) l d : List.last (x :: l) d = List.last l x.
Proof.
  revert x d; induction l as [|y l IH]; intros x d; [done|].
  change (List.last (y :: l) d = List.last (y :: l) x). by rewrite !IH.
Qed.

Lemma failures_count scope key db n last times :
  close_failures last times →
  (∃ d, db !! (scope, key) = Some {| failure_count := n; next_allowed_at := d; updated_at := last |}) →
  ∃ d, foldl (apply_op scope key) db (Failure <$> times) !! (scope, key)
    = Some {| failure_count := n + Z.of_nat (length times); next_allowed_at := d;
              updated_at := List.last times last |}.
Proof.
  revert db n last; induction times as [|t times IH]; intros db n last Hc [d Hd].
  - cbn. rewrite Z.add_0_r. eauto.
  - destruct Hc as [Ht Hc]. cbn [fmap list_fmap foldl].
    edestruct (IH (apply_op scope key db (Failure t)) (n + 1) t Hc) as [d' ->].
    + unfold apply_op, record_failure. rewrite Hd. cbn zeta. cbn [fst updated_at failure_count].
      rewrite (lookup_insert_eq db), (proj2 (Z.leb_gt _ _)) by lia. eauto.
    + exists d'. f_equal. f_equal; [cbn; lia|].
      by rewrite (last_default_cons t times last).
Qed.

Lemma apply_ops_wf scope key ops db :
  backoff_wf db → backoff_wf (foldl (apply_op scope key) db ops).
Proof. revert db; induction ops as [|[] ops IH]; cbn [foldl apply_op]; auto with fv. Qed.

Lemma backoff_wf_empty : backoff_wf ∅.
Proof. apply map_Forall_empty. Qed.

Lemma guard_wf db now scope key row :
  backoff_wf db → db !! (scope, key) = Some row → updated_at row ≤ now →
  let deadline := updated_at row + seconds (backoff_seconds (failure_count row)) in
  (now < deadline →
     ∃ wait, guard db now scope key = Raise (BackoffError wait)
       ∧ 1 ≤ wait ≤ CAP_SECONDS ∧ now + seconds (wait - 1) < deadline ≤ now + seconds wait)
  ∧ (deadline ≤ now → guard db now scope key = Ok tt).
Proof.
  intros Hwf Hrow Hnow deadline.
  assert (Hr := next_allowed_wf row (Hwf _ _ Hrow)).
  assert (Hb := backoff_seconds_bounds (failure_count row)).
  unfold guard, is_decayed. rewrite Hrow, Hr. unfold deadline_of, deadline, seconds in *.
  unfold CAP_SECONDS in *. split; intros Hlt.
  - rewrite (proj2 (Z.leb_gt _ _)) by (unfold DECAY_SECONDS; lia).
    destruct (Z.ltb_spec (failure_count row) THRESHOLD) as [Hc|Hc].
    { exfalso. unfold backoff_seconds in Hlt. rewrite (proj2 (Z.ltb_lt _ _) Hc) in Hlt. lia. }
    rewrite (proj2 (Z.ltb_lt _ _)) by done. eexists. split; [done|].
    edestruct (proj1 (ceil_seconds_spec
      (updated_at row + backoff_seconds (failure_count row) * 1000000 - now) _) eq_refl).
    lia.
  - destruct (_ <=? _); [done|]. destruct (_ <? THRESHOLD); [done|].
    by rewrite (proj2 (Z.ltb_ge _ _)) by done.
Qed.

(** ** Properties *)

(** The single UPSERT of [record_failure] implements the documented policy.
    A key with no row, or one quiet for an hour, starts again at one failure;
    otherwise the count grows by one.  The deadline is none below five failures,
    and then 30 seconds, doubling with every further failure and never more than
    15 minutes.  No other key changes. *)
Theorem record_failure_policy db now scope key :
  let '(db', (count, deadline)) := record_failure db now scope key in
  count = match db !! (scope, key) with
          | Some row => if is_decayed row now then 1 else failure_count row + 1
          | None => 1
          end
  ∧ deadline = (if count <? THRESHOLD then None
                else Some (now + seconds (Z.min (BASE_SECONDS * 2 ^ (count - THRESHOLD)) CAP_SECONDS)))
  ∧ db' = <[(scope, key) := {| failure_count := count; next_allowed_at := deadline;
                               updated_at := now |}]> db.
Proof.
  destruct (record_failure db now scope key) as [db' [c d]] eqn:E.
  assert (Hrow := record_failure_row _ _ _ _ _ _ _ E). destruct Hrow as [-> ->]. split.
  - unfold record_failure in E. destruct (db !! (scope, key)) as [row|]; [|by injection E as _ <- _].
    cbn in E. injection E as _ <- _. unfold is_decayed.
    destruct (Z.leb_spec (updated_at row) (now - seconds DECAY_SECONDS)),
      (Z.leb_spec (seconds DECAY_SECONDS) (now - updated_at row)); lia.
  - split; [|done]. unfold deadline_of, backoff_seconds. by destruct (c <? THRESHOLD).
Qed.

(** There is no permanent lockout and no early release.  For a table built by
    [record_failure] and [record_success] and a clock that has not gone back
    past the row's time stamp, [guard] raises exactly while the row is younger
    than the delay of its count, and the announced wait is between one second
    and 15 minutes and ends at the deadline, rounded up to a second. *)
Theorem guard_blocks_exactly ops now scope key row :
  foldl (apply_op scope key) ∅ ops !! (scope, key) = Some row →
  updated_at row ≤ now →
  let db := foldl (apply_op scope key) ∅ ops in
  let deadline := updated_at row + seconds (backoff_seconds (failure_count row)) in
  (now < deadline →
     ∃ wait, guard db now scope key = Raise (BackoffError wait)
       ∧ 1 ≤ wait ≤ CAP_SECONDS ∧ now + seconds (wait - 1) < deadline ≤ now + seconds wait)
  ∧ (deadline ≤ now → guard db now scope key = Ok tt).
Proof. intros Hrow Hnow. by apply guard_wf; [apply apply_ops_wf, backoff_wf_empty|..]. Qed.

Lemma guard_blocks_exactly_witness :
  ∃ wait, guard (foldl (apply_op "ip" "k") ∅ (Failure <$> [0; 1; 2; 3; 4])) 1000004 "ip" "k"
    = Raise (BackoffError wait) ∧ 1 ≤ wait ≤ CAP_SECONDS.
Proof.
  edestruct (guard_blocks_exactly (Failure <$> [0; 1; 2; 3; 4]) 1000004 "ip" "k") as [H _].
  - reflexivity.
  - vm_compute. discriminate.
  - destruct H as (w & Hw & Hb & _); [vm_compute; reflexivity|].
    exists w. split; [exact Hw | exact Hb].
Defined.

(** A guesser who never pauses for an hour is slowed to the cap: after [n]
    failures in such a row (the first on a key without a row) the stored count is
    [n], and from the tenth on every further attempt within 15 minutes of the
    last failure is refused. *)
Theorem steady_failures_are_capped scope key t times now :
  close_failures t times →
  10 ≤ Z.of_nat (length (t :: times)) →
  List.last times t ≤ now < List.last times t + seconds CAP_SECONDS →
  let db := foldl (apply_op scope key) ∅ (Failure <$> t :: times) in
  (failure_count <$> db !! (scope, key)) = Some (Z.of_nat (length (t :: times)))
  ∧ is_ok (guard db now scope key) = false.
Proof.
  intros Hc Hn Hnow db.
  destruct (failures_count scope key ((record_failure ∅ t scope key).1) 1 t times Hc) as [d Hd].
  { exists None. unfold record_failure. rewrite lookup_empty. cbn [fst]. by rewrite lookup_insert_eq. }
  change (foldl _ _ _) with db in Hd. cbn [length] in *.
  edestruct (guard_wf db now scope key) as [Hblock _];
    [apply apply_ops_wf, backoff_wf_empty|exact Hd|cbn; lia|].
  cbn [updated_at failure_count] in Hblock. rewrite backoff_seconds_capped in Hblock by (unfold THRESHOLD; lia).
  destruct Hblock as (w & -> & _); [lia|]. rewrite Hd. split; [cbn; f_equal; lia|done].
Qed.

Lemma steady_failures_are_capped_witness :
  let db := foldl (apply_op "account" "7") ∅ (Failure <$> [0; 1; 2; 3; 4; 5; 6; 7; 8; 9]) in
  is_ok (guard db 899000000 "account" "7") = false.
Proof.
  refine (proj2 (steady_failures_are_capped "account" "7" 0 [1; 2; 3; 4; 5; 6; 7; 8; 9] 899000000 _ _ _)).
  - cbn. repeat split.
  - cbn. lia.
  - cbn. unfold seconds, CAP_SECONDS. lia.
Defined.
