(* ===== verification/Sessions.v ===== *)
(** * Sessions: server-side Sessions and the owner's credentials

    Models [src/app/sessions.py] and [_bootstrap_owner] of
    [src/app/database.py].  The tables [sessions] and [users] are lists of rows;
    an UPDATE that finds no row is visible as [None]/[false] the way
    [RETURNING ... fetchone()] shows it, and the UNIQUE constraint on
    [token_hash] and the primary key refuse a duplicate.  The clock, the random
    tokens and the uuid are arguments.  Parameters: [hash_token] is the SHA-256
    of the token; [hash_password] and [verify_password] are the password hasher. *)
From S2P Require Import Prelude Sql PyString Schema.

(** ** Model *)
Record session := {
  s_id : string;
  s_user_id : Z;
  s_token_hash : string;
  s_auth_method : string;
  s_csrf_token : string;
  s_session_version : Z;
  s_created_at : timestamp;
  s_last_seen_at : timestamp;
  s_idle_expires_at : timestamp;
  s_absolute_expires_at : timestamp;
  s_reauth_at : option timestamp;
  s_ip : option string;
  s_user_agent : option string;
  s_revoked_at : option timestamp;
  s_vault_id : option Z;
  s_transition_version : Z;
}.

Record user := {
  u_id : Z;
  u_username : string;
  u_display_name : string;
  u_password_hash : option string;
  u_session_version : Z;
}.

(** What [resolve_session] returns. *)
Record resolved := {
  r_id : string;
  r_user : user;
  r_vault_id : option Z;
  r_csrf_token : string;
  r_auth_method : string;
  r_reauth_at : option timestamp;
  r_transition_version : Z;
}.

Record auth_db := { users : list user; sessions : list session }.

Definition with_sessions (db : auth_db) (l : list session) : auth_db :=
  {| users := users db; sessions := l |}.

(** The settings the module reads. *)
Record session_settings := {
  session_idle_seconds : Z;
  session_absolute_seconds : Z;
}.

Section model.
Context (settings : session_settings).
Context (hash_token : string → string).

Definition session_is_expired (row : session) (now : timestamp) : bool :=
  (s_absolute_expires_at row <=? now) || (s_idle_expires_at row <=? now).

(** The WHERE clause of every transition: the Session is live. *)
Definition live_where (session_id : string) (now : timestamp) (row : session) : bool :=
  (s_id row =b session_id) && is_none (s_revoked_at row)
  && (now <? s_absolute_expires_at row) && (now <? s_idle_expires_at row).

Definition revoke_row (now : timestamp) (row : session) : session :=
  {| s_id := s_id row; s_user_id := s_user_id row; s_token_hash := s_token_hash row;
     s_auth_method := s_auth_method row; s_csrf_token := s_csrf_token row;
     s_session_version := s_session_version row; s_created_at := s_created_at row;
     s_last_seen_at := s_last_seen_at row; s_idle_expires_at := s_idle_expires_at row;
     s_absolute_expires_at := s_absolute_expires_at row; s_reauth_at := s_reauth_at row;
     s_ip := s_ip row; s_user_agent := s_user_agent row;
     s_revoked_at := Some now; s_vault_id := s_vault_id row;
     s_transition_version := s_transition_version row + 1 |}.

(** The slide of the idle deadline; a rotation also replaces the token and,
    on Reauthentication, its time. *)
Definition touch_row (now : timestamp) (row : session) : session :=
  {| s_id := s_id row; s_user_id := s_user_id row; s_token_hash := s_token_hash row;
     s_auth_method := s_auth_method row; s_csrf_token := s_csrf_token row;
     s_session_version := s_session_version row; s_created_at := s_created_at row;
     s_last_seen_at := now;
     s_idle_expires_at := now + seconds (session_idle_seconds settings);
     s_absolute_expires_at := s_absolute_expires_at row; s_reauth_at := s_reauth_at row;
     s_ip := s_ip row; s_user_agent := s_user_agent row;
     s_revoked_at := s_revoked_at row; s_vault_id := s_vault_id row;
     s_transition_version := s_transition_version row |}.

Definition rotate_row (now : timestamp) (new_hash : string) (reauthenticated : bool)
    (row : session) : session :=
  {| s_id := s_id row; s_user_id := s_user_id row; s_token_hash := new_hash;
     s_auth_method := s_auth_method row; s_csrf_token := s_csrf_token row;
     s_session_version := s_session_version row; s_created_at := s_created_at row;
     s_last_seen_at := now;
     s_idle_expires_at := now + seconds (session_idle_seconds settings);
     s_absolute_expires_at := s_absolute_expires_at row;
     s_reauth_at := if reauthenticated then Some now else s_reauth_at row;
     s_ip := s_ip row; s_user_agent := s_user_agent row;
     s_revoked_at := s_revoked_at row; s_vault_id := s_vault_id row;
     s_transition_version := s_transition_version row + 1 |}.

Definition select_vault_row (vault_id : option Z) (row : session) : session :=
  {| s_id := s_id row; s_user_id := s_user_id row; s_token_hash := s_token_hash row;
     s_auth_method := s_auth_method row; s_csrf_token := s_csrf_token row;
     s_session_version := s_session_version row; s_created_at := s_created_at row;
     s_last_seen_at := s_last_seen_at row; s_idle_expires_at := s_idle_expires_at row;
     s_absolute_expires_at := s_absolute_expires_at row; s_reauth_at := s_reauth_at row;
     s_ip := s_ip row; s_user_agent := s_user_agent row;
     s_revoked_at := s_revoked_at row; s_vault_id := vault_id;
     s_transition_version := s_transition_version row + 1 |}.

Definition reauth_row (now : timestamp) (row : session) : session :=
  {| s_id := s_id row; s_user_id := s_user_id row; s_token_hash := s_token_hash row;
     s_auth_method := s_auth_method row; s_csrf_token := s_csrf_token row;
     s_session_version := s_session_version row; s_created_at := s_created_at row;
     s_last_seen_at := s_last_seen_at row; s_idle_expires_at := s_idle_expires_at row;
     s_absolute_expires_at := s_absolute_expires_at row; s_reauth_at := Some now;
     s_ip := s_ip row; s_user_agent := s_user_agent row;
     s_revoked_at := s_revoked_at row; s_vault_id := s_vault_id row;
     s_transition_version := s_transition_version row |}.

Definition expire_where (session_id : string) (now : timestamp) (row : session) : bool :=
  (s_id row =b session_id) && is_none (s_revoked_at row)
  && ((s_absolute_expires_at row <=? now) || (s_idle_expires_at row <=? now)).

Definition expire_session_if_needed (db : auth_db) (session_id : string) (now : timestamp)
  : auth_db * bool :=
  (with_sessions db (update_where (expire_where session_id now) (revoke_row now) (sessions db)),
   exists_row (expire_where session_id now) (sessions db)).

Definition user_by_id (db : auth_db) (user_id : Z) : option user :=
  fetchone (fun u => u_id u =b user_id) (users db).

Definition session_by_hash (db : auth_db) (h : string) : option session :=
  fetchone (fun s => s_token_hash s =b h) (sessions db).

Definition create_session (db : auth_db) (now : timestamp) (raw_token new_id csrf : string)
    (user_id : Z) (auth_method : string) (ip user_agent : option string)
  : result (auth_db * string) :=
  match user_by_id db user_id with
  | None => Raise (ValueError "Cannot create a session for an unknown user")
  | Some u =>
      raise! IntegrityError "sessions_auth_method_ck" when
        negb (auth_method ∈b ["oidc"; "local"]);
      raise! IntegrityError "sessions" when
        exists_row (fun s => (s_id s =b new_id) || (s_token_hash s =b hash_token raw_token))
          (sessions db);
      Ok (with_sessions db (sessions db ++
            [{| s_id := new_id; s_user_id := user_id; s_token_hash := hash_token raw_token;
                s_auth_method := auth_method; s_csrf_token := csrf;
                s_session_version := u_session_version u; s_created_at := now;
                s_last_seen_at := now;
                s_idle_expires_at := now + seconds (session_idle_seconds settings);
                s_absolute_expires_at := now + seconds (session_absolute_seconds settings);
                s_reauth_at := Some now; s_ip := ip; s_user_agent := user_agent;
                s_revoked_at := None; s_vault_id := None; s_transition_version := 1 |}]),
          raw_token)
  end.

Definition resolve_session (db : auth_db) (now : timestamp) (raw_token : option string)
  : auth_db * option resolved :=
  if negb (truthy raw_token) then (db, None)
  else
    match session_by_hash db (hash_token (or_default raw_token "")) with
    | None => (db, None)
    | Some row =>
        if is_some (s_revoked_at row) then (db, None)
        else if session_is_expired row now then
          ((expire_session_if_needed db (s_id row) now).1, None)
        else
          match user_by_id db (s_user_id row) with
          | None => (db, None)
          | Some u =>
              if negb (s_session_version row =? u_session_version u) then (db, None)
              else
                let db' := with_sessions db
                  (update_where (live_where (s_id row) now) (touch_row now) (sessions db)) in
                if exists_row (live_where (s_id row) now) (sessions db) then
                  (db', Some {| r_id := s_id row; r_user := u; r_vault_id := s_vault_id row;
                                r_csrf_token := s_csrf_token row;
                                r_auth_method := s_auth_method row;
                                r_reauth_at := s_reauth_at row;
                                r_transition_version := s_transition_version row |})
                else (db', None)
          end
    end.

Definition csrf_token_for (db : auth_db) (now : timestamp) (raw_token : option string)
  : option string :=
  if negb (truthy raw_token) then None
  else
    match session_by_hash db (hash_token (or_default raw_token "")) with
    | None => None
    | Some row =>
        match user_by_id db (s_user_id row) with
        | None => None
        | Some u =>
            if is_some (s_revoked_at row) then None
            else if negb (s_session_version row =? u_session_version u) then None
            else if (s_absolute_expires_at row <=? now) || (s_idle_expires_at row <=? now)
            then None
            else Some (s_csrf_token row)
        end
    end.

Definition mark_reauthenticated (db : auth_db) (now : timestamp) (session_id : string) : auth_db :=
  with_sessions db (update_where (fun s => s_id s =b session_id) (reauth_row now) (sessions db)).

Definition is_reauth_recent (reauth_at : option timestamp) (now : timestamp)
    (window_seconds : Z) : bool :=
  match reauth_at with
  | None => false
  | Some t => now - t <=? seconds window_seconds
  end.

Definition revoke_where (session_id : string) (s : session) : bool :=
  (s_id s =b session_id) && is_none (s_revoked_at s).

Definition revoke_session (db : auth_db) (now : timestamp) (session_id : string)
  : auth_db * bool :=
  (with_sessions db (update_where (revoke_where session_id) (revoke_row now) (sessions db)),
   exists_row (revoke_where session_id) (sessions db)).

Definition rotate_session (db : auth_db) (now : timestamp) (raw_token session_id : string)
    (reauthenticated : bool) : result (auth_db * string) :=
  let h := hash_token raw_token in
  raise! SessionTransitionError "Cannot rotate an inactive Session" when
    negb (exists_row (live_where session_id now) (sessions db));
  raise! IntegrityError "sessions.token_hash" when
    exists_row (fun s => (s_token_hash s =b h) && (s_id s <>b session_id)) (sessions db);
  Ok (with_sessions db
        (update_where (live_where session_id now) (rotate_row now h reauthenticated) (sessions db)),
      raw_token).

Definition vault_where (session_id : string) (now : timestamp) (expected_version : option Z)
    (s : session) : bool :=
  live_where session_id now s
  && match expected_version with
     | None => true
     | Some v => s_transition_version s =? v
     end.

(** Returns the updated row, as [RETURNING id, vault_id, transition_version]. *)
Definition set_session_vault (db : auth_db) (now : timestamp) (session_id : string)
    (vault_id expected_version : option Z) : auth_db * option session :=
  let p := vault_where session_id now expected_version in
  (with_sessions db (update_where p (select_vault_row vault_id) (sessions db)),
   select_vault_row vault_id <$> fetchone p (sessions db)).

(** *** The owner's credentials at start-up *)
Context (hash_password : string → string) (verify_password : string → string → bool).

Definition set_credentials (username display_name : string) (password_hash : option string)
    (bump : Z) (u : user) : user :=
  {| u_id := u_id u; u_username := username; u_display_name := display_name;
     u_password_hash := password_hash; u_session_version := u_session_version u + bump |}.

(** [SELECT ... FROM users ORDER BY id LIMIT 1]. *)
Definition owner_of (db : auth_db) : option user := latest (fun u => - u_id u) (users db).

Definition bootstrap_owner (db : auth_db) (new_id : Z)
    (bootstrap_username bootstrap_password bootstrap_display_name : string) : result auth_db :=
  let username := lower (py_strip bootstrap_username) in
  let password := bootstrap_password in
  let display_name := py_strip bootstrap_display_name in
  match owner_of db with
  | None =>
      raise! RuntimeError "The database has no owner: configure BOOTSTRAP_ADMIN_USERNAME and BOOTSTRAP_ADMIN_PASSWORD for first startup"
        when (username =b "") || (password =b "");
      Ok {| users := users db ++
              [{| u_id := new_id; u_username := username; u_display_name := display_name;
                  u_password_hash := Some (hash_password password); u_session_version := 1 |}];
            sessions := sessions db |}
  | Some owner =>
      if (username =b "") || (password =b "") then Ok db
      else
        let password_current :=
          truthy (u_password_hash owner)
          && verify_password (or_default (u_password_hash owner) "") password in
        if password_current && (u_username owner =b username)
           && (u_display_name owner =b display_name) then Ok db
        else
          Ok {| users := update_where (fun u => u_id u =b u_id owner)
                  (set_credentials username display_name
                     (if password_current then u_password_hash owner
                      else Some (hash_password password))
                     (if password_current then 0 else 1))
                  (users db);
                sessions := sessions db |}
  end.

(** *** Every operation that changes the tables, as one step *)
Inductive session_op :=
  | OpCreate (now : timestamp) (raw_token new_id csrf : string) (user_id : Z)
      (auth_method : string) (ip user_agent : option string)
  | OpResolve (now : timestamp) (raw_token : option string)
  | OpReauth (now : timestamp) (session_id : string)
  | OpRevoke (now : timestamp) (session_id : string)
  | OpRotate (now : timestamp) (raw_token session_id : string) (reauthenticated : bool)
  | OpSelectVault (now : timestamp) (session_id : string) (vault_id expected : option Z)
  | OpBootstrap (username password display_name : string).

(** An operation that raises leaves the tables as they were. *)
Definition committed {A} (db : auth_db) (r : result (auth_db * A)) : auth_db :=
  match r with Ok (db', _) => db' | Raise _ => db end.

Definition next_user_id (db : auth_db) : Z := 1 + foldr Z.max 0 (map u_id (users db)).

Definition run_op (db : auth_db) (op : session_op) : auth_db :=
  match op with
  | OpCreate now t i c u m ip ua => committed db (create_session db now t i c u m ip ua)
  | OpResolve now t => (resolve_session db now t).1
  | OpReauth now i => mark_reauthenticated db now i
  | OpRevoke now i => (revoke_session db now i).1
  | OpRotate now t i r => committed db (rotate_session db now t i r)
  | OpSelectVault now i v e => (set_session_vault db now i v e).1
  | OpBootstrap u p d =>
      match bootstrap_owner db (next_user_id db) u p d with Ok db' => db' | Raise _ => db end
  end.

Definition run_ops : auth_db → list session_op → auth_db := foldl run_op.
End model.

(** ** How rows evolve *)

(** A later state of the same Session: its identity, owner, CSRF token, version
    and absolute deadline are immutable, a revocation is final and the
    transition version never decreases. *)
Record evolves (s s' : session) : Prop := {
  ev_id : s_id s' = s_id s;
  ev_user : s_user_id s' = s_user_id s;
  ev_version : s_session_version s' = s_session_version s;
  ev_csrf : s_csrf_token s' = s_csrf_token s;
  ev_absolute : s_absolute_expires_at s' = s_absolute_expires_at s;
  ev_revoked : s_revoked_at s ≠ None → s_revoked_at s' = s_revoked_at s;
  ev_transition : s_transition_version s ≤ s_transition_version s';
}.

#[export] Instance evolves_refl : Reflexive evolves.
Proof. intros s. by constructor. Qed.

#[export] Instance evolves_trans : Transitive evolves.
Proof.
  intros s1 s2 s3 [] []. constructor; try congruence; [|lia].
  intros H. rewrite ev_revoked1; [auto|]. by rewrite ev_revoked0.
Qed.

Definition table_evolves (l l' : list session) : Prop :=
  ∃ l1 l2, l' = l1 ++ l2 ∧ Forall2 evolves l l1.

#[export] Instance table_evolves_refl : Reflexive table_evolves.
Proof. intros l. exists l, []. rewrite app_nil_r. split; [done|]. apply Forall_Forall2_diag, Forall_forall. done. Qed.

#[export] Instance table_evolves_trans : Transitive table_evolves.
Proof.
  intros a b c (b1 & b2 & -> & Hab) (c1 & c2 & -> & Hbc).
  apply Forall2_app_inv_l in Hbc as (c11 & c12 & H1 & H2 & ->).
  exists c11, (c12 ++ c2). rewrite app_assoc. split; [done|].
  eapply Forall2_trans; [|done..]. intros ???; apply evolves_trans.
Qed.

Lemma update_evolves p f l :
  (∀ s, p s = true → evolves s (f s)) → table_evolves l (update_where p f l).
Proof.
  intros H. exists (update_where p f l), []. rewrite app_nil_r. split; [done|].
  induction l as [|s l IH]; cbn; constructor; [|done].
  destruct (p s) eqn:E; [by apply H|done].
Qed.

Lemma table_evolves_elem l l' s : table_evolves l l' → s ∈ l → ∃ s', s' ∈ l' ∧ evolves s s'.
Proof.
  intros (l1 & l2 & -> & H) Hs. apply list_elem_of_lookup in Hs as [i Hi].
  destruct (Forall2_lookup_l _ _ _ _ _ H Hi) as (s' & Hs' & ?).
  exists s'. split; [|done]. apply elem_of_app. left. eauto using list_elem_of_lookup_2.
Qed.

(** ** Invariant of the tables *)
Definition user_version (l : list user) (i : Z) : option Z :=
  u_session_version <$> fetchone (fun u => u_id u =b i) l.

(** Later user tables: a user's version never decreases. *)
Definition users_evolve (l l' : list user) : Prop :=
  ∀ i v, user_version l i = Some v → ∃ v', user_version l' i = Some v' ∧ v ≤ v'.

#[export] Instance users_evolve_refl : Reflexive users_evolve.
Proof. intros l i v Hv. by exists v. Qed.

#[export] Instance users_evolve_trans : Transitive users_evolve.
Proof.
  intros a b c Hab Hbc i v Hv. destruct (Hab i v Hv) as (v1 & H1 & ?).
  destruct (Hbc i v1 H1) as (v2 & H2 & ?). exists v2. split; [done|lia].
Qed.

Record db_wf (db : auth_db) : Prop := {
  wf_ids : NoDup (map s_id (sessions db));
  wf_hashes : NoDup (map s_token_hash (sessions db));
  wf_versions : ∀ s, s ∈ sessions db →
    ∃ v, user_version (users db) (s_user_id s) = Some v ∧ s_session_version s ≤ v;
}.

Lemma user_version_by_id db i v :
  user_version (users db) i = Some v ↔ ∃ u, user_by_id db i = Some u ∧ u_session_version u = v.
Proof. unfold user_version. rewrite fmap_Some. unfold user_by_id. naive_solver. Qed.

Lemma users_evolve_app l k : users_evolve l (l ++ k).
Proof.
  intros i v. unfold user_version. induction l as [|u l IH]; [done|]. cbn.
  case_bool_decide; [|done]. cbn. intros [= <-]. eauto with lia.
Qed.

Lemma users_evolve_update i n d ph bump l :
  0 ≤ bump → users_evolve l (update_where (fun u => u_id u =b i) (set_credentials n d ph bump) l).
Proof.
  intros Hb j v. unfold user_version. induction l as [|u l IH]; [done|]. cbn.
  replace (u_id (if u_id u =b i then set_credentials n d ph bump u else u)) with (u_id u)
    by (by case_bool_decide).
  case_bool_decide; [|done]. cbn. intros [= <-]. eexists. split; [done|].
  case_bool_decide; cbn; lia.
Qed.

Section invariant.
Context (settings : session_settings) (hash_token : string → string).
Context (hash_password : string → string) (verify_password : string → string → bool).

Local Notation run_op := (run_op settings hash_token hash_password verify_password).
Local Notation run_ops := (run_ops settings hash_token hash_password verify_password).
Local Notation resolve_session := (resolve_session settings hash_token).
Local Notation create_session := (create_session settings hash_token).
Local Notation rotate_session := (rotate_session settings hash_token).
Local Notation bootstrap_owner := (bootstrap_owner hash_password verify_password).

Lemma evolves_touch now s : evolves s (touch_row settings now s).
Proof. by constructor. Qed.
Lemma evolves_rotate now h b s : evolves s (rotate_row settings now h b s).
Proof. constructor; cbn; lia || done. Qed.
Lemma evolves_vault v s : evolves s (select_vault_row v s).
Proof. constructor; cbn; lia || done. Qed.
Lemma evolves_reauth now s : evolves s (reauth_row now s).
Proof. by constructor. Qed.
Lemma evolves_revoke now s : s_revoked_at s = None → evolves s (revoke_row now s).
Proof. intros H. constructor; cbn; lia || done. Qed.

Lemma resolve_tables db now t :
  ∃ l, (resolve_session db now t).1 = with_sessions db l
    ∧ table_evolves (sessions db) l ∧ map s_token_hash l = map s_token_hash (sessions db).
Proof.
  assert (Hsame : db = with_sessions db (sessions db)) by by destruct db.
  assert (Hexp : ∀ i, table_evolves (sessions db)
            (update_where (expire_where i now) (revoke_row now) (sessions db))).
  { intros i. apply update_evolves. intros s Hs. apply evolves_revoke.
    unfold expire_where in Hs. bsimpl. by destruct (s_revoked_at s). }
  assert (Htouch : ∀ i, table_evolves (sessions db)
            (update_where (live_where i now) (touch_row settings now) (sessions db))).
  { intros i. apply update_evolves. intros; apply evolves_touch. }
  unfold Sessions.resolve_session.
  repeat case_scrut; cbn [fst expire_session_if_needed];
    first [ exists (sessions db); by rewrite <- Hsame
          | eexists; split; [done|]; split; [done|]; by apply update_where_column ].
Qed.

Lemma create_tables db now t i c u m ip ua db' tok :
  create_session db now t i c u m ip ua = Ok (db', tok) →
  ∃ s v, db' = with_sessions db (sessions db ++ [s]) ∧ s_id s ∉ map s_id (sessions db)
    ∧ s_token_hash s ∉ map s_token_hash (sessions db)
    ∧ user_version (users db) (s_user_id s) = Some v ∧ s_session_version s = v.
Proof.
  unfold Sessions.create_session, user_version. destruct (user_by_id db u) as [usr|] eqn:Eu; [|done].
  intros H. inv_ok. simplify_eq.
  eexists _, _. split; [done|]. cbn. unfold user_by_id in Eu. rewrite Eu. cbn.
  match goal with H : exists_row _ _ = false |- _ => rename H into Hex end.
  rewrite exists_row_false in Hex.
  split; [|split; [|done]]; rewrite list_elem_of_In, in_map_iff; intros (s & Hs & Hin);
    apply list_elem_of_In in Hin; specialize (Hex s Hin); bsimpl; congruence.
Qed.

Lemma bootstrap_tables db i u p d db' :
  bootstrap_owner db i u p d = Ok db' →
  sessions db' = sessions db ∧ users_evolve (users db) (users db').
Proof.
  unfold Sessions.bootstrap_owner. cbn zeta. destruct (owner_of db) as [o|].
  - repeat case_scrut; intros H; inv_ok; subst; split; try done;
      cbn [users]; apply users_evolve_update; lia.
  - intros H. inv_ok. subst. cbn. split; [done|]. apply users_evolve_app.
Qed.

Lemma run_op_evolves db op :
  table_evolves (sessions db) (sessions (run_op db op))
  ∧ users_evolve (users db) (users (run_op db op)).
Proof.
  destruct op as [now t i c u m ip ua|now t|now i|now i|now t i r|now i v e|u p d]; cbn [Sessions.run_op].
  - destruct (create_session db now t i c u m ip ua) as [[db' tok]|] eqn:E; [|done].
    apply create_tables in E as (s & v & -> & _). split; [|done].
    exists (sessions db), [s]. split; [done|]. by apply Forall_Forall2_diag, Forall_forall.
  - destruct (resolve_tables db now t) as (l & -> & ? & _). done.
  - split; [|done]. apply update_evolves. intros; apply evolves_reauth.
  - split; [|done]. apply update_evolves. intros s Hs. apply evolves_revoke.
    unfold revoke_where in Hs. bsimpl. by destruct (s_revoked_at s).
  - destruct (rotate_session db now t i r) as [[db' tok]|] eqn:E; [|done].
    unfold Sessions.rotate_session in E. inv_ok. simplify_eq. split; [|done].
    apply update_evolves. intros; apply evolves_rotate.
  - split; [|done]. apply update_evolves. intros; apply evolves_vault.
  - destruct (bootstrap_owner _ _ _ _ _) as [db'|] eqn:E; [|done].
    apply bootstrap_tables in E as [-> ?]. done.
Qed.

Lemma run_ops_evolves ops db :
  table_evolves (sessions db) (sessions (run_ops db ops))
  ∧ users_evolve (users db) (users (run_ops db ops)).
Proof.
  revert db; induction ops as [|op ops IH]; intros db; [done|].
  destruct (run_op_evolves db op) as [H1 H2]. destruct (IH (run_op db op)) as [H3 H4].
  cbn. split; etrans; eauto.
Qed.
(** *** The invariant is preserved *)
Lemma wf_versions_evolve db db' :
  users_evolve (users db) (users db') →
  (∀ s', s' ∈ sessions db' → (∃ s, s ∈ sessions db ∧ evolves s s')
     ∨ ∃ v, user_version (users db) (s_user_id s') = Some v ∧ s_session_version s' = v) →
  db_wf db →
  ∀ s', s' ∈ sessions db' →
    ∃ v, user_version (users db') (s_user_id s') = Some v ∧ s_session_version s' ≤ v.
Proof.
  intros Hu Hs Hwf s' Hs'. destruct (Hs s' Hs') as [(s & Hin & Hev)|(v & Hv & <-)].
  - destruct (wf_versions db Hwf s Hin) as (v & Hv & ?).
    destruct (Hu _ _ Hv) as (v' & Hv' & ?). rewrite (ev_user _ _ Hev), (ev_version _ _ Hev).
    exists v'. split; [done|lia].
  - by apply Hu.
Qed.

Lemma rotate_hashes l i now h b :
  NoDup (map s_id l) → NoDup (map s_token_hash l) →
  (∀ s, s ∈ l → s_token_hash s = h → s_id s = i) →
  NoDup (map s_token_hash (update_where (live_where i now) (rotate_row settings now h b) l)).
Proof.
  induction l as [|s l IH]; intros Hi Hh Ho; [done|].
  cbn in *. apply NoDup_cons in Hi as [Hi1 Hi2]. apply NoDup_cons in Hh as [Hh1 Hh2].
  assert (Hrest : ∀ s0, s0 ∈ update_where (live_where i now) (rotate_row settings now h b) l →
    s_token_hash s0 = h ∧ i ∈ map s_id l ∨ s_token_hash s0 ∈ map s_token_hash l ∧ (s_token_hash s0 = h → i ∈ map s_id l)).
  { intros s0 (s1 & Hs1 & ->)%elem_of_update_where.
    assert (Hid : s_id s1 ∈ map s_id l) by (apply list_elem_of_In, in_map, list_elem_of_In, Hs1).
    destruct (live_where i now s1) eqn:E.
    - left. split; [done|]. unfold live_where in E. bsimpl. by subst.
    - right. split; [apply list_elem_of_In, in_map, list_elem_of_In, Hs1|].
      intros Hz. by rewrite <- (Ho s1) by (done || by right). }
  apply NoDup_cons. split; [|by apply IH; [..|intros ???; apply Ho; [by right|]]].
  rewrite list_elem_of_In, in_map_iff. intros (s0 & Heq & Hin).
  apply list_elem_of_In in Hin. specialize (Hrest s0 Hin). rewrite Heq in Hrest.
  destruct (live_where i now s) eqn:E; cbn in Hrest.
  - assert (Hsi : s_id s = i) by (unfold live_where in E; by bsimpl). subst i.
    destruct Hrest as [[_ ?]|[_ Hz]]; [done|]. by apply Hi1, Hz.
  - destruct Hrest as [[Hz Hi]|[? _]]; [|done].
    assert (s_id s = i) as <- by (apply Ho; [by left|done]). done.
Qed.

Lemma update_sources p f l :
  (∀ s, p s = true → evolves s (f s)) →
  ∀ s', s' ∈ update_where p f l → ∃ s, s ∈ l ∧ evolves s s'.
Proof.
  intros Hf s' (s & Hs & ->)%elem_of_update_where. exists s. split; [done|].
  destruct (p s) eqn:E; [auto|done].
Qed.

Lemma table_sources l l' s' :
  table_evolves l l' → length l' = length l → s' ∈ l' → ∃ s, s ∈ l ∧ evolves s s'.
Proof.
  intros (l1 & l2 & -> & H) Hlen. assert (Hl := Forall2_length _ _ _ H).
  rewrite length_app in Hlen. assert (l2 = []) as -> by (destruct l2; [done|cbn in Hlen; lia]).
  rewrite app_nil_r. intros [i Hi]%list_elem_of_lookup.
  destruct (Forall2_lookup_r _ _ _ _ _ H Hi) as (s & ? & ?). exists s.
  eauto using list_elem_of_lookup_2.
Qed.

Lemma table_ids l l' :
  table_evolves l l' → length l' = length l → map s_id l' = map s_id l.
Proof.
  intros (l1 & l2 & -> & H) Hlen. assert (Hl := Forall2_length _ _ _ H).
  rewrite length_app in Hlen. assert (l2 = []) as -> by (destruct l2; [done|cbn in Hlen; lia]).
  rewrite app_nil_r. clear -H. induction H as [|s s' l l1 Hs H IH]; cbn; [done|].
  by rewrite (ev_id _ _ Hs), IH.
Qed.

(** A step that keeps the rows and the token hashes keeps the invariant. *)
Lemma wf_same_rows db l :
  db_wf db → table_evolves (sessions db) l → length l = length (sessions db) →
  NoDup (map s_token_hash l) → db_wf (with_sessions db l).
Proof.
  intros Hwf Ht Hl Hh. constructor; cbn.
  - rewrite (table_ids (sessions db) l) by done. by apply wf_ids.
  - done.
  - apply (wf_versions_evolve db (with_sessions db l)); [done| |done].
    intros s' Hs'. left. by eapply table_sources.
Qed.

Lemma wf_update_hash db p f :
  db_wf db → (∀ s, p s = true → evolves s (f s)) → (∀ s, s_token_hash (f s) = s_token_hash s) →
  db_wf (with_sessions db (update_where p f (sessions db))).
Proof.
  intros Hwf Hev Hh. apply wf_same_rows; [done|by apply update_evolves|apply length_update_where|].
  rewrite update_where_column by done. by apply wf_hashes.
Qed.

Lemma run_op_wf db op : db_wf db → db_wf (run_op db op).
Proof.
  intros Hwf.
  destruct op as [now t i c u m ip ua|now t|now i|now i|now t i r|now i v e|u p d]; cbn [Sessions.run_op].
  - destruct (create_session db now t i c u m ip ua) as [[db' tok]|] eqn:E; [|done].
    apply create_tables in E as (s & v & -> & Hi & Hh & Hv & Hsv).
    constructor; cbn; rewrite ?map_app.
    + apply NoDup_app. repeat split; [by apply wf_ids| |apply NoDup_singleton].
      intros x Hx ->%list_elem_of_singleton. done.
    + apply NoDup_app. repeat split; [by apply wf_hashes| |apply NoDup_singleton].
      intros x Hx ->%list_elem_of_singleton. done.
    + apply (wf_versions_evolve db (with_sessions db (sessions db ++ [s]))); [done| |done].
      intros s' [Hs'| ->%list_elem_of_singleton]%elem_of_app; [left; by exists s'|eauto].
  - destruct (resolve_tables db now t) as (l & -> & Ht & Hh).
    apply wf_same_rows; [done..| |rewrite Hh; by apply wf_hashes].
    by rewrite <- (length_map s_token_hash l), Hh, length_map.
  - apply wf_update_hash; auto using evolves_reauth.
  - apply wf_update_hash; [done| |done]. intros s Hs. apply evolves_revoke.
    unfold revoke_where in Hs. bsimpl. by destruct (s_revoked_at s).
  - destruct (rotate_session db now t i r) as [[db' tok]|] eqn:E; [|done].
    unfold Sessions.rotate_session in E. inv_ok. simplify_eq. cbn [committed].
    apply wf_same_rows; [done| |apply length_update_where|].
    + apply update_evolves. intros; apply evolves_rotate.
    + apply rotate_hashes; [by apply wf_ids|by apply wf_hashes|].
      intros s Hs Hx. match goal with H : exists_row _ _ = false |- _ => rewrite exists_row_false in H; specialize (H s Hs) end.
      rewrite bool_decide_eq_true_2 in * by done. cbn in *. by bsimpl.
  - apply wf_update_hash; auto using evolves_vault.
  - destruct (bootstrap_owner _ _ _ _ _) as [db'|] eqn:E; [|done].
    apply bootstrap_tables in E as [Hs Hu]. destruct Hwf as [Hi Hh Hv].
    constructor; rewrite ?Hs; [done..|].
    intros s Hin. destruct (Hv s Hin) as (v & Hvv & ?). destruct (Hu _ _ Hvv) as (v' & ? & ?).
    exists v'. split; [done|lia].
Qed.

Lemma run_ops_wf ops db : db_wf db → db_wf (run_ops db ops).
Proof. revert db; induction ops; cbn; auto using run_op_wf. Qed.

(** ** What [resolve_session] checks *)
Lemma resolve_some db now t r :
  (resolve_session db now t).2 = Some r →
  ∃ row u, session_by_hash db (hash_token (or_default t "")) = Some row
    ∧ user_by_id db (s_user_id row) = Some u ∧ truthy t = true
    ∧ s_revoked_at row = None ∧ now < s_absolute_expires_at row ∧ now < s_idle_expires_at row
    ∧ s_session_version row = u_session_version u
    ∧ r = {| r_id := s_id row; r_user := u; r_vault_id := s_vault_id row;
             r_csrf_token := s_csrf_token row; r_auth_method := s_auth_method row;
             r_reauth_at := s_reauth_at row; r_transition_version := s_transition_version row |}.
Proof.
  unfold Sessions.resolve_session, session_is_expired.
  destruct (truthy t) eqn:Et; [cbn [negb]|done].
  destruct (session_by_hash _ _) as [row|] eqn:Er; [|done].
  destruct (s_revoked_at row) eqn:Ev; cbn [is_some is_none negb]; [done|].
  destruct (_ || _) eqn:Ex; [done|]. bsimpl.
  destruct (user_by_id db (s_user_id row)) as [u|] eqn:Eu; [|done].
  destruct (_ =? _) eqn:En; cbn [negb]; [|done]. bsimpl.
  case_match; [|done]. intros [= <-]. exists row, u. by repeat split.
Qed.
End invariant.

(** ** Properties *)
Section properties.
Context (settings : session_settings) (hash_token : string → string).
Context (hash_password : string → string) (verify_password : string → string → bool).

Local Notation run_op := (run_op settings hash_token hash_password verify_password).
Local Notation run_ops := (run_ops settings hash_token hash_password verify_password).
Local Notation resolve_session := (resolve_session settings hash_token).
Local Notation rotate_session := (rotate_session settings hash_token).
Local Notation bootstrap_owner := (bootstrap_owner hash_password verify_password).

(** A Session nobody may use again: revoked, past its absolute deadline, or of
    an older version than its user. *)
Definition dead (db : auth_db) (now : timestamp) (s : session) : Prop :=
  s_revoked_at s ≠ None ∨ s_absolute_expires_at s ≤ now
  ∨ ∃ u, user_by_id db (s_user_id s) = Some u ∧ s_session_version s < u_session_version u.

Lemma same_id_same_session db s1 s2 :
  db_wf db → s1 ∈ sessions db → s2 ∈ sessions db → s_id s1 = s_id s2 → s1 = s2.
Proof.
  intros Hwf H1 H2 Hid. assert (H := wf_ids db Hwf). revert H H1 H2.
  induction (sessions db) as [|s l IH]; intros H H1 H2; [by apply not_elem_of_nil in H1|].
  cbn in H. apply NoDup_cons in H as [Hs Hl].
  assert (Hin : ∀ x, x ∈ l → s_id x ∈ map s_id l)
    by (intros x Hx; apply list_elem_of_In, in_map, list_elem_of_In, Hx).
  apply elem_of_cons in H1 as [->|H1], H2 as [->|H2]; auto; exfalso; apply Hs.
  - rewrite Hid. auto.
  - rewrite <- Hid. auto.
Qed.

Lemma session_by_hash_some db h s :
  session_by_hash db h = Some s → s ∈ sessions db ∧ s_token_hash s = h.
Proof. intros [H1 H2]%fetchone_some. bsimpl. done. Qed.

Lemma dead_never_resolves db now s ops now' token :
  db_wf db → s ∈ sessions db → dead db now s → now ≤ now' →
  r_id <$> (resolve_session (run_ops db ops) now' token).2 ≠ Some (s_id s).
Proof.
  intros Hwf Hs Hdead Hnow (r & Hr & Hid)%fmap_Some. symmetry in Hid.
  apply resolve_some in Hr as (row & u & Hrow & Hu & _ & Hrev & Habs & _ & Hver & ->). cbn in Hid.
  apply session_by_hash_some in Hrow as [Hrow _].
  destruct (run_ops_evolves settings hash_token hash_password verify_password ops db) as [He Hue].
  destruct (table_evolves_elem _ _ s He Hs) as (s' & Hs' & Hev).
  assert (row = s') as ->.
  { eapply same_id_same_session; [by apply run_ops_wf|done..|]. rewrite Hid. by rewrite (ev_id _ _ Hev). }
  destruct Hdead as [Hd|[Hd|(u0 & Hu0 & Hlt)]].
  - assert (H := ev_revoked _ _ Hev Hd). congruence.
  - rewrite (ev_absolute _ _ Hev) in Habs. lia.
  - destruct (Hue (s_user_id s) (u_session_version u0)) as (v' & Hv' & Hle).
    { apply user_version_by_id. by exists u0. }
    apply user_version_by_id in Hv' as (u1 & Hu1 & Hv1). rewrite (ev_user _ _ Hev) in Hu.
    rewrite Hu1 in Hu. injection Hu as ->. rewrite (ev_version _ _ Hev) in Hver. lia.
Qed.

(** The converse of [resolve_some]. *)
Lemma resolve_live db now t row u :
  truthy t = true → session_by_hash db (hash_token (or_default t "")) = Some row →
  user_by_id db (s_user_id row) = Some u → s_revoked_at row = None →
  now < s_absolute_expires_at row → now < s_idle_expires_at row →
  s_session_version row = u_session_version u →
  (resolve_session db now t).2
  = Some {| r_id := s_id row; r_user := u; r_vault_id := s_vault_id row;
            r_csrf_token := s_csrf_token row; r_auth_method := s_auth_method row;
            r_reauth_at := s_reauth_at row; r_transition_version := s_transition_version row |}.
Proof.
  intros Ht Hrow Hu Hrev Ha Hi Hv. unfold Sessions.resolve_session, session_is_expired.
  rewrite Ht, Hrow, Hrev, Hu, Hv, Z.eqb_refl. cbn [negb is_some is_none].
  rewrite !(proj2 (Z.leb_gt _ _)) by done. cbn [orb].
  apply session_by_hash_some in Hrow as [Hin _].
  replace (exists_row _ _) with true; [done|].
  symmetry. apply exists_row_true. exists row. split; [done|].
  unfold live_where. rewrite Hrev, bool_decide_eq_true_2 by done. cbn.
  by rewrite !(proj2 (Z.ltb_lt _ _)) by done.
Qed.


(** The invariant of the Session tables (unique ids, unique token hashes, no
    Session newer than its user) holds in every state the operations reach. *)
Theorem session_tables_stay_well_formed ops db :
  db_wf db → db_wf (run_ops db ops).
Proof. apply run_ops_wf. Qed.

(** [resolve_session] accepts exactly the live Sessions, and the read-only
    lookup of the CSRF middleware agrees with it: it returns a token exactly
    when the request's Session resolves, and it is that Session's token. *)
Theorem csrf_token_for_agrees db now token c :
  csrf_token_for hash_token db now token = Some c
  ↔ ∃ r, (resolve_session db now token).2 = Some r ∧ r_csrf_token r = c.
Proof.
  split.
  - unfold csrf_token_for.
    destruct (truthy token) eqn:Et; cbn [negb]; [|done].
    destruct (session_by_hash _ _) as [row|] eqn:Er; [|done].
    destruct (user_by_id _ _) as [u|] eqn:Eu; [|done].
    destruct (s_revoked_at row) eqn:Ev; cbn [is_some is_none negb]; [done|].
    destruct (s_session_version row =? u_session_version u) eqn:En; cbn [negb]; [|done].
    destruct (_ || _) eqn:Ex; [done|]. intros [= <-]. bsimpl.
    eexists. split; [by eapply resolve_live|done].
  - intros (r & Hr & <-). apply resolve_some in Hr as (row & u & Hrow & Hu & Ht & Hrev & Ha & Hi & Hv & ->).
    unfold csrf_token_for. rewrite Ht, Hrow, Hu, Hrev, Hv, Z.eqb_refl. cbn.
    by rewrite !(proj2 (Z.leb_gt _ _)) by done.
Qed.

Lemma find_hash_unique db s :
  db_wf db → s ∈ sessions db → session_by_hash db (s_token_hash s) = Some s.
Proof.
  intros Hwf Hs. apply (fetchone_unique s_token_hash); [by apply wf_hashes| |done|].
  - intros r' Hr'. by bsimpl.
  - by apply bool_decide_eq_true_2.
Qed.

(** A rotation replaces the token.  After [rotate_session] with a token whose
    hash differs from the old one, the old token resolves to nothing, and the
    new token resolves to the same Session with its version advanced by one
    and its absolute deadline unchanged. *)
Theorem rotation_replaces_token db now s old new reauth u :
  db_wf db → s ∈ sessions db → s_token_hash s = hash_token old → hash_token old ≠ hash_token new →
  new ≠ "" → live_where (s_id s) now s = true →
  user_by_id db (s_user_id s) = Some u → s_session_version s = u_session_version u →
  0 < session_idle_seconds settings →
  (∀ x, x ∈ sessions db → s_token_hash x ≠ hash_token new) →
  ∃ db', rotate_session db now new (s_id s) reauth = Ok (db', new)
    ∧ (resolve_session db' now (Some old)).2 = None
    ∧ ∃ r, (resolve_session db' now (Some new)).2 = Some r ∧ r_id r = s_id s
        ∧ r_transition_version r = s_transition_version s + 1
        ∧ s_absolute_expires_at <$> session_by_hash db' (hash_token new)
          = Some (s_absolute_expires_at s).
Proof.
  intros Hwf Hs Hold Hne Hnew Hlive Hu Hv Hidle Hfresh.
  set (db' := with_sessions db (update_where (live_where (s_id s) now)
                (rotate_row settings now (hash_token new) reauth) (sessions db))).
  assert (Hrot : rotate_session db now new (s_id s) reauth = Ok (db', new)).
  { unfold Sessions.rotate_session.
    assert (Hex : exists_row (live_where (s_id s) now) (sessions db) = true)
      by (apply exists_row_true; eauto). rewrite Hex. cbn.
    replace (exists_row _ _) with false; [done|]. symmetry. apply exists_row_false.
    intros x Hx. rewrite bool_decide_eq_false_2; [done|]. by apply Hfresh. }
  assert (Hwf' : db_wf db').
  { assert (H := run_op_wf settings hash_token hash_password verify_password db
                   (OpRotate now new (s_id s) reauth) Hwf).
    cbn in H. by rewrite Hrot in H. }
  set (s' := rotate_row settings now (hash_token new) reauth s).
  assert (Hs' : s' ∈ sessions db').
  { apply elem_of_update_where. exists s. by rewrite Hlive. }
  assert (Hfind := find_hash_unique db' s' Hwf' Hs').
  change (s_token_hash s') with (hash_token new) in Hfind.
  exists db'. split; [done|]. split.
  - unfold Sessions.resolve_session. destruct (truthy (Some old)); [cbn [negb or_default]|done].
    replace (session_by_hash db' (hash_token old)) with (@None session); [done|].
    symmetry. apply fetchone_none. intros x Hx. apply bool_decide_eq_false_2. intros Hxo.
    apply elem_of_update_where in Hx as (x0 & Hx0 & ->).
    destruct (live_where (s_id s) now x0) eqn:El; [cbn in Hxo; congruence|].
    assert (Hx0s : x0 = s).
    { assert (H1 := find_hash_unique db x0 Hwf Hx0). assert (H2 := find_hash_unique db s Hwf Hs). congruence. }
    congruence.
  - unfold live_where in Hlive. bsimpl.
    eexists. split; [eapply (resolve_live db' now (Some new) s' u)|].
    + by destruct new.
    + done.
    + done.
    + cbn. by destruct (s_revoked_at s).
    + cbn. lia.
    + cbn. unfold seconds. lia.
    + done.
    + by rewrite Hfind.
Qed.

(** The transition version is an optimistic lock.  Two selections that both
    expect the version the Session has now cannot both succeed: the first
    succeeds on a live Session and the second finds no row. *)
Theorem set_session_vault_optimistic db now now' s v v' :
  db_wf db → s ∈ sessions db → live_where (s_id s) now s = true →
  let expected := Some (s_transition_version s) in
  let '(db1, first) := set_session_vault db now (s_id s) v expected in
  let '(db2, second) := set_session_vault db1 now' (s_id s) v' expected in
  first = Some (select_vault_row v s) ∧ second = None ∧ sessions db2 = sessions db1.
Proof.
  intros Hwf Hs Hlive. cbn. set (e := Some (s_transition_version s)).
  assert (Hp : vault_where (s_id s) now e s = true).
  { unfold vault_where. rewrite Hlive. cbn. apply Z.eqb_refl. }
  assert (Hnone : ∀ x, x ∈ update_where (vault_where (s_id s) now e) (select_vault_row v) (sessions db) →
    vault_where (s_id s) now' e x = false).
  { intros x (x0 & Hx0 & ->)%elem_of_update_where.
    apply not_true_iff_false. intros Hx.
    assert (Hid : s_id x0 = s_id s).
    { destruct (vault_where (s_id s) now e x0); unfold vault_where, live_where in Hx; by bsimpl. }
    rewrite (same_id_same_session db x0 s) in Hx by done. rewrite Hp in Hx.
    unfold vault_where in Hx. bsimpl. cbn in Hx. bsimpl. lia. }
  repeat split.
  - replace (fetchone _ _) with (Some s); [done|]. symmetry.
    apply (fetchone_unique s_id); [by apply wf_ids| |done|done].
    intros x Hx. unfold vault_where, live_where in Hx. by bsimpl.
  - by rewrite (proj2 (fetchone_none _ _)).
  - unfold update_where at 1. rewrite (map_ext_in _ (fun r => r)); [apply map_id|].
    intros x Hx. by rewrite Hnone by by apply list_elem_of_In.
Qed.

(** A changed bootstrap password revokes the owner's Sessions.  When the
    configured password no longer verifies, [bootstrap_owner] advances the
    owner's version, and afterwards, whatever operations follow, no token
    resolves to a Session the owner had before. *)
Theorem password_change_revokes_sessions db new_id username password display_name owner ops s now token :
  db_wf db → NoDup (map u_id (users db)) → owner_of db = Some owner →
  lower (py_strip username) ≠ "" → password ≠ "" →
  (∀ h, u_password_hash owner = Some h → verify_password h password = false) →
  s ∈ sessions db → s_user_id s = u_id owner →
  ∃ db', bootstrap_owner db new_id username password display_name = Ok db'
    ∧ r_id <$> (resolve_session (run_ops db' ops) now token).2 ≠ Some (s_id s).
Proof.
  intros Hwf Hnd Ho Hn Hp Hver Hs Hown. unfold Sessions.bootstrap_owner. rewrite Ho. cbn zeta.
  rewrite !bool_decide_eq_false_2 by done. cbn [orb].
  assert (Hcur : truthy (u_password_hash owner)
            && verify_password (or_default (u_password_hash owner) "") password = false).
  { destruct (u_password_hash owner) as [h|] eqn:Eh; [|done]. cbn. rewrite Hver by done. apply andb_false_r. }
  rewrite Hcur. cbn [andb]. eexists. split; [done|].
  set (db' := {| users := _; sessions := sessions db |}).
  assert (Hwf' : db_wf db').
  { destruct Hwf as [Hi Hh Hv]. constructor; [done..|]. intros s0 Hs0.
    destruct (Hv s0 Hs0) as (v & Hvv & ?).
    edestruct (users_evolve_update (u_id owner)) as (v' & Hv' & ?); [|exact Hvv|].
    2:{ exists v'. split; [exact Hv'|lia]. } lia. }
  apply (dead_never_resolves db' now s ops now token); [done|exact Hs| |lia].
  right; right. destruct (wf_versions db Hwf s Hs) as (v & Hv & Hle).
  apply latest_some in Ho as [Hin _].
  assert (Hfo : user_by_id db (u_id owner) = Some owner).
  { apply (fetchone_unique u_id); [done| |done|by apply bool_decide_eq_true_2].
    intros x Hx. by bsimpl. }
  apply user_version_by_id in Hv as (u & Hu & <-). rewrite Hown, Hfo in Hu. injection Hu as <-.
  exists (set_credentials (lower (py_strip username)) (py_strip display_name)
            (Some (hash_password password)) 1 owner). split.
  - rewrite Hown. apply (fetchone_unique u_id).
    + subst db'. cbn [users]. rewrite update_where_column by done. done.
    + intros x Hx. bsimpl. exact Hx.
    + apply elem_of_update_where. exists owner. split; [done|]. by rewrite bool_decide_eq_true_2.
    + by apply bool_decide_eq_true_2.
  - cbn. lia.
Qed.
End properties.

(** ** Witnesses: one owner with one live Session *)
Definition w_settings : session_settings :=
  {| session_idle_seconds := 1800; session_absolute_seconds := 86400 |}.

Definition w_owner : user :=
  {| u_id := 1; u_username := "owner"; u_display_name := "Owner";
     u_password_hash := Some "old-hash"; u_session_version := 1 |}.

Definition w_session : session :=
  {| s_id := "s1"; s_user_id := 1; s_token_hash := "old-token"; s_auth_method := "local";
     s_csrf_token := "csrf"; s_session_version := 1; s_created_at := 0; s_last_seen_at := 0;
     s_idle_expires_at := seconds 1800; s_absolute_expires_at := seconds 86400;
     s_reauth_at := Some 0; s_ip := None; s_user_agent := None; s_revoked_at := None;
     s_vault_id := None; s_transition_version := 1 |}.

Definition w_db (s : session) : auth_db := {| users := [w_owner]; sessions := [s] |}.

Lemma w_db_wf s : s_user_id s = 1 → s_session_version s = 1 → db_wf (w_db s).
Proof.
  intros Hu Hv. constructor; cbn.
  - apply NoDup_singleton.
  - apply NoDup_singleton.
  - intros x ->%list_elem_of_singleton. exists 1. rewrite Hu, Hv. by split.
Defined.


Lemma session_tables_stay_well_formed_witness :
  db_wf (run_ops w_settings id id (fun _ _ => false) (w_db w_session)
           [OpCreate 5 "t2" "s2" "c2" 1 "local" None None; OpRevoke 6 "s1"]).
Proof. apply session_tables_stay_well_formed. by apply w_db_wf. Defined.

Lemma rotation_replaces_token_witness :
  ∃ db', rotate_session w_settings id (w_db w_session) 10 "new-token" "s1" true = Ok (db', "new-token")
    ∧ (resolve_session w_settings id db' 10 (Some "old-token")).2 = None.
Proof.
  destruct (rotation_replaces_token w_settings id id (fun _ _ => false)
    (w_db w_session) 10 w_session "old-token" "new-token" true w_owner) as (db' & H1 & H2 & _).
  - by apply w_db_wf.
  - by left.
  - reflexivity.
  - discriminate.
  - discriminate.
  - reflexivity.
  - reflexivity.
  - reflexivity.
  - reflexivity.
  - intros x ->%list_elem_of_singleton. discriminate.
  - by exists db'.
Defined.

Lemma set_session_vault_optimistic_witness :
  let '(db1, first) := set_session_vault (w_db w_session) 10 "s1" (Some 3) (Some 1) in
  let '(_, second) := set_session_vault db1 11 "s1" (Some 4) (Some 1) in
  s_vault_id <$> first = Some (Some 3) ∧ second = None.
Proof.
  destruct (set_session_vault_optimistic (w_db w_session) 10 11 w_session (Some 3) (Some 4))
    as (H1 & H2 & _).
  - by apply w_db_wf.
  - by left.
  - reflexivity.
  - split; [exact (f_equal (fmap s_vault_id) H1)|exact H2].
Defined.

Lemma password_change_revokes_sessions_witness :
  ∃ db', bootstrap_owner (String.append "h:") (fun h p => String.eqb h (String.append "h:" p))
           (w_db w_session) 2 "Owner" "new" "Owner" = Ok db'
    ∧ r_id <$> (resolve_session w_settings id
         (run_ops w_settings id (String.append "h:") (fun h p => String.eqb h (String.append "h:" p)) db' [])
         20 (Some "old-token")).2 ≠ Some "s1".
Proof.
  apply (password_change_revokes_sessions w_settings id (String.append "h:")
    (fun h p => String.eqb h (String.append "h:" p)) (w_db w_session) 2 "Owner" "new" "Owner" w_owner [] w_session).
  - by apply w_db_wf.
  - apply NoDup_singleton.
  - reflexivity.
  - discriminate.
  - discriminate.
  - intros h [= <-]. reflexivity.
  - by left.
  - reflexivity.
Defined.
