(* ===== verification/Lifecycle.v ===== *)
(** * Lifecycle: storage plans and the S3 lifecycle rules built from them

    Models [src/app/services/lifecycle_profiles.py], [storage_classes.py],
    [lifecycle_policies.py] and [s3_lifecycle_rules.py].  A plan read from the
    database may hold any JSON value where the code expects days and a class, so
    a transition keeps the raw values and the validation of the code decides.
    [str_of] is Python's [str()] on a JSON value (used in messages and on rule
    ids).  The S3 client is outside the repository: it is the record
    [lifecycle_client] with the law [client_get_put]. *)
From S2P Require Import Prelude Sql PyString Json Schema.

(** ** Profiles *)
Definition SUPPORTED_STORAGE_CLASSES : list string :=
  ["STANDARD_IA"; "ONEZONE_IA"; "GLACIER_IR"; "GLACIER"; "DEEP_ARCHIVE"].

Definition MIN_SOURCE_RESIDENCE (storage_class : string) : Z :=
  if storage_class =b "STANDARD_IA" then 30
  else if storage_class =b "ONEZONE_IA" then 30
  else if storage_class =b "GLACIER_IR" then 90
  else if storage_class =b "GLACIER" then 90
  else 0.

Definition COST_WARNING_CLASSES : list string := ["GLACIER_IR"; "GLACIER"; "DEEP_ARCHIVE"].

Definition ALLOWED_TARGETS (storage_class : string) : list string :=
  if storage_class =b "STANDARD" then SUPPORTED_STORAGE_CLASSES
  else if storage_class =b "STANDARD_IA" then ["ONEZONE_IA"; "GLACIER_IR"; "GLACIER"; "DEEP_ARCHIVE"]
  else if storage_class =b "ONEZONE_IA" then ["GLACIER"; "DEEP_ARCHIVE"]
  else if storage_class =b "GLACIER_IR" then ["GLACIER"; "DEEP_ARCHIVE"]
  else if storage_class =b "GLACIER" then ["DEEP_ARCHIVE"]
  else [].

Record LifecycleTransition := { tr_days : json; tr_storage_class : json }.

Definition LifecycleProfile := list LifecycleTransition.

Inductive profile_error :=
  | BadDays
  | UnsupportedClass (v : json)
  | NotIncreasing
  | UnsupportedTransition (source target : string)
  | IaTooEarly
  | ResidenceTooShort (source : string) (residence : Z).

Inductive profile_warning := FeesMayApply | DeepArchiveWarning.

#[global] Instance profile_warning_eq_dec : EqDecision profile_warning.
Proof. solve_decision. Defined.

Record ProfileValidation := {
  pv_ok : bool;
  pv_errors : list profile_error;
  pv_warnings : list profile_warning;
}.

(** One turn of the loop over the transitions. *)
Record validation_state := {
  vs_errors : list profile_error;
  vs_warnings : list profile_warning;
  vs_previous_days : Z;
  vs_previous_class : string;
}.

Definition err_if (b : bool) (e : profile_error) : list profile_error := if b then [e] else [].

Definition validate_step (st : validation_state) (step : LifecycleTransition) : validation_state :=
  let fail e := {| vs_errors := vs_errors st ++ [e]; vs_warnings := vs_warnings st;
                   vs_previous_days := vs_previous_days st;
                   vs_previous_class := vs_previous_class st |} in
  match tr_days step with
  | JInt days =>
      if days <? 0 then fail BadDays
      else match tr_storage_class step with
           | JStr class =>
               if negb (class ∈b SUPPORTED_STORAGE_CLASSES) then fail (UnsupportedClass (JStr class))
               else
                 let previous_days := vs_previous_days st in
                 let previous_class := vs_previous_class st in
                 let residence := MIN_SOURCE_RESIDENCE previous_class in
                 {| vs_errors := vs_errors st
                      ++ err_if (days <=? previous_days) NotIncreasing
                      ++ err_if (negb (class ∈b ALLOWED_TARGETS previous_class))
                           (UnsupportedTransition previous_class class)
                      ++ err_if ((class ∈b ["STANDARD_IA"; "ONEZONE_IA"]) && (days <? 30)) IaTooEarly
                      ++ err_if (days - previous_days <? residence)
                           (ResidenceTooShort previous_class residence);
                    vs_warnings := vs_warnings st
                      ++ [if class <>b "DEEP_ARCHIVE" then FeesMayApply else DeepArchiveWarning];
                    vs_previous_days := days;
                    vs_previous_class := class |}
           | v => fail (UnsupportedClass v)
           end
  | _ => fail BadDays
  end.

(** [tuple(dict.fromkeys(l))]: first occurrences, in order. *)
Fixpoint dedup {A} `{EqDecision A} (l : list A) : list A :=
  match l with
  | [] => []
  | x :: l => x :: List.filter (fun y => y <>b x) (dedup l)
  end.

Definition validation_start : validation_state :=
  {| vs_errors := []; vs_warnings := []; vs_previous_days := -1; vs_previous_class := "STANDARD" |}.

Definition validate_lifecycle_profile (profile : LifecycleProfile) : ProfileValidation :=
  let st := foldl validate_step validation_start profile in
  {| pv_ok := match vs_errors st with [] => true | _ => false end;
     pv_errors := vs_errors st;
     pv_warnings := dedup (vs_warnings st) |}.

Definition transition (days : Z) (storage_class : string) : LifecycleTransition :=
  {| tr_days := JInt days; tr_storage_class := JStr storage_class |}.

Definition GUIDED_PROFILES : list (string * LifecycleProfile) :=
  [("standard_only", []);
   ("economical", [transition 30 "STANDARD_IA"; transition 90 "GLACIER_IR"]);
   ("archive_tiered",
      [transition 30 "STANDARD_IA"; transition 90 "GLACIER_IR"; transition 365 "DEEP_ARCHIVE"]);
   ("deep_archive_early", [transition 0 "DEEP_ARCHIVE"])].

Definition guided_profile (name : string) : result LifecycleProfile :=
  match List.find (fun p => p.1 =b name) GUIDED_PROFILES with
  | Some (_, profile) => Ok profile
  | None => Raise (ValueError ("Unknown storage plan: " +:+ name))
  end.

Definition transition_to_json (step : LifecycleTransition) : json :=
  JDict [("days", tr_days step); ("storage_class", tr_storage_class step)].

Definition profile_to_dict (profile : LifecycleProfile) : json :=
  JDict [("transitions", JList (map transition_to_json profile))].

(** ** Storage classes of single copies *)
Definition COPY_STORAGE_CLASSES : list string := "STANDARD" :: SUPPORTED_STORAGE_CLASSES.

Definition normalize_storage_class (value : option string) : string :=
  upper (if truthy value then or_default value "" else "STANDARD").

Definition validate_manual_target_class (target : option string) : result string :=
  let normalized := normalize_storage_class target in
  raise! ValueError ("Unsupported storage class: " +:+ normalized)
    when negb (normalized ∈b COPY_STORAGE_CLASSES);
  Ok normalized.

Definition cold_class_warning (target : option string) : option string :=
  let normalized := normalize_storage_class target in
  if normalized ∈b COST_WARNING_CLASSES then
    Some ("Transition to " +:+ normalized +:+ " incurs retrieval charges and minimum "
          +:+ "storage-duration billing even if objects are deleted early")
  else None.

Definition source_requires_restore_for_class_change (storage_class restore_state : option string) : bool :=
  (normalize_storage_class storage_class ∈b ["GLACIER"; "DEEP_ARCHIVE"])
  && negb (bool_decide (restore_state = Some "available")).

(** ** Rules *)
Definition RULE_ID_PREFIX : string := "frostvault-plan-".
Definition LEGACY_RULE_ID_PREFIX : string := "psa-policy-".
Definition MAX_BUCKET_LIFECYCLE_RULES : Z := 1000.
Definition ABORT_RULE_ID : string := "frostvault-abort-incomplete-multipart".

Definition rule := list (string * json).

Definition incomplete_upload_rule : rule :=
  [("ID", JStr ABORT_RULE_ID); ("Status", JStr "Enabled");
   ("Filter", JDict [("Prefix", JStr "vaults/")]);
   ("AbortIncompleteMultipartUpload", JDict [("DaysAfterInitiation", JInt 7)])].

Definition vault_object_prefix (prefix : string) : result string :=
  let normalized := strip_slash prefix in
  raise! ValueError "A storage plan cannot target an empty Vault prefix" when normalized =b "";
  Ok (normalized +:+ "/").

(** [zip(l, l[1:])]: the adjacent pairs. *)
Fixpoint adjacent {A} (l : list A) : list (A * A) :=
  match l with
  | x :: ((y :: _) as tl) => (x, y) :: adjacent tl
  | _ => []
  end.

Definition validate_vault_prefixes (prefixes : list string) : result unit :=
  normalized ← mapM_r vault_object_prefix prefixes;
  for_each (fun '(previous, current) =>
      raise_if (starts_with previous current)
        (ValueError "Overlapping Vault prefixes cannot safely receive storage plans"))
    (adjacent (sort_by String.leb normalized)).

Definition enforce_rule_limit (rules : list rule) : result unit :=
  raise_if (MAX_BUCKET_LIFECYCLE_RULES <? Z.of_nat (length rules))
    (LifecycleRuleLimitExceeded (Z.of_nat (length rules))).

(** A Vault's row as the plans read it; [v_plan] is [storage_plan_json]. *)
Record vault_plan_row := {
  v_id : Z;
  v_uuid : string;
  v_bucket : string;
  v_prefix : string;
  v_plan : option json;
}.

(** The two calls of the S3 client the module makes.  The state is whatever the
    service keeps. *)
Record lifecycle_client := {
  client_state : Type;
  get_bucket_lifecycle_configuration : client_state → string → result (list rule);
  put_bucket_lifecycle_configuration : client_state → string → list rule → result client_state;
}.

Definition NoSuchLifecycleConfiguration : string := "NoSuchLifecycleConfiguration".

Section rules.
Context (str_of : json → string).

Definition render_error (e : profile_error) : string :=
  match e with
  | BadDays => "Transition days must be nonnegative integers"
  | UnsupportedClass v =>
      "Unsupported storage class: " +:+ match v with JStr s => s | _ => str_of v end
  | NotIncreasing => "Transition days must strictly increase"
  | UnsupportedTransition source target =>
      "Unsupported transition from " +:+ source +:+ " to " +:+ target
  | IaTooEarly => "IA transitions require object age of at least 30 days"
  | ResidenceTooShort source residence =>
      source +:+ " requires at least " +:+ str_of (JInt residence)
        +:+ " days before the next transition"
  end.

Definition raise_errors {A} (v : ProfileValidation) : result A :=
  Raise (ValueError (join "; " (map render_error (pv_errors v)))).

Definition transition_from_json (item : json) : result LifecycleTransition :=
  match item with
  | JDict d =>
      if negb (keys_are d ["days"; "storage_class"])
      then Raise (ValueError "Each transition requires days and storage_class only")
      else match dict_get d "days", dict_get d "storage_class" with
           | Some days, Some class => Ok {| tr_days := days; tr_storage_class := class |}
           | _, _ => Raise (LookupError "KeyError")
           end
  | _ => Raise (ValueError "Each transition requires days and storage_class only")
  end.

(** [profile_from_json] on the decoded text. *)
Definition profile_from_json (value : option json) : result LifecycleProfile :=
  match value with
  | None => Ok []
  | Some payload =>
      match payload with
      | JDict d =>
          raise! ValueError "A storage plan contains only current-version transitions"
            when negb (keys_are d ["transitions"]);
          match dict_get d "transitions" with
          | Some (JList items) =>
              profile ← mapM_r transition_from_json items;
              let validation := validate_lifecycle_profile profile in
              if pv_ok validation then Ok profile else raise_errors validation
          | Some _ => Raise (ValueError "Transitions must be a list")
          | None => Raise (LookupError "KeyError")
          end
      | _ => Raise (ValueError "A storage plan contains only current-version transitions")
      end
  end.

Definition load_vault_plan (vaults : list vault_plan_row) (vault_id : Z) : result LifecycleProfile :=
  match fetchone (fun v => v_id v =b vault_id) vaults with
  | None => Raise (ValueError "Vault not found")
  | Some row => profile_from_json (v_plan row)
  end.

Definition with_plan (plan : json) (v : vault_plan_row) : vault_plan_row :=
  {| v_id := v_id v; v_uuid := v_uuid v; v_bucket := v_bucket v; v_prefix := v_prefix v;
     v_plan := Some plan |}.

Definition set_vault_plan (vaults : list vault_plan_row) (vault_id : Z) (profile : LifecycleProfile)
  : result (list vault_plan_row * ProfileValidation) :=
  let validation := validate_lifecycle_profile profile in
  if pv_ok validation then
    Ok (update_where (fun v => v_id v =b vault_id) (with_plan (profile_to_dict profile)) vaults,
        validation)
  else raise_errors validation.

Definition rule_id (r : rule) : string :=
  match dict_get r "ID" with
  | Some (JStr s) => s
  | Some v => str_of v
  | None => ""
  end.

Definition is_application_lifecycle_rule (r : rule) : bool :=
  starts_with RULE_ID_PREFIX (rule_id r) || starts_with LEGACY_RULE_ID_PREFIX (rule_id r)
  || (rule_id r =b ABORT_RULE_ID).

Definition build_vault_lifecycle_rule (vault_uuid prefix : string) (profile : LifecycleProfile)
  : result rule :=
  let validation := validate_lifecycle_profile profile in
  if pv_ok validation then
    prefix ← vault_object_prefix prefix;
    Ok ([("ID", JStr (RULE_ID_PREFIX +:+ vault_uuid)); ("Status", JStr "Enabled");
         ("Filter", JDict [("Prefix", JStr prefix)])]
        ++ match profile with
           | [] => []
           | _ => [("Transitions",
                    JList (map (fun t => JDict [("Days", tr_days t);
                                                ("StorageClass", tr_storage_class t)]) profile))]
           end)
  else raise_errors validation.

Definition merge_lifecycle_rules (existing_rules app_rules : list rule) : list rule :=
  List.filter (fun r => negb (is_application_lifecycle_rule r)) existing_rules ++ app_rules.

Section client.
Context (C : lifecycle_client).

Definition load_existing_rules (st : client_state C) (bucket : string) : result (list rule) :=
  match get_bucket_lifecycle_configuration C st bucket with
  | Raise (ClientError code status) =>
      if code =b NoSuchLifecycleConfiguration then Ok []
      else Raise (ClientError code status)
  | r => r
  end.

Definition sync_bucket_lifecycle_rules (st : client_state C) (bucket : string)
    (app_rules : list rule) : result (client_state C) :=
  existing_rules ← load_existing_rules st bucket;
  let merged_rules := merge_lifecycle_rules existing_rules (app_rules ++ [incomplete_upload_rule]) in
  _ ← enforce_rule_limit merged_rules;
  put_bucket_lifecycle_configuration C st bucket merged_rules.

(** [ORDER BY uuid], the plans, the overlap check, the rules, the call. *)
Definition vaults_of_bucket (vaults : list vault_plan_row) (bucket : string) : list vault_plan_row :=
  sort_by (fun a b => String.leb (v_uuid a) (v_uuid b))
    (select (fun v => v_bucket v =b bucket) vaults).

Definition has_transitions (p : vault_plan_row * LifecycleProfile) : bool :=
  match p.2 with [] => false | _ => true end.

Definition sync_lifecycle_rules_for_bucket (vaults : list vault_plan_row) (st : client_state C)
    (bucket : string) : result (client_state C * Z) :=
  plans ← mapM_r (fun row => profile ← profile_from_json (v_plan row); Ok (row, profile))
            (vaults_of_bucket vaults bucket);
  _ ← (if existsb has_transitions plans
       then validate_vault_prefixes (map (fun p => v_prefix p.1) plans)
       else Ok tt);
  rules ← mapM_r (fun p => build_vault_lifecycle_rule (v_uuid p.1) (v_prefix p.1) p.2)
            (List.filter has_transitions plans);
  st' ← sync_bucket_lifecycle_rules st bucket rules;
  Ok (st', Z.of_nat (length rules)).
End client.
End rules.

(** ** Lexicographic order and prefixes *)
Lemma leb_cons a s b t :
  String.leb (String a s) (String b t)
  = (Ascii.N_of_ascii a <? Ascii.N_of_ascii b)%N || ((Ascii.N_of_ascii a =? Ascii.N_of_ascii b)%N && String.leb s t).
Proof.
  unfold String.leb. cbn [String.compare]. unfold Ascii.compare, N.ltb.
  rewrite N.eqb_compare. by destruct (Ascii.N_of_ascii a ?= Ascii.N_of_ascii b)%N.
Qed.

Lemma leb_trans s t u : String.leb s t = true → String.leb t u = true → String.leb s u = true.
Proof.
  revert t u; induction s as [|a s IH]; intros [|b t] [|c u]; try done.
  rewrite !leb_cons, !orb_true_iff, !andb_true_iff, !N.ltb_lt, !N.eqb_eq.
  intros [?|[? ?]] [?|[? ?]]; [left; lia..|right; split; [lia|eauto]].
Qed.

Lemma leb_total s t : String.leb s t = true ∨ String.leb t s = true.
Proof. destruct (String.leb_total s t); auto. Qed.

(** Between a prefix and its extension everything extends the prefix. *)
Lemma prefix_between p x y :
  String.leb p x = true → String.leb x y = true → starts_with p y = true → starts_with p x = true.
Proof.
  revert x y; induction p as [|a p IH]; intros x y; [done|].
  destruct x as [|b x], y as [|c y]; try done. cbn [starts_with].
  rewrite !leb_cons, !orb_true_iff, !andb_true_iff, !N.ltb_lt, !N.eqb_eq, !bool_decide_eq_true.
  intros [Hab|[Hab Hpx]] Hbc [<- Hp].
  - exfalso. destruct Hbc as [?|[? _]]; lia.
  - destruct Hbc as [?|[_ Hxy]]; [lia|].
    split; [|by eapply IH]. by rewrite <- (Ascii.ascii_N_embedding a), Hab, Ascii.ascii_N_embedding.
Qed.

Lemma starts_with_refl p : starts_with p p = true.
Proof. apply starts_with_spec. exists "". by rewrite string_app_nil_r. Qed.

Lemma starts_with_trans p q s :
  starts_with p q = true → starts_with q s = true → starts_with p s = true.
Proof.
  rewrite !starts_with_spec. intros [t ->] [u ->].
  exists (t +:+ u). by rewrite string_app_assoc.
Qed.

(** Two prefixes of one text are comparable. *)
Lemma prefixes_comparable p q s :
  starts_with p s = true → starts_with q s = true →
  starts_with p q = true ∨ starts_with q p = true.
Proof.
  revert q s; induction p as [|a p IH]; intros [|b q] [|c s]; cbn; auto; try done.
  rewrite !andb_true_iff, !bool_decide_eq_true. intros [<- Hp] [<- Hq].
  destruct (IH q s Hp Hq); auto.
Qed.

(** No text of the list is a prefix of a later one. *)
Definition no_overlap (l : list string) : Prop :=
  ∀ i j p q, i ≠ j → l !! i = Some p → l !! j = Some q → starts_with p q = false.

Lemma adjacent_lookup {A} (l : list A) i x y :
  l !! i = Some x → l !! S i = Some y → (x, y) ∈ adjacent l.
Proof.
  revert i; induction l as [|a l IH]; intros i; [done|].
  destruct l as [|b l]; [by destruct i|]. destruct i as [|i].
  - intros [= <-] [= <-]. by left.
  - intros H1 H2. right. by apply (IH i).
Qed.

Lemma adjacent_elem {A} (l : list A) x y :
  (x, y) ∈ adjacent l → ∃ i, l !! i = Some x ∧ l !! S i = Some y.
Proof.
  induction l as [|a l IH]; [by intros ?%not_elem_of_nil|].
  destruct l as [|b l]; [by intros ?%not_elem_of_nil|].
  intros [[= -> ->]|H]%elem_of_cons; [by exists O|].
  destruct (IH H) as (i & ? & ?). by exists (S i).
Qed.

Lemma sorted_lookup l i j x y :
  StronglySorted (fun a b => String.leb a b = true) l →
  (i < j)%nat → l !! i = Some x → l !! j = Some y → String.leb x y = true.
Proof.
  intros Hs. revert i j; induction Hs as [|a l Hs IH Ha]; intros i j Hij Hi Hj; [done|].
  destruct j as [|j]; [lia|]. destruct i as [|i]; cbn in *.
  - injection Hi as <-. rewrite Forall_forall in Ha. apply Ha. eauto using list_elem_of_lookup_2.
  - apply (IH i j); [lia|done|done].
Qed.

(** In a sorted list, if some text is a prefix of a later one, then it is a
    prefix of its neighbour. *)
Lemma sorted_neighbour_overlap l i j p q :
  StronglySorted (fun a b => String.leb a b = true) l →
  (i < j)%nat → l !! i = Some p → l !! j = Some q → starts_with p q = true →
  ∃ x, l !! S i = Some x ∧ starts_with p x = true.
Proof.
  intros Hs Hij Hi Hj Hpq.
  destruct (decide (j = S i)) as [->|Hne]; [by exists q|].
  destruct (l !! S i) as [x|] eqn:Hx.
  - exists x. split; [done|]. apply (prefix_between p x q); [| |done].
    + by apply (sorted_lookup l i (S i)); [done|lia|..].
    + by apply (sorted_lookup l (S i) j); [done|lia|..].
  - exfalso. apply lookup_ge_None in Hx. apply lookup_lt_Some in Hj. lia.
Qed.

Lemma starts_with_leb p q : starts_with p q = true → String.leb p q = true.
Proof.
  revert q; induction p as [|a p IH]; intros [|b q]; try done. cbn [starts_with].
  rewrite andb_true_iff, bool_decide_eq_true, leb_cons, orb_true_iff, andb_true_iff, N.eqb_eq.
  intros [<- H]. auto.
Qed.

Lemma leb_antisym s t : String.leb s t = true → String.leb t s = true → s = t.
Proof. apply String.leb_antisym. Qed.

Lemma adjacent_no_overlap l :
  StronglySorted (fun a b => String.leb a b = true) l →
  (∀ p q, (p, q) ∈ adjacent l → starts_with p q = false) ↔ no_overlap l.
Proof.
  intros Hs. split.
  - intros H i j p q Hij Hi Hj. apply not_true_iff_false. intros Hpq.
    assert (Hlow : ∀ i j p q, (i < j)%nat → l !! i = Some p → l !! j = Some q → starts_with p q = true → False).
    { clear -Hs H. intros i j p q Hij Hi Hj Hpq.
      destruct (sorted_neighbour_overlap l i j p q) as (x & Hx & Hpx); [done..|].
      rewrite (H p x) in Hpx; [done|]. by eapply adjacent_lookup. }
    destruct (decide (i < j)%nat) as [Hlt|Hge]; [by apply (Hlow i j p q)|].
    assert (q = p) as ->.
    { apply leb_antisym; [|by apply starts_with_leb].
      by apply (sorted_lookup l j i); [done|lia|..]. }
    apply (Hlow j i p p); [lia|done..|apply starts_with_refl].
  - intros H p q Hpq. apply adjacent_elem in Hpq as (i & Hi & Hj). by apply (H i (S i)); [lia|..].
Qed.

Lemma no_overlap_filter {A} (f : A → string) (p : A → bool) l :
  no_overlap (map f l) → no_overlap (map f (List.filter p l)).
Proof.
  intros Hno.
  assert (Hemb : ∃ g : nat → nat, (∀ i j, i ≠ j → g i ≠ g j)
            ∧ ∀ i, List.filter p l !! i ≠ None → List.filter p l !! i = l !! g i).
  { clear Hno. induction l as [|x l (g & Hinj & Hg)]; [by exists id|].
    cbn. destruct (p x).
    - exists (fun i => match i with O => O | S i => S (g i) end). split.
      + intros [|i] [|j] Hij; try lia. intros [= H]. apply (Hinj i j); [lia|done].
      + intros [|i] Hi; [done|]. by apply Hg.
    - exists (fun i => S (g i)). split; [|done]. intros i j Hij [= H]. by apply (Hinj i j). }
  destruct Hemb as (g & Hinj & Hg). intros i j a b Hij.
  rewrite !map_fmap, !list_lookup_fmap_Some. intros (x & -> & Hx) (y & -> & Hy).
  assert (H1 := Hg i ltac:(by rewrite Hx)). assert (H2 := Hg j ltac:(by rewrite Hy)).
  apply (Hno (g i) (g j)); [auto|rewrite map_fmap, list_lookup_fmap, <- H1, Hx|rewrite map_fmap, list_lookup_fmap, <- H2, Hy]; done.
Qed.

(** Overlap does not depend on the order of the list. *)
Lemma no_overlap_perm l k : l ≡ₚ k → no_overlap l → no_overlap k.
Proof.
  intros Hp H i j p q Hij Hi Hj.
  symmetry in Hp.
  destruct (proj1 (Permutation_inj k l) Hp) as [_ (f & Hf & Hff)].
  rewrite Hff in Hi, Hj. eapply (H (f i) (f j)); [|done..]. by intros ?%Hf.
Qed.

(** ** Valid plans *)

(** The meaning of a valid plan: from [class], reached after [days], each step
    comes strictly later, goes to a class AWS allows, leaves an IA class only
    after 30 days of age and keeps the minimum residence of the source. *)
Fixpoint valid_chain (days : Z) (class : string) (steps : list (Z * string)) : Prop :=
  match steps with
  | [] => True
  | (d, c) :: steps =>
      0 ≤ d ∧ days < d ∧ c ∈ ALLOWED_TARGETS class
      ∧ (c ∈ ["STANDARD_IA"; "ONEZONE_IA"] → 30 ≤ d)
      ∧ MIN_SOURCE_RESIDENCE class ≤ d - days
      ∧ valid_chain d c steps
  end.

Definition profile_of (steps : list (Z * string)) : LifecycleProfile :=
  map (fun s => transition s.1 s.2) steps.

Lemma err_if_nil b e : err_if b e = [] ↔ b = false.
Proof. by destruct b. Qed.

Lemma allowed_supported class c : c ∈ ALLOWED_TARGETS class → c ∈ SUPPORTED_STORAGE_CLASSES.
Proof. unfold ALLOWED_TARGETS, SUPPORTED_STORAGE_CLASSES. repeat case_bool_decide; set_solver. Qed.

Lemma validate_step_ok st step :
  vs_errors (validate_step st step) = [] ↔
  vs_errors st = [] ∧ ∃ d c, step = transition d c ∧ 0 ≤ d ∧ vs_previous_days st < d
    ∧ c ∈ ALLOWED_TARGETS (vs_previous_class st)
    ∧ (c ∈ ["STANDARD_IA"; "ONEZONE_IA"] → 30 ≤ d)
    ∧ MIN_SOURCE_RESIDENCE (vs_previous_class st) ≤ d - vs_previous_days st.
Proof.
  assert (Hsnoc : ∀ (l : list profile_error) e, l ++ [e] = [] ↔ False)
    by (intros l e; split; [by destruct l|done]).
  unfold validate_step. destruct step as [days class]. cbn [tr_days tr_storage_class].
  destruct days as [| |d| | | |]; cbn [vs_errors]; rewrite ?Hsnoc; try (unfold transition; naive_solver).
  destruct (Z.ltb_spec d 0); cbn [vs_errors].
  { rewrite Hsnoc. split; [done|]. unfold transition. intros (_ & ? & ? & [= -> ->] & ? & _). lia. }
  destruct class as [| | | |c| |]; cbn [vs_errors]; rewrite ?Hsnoc; try (unfold transition; naive_solver).
  destruct (c ∈b SUPPORTED_STORAGE_CLASSES) eqn:Es; cbn [negb vs_errors].
  2:{ rewrite Hsnoc. split; [done|]. unfold transition. intros (_ & ? & ? & [= -> ->] & ? & ? & Ha & _).
      apply allowed_supported in Ha. by bsimpl. }
  rewrite !app_nil, !err_if_nil, Z.leb_gt, negb_false_iff, bool_decide_eq_true, Z.ltb_ge.
  assert (Hia : (c ∈b ["STANDARD_IA"; "ONEZONE_IA"]) && (d <? 30) = false
                ↔ (c ∈ ["STANDARD_IA"; "ONEZONE_IA"] → 30 ≤ d)).
  { rewrite andb_false_iff, Z.ltb_ge, bool_decide_eq_false.
    destruct (decide (c ∈ ["STANDARD_IA"; "ONEZONE_IA"])); naive_solver. }
  rewrite Hia. split.
  - intros (-> & ? & ? & ? & ?). split; [done|]. by exists d, c.
  - intros (-> & d' & c' & [= <- <-] & ?). naive_solver.
Qed.

Lemma validate_step_next st d c :
  vs_errors (validate_step st (transition d c)) = [] →
  vs_previous_days (validate_step st (transition d c)) = d
  ∧ vs_previous_class (validate_step st (transition d c)) = c.
Proof.
  assert (Hsnoc : ∀ (l : list profile_error) e, l ++ [e] ≠ []) by (by intros []).
  unfold validate_step. cbn [transition tr_days tr_storage_class].
  destruct (d <? 0); [by intros ?%Hsnoc|]. by destruct (negb _); [intros ?%Hsnoc|].
Qed.

Lemma validate_chain profile st :
  vs_errors (foldl validate_step st profile) = [] ↔
  vs_errors st = [] ∧ ∃ steps, profile = profile_of steps
    ∧ valid_chain (vs_previous_days st) (vs_previous_class st) steps.
Proof.
  revert st; induction profile as [|step profile IH]; intros st; cbn [foldl].
  - split; [intros H; split; [done|]; by exists []|naive_solver].
  - rewrite IH, validate_step_ok. split.
    + intros ((Hst & d & c & -> & Hrest) & steps & -> & Hchain). split; [done|].
      exists ((d, c) :: steps). split; [done|].
      destruct (validate_step_next st d c) as [Hd Hc]; [apply validate_step_ok; eauto 10|].
      rewrite Hd, Hc in Hchain. cbn. naive_solver.
    + intros (Hst & [|[d c] steps] & Hp & Hchain); [done|].
      cbn in Hp. injection Hp as -> ->. cbn in Hchain.
      assert (Hok : vs_errors (validate_step st (transition d c)) = [])
        by (apply validate_step_ok; naive_solver).
      split; [naive_solver|]. exists steps. split; [done|].
      destruct (validate_step_next st d c Hok) as [-> ->]. naive_solver.
Qed.

Lemma pv_ok_errors profile :
  pv_ok (validate_lifecycle_profile profile) = true
  ↔ vs_errors (foldl validate_step validation_start profile) = [].
Proof. unfold validate_lifecycle_profile. cbn. by destruct (vs_errors _). Qed.

(** [validate_lifecycle_profile] accepts exactly the valid chains: integer days
    from zero on, strictly increasing; each class an AWS transition target of the
    previous one, starting from STANDARD; IA classes only from 30 days of age;
    and the minimum residence of every source class respected.  Any other JSON
    in the stored plan is refused. *)
Theorem validate_lifecycle_profile_iff profile :
  pv_ok (validate_lifecycle_profile profile) = true
  ↔ ∃ steps, profile = profile_of steps ∧ valid_chain (-1) "STANDARD" steps.
Proof. rewrite pv_ok_errors, validate_chain. naive_solver. Qed.

(** How cold a class is; every allowed transition goes to a strictly colder one. *)
Definition coldness (class : string) : nat :=
  if class =b "STANDARD" then 0 else if class =b "STANDARD_IA" then 1
  else if class =b "ONEZONE_IA" then 2 else if class =b "GLACIER_IR" then 2
  else if class =b "GLACIER" then 3 else if class =b "DEEP_ARCHIVE" then 4 else 4.

Lemma coldness_le class : (coldness class ≤ 4)%nat.
Proof. unfold coldness. repeat case_bool_decide; lia. Qed.

Lemma allowed_colder class c : c ∈ ALLOWED_TARGETS class → (coldness class < coldness c)%nat.
Proof.
  unfold ALLOWED_TARGETS, SUPPORTED_STORAGE_CLASSES.
  repeat case_bool_decide; subst; intros Hc;
    repeat (apply elem_of_cons in Hc as [->|Hc]; [vm_compute; lia|]); by apply not_elem_of_nil in Hc.
Qed.

Lemma chain_colder d class steps :
  valid_chain d class steps →
  (length steps + coldness class ≤ 4)%nat
  ∧ Forall (fun s => (coldness class < coldness s.2)%nat) steps
  ∧ NoDup (map snd steps).
Proof.
  revert d class; induction steps as [|[d' c] steps IH]; intros d class; cbn.
  - intros _. assert (H := coldness_le class). repeat split; [lia|constructor|constructor].
  - intros (_ & _ & Ha & _ & _ & Hc). apply allowed_colder in Ha.
    destruct (IH d' c Hc) as (Hl & Hf & Hn). repeat split.
    + lia.
    + constructor; [done|]. eapply Forall_impl; [exact Hf|]. cbn. lia.
    + apply NoDup_cons. split; [|done]. rewrite list_elem_of_In, in_map_iff.
      intros ([d2 c2] & <- & Hin). apply list_elem_of_In in Hin.
      rewrite Forall_forall in Hf. specialize (Hf _ Hin). cbn in Hf. lia.
Qed.

(** A valid plan only ever moves objects to colder classes: it has at most four
    transitions and no class occurs twice. *)
Theorem valid_plan_only_colder steps :
  pv_ok (validate_lifecycle_profile (profile_of steps)) = true →
  (length steps ≤ 4)%nat ∧ NoDup (map snd steps).
Proof.
  intros (steps' & Heq & Hc)%pv_ok_errors%validate_chain%proj2.
  assert (steps = steps') as ->.
  { clear -Heq. unfold profile_of in Heq. revert steps' Heq.
    induction steps as [|[d c] l IH]; intros [|[d' c'] l'] Heq; try done.
    cbn in Heq. injection Heq as -> -> Heq. f_equal. auto. }
  destruct (chain_colder _ _ _ Hc) as (? & _ & ?). split; [lia|done].
Qed.

Lemma valid_plan_only_colder_witness :
  (length [(30, "STANDARD_IA"); (90, "GLACIER_IR"); (365, "DEEP_ARCHIVE")] ≤ 4)%nat.
Proof.
  apply (valid_plan_only_colder [(30, "STANDARD_IA"); (90, "GLACIER_IR"); (365, "DEEP_ARCHIVE")]).
  vm_compute. reflexivity.
Defined.

(** Storing and reading a plan round-trips.  Reading back what
    [profile_to_json] wrote gives the profile itself when it is valid and raises
    the same validation errors when it is not. *)
Theorem profile_json_roundtrip str_of profile :
  profile_from_json str_of (Some (profile_to_dict profile))
  = if pv_ok (validate_lifecycle_profile profile) then Ok profile
    else raise_errors str_of (validate_lifecycle_profile profile).
Proof.
  unfold profile_from_json, profile_to_dict.
  assert (Hmap : mapM_r transition_from_json (map transition_to_json profile) = Ok profile).
  { apply mapM_r_ok. induction profile as [|[d c] l IH]; [constructor|].
    cbn. constructor; [reflexivity|done]. }
  change (keys_are _ ["transitions"]) with true.
  change (dict_get _ "transitions") with (Some (JList (map transition_to_json profile))).
  cbn [negb raise_if mbind result_bind]. rewrite Hmap. done.
Qed.

(** ** Overlapping Vaults *)
Lemma vault_object_prefix_ok p q :
  vault_object_prefix p = Ok q ↔ strip_slash p ≠ "" ∧ q = strip_slash p +:+ "/".
Proof.
  unfold vault_object_prefix. rewrite raise_if_bind_ok, bool_decide_eq_false. split.
  - by intros [? [= <-]].
  - by intros [? ->].
Qed.

Lemma prefixes_ok prefixes ps :
  mapM_r vault_object_prefix prefixes = Ok ps ↔
  Forall (fun p => strip_slash p ≠ "") prefixes ∧ ps = map (fun p => strip_slash p +:+ "/") prefixes.
Proof.
  rewrite mapM_r_ok. split.
  - induction 1 as [|p q l k Hp _ [IH1 IH2]]; [by split; [constructor|]|].
    apply vault_object_prefix_ok in Hp as [? ->]. split; [by constructor|]. cbn. by rewrite IH2.
  - intros [Hf ->]. induction Hf; cbn; constructor; [|done]. by apply vault_object_prefix_ok.
Qed.

Lemma validate_prefixes_no_overlap prefixes :
  validate_vault_prefixes prefixes = Ok tt
  ↔ Forall (fun p => strip_slash p ≠ "") prefixes
    ∧ no_overlap (map (fun p => strip_slash p +:+ "/") prefixes).
Proof.
  unfold validate_vault_prefixes. rewrite bind_ok. setoid_rewrite prefixes_ok.
  setoid_rewrite for_each_ok.
  assert (Hadj : ∀ l, Forall (fun x => (let '(previous, current) := x in
      raise_if (starts_with previous current)
        (ValueError "Overlapping Vault prefixes cannot safely receive storage plans")) = Ok tt)
      (adjacent (sort_by String.leb l)) ↔ no_overlap l).
  { intros l. rewrite Forall_forall.
    assert (Hs := sort_by_sorted String.leb leb_total leb_trans l).
    transitivity (no_overlap (sort_by String.leb l)).
    - rewrite <- adjacent_no_overlap by done. split.
      + intros H p q Hpq. specialize (H (p, q) Hpq). cbn in H. by apply raise_if_ok in H.
      + intros H [p q] Hpq. apply raise_if_ok. auto.
    - split; apply no_overlap_perm; rewrite sort_by_perm; done. }
  setoid_rewrite Hadj. split.
  - intros (ps & [Hf ->] & Ho). done.
  - intros [Hf Ho]. eexists. split; [by split|done].
Qed.

(** Comparing sorted neighbours is enough.  [validate_vault_prefixes] accepts a
    list exactly when no prefix is empty and no Vault's object prefix is a prefix
    of another's (equal prefixes included), wherever the two stand in the list. *)
Theorem validate_vault_prefixes_iff prefixes :
  validate_vault_prefixes prefixes = Ok tt
  ↔ Forall (fun p => strip_slash p ≠ "") prefixes
    ∧ ∀ i j p q, i ≠ j → prefixes !! i = Some p → prefixes !! j = Some q →
        starts_with (strip_slash p +:+ "/") (strip_slash q +:+ "/") = false.
Proof.
  rewrite validate_prefixes_no_overlap. unfold no_overlap.
  rewrite map_fmap. setoid_rewrite list_lookup_fmap_Some. naive_solver.
Qed.

(** ** Synchronisation *)
Class LifecycleClientLaws (C : lifecycle_client) : Prop := {
  client_get_put st st' b rules :
    put_bucket_lifecycle_configuration C st b rules = Ok st' →
    get_bucket_lifecycle_configuration C st' b = Ok rules;
  client_get_put_other st st' b b' rules :
    put_bucket_lifecycle_configuration C st b rules = Ok st' → b' ≠ b →
    get_bucket_lifecycle_configuration C st' b' = get_bucket_lifecycle_configuration C st b';
}.

Section sync.
Context (str_of : json → string) (C : lifecycle_client) `{!LifecycleClientLaws C}.

Definition external_rules (rules : list rule) : list rule :=
  List.filter (fun r => negb (is_application_lifecycle_rule str_of r)) rules.

Lemma build_rule_ok u p profile r :
  build_vault_lifecycle_rule str_of u p profile = Ok r →
  is_application_lifecycle_rule str_of r = true
  ∧ dict_get r "Filter" = Some (JDict [("Prefix", JStr (strip_slash p +:+ "/"))])
  ∧ pv_ok (validate_lifecycle_profile profile) = true.
Proof.
  unfold build_vault_lifecycle_rule. destruct (pv_ok _); [|done]. rewrite bind_ok.
  intros (q & Hq & [= <-]). apply vault_object_prefix_ok in Hq as [_ ->].
  by repeat split.
Qed.

Lemma external_app rules :
  Forall (fun r => is_application_lifecycle_rule str_of r = true) rules → external_rules rules = [].
Proof. induction 1 as [|r l Hr _ IH]; [done|]. cbn. by rewrite Hr. Qed.

Lemma abort_rule_application : is_application_lifecycle_rule str_of incomplete_upload_rule = true.
Proof. reflexivity. Qed.

Lemma sync_bucket_ok st b rules st' :
  sync_bucket_lifecycle_rules str_of C st b rules = Ok st' →
  ∃ existing, load_existing_rules C st b = Ok existing
    ∧ get_bucket_lifecycle_configuration C st' b
      = Ok (external_rules existing ++ rules ++ [incomplete_upload_rule])
    ∧ Z.of_nat (length (external_rules existing ++ rules ++ [incomplete_upload_rule]))
      ≤ MAX_BUCKET_LIFECYCLE_RULES.
Proof.
  unfold sync_bucket_lifecycle_rules. rewrite bind_ok. intros (existing & Hl & H).
  exists existing. unfold enforce_rule_limit in H. apply raise_if_bind_ok in H as [Hlim Hput].
  bsimpl. split; [done|]. split; [by eapply client_get_put|done].
Qed.

(** The rules the Vaults of a bucket ask for. *)
Definition wanted_rules (vaults : list vault_plan_row) (bucket : string) (rules : list rule) : Prop :=
  ∃ plans,
    mapM_r (fun row => profile ← profile_from_json str_of (v_plan row); Ok (row, profile))
      (vaults_of_bucket vaults bucket) = Ok plans
    ∧ (existsb has_transitions plans = true →
       validate_vault_prefixes (map (fun p => v_prefix p.1) plans) = Ok tt)
    ∧ mapM_r (fun p => build_vault_lifecycle_rule str_of (v_uuid p.1) (v_prefix p.1) p.2)
        (List.filter has_transitions plans) = Ok rules.

Lemma sync_for_bucket_ok vaults st bucket st' n :
  sync_lifecycle_rules_for_bucket str_of C vaults st bucket = Ok (st', n) →
  ∃ rules, wanted_rules vaults bucket rules ∧ n = Z.of_nat (length rules)
    ∧ sync_bucket_lifecycle_rules str_of C st bucket rules = Ok st'.
Proof.
  unfold sync_lifecycle_rules_for_bucket. rewrite bind_ok. intros (plans & Hp & H).
  rewrite bind_ok in H. destruct H as ([] & Hv & H).
  rewrite bind_ok in H. destruct H as (rules & Hr & H).
  rewrite bind_ok in H. destruct H as (s & Hs & H). inv_ok. simplify_eq.
  exists rules. split; [|done]. exists plans. repeat split; try done.
  intros E. by rewrite E in Hv.
Qed.

Lemma wanted_rules_unique vaults bucket r1 r2 :
  wanted_rules vaults bucket r1 → wanted_rules vaults bucket r2 → r1 = r2.
Proof. intros (p1 & H1 & _ & H1') (p2 & H2 & _ & H2'). simplify_eq. congruence. Qed.

Lemma wanted_rules_application vaults bucket rules :
  wanted_rules vaults bucket rules →
  Forall (fun r => is_application_lifecycle_rule str_of r = true) (rules ++ [incomplete_upload_rule]).
Proof.
  intros (plans & _ & _ & Hr). apply Forall_app. split; [|repeat constructor].
  apply mapM_r_ok in Hr. apply Forall_forall. intros r [i Hi]%list_elem_of_lookup.
  destruct (Forall2_lookup_r _ _ _ _ _ Hr Hi) as (p & _ & Hb). by apply build_rule_ok in Hb as [? _].
Qed.

(** The object prefix a rule selects. *)
Definition rule_prefix (r : rule) : option string :=
  match dict_get r "Filter" with
  | Some (JDict f) => match dict_get f "Prefix" with Some (JStr p) => Some p | _ => None end
  | _ => None
  end.

Definition rule_covers (key : string) (r : rule) : bool :=
  match rule_prefix r with Some p => starts_with p key | None => false end.

Lemma wanted_rules_disjoint vaults bucket rules i j r1 r2 key :
  wanted_rules vaults bucket rules → rules !! i = Some r1 → rules !! j = Some r2 →
  rule_covers key r1 = true → rule_covers key r2 = true → i = j.
Proof.
  intros (plans & _ & Hv & Hr) H1 H2 Hk1 Hk2. apply mapM_r_ok in Hr.
  destruct (Forall2_lookup_r _ _ _ _ _ Hr H1) as (p1 & Hp1 & Hb1).
  destruct (Forall2_lookup_r _ _ _ _ _ Hr H2) as (p2 & Hp2 & Hb2).
  assert (Hne : existsb has_transitions plans = true).
  { apply list_elem_of_lookup_2, list_elem_of_In, filter_In in Hp1 as [Hin Ht].
    apply existsb_exists. eauto. }
  specialize (Hv Hne). apply validate_prefixes_no_overlap in Hv as [_ Hno].
  apply build_rule_ok in Hb1 as (_ & Hf1 & _), Hb2 as (_ & Hf2 & _).
  unfold rule_covers, rule_prefix in Hk1, Hk2. rewrite Hf1 in Hk1. rewrite Hf2 in Hk2. cbn in Hk1, Hk2.
  destruct (decide (i = j)) as [|Hij]; [done|]. exfalso.
  assert (Hsub : no_overlap (map (fun p => strip_slash (v_prefix p.1) +:+ "/") (List.filter has_transitions plans))).
  { clear -Hno. rewrite map_map in Hno. revert Hno. generalize (fun p : vault_plan_row * LifecycleProfile => strip_slash (v_prefix p.1) +:+ "/").
    intros f Hno. by eapply no_overlap_filter. }
  rewrite map_fmap in Hsub.
  assert (L1 : ((fun p => strip_slash (v_prefix p.1) +:+ "/") <$> List.filter has_transitions plans) !! i
               = Some (strip_slash (v_prefix p1.1) +:+ "/")) by (by rewrite list_lookup_fmap, Hp1).
  assert (L2 : ((fun p => strip_slash (v_prefix p.1) +:+ "/") <$> List.filter has_transitions plans) !! j
               = Some (strip_slash (v_prefix p2.1) +:+ "/")) by (by rewrite list_lookup_fmap, Hp2).
  destruct (prefixes_comparable _ _ _ Hk1 Hk2) as [Hc|Hc].
  - by rewrite (Hsub i j _ _ Hij L1 L2) in Hc.
  - by rewrite (Hsub j i _ _ (not_eq_sym Hij) L2 L1) in Hc.
Qed.

(** A successful synchronisation of a bucket leaves the rules of other
    applications in place and in order, replaces every application rule by the
    current plans plus the rule that aborts incomplete uploads, stays within
    S3's limit, touches no other bucket, and never lets one object fall under
    the rules of two Vaults. *)
Theorem sync_lifecycle_rules_spec vaults st bucket st' n :
  sync_lifecycle_rules_for_bucket str_of C vaults st bucket = Ok (st', n) →
  ∃ existing rules,
    load_existing_rules C st bucket = Ok existing
    ∧ wanted_rules vaults bucket rules ∧ n = Z.of_nat (length rules)
    ∧ get_bucket_lifecycle_configuration C st' bucket
      = Ok (external_rules existing ++ rules ++ [incomplete_upload_rule])
    ∧ Z.of_nat (length (external_rules existing ++ rules ++ [incomplete_upload_rule])) ≤ 1000
    ∧ (∀ b, b ≠ bucket →
         get_bucket_lifecycle_configuration C st' b = get_bucket_lifecycle_configuration C st b)
    ∧ (∀ key i j r1 r2, rules !! i = Some r1 → rules !! j = Some r2 →
         rule_covers key r1 = true → rule_covers key r2 = true → i = j).
Proof.
  intros (rules & Hw & Hn & Hs)%sync_for_bucket_ok.
  destruct (sync_bucket_ok _ _ _ _ Hs) as (existing & Hl & Hg & Hlim).
  exists existing, rules. repeat split; try done.
  - intros b Hb. unfold sync_bucket_lifecycle_rules in Hs. inv_ok. by eapply client_get_put_other.
  - intros key i j r1 r2. by apply wanted_rules_disjoint with (1 := Hw).
Qed.

(** Synchronisation is idempotent: running it again for the same Vaults
    leaves the bucket with exactly the rules it already had. *)
Theorem sync_lifecycle_rules_idempotent vaults st bucket st1 st2 n m :
  sync_lifecycle_rules_for_bucket str_of C vaults st bucket = Ok (st1, n) →
  sync_lifecycle_rules_for_bucket str_of C vaults st1 bucket = Ok (st2, m) →
  m = n ∧ get_bucket_lifecycle_configuration C st2 bucket
          = get_bucket_lifecycle_configuration C st1 bucket.
Proof.
  intros (r1 & Hw1 & -> & Hs1)%sync_for_bucket_ok (r2 & Hw2 & -> & Hs2)%sync_for_bucket_ok.
  assert (r2 = r1) as -> by eauto using wanted_rules_unique.
  destruct (sync_bucket_ok _ _ _ _ Hs1) as (e1 & _ & Hg1 & _).
  destruct (sync_bucket_ok _ _ _ _ Hs2) as (e2 & Hl2 & Hg2 & _).
  split; [done|]. rewrite Hg1, Hg2. unfold load_existing_rules in Hl2. rewrite Hg1 in Hl2.
  injection Hl2 as <-. f_equal. f_equal. unfold external_rules at 1. rewrite List.filter_app.
  change (external_rules (external_rules e1) ++ external_rules (r1 ++ [incomplete_upload_rule])
          = external_rules e1).
  rewrite (external_app (r1 ++ _)) by by eapply wanted_rules_application.
  rewrite app_nil_r. unfold external_rules. apply forallb_filter_id, forallb_forall.
  intros r [_ H]%filter_In. done.
Qed.
End sync.

(** ** Witnesses: an S3 that stores the configuration per bucket *)
Definition memory_client : lifecycle_client := {|
  client_state := gmap string (list rule);
  get_bucket_lifecycle_configuration st b :=
    match st !! b with
    | Some rules => Ok rules
    | None => Raise (ClientError NoSuchLifecycleConfiguration 404)
    end;
  put_bucket_lifecycle_configuration st b rules := Ok (<[b := rules]> st);
|}.

#[export] Instance memory_client_laws : LifecycleClientLaws memory_client.
Proof.
  constructor; intros; cbn in *; inv_ok; subst.
  - by rewrite lookup_insert_eq.
  - by rewrite lookup_insert_ne by done.
Defined.

Definition w_vaults : list vault_plan_row :=
  [{| v_id := 1; v_uuid := "u1"; v_bucket := "b"; v_prefix := "vaults/photos";
      v_plan := Some (profile_to_dict [transition 30 "STANDARD_IA"; transition 90 "GLACIER_IR"]) |};
   {| v_id := 2; v_uuid := "u0"; v_bucket := "b"; v_prefix := "vaults/docs/"; v_plan := None |}].

Definition w_bucket : client_state memory_client :=
  {["b" := [[("ID", JStr "other"); ("Status", JStr "Enabled")];
            [("ID", JStr "psa-policy-9"); ("Status", JStr "Enabled")]]]}.

Definition w_synced : client_state memory_client :=
  match sync_lifecycle_rules_for_bucket (fun _ => "") memory_client w_vaults w_bucket "b" with
  | Ok (st, _) => st
  | Raise _ => ∅
  end.

Lemma sync_lifecycle_rules_spec_witness :
  ∃ rules, get_bucket_lifecycle_configuration memory_client w_synced "b"
    = Ok ([[("ID", JStr "other"); ("Status", JStr "Enabled")]] ++ rules ++ [incomplete_upload_rule]).
Proof.
  destruct (sync_lifecycle_rules_spec (fun _ => "") memory_client w_vaults w_bucket "b" w_synced 1)
    as (e & rules & He & _ & _ & Hg & _); [vm_compute; reflexivity|].
  exists rules. rewrite Hg. vm_compute in He. injection He as <-. reflexivity.
Defined.

Lemma sync_lifecycle_rules_idempotent_witness :
  ∃ st2 m, sync_lifecycle_rules_for_bucket (fun _ => "") memory_client w_vaults w_synced "b" = Ok (st2, m)
    ∧ m = 1
    ∧ get_bucket_lifecycle_configuration memory_client st2 "b"
      = get_bucket_lifecycle_configuration memory_client w_synced "b".
Proof.
  assert (H : sync_lifecycle_rules_for_bucket (fun _ => "") memory_client w_vaults w_synced "b"
              = Ok (w_synced, 1)) by (vm_compute; reflexivity).
  exists w_synced, 1. split; [exact H|].
  eapply (sync_lifecycle_rules_idempotent (fun _ => "") memory_client w_vaults w_bucket "b" w_synced w_synced 1 1);
    [vm_compute; reflexivity|exact H].
Defined.
