(* ===== verification/JobClaims.v ===== *)
(** * JobClaims: leases of durable Jobs

    Models the claim operations of [ArchiveCatalog] in [src/app/catalog.py]
    (lines 2779-3231): one claimability predicate shared by the scheduler's
    candidate query, the conditional UPDATE that takes a lease and the queue
    metric; the all-or-nothing lease of a cloud-purge group; and the renewals.
    The state is the [jobs], [vaults] and [vault_operation_policies] tables.
    NULL only meets a comparison under an [IS NULL]/[IS NOT NULL] test or as a
    conjunct of a positive condition, where "not true" is all that matters, so
    the predicates are booleans and [le_now] is false on NULL. *)
From S2P Require Import Prelude Sql Schema JobScheduler.

(** ** Model *)
Record claim_db := {
  c_jobs : list job;
  c_vaults : list vault;
  c_policies : list policy_row;
}.

Definition with_jobs (db : claim_db) (l : list job) : claim_db :=
  {| c_jobs := l; c_vaults := c_vaults db; c_policies := c_policies db |}.

(** [column <= now] on a nullable time stamp. *)
Definition le_now (t : option timestamp) (now : timestamp) : bool :=
  match t with Some t => t <=? now | None => false end.

(** [_claimable_job_status_sql] with [include_restoring]. *)
Definition claimable_job_status (now restore_due_before : timestamp) (j : job) : bool :=
  (j_status j =b "queued")
  || ((j_status j =b "retrying") && (is_none (j_retry_after j) || le_now (j_retry_after j) now))
  || ((j_action j =b "cloud-purge") && (j_status j =b "pending_delay") && le_now (j_pending_until j) now)
  || ((j_action j ∈b ["recover"; "storage-class"]) && (j_status j =b "restoring")
      && (j_updated_at j <=? restore_due_before)).

(** [COALESCE((SELECT auto_upload ...), TRUE)]. *)
Definition auto_upload_enabled (db : claim_db) (vault_id : Z) : bool :=
  match fetchone (fun p => pr_vault_id p =b vault_id) (c_policies db) with
  | Some p => pr_auto_upload p
  | None => true
  end.

(** No live lease. *)
Definition lease_free (now : timestamp) (j : job) : bool :=
  is_none (j_claim_token j) || is_none (j_claim_expires_at j) || le_now (j_claim_expires_at j) now.

(** A member that keeps its whole purge group from being claimed. *)
Definition purge_peer_blocks (now : timestamp) (j p : job) : bool :=
  (j_vault_id p =b j_vault_id j) && (bool_decide (j_group_id p = j_group_id j))
  && (j_action p =b "cloud-purge") && job_is_active p
  && ((negb (j_status p =b "queued")
       && negb ((j_status p =b "pending_delay") && le_now (j_pending_until p) now))
      || (is_some (j_claim_token p) && match j_claim_expires_at p with
                                        | Some e => now <? e
                                        | None => false
                                        end)).

(** [_claimable_job_predicate_sql]. *)
Definition claimable_job_predicate (db : claim_db) (now restore_due_before : timestamp) (j : job) : bool :=
  claimable_job_status now restore_due_before j
  && (negb (j_action j =b "upload") || negb (j_origin j =b "automatic")
      || is_some (j_archive_version_id j) || auto_upload_enabled db (j_vault_id j))
  && lease_free now j
  && (negb (j_action j =b "cloud-purge")
      || (is_some (j_group_id j) && negb (exists_row (purge_peer_blocks now j) (c_jobs db)))).

(** The join with [vaults] of the scheduler and of the metric. *)
Definition vault_admits (v : vault) (j : job) : bool :=
  (va_relocation_state v =b "ready")
  && ((va_enabled v && (bool_decide (va_decommission_state v = Some "active"))
       && (j_origin j ∈b ["manual"; "automatic"]))
      || ((bool_decide (va_decommission_state v = Some "decommissioning"))
          && (j_origin j =b "stop-protection") && (j_action j =b "cloud-purge"))).

Definition vault_of (db : claim_db) (vault_id : Z) : option vault :=
  fetchone (fun v => va_id v =b vault_id) (c_vaults db).

Definition schedulable (db : claim_db) (now restore_due_before : timestamp) (j : job) : bool :=
  match vault_of db (j_vault_id j) with
  | Some v => vault_admits v j && claimable_job_predicate db now restore_due_before j
  | None => false
  end.

Definition list_claimable_jobs (db : claim_db) (now restore_due_before : timestamp) (limit : Z)
  : list job :=
  if limit <=? 0 then []
  else take (Z.to_nat limit)
         (sort_by job_le (select (schedulable db now restore_due_before) (c_jobs db))).

Definition claimable_queue_depth (db : claim_db) (now restore_due_before : timestamp) : Z :=
  countZ (schedulable db now restore_due_before) (c_jobs db).

(** [_claim_is_available] and [_purge_job_is_runnable]. *)
Definition claim_is_available (now : timestamp) (j : job) : bool :=
  negb (truthy (j_claim_token j)) || is_none (j_claim_expires_at j) || le_now (j_claim_expires_at j) now.

Definition purge_job_is_runnable (now : timestamp) (j : job) : bool :=
  (j_status j =b "queued") || ((j_status j =b "pending_delay") && le_now (j_pending_until j) now).

Definition claim_where (db : claim_db) (now restore_due_before : timestamp) (job_id : Z) (j : job) : bool :=
  (j_id j =b job_id) && negb (j_action j =b "cloud-purge")
  && claimable_job_predicate db now restore_due_before j.

Definition claim_job (db : claim_db) (job_id : Z) (claim_token : string)
    (claimed_at claim_expires_at now restore_due_before : timestamp) : result (claim_db * option job) :=
  raise! ValueError "A Job claim token is required" when claim_token =b "";
  let p := claim_where db now restore_due_before job_id in
  let f := set_claim (Some claim_token) (Some claimed_at) (Some claim_expires_at) in
  Ok (with_jobs db (update_where p f (c_jobs db)), f <$> fetchone p (c_jobs db)).

Definition in_purge_group (vault_id : Z) (group_id : option string) (j : job) : bool :=
  (j_vault_id j =b vault_id) && (bool_decide (j_group_id j = group_id)) && (j_action j =b "cloud-purge").

Definition purge_lead (db : claim_db) (lead_job_id : Z) : option job :=
  fetchone (fun j => (j_id j =b lead_job_id) && (j_action j =b "cloud-purge")) (c_jobs db).

(** [lock_acquired] is the answer of the advisory lock. *)
Definition claim_purge_group (db : claim_db) (lead_job_id : Z) (claim_token : string)
    (claimed_at claim_expires_at now : timestamp) (message message_key : string) (lock_acquired : bool)
  : result (claim_db * list job) :=
  raise! ValueError "A Job claim token is required" when claim_token =b "";
  match purge_lead db lead_job_id with
  | None => Ok (db, [])
  | Some lead =>
      if negb (truthy (j_group_id lead)) then Ok (db, [])
      else if negb lock_acquired then Ok (db, [])
      else
        let rows := sort_by job_le (select (in_purge_group (j_vault_id lead) (j_group_id lead)) (c_jobs db)) in
        let active := List.filter job_is_active rows in
        if bool_decide (active = [])
           || existsb (fun j => negb (claim_is_available now j) || negb (purge_job_is_runnable now j)) active
        then Ok (db, [])
        else
          let ids := map j_id active in
          let f j := set_claim (Some claim_token) (Some claimed_at) (Some claim_expires_at)
                       (set_status "cleaning" (Some message) (Some message_key) claimed_at j) in
          let p j := j_id j ∈b ids in
          Ok (with_jobs db (update_where p f (c_jobs db)),
              sort_by job_le (map f (select p (c_jobs db))))
  end.

(** A lease is live. *)
Definition lease_live (now : timestamp) (j : job) : bool :=
  match j_claim_expires_at j with Some e => now <? e | None => false end.

Definition renew_where (job_id : Z) (claim_token : string) (now : timestamp) (j : job) : bool :=
  (j_id j =b job_id) && (bool_decide (j_claim_token j = Some claim_token))
  && lease_live now j && job_is_active j.

Definition extend_claim (claim_expires_at : timestamp) (j : job) : job :=
  set_claim (j_claim_token j) (j_claimed_at j) (Some claim_expires_at) j.

Definition renew_job_claim (db : claim_db) (job_id : Z) (claim_token : string)
    (now claim_expires_at : timestamp) : claim_db * option job :=
  let p := renew_where job_id claim_token now in
  (with_jobs db (update_where p (extend_claim claim_expires_at) (c_jobs db)),
   extend_claim claim_expires_at <$> fetchone p (c_jobs db)).

Definition renew_group_where (vault_id : Z) (group_id claim_token : string) (now : timestamp) (j : job) : bool :=
  in_purge_group vault_id (Some group_id) j && (j_status j =b "cleaning")
  && (bool_decide (j_claim_token j = Some claim_token)) && lease_live now j.

Definition renew_purge_group_claim (db : claim_db) (vault_id : Z) (group_id claim_token : string)
    (expected_job_ids : list Z) (now claim_expires_at : timestamp) : claim_db * bool :=
  let p := renew_group_where vault_id group_id claim_token now in
  let rows := select p (c_jobs db) in
  (with_jobs db (update_where p (extend_claim claim_expires_at) (c_jobs db)),
   bool_decide (list_to_set (C := gset Z) (map j_id rows) = list_to_set expected_job_ids)).

Definition load_claimed_purge_group (db : claim_db) (items : list cloud_deletion_item)
    (lead_job_id : Z) (claim_token : string) (now : timestamp)
  : list job * list cloud_deletion_item :=
  match purge_lead db lead_job_id with
  | None => ([], [])
  | Some lead =>
      if negb (truthy (j_group_id lead)) then ([], [])
      else
        let all_active := sort_by job_le
          (select (fun j => in_purge_group (j_vault_id lead) (j_group_id lead) j && job_is_active j)
             (c_jobs db)) in
        if bool_decide (all_active = [])
           || existsb (fun j => negb (j_status j =b "cleaning")
                                || negb (bool_decide (j_claim_token j = Some claim_token))
                                || is_none (j_claim_expires_at j) || le_now (j_claim_expires_at j) now)
                all_active
        then ([], [])
        else
          (all_active,
           sort_by (fun a b => cdi_id a <=? cdi_id b)
             (select (fun i => (cdi_job_id i ∈b map j_id all_active)
                               && (cdi_status i ∈b ["pending"; "failed"])) items))
  end.

(** ** Shared lemmas *)
Lemma update_where_keeps {A} (p : A → bool) f l x : x ∈ l → p x = false → x ∈ update_where p f l.
Proof. intros Hx Hp. apply elem_of_update_where. exists x. by rewrite Hp. Qed.

Lemma update_where_changes {A} (p : A → bool) f l x : x ∈ l → p x = true → f x ∈ update_where p f l.
Proof. intros Hx Hp. apply elem_of_update_where. exists x. by rewrite Hp. Qed.

Lemma nonempty_elem {A} (l : list A) : l ≠ [] → ∃ x, x ∈ l.
Proof. destruct l as [|x l]; [done|]. exists x. left. Qed.

(** A condition the assignment does not affect finds the updated row. *)
Lemma fetchone_update {A} (q p : A → bool) f l :
  (∀ x, q (f x) = q x) →
  fetchone q (update_where p f l) = (fun x => if p x then f x else x) <$> fetchone q l.
Proof.
  intros Hq. induction l as [|x l IH]; [done|]. cbn.
  replace (q (if p x then f x else x)) with (q x) by (destruct (p x); auto).
  by destruct (q x).
Qed.

(** Selecting exactly the rows an UPDATE changed. *)
Lemma select_updated {A} (q p : A → bool) f l :
  (∀ x, x ∈ l → if p x then q (f x) = true else q x = false) →
  select q (update_where p f l) = map f (select p l).
Proof.
  induction l as [|x l IH]; intros H; [done|].
  assert (Hx := H x ltac:(left)). assert (IH' := IH ltac:(intros y Hy; apply H; by right)).
  unfold select, update_where in *. cbn. destruct (p x); rewrite Hx; cbn; by rewrite IH'.
Qed.

Lemma same_job_id jobs a b :
  NoDup (map j_id jobs) → a ∈ jobs → b ∈ jobs → j_id a = j_id b → a = b.
Proof.
  intros Hnd Ha Hb Hid.
  assert (H1 : fetchone (fun j => j_id j =b j_id b) jobs = Some a).
  { apply (fetchone_unique j_id); [done| |done|by apply bool_decide_eq_true_2].
    intros r Hr. bsimpl. congruence. }
  assert (H2 : fetchone (fun j => j_id j =b j_id b) jobs = Some b).
  { apply (fetchone_unique j_id); [done| |done|by apply bool_decide_eq_true_2].
    intros r Hr. by bsimpl. }
  congruence.
Qed.

Lemma lease_free_live now j : lease_free now j = true → j_claim_token j ≠ None → lease_live now j = false.
Proof.
  unfold lease_free, lease_live, le_now. destruct (j_claim_token j), (j_claim_expires_at j) as [e|]; try done.
  cbn. intros H _. bsimpl. by apply Z.ltb_ge.
Qed.

Lemma available_live now j :
  claim_is_available now j = true → truthy (j_claim_token j) = true → lease_live now j = false.
Proof.
  unfold claim_is_available, lease_live, le_now. intros H Ht. rewrite Ht in H. cbn in H.
  destruct (j_claim_expires_at j) as [e|]; [|done]. cbn in H. bsimpl. by apply Z.ltb_ge.
Qed.

(** What [claim_purge_group] does when it does not refuse. *)
Definition group_members (db : claim_db) (lead : job) : list job :=
  List.filter job_is_active
    (sort_by job_le (select (in_purge_group (j_vault_id lead) (j_group_id lead)) (c_jobs db))).

Definition claimed_row (claim_token : string) (claimed_at claim_expires_at : timestamp)
    (message message_key : string) (j : job) : job :=
  set_claim (Some claim_token) (Some claimed_at) (Some claim_expires_at)
    (set_status "cleaning" (Some message) (Some message_key) claimed_at j).

Lemma elem_of_group_members db lead j :
  j ∈ group_members db lead ↔
  j ∈ c_jobs db ∧ in_purge_group (j_vault_id lead) (j_group_id lead) j = true ∧ job_is_active j = true.
Proof.
  unfold group_members. rewrite list_elem_of_In, filter_In, <- list_elem_of_In, sort_by_perm, elem_of_select.
  naive_solver.
Qed.

Lemma claim_purge_group_cases db lead_id tok ca ce now m mk lock db' rows :
  claim_purge_group db lead_id tok ca ce now m mk lock = Ok (db', rows) →
  (db' = db ∧ rows = [])
  ∨ ∃ lead, purge_lead db lead_id = Some lead ∧ truthy (j_group_id lead) = true
      ∧ group_members db lead ≠ []
      ∧ (∀ j, j ∈ group_members db lead →
           claim_is_available now j = true ∧ purge_job_is_runnable now j = true)
      ∧ db' = with_jobs db (update_where (fun j => j_id j ∈b map j_id (group_members db lead))
                              (claimed_row tok ca ce m mk) (c_jobs db))
      ∧ rows = sort_by job_le (map (claimed_row tok ca ce m mk)
                 (select (fun j => j_id j ∈b map j_id (group_members db lead)) (c_jobs db))).
Proof.
  unfold claim_purge_group. rewrite raise_if_bind_ok. intros [Ht H]. bsimpl.
  destruct (purge_lead db lead_id) as [lead|] eqn:El; [|inv_ok; simplify_eq; auto].
  destruct (truthy (j_group_id lead)) eqn:Eg; cbn [negb] in H; [|inv_ok; simplify_eq; auto].
  destruct lock; cbn [negb] in H; [|inv_ok; simplify_eq; auto].
  fold (group_members db lead) in H. destruct (_ || _) eqn:Ex in H; [inv_ok; simplify_eq; auto|].
  right. bsimpl. inv_ok. simplify_eq. exists lead. repeat split; try done.
  all: match goal with Hex : existsb _ _ = false, Hj : ?j ∈ group_members _ _ |- _ =>
         apply not_true_iff_false in Hex; rewrite existsb_exists in Hex;
         destruct (claim_is_available now j) eqn:Ea, (purge_job_is_runnable now j) eqn:Er; try done;
         exfalso; apply Hex; exists j; rewrite <- list_elem_of_In, Ea, Er; by split end.
Qed.

Lemma group_ids_members db lead j :
  NoDup (map j_id (c_jobs db)) → j ∈ c_jobs db →
  (j_id j ∈b map j_id (group_members db lead)) = true ↔ j ∈ group_members db lead.
Proof.
  intros Hnd Hj. rewrite bool_decide_eq_true, list_elem_of_In, in_map_iff. split.
  - intros (k & Hk & Hin). apply list_elem_of_In in Hin.
    assert (k = j) as ->; [|done]. apply elem_of_group_members in Hin as [? _].
    by eapply same_job_id.
  - intros H. exists j. by rewrite <- list_elem_of_In.
Qed.

Lemma load_after_claim db lead_id tok ca ce m mk lead items now' :
  NoDup (map j_id (c_jobs db)) → purge_lead db lead_id = Some lead →
  truthy (j_group_id lead) = true → group_members db lead ≠ [] → now' < ce →
  (load_claimed_purge_group
     (with_jobs db (update_where (fun j => j_id j ∈b map j_id (group_members db lead))
                      (claimed_row tok ca ce m mk) (c_jobs db))) items lead_id tok now').1
  = sort_by job_le (map (claimed_row tok ca ce m mk)
      (select (fun j => j_id j ∈b map j_id (group_members db lead)) (c_jobs db))).
Proof.
  intros Hnd Hl Hg Hne Hnow. unfold load_claimed_purge_group, purge_lead. cbn [c_jobs with_jobs].
  rewrite fetchone_update by done. fold (purge_lead db lead_id). rewrite Hl. cbn [fmap option_fmap option_map].
  set (p := fun j => j_id j ∈b map j_id (group_members db lead)).
  set (lead' := if (j_id lead ∈b _) then _ else lead).
  assert (Hlead : j_vault_id lead' = j_vault_id lead ∧ j_group_id lead' = j_group_id lead)
    by (unfold lead'; by case_bool_decide).
  destruct Hlead as [-> ->]. rewrite Hg. cbn [negb].
  rewrite (select_updated _ p (claimed_row tok ca ce m mk)).
  2:{ intros x Hx. destruct (p x) eqn:Ep.
      - apply group_ids_members in Ep; [|done|done]. apply elem_of_group_members in Ep as (_ & Hin & _).
        unfold in_purge_group in *. cbn. bsimpl. rewrite !bool_decide_eq_true_2 by done. done.
      - apply not_true_iff_false. intros Hq. bsimpl. apply not_true_iff_false in Ep. apply Ep.
        apply group_ids_members; [done..|]. by apply elem_of_group_members. }
  rewrite bool_decide_eq_false_2.
  2:{ destruct (nonempty_elem _ Hne) as [j Hj]. intros Hnil.
      assert (Hjobs := proj1 (proj1 (elem_of_group_members db lead j) Hj)).
      apply (not_elem_of_nil (claimed_row tok ca ce m mk j)). rewrite <- Hnil, sort_by_perm.
      apply list_elem_of_In, in_map, list_elem_of_In, elem_of_select. split; [done|].
      apply group_ids_members; [done..|]. done. }
  cbn [orb]. replace (existsb _ _) with false; [done|]. symmetry. apply not_true_iff_false.
  rewrite existsb_exists. intros (x & Hx & Hbad). apply list_elem_of_In in Hx.
  rewrite sort_by_perm, list_elem_of_In, in_map_iff in Hx. destruct Hx as (y & <- & _).
  cbn in Hbad. rewrite !bool_decide_eq_true_2 in Hbad by done. cbn in Hbad. bsimpl. lia.
Qed.

(** ** Steps *)
Inductive claim_op :=
  | OpClaim (job_id : Z) (claim_token : string) (claimed_at claim_expires_at now restore_due_before : timestamp)
  | OpClaimGroup (lead_job_id : Z) (claim_token : string) (claimed_at claim_expires_at now : timestamp)
      (message message_key : string) (lock_acquired : bool)
  | OpRenew (job_id : Z) (claim_token : string) (now claim_expires_at : timestamp)
  | OpRenewGroup (vault_id : Z) (group_id claim_token : string) (expected : list Z)
      (now claim_expires_at : timestamp).

Definition op_token (op : claim_op) : string :=
  match op with
  | OpClaim _ t _ _ _ _ | OpClaimGroup _ t _ _ _ _ _ _ | OpRenew _ t _ _ | OpRenewGroup _ _ t _ _ _ => t
  end.

Definition op_now (op : claim_op) : timestamp :=
  match op with
  | OpClaim _ _ _ _ now _ | OpClaimGroup _ _ _ _ now _ _ _ | OpRenew _ _ now _
  | OpRenewGroup _ _ _ _ now _ => now
  end.

Definition run_claim_op (db : claim_db) (op : claim_op) : claim_db :=
  match op with
  | OpClaim i t ca ce now r =>
      match claim_job db i t ca ce now r with Ok (db', _) => db' | Raise _ => db end
  | OpClaimGroup i t ca ce now m mk l =>
      match claim_purge_group db i t ca ce now m mk l with Ok (db', _) => db' | Raise _ => db end
  | OpRenew i t now ce => (renew_job_claim db i t now ce).1
  | OpRenewGroup v g t e now ce => (renew_purge_group_claim db v g t e now ce).1
  end.

(** C4: a live lease cannot be stolen.  While a Job's lease has not expired at the
    time of the operation, no claim, group claim or renewal by another worker
    (any other token) changes the Job's row in any way. *)
Theorem live_lease_is_exclusive db op j tok :
  NoDup (map j_id (c_jobs db)) → j ∈ c_jobs db →
  j_claim_token j = Some tok → tok ≠ "" → lease_live (op_now op) j = true → op_token op ≠ tok →
  j ∈ c_jobs (run_claim_op db op).
Proof.
  intros Hnd Hj Ht Hne Hlive Hother.
  destruct op as [i t ca ce now r|i t ca ce now m mk l|i t now ce|v g t e now ce]; cbn in *.
  - unfold claim_job. destruct (t =b ""); [done|]. cbn. apply update_where_keeps; [done|].
    apply not_true_iff_false. intros Hw. unfold claim_where, claimable_job_predicate in Hw. bsimpl.
    match goal with H : lease_free now j = true |- _ => apply lease_free_live in H; congruence end.
  - destruct (claim_purge_group db i t ca ce now m mk l) as [[db' rows]|] eqn:E; [|done].
    apply claim_purge_group_cases in E as [[-> _]|(lead & _ & _ & _ & Hall & -> & _)]; [done|].
    apply update_where_keeps; [done|]. apply not_true_iff_false. intros Hin.
    apply group_ids_members in Hin; [|done|done]. destruct (Hall j Hin) as [Ha _].
    apply available_live in Ha; [congruence|]. rewrite Ht. by destruct tok.
  - apply update_where_keeps; [done|]. unfold renew_where. rewrite Ht.
    rewrite (bool_decide_eq_false_2 (Some tok = Some t)) by congruence. by rewrite andb_false_r.
  - apply update_where_keeps; [done|]. unfold renew_group_where. rewrite Ht.
    rewrite (bool_decide_eq_false_2 (Some tok = Some t)) by congruence. by rewrite andb_false_r.
Qed.

(** The lease of a purge group is all or nothing.  Either nothing changes and no
    row is returned, or every active Job of the group is now [cleaning] under the
    new token, exactly those Jobs are returned, every other Job is untouched, and
    until the lease expires [load_claimed_purge_group] finds the whole group. *)
Theorem purge_group_claim_atomic db lead_id tok ca ce now m mk lock db' rows :
  NoDup (map j_id (c_jobs db)) →
  claim_purge_group db lead_id tok ca ce now m mk lock = Ok (db', rows) →
  (db' = db ∧ rows = [])
  ∨ ∃ lead, purge_lead db lead_id = Some lead ∧ rows ≠ []
      ∧ (∀ j, j ∈ c_jobs db →
           if in_purge_group (j_vault_id lead) (j_group_id lead) j && job_is_active j
           then claimed_row tok ca ce m mk j ∈ c_jobs db' ∧ claimed_row tok ca ce m mk j ∈ rows
           else j ∈ c_jobs db')
      ∧ (∀ r, r ∈ rows → r ∈ c_jobs db' ∧ j_status r = "cleaning" ∧ j_claim_token r = Some tok)
      ∧ (∀ items now', now' < ce → (load_claimed_purge_group db' items lead_id tok now').1 = rows).
Proof.
  intros Hnd [H|(lead & Hl & Ht & Hne & Hall & -> & ->)]%claim_purge_group_cases; [by left|].
  right. exists lead. split; [done|]. split; [|split; [|split]].
  - destruct (nonempty_elem _ Hne) as [j Hj]. intros Hnil. apply (not_elem_of_nil (claimed_row tok ca ce m mk j)). rewrite <- Hnil, sort_by_perm.
    apply list_elem_of_In, in_map, list_elem_of_In, elem_of_select.
    assert (Hjobs := proj1 (proj1 (elem_of_group_members db lead j) Hj)).
    split; [done|]. by apply group_ids_members.
  - intros j Hj. destruct (_ && _) eqn:Em.
    + assert (Hin : j_id j ∈b map j_id (group_members db lead) = true).
      { apply group_ids_members; [done..|]. apply elem_of_group_members. bsimpl. done. }
      split; [by apply (update_where_changes (fun j => j_id j ∈b _) (claimed_row tok ca ce m mk))|].
      rewrite sort_by_perm. apply list_elem_of_In, in_map, list_elem_of_In, elem_of_select. done.
    + apply update_where_keeps; [done|]. apply not_true_iff_false. rewrite group_ids_members by done.
      rewrite elem_of_group_members. intros (_ & H1 & H2). by rewrite H1, H2 in Em.
  - intros r Hr. rewrite sort_by_perm, list_elem_of_In, in_map_iff in Hr.
    destruct Hr as (j & <- & Hj). apply list_elem_of_In, elem_of_select in Hj as [Hj Hp].
    split; [|done]. by apply (update_where_changes (fun j => j_id j ∈b _) (claimed_row tok ca ce m mk)).
  - intros items now' Hnow. by apply load_after_claim.
Qed.

(** ** The scheduler's list, the conditional lease and the metric agree *)
Lemma list_claimable_elem db now r limit j :
  j ∈ list_claimable_jobs db now r limit → j ∈ c_jobs db ∧ schedulable db now r j = true.
Proof.
  unfold list_claimable_jobs. destruct (limit <=? 0); [by intros ?%not_elem_of_nil|].
  intros Hj. assert (Hin : j ∈ sort_by job_le (select (schedulable db now r) (c_jobs db))).
  { rewrite <- (take_drop (Z.to_nat limit)). apply elem_of_app. by left. }
  by rewrite sort_by_perm, elem_of_select in Hin.
Qed.

Lemma purge_peer_not_blocking now j p :
  purge_peer_blocks now j p = false →
  in_purge_group (j_vault_id j) (j_group_id j) p = true → job_is_active p = true →
  claim_is_available now p = true ∧ purge_job_is_runnable now p = true.
Proof.
  unfold purge_peer_blocks, in_purge_group. intros Hb Hg Ha. bsimpl.
  rewrite !(bool_decide_eq_true_2 (_ = _)) in Hb by done. rewrite Ha in Hb. cbn in Hb.
  apply orb_false_iff in Hb as [Hs Hc]. split.
  - unfold claim_is_available, le_now. destruct (j_claim_token p) as [t|]; [|done].
    destruct (j_claim_expires_at p) as [e|]; [|by rewrite orb_true_r]. cbn in Hc. bsimpl.
    by rewrite (proj2 (Z.leb_le _ _)), orb_true_r by done.
  - unfold purge_job_is_runnable. by destruct (j_status p =b "queued"), ((j_status p =b "pending_delay") && le_now (j_pending_until p) now).
Qed.

Lemma claimable_purge_claims db now r j tok ca ce m mk :
  NoDup (map j_id (c_jobs db)) → j ∈ c_jobs db → j_action j = "cloud-purge" →
  j_group_id j ≠ Some "" → claimable_job_predicate db now r j = true → tok ≠ "" →
  ∃ db' rows, claim_purge_group db (j_id j) tok ca ce now m mk true = Ok (db', rows)
    ∧ j_id j ∈ map j_id rows.
Proof.
  intros Hnd Hj Ha Hg Hp Ht. unfold claimable_job_predicate in Hp. bsimpl.
  rewrite Ha in Hp. cbn in Hp. apply andb_true_iff in Hp as [Hgs Hex]. bsimpl.
  rewrite exists_row_false in Hex.
  assert (Hlead : purge_lead db (j_id j) = Some j).
  { apply (fetchone_unique j_id); [done| |done|].
    - intros x Hx. by bsimpl.
    - by rewrite !bool_decide_eq_true_2. }
  assert (Htr : truthy (j_group_id j) = true) by (by destruct (j_group_id j) as [[]|]).
  assert (Hself : in_purge_group (j_vault_id j) (j_group_id j) j = true)
    by (unfold in_purge_group; by rewrite !bool_decide_eq_true_2).
  assert (Hact : job_is_active j = true).
  { match goal with H : claimable_job_status _ _ _ = true |- _ => rename H into Hs end.
    unfold claimable_job_status in Hs. unfold job_is_active.
    apply negb_true_iff, bool_decide_eq_false. intros Hin. unfold TERMINAL_JOB_STATUSES in Hin.
    repeat (apply elem_of_cons in Hin as [Hin|Hin]; [rewrite Hin in Hs; cbn in Hs;
      rewrite !andb_false_r in Hs; done|]). by apply not_elem_of_nil in Hin. }
  assert (Hmem : j ∈ group_members db j) by (by apply elem_of_group_members).
  unfold claim_purge_group. rewrite bool_decide_eq_false_2 by done. cbn [raise_if mbind result_bind].
  rewrite Hlead, Htr. cbn [negb]. fold (group_members db j).
  rewrite bool_decide_eq_false_2 by (intros E; rewrite E in Hmem; by apply not_elem_of_nil in Hmem).
  replace (existsb _ (group_members db j)) with false.
  - do 2 eexists. split; [done|]. rewrite sort_by_perm, map_map.
    rewrite list_elem_of_In, in_map_iff. exists j. split; [done|].
    apply list_elem_of_In, elem_of_select. split; [done|]. by apply group_ids_members.
  - symmetry. apply not_true_iff_false. rewrite existsb_exists. intros (x & Hx & Hbad).
    apply list_elem_of_In, elem_of_group_members in Hx as (Hxj & Hxg & Hxa).
    destruct (purge_peer_not_blocking now j x) as [Hx1 Hx2]; [by apply Hex|done..|].
    by rewrite Hx1, Hx2 in Hbad.
Qed.

(** The scheduler offers only work a worker can acquire.  Every Job that
    [list_claimable_jobs] returns can be leased at that time: an ordinary Job by
    [claim_job], a cloud-purge Job by [claim_purge_group] together with its whole
    group; and a lease just taken keeps every other claim out until it expires. *)
Theorem listed_jobs_are_acquirable db now r limit j tok ca ce m mk :
  NoDup (map j_id (c_jobs db)) → j ∈ list_claimable_jobs db now r limit →
  j_group_id j ≠ Some "" → tok ≠ "" →
  if j_action j =b "cloud-purge" then
    ∃ db' rows, claim_purge_group db (j_id j) tok ca ce now m mk true = Ok (db', rows)
      ∧ j_id j ∈ map j_id rows
  else
    ∃ db', claim_job db (j_id j) tok ca ce now r
             = Ok (db', Some (set_claim (Some tok) (Some ca) (Some ce) j))
      ∧ ∀ tok' ca' ce' now' r', now' < ce → tok' ≠ "" →
          ∃ db'', claim_job db' (j_id j) tok' ca' ce' now' r' = Ok (db'', None).
Proof.
  intros Hnd [Hj Hs]%list_claimable_elem Hg Ht. unfold schedulable in Hs.
  destruct (vault_of db (j_vault_id j)); [|done]. apply andb_true_iff in Hs as [_ Hp].
  case_bool_decide as Ha; [by eapply claimable_purge_claims|].
  unfold claim_job at 1. rewrite bool_decide_eq_false_2 by done. cbn [raise_if mbind result_bind].
  eexists. split.
  - f_equal. f_equal. replace (fetchone _ _) with (Some j); [done|]. symmetry.
    apply (fetchone_unique j_id); [done| |done|].
    + intros x Hx. unfold claim_where in Hx. by bsimpl.
    + unfold claim_where. by rewrite Hp, bool_decide_eq_true_2, bool_decide_eq_false_2.
  - intros tok' ca' ce' now' r' Hnow Ht'. unfold claim_job. rewrite bool_decide_eq_false_2 by done.
    cbn [raise_if mbind result_bind]. eexists. f_equal. f_equal.
    replace (fetchone _ _) with (@None job); [done|]. symmetry. apply fetchone_none.
    intros x (y & Hy & ->)%elem_of_update_where. apply not_true_iff_false. intros Hx.
    destruct (claim_where db now r (j_id j) y) eqn:Ey.
    + unfold claim_where, claimable_job_predicate in Hx. bsimpl.
      match goal with H : lease_free now' _ = true |- _ => unfold lease_free in H; cbn in H; bsimpl; lia end.
    + assert (y = j) as ->.
      { eapply same_job_id; [done..|]. unfold claim_where in Hx. by bsimpl. }
      unfold claim_where in Ey. by rewrite Hp, bool_decide_eq_true_2, bool_decide_eq_false_2 in Ey.
Qed.

(** The backlog metric counts exactly the Jobs the scheduler could be given: it
    is the length of the candidate list when the list is not cut by its limit. *)
Theorem queue_depth_is_candidate_count db now r limit :
  Z.of_nat (length (c_jobs db)) ≤ limit → 0 < limit →
  claimable_queue_depth db now r = Z.of_nat (length (list_claimable_jobs db now r limit)).
Proof.
  intros Hl H0. unfold claimable_queue_depth, list_claimable_jobs.
  rewrite (proj2 (Z.leb_gt _ _)) by done.
  assert (Hlen : (length (sort_by job_le (select (schedulable db now r) (c_jobs db))) ≤ length (c_jobs db))%nat).
  { rewrite length_sort_by. apply filter_length_le. }
  rewrite take_ge, length_sort_by by lia. apply countZ_length.
Qed.

(** ** Witnesses *)
Definition purge_job (id : Z) : job :=
  {| j_id := id; j_vault_id := 1; j_vault_file_id := "f"; j_archive_version_id := None;
     j_path := "p"; j_action := "cloud-purge"; j_status := "pending_delay"; j_origin := "manual";
     j_message := None; j_message_key := None; j_message_params := None; j_requested_by := Some 1;
     j_requested_at := 0; j_updated_at := 0; j_group_id := Some "g"; j_group_path := None;
     j_total_bytes := 0; j_transferred_bytes := 0; j_reason := None; j_confirmation_phrase := None; j_restore_tier := None;
     j_restore_days := None; j_target_storage_class := None; j_upload_verification_requested := None;
     j_pending_until := Some 5; j_retry_after := None; j_claim_token := None; j_claimed_at := None;
     j_claim_expires_at := None; j_upload := no_upload |}.

Definition w_claim_db (jobs : list job) : claim_db :=
  {| c_jobs := jobs;
     c_vaults := [{| va_id := 1; va_enabled := true; va_decommission_state := Some "active";
                     va_relocation_state := "ready"; va_source_root := "/src"; va_name := "v";
                     va_s3_prefix := "vaults/v"; va_root_released_at := None;
                     va_decommissioned_at := None; va_root_identity := None;
                     va_root_identity_version := None |}];
     c_policies := [] |}.

Definition leased_job : job := set_claim (Some "A") (Some 0) (Some 100) (queued_job 1 1 0).

Lemma live_lease_is_exclusive_witness :
  leased_job ∈ c_jobs (run_claim_op (w_claim_db [leased_job]) (OpClaim 1 "B" 50 150 50 0)).
Proof.
  apply (live_lease_is_exclusive _ _ _ "A").
  - apply NoDup_singleton.
  - by left.
  - reflexivity.
  - discriminate.
  - reflexivity.
  - discriminate.
Defined.

Definition w_purge_claim : claim_db * list job :=
  match claim_purge_group (w_claim_db [purge_job 1; purge_job 2; queued_job 3 1 0]) 2 "A" 10 100 10 "m" "k" true with
  | Ok r => r
  | Raise _ => (w_claim_db [], [])
  end.

Lemma purge_group_claim_atomic_witness :
  (load_claimed_purge_group w_purge_claim.1 [] 2 "A" 50).1 = w_purge_claim.2.
Proof.
  destruct (purge_group_claim_atomic (w_claim_db [purge_job 1; purge_job 2; queued_job 3 1 0]) 2 "A" 10 100 10
              "m" "k" true w_purge_claim.1 w_purge_claim.2)
    as [[_ H]|(lead & _ & _ & _ & _ & H)].
  - cbn. repeat (constructor; [set_solver|]). constructor.
  - vm_compute. reflexivity.
  - exfalso. vm_compute in H. discriminate.
  - by apply H.
Defined.

Lemma listed_jobs_are_acquirable_witness :
  ∃ db', claim_job (w_claim_db [queued_job 3 1 0]) 3 "A" 10 100 10 0
         = Ok (db', Some (set_claim (Some "A") (Some 10) (Some 100) (queued_job 3 1 0))).
Proof.
  destruct (listed_jobs_are_acquirable (w_claim_db [queued_job 3 1 0]) 10 0 5 (queued_job 3 1 0) "A" 10 100 "m" "k")
    as (db' & H & _).
  - apply NoDup_singleton.
  - by left.
  - discriminate.
  - discriminate.
  - by exists db'.
Defined.

Lemma queue_depth_is_candidate_count_witness :
  claimable_queue_depth (w_claim_db [purge_job 1; queued_job 3 1 0]) 10 0
  = Z.of_nat (length (list_claimable_jobs (w_claim_db [purge_job 1; queued_job 3 1 0]) 10 0 9)).
Proof. apply queue_depth_is_candidate_count; cbn; lia. Defined.
