(* ===== verification/DirtyMarks.v ===== *)
(** * DirtyMarks: invalidation of folder roll-ups

    Models the marking functions of [src/app/services/directory_aggregates.py]
    (lines 172-323): every catalog mutation marks the ancestor folders of the
    files it touches; a mark made twice in a transaction is kept once. *)
From S2P Require Import Prelude Sql PyString Schema ProtectionStates DirectoryAggregates.

(** [INSERT ... ON CONFLICT DO NOTHING]. *)
Definition persist_dirty_directory (vault_id : Z) (directory : string) (db : catalog) : catalog :=
  if (vault_id, directory) ∈b t_dirty db then db
  else set_dirty (t_dirty db ++ [(vault_id, directory)]) db.

Definition persist_all (vault_id : Z) (directories : list string) (db : catalog) : catalog :=
  foldl (fun db d => persist_dirty_directory vault_id d db) db directories.

Definition mark_path_dirty (vault_id : Z) (path : option string) (db : catalog) : catalog :=
  if negb (truthy path) then db
  else persist_all vault_id (ancestor_directories (or_default path "")) db.

Definition mark_directory_dirty (vault_id : Z) (directory : option string) (db : catalog) : catalog :=
  match directory with
  | None => db
  | Some directory =>
      let normalized := strip_slash (py_strip directory) in
      if normalized =b "" then db
      else persist_all vault_id (ancestor_directories (normalized +:+ "/_"))
             (persist_dirty_directory vault_id normalized db)
  end.

Definition mark_file_id_dirty (vault_id : Z) (vault_file_id : option string) (db : catalog) : catalog :=
  if negb (truthy vault_file_id) then db
  else
    let file_id := or_default vault_file_id "" in
    match fetchone (fun f => (vf_id f =b file_id) && (vf_vault_id f =b vault_id)) (t_files db) with
    | None => db
    | Some _ =>
        match current_path_of (t_paths db) file_id with
        | Some p => mark_path_dirty vault_id (Some (fp_path p)) db
        | None => db
        end
    end.

(** [sorted({...})] over the ancestors of all paths. *)
Definition mark_paths_dirty (vault_id : Z) (paths : list (option string)) (db : catalog) : catalog :=
  let directories := flat_map (fun p => if truthy p then ancestor_directories (or_default p "") else []) paths in
  persist_all vault_id (sort_by String.leb (remove_dups directories)) db.

Definition invalidate_for_vault_file (vault_id : Z) (vault_file_id : option string) (db : catalog) : catalog :=
  mark_file_id_dirty vault_id vault_file_id db.

Definition invalidate_for_confirmed_rename (vault_id : Z)
    (old_path provisional_path new_path : option string) (db : catalog) : catalog :=
  mark_paths_dirty vault_id [old_path; provisional_path; new_path] db.

Definition invalidate_for_vault_files (items : list (Z * string)) (db : catalog) : catalog :=
  foldl (fun db i => if i.2 =b "" then db else mark_file_id_dirty i.1 (Some i.2) db) db (remove_dups items).

Definition invalidate_for_archive_version_ids (version_ids : list string) (db : catalog) : catalog :=
  let rows := omap (fun v => p ← current_path_of (t_paths db) (av_vault_file_id v);
                             Some (av_vault_id v, fp_path p))
                (select (fun v => av_id v ∈b version_ids) (t_versions db)) in
  foldl (fun db r => mark_path_dirty r.1 (Some r.2) db) db (remove_dups rows).

(** ** Marks touch nothing but the marks *)
Definition same_but_dirty (a b : catalog) : Prop := set_dirty [] a = set_dirty [] b.

#[export] Instance same_but_dirty_refl : Reflexive same_but_dirty.
Proof. intros a. done. Qed.
#[export] Instance same_but_dirty_trans : Transitive same_but_dirty.
Proof. intros a b c Hab Hbc. unfold same_but_dirty in *. congruence. Qed.

Lemma persist_same v d db : same_but_dirty (persist_dirty_directory v d db) db.
Proof. unfold persist_dirty_directory. by case_bool_decide. Qed.

Lemma persist_all_same v ds db : same_but_dirty (persist_all v ds db) db.
Proof.
  revert db; induction ds as [|d ds IH]; intros db; [done|]. cbn.
  etrans; [apply IH|apply persist_same].
Qed.

Lemma mark_path_same v p db : same_but_dirty (mark_path_dirty v p db) db.
Proof. unfold mark_path_dirty. destruct (negb _); [done|apply persist_all_same]. Qed.

Lemma mark_file_same v f db : same_but_dirty (mark_file_id_dirty v f db) db.
Proof.
  unfold mark_file_id_dirty. destruct (negb _); [done|]. destruct (fetchone _ _); [|done].
  destruct (current_path_of _ _); [apply mark_path_same|done].
Qed.

Lemma foldl_same {A} (f : catalog → A → catalog) l db :
  (∀ db x, same_but_dirty (f db x) db) → same_but_dirty (foldl f db l) db.
Proof.
  intros Hf. revert db; induction l as [|x l IH]; intros db; [done|]. cbn. etrans; [apply IH|apply Hf].
Qed.

Lemma invalidate_versions_same ids db : same_but_dirty (invalidate_for_archive_version_ids ids db) db.
Proof. apply foldl_same. intros; apply mark_path_same. Qed.

(** The tables of two catalogs that differ only in marks agree. *)
Lemma same_jobs a b : same_but_dirty a b → t_jobs a = t_jobs b.
Proof. intros H. by injection H. Qed.
Lemma same_items a b : same_but_dirty a b → t_items a = t_items b.
Proof. intros H. by injection H. Qed.
Lemma same_versions a b : same_but_dirty a b → t_versions a = t_versions b.
Proof. intros H. by injection H. Qed.
Lemma same_files a b : same_but_dirty a b → t_files a = t_files b.
Proof. intros H. by injection H. Qed.
Lemma same_vaults a b : same_but_dirty a b → t_vaults a = t_vaults b.
Proof. intros H. by injection H. Qed.
Lemma same_copies a b : same_but_dirty a b → t_copies a = t_copies b.
Proof. intros H. by injection H. Qed.
Lemma same_paths a b : same_but_dirty a b → t_paths a = t_paths b.
Proof. intros H. by injection H. Qed.

Lemma elem_of_persist_all v ds db m :
  m ∈ t_dirty (persist_all v ds db) ↔ m ∈ t_dirty db ∨ ∃ d, d ∈ ds ∧ m = (v, d).
Proof.
  revert db; induction ds as [|d ds IH]; intros db; cbn [persist_all foldl].
  - set_solver.
  - fold (persist_all v ds (persist_dirty_directory v d db)). rewrite IH.
    unfold persist_dirty_directory. case_bool_decide; cbn; set_solver.
Qed.

(** A changed file marks exactly its ancestor folders.  After
    [mark_file_id_dirty] the marks are the earlier ones plus, for the Vault, every
    proper folder prefix of the file's current path, and no other table changed. *)
Theorem mark_file_marks_ancestors db vault_id f p :
  f ∈ t_files db → vf_vault_id f = vault_id → vf_id f ≠ "" →
  current_path_of (t_paths db) (vf_id f) = Some p → canonical (fp_path p) → fp_path p ≠ "" →
  let db' := mark_file_id_dirty vault_id (Some (vf_id f)) db in
  same_but_dirty db' db
  ∧ ∀ v d, (v, d) ∈ t_dirty db'
      ↔ (v, d) ∈ t_dirty db ∨ v = vault_id ∧ ∃ rest, fp_path p = d +:+ "/" +:+ rest.
Proof.
  intros Hf Hv Hne Hp Hc Hpne db'. split; [apply mark_file_same|]. intros v d.
  unfold db', mark_file_id_dirty. replace (truthy (Some (vf_id f))) with true by (by destruct (vf_id f)).
  cbn [negb or_default].
  destruct (fetchone _ (t_files db)) eqn:E.
  2:{ exfalso. rewrite fetchone_none in E. specialize (E f Hf).
      by rewrite !bool_decide_eq_true_2 in E by done. }
  rewrite Hp. unfold mark_path_dirty. replace (truthy (Some (fp_path p))) with true by (by destruct (fp_path p)).
  cbn [negb or_default]. rewrite elem_of_persist_all. setoid_rewrite elem_of_ancestors; [|done].
  naive_solver.
Qed.

Definition w_marks : catalog :=
  {| t_vaults := [];
     t_files := [{| vf_id := "f"; vf_vault_id := 1; vf_status := Active; vf_created_at := 0;
                    vf_retired_at := None |}];
     t_paths := [{| fp_vault_file_id := "f"; fp_vault_id := 1; fp_path := "a/b.txt";
                    fp_valid_from := 0; fp_valid_to := None |}];
     t_versions := []; t_markers := []; t_copies := []; t_jobs := []; t_items := [];
     t_stops := []; t_policies := []; t_health := []; t_audit := []; t_dirty := []; t_rebuilds := []; t_incidents := [];
     t_outbox := [] |}.

Lemma mark_file_marks_ancestors_witness :
  (1, "a") ∈ t_dirty (mark_file_id_dirty 1 (Some "f") w_marks).
Proof.
  apply (mark_file_marks_ancestors w_marks 1
           {| vf_id := "f"; vf_vault_id := 1; vf_status := Active; vf_created_at := 0; vf_retired_at := None |}
           {| fp_vault_file_id := "f"; fp_vault_id := 1; fp_path := "a/b.txt"; fp_valid_from := 0; fp_valid_to := None |}).
  - by left.
  - reflexivity.
  - discriminate.
  - reflexivity.
  - reflexivity.
  - discriminate.
  - right. split; [reflexivity|]. by exists "b.txt".
Defined.
