(* ===== verification/CloudDeletion.v ===== *)
(** * CloudDeletion: the seven-day cloud deletion workflow

    Models [src/app/services/cloud_deletion.py] on the shared [catalog]: the
    selection, the checks, the capture of exact versions, cancellation, the
    re-validation before any delete call, and the bookkeeping afterwards.  The
    operating system is outside the repository: [os_view] holds the answers of
    [open]/[stat] below a directory handle and of the volume and root-identity
    probes.  Times are instants, so the check that the request carries a time
    zone has no counterpart. *)
From S2P Require Import Prelude Sql PyString VaultPaths Schema ProtectionStates DirectoryAggregates JobScheduler JobClaims DirtyMarks.

Definition DELETION_DELAY_SECONDS : Z := 7 * 24 * 60 * 60.

Definition lock_vault (db : catalog) (vault_id : Z) : result vault :=
  match fetchone (fun v => va_id v =b vault_id) (t_vaults db) with
  | Some v => Ok v
  | None => Raise (CloudDeletionError "Vault not found")
  end.

(** ** Proof of local absence *)
Inductive os_answer (A : Type) := Found (a : A) | NotFound | OsError.
Arguments Found {A} a.
Arguments NotFound {A}.
Arguments OsError {A}.

Record os_view := {
  handle : Type;
  os_slash : os_answer handle;                               (* [os.open("/")] *)
  os_open : handle → string → os_answer handle;              (* [os.open(part, flags, dir_fd=h)] *)
  os_stat : handle → string → os_answer unit;                (* [os.stat(name, dir_fd=h)] *)
  os_device : handle → Z;                                    (* [os.fstat(h).st_dev] *)
  os_is_mount : handle → bool;                               (* [source_layout.path_is_mount] *)
  os_opened_identity : handle → os_answer string;            (* [opened_root_identity] *)
  os_root_identity : string → os_answer string;              (* [vault_relocation.root_identity] *)
  os_access_before : string → bool;                          (* [vault_local_access(...)] at the start *)
  os_access_after : string → bool;                           (* ... and at the end of the check *)
}.

Definition ROOT_IDENTITY_VERSION : string := "linux-stat-dir-v1".

Section absence.
Context (os : os_view).

(** An [OSError] is turned into a refusal. *)
Definition cannot_confirm {A} : result A :=
  Raise (CloudDeletionError "Local absence cannot be confirmed").

Definition or_refuse {A} (r : os_answer A) : result A :=
  match r with Found a => Ok a | NotFound | OsError => cannot_confirm end.

(** Opening the root part by part. *)
Fixpoint open_parts (h : handle os) (parts : list string) : result (handle os) :=
  match parts with
  | [] => Ok h
  | p :: parts => child ← or_refuse (os_open os h p); open_parts child parts
  end.

(** The [for part in relative.parts[:-1]] loop with its [break]/[else]. *)
Fixpoint absent_below (root parent : handle os) (dirs : list string) (name : string) : result unit :=
  match dirs with
  | [] =>
      match os_stat os parent name with
      | NotFound => Ok tt
      | Found _ => Raise (CloudDeletionError "A selected file is present on the server")
      | OsError => cannot_confirm
      end
  | d :: dirs =>
      match os_open os parent d with
      | NotFound => Ok tt
      | OsError => cannot_confirm
      | Found child =>
          raise! CloudDeletionError "Nested mount prevents confirming absence" when
            negb (os_device os child =? os_device os root) || os_is_mount os child;
          absent_below root child dirs name
      end
  end.

Definition valid_relative (path : string) : bool :=
  (path <>b "") && negb (posix_is_absolute path) && negb (".." ∈b posix_parts path)
  && (as_posix (posix_parts path) =b path).

Definition require_path_absence (root : handle os) (path : string) : result unit :=
  raise! CloudDeletionError "Invalid file path" when negb (valid_relative path);
  let parts := posix_parts path in
  absent_below root root (removelast parts) (or_default (last parts) "").

Definition require_local_absence (vault : vault) (paths : list string) : result unit :=
  raise! CloudDeletionError "Local absence cannot be confirmed: reconnect the Source Volume" when
    negb (os_access_before os (va_source_root vault)) || (va_relocation_state vault <>b "ready");
  raise! CloudDeletionError "Vault root is not absolute" when
    negb (posix_is_absolute (va_source_root vault));
  slash_fd ← or_refuse (os_slash os);
  root ← open_parts slash_fd (posix_parts (va_source_root vault));
  opened ← (if bool_decide (va_root_identity_version vault = Some ROOT_IDENTITY_VERSION)
               && truthy (va_root_identity vault)
            then opened ← or_refuse (os_opened_identity os root); Ok (Some opened)
            else Ok None);
  raise! CloudDeletionError "Vault root identity changed" when
    negb (bool_decide (opened ≠ None ∧ opened = va_root_identity vault));
  _ ← for_each (require_path_absence root) paths;
  now_identity ← or_refuse (os_root_identity os (va_source_root vault));
  raise! CloudDeletionError "Vault root changed during absence check" when
    negb (bool_decide (Some now_identity = va_root_identity vault));
  raise_if (negb (os_access_after os (va_source_root vault)))
    (CloudDeletionError "Source Volume changed during absence check").
End absence.

(** ** Selection *)
Record selected_file := {
  sf_file_id : string;
  sf_path : option string;
  sf_presence : option presence;
  sf_cloud_only_version_id : option string;
  sf_version : option archive_version;
}.

Definition select_columns (db : catalog) (f : vault_file) : selected_file :=
  let lc := local_copy_of (t_copies db) (vf_id f) in
  {| sf_file_id := vf_id f;
     sf_path := fp_path <$> current_path_of (t_paths db) (vf_id f);
     sf_presence := lc_presence <$> lc;
     sf_cloud_only_version_id := lc ≫= lc_cloud_only_version_id;
     sf_version := latest_version (t_versions db) (vf_id f) |}.

(** [ORDER BY fp.path, vf.id], NULL paths last. *)
Definition selected_le (a b : selected_file) : bool :=
  match sf_path a, sf_path b with
  | Some p, Some q =>
      if p =b q then String.leb (sf_file_id a) (sf_file_id b) else String.leb p q
  | Some _, None => true
  | None, Some _ => false
  | None, None => String.leb (sf_file_id a) (sf_file_id b)
  end.

Definition path_selected (paths : list string) (is_directory : bool) (row : selected_file) : bool :=
  match sf_path row with
  | None => false
  | Some p =>
      existsb (fun path => (p =b path) || (is_directory && like (escape_like path +:+ "/%") p)) paths
  end.

Definition selected_files (db : catalog) (vault_id : Z) (paths : list string)
    (is_directory whole_vault : bool) : result (list selected_file) :=
  raise! CloudDeletionError "Select valid relative file paths" when
    negb whole_vault && ((bool_decide (paths = [])) || negb (forallb valid_relative paths));
  let rows := map (select_columns db) (select (fun f => vf_vault_id f =b vault_id) (t_files db)) in
  let keep row := if whole_vault then is_some (sf_version row) else path_selected paths is_directory row in
  Ok (sort_by selected_le (List.filter keep rows)).

(** An exact target in the cloud: a version or a delete marker. *)
Record cloud_target := {
  ct_is_version : bool;
  ct_id : string;
  ct_object_key : option string;
  ct_provider_version_id : option string;
  ct_size : Z;
}.

Definition version_target (v : archive_version) : cloud_target :=
  {| ct_is_version := true; ct_id := av_id v; ct_object_key := av_object_key v;
     ct_provider_version_id := av_provider_version_id v; ct_size := or_default (av_size v) 0 |}.

Definition marker_target (m : delete_marker) : cloud_target :=
  {| ct_is_version := false; ct_id := dm_id m; ct_object_key := Some (dm_object_key m);
     ct_provider_version_id := Some (dm_provider_version_id m); ct_size := 0 |}.

Definition versions_of (db : catalog) (file_id : string) : list archive_version :=
  sort_by (fun a b => av_version_number a <=? av_version_number b)
    (select (fun v => (av_vault_file_id v =b file_id) && (av_availability v <>b Purged)) (t_versions db)).

Definition markers_of (db : catalog) (file_id : string) : list delete_marker :=
  sort_by (fun a b => String.leb (dm_id a) (dm_id b))
    (select (fun m => (dm_vault_file_id m =b file_id)
                      && negb (exists_row (fun i => (bool_decide (cdi_delete_marker_id i = Some (dm_id m)))
                                                   && (cdi_status i =b "deleted")) (t_items db)))
       (t_markers db)).

Definition targets_of (db : catalog) (file_id : string) : list cloud_target :=
  map version_target (versions_of db file_id) ++ map marker_target (markers_of db file_id).

Definition target_is_exact (vault : vault) (t : cloud_target) : bool :=
  truthy (ct_object_key t) && truthy (ct_provider_version_id t)
  && negb (bool_decide (ct_provider_version_id t = Some "null"))
  && starts_with (rstrip_slash (va_s3_prefix vault) +:+ "/") (or_default (ct_object_key t) "").

(** The [SELECT 1 FROM jobs] of [_validate_files]. *)
Definition has_pending_work (db : catalog) (own_group : option string) (file_id : string) : bool :=
  exists_row (fun j => (j_vault_file_id j =b file_id) && job_is_active j
                       && (is_none own_group || negb (bool_decide (j_group_id j = own_group))))
    (t_jobs db).

Definition health_of (db : catalog) (vault_id : Z) : list (string * option string) :=
  or_default (snd <$> List.find (fun p => p.1 =b vault_id) (t_health db)) [].

Definition validate_file (db : catalog) (vault : vault) (own_group : option string)
    (row : selected_file) : result unit :=
  raise! CloudDeletionError "Only Cloud-only files can be deleted from the cloud" when
    negb (bool_decide (sf_presence row = None ∨ sf_presence row = Some Missing))
    || is_some (sf_cloud_only_version_id row)
    || negb (bool_decide (av_integrity <$> sf_version row = Some Verified))
    || negb (bool_decide (av_availability <$> sf_version row = Some Available))
    || negb (truthy (sf_path row));
  raise! CloudDeletionError "Selected file has pending work" when
    has_pending_work db own_group (sf_file_id row);
  for_each (fun t => raise_if (negb (target_is_exact vault t))
                       (CloudDeletionError "An exact cloud VersionId in this Vault is required"))
    (targets_of db (sf_file_id row)).

Definition validate_files (os : os_view) (db : catalog) (vault : vault)
    (files : list selected_file) (own_group : option string) : result unit :=
  raise! CloudDeletionError "Protection observations are not confirmed" when
    observation_is_unconfirmed (health_of db (va_id vault));
  _ ← for_each (validate_file db vault own_group) files;
  require_local_absence os vault (map (fun f => or_default (sf_path f) "") files).

(** ** Preview and admission *)
Record DeletionPreview := {
  object_count : Z;
  version_count : Z;
  delete_marker_count : Z;
  byte_count : Z;
}.

Definition preview_selection (os : os_view) (db : catalog) (vault_id : Z) (paths : list string)
    (is_directory whole_vault : bool) : result DeletionPreview :=
  vault ← lock_vault db vault_id;
  files ← selected_files db vault_id paths is_directory whole_vault;
  raise! CloudDeletionError "No Cloud-only files selected" when bool_decide (map sf_file_id files = []);
  _ ← validate_files os db vault files None;
  let versions := flat_map (fun f => versions_of db (sf_file_id f)) files in
  Ok {| object_count := Z.of_nat (length files);
        version_count := Z.of_nat (length versions);
        delete_marker_count := sumZ (map (fun f => Z.of_nat (length (markers_of db (sf_file_id f)))) files);
        byte_count := sumZ (map (fun v => or_default (av_size v) 0) versions) |}.

Definition new_purge_job (id vault_id : Z) (row : selected_file) (actor : Z) (requested_at : timestamp)
    (group_id group_path reason confirmation origin : string) (total : Z) : job :=
  {| j_id := id; j_vault_id := vault_id; j_vault_file_id := sf_file_id row;
     j_archive_version_id := None; j_path := or_default (sf_path row) "";
     j_action := "cloud-purge"; j_status := "pending_delay"; j_origin := origin;
     j_message := None; j_message_key := None; j_message_params := None;
     j_requested_by := Some actor; j_requested_at := requested_at; j_updated_at := requested_at;
     j_group_id := Some group_id; j_group_path := Some group_path; j_total_bytes := total;
     j_transferred_bytes := 0; j_reason := Some (py_strip reason);
     j_confirmation_phrase := Some confirmation; j_restore_tier := None; j_restore_days := None;
     j_target_storage_class := None; j_upload_verification_requested := None;
     j_pending_until := Some (requested_at + seconds DELETION_DELAY_SECONDS);
     j_retry_after := None; j_claim_token := None; j_claimed_at := None; j_claim_expires_at := None; j_upload := no_upload |}.

Definition new_item (id job_id vault_id : Z) (file_id : string) (t : cloud_target)
    (requested_at : timestamp) : cloud_deletion_item :=
  {| cdi_id := id; cdi_job_id := job_id; cdi_vault_id := vault_id; cdi_vault_file_id := file_id;
     cdi_is_version := ct_is_version t;
     cdi_archive_version_id := if ct_is_version t then Some (ct_id t) else None;
     cdi_delete_marker_id := if ct_is_version t then None else Some (ct_id t);
     cdi_object_key := or_default (ct_object_key t) "";
     cdi_provider_version_id := or_default (ct_provider_version_id t) "";
     cdi_size_bytes := ct_size t; cdi_status := "pending"; cdi_error_message := None;
     cdi_updated_at := requested_at |}.

Definition insert_item (job_id vault_id : Z) (file_id : string) (requested_at : timestamp)
    (items : list cloud_deletion_item) (t : cloud_target) : list cloud_deletion_item :=
  items ++ [new_item (next_id (map cdi_id items)) job_id vault_id file_id t requested_at].

(** One turn of the admission loop: the Job, its items, its total, its event.
    The partial unique index admits one active Job per file. *)
Definition schedule_file (vault_id actor : Z) (requested_at : timestamp)
    (group_id group_path reason confirmation origin : string)
    (st : catalog * list Z) (row : selected_file) : result (catalog * list Z) :=
  let '(db, job_ids) := st in
  raise! IntegrityError "jobs_one_active_file_uq" when
    exists_row (fun j => (j_vault_file_id j =b sf_file_id row) && job_is_active j) (t_jobs db);
  let job_id := next_id (map j_id (t_jobs db)) in
  let targets := targets_of db (sf_file_id row) in
  let job := new_purge_job job_id vault_id row actor requested_at group_id group_path reason
               confirmation origin (sumZ (map ct_size targets)) in
  let items := foldl (insert_item job_id vault_id (sf_file_id row) requested_at) (t_items db) targets in
  Ok (audit "cloud_deletion.requested" (Some actor) vault_id (Some job_id) "requested"
        (set_items items (set_jobs (t_jobs db ++ [job]) db)),
      job_ids ++ [job_id]).

Record ScheduledDeletion := {
  sd_group_id : string;
  sd_job_ids : list Z;
  sd_preview : DeletionPreview;
  sd_pending_until : timestamp;
}.

Definition schedule_cloud_purge (os : os_view) (db : catalog) (vault_id : Z) (paths : list string)
    (is_directory : bool) (actor : Z) (requested_at : timestamp) (confirmation reason : string)
    (whole_vault : bool) (origin group_id : string) : result (catalog * ScheduledDeletion) :=
  vault ← lock_vault db vault_id;
  raise! CloudDeletionError "Folder protection has already stopped" when
    negb (bool_decide (va_decommission_state vault = Some "active")) || is_some (va_root_released_at vault);
  raise! CloudDeletionError "Unsupported deletion origin" when negb (origin ∈b ["manual"; "stop-protection"]);
  raise! ConfirmationRequired "Type the exact Vault name to confirm" when confirmation <>b va_name vault;
  raise! CloudDeletionError "A deletion reason is required" when
    (py_strip reason =b "") || (500 <? Z.of_nat (String.length reason));
  preview ← preview_selection os db vault_id paths is_directory whole_vault;
  files ← selected_files db vault_id paths is_directory whole_vault;
  let group_path := if whole_vault then "" else or_default (head paths) "" in
  st ← foldM_r (schedule_file vault_id actor requested_at group_id group_path reason confirmation origin)
         (db, []) files;
  Ok (st.1, {| sd_group_id := group_id; sd_job_ids := st.2; sd_preview := preview;
               sd_pending_until := requested_at + seconds DELETION_DELAY_SECONDS |}).

(** ** Cancellation *)
Definition cancel_job_row (reason : string) (at_ : timestamp) (j : job) : job :=
  set_claim None None None
    {| j_id := j_id j; j_vault_id := j_vault_id j; j_vault_file_id := j_vault_file_id j;
       j_archive_version_id := j_archive_version_id j; j_path := j_path j; j_action := j_action j;
       j_status := "cancelled"; j_origin := j_origin j; j_message := Some reason;
       j_message_key := j_message_key j; j_message_params := j_message_params j;
       j_requested_by := j_requested_by j; j_requested_at := j_requested_at j;
       j_updated_at := at_; j_group_id := j_group_id j; j_group_path := j_group_path j;
       j_total_bytes := j_total_bytes j; j_transferred_bytes := j_transferred_bytes j;
       j_reason := j_reason j; j_confirmation_phrase := j_confirmation_phrase j;
       j_restore_tier := j_restore_tier j; j_restore_days := j_restore_days j;
       j_target_storage_class := j_target_storage_class j;
       j_upload_verification_requested := j_upload_verification_requested j;
       j_pending_until := j_pending_until j; j_retry_after := j_retry_after j;
       j_claim_token := j_claim_token j; j_claimed_at := j_claimed_at j;
       j_claim_expires_at := j_claim_expires_at j; j_upload := j_upload j |}.

Definition set_item (status : string) (error : option string) (at_ : timestamp)
    (i : cloud_deletion_item) : cloud_deletion_item :=
  {| cdi_id := cdi_id i; cdi_job_id := cdi_job_id i; cdi_vault_id := cdi_vault_id i;
     cdi_vault_file_id := cdi_vault_file_id i; cdi_is_version := cdi_is_version i;
     cdi_archive_version_id := cdi_archive_version_id i;
     cdi_delete_marker_id := cdi_delete_marker_id i; cdi_object_key := cdi_object_key i;
     cdi_provider_version_id := cdi_provider_version_id i; cdi_size_bytes := cdi_size_bytes i;
     cdi_status := status; cdi_error_message := error; cdi_updated_at := at_ |}.

Definition cancel_row (at_ : timestamp) (actor : option Z) (reason : string) (db : catalog) (row : job) : catalog :=
  audit "cloud_deletion.cancelled" actor (j_vault_id row) (Some (j_id row)) "cancelled"
    (set_items (update_where (fun i => (cdi_job_id i =b j_id row) && (cdi_status i ∈b ["pending"; "failed"]))
                  (fun i => set_item "skipped" (cdi_error_message i) at_ i) (t_items db))
       (set_jobs (update_where (fun j => j_id j =b j_id row) (cancel_job_row reason at_) (t_jobs db)) db)).

Definition cancel_rows (db : catalog) (rows : list job) (at_ : timestamp) (actor : option Z)
    (reason : string) : catalog :=
  foldl (cancel_row at_ actor reason) db rows.

(** [SELECT * FROM jobs WHERE vault_id AND group_id AND action='cloud-purge' ORDER BY requested_at,id]. *)
Definition group_rows (db : catalog) (vault_id : Z) (group_id : string) : list job :=
  sort_by job_le (select (fun j => (j_vault_id j =b vault_id) && (bool_decide (j_group_id j = Some group_id))
                                   && (j_action j =b "cloud-purge")) (t_jobs db)).

Definition cancel_cloud_deletion (db : catalog) (vault_id : Z) (group_id : string)
    (actor : option Z) (cancelled_at : timestamp) : result (catalog * Z) :=
  _ ← lock_vault db vault_id;
  let rows := group_rows db vault_id group_id in
  raise! CloudDeletionError "Deletion has started or is no longer cancellable" when
    (bool_decide (map j_id rows = []))
    || existsb (fun r => (j_status r <>b "pending_delay") || truthy (j_claim_token r)) rows;
  Ok (cancel_rows db rows cancelled_at actor "Cancelled before deletion started",
      Z.of_nat (length rows)).

(** ** Re-validation before any delete call *)
Definition items_of (db : catalog) (job_id : Z) : list cloud_deletion_item :=
  select (fun i => cdi_job_id i =b job_id) (t_items db).

Definition item_target (i : cloud_deletion_item) : option string * option string :=
  (Some (cdi_object_key i), Some (cdi_provider_version_id i)).

Definition target_key (t : cloud_target) : option string * option string :=
  (ct_object_key t, ct_provider_version_id t).

(** [SELECT * FROM archive_versions/delete_markers WHERE id=...] of one item. *)
Definition item_row (db : catalog) (i : cloud_deletion_item) : option (string * (option string * option string)) :=
  if cdi_is_version i then
    (fun v => (av_vault_file_id v, target_key (version_target v))) <$>
      fetchone (fun v => bool_decide (Some (av_id v) = cdi_archive_version_id i)) (t_versions db)
  else
    (fun m => (dm_vault_file_id m, target_key (marker_target m))) <$>
      fetchone (fun m => bool_decide (Some (dm_id m) = cdi_delete_marker_id i)) (t_markers db).

Definition validate_item (db : catalog) (row : job) (i : cloud_deletion_item) : result unit :=
  raise! CloudDeletionError "Exact cloud version identity is missing" when
    (cdi_provider_version_id i =b "") || (cdi_provider_version_id i =b "null");
  raise_if (negb (bool_decide (item_row db i = Some (j_vault_file_id row, item_target i))))
    (CloudDeletionError "Cloud target identity changed").

Definition validate_job_targets (db : catalog) (row : job) : result unit :=
  let items := items_of db (j_id row) in
  let authorized := map item_target items in
  let current := map target_key (targets_of db (j_vault_file_id row)) in
  raise! CloudDeletionError "Cloud absence has not been reconciled for every exact target" when
    (bool_decide (current = [])) && existsb (fun i => cdi_status i <>b "deleted") items;
  raise! CloudDeletionError "Cloud content changed after confirmation" when
    (bool_decide (authorized = [])) || existsb (fun t => negb (t ∈b authorized)) current;
  for_each (validate_item db row) items.

Definition stop_for_delete (db : catalog) (vault_id : Z) : option protection_stop :=
  fetchone (fun s => (ps_vault_id s =b vault_id) && (ps_cloud_disposition s =b "delete")) (t_stops db).

(** The body of the [try]. *)
Definition check_execution (os : os_view) (db : catalog) (vault : vault) (active : list job)
    (group_id : string) (at_ : timestamp) : result unit :=
  raise! CloudDeletionError "Deletion authority is no longer active" when
    (bool_decide (map j_id active = [])) || is_some (va_root_released_at vault);
  _ ← (if bool_decide (va_decommission_state vault = Some "active") then
         raise_if (negb (va_enabled vault) || existsb (fun r => j_origin r <>b "manual") active)
           (CloudDeletionError "Deletion authority is no longer active")
       else
         raise_if (negb (bool_decide (va_decommission_state vault = Some "decommissioning"))
                   || negb (bool_decide ((stop_for_delete db (va_id vault) ≫= ps_group_id) = Some group_id))
                   || existsb (fun r => j_origin r <>b "stop-protection") active)
           (CloudDeletionError "Stopped folder deletion authority changed"));
  _ ← for_each (fun row =>
         raise_if (match j_pending_until row with
                   | None => true
                   | Some until =>
                       (at_ <? j_requested_at row + seconds DELETION_DELAY_SECONDS) || (at_ <? until)
                   end)
           (CloudDeletionError "The seven-day delay has not elapsed")) active;
  files ← selected_files db (va_id vault) (map j_path active) false false;
  raise! CloudDeletionError "Selected file identity changed" when
    negb (bool_decide (list_to_set (C := gset string) (map sf_file_id files)
                       = list_to_set (map j_vault_file_id active)));
  _ ← require_local_absence os vault (map (fun f => or_default (sf_path f) "") files);
  _ ← validate_files os db vault (List.filter (fun f => is_some (sf_version f)) files) (Some group_id);
  for_each (validate_job_targets db) active.

Definition validate_execution (os : os_view) (db : catalog) (vault_id : Z) (group_id : string)
    (at_ : timestamp) : result (catalog * bool) :=
  vault ← lock_vault db vault_id;
  let active := List.filter job_is_active (group_rows db vault_id group_id) in
  match check_execution os db vault active group_id at_ with
  | Ok _ => Ok (db, true)
  | Raise (CloudDeletionError m) =>
      Ok (cancel_rows db active at_ None m, false)
  | Raise e => Raise e
  end.

(** ** Bookkeeping after the delete calls *)

(** [range(0, len(l), n)] slices. *)
Fixpoint chunks_fuel {A} (fuel n : nat) (l : list A) : list (list A) :=
  match fuel, l with
  | _, [] | O, _ => []
  | S fuel, _ => take n l :: chunks_fuel fuel n (drop n l)
  end.
Definition chunks {A} (n : nat) (l : list A) : list (list A) := chunks_fuel (length l) n l.

Definition purge_version (at_ : timestamp) (v : archive_version) : archive_version :=
  {| av_id := av_id v; av_vault_file_id := av_vault_file_id v; av_vault_id := av_vault_id v;
     av_version_number := av_version_number v; av_object_key := av_object_key v;
     av_provider_version_id := av_provider_version_id v; av_size := av_size v;
     av_storage_class := av_storage_class v; av_plaintext_sha256 := av_plaintext_sha256 v;
     av_origin := av_origin v; av_integrity := av_integrity v; av_verified_at := av_verified_at v;
     av_availability := Purged; av_availability_checked_at := Some at_;
     av_restore_state := av_restore_state v; av_placement := av_placement v;
     av_evidence := av_evidence v |}.

Definition mark_deleted_batch (at_ : timestamp) (db : catalog) (batch : list Z) : catalog :=
  let items := select (fun i => cdi_id i ∈b batch) (t_items db) in
  let version_ids := omap cdi_archive_version_id (List.filter cdi_is_version items) in
  let db1 := set_versions (update_where (fun v => av_id v ∈b version_ids) (purge_version at_) (t_versions db)) db in
  let db2 := set_items (update_where (fun i => cdi_id i ∈b batch) (set_item "deleted" None at_) (t_items db1)) db1 in
  let db3 := invalidate_for_archive_version_ids (omap cdi_archive_version_id items) db2 in
  foldl (fun db p => invalidate_for_vault_file p.1 (Some p.2) db) db3
    (remove_dups (map (fun i => (cdi_vault_id i, cdi_vault_file_id i))
                    (List.filter (fun i => is_none (cdi_archive_version_id i)) items))).

Definition mark_items_deleted (db : catalog) (item_ids : list Z) (updated_at : timestamp) : catalog :=
  foldl (mark_deleted_batch updated_at) db (chunks 500 item_ids).

Definition mark_item_deleted (db : catalog) (item_id : Z) (updated_at : timestamp) : catalog :=
  mark_items_deleted db [item_id] updated_at.

Definition mark_items_failed (db : catalog) (failures : list (Z * string)) (updated_at : timestamp) : catalog :=
  foldl (fun db batch =>
      set_items (update_where (fun i => cdi_id i ∈b map fst batch)
                   (fun i => set_item "failed"
                      (match List.find (fun p => p.1 =b cdi_id i) batch with
                       | Some (_, m) => Some m
                       | None => cdi_error_message i
                       end) updated_at i) (t_items db)) db)
    db (chunks 250 failures).

Definition finish_job (status message : string) (at_ : timestamp) (completed : bool) (j : job) : job :=
  {| j_id := j_id j; j_vault_id := j_vault_id j; j_vault_file_id := j_vault_file_id j;
     j_archive_version_id := j_archive_version_id j; j_path := j_path j; j_action := j_action j;
     j_status := status; j_origin := j_origin j; j_message := Some message;
     j_message_key := j_message_key j; j_message_params := j_message_params j;
     j_requested_by := j_requested_by j; j_requested_at := j_requested_at j;
     j_updated_at := at_; j_group_id := j_group_id j; j_group_path := j_group_path j;
     j_total_bytes := j_total_bytes j;
     j_transferred_bytes := if completed then j_total_bytes j else j_transferred_bytes j;
     j_reason := j_reason j; j_confirmation_phrase := j_confirmation_phrase j;
     j_restore_tier := j_restore_tier j; j_restore_days := j_restore_days j;
     j_target_storage_class := j_target_storage_class j;
     j_upload_verification_requested := j_upload_verification_requested j;
     j_pending_until := j_pending_until j; j_retry_after := j_retry_after j;
     j_claim_token := j_claim_token j; j_claimed_at := j_claimed_at j;
     j_claim_expires_at := j_claim_expires_at j; j_upload := j_upload j |}.

Definition purge_file (at_ : timestamp) (f : vault_file) : vault_file :=
  {| vf_id := vf_id f; vf_vault_id := vf_vault_id f; vf_status := FilePurged;
     vf_created_at := vf_created_at f;
     vf_retired_at := match vf_retired_at f with Some t => Some t | None => Some at_ end |}.

(** The Job must exist: [job["vault_id"]] raises a TypeError otherwise. *)
Definition finalize_purge_job (db : catalog) (job_id : Z) (vault_file_id : string)
    (actor : option Z) (updated_at : timestamp) : result (catalog * string) :=
  let items := items_of db job_id in
  let completed := negb (bool_decide (map cdi_id items = []))
                   && forallb (fun i => cdi_status i =b "deleted") items in
  let status := if completed then "completed" else "failed" in
  match fetchone (fun j => j_id j =b job_id) (t_jobs db) with
  | None => Raise (TypeError "'NoneType' object is not subscriptable")
  | Some job =>
      let db1 := set_jobs (update_where (fun j => j_id j =b job_id)
                   (finish_job status (if completed then "Cloud deletion completed"
                                       else "Cloud deletion partially failed") updated_at completed)
                   (t_jobs db)) db in
      let db2 :=
        if completed && bool_decide (map av_id (versions_of db1 vault_file_id) = []) then
          invalidate_for_vault_file (j_vault_id job) (Some vault_file_id)
            (set_files (update_where (fun f => vf_id f =b vault_file_id) (purge_file updated_at) (t_files db1)) db1)
        else db1 in
      Ok (audit (if completed then "cloud_deletion.completed" else "cloud_deletion.partial_failure")
            actor (j_vault_id job) (Some job_id) (if completed then "success" else "partial_failure") db2,
          status)
  end.

(** ** Cancelling rows *)
Lemma cancel_rows_jobs db rows at_ actor reason :
  t_jobs (cancel_rows db rows at_ actor reason)
  = update_where (fun j => j_id j ∈b map j_id rows) (cancel_job_row reason at_) (t_jobs db).
Proof.
  unfold cancel_rows. revert db; induction rows as [|r rows IH]; intros db; cbn [foldl map].
  - unfold update_where. symmetry. erewrite map_ext; [apply map_id|]. done.
  - rewrite IH. cbn [cancel_row t_jobs audit set_audit set_items set_jobs]. unfold update_where.
    rewrite map_map. apply map_ext. intros j.
    destruct (decide (j_id j = j_id r)) as [E|E].
    + rewrite (bool_decide_eq_true_2 (j_id j = j_id r)) by done. cbn [j_id cancel_job_row set_claim].
      rewrite (bool_decide_eq_true_2 (j_id j ∈ j_id r :: _)) by (rewrite E; left).
      by case_bool_decide.
    + rewrite (bool_decide_eq_false_2 (j_id j = j_id r)) by done.
      replace (j_id j ∈b j_id r :: map j_id rows) with (j_id j ∈b map j_id rows); [done|].
      apply bool_decide_ext. rewrite elem_of_cons. naive_solver.
Qed.

Lemma cancel_rows_lock db rows at_ actor reason v :
  lock_vault (cancel_rows db rows at_ actor reason) v = lock_vault db v.
Proof.
  enough (H : t_vaults (cancel_rows db rows at_ actor reason) = t_vaults db) by (unfold lock_vault; by rewrite H).
  unfold cancel_rows. revert db; induction rows as [|r rows IH]; intros db; [done|]. cbn. by rewrite IH.
Qed.

Lemma cancel_rows_items db rows at_ actor reason i :
  i ∈ t_items (cancel_rows db rows at_ actor reason) →
  cdi_job_id i ∈ map j_id rows → cdi_status i ∉ ["pending"; "failed"].
Proof.
  unfold cancel_rows. revert db; induction rows as [|r rows IH] using rev_ind; intros db; [by intros _ ?%not_elem_of_nil|].
  rewrite foldl_app, map_app, elem_of_app. cbn [foldl map]. rewrite list_elem_of_singleton.
  cbn [cancel_row t_items audit set_audit set_items set_jobs].
  intros (i0 & Hi0 & ->)%elem_of_update_where.
  destruct (_ && _) eqn:E; cbn; [set_solver|].
  intros [Hr|Hr]; [by apply (IH db)|].
  rewrite (bool_decide_eq_true_2 (cdi_job_id i0 = j_id r)) in E by done. cbn in E. by bsimpl.
Qed.

Lemma cancelled_not_active reason at_ j : job_is_active (cancel_job_row reason at_ j) = false.
Proof. reflexivity. Qed.

Lemma elem_of_group_rows db v g j :
  j ∈ group_rows db v g ↔
  j ∈ t_jobs db ∧ j_vault_id j = v ∧ j_group_id j = Some g ∧ j_action j = "cloud-purge".
Proof.
  unfold group_rows. rewrite sort_by_perm, elem_of_select, !andb_true_iff, !bool_decide_eq_true. tauto.
Qed.

(** Rows of the group that stay active after some of its rows were cancelled. *)
Lemma cancel_group_inactive db v g rows at_ actor reason j :
  (∀ r, r ∈ group_rows db v g → job_is_active r = true → r ∈ rows) →
  j ∈ group_rows (cancel_rows db rows at_ actor reason) v g → job_is_active j = false.
Proof.
  intros Hall (Hj & Hv & Hg & Ha)%elem_of_group_rows. rewrite cancel_rows_jobs in Hj.
  apply elem_of_update_where in Hj as (j0 & Hj0 & ->). case_bool_decide as Hin; [done|].
  apply not_true_iff_false. intros Hact. apply Hin. apply list_elem_of_In, in_map, list_elem_of_In, Hall; [|done].
  by apply elem_of_group_rows.
Qed.

Lemma filter_none {A} (p : A → bool) l : (∀ x, x ∈ l → p x = false) → List.filter p l = [].
Proof.
  induction l as [|x l IH]; intros H; [done|]. cbn. rewrite (H x) by left.
  apply IH. intros y Hy. apply H. by right.
Qed.

(** ** Local absence *)
Section absent.
Context (os : os_view) (root : handle os).

(** Every answer on the way down is definite, no mount is crossed, and the file
    or one of its folders does not exist. *)
Inductive absent : handle os → list string → Prop :=
  | absent_file h n : os_stat os h n = NotFound → absent h [n]
  | absent_folder h d rest : os_open os h d = NotFound → absent h (d :: rest)
  | absent_inside h d child rest :
      os_open os h d = Found child → os_device os child = os_device os root →
      os_is_mount os child = false → absent child rest → absent h (d :: rest).

Lemma absent_below_sound h dirs name :
  absent_below os root h dirs name = Ok tt → absent h (dirs ++ [name]).
Proof.
  revert h; induction dirs as [|d dirs IH]; intros h; cbn.
  - destruct (os_stat os h name) eqn:E; try done. intros _. by constructor.
  - destruct (os_open os h d) as [child| |] eqn:E; try done; [|intros _; by apply absent_folder].
    intros [Hg H]%raise_if_bind_ok. bsimpl. eapply absent_inside; eauto.
Qed.
End absent.

(** The names the walk visits; the name of the path ["."] is empty. *)
Definition walk_parts (path : string) : list string :=
  match posix_parts path with [] => [""] | parts => parts end.

(** The file is proved absent below the enrolled root of the Vault. *)
Definition proved_absent (os : os_view) (vault : vault) (path : string) : Prop :=
  os_access_before os (va_source_root vault) = true ∧ os_access_after os (va_source_root vault) = true
  ∧ ∃ root identity, os_opened_identity os root = Found identity
      ∧ va_root_identity vault = Some identity ∧ os_root_identity os (va_source_root vault) = Found identity
      ∧ absent os root root (walk_parts path).

Lemma walk_parts_eq path :
  removelast (posix_parts path) ++ [or_default (last (posix_parts path)) ""] = walk_parts path.
Proof.
  unfold walk_parts. destruct (posix_parts path) as [|p l] eqn:E; [done|]. rewrite <- E.
  destruct (exists_last (l := posix_parts path)) as (l' & x & ->); [by rewrite E|].
  by rewrite removelast_last, last_snoc.
Qed.

Lemma require_local_absence_sound os vault paths :
  require_local_absence os vault paths = Ok tt → ∀ p, p ∈ paths → proved_absent os vault p.
Proof.
  unfold require_local_absence. intros H p Hp. inv_ok.
  repeat match goal with H : or_refuse _ = Ok _ |- _ => unfold or_refuse, cannot_confirm in H end.
  match goal with E : for_each _ _ = Ok ?u |- _ => destruct u; rename E into Hfor end.
  rewrite for_each_ok, Forall_forall in Hfor. specialize (Hfor p Hp).
  unfold require_path_absence in Hfor. apply raise_if_bind_ok in Hfor as [Hvalid Habs].
  apply absent_below_sound in Habs. bsimpl.
  rewrite walk_parts_eq in Habs.
  match goal with H : _ ≠ None ∧ _ = va_root_identity vault |- _ => destruct H as [Hsome Hid] end.
  destruct (_ && _) in E1; inv_ok; subst; [|done].
  destruct (os_opened_identity os r0) eqn:Eo; try done.
  destruct (os_root_identity os (va_source_root vault)) eqn:Er; try done.
  cbn in E2. inv_ok. subst. split; [done|]. split; [done|]. exists r0, r3.
  repeat split; congruence.
Qed.

(** ** What a passed re-validation proves *)
Record execution_authority (os : os_view) (db : catalog) (vault : vault) (group_id : string)
    (at_ : timestamp) (j : job) : Prop := {
  (* the request is at least seven days old and its own deadline has passed *)
  ea_delay : j_requested_at j + seconds DELETION_DELAY_SECONDS ≤ at_;
  ea_deadline : ∃ until, j_pending_until j = Some until ∧ until ≤ at_;
  (* everything that exists now was captured by the request *)
  ea_targets : ∀ t, t ∈ targets_of db (j_vault_file_id j) →
    ∃ i, i ∈ items_of db (j_id j) ∧ item_target i = target_key t;
  (* and every captured item is still that exact object of that file *)
  ea_items : ∀ i, i ∈ items_of db (j_id j) →
    item_row db i = Some (j_vault_file_id j, item_target i);
  (* a file whose content still exists is Cloud-only and has no other work *)
  ea_cloud_only : ∀ v, latest_version (t_versions db) (j_vault_file_id j) = Some v →
    av_integrity v = Verified ∧ av_availability v = Available
    ∧ (∀ c, local_copy_of (t_copies db) (j_vault_file_id j) = Some c → lc_presence c = Missing)
    ∧ has_pending_work db (Some group_id) (j_vault_file_id j) = false;
  (* the file is proved absent on the server *)
  ea_absent : ∃ p, current_path_of (t_paths db) (j_vault_file_id j) = Some p
    ∧ proved_absent os vault (fp_path p);
}.

Lemma validate_job_targets_ok db j :
  validate_job_targets db j = Ok tt →
  (∀ t, t ∈ targets_of db (j_vault_file_id j) →
     ∃ i, i ∈ items_of db (j_id j) ∧ item_target i = target_key t)
  ∧ (∀ i, i ∈ items_of db (j_id j) → item_row db i = Some (j_vault_file_id j, item_target i)).
Proof.
  unfold validate_job_targets. rewrite !raise_if_bind_ok. intros (_ & Hauth & Hitems). split.
  - intros t Ht. apply orb_false_iff in Hauth as [_ Hex]. apply not_true_iff_false in Hex.
    rewrite existsb_exists in Hex.
    assert (Hin : target_key t ∈ map item_target (items_of db (j_id j))).
    { destruct (decide (target_key t ∈ map item_target (items_of db (j_id j)))) as [|Hn]; [done|].
      exfalso. apply Hex. exists (target_key t). split; [by apply in_map, list_elem_of_In|].
      by rewrite bool_decide_eq_false_2. }
    rewrite list_elem_of_In, in_map_iff in Hin. destruct Hin as (i & ? & Hi).
    exists i. by rewrite list_elem_of_In.
  - rewrite for_each_ok, Forall_forall in Hitems. intros i Hi. specialize (Hitems i Hi).
    unfold validate_item in Hitems. apply raise_if_bind_ok in Hitems as [_ H].
    apply raise_if_ok in H. by bsimpl.
Qed.

Lemma selected_files_elem db v paths d w files f :
  selected_files db v paths d w = Ok files → f ∈ files →
  ∃ vf, vf ∈ t_files db ∧ vf_vault_id vf = v ∧ f = select_columns db vf
    ∧ (w = false → path_selected paths d f = true) ∧ (w = true → sf_version f ≠ None).
Proof.
  unfold selected_files. rewrite raise_if_bind_ok. intros [_ [= <-]].
  rewrite sort_by_perm, list_elem_of_In, filter_In, in_map_iff.
  intros [(vf & <- & Hvf) Hk]. apply list_elem_of_In, elem_of_select in Hvf as [? ?]. bsimpl.
  exists vf. repeat split; try done; intros ->; [done|].
  by destruct (sf_version (select_columns db vf)).
Qed.

Lemma validate_file_ok db vault g f :
  validate_file db vault g f = Ok tt →
  (sf_presence f = None ∨ sf_presence f = Some Missing)
  ∧ (∃ v, sf_version f = Some v ∧ av_integrity v = Verified ∧ av_availability v = Available)
  ∧ truthy (sf_path f) = true ∧ has_pending_work db g (sf_file_id f) = false
  ∧ Forall (fun t => target_is_exact vault t = true) (targets_of db (sf_file_id f)).
Proof.
  unfold validate_file. rewrite !raise_if_bind_ok, for_each_ok.
  intros (Hc & Hp & Hx). rewrite !orb_false_iff, !negb_false_iff in Hc.
  destruct Hc as ((((Hpres & _) & Hi) & Ha) & Hpath).
  apply bool_decide_eq_true in Hpres, Hi, Ha. split; [done|]. split.
  - destruct (sf_version f) as [v|]; [|done]. exists v. cbn in *. naive_solver.
  - repeat split; try done. eapply Forall_impl; [exact Hx|]. cbn. intros t Ht.
    apply raise_if_ok in Ht. by bsimpl.
Qed.

Lemma check_execution_authority os db vault active g at_ j :
  check_execution os db vault active g at_ = Ok tt → j ∈ active →
  execution_authority os db vault g at_ j.
Proof.
  unfold check_execution. intros H Hj. rewrite !bind_ok in H.
  destruct H as ([] & _ & H). rewrite bind_ok in H. destruct H as ([] & _ & H).
  rewrite bind_ok in H. destruct H as ([] & Hdelay & H).
  rewrite bind_ok in H. destruct H as (files & Hfiles & H).
  rewrite raise_if_bind_ok in H. destruct H as [Hsame H].
  rewrite bind_ok in H. destruct H as ([] & Habs & H).
  rewrite bind_ok in H. destruct H as ([] & Hval & Htargets).
  rewrite for_each_ok, Forall_forall in Hdelay, Htargets.
  specialize (Hdelay j Hj). apply raise_if_ok in Hdelay.
  specialize (Htargets j Hj). apply validate_job_targets_ok in Htargets as [Ht1 Ht2].
  apply negb_false_iff, bool_decide_eq_true in Hsame.
  assert (Hin : j_vault_file_id j ∈ map sf_file_id files).
  { assert (Hs : j_vault_file_id j ∈ (list_to_set (map sf_file_id files) : gset string)).
    { rewrite Hsame. apply elem_of_list_to_set, list_elem_of_In, in_map, list_elem_of_In, Hj. }
    by apply elem_of_list_to_set in Hs. }
  rewrite list_elem_of_In, in_map_iff in Hin. destruct Hin as (f & Hf & Hfin).
  apply list_elem_of_In in Hfin. assert (Hsel := selected_files_elem _ _ _ _ _ _ _ Hfiles Hfin).
  destruct Hsel as (vf & Hvf & Hvv & -> & Hpath & _). cbn in Hf.
  constructor.
  - destruct (j_pending_until j); [|done]. bsimpl. done.
  - destruct (j_pending_until j) as [until|]; [|done]. bsimpl. by exists until.
  - done.
  - done.
  - intros v Hv. unfold validate_files in Hval. rewrite raise_if_bind_ok, bind_ok in Hval.
    destruct Hval as (_ & [] & Hval & _). rewrite for_each_ok, Forall_forall in Hval.
    specialize (Hval (select_columns db vf)).
    assert (Hver : sf_version (select_columns db vf) = Some v) by (cbn; by rewrite Hf).
    destruct (validate_file_ok _ _ _ _ (Hval ltac:(rewrite list_elem_of_In, filter_In, <- list_elem_of_In, Hver; done)))
      as (Hp & (v' & Hv' & ? & ?) & _ & Hw & _).
    rewrite Hver in Hv'. injection Hv' as <-. cbn in Hp, Hw. rewrite Hf in Hp, Hw. repeat split; try done.
    intros c Hc. rewrite Hc in Hp. cbn in Hp. naive_solver.
  - specialize (Hpath eq_refl). unfold path_selected in Hpath. cbn in Hpath. rewrite Hf in Hpath.
    destruct (current_path_of (t_paths db) (j_vault_file_id j)) as [p|] eqn:Ep; [|done].
    exists p. split; [done|]. eapply require_local_absence_sound; [exact Habs|].
    rewrite list_elem_of_In, in_map_iff. exists (select_columns db vf). cbn. rewrite Hf, Ep. cbn.
    split; [done|]. by apply list_elem_of_In.
Qed.

(** ** Properties of execution *)

(** C2: no delete call without standing authority.  When [validate_execution]
    answers yes, it changed nothing, the group has active Jobs, and each of them
    is at least seven days old, its file is proved absent from the enrolled root,
    everything its file still has in the cloud was captured by the request, and
    every captured item still names that exact object of that file. *)
Theorem validate_execution_sound os db vault_id group_id at_ db' :
  validate_execution os db vault_id group_id at_ = Ok (db', true) →
  db' = db ∧ ∃ vault, lock_vault db vault_id = Ok vault
    ∧ (∃ j, j ∈ group_rows db vault_id group_id ∧ job_is_active j = true)
    ∧ ∀ j, j ∈ group_rows db vault_id group_id → job_is_active j = true →
        execution_authority os db vault group_id at_ j.
Proof.
  unfold validate_execution. rewrite bind_ok. intros (vault & Hl & H).
  destruct (check_execution os db vault _ group_id at_) as [[]|e] eqn:E; [|by destruct e].
  injection H as <-. split; [done|]. exists vault. split; [done|]. split.
  - unfold check_execution in E. apply raise_if_bind_ok in E as [He _].
    apply orb_false_iff in He as [He _]. bsimpl.
    destruct (List.filter job_is_active (group_rows db vault_id group_id)) as [|j l] eqn:Ef; [done|].
    exists j. assert (Hj : In j (List.filter job_is_active (group_rows db vault_id group_id))) by (rewrite Ef; by left).
    apply filter_In in Hj as [Hj ?]. by rewrite list_elem_of_In.
  - intros j Hj Ha. eapply check_execution_authority; [exact E|].
    rewrite list_elem_of_In, filter_In, <- list_elem_of_In. done.
Qed.

Lemma elem_of_active db v g j :
  j ∈ List.filter job_is_active (group_rows db v g) ↔ j ∈ group_rows db v g ∧ job_is_active j = true.
Proof. by rewrite list_elem_of_In, filter_In, <- list_elem_of_In. Qed.

Lemma validate_execution_cancels os db vault_id group_id at_ db' :
  validate_execution os db vault_id group_id at_ = Ok (db', false) →
  ∃ m, db' = cancel_rows db (List.filter job_is_active (group_rows db vault_id group_id)) at_ None m.
Proof.
  unfold validate_execution. rewrite bind_ok. intros (vault & _ & H).
  destruct (check_execution os db vault _ group_id at_) as [[]|e]; [done|].
  destruct e; try done. injection H as <-. by eexists.
Qed.

Lemma no_active_refused os db vault_id group_id at_ vault :
  lock_vault db vault_id = Ok vault →
  (∀ j, j ∈ group_rows db vault_id group_id → job_is_active j = false) →
  ∃ db', validate_execution os db vault_id group_id at_ = Ok (db', false).
Proof.
  intros Hl Hnone. unfold validate_execution. rewrite Hl. cbn [mbind result_bind].
  rewrite (filter_none _ _ Hnone). unfold check_execution. cbn. by eexists.
Qed.

(** A refused execution revokes the consent for good.  When [validate_execution]
    answers no, no Job of the group stays active and none of its items stays
    deletable, Jobs outside the group are untouched, and every later execution of
    the group is refused again. *)
Theorem refused_execution_revokes os db vault_id group_id at_ db' :
  NoDup (map j_id (t_jobs db)) →
  validate_execution os db vault_id group_id at_ = Ok (db', false) →
  (∀ j, j ∈ group_rows db' vault_id group_id → job_is_active j = false)
  ∧ (∀ j i, j ∈ group_rows db vault_id group_id → job_is_active j = true →
       i ∈ t_items db' → cdi_job_id i = j_id j → cdi_status i ∉ ["pending"; "failed"])
  ∧ (∀ j, j ∈ t_jobs db → j ∉ group_rows db vault_id group_id → j ∈ t_jobs db')
  ∧ (∀ os' at', ∃ db'', validate_execution os' db' vault_id group_id at' = Ok (db'', false)).
Proof.
  intros Hnd H. assert (Hv := H). unfold validate_execution in Hv. rewrite bind_ok in Hv.
  destruct Hv as (vault & Hl & _). apply validate_execution_cancels in H as [m ->].
  set (active := List.filter job_is_active (group_rows db vault_id group_id)).
  assert (Hgone : ∀ j, j ∈ group_rows (cancel_rows db active at_ None m) vault_id group_id → job_is_active j = false).
  { intros j. apply cancel_group_inactive. intros r Hr Ha. by apply elem_of_active. }
  split; [done|]. split; [|split].
  - intros j i Hj Ha Hi Hji. eapply cancel_rows_items; [exact Hi|]. rewrite Hji.
    apply list_elem_of_In, in_map, list_elem_of_In. by apply elem_of_active.
  - intros j Hj Hnot. rewrite cancel_rows_jobs. apply elem_of_update_where. exists j. split; [done|].
    rewrite bool_decide_eq_false_2; [done|]. rewrite list_elem_of_In, in_map_iff.
    intros (k & Hk & Hin). apply list_elem_of_In, elem_of_active in Hin as [Hin _].
    assert (Hkj : k ∈ t_jobs db) by by apply elem_of_group_rows in Hin as [? _].
    assert (k = j) as ->; [|done]. by eapply JobClaims.same_job_id.
  - intros os' at'. eapply no_active_refused; [|exact Hgone]. by rewrite cancel_rows_lock.
Qed.

(** A deletion can be cancelled exactly while nothing has started, and
    cancellation is final: [cancel_cloud_deletion] succeeds exactly when the group
    has Jobs and all of them are still waiting unclaimed, and afterwards no
    execution of the group is ever validated. *)
Theorem cancel_is_final db vault_id group_id actor at_ vault :
  lock_vault db vault_id = Ok vault →
  (is_ok (cancel_cloud_deletion db vault_id group_id actor at_) = true
   ↔ group_rows db vault_id group_id ≠ []
     ∧ ∀ j, j ∈ group_rows db vault_id group_id →
         j_status j = "pending_delay" ∧ truthy (j_claim_token j) = false)
  ∧ ∀ db' n os at', cancel_cloud_deletion db vault_id group_id actor at_ = Ok (db', n) →
      ∃ db'', validate_execution os db' vault_id group_id at' = Ok (db'', false).
Proof.
  intros Hl. unfold cancel_cloud_deletion. rewrite Hl. cbn [mbind result_bind]. split.
  - destruct (_ || _) eqn:E; cbn; (split; [intros H; try done|]).
    + intros [Hne Hall]. exfalso. apply orb_true_iff in E as [E|E].
      * bsimpl. apply Hne. by destruct (group_rows db vault_id group_id).
      * rewrite existsb_exists in E. destruct E as (j & Hj & Hbad). apply list_elem_of_In in Hj.
        destruct (Hall j Hj) as [H1 H2]. rewrite H1, H2 in Hbad. by rewrite bool_decide_eq_true_2 in Hbad.
    + apply orb_false_iff in E as [E1 E2]. bsimpl. split; [by intros Hn; rewrite Hn in E1|].
      intros j Hj. apply not_true_iff_false in E2. rewrite existsb_exists in E2.
      destruct (decide (j_status j = "pending_delay")) as [Hs|Hs], (truthy (j_claim_token j)) eqn:Et; try done;
        exfalso; apply E2; exists j; rewrite <- list_elem_of_In, Et, ?orb_true_r; (split; [done|]); try done.
      by rewrite bool_decide_eq_false_2.
    + done.
  - intros db' n os at' [_ H]%raise_if_bind_ok. injection H as <- _.
    eapply no_active_refused.
    + by rewrite cancel_rows_lock.
    + intros j. by apply cancel_group_inactive.
Qed.

(** ** Admission captures the exact targets *)
Lemma insert_items_spec job v f at_ ts items :
  ∃ new, foldl (insert_item job v f at_) items ts = items ++ new
    ∧ Forall (fun i => cdi_job_id i = job ∧ cdi_status i = "pending") new
    ∧ map item_target new = map (fun t => (Some (or_default (ct_object_key t) ""),
                                           Some (or_default (ct_provider_version_id t) ""))) ts.
Proof.
  revert items; induction ts as [|t ts IH]; intros items; cbn [foldl map].
  - exists []. by rewrite app_nil_r.
  - destruct (IH (insert_item job v f at_ items t)) as (new & -> & Hf & Hm).
    unfold insert_item at 1. eexists. rewrite <- app_assoc. split; [done|]. split.
    + by constructor.
    + cbn. by rewrite Hm.
Qed.

Lemma exact_target_key vault ts :
  Forall (fun t => target_is_exact vault t = true) ts →
  map (fun t => (Some (or_default (ct_object_key t) ""),
                 Some (or_default (ct_provider_version_id t) ""))) ts = map target_key ts.
Proof.
  induction 1 as [|t ts Ht _ IH]; [done|]. cbn. rewrite IH. f_equal.
  unfold target_is_exact in Ht. bsimpl. unfold target_key.
  destruct (ct_object_key t), (ct_provider_version_id t); done.
Qed.

Lemma targets_of_more db db' file new :
  t_versions db' = t_versions db → t_markers db' = t_markers db → t_items db' = t_items db ++ new →
  Forall (fun i => cdi_status i = "pending") new → targets_of db' file = targets_of db file.
Proof.
  intros Hv Hm Hi Hp. unfold targets_of, versions_of, markers_of. rewrite Hv, Hm, Hi.
  do 3 f_equal. apply List.filter_ext. intros m. f_equal. f_equal.
  unfold exists_row. rewrite existsb_app. replace (existsb _ new) with false; [apply orb_false_r|].
  symmetry. apply not_true_iff_false. rewrite existsb_exists. intros (i & Hin & Hbad). bsimpl.
  rewrite Forall_forall in Hp. apply list_elem_of_In in Hin. specialize (Hp i Hin). congruence.
Qed.

(** What the request promises for one selected file and its Job. *)
Definition captured (db0 db : catalog) (vault_id : Z) (group_id : string) (requested_at : timestamp)
    (f : selected_file) (j : job) : Prop :=
  j_vault_id j = vault_id ∧ j_vault_file_id j = sf_file_id f ∧ j_action j = "cloud-purge" ∧ j_status j = "pending_delay"
  ∧ j_group_id j = Some group_id ∧ j_requested_at j = requested_at
  ∧ j_pending_until j = Some (requested_at + seconds DELETION_DELAY_SECONDS)
  ∧ map item_target (items_of db (j_id j)) = map target_key (targets_of db0 (sf_file_id f))
  ∧ Forall (fun i => cdi_status i = "pending") (items_of db (j_id j)).

Definition items_have_jobs (db : catalog) : Prop :=
  ∀ i, i ∈ t_items db → cdi_job_id i ∈ map j_id (t_jobs db).

Record admitted_so_far (db0 : catalog) (vault_id : Z) (group_id : string) (requested_at : timestamp)
    (files : list selected_file) (st : catalog * list Z) : Prop := {
  asf_versions : t_versions st.1 = t_versions db0;
  asf_markers : t_markers st.1 = t_markers db0;
  asf_fk : items_have_jobs st.1;
  asf_items : ∃ new, t_items st.1 = t_items db0 ++ new ∧ Forall (fun i => cdi_status i = "pending") new;
  asf_jobs : ∃ new, t_jobs st.1 = t_jobs db0 ++ new ∧ st.2 = map j_id new
    ∧ Forall2 (captured db0 st.1 vault_id group_id requested_at) files new;
}.

Lemma Forall2_and_r {A B} (P : A → B → Prop) (Q : B → Prop) l k :
  Forall2 P l k → Forall Q k → Forall2 (fun x y => P x y ∧ Q y) l k.
Proof.
  induction 1 as [|x y l k Hxy _ IH]; [constructor|]. intros [Hy Hk]%Forall_cons.
  constructor; auto.
Qed.

Lemma items_of_app db db' new job :
  t_items db' = t_items db ++ new →
  items_of db' job = items_of db job ++ select (fun i => cdi_job_id i =b job) new.
Proof. intros H. unfold items_of, select. rewrite H. apply List.filter_app. Qed.

Lemma schedule_file_step db0 vault v a at_ g gp r c o files f st st' :
  admitted_so_far db0 v g at_ files st →
  Forall (fun t => target_is_exact vault t = true) (targets_of db0 (sf_file_id f)) →
  schedule_file v a at_ g gp r c o st f = Ok st' →
  admitted_so_far db0 v g at_ (files ++ [f]) st'.
Proof.
  destruct st as [db ids]. intros [Hv Hm Hfk (newi & Hi & Hp) (newj & Hj & Hids & Hcap)] Hexact.
  unfold schedule_file. cbn [fst snd] in *. rewrite raise_if_bind_ok. intros [_ [= <-]].
  set (job_id := next_id (map j_id (t_jobs db))).
  rewrite (targets_of_more db0 db _ newi) by done. set (ts := targets_of db0 (sf_file_id f)) in *.
  destruct (insert_items_spec job_id v (sf_file_id f) at_ ts (t_items db)) as (new & -> & Hnew & Hkeys).
  rewrite (exact_target_key vault) in Hkeys by done.
  set (j := new_purge_job job_id v f a at_ g gp r c o (sumZ (map ct_size ts))).
  assert (Hold : ∀ i, i ∈ t_items db → cdi_job_id i ≠ job_id).
  { intros i Hin. specialize (Hfk i Hin). apply next_id_fresh in Hfk. fold job_id in Hfk. lia. }
  assert (Hnewsel : ∀ k, select (fun i => cdi_job_id i =b k) new = if bool_decide (job_id = k) then new else []).
  { intros k. case_bool_decide as Ek.
    - unfold select. apply forallb_filter_id, forallb_forall. intros i Hin.
      rewrite Forall_forall in Hnew. apply list_elem_of_In in Hin. destruct (Hnew i Hin). subst.
      by apply bool_decide_eq_true_2.
    - apply filter_none. intros i Hin. rewrite Forall_forall in Hnew. destruct (Hnew i Hin) as [Hji _].
      apply bool_decide_eq_false_2. congruence. }
  set (db' := audit _ _ _ _ _ _).
  assert (Hsel : ∀ k, items_of db' k = items_of db k ++ if bool_decide (job_id = k) then new else []).
  { intros k. by rewrite <- Hnewsel, <- items_of_app with (db' := db'). }
  assert (Hne : Forall (fun j' => job_id ≠ j_id j') newj).
  { apply Forall_forall. intros j' Hj'. enough (j_id j' < job_id) by lia.
    apply next_id_fresh. rewrite Hj, map_app, elem_of_app. right.
    apply list_elem_of_In, in_map, list_elem_of_In, Hj'. }
  constructor; cbn [fst snd].
  - done.
  - done.
  - intros i [Hin|Hin]%elem_of_app; cbn; rewrite map_app, elem_of_app; [left; by apply Hfk|right].
    rewrite Forall_forall in Hnew. destruct (Hnew i Hin) as [-> _]. by left.
  - exists (newi ++ new). cbn. rewrite Hi, app_assoc. split; [done|]. apply Forall_app. split; [done|].
    eapply Forall_impl; [exact Hnew|]. naive_solver.
  - exists (newj ++ [j]). cbn. rewrite Hj, Hids, map_app, <- app_assoc. split; [done|]. split; [done|].
    apply Forall2_app.
    + eapply Forall2_impl; [exact (Forall2_and_r _ _ _ _ Hcap Hne)|].
      intros f' j' [Hc Hjne]. unfold captured in *.
      rewrite Hsel, bool_decide_eq_false_2, app_nil_r by done. exact Hc.
    + constructor; [|constructor]. unfold captured. rewrite Hsel. cbn [j_id j new_purge_job].
      rewrite bool_decide_eq_true_2 by done.
      replace (items_of db job_id) with (@nil cloud_deletion_item).
      2:{ symmetry. apply filter_none. intros i Hin. apply bool_decide_eq_false_2. by apply Hold. }
      repeat split; try done. eapply Forall_impl; [exact Hnew|]. naive_solver.
Qed.

Lemma schedule_loop db0 vault v a at_ g gp r c o files done_ st st' :
  admitted_so_far db0 v g at_ done_ st →
  Forall (fun f => Forall (fun t => target_is_exact vault t = true) (targets_of db0 (sf_file_id f))) files →
  foldM_r (schedule_file v a at_ g gp r c o) st files = Ok st' →
  admitted_so_far db0 v g at_ (done_ ++ files) st'.
Proof.
  revert done_ st; induction files as [|f files IH]; intros done_ st Hst Hex; cbn.
  - intros [= <-]. by rewrite app_nil_r.
  - apply Forall_cons in Hex as [Hf Hex]. rewrite bind_ok. intros (st1 & H1 & H2).
    rewrite (app_assoc done_ [f] files : done_ ++ f :: files = _).
    eapply IH; [|done|exact H2]. by eapply schedule_file_step.
Qed.

Lemma schedule_captures os db vault_id paths is_dir actor at_ conf reason whole origin group_id db' sd :
  items_have_jobs db →
  schedule_cloud_purge os db vault_id paths is_dir actor at_ conf reason whole origin group_id = Ok (db', sd) →
  ∃ vault files jobs,
    lock_vault db vault_id = Ok vault ∧ conf = va_name vault
    ∧ selected_files db vault_id paths is_dir whole = Ok files ∧ files ≠ []
    ∧ Forall (fun f => (sf_presence f = None ∨ sf_presence f = Some Missing)
                       ∧ ∃ v, sf_version f = Some v ∧ av_integrity v = Verified ∧ av_availability v = Available
                              ∧ proved_absent os vault (or_default (sf_path f) "")) files
    ∧ t_jobs db' = t_jobs db ++ jobs ∧ sd_job_ids sd = map j_id jobs ∧ sd_group_id sd = group_id
    ∧ Forall2 (captured db db' vault_id group_id at_) files jobs.
Proof.
  intros Hfk H. unfold schedule_cloud_purge in H. rewrite bind_ok in H. destruct H as (vault & Hl & H).
  rewrite !raise_if_bind_ok in H. destruct H as (_ & _ & Hconf & _ & H).
  rewrite bind_ok in H. destruct H as (preview & Hprev & H).
  rewrite bind_ok in H. destruct H as (files & Hfiles & H).
  rewrite bind_ok in H. destruct H as (st & Hloop & [= <- <-]).
  unfold preview_selection in Hprev. rewrite Hl in Hprev. cbn [mbind result_bind] in Hprev.
  rewrite Hfiles in Hprev. cbn [mbind result_bind] in Hprev.
  rewrite raise_if_bind_ok, bind_ok in Hprev. destruct Hprev as (Hne & [] & Hval & _).
  unfold validate_files in Hval. rewrite raise_if_bind_ok, bind_ok in Hval.
  destruct Hval as (_ & [] & Hval & Habs). rewrite for_each_ok in Hval. bsimpl.
  assert (Hex : Forall (fun f => Forall (fun t => target_is_exact vault t = true) (targets_of db (sf_file_id f))) files).
  { eapply Forall_impl; [exact Hval|]. intros f Hf. by apply validate_file_ok in Hf as (_ & _ & _ & _ & ?). }
  assert (Hstart : admitted_so_far db vault_id group_id at_ [] (db, [])).
  { constructor; cbn; try done; exists []; by rewrite app_nil_r. }
  destruct (schedule_loop _ _ _ _ _ _ _ _ _ _ _ _ _ _ Hstart Hex Hloop) as [_ _ _ _ (jobs & Hj & Hids & Hcap)].
  exists vault, files, jobs. repeat split; try done.
  - by intros ->.
  - rewrite Forall_forall in Hval |- *. intros f Hf. specialize (Hval f Hf).
    apply validate_file_ok in Hval as (Hp & (v & ? & ? & ?) & _). split; [done|]. exists v.
    do 3 (split; [done|]). eapply require_local_absence_sound; [exact Habs|].
    rewrite list_elem_of_In. apply in_map_iff. exists f. by rewrite <- list_elem_of_In.
Qed.

(** A deletion request captures exact targets once.  When
    [schedule_cloud_purge] succeeds, every selected file was Cloud-only, the only
    change to the Jobs is one new Job per selected file, waiting until exactly
    seven days after the request, and the items of each Job are, in order, all
    cloud versions and delete markers the file had, nothing else. *)
Theorem schedule_captures_exact_targets os db vault_id paths is_dir actor at_ conf reason whole origin group_id db' sd :
  items_have_jobs db →
  schedule_cloud_purge os db vault_id paths is_dir actor at_ conf reason whole origin group_id = Ok (db', sd) →
  ∃ vault files jobs,
    lock_vault db vault_id = Ok vault ∧ conf = va_name vault
    ∧ selected_files db vault_id paths is_dir whole = Ok files ∧ files ≠ []
    ∧ Forall (fun f => (sf_presence f = None ∨ sf_presence f = Some Missing)
                       ∧ ∃ v, sf_version f = Some v ∧ av_integrity v = Verified ∧ av_availability v = Available
                              ∧ proved_absent os vault (or_default (sf_path f) "")) files
    ∧ t_jobs db' = t_jobs db ++ jobs ∧ sd_job_ids sd = map j_id jobs ∧ sd_group_id sd = group_id
    ∧ Forall2 (captured db db' vault_id group_id at_) files jobs.
Proof. apply schedule_captures. Qed.

(** ** Bookkeeping *)
Lemma chunks_elem {A} (n : nat) (l : list A) b x :
  b ∈ chunks n l → x ∈ b → x ∈ l.
Proof.
  unfold chunks. generalize (length l) as fuel. intros fuel. revert l.
  induction fuel as [|fuel IH]; intros l; cbn; [destruct l; by intros ?%not_elem_of_nil|].
  destruct l as [|y l]; [by intros ?%not_elem_of_nil|].
  intros [->|Hb]%elem_of_cons Hx.
  - rewrite <- (take_drop n (y :: l)). apply elem_of_app. by left.
  - rewrite <- (take_drop n (y :: l)). apply elem_of_app. right. by eapply IH.
Qed.

Lemma mark_batch_tables at_ db batch :
  let db' := mark_deleted_batch at_ db batch in
  t_versions db' = update_where
    (fun v => av_id v ∈b omap cdi_archive_version_id
                (List.filter cdi_is_version (select (fun i => cdi_id i ∈b batch) (t_items db))))
    (purge_version at_) (t_versions db)
  ∧ t_items db' = update_where (fun i => cdi_id i ∈b batch) (set_item "deleted" None at_) (t_items db).
Proof.
  cbn zeta. unfold mark_deleted_batch. cbn zeta.
  assert (Hsame : ∀ l d, same_but_dirty (foldl (fun db p => invalidate_for_vault_file p.1 (Some p.2) db) d l) d).
  { intros l d. apply foldl_same. intros; apply mark_file_same. }
  split.
  - rewrite (same_versions _ _ (Hsame _ _)), (same_versions _ _ (invalidate_versions_same _ _)). done.
  - rewrite (same_items _ _ (Hsame _ _)), (same_items _ _ (invalidate_versions_same _ _)). done.
Qed.

(** The items an id list names, by what they capture. *)
Definition names_version (db : catalog) (ids : list Z) (version : string) : Prop :=
  ∃ i, i ∈ t_items db ∧ cdi_id i ∈ ids ∧ cdi_archive_version_id i = Some version.

Lemma mark_batch_names at_ db batch ids v :
  names_version (mark_deleted_batch at_ db batch) ids v → names_version db ids v.
Proof.
  intros (i & Hi & Hid & Hv). destruct (mark_batch_tables at_ db batch) as [_ Ht]. cbn zeta in Ht.
  rewrite Ht in Hi. apply elem_of_update_where in Hi as (i0 & Hi0 & ->).
  exists i0. split; [done|]. by case_bool_decide.
Qed.

Lemma mark_batches_versions at_ ids bs db v' :
  (∀ b x, b ∈ bs → x ∈ b → x ∈ ids) →
  v' ∈ t_versions (foldl (mark_deleted_batch at_) db bs) →
  v' ∈ t_versions db
  ∨ ∃ v, v ∈ t_versions db ∧ v' = purge_version at_ v ∧ names_version db ids (av_id v).
Proof.
  revert db; induction bs as [|b bs IH]; intros db Hb Hv'; [by left|]. cbn in Hv'.
  destruct (mark_batch_tables at_ db b) as [Ht _]. cbn zeta in Ht.
  assert (Hone : ∀ v, v ∈ t_versions (mark_deleted_batch at_ db b) → v ∈ t_versions db
     ∨ ∃ w, w ∈ t_versions db ∧ v = purge_version at_ w ∧ names_version db ids (av_id w)).
  { intros v Hv. rewrite Ht in Hv. apply elem_of_update_where in Hv as (w & Hw & ->).
    case_bool_decide as Hin; [|by left]. right. exists w. split; [done|]. split; [done|].
    apply list_elem_of_omap in Hin as (i & Hi & Hav).
    rewrite list_elem_of_In, filter_In, <- list_elem_of_In in Hi. destruct Hi as [Hi _].
    apply elem_of_select in Hi as [Hi Hid]. bsimpl. exists i. split; [done|]. split; [|done].
    eapply Hb; [by left|done]. }
  destruct (IH (mark_deleted_batch at_ db b)) as [H|(v & Hv & -> & Hn)].
  - intros b' x Hb'. apply Hb. by right.
  - done.
  - by apply Hone.
  - right. apply mark_batch_names in Hn. destruct (Hone v Hv) as [Hold|(w & Hw & -> & Hn')].
    + by exists v.
    + by exists w.
Qed.

(** Only captured versions are marked purged.  After [mark_items_deleted], in
    batches of 500, every Archive Version is as before, except that those an item
    of the given list names are purged at the given time. *)
Theorem only_captured_versions_purged db item_ids at_ v' :
  v' ∈ t_versions (mark_items_deleted db item_ids at_) →
  v' ∈ t_versions db
  ∨ ∃ v i, v ∈ t_versions db ∧ v' = purge_version at_ v
      ∧ i ∈ t_items db ∧ cdi_id i ∈ item_ids ∧ cdi_archive_version_id i = Some (av_id v).
Proof.
  intros H. unfold mark_items_deleted in H.
  destruct (mark_batches_versions at_ item_ids (chunks 500 item_ids) db v') as [?|(v & Hv & -> & i & ?)];
    [intros; by eapply chunks_elem|done|by left|].
  right. exists v, i. naive_solver.
Qed.

(** A purge Job completes only when everything it captured is gone.
    [finalize_purge_job] answers [completed] exactly when the Job has items and
    all of them are deleted, writes that status, and a file is retired as purged
    only on completion and only when it has no version left that is not purged. *)
Theorem finalize_purge_job_spec db job_id file actor at_ db' status :
  finalize_purge_job db job_id file actor at_ = Ok (db', status) →
  (status = "completed" ↔ items_of db job_id ≠ [] ∧ ∀ i, i ∈ items_of db job_id → cdi_status i = "deleted")
  ∧ (∀ j, j ∈ t_jobs db' → j_id j = job_id → j_status j = status)
  ∧ (∀ f, f ∈ t_files db' → f ∈ t_files db
       ∨ status = "completed" ∧ vf_id f = file ∧ vf_status f = FilePurged
         ∧ ∀ v, v ∈ t_versions db → av_vault_file_id v = file → av_availability v = Purged).
Proof.
  unfold finalize_purge_job. cbn zeta.
  set (completed := negb (bool_decide (map cdi_id (items_of db job_id) = []))
                    && forallb (fun i => cdi_status i =b "deleted") (items_of db job_id)).
  assert (Hc : completed = true ↔ items_of db job_id ≠ [] ∧ ∀ i, i ∈ items_of db job_id → cdi_status i = "deleted").
  { unfold completed. rewrite andb_true_iff, negb_true_iff, bool_decide_eq_false, forallb_forall.
    setoid_rewrite <- list_elem_of_In. setoid_rewrite bool_decide_eq_true.
    destruct (items_of db job_id); cbn; naive_solver. }
  clearbody completed. destruct (fetchone _ (t_jobs db)) as [j0|] eqn:E; [|done].
  set (db1 := set_jobs _ db). intros [= <- <-]. split; [|split].
  - rewrite <- Hc. by destruct completed.
  - intros j. replace (t_jobs (audit _ _ _ _ _ _)) with (t_jobs db1).
    + intros (j1 & Hj1 & ->)%elem_of_update_where. case_bool_decide as Hid; cbn; [done|]. by intros.
    + cbn. destruct (_ && _); [|done]. by rewrite (same_jobs _ _ (mark_file_same _ _ _)).
  - intros f Hf. cbn [audit set_audit t_files] in Hf. destruct completed; cbn [andb] in Hf; [|by left].
    case_bool_decide as Hnone; [|by left]. rewrite (same_files _ _ (mark_file_same _ _ _)) in Hf.
    apply elem_of_update_where in Hf as (f0 & Hf0 & ->).
    case_bool_decide as Hid; [|by left]. right. repeat split; try done. intros v Hv Hvf.
    destruct (decide (av_availability v = Purged)) as [|Hne]; [done|]. exfalso.
    apply (not_elem_of_nil (av_id v)). rewrite <- Hnone.
    apply list_elem_of_In, in_map, list_elem_of_In. unfold versions_of.
    rewrite sort_by_perm, elem_of_select. split; [done|].
    by rewrite bool_decide_eq_true_2, bool_decide_eq_false_2.
Qed.

(** ** Witnesses: one Cloud-only file of one Vault *)
Definition w_os : os_view :=
  {| handle := unit; os_slash := Found tt;
     os_open := fun _ d => if d =b "src" then Found tt else NotFound;
     os_stat := fun _ _ => NotFound; os_device := fun _ => 1; os_is_mount := fun _ => false;
     os_opened_identity := fun _ => Found "id"; os_root_identity := fun _ => Found "id";
     os_access_before := fun _ => true; os_access_after := fun _ => true |}.

Definition w_vault : vault :=
  {| va_id := 1; va_enabled := true; va_decommission_state := Some "active";
     va_relocation_state := "ready"; va_source_root := "/src"; va_name := "Photos";
     va_s3_prefix := "vaults/photos"; va_root_released_at := None; va_decommissioned_at := None;
     va_root_identity := Some "id"; va_root_identity_version := Some ROOT_IDENTITY_VERSION |}.

Definition w_cloud_version : archive_version :=
  {| av_id := "v1"; av_vault_file_id := "f"; av_vault_id := 1; av_version_number := 1;
     av_object_key := Some "vaults/photos/a/b.txt"; av_provider_version_id := Some "p1";
     av_size := Some 10; av_storage_class := None; av_plaintext_sha256 := Some "h";
     av_origin := Upload; av_integrity := Verified; av_verified_at := Some 0;
     av_availability := Available; av_availability_checked_at := None; av_restore_state := None; av_placement := new_placement 0;
     av_evidence := no_evidence |}.

Definition w_catalog : catalog :=
  {| t_vaults := [w_vault];
     t_files := [{| vf_id := "f"; vf_vault_id := 1; vf_status := Active; vf_created_at := 0;
                    vf_retired_at := None |}];
     t_paths := [{| fp_vault_file_id := "f"; fp_vault_id := 1; fp_path := "a/b.txt";
                    fp_valid_from := 0; fp_valid_to := None |}];
     t_versions := [w_cloud_version]; t_markers := []; t_copies := []; t_jobs := []; t_items := [];
     t_stops := []; t_policies := []; t_health := []; t_audit := []; t_dirty := []; t_rebuilds := []; t_incidents := [];
     t_outbox := [] |}.

Definition w_request : result (catalog * ScheduledDeletion) :=
  schedule_cloud_purge w_os w_catalog 1 ["a/b.txt"] false 7 0 "Photos" "cleanup" false "manual" "g".

Definition w_preview : DeletionPreview :=
  {| object_count := 1; version_count := 1; delete_marker_count := 0; byte_count := 10 |}.

Definition w_scheduled : catalog := match w_request with Ok (db, _) => db | Raise _ => w_catalog end.

Definition w_week : timestamp := seconds DELETION_DELAY_SECONDS.

Lemma schedule_captures_exact_targets_witness :
  ∃ jobs, t_jobs w_scheduled = t_jobs w_catalog ++ jobs ∧ jobs ≠ [].
Proof.
  destruct (schedule_captures_exact_targets w_os w_catalog 1 ["a/b.txt"] false 7 0 "Photos" "cleanup" false "manual" "g"
              w_scheduled {| sd_group_id := "g"; sd_job_ids := [1]; sd_preview := w_preview; sd_pending_until := w_week |})
    as (vault & files & jobs & _ & _ & _ & Hne & _ & Hj & _ & _ & Hcap).
  - intros i Hi. by apply not_elem_of_nil in Hi.
  - vm_compute. reflexivity.
  - exists jobs. split; [exact Hj|]. intros ->. by inversion Hcap.
Defined.

Lemma validate_execution_sound_witness :
  validate_execution w_os w_scheduled 1 "g" w_week = Ok (w_scheduled, true)
  ∧ ∀ j, j ∈ group_rows w_scheduled 1 "g" → job_is_active j = true →
      execution_authority w_os w_scheduled w_vault "g" w_week j.
Proof.
  split; [vm_compute; reflexivity|].
  destruct (validate_execution_sound w_os w_scheduled 1 "g" w_week w_scheduled)
    as (_ & vault & Hl & _ & H).
  - vm_compute. reflexivity.
  - vm_compute in Hl. injection Hl as <-. exact H.
Defined.

Lemma refused_execution_revokes_witness :
  ∃ db', validate_execution w_os w_scheduled 1 "g" (w_week - 1) = Ok (db', false)
    ∧ ∀ j, j ∈ group_rows db' 1 "g" → job_is_active j = false.
Proof.
  eexists. split; [vm_compute; reflexivity|].
  eapply (refused_execution_revokes w_os w_scheduled 1 "g" (w_week - 1)).
  - apply NoDup_singleton.
  - vm_compute. reflexivity.
Defined.

Lemma cancel_is_final_witness :
  is_ok (cancel_cloud_deletion w_scheduled 1 "g" (Some 7) 5) = true
  ↔ group_rows w_scheduled 1 "g" ≠ []
    ∧ ∀ j, j ∈ group_rows w_scheduled 1 "g" → j_status j = "pending_delay" ∧ truthy (j_claim_token j) = false.
Proof. apply (cancel_is_final w_scheduled 1 "g" (Some 7) 5 w_vault). reflexivity. Defined.

Lemma only_captured_versions_purged_witness :
  purge_version 9 w_cloud_version ∈ t_versions w_scheduled
  ∨ ∃ v i, v ∈ t_versions w_scheduled ∧ purge_version 9 w_cloud_version = purge_version 9 v
      ∧ i ∈ t_items w_scheduled ∧ cdi_id i ∈ [1] ∧ cdi_archive_version_id i = Some (av_id v).
Proof.
  apply (only_captured_versions_purged w_scheduled [1] 9). vm_compute. left.
Defined.

Lemma finalize_purge_job_spec_witness :
  ∃ db', finalize_purge_job (mark_items_deleted w_scheduled [1] 9) 1 "f" (Some 7) 9 = Ok (db', "completed")
    ∧ ∀ j, j ∈ t_jobs db' → j_id j = 1 → j_status j = "completed".
Proof.
  eexists. split; [vm_compute; reflexivity|].
  eapply (finalize_purge_job_spec (mark_items_deleted w_scheduled [1] 9) 1 "f" (Some 7) 9).
  vm_compute. reflexivity.
Defined.
