(* ===== verification/ProtectionStop.v ===== *)
(** * ProtectionStop: stopping the protection of a folder

    Models [src/app/services/protection_stop.py] on the shared [catalog].
    [now_iso()] is an argument; [lock_vault_root_allocation] is an advisory lock
    and changes no table. *)
From S2P Require Import Prelude Sql PyString VaultPaths Schema ProtectionStates DirectoryAggregates JobScheduler JobClaims DirtyMarks CloudDeletion.

Definition local_work_suspended (v : vault) : bool :=
  negb ((if truthy (va_decommission_state v) then or_default (va_decommission_state v) "" else "active")
        =b "active").

Definition stop_of (db : catalog) (vault_id : Z) : option protection_stop :=
  fetchone (fun s => ps_vault_id s =b vault_id) (t_stops db).

Definition stop_jobs (db : catalog) (vault_id : Z) (group_id : option string) : list job :=
  select (fun j => (j_vault_id j =b vault_id)
                   && match group_id with Some g => bool_decide (j_group_id j = Some g) | None => false end)
    (t_jobs db).

Record stop_status := {
  st_vault_id : Z;
  st_vault_name : string;
  st_stopped : bool;
  st_root_released : bool;
  st_cloud_disposition : string;
  st_group_id : option string;
  st_jobs : list job;
  st_cancellable : bool;
  st_pending_until : option timestamp;
}.

(** [max(..., default=None)]. *)
Definition max_pending (jobs : list job) : option timestamp :=
  foldr (fun j m => match j_pending_until j, m with
                    | Some t, Some u => Some (Z.max t u)
                    | Some t, None => Some t
                    | None, m => m
                    end) None jobs.

Definition status (db : catalog) (vault_id : Z) : result stop_status :=
  match fetchone (fun v => va_id v =b vault_id) (t_vaults db) with
  | None => Raise (ValueError "Vault not found")
  | Some vault =>
      let stop := stop_of db vault_id in
      let group := stop ≫= ps_group_id in
      let jobs := if truthy group then sort_by (fun a b => j_id a <=? j_id b) (stop_jobs db vault_id group) else [] in
      Ok {| st_vault_id := vault_id; st_vault_name := va_name vault;
            st_stopped := negb (bool_decide (va_decommission_state vault = Some "active"));
            st_root_released := is_some (va_root_released_at vault);
            st_cloud_disposition := match stop with Some s => ps_cloud_disposition s | None => "keep" end;
            st_group_id := group; st_jobs := jobs;
            st_cancellable := negb (bool_decide (jobs = []))
                              && forallb (fun j => j_status j =b "pending_delay") jobs;
            st_pending_until := max_pending jobs |}
  end.

Definition keep_cloud (vault_id : Z) (db : catalog) : catalog :=
  set_stops (update_where (fun s => ps_vault_id s =b vault_id)
               (fun s => {| ps_vault_id := ps_vault_id s; ps_requested_at := ps_requested_at s;
                            ps_requested_by := ps_requested_by s; ps_cloud_disposition := "keep";
                            ps_group_id := ps_group_id s; ps_reason := ps_reason s |}) (t_stops db)) db.

Definition set_lifecycle (state : string) (decommissioned released : option timestamp) (v : vault) : vault :=
  {| va_id := va_id v; va_enabled := va_enabled v; va_decommission_state := Some state;
     va_relocation_state := va_relocation_state v; va_source_root := va_source_root v;
     va_name := va_name v; va_s3_prefix := va_s3_prefix v; va_root_released_at := released;
     va_decommissioned_at := decommissioned; va_root_identity := va_root_identity v;
     va_root_identity_version := va_root_identity_version v |}.

Definition update_vault (vault_id : Z) (f : vault → vault) (db : catalog) : catalog :=
  set_vaults (update_where (fun v => va_id v =b vault_id) f (t_vaults db)) db.

Definition release_root (vault_id : Z) (now : timestamp) (db : catalog) : catalog :=
  audit "folder_protection.root_released" None vault_id None "success"
    (update_vault vault_id (set_lifecycle "decommissioned" (Some now) (Some now)) db).

Definition reconcile_one (db : catalog) (vault_id : Z) (now : timestamp) : result catalog :=
  vault ← lock_vault db vault_id;
  match stop_of db vault_id with
  | None => Ok db
  | Some stop =>
      if is_some (va_root_released_at vault) then Ok db
      else if truthy (ps_group_id stop) && (ps_cloud_disposition stop =b "delete") then
        let jobs := stop_jobs db vault_id (ps_group_id stop) in
        if (bool_decide (jobs = [])) || existsb (fun j => negb (j_status j ∈b ["completed"; "cancelled"])) jobs
        then Ok db
        else
          let db1 := if existsb (fun j => j_status j =b "cancelled") jobs then keep_cloud vault_id db else db in
          Ok (release_root vault_id now db1)
      else Ok (release_root vault_id now db)
  end.

Definition vault_has_active_jobs (db : catalog) (vault_id : Z) : bool :=
  exists_row (fun j => (j_vault_id j =b vault_id) && job_is_active j) (t_jobs db).

(** The cloud deletion a stop starts, if it asks for one and there is content. *)
Definition schedule_deletion (os : os_view) (db : catalog) (vault_id actor : Z)
    (cloud_disposition confirmation reason group_uuid : string) (now : timestamp)
  : result (catalog * option string) :=
  if cloud_disposition =b "delete" then
    files ← selected_files db vault_id [] false true;
    match files with
    | [] => Ok (db, None)
    | _ =>
        r ← schedule_cloud_purge os db vault_id [] false actor now confirmation reason true
              "stop-protection" group_uuid;
        Ok (r.1, Some (sd_group_id r.2))
    end
  else Ok (db, None).

Definition stop_protection (os : os_view) (db : catalog) (vault_id actor : Z)
    (cloud_disposition confirmation reason group_uuid : string) (now : timestamp)
  : result (catalog * stop_status) :=
  vault ← lock_vault db vault_id;
  raise! ConfirmationRequired "Type the exact Vault name to confirm" when confirmation <>b va_name vault;
  raise! ValueError "Choose keep or delete and provide a reason" when
    negb (cloud_disposition ∈b ["keep"; "delete"]) || (py_strip reason =b "");
  if negb (bool_decide (va_decommission_state vault = Some "active")) then
    match stop_of db vault_id with
    | None => Raise (ValueError "Folder protection has already stopped")
    | Some existing =>
        if ps_cloud_disposition existing =b cloud_disposition then
          st ← status db vault_id; Ok (db, st)
        else if (cloud_disposition =b "keep") && is_none (va_root_released_at vault)
                && negb (vault_has_active_jobs db vault_id) then
          let db1 := audit "folder_protection.cloud_retained" (Some actor) vault_id None "success"
                       (keep_cloud vault_id db) in
          db2 ← reconcile_one db1 vault_id now;
          st ← status db2 vault_id; Ok (db2, st)
        else Raise (ValueError "Folder protection has already stopped")
    end
  else
    raise! ValueError "Reconnect must complete before deleting cloud content" when
      (cloud_disposition =b "delete") && (va_relocation_state vault <>b "ready");
    raise! ValueError "Wait for active Jobs or cancel pending work first" when
      vault_has_active_jobs db vault_id;
    scheduled ← schedule_deletion os db vault_id actor cloud_disposition confirmation reason group_uuid now;
    raise! IntegrityError "protection_stops_pkey" when is_some (stop_of db vault_id);
    let stop := {| ps_vault_id := vault_id; ps_requested_at := now; ps_requested_by := Some actor;
                   ps_cloud_disposition := cloud_disposition; ps_group_id := scheduled.2;
                   ps_reason := py_strip reason |} in
    let db1 := set_stops (t_stops scheduled.1 ++ [stop]) scheduled.1 in
    let db2 := update_vault vault_id (fun v => set_lifecycle "decommissioning" (va_decommissioned_at v)
                                                 (va_root_released_at v) v) db1 in
    let db3 := audit "folder_protection.stopped" (Some actor) vault_id None "requested" db2 in
    db4 ← reconcile_one db3 vault_id now;
    st ← status db4 vault_id; Ok (db4, st).

Definition cancel_deletion (db : catalog) (vault_id actor : Z) (now : timestamp)
  : result (catalog * stop_status) :=
  _ ← lock_vault db vault_id;
  match stop_of db vault_id with
  | None => Raise (ValueError "No pending cloud deletion")
  | Some stop =>
      raise! ValueError "No pending cloud deletion" when negb (truthy (ps_group_id stop));
      r ← cancel_cloud_deletion db vault_id (or_default (ps_group_id stop) "") (Some actor) now;
      db2 ← reconcile_one (keep_cloud vault_id r.1) vault_id now;
      st ← status db2 vault_id; Ok (db2, st)
  end.

(** [reconcile_all]: one transaction per stop; an exception ends the loop. *)
Definition reconcile_all (db : catalog) (now : timestamp) : result catalog :=
  foldM_r (fun db v => reconcile_one db v now) db (map ps_vault_id (t_stops db)).

(** ** Frames *)
Definition same_frame (a b : catalog) : Prop :=
  t_vaults a = t_vaults b ∧ t_files a = t_files b ∧ t_paths a = t_paths b ∧ t_versions a = t_versions b
  ∧ t_copies a = t_copies b ∧ t_stops a = t_stops b ∧ t_policies a = t_policies b.

Lemma schedule_frame os db v paths d a at_ c r w o g db' sd :
  schedule_cloud_purge os db v paths d a at_ c r w o g = Ok (db', sd) → same_frame db' db.
Proof.
  unfold schedule_cloud_purge. intros H. rewrite bind_ok in H. destruct H as (vault & _ & H).
  rewrite !raise_if_bind_ok in H. destruct H as (_ & _ & _ & _ & H).
  rewrite bind_ok in H. destruct H as (preview & _ & H).
  rewrite bind_ok in H. destruct H as (files & _ & H).
  rewrite bind_ok in H. destruct H as (st & Hloop & [= <- _]).
  apply (foldM_r_invariant (fun st => same_frame st.1 db)) in Hloop; [done| |done].
  intros [db1 ids] f [db2 ids2] _ Hs Hf. unfold schedule_file in Hf.
  rewrite raise_if_bind_ok in Hf. destruct Hf as [_ [= <- <-]]. exact Hs.
Qed.

Lemma schedule_requires_root os db v paths d a at_ c r w o g db' sd vault :
  schedule_cloud_purge os db v paths d a at_ c r w o g = Ok (db', sd) →
  lock_vault db v = Ok vault → va_root_released_at vault = None.
Proof.
  unfold schedule_cloud_purge. intros H Hl. rewrite Hl in H. cbn [mbind result_bind] in H.
  rewrite raise_if_bind_ok in H. destruct H as [H _]. apply orb_false_iff in H as [_ H].
  by destruct (va_root_released_at vault).
Qed.

Lemma lock_update db v f vault :
  (∀ x, va_id (f x) = va_id x) →
  lock_vault db v = Ok vault → lock_vault (update_vault v f db) v = Ok (f vault).
Proof.
  intros Hid. unfold lock_vault, update_vault. cbn [t_vaults set_vaults].
  rewrite fetchone_update by (intros x; by rewrite Hid).
  destruct (fetchone _ (t_vaults db)) as [v0|] eqn:E; [|done]. intros [= ->]. cbn.
  apply fetchone_some in E as [_ E]. by rewrite E.
Qed.

Lemma reconcile_cases db v now db' vault :
  reconcile_one db v now = Ok db' → lock_vault db v = Ok vault →
  db' = db
  ∨ va_root_released_at vault = None
    ∧ ∃ stop, stop_of db v = Some stop
      ∧ (truthy (ps_group_id stop) = true → ps_cloud_disposition stop = "delete" →
         stop_jobs db v (ps_group_id stop) ≠ []
         ∧ ∀ j, j ∈ stop_jobs db v (ps_group_id stop) → j_status j ∈ ["completed"; "cancelled"])
      ∧ (db' = release_root v now db ∨ db' = release_root v now (keep_cloud v db)).
Proof.
  unfold reconcile_one. intros H Hl. rewrite Hl in H. cbn [mbind result_bind] in H.
  destruct (stop_of db v) as [stop|] eqn:Es; [|inv_ok; subst; by left].
  destruct (va_root_released_at vault) eqn:Er; cbn [is_some is_none negb] in H; [inv_ok; subst; by left|].
  destruct (truthy (ps_group_id stop)) eqn:Eg; cbn [andb] in H.
  2:{ inv_ok. subst. right. split; [done|]. exists stop. split; [done|]. split; [by rewrite Eg|]. by left. }
  case_bool_decide as Ed.
  2:{ inv_ok. subst. right. split; [done|]. exists stop. split; [done|]. split; [by intros _ ?|]. by left. }
  destruct (_ || existsb _ _) eqn:Ej in H; [inv_ok; subst; by left|]. inv_ok. subst.
  right. split; [done|]. exists stop. split; [done|]. split.
  - intros _ _. apply orb_false_iff in Ej as [Ej1 Ej2]. bsimpl. split; [done|]. intros j Hj.
    apply not_true_iff_false in Ej2. rewrite existsb_exists in Ej2.
    destruct (decide (j_status j ∈ ["completed"; "cancelled"])) as [|Hn]; [done|].
    exfalso. apply Ej2. exists j. rewrite <- list_elem_of_In. split; [done|]. by rewrite bool_decide_eq_false_2.
  - destruct (existsb (fun j => j_status j =b "cancelled") _); auto.
Qed.

(** A root is released only after its deletion ended.  [reconcile_one] leaves
    Jobs and Local Copies alone; it releases the root of a stopped Vault only when
    a stop is on record and either no cloud deletion belongs to it or every Job of
    that deletion is completed or cancelled (a failed one keeps the root). *)
Theorem root_released_after_deletion db vault_id now db' vault vault' :
  reconcile_one db vault_id now = Ok db' →
  lock_vault db vault_id = Ok vault → va_root_released_at vault = None →
  lock_vault db' vault_id = Ok vault' →
  t_jobs db' = t_jobs db ∧ t_copies db' = t_copies db
  ∧ (va_root_released_at vault' ≠ None →
     va_decommission_state vault' = Some "decommissioned"
     ∧ ∃ stop, stop_of db vault_id = Some stop
       ∧ (truthy (ps_group_id stop) = true → ps_cloud_disposition stop = "delete" →
          stop_jobs db vault_id (ps_group_id stop) ≠ []
          ∧ ∀ j, j ∈ stop_jobs db vault_id (ps_group_id stop) → j_status j ∈ ["completed"; "cancelled"])).
Proof.
  intros H Hl Hnone Hl'. destruct (reconcile_cases _ _ _ _ _ H Hl) as [->|(_ & stop & Hs & Hjobs & Hdb)].
  { rewrite Hl in Hl'. injection Hl' as <-. repeat split; try done. }
  assert (Hrel : lock_vault db' vault_id = Ok (set_lifecycle "decommissioned" (Some now) (Some now) vault)).
  { destruct Hdb as [->| ->]; unfold release_root;
      by apply (lock_update _ _ (set_lifecycle "decommissioned" (Some now) (Some now))). }
  rewrite Hrel in Hl'. injection Hl' as <-.
  split; [by destruct Hdb as [->| ->]|]. split; [by destruct Hdb as [->| ->]|].
  intros _. split; [done|]. by exists stop.
Qed.

Lemma stop_of_append db v stop :
  stop_of db v = None → ps_vault_id stop = v →
  stop_of (set_stops (t_stops db ++ [stop]) db) v = Some stop.
Proof.
  unfold stop_of. cbn [t_stops set_stops]. intros H1 H2. unfold fetchone in *.
  induction (t_stops db) as [|s l IH]; cbn in *; [by rewrite bool_decide_eq_true_2|].
  by destruct (ps_vault_id s =b v); [|apply IH].
Qed.

Lemma no_active_jobs db v :
  vault_has_active_jobs db v = false → ∀ j, j ∈ t_jobs db → j_vault_id j = v → job_is_active j = false.
Proof.
  intros H j Hj Hv. unfold vault_has_active_jobs in H. rewrite exists_row_false in H.
  specialize (H j Hj). by rewrite bool_decide_eq_true_2 in H.
Qed.

(** What [stop_protection] hands to [reconcile_one]: the Vault is quiesced and the
    stop is on record. *)
Lemma stopping_state db0 db v stop vault :
  same_frame db db0 → lock_vault db0 v = Ok vault → stop_of db0 v = None → ps_vault_id stop = v →
  let db3 := update_vault v (fun x => set_lifecycle "decommissioning" (va_decommissioned_at x)
                                        (va_root_released_at x) x)
               (set_stops (t_stops db ++ [stop]) db) in
  lock_vault db3 v = Ok (set_lifecycle "decommissioning" (va_decommissioned_at vault)
                           (va_root_released_at vault) vault)
  ∧ stop_of db3 v = Some stop ∧ t_jobs db3 = t_jobs db.
Proof.
  intros (Hv & _ & _ & _ & _ & Hs & _) Hl Hstop Hid. cbn zeta. split; [|split; [|done]].
  - apply (lock_update _ v (fun x => set_lifecycle "decommissioning" (va_decommissioned_at x)
                                       (va_root_released_at x) x)); [done|].
    unfold lock_vault in *. cbn [t_vaults set_stops]. by rewrite Hv.
  - apply (stop_of_append db v stop); [|done]. unfold stop_of in *. by rewrite Hs.
Qed.

Lemma schedule_deletion_frame os db vault_id actor disposition conf reason group_uuid now db1 group vault :
  items_have_jobs db → lock_vault db vault_id = Ok vault →
  schedule_deletion os db vault_id actor disposition conf reason group_uuid now = Ok (db1, group) →
  same_frame db1 db ∧ (group = None → t_jobs db1 = t_jobs db)
  ∧ (group ≠ None → group = Some group_uuid ∧ disposition = "delete" ∧ va_root_released_at vault = None
       ∧ ∃ j, j ∈ t_jobs db1 ∧ j_vault_id j = vault_id ∧ j_group_id j = Some group_uuid ∧ j_status j = "pending_delay").
Proof.
  intros Hfk Hl Hsched. unfold schedule_deletion in Hsched.
  destruct (disposition =b "delete") eqn:Ed; [|injection Hsched as <- <-; by repeat split].
  rewrite bind_ok in Hsched. destruct Hsched as (files & _ & Hsched).
  destruct files as [|f fs]; [injection Hsched as <- <-; by repeat split|].
  rewrite bind_ok in Hsched. destruct Hsched as ([db1' sd] & Hpurge & [= <- <-]).
  split; [by eapply schedule_frame|]. split; [done|]. intros _.
  destruct (schedule_captures _ _ _ _ _ _ _ _ _ _ _ _ _ _ Hfk Hpurge)
    as (vault0 & files & jobs & _ & _ & _ & Hne & _ & Hj & _ & Hgid & Hcap).
  split; [cbn; by rewrite Hgid|]. split; [by bsimpl|]. split; [by eapply schedule_requires_root|].
  destruct Hcap as [|f0 j fs0 js Hc _]; [done|].
  destruct Hc as (? & _ & _ & ? & ? & _). exists j. repeat split; try done.
  cbn. rewrite Hj. apply elem_of_app. right. by left.
Qed.

(** Stopping never removes data and never frees a root that work still needs.
    When [stop_protection] succeeds on an active Vault, the Vault is no longer
    active, Local Copies, Vault Files and Archive Versions are unchanged, and if
    the root is released then no Job of the Vault is active. *)
Theorem stop_protection_is_safe os db vault_id actor disposition conf reason group_uuid now db' st vault vault' :
  items_have_jobs db → group_uuid ≠ "" →
  lock_vault db vault_id = Ok vault → va_decommission_state vault = Some "active" →
  stop_protection os db vault_id actor disposition conf reason group_uuid now = Ok (db', st) →
  lock_vault db' vault_id = Ok vault' →
  t_copies db' = t_copies db ∧ t_files db' = t_files db ∧ t_versions db' = t_versions db
  ∧ va_decommission_state vault' ≠ Some "active"
  ∧ (va_root_released_at vault' ≠ None →
     ∀ j, j ∈ t_jobs db' → j_vault_id j = vault_id → job_is_active j = false).
Proof.
  intros Hfk Hg Hl Hact H Hl'. unfold stop_protection in H. rewrite Hl in H. cbn [mbind result_bind] in H.
  rewrite !raise_if_bind_ok in H. destruct H as (_ & _ & H). rewrite Hact in H.
  rewrite (bool_decide_eq_true_2 (Some "active" = Some "active")) in H by done. cbn [negb] in H.
  rewrite !raise_if_bind_ok in H. destruct H as (_ & Hnoact & H).
  rewrite bind_ok in H. destruct H as ([db1 group] & Hsched & H).
  rewrite raise_if_bind_ok in H. destruct H as [Hnostop H].
  assert (Hstop0 : stop_of db vault_id = None) by (by destruct (stop_of db vault_id)).
  set (stop := {| ps_vault_id := vault_id |}) in H.
  rewrite bind_ok in H. destruct H as (db4 & Hrec & H).
  rewrite bind_ok in H. destruct H as (s & _ & [= <- _]).
  destruct (schedule_deletion_frame _ _ _ _ _ _ _ _ _ _ _ _ Hfk Hl Hsched) as (Hf & Hsame & Hgroup).
  destruct (stopping_state db db1 vault_id stop vault Hf Hl Hstop0 eq_refl) as (Hl3 & Hs3 & Hj3).
  set (db3 := audit _ _ _ _ _ _) in Hrec.
  assert (Hl3' : lock_vault db3 vault_id = Ok (set_lifecycle "decommissioning" (va_decommissioned_at vault)
                                                 (va_root_released_at vault) vault)) by exact Hl3.
  destruct Hf as (_ & Hfiles & _ & Hvers & Hcop & _).
  destruct (reconcile_cases _ _ _ _ _ Hrec Hl3') as [->|(_ & stop' & Hs' & Hjobs & Hdb)].
  - rewrite Hl3' in Hl'. injection Hl' as <-. repeat split; try done. cbn. intros Hrel.
    destruct group as [g|].
    + destruct Hgroup as (_ & _ & Hnone & _); [done|]. by rewrite Hnone in Hrel.
    + change (t_jobs db3) with (t_jobs db1). rewrite Hsame by done. by apply no_active_jobs.
  - assert (Hrel : lock_vault db4 vault_id = Ok (set_lifecycle "decommissioned" (Some now) (Some now)
       (set_lifecycle "decommissioning" (va_decommissioned_at vault) (va_root_released_at vault) vault))).
    { destruct Hdb as [->| ->]; unfold release_root;
        by apply (lock_update _ _ (set_lifecycle "decommissioned" (Some now) (Some now))). }
    rewrite Hrel in Hl'. injection Hl' as <-.
    assert (Hdbj : t_jobs db4 = t_jobs db1 ∧ t_copies db4 = t_copies db1 ∧ t_files db4 = t_files db1
                   ∧ t_versions db4 = t_versions db1) by (by destruct Hdb as [->| ->]).
    destruct Hdbj as (-> & -> & -> & ->). repeat split; try done. intros _.
    destruct group as [g|]; [exfalso|rewrite Hsame by done; by apply no_active_jobs].
    destruct Hgroup as ([= ->] & Hdel & _ & j & Hj & Hjv & Hjg & Hjs); [done|].
    assert (stop' = stop) as -> by (change (stop_of db3 vault_id = Some stop) in Hs3; congruence).
    destruct Hjobs as [_ Hterm]; [by destruct group_uuid|done|].
    assert (Hin : j ∈ stop_jobs db3 vault_id (ps_group_id stop)).
    { apply elem_of_select. split; [exact Hj|]. cbn. by rewrite !bool_decide_eq_true_2. }
    specialize (Hterm j Hin). rewrite Hjs in Hterm. set_solver.
Qed.

(** ** Witnesses *)
Definition w_stopped : catalog :=
  match stop_protection w_os w_catalog 1 7 "delete" "Photos" "moving" "g" 0 with
  | Ok (db, _) => db
  | Raise _ => w_catalog
  end.

Definition w_stopped_vault : vault := set_lifecycle "decommissioning" None None w_vault.

Lemma stop_protection_is_safe_witness :
  t_copies w_stopped = t_copies w_catalog ∧ va_decommission_state w_stopped_vault ≠ Some "active".
Proof.
  destruct (stop_protection w_os w_catalog 1 7 "delete" "Photos" "moving" "g" 0) as [[db st]|e] eqn:E.
  - destruct (stop_protection_is_safe w_os w_catalog 1 7 "delete" "Photos" "moving" "g" 0 db st w_vault w_stopped_vault)
      as (H & _ & _ & Hs & _).
    + intros i Hi. by apply not_elem_of_nil in Hi.
    + discriminate.
    + reflexivity.
    + reflexivity.
    + exact E.
    + vm_compute in E. injection E as <- _. reflexivity.
    + split; [|exact Hs]. unfold w_stopped. rewrite E. exact H.
  - vm_compute in E. discriminate.
Defined.

Lemma root_released_after_deletion_witness :
  ∃ db', reconcile_one w_stopped 1 9 = Ok db' ∧ t_jobs db' = t_jobs w_stopped.
Proof.
  exists w_stopped. split; [vm_compute; reflexivity|].
  refine (proj1 (root_released_after_deletion w_stopped 1 9 w_stopped w_stopped_vault w_stopped_vault _ _ _ _));
    vm_compute; reflexivity.
Defined.
