(* ===== verification/Fnmatch.v ===== *)
(** * Fnmatch: Python's [fnmatch.fnmatchcase]

    Shell patterns as the standard library translates them: ["*"], ["?"],
    bracket sets with ranges and ["!"], an unclosed bracket as a literal.  Ranges
    whose bounds are reversed are dropped before the set is read, as
    [fnmatch.translate] does. *)
From S2P Require Import Prelude PyString.
From Stdlib Require Import Ascii.

(** A member of a bracket set. *)
Inductive set_item := One (a : ascii) | Range (lo hi : ascii).

Inductive glob_token :=
  | GLit (a : ascii)
  | GOne
  | GMany
  | GSet (negated : bool) (items : list set_item).

Definition ascii_le (a b : ascii) : bool := (nat_of_ascii a <=? nat_of_ascii b)%nat.

Definition item_has (a : ascii) (i : set_item) : bool :=
  match i with
  | One b => a =b b
  | Range lo hi => ascii_le lo a && ascii_le a hi
  end.

Definition item_nonempty (i : set_item) : bool :=
  match i with One _ => true | Range lo hi => ascii_le lo hi end.

(** A hyphen between two characters makes a range. *)
Fixpoint set_items (s : string) : list set_item :=
  match s with
  | EmptyString => []
  | String c s1 =>
      match s1 with
      | String h (String d rest) =>
          if h =b "-"%char then Range c d :: set_items rest else One c :: set_items s1
      | _ => One c :: set_items s1
      end
  end.

(** The text between the brackets.  When the ranges dropped from the front leave
    a ["!"] first, it is read as the negation. *)
Definition set_token (stuff : string) : glob_token :=
  match stuff with
  | String a body =>
      if a =b "!"%char then GSet true (List.filter item_nonempty (set_items body))
      else
        match List.filter item_nonempty (set_items stuff) with
        | One b :: rest => if b =b "!"%char then GSet true rest else GSet false (One b :: rest)
        | Range b d :: rest =>
            if b =b "!"%char then GSet true (One "-"%char :: One d :: rest)
            else GSet false (Range b d :: rest)
        | [] => GSet false []
        end
  | EmptyString => GSet false []
  end.

(** Split at the first ["]"]. *)
Fixpoint find_close (s : string) : option (string * string) :=
  match s with
  | EmptyString => None
  | String a s =>
      if a =b "]"%char then Some (EmptyString, s)
      else (fun r => (String a r.1, r.2)) <$> find_close s
  end.

(** One character [a] at the front, if it is there. *)
Definition take_char (a : ascii) (s : string) : string * string :=
  match s with
  | String b s' => if b =b a then (String b EmptyString, s') else (EmptyString, s)
  | EmptyString => (EmptyString, s)
  end.

(** The set after ["["] and what follows it: a ["!"] and then a ["]"] at the
    front belong to the set. *)
Definition set_body (s : string) : option (string * string) :=
  let '(bang, s1) := take_char "!" s in
  let '(close, s2) := take_char "]" s1 in
  (fun r => (bang +:+ close +:+ r.1, r.2)) <$> find_close s2.

(** Every turn consumes a character, so the length of the pattern is enough
    fuel ([glob_parse_fuel_enough]). *)
Fixpoint glob_parse_fuel (n : nat) (s : string) : list glob_token :=
  match n, s with
  | S n, String a s =>
      if a =b "*"%char then GMany :: glob_parse_fuel n s
      else if a =b "?"%char then GOne :: glob_parse_fuel n s
      else if a =b "["%char then
        match set_body s with
        | Some (stuff, rest) => set_token stuff :: glob_parse_fuel n rest
        | None => GLit a :: glob_parse_fuel n s
        end
      else GLit a :: glob_parse_fuel n s
  | _, _ => []
  end.

Definition glob_parse (pattern : string) : list glob_token := glob_parse_fuel (String.length pattern) pattern.

Fixpoint glob_tokens (l : list glob_token) : string → bool :=
  match l with
  | [] => fun s => s =b EmptyString
  | GLit a :: l => fun s => match s with String b s => (a =b b) && glob_tokens l s | _ => false end
  | GOne :: l => fun s => match s with String _ s => glob_tokens l s | _ => false end
  | GSet neg items :: l =>
      fun s => match s with String b s => xorb neg (existsb (item_has b) items) && glob_tokens l s | _ => false end
  | GMany :: l =>
      fix any (s : string) : bool :=
        glob_tokens l s || match s with String _ s => any s | EmptyString => false end
  end.

Definition fnmatchcase (name pattern : string) : bool := glob_tokens (glob_parse pattern) name.

Example fnmatch_quirks :
  map (fun p => fnmatchcase p.1 p.2)
    [("b", "[a-c]"); ("-", "[a-]"); ("]", "[]]"); ("x", "[!a]"); ("[a", "[a"); ("c", "[z-ac]"); ("q", "[b-a!x]");
     ("x", "[b-a!x]"); ("q", "[z-a]"); ("q", "[!z-a]")]%string
  = [true; true; true; true; true; true; true; false; false; true].
Proof. reflexivity. Qed.

(** ** Fuel *)
Lemma find_close_length s r : find_close s = Some r → (String.length r.2 < String.length s)%nat.
Proof.
  revert r; induction s as [|a s IH]; intros r; cbn; [done|]. case_bool_decide; [intros [= <-]; cbn; lia|].
  destruct (find_close s) as [q|]; [|done]. intros [= <-]. specialize (IH q eq_refl). cbn. lia.
Qed.

Lemma take_char_length a s : (String.length (take_char a s).2 ≤ String.length s)%nat.
Proof. destruct s; cbn; [lia|]. case_bool_decide; cbn; lia. Qed.

Lemma set_body_length s r : set_body s = Some r → (String.length r.2 < String.length s)%nat.
Proof.
  unfold set_body. assert (H1 := take_char_length "!" s). destruct (take_char "!" s) as [b s1].
  assert (H2 := take_char_length "]" s1). destruct (take_char "]" s1) as [c s2]. cbn in *.
  destruct (find_close s2) as [q|] eqn:E; [|done]. intros [= <-]. apply find_close_length in E. cbn. lia.
Qed.

Lemma glob_parse_fuel_enough n m s :
  (String.length s ≤ n)%nat → (String.length s ≤ m)%nat → glob_parse_fuel n s = glob_parse_fuel m s.
Proof.
  revert m s; induction n as [|n IH]; intros m s Hn Hm.
  - destruct s; [by destruct m|cbn in Hn; lia].
  - destruct s as [|a s]; [by destruct m|]. destruct m as [|m]; [cbn in Hm; lia|]. cbn in *.
    rewrite (IH m s) by lia. destruct (set_body s) as [[stuff rest]|] eqn:E; [|done].
    apply set_body_length in E. cbn in E. by rewrite (IH m rest) by lia.
Qed.

(** ** Plain text in patterns *)
Definition plain_char (a : ascii) : bool := negb (a ∈b ["*"; "?"; "["]%char).

Fixpoint plain (s : string) : bool :=
  match s with EmptyString => true | String a s => plain_char a && plain s end.

Fixpoint glob_literals (s : string) : list glob_token :=
  match s with EmptyString => [] | String a s => GLit a :: glob_literals s end.

Lemma glob_parse_cons a s : plain_char a = true → glob_parse (String a s) = GLit a :: glob_parse s.
Proof.
  unfold plain_char. intros H. bsimpl. unfold glob_parse. cbn.
  rewrite !bool_decide_eq_false_2 by set_solver. done.
Qed.

Lemma glob_parse_many s : glob_parse (String "*" s) = GMany :: glob_parse s.
Proof. done. Qed.

Lemma glob_parse_plain p rest : plain p = true → glob_parse (p +:+ rest) = glob_literals p ++ glob_parse rest.
Proof.
  induction p as [|a p IH]; [done|]. cbn [plain]. intros [Ha Hp]%andb_true_iff.
  change (String a p +:+ rest) with (String a (p +:+ rest)). rewrite glob_parse_cons by done. cbn. by rewrite IH.
Qed.

Lemma glob_parse_literal p : plain p = true → glob_parse p = glob_literals p ++ [].
Proof. intros Hp. rewrite <- (string_app_nil_r p) at 1. by rewrite glob_parse_plain. Qed.

Lemma glob_literals_match p l s :
  glob_tokens (glob_literals p ++ l) s = true ↔ ∃ t, s = p +:+ t ∧ glob_tokens l t = true.
Proof.
  revert s; induction p as [|a p IH]; intros s.
  - change (glob_literals EmptyString ++ l) with l. cbn [String.append]. naive_solver.
  - cbn. destruct s as [|b s]; [split; [done|by intros (?&?&?)]|].
    rewrite andb_true_iff, bool_decide_eq_true, IH. split.
    + intros (-> & t & -> & ?). eauto.
    + intros (t & [= -> ->] & ?). eauto.
Qed.

Lemma glob_many_match l s :
  glob_tokens (GMany :: l) s = true ↔ ∃ p t, s = p +:+ t ∧ glob_tokens l t = true.
Proof.
  induction s as [|a s IH]; cbn [glob_tokens].
  - rewrite orb_false_r. split; [intros H; by exists "", ""|].
    intros (p & t & H & Ht). by destruct p, t.
  - rewrite orb_true_iff. cbn [glob_tokens] in IH. rewrite IH. split.
    + intros [H|(p & t & -> & H)]; [by exists "", (String a s)|by exists (String a p), t].
    + intros ([|b p] & t & H & Ht); cbn in H; [left; by rewrite H|].
      injection H as <- ->. right. eauto.
Qed.

Lemma glob_end s : glob_tokens [] s = true ↔ s = "".
Proof. apply bool_decide_eq_true. Qed.

(** The three shapes the fixed exclusions have. *)
Lemma fnmatch_plain p s : plain p = true → fnmatchcase s p = true ↔ s = p.
Proof.
  intros Hp. unfold fnmatchcase. rewrite glob_parse_literal, glob_literals_match by done.
  setoid_rewrite glob_end. split.
  - intros (t & -> & ->). apply string_app_nil_r.
  - intros ->. exists "". by rewrite string_app_nil_r.
Qed.

Lemma fnmatch_prefix p s : plain p = true → fnmatchcase s (p +:+ "*") = true ↔ ∃ t, s = p +:+ t.
Proof.
  intros Hp. unfold fnmatchcase. rewrite glob_parse_plain, glob_literals_match by done.
  change (glob_parse "*") with [GMany]. setoid_rewrite glob_many_match. setoid_rewrite glob_end. split.
  - intros (t & -> & _). eauto.
  - intros (t & ->). exists t. split; [done|]. exists t, "". by rewrite string_app_nil_r.
Qed.

Lemma fnmatch_suffix p s : plain p = true → fnmatchcase s (String "*" p) = true ↔ ∃ t, s = t +:+ p.
Proof.
  intros Hp. unfold fnmatchcase. rewrite glob_parse_many, glob_many_match, glob_parse_literal by done.
  setoid_rewrite glob_literals_match. setoid_rewrite glob_end. split.
  - intros (q & t & -> & u & -> & ->). exists q. by rewrite string_app_nil_r.
  - intros (t & ->). exists t, p. split; [done|]. exists "". by rewrite string_app_nil_r.
Qed.
