(* ===== verification/OperationPolicies.v ===== *)
(** * OperationPolicies: the per-Vault automation policy

    Models the policy record, its validation and storage, the glob rules and the
    two clocks (stability, local retention) of
    [src/app/services/operation_policies.py].  The admission loops that use them
    are in [Automation].  The glob columns hold decoded JSON lists. *)
From S2P Require Import Prelude Sql PyString VaultPaths Schema Fnmatch.
From Stdlib Require Import Ascii SpecFloat.

(** ** The policy *)
Definition LOCAL_RELEASE_PERIODS : list Z := [90; 180; 365; 730].
Definition DEFAULT_STABILITY_SECONDS : Z := 300.
Definition AUTO_UPLOAD_EXCLUSIONS : list string :=
  [".DS_Store"; "Thumbs.db"; "._*"; "*.lock"; "*-wal"; "*-journal"].

Record OperationPolicy := {
  auto_upload : bool;
  local_release_after_days : option Z;
  stability_seconds : Z;
  include_globs : list string;
  exclude_globs : list string;
  upload_verification : option string;
}.

Definition default_policy : OperationPolicy :=
  {| auto_upload := true; local_release_after_days := None; stability_seconds := DEFAULT_STABILITY_SECONDS;
     include_globs := []; exclude_globs := []; upload_verification := None |}.

(** [self.upload_verification or settings.upload_verification]. *)
Definition effective_upload_verification (setting : string) (p : OperationPolicy) : string :=
  if truthy (upload_verification p) then or_default (upload_verification p) "" else setting.

Fixpoint normalize_globs (values : list string) : result (list string) :=
  match values with
  | [] => Ok []
  | value :: values =>
      let text := replace_char backslash slash (py_strip value) in
      if text =b "" then normalize_globs values
      else
        raise! ValueError "globs must be relative paths" when starts_with "/" text;
        rest ← normalize_globs values; Ok (text :: rest)
  end.

Definition validate_policy (p : OperationPolicy) : result unit :=
  raise! ValueError "upload_verification must be null, s3_checksum or read_back" when
    negb (bool_decide (upload_verification p ∈ [None; Some "s3_checksum"; Some "read_back"]));
  raise! ValueError "stability_seconds must be nonnegative" when stability_seconds p <? 0;
  raise! ValueError "local_release_after_days must be null, 90, 180, 365 or 730" when
    match local_release_after_days p with Some d => negb (d ∈b LOCAL_RELEASE_PERIODS) | None => false end;
  _ ← normalize_globs (include_globs p);
  _ ← normalize_globs (exclude_globs p);
  Ok tt.

Definition policy_row_of (db : catalog) (vault_id : Z) : option policy_row :=
  fetchone (fun r => pr_vault_id r =b vault_id) (t_policies db).

Definition policy_of_row (r : policy_row) : OperationPolicy :=
  {| auto_upload := pr_auto_upload r; local_release_after_days := pr_local_release_after_days r;
     stability_seconds := pr_stability_seconds r; include_globs := pr_include_globs r;
     exclude_globs := pr_exclude_globs r; upload_verification := pr_upload_verification r |}.

Definition get_policy (db : catalog) (vault_id : Z) : OperationPolicy :=
  match policy_row_of db vault_id with
  | None => default_policy
  | Some r => policy_of_row r
  end.

(** The row a policy is stored as. *)
Definition row_of_policy (vault_id : Z) (p : OperationPolicy) (suspended_at : option timestamp) : policy_row :=
  {| pr_vault_id := vault_id; pr_auto_upload := auto_upload p;
     pr_local_release_after_days := local_release_after_days p;
     pr_stability_seconds := stability_seconds p; pr_include_globs := include_globs p;
     pr_exclude_globs := exclude_globs p; pr_upload_verification := upload_verification p;
     pr_suspended_at := suspended_at |}.

(** [INSERT ... ON CONFLICT(vault_id) DO UPDATE]: [suspended_at] is kept. *)
Definition upsert_policy (vault_id : Z) (p : OperationPolicy) (rows : list policy_row) : list policy_row :=
  if exists_row (fun r => pr_vault_id r =b vault_id) rows
  then update_where (fun r => pr_vault_id r =b vault_id)
         (fun r => row_of_policy vault_id p (pr_suspended_at r)) rows
  else rows ++ [row_of_policy vault_id p None].

(** [CASE WHEN auto_upload THEN NULL ELSE COALESCE(suspended_at, now) END]. *)
Definition stamp_suspension (now : timestamp) (r : policy_row) : policy_row :=
  row_of_policy (pr_vault_id r) (policy_of_row r)
    (if pr_auto_upload r then None else Some (coalesce (pr_suspended_at r) now)).

Definition set_policy (db : catalog) (vault_id : Z) (p : OperationPolicy) (now : timestamp)
  : result (catalog * OperationPolicy) :=
  _ ← validate_policy p;
  match fetchone (fun v => va_id v =b vault_id) (t_vaults db) with
  | None => Raise (LookupError "vault_not_found")
  | Some v =>
      raise! LookupError "vault_quiesced" when
        ((if truthy (va_decommission_state v) then or_default (va_decommission_state v) "" else "active") <>b "active");
      include ← normalize_globs (include_globs p);
      exclude ← normalize_globs (exclude_globs p);
      let canonical := {| auto_upload := auto_upload p; local_release_after_days := local_release_after_days p;
                          stability_seconds := stability_seconds p; include_globs := include;
                          exclude_globs := exclude; upload_verification := upload_verification p |} in
      let rows := upsert_policy vault_id canonical (t_policies db) in
      Ok (set_policies (update_where (fun r => pr_vault_id r =b vault_id) (stamp_suspension now) rows) db, canonical)
  end.

(** ** Globs *)

(** [PurePosixPath(s).parts]: the root, if any, is a part. *)
Definition posix_root (s : string) : list string :=
  if starts_with "//" s && negb (starts_with "///" s) then ["//"]
  else if starts_with "/" s then ["/"] else [].

Definition pure_parts (s : string) : list string := posix_root s ++ posix_parts s.

(** [str()] of the path with these parts. *)
Definition pure_str (parts : list string) : string :=
  match parts with
  | root :: rest => if (root =b "/") || (root =b "//") then root +:+ join "/" rest else join "/" parts
  | [] => "."
  end.

(** The non-empty suffixes of a list. *)
Fixpoint suffixes {A} (l : list A) : list (list A) :=
  match l with [] => [] | x :: rest => (x :: rest) :: suffixes rest end.

Definition path_matches (path pattern : string) : bool :=
  let normalized := replace_char backslash slash path in
  let parts := pure_parts normalized in
  if contains "**" pattern then
    (if ends_with "/**" pattern then
       let prefix := take_chars (String.length pattern - 3) pattern in
       (normalized =b prefix) || starts_with (prefix +:+ "/") normalized
     else false)
    || (if starts_with "**/" pattern then
          let suffix := drop_chars 3 pattern in
          fnmatchcase normalized suffix
          || existsb (fun tail => fnmatchcase (pure_str tail) suffix) (suffixes parts)
        else false)
    || fnmatchcase normalized pattern
  else fnmatchcase normalized pattern || existsb (fun part => fnmatchcase part pattern) parts.

Definition path_is_included (path : string) (p : OperationPolicy) : bool :=
  let normalized := replace_char backslash slash path in
  if negb (bool_decide (include_globs p = [])) && negb (existsb (path_matches normalized) (include_globs p)) then false
  else if existsb (path_matches normalized) (exclude_globs p) then false
  else true.

Definition auto_upload_path_is_included (path : string) (p : OperationPolicy) : bool :=
  negb (existsb (fun part => existsb (fnmatchcase part) AUTO_UPLOAD_EXCLUSIONS)
          (pure_parts (replace_char backslash slash path)))
  && path_is_included path p.

Definition preview_glob_rules (paths include exclude : list string) : result (list string * list string) :=
  include ← normalize_globs include;
  exclude ← normalize_globs exclude;
  let p := {| auto_upload := true; local_release_after_days := None;
              stability_seconds := DEFAULT_STABILITY_SECONDS; include_globs := include;
              exclude_globs := exclude; upload_verification := None |} in
  Ok (List.filter (fun path => auto_upload_path_is_included path p) paths,
      List.filter (fun path => negb (auto_upload_path_is_included path p)) paths).

(** ** Clocks *)

(** IEEE doubles: an integer, and [a / b]. *)
Definition float_of (z : Z) : spec_float := binary_normalize 53 1024 z 0 false.

(** [(sign, n, d)] with the value [n / d], for a finite double. *)
Definition float_ratio (f : spec_float) : bool * Z * Z :=
  match f with
  | S754_finite s m e => (s, Zpos m * 2 ^ Z.max 0 e, 2 ^ Z.max 0 (- e))
  | _ => (false, 0, 1)
  end.

Definition round_half_even (n d : Z) : Z :=
  let q := n / d in
  match Z.compare (2 * (n mod d)) d with
  | Lt => q
  | Gt => q + 1
  | Eq => if Z.even q then q else q + 1
  end.

(** [datetime.fromtimestamp(mtime_ns / 1e9, tz=utc)] in microseconds: the
    fraction of the double is scaled by a million and rounded half to even. *)
Definition fromtimestamp_ns (mtime_ns : Z) : timestamp :=
  let '(s, n, d) := float_ratio (SFdiv 53 1024 (float_of mtime_ns) (float_of 1000000000)) in
  let frac := binary_normalize 53 1024 (n mod d) (- Z.log2 d) false in
  let '(_, fn, fd) := float_ratio (SFmul 53 1024 frac (float_of 1000000)) in
  let us := (n / d) * 1000000 + round_half_even fn fd in
  if s then - us else us.

Example fromtimestamp_samples :
  map fromtimestamp_ns [0; 1700000000123456789; 1500; -1500000000]
  = [0; 1700000000123457; 2; -1500000].
Proof. vm_compute. reflexivity. Qed.

Definition file_is_stable (mtime_ns : Z) (now : timestamp) (stability : Z)
    (content_observed_at : option timestamp) : bool :=
  let mtime := fromtimestamp_ns mtime_ns in
  let mtime := match content_observed_at with Some t => Z.max mtime t | None => mtime end in
  seconds stability <=? now - mtime.

Definition local_cleanup_is_due (verified_at : timestamp) (retention_days : Z) (now : timestamp)
    (local_mtime_ns : option Z) (recovered_at content_observed_at : option timestamp) : bool :=
  let reference := foldl (fun r observed => match observed with Some t => Z.max r t | None => r end)
                     verified_at [recovered_at; content_observed_at] in
  let reference := match local_mtime_ns with
                   | Some ns => let modified := fromtimestamp_ns ns in
                                if reference <? modified then modified else reference
                   | None => reference
                   end in
  reference + days retention_days <=? now.

(** ** Glob rules *)

(** Noise that automatic upload never takes. *)
Definition noise (part : string) : Prop :=
  part = ".DS_Store" ∨ part = "Thumbs.db" ∨ (∃ t, part = "._" +:+ t)
  ∨ (∃ t, part = t +:+ ".lock") ∨ (∃ t, part = t +:+ "-wal") ∨ (∃ t, part = t +:+ "-journal").

Lemma noise_spec part : existsb (fnmatchcase part) AUTO_UPLOAD_EXCLUSIONS = true ↔ noise part.
Proof.
  unfold AUTO_UPLOAD_EXCLUSIONS, noise. cbn [existsb]. rewrite orb_false_r, !orb_true_iff.
  change "._*" with ("._" +:+ "*"). rewrite !fnmatch_plain, fnmatch_prefix, !fnmatch_suffix by done. done.
Qed.

Lemma existsb_false {A} (f : A → bool) l : existsb f l = false ↔ ∀ x, x ∈ l → f x = false.
Proof. apply (exists_row_false f l). Qed.

Lemma path_is_included_spec path p :
  path_is_included path p = true ↔
  let normalized := replace_char backslash slash path in
  (include_globs p = [] ∨ ∃ g, g ∈ include_globs p ∧ path_matches normalized g = true)
  ∧ ∀ g, g ∈ exclude_globs p → path_matches normalized g = false.
Proof.
  cbn zeta. unfold path_is_included. set (n := replace_char _ _ _).
  setoid_rewrite <- (exists_row_true (path_matches n)). rewrite <- existsb_false. unfold exists_row.
  case_bool_decide; cbn; destruct (existsb _ (include_globs p)), (existsb _ (exclude_globs p)); naive_solver.
Qed.

(** What automatic upload may take.  A path is included exactly when no
    component of it is one of the fixed noise names (two exact names, the
    AppleDouble prefix and three suffixes, whatever the Vault's globs say), some
    include glob matches or there is none, and no exclude glob matches. *)
Theorem auto_upload_inclusion path p :
  auto_upload_path_is_included path p = true ↔
  let normalized := replace_char backslash slash path in
  (∀ part, part ∈ pure_parts normalized → ¬ noise part)
  ∧ (include_globs p = [] ∨ ∃ g, g ∈ include_globs p ∧ path_matches normalized g = true)
  ∧ ∀ g, g ∈ exclude_globs p → path_matches normalized g = false.
Proof.
  unfold auto_upload_path_is_included. rewrite andb_true_iff, path_is_included_spec, negb_true_iff, existsb_false.
  setoid_rewrite <- noise_spec. setoid_rewrite not_true_iff_false. done.
Qed.

(** A plain folder with ["/**"] selects the folder and everything below it. *)
Lemma contains_app_r needle s t : contains needle t = true → contains needle (s +:+ t) = true.
Proof. intros H. induction s as [|a s IH]; [done|]. cbn. by rewrite IH, orb_true_r. Qed.

Lemma take_chars_app s t : take_chars (String.length s) (s +:+ t) = s.
Proof. induction s; cbn; congruence. Qed.

Lemma string_length_app s t : String.length (s +:+ t) = (String.length s + String.length t)%nat.
Proof. induction s; cbn; congruence. Qed.

Lemma subtree_glob dir path :
  plain dir = true → has_char backslash path = false →
  path_matches path (dir +:+ "/**") = true ↔ path = dir ∨ ∃ rest, path = dir +:+ "/" +:+ rest.
Proof.
  intros Hd Hb. unfold path_matches.
  assert (Hn : replace_char backslash slash path = path).
  { clear -Hb. induction path as [|a s IH]; [done|]. cbn in *. apply orb_false_iff in Hb as [Ha Hs].
    unfold replace_char in *. by rewrite Ha, IH. }
  rewrite Hn, contains_app_r by done.
  assert (He : ends_with "/**" (dir +:+ "/**") = true) by (apply ends_with_spec; eauto).
  rewrite He, string_length_app, Nat.add_sub, take_chars_app.
  replace (starts_with "**/" (dir +:+ "/**")) with false.
  2:{ symmetry. destruct dir as [|a dir]; [done|]. cbn in Hd |- *. apply andb_true_iff in Hd as [Ha _].
      unfold plain_char in Ha. bsimpl. rewrite bool_decide_eq_false_2; [done|]. intros <-. apply Ha. left. }
  rewrite orb_false_r, !orb_true_iff, bool_decide_eq_true, starts_with_spec.
  setoid_rewrite <- (assoc_L String.append). split; [|by intros [?|?]; left; [left|right]].
  intros [[?|?]|H]; [by left|by right|right].
  unfold fnmatchcase in H. rewrite glob_parse_plain, glob_literals_match in H by done.
  destruct H as (t & -> & H). change (glob_parse "/**") with [GLit slash; GMany; GMany] in H.
  destruct t as [|b t]; [done|]. cbn in H. apply andb_true_iff in H as [H _]. bsimpl. subst b. by exists t.
Qed.

(** ** Stored policies *)
Section strip_facts.
Context (p : ascii → bool).

Lemma lstrip_head s : lstrip p s = "" ∨ ∃ a t, lstrip p s = String a t ∧ p a = false.
Proof. induction s as [|a s IH]; cbn; [by left|]. destruct (p a) eqn:E; [done|]. eauto. Qed.

Lemma rstrip_idempotent s : rstrip p (rstrip p s) = rstrip p s.
Proof.
  induction s as [|a s IH]; [done|]. cbn. destruct (rstrip p s) as [|b t] eqn:E.
  - destruct (p a) eqn:Ea; cbn; [done|]. by rewrite Ea.
  - change (rstrip p (String a (String b t))) with
      (match rstrip p (String b t) with "" => if p a then "" else String a "" | x => String a x end).
    by rewrite IH.
Qed.

Lemma strip_idempotent s : strip p (strip p s) = strip p s.
Proof.
  unfold strip. destruct (lstrip_head s) as [->|(a & t & -> & Ha)]; [done|].
  destruct (rstrip p (String a t)) as [|b u] eqn:E; [done|].
  assert (b = a) as -> by (eapply rstrip_head; exact E). cbn [lstrip]. rewrite Ha, <- E. apply rstrip_idempotent.
Qed.

Lemma strip_map f s : (∀ a, p (f a) = p a) → strip p (string_map f s) = string_map f (strip p s).
Proof.
  intros Hf. unfold strip.
  assert (Hl : lstrip p (string_map f s) = string_map f (lstrip p s))
    by (induction s as [|a s IH]; cbn; [done|]; rewrite Hf; by destruct (p a)).
  rewrite Hl. generalize (lstrip p s). intros t. induction t as [|a t IH]; cbn; [done|].
  rewrite IH, Hf. destruct (rstrip p t); cbn; [by destruct (p a)|done].
Qed.
End strip_facts.

(** A normalised glob is kept as it is. *)
Lemma normalized_text value :
  let text := replace_char backslash slash (py_strip value) in
  replace_char backslash slash (py_strip text) = text.
Proof.
  cbn zeta. unfold py_strip, replace_char.
  rewrite strip_map by (intros a; by case_bool_decide; subst). rewrite strip_idempotent.
  generalize (strip is_space value). intros s. induction s as [|a s IH]; [done|]. cbn. rewrite IH. f_equal.
  by repeat case_bool_decide.
Qed.

Lemma normalize_globs_idempotent values norm :
  normalize_globs values = Ok norm → normalize_globs norm = Ok norm.
Proof.
  revert norm; induction values as [|value values IH]; intros norm; cbn [normalize_globs]; [by intros [= <-]|].
  set (text := replace_char _ _ _). destruct (text =b "") eqn:Et; [auto|].
  intros H. apply raise_if_bind_ok in H as [Hs H]. apply bind_ok in H as (rest & Hr & [= <-]).
  assert (Hn : replace_char backslash slash (py_strip text) = text) by apply normalized_text.
  cbn [normalize_globs]. rewrite Hn, Et, Hs. cbn [raise_if mbind result_bind]. by rewrite (IH _ Hr).
Qed.

Lemma policy_row_of_update rows v f :
  (∀ r, pr_vault_id (f r) = pr_vault_id r) →
  ∀ w, fetchone (fun r => pr_vault_id r =b w) (update_where (fun r => pr_vault_id r =b v) f rows)
       = (if w =b v then f else id) <$> fetchone (fun r => pr_vault_id r =b w) rows.
Proof.
  intros Hf w. induction rows as [|r rows IH]; [by case_bool_decide|]. cbn.
  destruct (decide (pr_vault_id r = w)) as [Ew|Ew].
  - rewrite (bool_decide_eq_true_2 (pr_vault_id r = w)) by done. cbn.
    destruct (decide (w = v)) as [Ev|Ev].
    + rewrite (bool_decide_eq_true_2 (pr_vault_id r = v)), (bool_decide_eq_true_2 (w = v)) by congruence.
      by rewrite Hf, bool_decide_eq_true_2.
    + rewrite (bool_decide_eq_false_2 (pr_vault_id r = v)), (bool_decide_eq_false_2 (w = v)) by congruence.
      by rewrite bool_decide_eq_true_2.
  - rewrite (bool_decide_eq_false_2 (pr_vault_id r = w)) by done.
    replace (pr_vault_id (if pr_vault_id r =b v then f r else r)) with (pr_vault_id r) by (destruct (pr_vault_id r =b v); by rewrite ?Hf).
    by rewrite bool_decide_eq_false_2.
Qed.

Lemma policy_row_of_upsert rows v p w :
  fetchone (fun r => pr_vault_id r =b w) (upsert_policy v p rows)
  = let old := fetchone (fun r => pr_vault_id r =b w) rows in
    if w =b v then Some (row_of_policy v p (old ≫= pr_suspended_at)) else old.
Proof.
  unfold upsert_policy. cbn zeta. destruct (exists_row _ rows) eqn:E.
  - assert (Hf : update_where (fun r => pr_vault_id r =b v) (fun r => row_of_policy v p (pr_suspended_at r)) rows
                 = update_where (fun r => pr_vault_id r =b v)
                     (fun r => row_of_policy (pr_vault_id r) p (pr_suspended_at r)) rows).
    { unfold update_where. apply map_ext. intros r. by case_bool_decide; subst. }
    rewrite Hf, policy_row_of_update by done. case_bool_decide as Ew; [|by destruct (fetchone _ rows)].
    subst w. destruct (fetchone _ rows) as [r|] eqn:Er.
    + apply fetchone_some in Er as [_ Er]. bsimpl. cbn. by rewrite Er.
    + rewrite fetchone_none in Er. apply exists_row_true in E as (r & Hr & Hp). by rewrite Er in Hp.
  - rewrite exists_row_false in E. unfold fetchone. induction rows as [|r rows IH]; cbn.
    + destruct (decide (v = w)) as [->|Hne]; [by rewrite !bool_decide_eq_true_2|].
      by rewrite !bool_decide_eq_false_2 by congruence.
    + assert (E1 := E r ltac:(left)). bsimpl.
      destruct (decide (pr_vault_id r = w)) as [Ew|Ew].
      * rewrite (bool_decide_eq_true_2 (pr_vault_id r = w)) by done. rewrite bool_decide_eq_false_2 by congruence. done.
      * rewrite (bool_decide_eq_false_2 (pr_vault_id r = w)) by done. apply IH. intros x Hx. apply E. by right.
Qed.

Lemma validate_policy_ok p :
  validate_policy p = Ok tt ↔
  (upload_verification p ∈ [None; Some "s3_checksum"; Some "read_back"]) ∧ 0 ≤ stability_seconds p
  ∧ (∀ d, local_release_after_days p = Some d → d ∈ LOCAL_RELEASE_PERIODS)
  ∧ is_ok (normalize_globs (include_globs p)) = true ∧ is_ok (normalize_globs (exclude_globs p)) = true.
Proof.
  unfold validate_policy. rewrite !raise_if_bind_ok, negb_false_iff, bool_decide_eq_true, Z.ltb_ge.
  assert (Hd : match local_release_after_days p with Some d => negb (d ∈b LOCAL_RELEASE_PERIODS) | None => false end = false
               ↔ ∀ d, local_release_after_days p = Some d → d ∈ LOCAL_RELEASE_PERIODS).
  { destruct (local_release_after_days p); [|naive_solver]. rewrite negb_false_iff, bool_decide_eq_true. naive_solver. }
  rewrite Hd. destruct (normalize_globs (include_globs p)), (normalize_globs (exclude_globs p)); cbn; naive_solver.
Qed.

(** C40: a stored policy reads back.  After [set_policy] the policy read for the
    Vault is the canonical one it returned; that policy is valid and its globs are
    already normalised, so storing it again changes nothing in it; the rows of the
    other Vaults and every other table are as before; and one continuous
    suspension of automatic upload keeps its first start while turning it on
    clears it. *)
Theorem policy_roundtrip db v p now db' c :
  set_policy db v p now = Ok (db', c) →
  get_policy db' v = c
  ∧ validate_policy c = Ok tt
  ∧ normalize_globs (include_globs c) = Ok (include_globs c)
  ∧ normalize_globs (exclude_globs c) = Ok (exclude_globs c)
  ∧ (∃ r, policy_row_of db' v = Some r
       ∧ pr_suspended_at r = if auto_upload p then None
                             else Some (coalesce (policy_row_of db v ≫= pr_suspended_at) now))
  ∧ (∀ w, w ≠ v → policy_row_of db' w = policy_row_of db w)
  ∧ db' = set_policies (t_policies db') db.
Proof.
  unfold set_policy. rewrite bind_ok. intros ([] & Hval & H).
  apply validate_policy_ok in Hval as (Hu & Hs & Hd & _ & _).
  destruct (fetchone _ (t_vaults db)) as [vault|]; [|done]. apply raise_if_bind_ok in H as [_ H].
  apply bind_ok in H as (inc & Hi%normalize_globs_idempotent & H).
  apply bind_ok in H as (exc & He%normalize_globs_idempotent & H). injection H as <- <-.
  set (canonical := {| auto_upload := _ |}).
  assert (Hrow : ∀ w, policy_row_of (set_policies (update_where (fun r => pr_vault_id r =b v) (stamp_suspension now)
                        (upsert_policy v canonical (t_policies db))) db) w
                = if w =b v then Some (stamp_suspension now (row_of_policy v canonical (policy_row_of db v ≫= pr_suspended_at)))
                  else policy_row_of db w).
  { intros w. unfold policy_row_of. cbn [t_policies set_policies].
    rewrite policy_row_of_update, policy_row_of_upsert by done. cbn zeta.
    case_bool_decide as Ew; [by subst w|by destruct (fetchone _ _)]. }
  assert (Hv : (v =b v) = true) by (by apply bool_decide_eq_true_2).
  split; [unfold get_policy; rewrite Hrow, Hv; done|].
  split; [apply validate_policy_ok; cbn; rewrite Hi, He; by repeat split|].
  split; [done|]. split; [done|]. split; [rewrite Hrow, Hv; by eexists|].
  split; [|done]. intros w Hw. rewrite Hrow. by rewrite bool_decide_eq_false_2.
Qed.

Definition w_policy_catalog : catalog :=
  {| t_vaults := [{| va_id := 1; va_enabled := true; va_decommission_state := None; va_relocation_state := "ready";
                     va_source_root := "/src"; va_name := "Photos"; va_s3_prefix := "p"; va_root_released_at := None;
                     va_decommissioned_at := None; va_root_identity := None; va_root_identity_version := None |}];
     t_files := []; t_paths := []; t_versions := []; t_markers := []; t_copies := []; t_jobs := []; t_items := [];
     t_stops := []; t_policies := []; t_health := []; t_audit := []; t_dirty := []; t_rebuilds := []; t_incidents := [];
     t_outbox := [] |}.

Definition w_policy : OperationPolicy :=
  {| auto_upload := false; local_release_after_days := Some 90; stability_seconds := 60;
     include_globs := [" photos\2024\** "; ""]; exclude_globs := ["*.tmp"]; upload_verification := None |}.

Lemma policy_roundtrip_witness :
  ∃ db' c, set_policy w_policy_catalog 1 w_policy 5 = Ok (db', c)
    ∧ get_policy db' 1 = c ∧ include_globs c = ["photos/2024/**"].
Proof.
  do 2 eexists. split; [vm_compute; reflexivity|]. split; [|reflexivity].
  eapply (policy_roundtrip w_policy_catalog 1 w_policy 5). vm_compute. reflexivity.
Defined.

(** ** Clocks *)

(** The window counts from the latest of the four events. *)
Lemma local_cleanup_is_due_spec verified_at retention now mtime recovered observed :
  local_cleanup_is_due verified_at retention now mtime recovered observed = true ↔
  verified_at + days retention ≤ now
  ∧ (∀ t, recovered = Some t → t + days retention ≤ now)
  ∧ (∀ t, observed = Some t → t + days retention ≤ now)
  ∧ (∀ ns, mtime = Some ns → fromtimestamp_ns ns + days retention ≤ now).
Proof.
  unfold local_cleanup_is_due. rewrite Z.leb_le. cbn [foldl].
  assert (Hm : ∀ a b, a + days retention ≤ now ∧ b + days retention ≤ now ↔ Z.max a b + days retention ≤ now) by lia.
  assert (Hw : ∀ a, (if a <? or_default (fromtimestamp_ns <$> mtime) a then or_default (fromtimestamp_ns <$> mtime) a else a)
                    = Z.max a (or_default (fromtimestamp_ns <$> mtime) a)).
  { intros a. destruct (Z.ltb_spec a (or_default (fromtimestamp_ns <$> mtime) a)); lia. }
  destruct recovered as [r|], observed as [o|], mtime as [m|]; cbn in Hw; rewrite ?Hw, <- ?Hm; naive_solver.
Qed.

Lemma file_is_stable_spec mtime_ns now stability observed :
  file_is_stable mtime_ns now stability observed = true ↔
  fromtimestamp_ns mtime_ns + seconds stability ≤ now
  ∧ ∀ t, observed = Some t → t + seconds stability ≤ now.
Proof.
  unfold file_is_stable. rewrite Z.leb_le. destruct observed as [o|]; [|naive_solver lia].
  generalize (fromtimestamp_ns mtime_ns). intros x. split.
  - intros H. split; [|intros ? [= <-]]; lia.
  - intros [H1 H2]. specialize (H2 o eq_refl). lia.
Qed.
