(* ===== verification/Catalog.v ===== *)
(** * Catalog: observation of Local Copies and admission of Jobs

    Models [_get_or_create_file], [_resolve_cloud_path_file],
    [observe_local_copy], [_cancel_reappeared_deletions] and [queue_jobs] of
    [ArchiveCatalog] (src/app/catalog.py) and [lock_vault] of
    [src/app/services/job_admission.py].  A uuid is an argument.  The schema is the current one, so the
    checks for columns and tables of older schemas answer yes; the touch of the
    Vault row that takes its lock changes nothing.  The cost and duration
    estimates a request carries are stored and never read, and are left out;
    [ad_skipped_same] is [last_skipped_same_class].  [queue_jobs]
    asks the upload-remediation component before it admits an upload; that
    component is the interface [UploadInterceptor]. *)
From S2P Require Import Prelude Sql PyString VaultPaths Schema ProtectionStates DirectoryAggregates JobScheduler JobClaims DirtyMarks CloudDeletion OperationPolicies.

(** ** File identity *)
Definition current_file (db : catalog) (vault_id : Z) (path : string) : option vault_file :=
  fetchone (fun f => (vf_vault_id f =b vault_id)
                     && exists_row (fun p => (fp_vault_file_id p =b vf_id f) && is_none (fp_valid_to p)
                                             && (fp_vault_id p =b vf_vault_id f) && (fp_path p =b path))
                          (t_paths db))
    (t_files db).

Definition get_or_create_file (db : catalog) (vault_id : Z) (path : string) (created_at : timestamp)
    (uuid : string) : catalog * string :=
  match current_file db vault_id path with
  | Some f => (db, vf_id f)
  | None =>
      (set_paths (t_paths db ++ [{| fp_vault_file_id := uuid; fp_vault_id := vault_id; fp_path := path;
                                    fp_valid_from := created_at; fp_valid_to := None |}])
         (set_files (t_files db ++ [{| vf_id := uuid; vf_vault_id := vault_id; vf_status := Active;
                                       vf_created_at := created_at; vf_retired_at := None |}]) db),
       uuid)
  end.

(** An active file that carried the path before: the latest such path. *)
Definition historical_file (db : catalog) (vault_id : Z) (path : string) : option string :=
  fp_vault_file_id <$>
    latest fp_valid_from
      (select (fun p => (fp_path p =b path) && (fp_vault_id p =b vault_id)
                        && exists_row (fun f => (vf_id f =b fp_vault_file_id p) && (vf_vault_id f =b vault_id)
                                                && (vf_status f =b Active)) (t_files db))
         (t_paths db)).

Definition resolve_cloud_path_file (db : catalog) (vault_id : Z) (path : string) (created_at : timestamp)
    (uuid : string) : catalog * string :=
  match current_file db vault_id path with
  | Some f => (db, vf_id f)
  | None =>
      match historical_file db vault_id path with
      | Some f => (db, f)
      | None => get_or_create_file db vault_id path created_at uuid
      end
  end.

(** ** Observation *)

(** [_only_cloud_copy_sql]: the latest verified and available version. *)
Definition only_cloud_copy (db : catalog) (file_id : string) : option archive_version :=
  latest av_version_number
    (select (fun v => (av_vault_file_id v =b file_id) && (av_integrity v =b Verified)
                      && (av_availability v =b Available)) (t_versions db)).

(** The row of the VALUES list, [excluded] in the conflict clause. *)
Definition observed_row (db : catalog) (file_id : string) (ft : file_type) (size mtime_ns : option Z)
    (observed_at : timestamp) (seen_at recovered_at : option timestamp) : local_copy :=
  let presence := if ft =b Regular then Present else Unsupported in
  {| lc_vault_file_id := file_id; lc_presence := presence; lc_file_type := ft; lc_size := size;
     lc_mtime_ns := mtime_ns; lc_plaintext_sha256 := None; lc_matched_archive_version_id := None;
     lc_cloud_only_version_id :=
       if (presence =b Present) && is_none recovered_at then av_id <$> only_cloud_copy db file_id else None;
     lc_last_seen_at := Some (or_default seen_at observed_at); lc_observed_at := observed_at;
     lc_content_observed_at := Some observed_at; lc_recovered_at := None |}.

(** [ON CONFLICT(vault_file_id) DO UPDATE]. *)
Definition merge_observation (old new : local_copy) : local_copy :=
  let same_content := (lc_file_type old =b lc_file_type new)
                      && (bool_decide (lc_size old = lc_size new))
                      && (bool_decide (lc_mtime_ns old = lc_mtime_ns new)) in
  {| lc_vault_file_id := lc_vault_file_id old; lc_presence := lc_presence new;
     lc_file_type := lc_file_type new; lc_size := lc_size new; lc_mtime_ns := lc_mtime_ns new;
     lc_plaintext_sha256 := if same_content then lc_plaintext_sha256 old else None;
     lc_matched_archive_version_id := if same_content then lc_matched_archive_version_id old else None;
     lc_cloud_only_version_id :=
       if (lc_presence new =b Present) && (lc_presence old <>b Present)
       then lc_cloud_only_version_id new else lc_cloud_only_version_id old;
     lc_last_seen_at := lc_last_seen_at new; lc_observed_at := lc_observed_at new;
     lc_content_observed_at :=
       if (lc_presence old =b lc_presence new) && same_content
       then Some (match lc_content_observed_at old with Some t => t | None => lc_observed_at old end)
       else Some (lc_observed_at new);
     lc_recovered_at := lc_recovered_at old |}.

Definition upsert_copy (new : local_copy) (copies : list local_copy) : list local_copy :=
  if exists_row (fun c => lc_vault_file_id c =b lc_vault_file_id new) copies
  then update_where (fun c => lc_vault_file_id c =b lc_vault_file_id new)
         (fun old => merge_observation old new) copies
  else copies ++ [new].

Definition set_recovered (at_ : timestamp) (c : local_copy) : local_copy :=
  {| lc_vault_file_id := lc_vault_file_id c; lc_presence := lc_presence c; lc_file_type := lc_file_type c;
     lc_size := lc_size c; lc_mtime_ns := lc_mtime_ns c; lc_plaintext_sha256 := lc_plaintext_sha256 c;
     lc_matched_archive_version_id := lc_matched_archive_version_id c;
     lc_cloud_only_version_id := lc_cloud_only_version_id c; lc_last_seen_at := lc_last_seen_at c;
     lc_observed_at := lc_observed_at c; lc_content_observed_at := lc_content_observed_at c;
     lc_recovered_at := Some at_ |}.

(** [SELECT DISTINCT group_id FROM jobs WHERE ... status='pending_delay']. *)
Definition pending_groups (db : catalog) (vault_id : Z) (file_ids : list string) : list (option string) :=
  remove_dups (map j_group_id
    (select (fun j => (j_vault_id j =b vault_id) && (j_vault_file_id j ∈b file_ids)
                      && (j_action j =b "cloud-purge") && (j_status j =b "pending_delay")) (t_jobs db))).

Definition cancel_reappeared_deletions (db : catalog) (vault_id : Z) (file_ids : list string)
    (at_ : timestamp) : result catalog :=
  if bool_decide (file_ids = []) then Ok db
  else foldM_r (fun db g => match g with
                            | Some g => r ← cancel_cloud_deletion db vault_id g None at_; Ok r.1
                            | None => Raise (CloudDeletionError "Deletion has started or is no longer cancellable")
                            end) db (pending_groups db vault_id file_ids).

Definition observe_local_copy (db : catalog) (vault_id : Z) (path : string) (ft : file_type)
    (size mtime_ns : option Z) (observed_at : timestamp) (seen_at recovered_at : option timestamp)
    (uuid : string) : result (catalog * string) :=
  let '(db1, file_id) := get_or_create_file db vault_id path observed_at uuid in
  let db2 := set_copies (upsert_copy (observed_row db1 file_id ft size mtime_ns observed_at seen_at recovered_at)
                           (t_copies db1)) db1 in
  let db3 := match recovered_at with
             | None => db2
             | Some at_ => set_copies (update_where (fun c => lc_vault_file_id c =b file_id)
                                         (set_recovered at_) (t_copies db2)) db2
             end in
  db4 ← cancel_reappeared_deletions db3 vault_id [file_id] observed_at;
  Ok (mark_path_dirty vault_id (Some path) db4, file_id).

(** ** Admission *)

(** [job_admission.lock_vault]. *)
Definition admission_lock (db : catalog) (vault_id : Z) : result unit :=
  match fetchone (fun v => va_id v =b vault_id) (t_vaults db) with
  | None => Raise (LookupError "vault_not_found")
  | Some v =>
      raise_if ((if truthy (va_decommission_state v) then or_default (va_decommission_state v) "" else "active")
                <>b "active")
        (LookupError "vault_quiesced")
  end.

Record candidate := {
  ca_file_id : string;
  ca_path : string;
  ca_row : file_row;
}.

(** The columns the query selects; the others are not read. *)
Definition candidate_of (f : vault_file) (p : file_path) (lc : option local_copy)
    (av : option archive_version) : candidate :=
  {| ca_file_id := vf_id f; ca_path := fp_path p;
     ca_row := select_row (fp_path p) 0 None {| jr_lc := lc; jr_av := av; jr_upload_jobs := [] |} |}.

Definition has_active_job (db : catalog) (file_id : string) : bool :=
  exists_row (fun j => (j_vault_file_id j =b file_id) && job_is_active j) (t_jobs db).

(** The version joined when no exact version is asked for. *)
Definition latest_for_action (db : catalog) (action file_id : string) : option archive_version :=
  latest av_version_number
    (select (fun v => (av_vault_file_id v =b file_id)
                      && negb ((av_availability v =b AvMissing) || (av_availability v =b Purged))
                      && (negb (action ∈b ["recover"; "storage-class"])
                          || ((av_availability v =b Available)
                              && ((action <>b "recover") || (av_integrity v =b Verified)))))
       (t_versions db)).

Definition version_by_id (db : catalog) (id file_id : string) : option archive_version :=
  fetchone (fun v => (av_id v =b id) && (av_vault_file_id v =b file_id)) (t_versions db).

Section admission.
Context (vault_id : Z) (path action : string) (is_directory whole_vault : bool).
Context (archive_version_id : option string).

Definition path_in_scope (p : string) : bool :=
  if whole_vault then true
  else if is_directory then like (escape_like path +:+ "/%") p
  else p =b path.

Definition exact_version_wanted : bool :=
  (action ∈b ["recover"; "storage-class"]) && truthy archive_version_id
  && negb is_directory && negb whole_vault.

(** [action == "recover" and archive_version_id]: pin the current snapshot. *)
Definition snapshot_clause (db : catalog) (file_id : string) (av : option archive_version) : bool :=
  if (action =b "recover") && truthy archive_version_id
  then bool_decide (av ≠ None ∧ av_id <$> av = av_id <$> only_cloud_copy db file_id)
  else true.

Definition candidate_row (db : catalog) (f : vault_file) : option candidate :=
  if negb ((vf_vault_id f =b vault_id) && (vf_status f =b Active)) || has_active_job db (vf_id f) then None
  else
    match current_path_of (t_paths db) (vf_id f) with
    | None => None
    | Some p =>
        if negb (fp_vault_id p =b vf_vault_id f) || negb (path_in_scope (fp_path p)) then None
        else
          let lc := local_copy_of (t_copies db) (vf_id f) in
          if exact_version_wanted then
            match version_by_id db (or_default archive_version_id "") (vf_id f) with
            | Some v => if snapshot_clause db (vf_id f) (Some v) then Some (candidate_of f p lc (Some v)) else None
            | None => None
            end
          else
            let av := latest_for_action db action (vf_id f) in
            if snapshot_clause db (vf_id f) av then Some (candidate_of f p lc av) else None
    end.

(** [ORDER BY lower(fp.path)]. *)
Definition queue_candidates (db : catalog) : list candidate :=
  sort_by (fun a b => String.leb (lower (ca_path a)) (lower (ca_path b)))
    (omap (candidate_row db) (t_files db)).
End admission.

(** What [queue_jobs] relies on from [upload_remediation.intercept_upload]: it
    answers whether it took the file over and which Job it resumed, or raises; it may add
    resumed Jobs, but never a second active one for a file, and it leaves files,
    paths, copies, versions, vaults and policies alone. *)
Class UploadInterceptor := {
  intercept_upload : catalog → Z → string → Z → timestamp → bool → string →
    result (catalog * bool * option Z);
}.

Definition same_inventory (a b : catalog) : Prop :=
  t_vaults a = t_vaults b ∧ t_files a = t_files b ∧ t_paths a = t_paths b ∧ t_versions a = t_versions b
  ∧ t_copies a = t_copies b ∧ t_policies a = t_policies b.

Class UploadInterceptorLaws `{UploadInterceptor} : Prop := {
  intercept_inventory db v f u at_ auto g db' h r :
    intercept_upload db v f u at_ auto g = Ok (db', h, r) → same_inventory db' db;
  intercept_jobs db v f u at_ auto g db' h r :
    intercept_upload db v f u at_ auto g = Ok (db', h, r) →
    ∃ new, t_jobs db' = t_jobs db ++ new ∧ Forall (fun j => j_vault_file_id j = f) new
      ∧ (h = false → new = []) ∧ (has_active_job db f = true → new = []) ∧ (length new ≤ 1)%nat;
}.

Section queue.
Context `{UploadInterceptor}.
(** [settings.upload_verification], the default of the policies. *)
Context (default_upload_verification : string).

Definition upload_verification_mode (db : catalog) (vault_id : Z) : string :=
  effective_upload_verification default_upload_verification (get_policy db vault_id).

Definition recover_allowed (row : file_row) : bool :=
  negb (bool_decide (fr_local_presence row = Some Present)) && is_some (fr_archive_version_id row)
  && bool_decide (fr_integrity row = Some Verified) && bool_decide (fr_availability row = Some Available).

Definition free_space_allowed (row : file_row) : bool :=
  bool_decide (fr_local_presence row = Some Present) && bool_decide (fr_local_file_type row = Some Regular)
  && is_some (fr_archive_version_id row) && bool_decide (fr_integrity row = Some Verified)
  && bool_decide (fr_availability row = Some Available)
  && bool_decide (fr_matched_archive_version_id row = fr_archive_version_id row)
  && is_some (fr_local_sha256 row) && bool_decide (fr_local_sha256 row = fr_version_sha256 row).

Definition rename_allowed (row : file_row) : bool :=
  bool_decide (fr_local_presence row = Some Present) && bool_decide (fr_local_file_type row = Some Regular)
  && is_some (fr_archive_version_id row) && bool_decide (fr_integrity row = Some Verified)
  && bool_decide (fr_availability row = Some Available).

Definition storage_class_allowed (row : file_row) : bool :=
  is_some (fr_archive_version_id row) && bool_decide (fr_availability row = Some Available)
  && negb (bool_decide (fr_restore_state row = Some "restoring")).

(** [(target_storage_class or "").upper() or None]. *)
Definition target_class_of (target : option string) : option string :=
  let t := upper (or_default target "") in if t =b "" then None else Some t.

(** The state of the loop over the candidates. *)
Record admission := {
  ad_db : catalog;
  ad_eligible : list candidate;
  ad_remediation : list Z;
  ad_skipped_same : Z;
}.

Definition admit_if (b : bool) (row : candidate) (st : admission) : admission :=
  {| ad_db := ad_db st; ad_eligible := if b then ad_eligible st ++ [row] else ad_eligible st;
     ad_remediation := ad_remediation st; ad_skipped_same := ad_skipped_same st |}.

(** A remediated file is marked dirty only when a Job was resumed. *)
Definition intercepted (vault_id : Z) (row : candidate) (db : catalog) (resumed : option Z)
    (st : admission) : admission :=
  {| ad_db := match resumed with Some _ => mark_path_dirty vault_id (Some (ca_path row)) db | None => db end;
     ad_eligible := ad_eligible st;
     ad_remediation := ad_remediation st ++ match resumed with Some i => [i] | None => [] end;
     ad_skipped_same := ad_skipped_same st |}.

Definition after_intercept (vault_id : Z) (row : candidate) (st : admission)
    (a : catalog * bool * option Z) : admission :=
  let '(db, handled, resumed) := a in
  if handled then intercepted vault_id row db resumed st
  else admit_if true row {| ad_db := db; ad_eligible := ad_eligible st;
                            ad_remediation := ad_remediation st; ad_skipped_same := ad_skipped_same st |}.

Definition admit_candidate (vault_id : Z) (action origin group_id : string) (requested_by : Z)
    (requested_at : timestamp) (target_class : option string) (st : admission) (row : candidate)
  : result admission :=
  let r := ca_row row in
  if action =b "upload" then
    if local_copy_is_upload_eligible r then
      a ← intercept_upload (ad_db st) vault_id (ca_file_id row) requested_by requested_at
            (origin =b "automatic") group_id;
      Ok (after_intercept vault_id row st a)
    else Ok st
  else if action =b "recover" then Ok (admit_if (recover_allowed r) row st)
  else if action =b "free-space" then Ok (admit_if (free_space_allowed r) row st)
  else if action =b "rename" then Ok (admit_if (rename_allowed r) row st)
  else if action =b "storage-class" then
    let allowed := storage_class_allowed r in
    let current := upper (if truthy (fr_storage_class r) then or_default (fr_storage_class r) "" else "STANDARD") in
    if allowed && bool_decide (target_class = Some current) then
      Ok {| ad_db := ad_db st; ad_eligible := ad_eligible st; ad_remediation := ad_remediation st;
            ad_skipped_same := ad_skipped_same st + 1 |}
    else Ok (admit_if allowed row st)
  else Raise (ValueError ("Unsupported job action: " +:+ action)).

Record job_request := {
  rq_vault_id : Z;
  rq_path : string;
  rq_action : string;
  rq_requested_by : Z;
  rq_requested_at : timestamp;
  rq_group_id : string;
  rq_is_directory : bool;
  rq_archive_version_id : option string;
  rq_restore_tier : option string;
  rq_restore_days : option Z;
  rq_initial_status : string;
  rq_pending_until : option timestamp;
  rq_origin : string;
  rq_target_storage_class : option string;
  rq_whole_vault : bool;
}.

Definition cloud_action (action : string) : bool := action ∈b ["recover"; "storage-class"].

Definition job_size (action : string) (row : file_row) : result Z :=
  if cloud_action action then
    match fr_cloud_size row with
    | Some n => Ok n
    | None => Raise (TypeError "int() argument must be a string or a number")
    end
  else Ok (or_default (fr_local_size row) 0).

Definition new_job (rq : job_request) (id : Z) (row : candidate) (size : Z) (upload_mode : option string) : job :=
  let action := rq_action rq in
  {| j_id := id; j_vault_id := rq_vault_id rq; j_vault_file_id := ca_file_id row;
     j_archive_version_id := if action =b "upload" then None else fr_archive_version_id (ca_row row);
     j_path := ca_path row; j_action := action; j_status := rq_initial_status rq;
     j_origin := rq_origin rq; j_message := None; j_message_key := None; j_message_params := None;
     j_requested_by := Some (rq_requested_by rq); j_requested_at := rq_requested_at rq;
     j_updated_at := rq_requested_at rq; j_group_id := Some (rq_group_id rq);
     j_group_path := Some (if rq_path rq <>b "" then rq_path rq
                           else if rq_whole_vault rq then "" else ca_path row);
     j_total_bytes := size; j_transferred_bytes := 0; j_reason := None; j_confirmation_phrase := None;
     j_restore_tier := if cloud_action action then rq_restore_tier rq else None;
     j_restore_days := if cloud_action action then rq_restore_days rq else None;
     j_target_storage_class :=
       if action =b "storage-class" then target_class_of (rq_target_storage_class rq) else None;
     j_upload_verification_requested := upload_mode;
     j_pending_until := if action =b "recover" then rq_pending_until rq else None;
     j_retry_after := None; j_claim_token := None; j_claimed_at := None; j_claim_expires_at := None; j_upload := no_upload |}.

(** [INSERT ... ON CONFLICT DO NOTHING RETURNING id]: the partial unique index
    holds one active Job per file. *)
Definition insert_job (rq : job_request) (upload_mode : option string)
    (st : catalog * list Z * Z) (row : candidate) : result (catalog * list Z * Z) :=
  let '(db, job_ids, total) := st in
  size ← job_size (rq_action rq) (ca_row row);
  let id := next_id (map j_id (t_jobs db)) in
  let job := new_job rq id row size upload_mode in
  if job_is_active job && has_active_job db (ca_file_id row) then Ok (db, job_ids, total)
  else
    let db1 := set_jobs (t_jobs db ++ [job]) db in
    let db2 := if rq_action rq =b "upload" then mark_path_dirty (rq_vault_id rq) (Some (ca_path row)) db1 else db1 in
    Ok (db2, job_ids ++ [id], total + size).

Definition queue_jobs (db : catalog) (rq : job_request) : result (catalog * list Z * Z * Z) :=
  _ ← admission_lock db (rq_vault_id rq);
  raise! ValueError "Unsupported Job origin" when negb (rq_origin rq ∈b ["manual"; "automatic"]);
  let rows := queue_candidates (rq_vault_id rq) (rq_path rq) (rq_action rq) (rq_is_directory rq)
                (rq_whole_vault rq) (rq_archive_version_id rq) db in
  st ← foldM_r (admit_candidate (rq_vault_id rq) (rq_action rq) (rq_origin rq) (rq_group_id rq)
                  (rq_requested_by rq) (rq_requested_at rq) (target_class_of (rq_target_storage_class rq)))
         {| ad_db := db; ad_eligible := []; ad_remediation := []; ad_skipped_same := 0 |} rows;
  let total := sumZ (map j_total_bytes (select (fun j => j_id j ∈b ad_remediation st) (t_jobs (ad_db st)))) in
  let upload_mode := if rq_action rq =b "upload"
                     then Some (upload_verification_mode (ad_db st) (rq_vault_id rq)) else None in
  r ← foldM_r (insert_job rq upload_mode) (ad_db st, ad_remediation st, total) (ad_eligible st);
  let '(db', job_ids, total) := r in
  Ok (db', job_ids, total, Z.of_nat (length (ad_eligible st)) + Z.of_nat (length (ad_remediation st))).
End queue.

(** ** At most one active Job per file *)
Definition one_active_job (jobs : list job) : Prop :=
  NoDup (map j_vault_file_id (List.filter job_is_active jobs)).

Lemma has_active_job_false db file :
  has_active_job db file = false ↔ file ∉ map j_vault_file_id (List.filter job_is_active (t_jobs db)).
Proof.
  unfold has_active_job. rewrite exists_row_false, list_elem_of_In, in_map_iff. split.
  - intros H (j & <- & Hj). apply filter_In in Hj as [Hj Ha]. apply list_elem_of_In in Hj.
    specialize (H j Hj). rewrite Ha in H. by rewrite bool_decide_eq_true_2 in H.
  - intros H j Hj. apply andb_false_iff. destruct (job_is_active j) eqn:Ha; [left|by right].
    apply bool_decide_eq_false_2. intros <-. apply H. exists j. split; [done|].
    apply filter_In. by rewrite <- list_elem_of_In.
Qed.

Lemma one_active_app jobs j :
  one_active_job jobs →
  (job_is_active j = true → j_vault_file_id j ∉ map j_vault_file_id (List.filter job_is_active jobs)) →
  one_active_job (jobs ++ [j]).
Proof.
  intros H Hj. unfold one_active_job in *. rewrite List.filter_app, map_app. cbn.
  destruct (job_is_active j) eqn:Ha; cbn; [|by rewrite app_nil_r].
  apply NoDup_app. split; [done|]. split; [|apply NoDup_singleton].
  intros x Hx ->%list_elem_of_singleton. by apply Hj.
Qed.

Section properties.
Context `{UploadInterceptorLaws} (default_mode : string).

Lemma same_inventory_trans a b c : same_inventory a b → same_inventory b c → same_inventory a c.
Proof. unfold same_inventory. intuition congruence. Qed.

Lemma mark_path_inventory v p db : same_inventory (mark_path_dirty v p db) db.
Proof.
  assert (Hs := mark_path_same v p db). unfold same_inventory.
  rewrite (same_vaults _ _ Hs), (same_files _ _ Hs), (same_paths _ _ Hs), (same_versions _ _ Hs), (same_copies _ _ Hs).
  repeat split. by injection Hs.
Qed.

(** What the candidate loop admitted. *)
Definition allowed_for (rq : job_request) (row : candidate) : bool :=
  let r := ca_row row in
  if rq_action rq =b "upload" then local_copy_is_upload_eligible r
  else if rq_action rq =b "recover" then recover_allowed r
  else if rq_action rq =b "free-space" then free_space_allowed r
  else if rq_action rq =b "rename" then rename_allowed r
  else storage_class_allowed r.

Record admission_inv (db : catalog) (rq : job_request) (rows : list candidate) (st : admission) : Prop := {
  ai_inventory : same_inventory (ad_db st) db;
  ai_eligible : ∀ row, row ∈ ad_eligible st → row ∈ rows ∧ allowed_for rq row = true;
  ai_jobs : ∃ new, t_jobs (ad_db st) = t_jobs db ++ new ∧ (rq_action rq ≠ "upload" → new = [])
    ∧ ∀ j, j ∈ new → ∃ row, row ∈ rows ∧ allowed_for rq row = true ∧ j_vault_file_id j = ca_file_id row;
  ai_one : one_active_job (t_jobs db) → one_active_job (t_jobs (ad_db st));
}.

Lemma intercept_one_active db v f u at_ auto g db' h r :
  intercept_upload db v f u at_ auto g = Ok (db', h, r) →
  one_active_job (t_jobs db) → one_active_job (t_jobs db').
Proof.
  intros E Hone. destruct (intercept_jobs _ _ _ _ _ _ _ _ _ _ E) as (new & -> & Hf & _ & Hact & Hlen).
  destruct new as [|j [|? ?]]; [by rewrite app_nil_r| |cbn in Hlen; lia].
  apply one_active_app; [done|]. intros _. apply Forall_cons in Hf as [-> _].
  apply has_active_job_false. destruct (has_active_job db f) eqn:Ea; [|done]. by specialize (Hact eq_refl).
Qed.

Lemma admit_candidate_inv db rq rows st row st' :
  row ∈ rows → admission_inv db rq rows st →
  admit_candidate (rq_vault_id rq) (rq_action rq) (rq_origin rq) (rq_group_id rq) (rq_requested_by rq)
    (rq_requested_at rq) (target_class_of (rq_target_storage_class rq)) st row = Ok st' →
  admission_inv db rq rows st'.
Proof.
  intros Hrow Hinv. unfold admit_candidate.
  assert (Hadmit : ∀ b, (b = true → allowed_for rq row = true) →
    Ok (admit_if b row st) = Ok st' → admission_inv db rq rows st').
  { intros b Hb [= <-]. destruct Hinv as [Hi He Hj Ho]. constructor; try done. cbn.
    destruct b; [|done]. intros x [Hx| ->%list_elem_of_singleton]%elem_of_app; auto. }
  destruct (rq_action rq =b "upload") eqn:Eu.
  - destruct (local_copy_is_upload_eligible (ca_row row)) eqn:El; [|by intros [= <-]].
    rewrite bind_ok. intros ([[db1 h] r] & E & Hst). revert Hst. cbn [after_intercept].
    destruct Hinv as [Hi He (new & Hj & Hjn & Hjf) Ho].
    assert (Hi1 := intercept_inventory _ _ _ _ _ _ _ _ _ _ E).
    assert (Ho1 := intercept_one_active _ _ _ _ _ _ _ _ _ _ E).
    destruct (intercept_jobs _ _ _ _ _ _ _ _ _ _ E) as (new1 & Hj1 & Hf1 & _).
    assert (Hnew : ∀ j, j ∈ new ++ new1 →
      ∃ row, row ∈ rows ∧ allowed_for rq row = true ∧ j_vault_file_id j = ca_file_id row).
    { intros j [?|Hjj]%elem_of_app; [auto|]. exists row. split; [done|]. rewrite Forall_forall in Hf1.
      split; [unfold allowed_for; by rewrite Eu|by apply Hf1]. }
    bsimpl. destruct h; intros [= <-].
    + assert (Hm : same_but_dirty (ad_db (intercepted (rq_vault_id rq) row db1 r st)) db1)
        by (destruct r; [apply mark_path_same|done]).
      constructor; cbn [ad_eligible intercepted].
      * eapply same_inventory_trans; [|by eapply same_inventory_trans].
        destruct r; [apply mark_path_inventory|by unfold same_inventory].
      * done.
      * exists (new ++ new1). rewrite (same_jobs _ _ Hm), Hj1, Hj, app_assoc. by repeat split.
      * intros Hd. rewrite (same_jobs _ _ Hm). auto.
    + constructor; cbn.
      * by eapply same_inventory_trans.
      * intros x [Hx| ->%list_elem_of_singleton]%elem_of_app; [auto|]. split; [done|].
        unfold allowed_for. by rewrite bool_decide_eq_true_2.
      * exists (new ++ new1). rewrite Hj1, Hj, app_assoc. by repeat split.
      * auto.
  - assert (Hall : ∀ b, b = true → allowed_for rq row = b → allowed_for rq row = true) by (by intros b -> ->).
    destruct (rq_action rq =b "recover") eqn:E1.
    { apply Hadmit. intros Hb. apply (Hall _ Hb). unfold allowed_for. by rewrite Eu, E1. }
    destruct (rq_action rq =b "free-space") eqn:E2.
    { apply Hadmit. intros Hb. apply (Hall _ Hb). unfold allowed_for. by rewrite Eu, E1, E2. }
    destruct (rq_action rq =b "rename") eqn:E3.
    { apply Hadmit. intros Hb. apply (Hall _ Hb). unfold allowed_for. by rewrite Eu, E1, E2, E3. }
    destruct (rq_action rq =b "storage-class") eqn:E4; [|done].
    destruct (_ && _); [intros [= <-]; by destruct Hinv|].
    apply Hadmit. intros Hb. apply (Hall _ Hb). unfold allowed_for. by rewrite Eu, E1, E2, E3.
Qed.

(** What the insertion loop adds. *)
Record insertion_inv (rq : job_request) (mode : option string) (start : catalog) (rows : list candidate)
    (st : catalog * list Z * Z) : Prop := {
  ii_inventory : same_inventory st.1.1 start;
  ii_jobs : ∃ new, t_jobs st.1.1 = t_jobs start ++ new
    ∧ ∀ j, j ∈ new → ∃ row id size, row ∈ rows ∧ j = new_job rq id row size mode;
  ii_one : one_active_job (t_jobs start) → one_active_job (t_jobs st.1.1);
}.

Lemma insert_job_inv rq mode start rows st row st' :
  row ∈ rows → insertion_inv rq mode start rows st →
  insert_job rq mode st row = Ok st' → insertion_inv rq mode start rows st'.
Proof.
  destruct st as [[db ids] total]. intros Hrow [Hi (new & Hj & Hn) Ho]. cbn in *.
  unfold insert_job. rewrite bind_ok. intros (size & _ & Hst).
  set (job := new_job _ _ _ _ _) in Hst. destruct (job_is_active job && _) eqn:E; [injection Hst as <-; by constructor; eauto|].
  injection Hst as <-. set (db1 := set_jobs _ db).
  assert (Hs : same_but_dirty (if rq_action rq =b "upload" then mark_path_dirty (rq_vault_id rq) (Some (ca_path row)) db1
                               else db1) db1) by (case_bool_decide; [apply mark_path_same|done]).
  constructor; cbn [fst snd].
  - eapply same_inventory_trans; [|eapply (same_inventory_trans db1 db); [done|exact Hi]].
    case_bool_decide; [apply mark_path_inventory|by unfold same_inventory].
  - exists (new ++ [job]). rewrite (same_jobs _ _ Hs). cbn. rewrite Hj, app_assoc. split; [done|].
    intros j [?| ->%list_elem_of_singleton]%elem_of_app; [auto|]. by do 3 eexists.
  - intros Hone. rewrite (same_jobs _ _ Hs). cbn. apply one_active_app; [auto|].
    intros Ha. rewrite Ha in E. cbn in E. by apply has_active_job_false.
Qed.

(** The rows of the candidate query. *)
Lemma elem_of_queue_candidates v path action dir whole ver db row :
  row ∈ queue_candidates v path action dir whole ver db →
  ∃ f p av, f ∈ t_files db ∧ vf_vault_id f = v ∧ vf_status f = Active ∧ has_active_job db (vf_id f) = false
    ∧ current_path_of (t_paths db) (vf_id f) = Some p ∧ path_in_scope path dir whole (fp_path p) = true
    ∧ row = candidate_of f p (local_copy_of (t_copies db) (vf_id f)) av
    ∧ snapshot_clause action ver db (vf_id f) av = true
    ∧ (if exact_version_wanted action dir whole ver
       then av = version_by_id db (or_default ver "") (vf_id f)
       else av = latest_for_action db action (vf_id f)).
Proof.
  unfold queue_candidates. rewrite sort_by_perm, list_elem_of_omap.
  intros (f & Hf & Hrow). unfold candidate_row in Hrow.
  destruct (_ || has_active_job _ _) eqn:E; [done|]. bsimpl.
  destruct (current_path_of _ _) as [p|] eqn:Ep; [|done].
  destruct (_ || negb (path_in_scope _ _ _ _)) eqn:E2; [done|]. bsimpl.
  destruct (exact_version_wanted _ _ _ _).
  - destruct (version_by_id _ _ _) as [w|] eqn:Ew; [|done].
    destruct (snapshot_clause _ _ _ _ _) eqn:Es; [|done]. injection Hrow as <-.
    exists f, p, (Some w). by repeat split.
  - destruct (snapshot_clause _ _ _ _ _) eqn:Es; [|done]. injection Hrow as <-.
    exists f, p, (latest_for_action db action (vf_id f)). by repeat split.
Qed.

(** The whole of [queue_jobs]: the loops composed. *)
Lemma queue_jobs_inv db rq db' ids total n :
  queue_jobs default_mode db rq = Ok (db', ids, total, n) →
  admission_lock db (rq_vault_id rq) = Ok tt
  ∧ same_inventory db' db
  ∧ (one_active_job (t_jobs db) → one_active_job (t_jobs db'))
  ∧ ∃ resumed new, t_jobs db' = t_jobs db ++ resumed ++ new ∧ (rq_action rq ≠ "upload" → resumed = [])
    ∧ (∀ j, j ∈ resumed → ∃ row,
         row ∈ queue_candidates (rq_vault_id rq) (rq_path rq) (rq_action rq) (rq_is_directory rq)
                 (rq_whole_vault rq) (rq_archive_version_id rq) db
         ∧ allowed_for rq row = true ∧ j_vault_file_id j = ca_file_id row)
    ∧ ∀ j, j ∈ new → ∃ row id size mode,
        row ∈ queue_candidates (rq_vault_id rq) (rq_path rq) (rq_action rq) (rq_is_directory rq)
                (rq_whole_vault rq) (rq_archive_version_id rq) db
        ∧ allowed_for rq row = true ∧ j = new_job rq id row size mode.
Proof.
  unfold queue_jobs. intros Hq. apply bind_ok in Hq as ([] & Hlock & Hq). split; [done|].
  apply raise_if_bind_ok in Hq as [_ Hq]. set (rows := queue_candidates _ _ _ _ _ _ _) in *.
  apply bind_ok in Hq as (st & Hadm & Hq). apply bind_ok in Hq as ([[db2 ids2] total2] & Hins & Hq).
  injection Hq as -> _ _ _.
  assert (Ha : admission_inv db rq rows st).
  { eapply foldM_r_invariant; [| |exact Hadm]; [by intros; eapply admit_candidate_inv|].
    constructor; cbn; [done|set_solver|exists []; rewrite app_nil_r; set_solver|done]. }
  destruct Ha as [Hi He (resumed & Hr & Hrn & Hrf) Ho].
  set (mode := if _ =b _ then _ else _) in Hins.
  assert (Hb : insertion_inv rq mode (ad_db st) (ad_eligible st) (db', ids2, total2)).
  { eapply foldM_r_invariant; [| |exact Hins]; [by intros; eapply insert_job_inv|].
    constructor; cbn; [done|exists []; rewrite app_nil_r; set_solver|done]. }
  destruct Hb as [Hi' (new & Hn & Hnew) Ho']. cbn in *.
  split; [by eapply same_inventory_trans|]. split; [auto|].
  exists resumed, new. rewrite Hn, Hr, app_assoc. split; [done|]. split; [done|]. split; [done|].
  intros j Hj. destruct (Hnew j Hj) as (row & id & size & Hrow & ->). destruct (He row Hrow) as [??].
  by exists row, id, size, mode.
Qed.

(** A Job that was not there before, for an action that resumes nothing. *)
Lemma queue_jobs_new db rq db' ids total n j :
  queue_jobs default_mode db rq = Ok (db', ids, total, n) → rq_action rq ≠ "upload" →
  j ∈ t_jobs db' → j ∉ t_jobs db →
  ∃ f p av id size mode, f ∈ t_files db
    ∧ let row := candidate_of f p (local_copy_of (t_copies db) (vf_id f)) av in
    allowed_for rq row = true ∧ j = new_job rq id row size mode
    ∧ snapshot_clause (rq_action rq) (rq_archive_version_id rq) db (vf_id f) av = true
    ∧ (if exact_version_wanted (rq_action rq) (rq_is_directory rq) (rq_whole_vault rq) (rq_archive_version_id rq)
       then av = version_by_id db (or_default (rq_archive_version_id rq) "") (vf_id f)
       else av = latest_for_action db (rq_action rq) (vf_id f)).
Proof.
  intros (_ & _ & _ & resumed & new & Hj & Hr & _ & Hnew)%queue_jobs_inv Hu Hin Hnot.
  rewrite Hr in Hj by done. rewrite Hj, elem_of_app in Hin. destruct Hin as [|Hin]; [done|].
  destruct (Hnew j Hin) as (row & id & size & mode & Hrow & Hok & ->).
  apply elem_of_queue_candidates in Hrow as (f & p & av & Hf & _ & _ & _ & _ & _ & -> & Hs & He).
  by exists f, p, av, id, size, mode.
Qed.

(** Any Job that was not there before is for a file of the scope. *)
Lemma queue_jobs_new_file db rq db' ids total n j :
  queue_jobs default_mode db rq = Ok (db', ids, total, n) → j ∈ t_jobs db' → j ∉ t_jobs db →
  ∃ f p, f ∈ t_files db ∧ vf_vault_id f = rq_vault_id rq
    ∧ current_path_of (t_paths db) (vf_id f) = Some p
    ∧ path_in_scope (rq_path rq) (rq_is_directory rq) (rq_whole_vault rq) (fp_path p) = true
    ∧ j_vault_file_id j = vf_id f.
Proof.
  intros (_ & _ & _ & resumed & new & Hj & _ & Hr & Hn)%queue_jobs_inv Hin Hnot.
  rewrite Hj, !elem_of_app in Hin.
  assert (∃ row, row ∈ queue_candidates (rq_vault_id rq) (rq_path rq) (rq_action rq) (rq_is_directory rq)
                   (rq_whole_vault rq) (rq_archive_version_id rq) db ∧ j_vault_file_id j = ca_file_id row)
    as (row & Hrow & ->).
  { destruct Hin as [?|[Hin|Hin]]; [done| |].
    - destruct (Hr j Hin) as (row & ? & _ & ?). eauto.
    - destruct (Hn j Hin) as (row & id & size & mode & ? & _ & ->). exists row. done. }
  apply elem_of_queue_candidates in Hrow as (f & p & av & Hf & Hv & _ & _ & Hp & Hs & -> & _).
  exists f, p. done.
Qed.

Lemma latest_for_action_some db action file v :
  latest_for_action db action file = Some v →
  v ∈ t_versions db ∧ av_vault_file_id v = file.
Proof. intros [(Hv & Hp)%elem_of_select _]%latest_some. bsimpl. done. Qed.

(** Recovery joins the current snapshot. *)
Lemma latest_for_recover db file : latest_for_action db "recover" file = only_cloud_copy db file.
Proof.
  unfold latest_for_action, only_cloud_copy. f_equal. apply filter_ext. intros v. cbn.
  destruct (av_vault_file_id v =b file), (av_integrity v), (av_availability v); reflexivity.
Qed.

(** The guards of two actions. *)
Lemma allowed_free_space rq row :
  rq_action rq = "free-space" → allowed_for rq row = free_space_allowed (ca_row row).
Proof. unfold allowed_for. by intros ->. Qed.

Lemma allowed_recover rq row : rq_action rq = "recover" → allowed_for rq row = recover_allowed (ca_row row).
Proof. unfold allowed_for. by intros ->. Qed.

Lemma exact_recover dir whole ver :
  exact_version_wanted "recover" dir whole ver = truthy ver && negb dir && negb whole.
Proof. done. Qed.
End properties.

Section claims.
Context `{UploadInterceptorLaws} (default_mode : string).

Lemma free_space_evidence db rq db' ids total n j :
  rq_action rq = "free-space" →
  queue_jobs default_mode db rq = Ok (db', ids, total, n) → j ∈ t_jobs db' → j ∉ t_jobs db →
  ∃ c v, local_copy_of (t_copies db') (j_vault_file_id j) = Some c
    ∧ v ∈ t_versions db' ∧ av_vault_file_id v = j_vault_file_id j ∧ copy_protected c v
    ∧ j_archive_version_id j = Some (av_id v)
    ∧ ∀ w, w ∈ t_versions db' → av_vault_file_id w = j_vault_file_id j →
        av_availability w ∉ [AvMissing; Purged] → av_version_number w ≤ av_version_number v.
Proof.
  intros Ha Hq Hin Hnot. destruct (queue_jobs_inv default_mode _ _ _ _ _ _ Hq) as (_ & Hi & _).
  destruct Hi as (_ & _ & _ & Hv & Hc & _).
  destruct (queue_jobs_new default_mode _ _ _ _ _ _ _ Hq ltac:(by rewrite Ha) Hin Hnot)
    as (f & p & av & id & size & mode & _ & Hok & -> & _ & Hav).
  rewrite allowed_free_space in Hok by done. rewrite Ha in Hav.
  change (exact_version_wanted "free-space" _ _ _) with false in Hav. cbn match in Hav.
  rewrite Hv, Hc. cbn. rewrite Ha. change ("free-space" =b "upload") with false. cbn match.
  destruct (local_copy_of (t_copies db) (vf_id f)) as [c|]; [|done].
  destruct av as [v|]; [|by unfold free_space_allowed in Hok; cbn in Hok; rewrite !andb_false_r in Hok].
  destruct (latest_for_action_some _ _ _ _ (eq_sym Hav)) as [Hv1 Hv2]. exists c, v.
  unfold free_space_allowed in Hok. cbn in Hok. bsimpl. simplify_eq.
  split; [done|]. split; [done|]. split; [done|]. split.
  { unfold copy_protected. rewrite is_some_true in *. by repeat split. }
  split; [done|]. intros w Hw Hwf Hwa.
  symmetry in Hav. apply latest_some in Hav as [_ Hmax]. apply Hmax, elem_of_select. split; [done|]. cbn.
  rewrite bool_decide_eq_true_2 by done. cbn. rewrite andb_true_r. apply negb_true_iff, orb_false_iff.
  split; apply bool_decide_eq_false_2; set_solver.
Qed.

(** Admission keeps the queue sound.  A request that is accepted names an
    active Vault, changes no file, path, copy, version, Vault or policy, only
    appends Jobs, and keeps at most one active Job per file, also across the
    Jobs the remediation component resumes in the middle of the loop. *)
Theorem queue_jobs_one_active db rq db' ids total n :
  one_active_job (t_jobs db) →
  queue_jobs default_mode db rq = Ok (db', ids, total, n) →
  one_active_job (t_jobs db') ∧ same_inventory db' db
  ∧ (∃ new, t_jobs db' = t_jobs db ++ new)
  ∧ ∃ v, v ∈ t_vaults db ∧ va_id v = rq_vault_id rq
      ∧ (truthy (va_decommission_state v) = true → va_decommission_state v = Some "active").
Proof.
  intros Hone (Hl & Hi & Ho & resumed & new & Hj & _)%queue_jobs_inv.
  split; [auto|]. split; [done|]. split; [by exists (resumed ++ new)|].
  unfold admission_lock in Hl. destruct (fetchone _ _) as [v|] eqn:E; [|done].
  apply fetchone_some in E as [Hv E]. apply raise_if_ok in Hl. bsimpl.
  exists v. split; [done|]. split; [done|]. intros Ht. rewrite Ht in Hl.
  destruct (va_decommission_state v); cbn in *; [by f_equal|done].
Qed.

(** C3: freeing space never drops the only copy.  Every free-space Job admitted
    is for a file whose local bytes are a regular file with the digest of a
    verified, available Archive Version of that same file, the one the copy is
    matched to and no other listed version is newer; the Job pins it. *)
Theorem free_space_is_safe db rq db' ids total n j :
  rq_action rq = "free-space" →
  queue_jobs default_mode db rq = Ok (db', ids, total, n) → j ∈ t_jobs db' → j ∉ t_jobs db →
  ∃ c v, local_copy_of (t_copies db') (j_vault_file_id j) = Some c
    ∧ v ∈ t_versions db' ∧ av_vault_file_id v = j_vault_file_id j ∧ copy_protected c v
    ∧ j_archive_version_id j = Some (av_id v)
    ∧ ∀ w, w ∈ t_versions db' → av_vault_file_id w = j_vault_file_id j →
        av_availability w ∉ [AvMissing; Purged] → av_version_number w ≤ av_version_number v.
Proof. apply free_space_evidence. Qed.

(** Recovery restores the current snapshot and overwrites nothing.  Every
    recover Job admitted, for one file, a folder or the whole Vault and with or
    without an exact version id, pins the newest verified and available version
    of its file (the id asked for, when it is exact), and the file has no
    present local copy. *)
Theorem recovery_restores_current_snapshot db rq db' ids total n j :
  rq_action rq = "recover" →
  queue_jobs default_mode db rq = Ok (db', ids, total, n) → j ∈ t_jobs db' → j ∉ t_jobs db →
  (∃ v, only_cloud_copy db' (j_vault_file_id j) = Some v ∧ j_archive_version_id j = Some (av_id v))
  ∧ (∀ c, local_copy_of (t_copies db') (j_vault_file_id j) = Some c → lc_presence c ≠ Present)
  ∧ (truthy (rq_archive_version_id rq) = true → rq_is_directory rq = false → rq_whole_vault rq = false →
     j_archive_version_id j = rq_archive_version_id rq).
Proof.
  intros Ha Hq Hin Hnot. destruct (queue_jobs_inv default_mode _ _ _ _ _ _ Hq) as (_ & Hi & _).
  destruct Hi as (_ & _ & _ & Hv & Hc & _).
  destruct (queue_jobs_new default_mode _ _ _ _ _ _ _ Hq ltac:(by rewrite Ha) Hin Hnot)
    as (f & p & av & id & size & mode & _ & Hok & -> & Hs & Hav).
  unfold only_cloud_copy. rewrite Hv, Hc. fold (only_cloud_copy db (j_vault_file_id (new_job rq id
    (candidate_of f p (local_copy_of (t_copies db) (vf_id f)) av) size mode))). cbn. rewrite Ha in *. cbn in *.
  rewrite allowed_recover in Hok by done. unfold recover_allowed in Hok. cbn in Hok. bsimpl.
  change ("recover" =b "upload") with false. cbn match.
  destruct av as [v|]; [cbn in *|done].
  split; [|split].
  - rewrite exact_recover in Hav. destruct (truthy _ && _ && _) eqn:Ew.
    + bsimpl. unfold snapshot_clause in Hs. change ("recover" =b "recover") with true in Hs.
      destruct (truthy _); [|done]. cbn in Hs. bsimpl. destruct Hs as [_ Hs].
      destruct (only_cloud_copy db (vf_id f)) as [w|]; [|done]. exists w. split; [done|]. by rewrite Hs.
    + rewrite latest_for_recover in Hav. exists v. by rewrite <- Hav.
  - intros c Hcc. rewrite Hcc in *. cbn in *. congruence.
  - intros Ht Hd Hw. rewrite exact_recover in Hav. rewrite Ht, Hd, Hw in Hav. cbn in Hav.
    symmetry in Hav. apply fetchone_some in Hav as [_ Hav]. bsimpl.
    destruct (rq_archive_version_id rq); [|done]. cbn in *. congruence.
Qed.
End claims.

(** ** Observation: the shared shape *)
Lemma get_or_create_same db v path at_ uuid :
  let db' := (get_or_create_file db v path at_ uuid).1 in
  t_copies db' = t_copies db ∧ t_versions db' = t_versions db ∧ t_jobs db' = t_jobs db ∧ t_vaults db' = t_vaults db.
Proof. unfold get_or_create_file. by destruct (current_file db v path). Qed.

Lemma cancel_rows_same db rows at_ actor reason :
  t_copies (cancel_rows db rows at_ actor reason) = t_copies db
  ∧ t_versions (cancel_rows db rows at_ actor reason) = t_versions db.
Proof.
  unfold cancel_rows. revert db; induction rows as [|r rows IH]; intros db; [done|]. cbn. by destruct (IH (cancel_row at_ actor reason db r)) as [-> ->].
Qed.

Definition pending_deletion (vault_id : Z) (file : string) (j : job) : Prop :=
  j_vault_id j = vault_id ∧ j_vault_file_id j = file ∧ j_action j = "cloud-purge" ∧ j_status j = "pending_delay".

(** One turn of the cancellation loop removes the pending Jobs of its group. *)
Lemma cancel_group_pending db v g actor at_ db' n file rest :
  cancel_cloud_deletion db v g actor at_ = Ok (db', n) →
  (∀ j, j ∈ t_jobs db → pending_deletion v file j → j_group_id j ∈ Some g :: rest) →
  t_copies db' = t_copies db ∧ t_versions db' = t_versions db
  ∧ ∀ j, j ∈ t_jobs db' → pending_deletion v file j → j_group_id j ∈ rest.
Proof.
  unfold cancel_cloud_deletion. rewrite bind_ok. intros (u & _ & H) Hall.
  apply raise_if_bind_ok in H as [_ H]. injection H as <- _.
  destruct (cancel_rows_same db (group_rows db v g) at_ actor "Cancelled before deletion started") as [? ?].
  split; [done|]. split; [done|]. intros j Hj (Hv & Hf & Ha & Hs). rewrite cancel_rows_jobs in Hj.
  apply elem_of_update_where in Hj as (j0 & Hj0 & ->). case_bool_decide as Hin; [by cbn in Hs|].
  assert (Hg := Hall j0 Hj0 ltac:(done)). apply elem_of_cons in Hg as [Hg|Hg]; [|done].
  exfalso. apply Hin. apply list_elem_of_In, in_map, list_elem_of_In, elem_of_group_rows. done.
Qed.

Lemma cancel_reappeared_spec db v file at_ db' :
  cancel_reappeared_deletions db v [file] at_ = Ok db' →
  t_copies db' = t_copies db ∧ t_versions db' = t_versions db
  ∧ ∀ j, j ∈ t_jobs db' → ¬ pending_deletion v file j.
Proof.
  unfold cancel_reappeared_deletions. change (bool_decide ([file] = [])) with false. cbn match.
  assert (Hall : ∀ j, j ∈ t_jobs db → pending_deletion v file j → j_group_id j ∈ pending_groups db v [file]).
  { intros j Hj (Hv & Hf & Ha & Hs). unfold pending_groups. apply elem_of_remove_dups, list_elem_of_In, in_map, list_elem_of_In.
    apply elem_of_select. split; [done|]. rewrite Hv, Hf, Ha, Hs, !bool_decide_eq_true_2; try done. by left. }
  revert Hall. generalize (pending_groups db v [file]). intros gs. revert db.
  induction gs as [|g gs IH]; intros db Hall; cbn.
  - intros [= <-]. split; [done|]. split; [done|]. intros j Hj Hp. by apply (not_elem_of_nil (j_group_id j)), Hall.
  - destruct g as [g|]; [|done]. rewrite bind_ok. intros (db1 & H1 & H).
    apply bind_ok in H1 as ([db2 n] & Hc & [= <-]).
    destruct (cancel_group_pending _ _ _ _ _ _ _ _ gs Hc Hall) as (Hcp & Hvs & Hrest).
    destruct (IH _ Hrest H) as (-> & -> & ?). by rewrite Hcp, Hvs.
Qed.

(** The row an observation leaves: the merge with the row that was there. *)
Definition after_observation (old : option local_copy) (new : local_copy) (recovered_at : option timestamp)
  : local_copy :=
  let c := match old with Some c => merge_observation c new | None => new end in
  match recovered_at with Some at_ => set_recovered at_ c | None => c end.

Lemma local_copy_of_update file f copies :
  (∀ c, lc_vault_file_id (f c) = lc_vault_file_id c) →
  local_copy_of (update_where (fun c => lc_vault_file_id c =b file) f copies) file = f <$> local_copy_of copies file.
Proof.
  intros Hf. unfold local_copy_of. induction copies as [|c copies IH]; [done|]. cbn.
  destruct (decide (lc_vault_file_id c = file)) as [E|E].
  - by rewrite (bool_decide_eq_true_2 _ E), Hf, (bool_decide_eq_true_2 _ E).
  - by rewrite (bool_decide_eq_false_2 _ E), (bool_decide_eq_false_2 _ E).
Qed.

Lemma local_copy_of_upsert file new copies :
  lc_vault_file_id new = file →
  local_copy_of (upsert_copy new copies) file
  = Some (match local_copy_of copies file with Some c => merge_observation c new | None => new end).
Proof.
  intros Hn. unfold upsert_copy. rewrite Hn. destruct (exists_row _ copies) eqn:E.
  - rewrite local_copy_of_update by done. apply exists_row_true in E as (c & Hc & Hp).
    destruct (local_copy_of copies file) eqn:E2; [done|].
    unfold local_copy_of in E2. rewrite fetchone_none in E2. by rewrite E2 in Hp.
  - rewrite exists_row_false in E. unfold local_copy_of.
    assert (En : fetchone (fun c => lc_vault_file_id c =b file) copies = None) by (by apply fetchone_none).
    rewrite En. clear E. revert En. unfold fetchone.
    induction copies as [|c copies IH]; cbn; [intros _; by rewrite bool_decide_eq_true_2|].
    case_bool_decide; [done|]. apply IH.
Qed.

Lemma observe_local_copy_spec db v path ft size mtime at_ seen rec uuid db' file :
  observe_local_copy db v path ft size mtime at_ seen rec uuid = Ok (db', file) →
  local_copy_of (t_copies db') file
    = Some (after_observation (local_copy_of (t_copies db) file) (observed_row db file ft size mtime at_ seen rec) rec)
  ∧ t_versions db' = t_versions db
  ∧ ∀ j, j ∈ t_jobs db' → ¬ pending_deletion v file j.
Proof.
  unfold observe_local_copy.
  destruct (get_or_create_same db v path at_ uuid) as (Hc & Hv & _).
  destruct (get_or_create_file db v path at_ uuid) as [db1 file1]. cbn [fst] in Hc, Hv.
  rewrite bind_ok. intros (db4 & Hcan & [= <- <-]).
  apply cancel_reappeared_spec in Hcan as (Hc4 & Hv4 & Hj4).
  assert (Hm := mark_path_same v (Some path) db4).
  rewrite (same_copies _ _ Hm), (same_versions _ _ Hm), (same_jobs _ _ Hm), Hc4, Hv4.
  assert (Ho : observed_row db1 file1 ft size mtime at_ seen rec = observed_row db file1 ft size mtime at_ seen rec)
    by (unfold observed_row, only_cloud_copy; by rewrite Hv).
  split; [|split; [by destruct rec|exact Hj4]]. rewrite Ho. unfold after_observation.
  destruct rec as [r|]; cbn [t_copies set_copies]; rewrite ?local_copy_of_update by done;
    by rewrite local_copy_of_upsert, Hc by done.
Qed.

(** C25: content that reappears where only the cloud copy was left is held.  When
    a regular file is seen at a path whose file has no present copy but a verified
    and available version, and it is not a recovery, the new Local Copy records
    that version as the only cloud copy, no read of it is eligible for upload
    (the reappearing bytes cannot replace the archived ones), and no deletion of
    the file is left waiting out its delay. *)
Theorem reappearing_copy_is_held db v path size mtime at_ seen uuid db' file w :
  observe_local_copy db v path Regular size mtime at_ seen None uuid = Ok (db', file) →
  (∀ c, local_copy_of (t_copies db) file = Some c → lc_presence c ≠ Present) →
  only_cloud_copy db file = Some w → av_id w ≠ "" →
  ∃ c, local_copy_of (t_copies db') file = Some c
    ∧ lc_presence c = Present ∧ lc_cloud_only_version_id c = Some (av_id w)
    ∧ (∀ p n o av jobs, local_copy_is_upload_eligible
         (select_row p n o {| jr_lc := Some c; jr_av := av; jr_upload_jobs := jobs |}) = false)
    ∧ ∀ j, j ∈ t_jobs db' → ¬ pending_deletion v file j.
Proof.
  intros (Hc & _ & Hj)%observe_local_copy_spec Hold Hw Hne.
  eexists. split; [exact Hc|]. set (c := after_observation _ _ _).
  assert (Hp : lc_presence c = Present ∧ lc_cloud_only_version_id c = Some (av_id w)).
  { unfold c, after_observation. destruct (local_copy_of (t_copies db) file) as [c0|].
    - cbn. rewrite Hw. split; [done|]. by rewrite (bool_decide_eq_false_2 (lc_presence c0 = Present)) by auto.
    - cbn. by rewrite Hw. }
  destruct Hp as [Hp Hco]. split; [done|]. split; [done|]. split; [|done].
  intros p n o av jobs. unfold local_copy_is_upload_eligible, select_row. cbn [fr_cloud_only_version_id jr_lc mbind option_bind].
  rewrite Hco. cbn. destruct (av_id w); [done|]. cbn. by rewrite andb_false_r.
Qed.

(** Evidence of protection follows the bytes.  An observation of a file that
    already has a Local Copy row stores the new type, size and modification time;
    the plaintext digest and the match to an Archive Version survive exactly when
    none of the three changed, so changed content is protected by no version. *)
Theorem observation_evidence db v path ft size mtime at_ seen rec uuid db' file c :
  observe_local_copy db v path ft size mtime at_ seen rec uuid = Ok (db', file) →
  local_copy_of (t_copies db) file = Some c →
  ∃ c', local_copy_of (t_copies db') file = Some c'
    ∧ lc_file_type c' = ft ∧ lc_size c' = size ∧ lc_mtime_ns c' = mtime
    ∧ (lc_file_type c = ft ∧ lc_size c = size ∧ lc_mtime_ns c = mtime →
       lc_plaintext_sha256 c' = lc_plaintext_sha256 c
       ∧ lc_matched_archive_version_id c' = lc_matched_archive_version_id c)
    ∧ (¬ (lc_file_type c = ft ∧ lc_size c = size ∧ lc_mtime_ns c = mtime) →
       lc_plaintext_sha256 c' = None ∧ lc_matched_archive_version_id c' = None ∧ ∀ w, ¬ copy_protected c' w).
Proof.
  intros (Hc & _)%observe_local_copy_spec Hold. rewrite Hold in Hc.
  eexists. split; [exact Hc|]. set (same := bool_decide (lc_file_type c = ft ∧ lc_size c = size ∧ lc_mtime_ns c = mtime)).
  set (c' := after_observation _ _ _).
  assert (Hs : lc_plaintext_sha256 c' = (if same then lc_plaintext_sha256 c else None)
             ∧ lc_matched_archive_version_id c' = (if same then lc_matched_archive_version_id c else None)).
  { unfold c', after_observation. destruct rec; cbn; unfold same; rewrite !bool_decide_and, andb_assoc; done. }
  destruct Hs as [Hd Hm]. split; [by destruct rec|]. split; [by destruct rec|]. split; [by destruct rec|]. split.
  - intros E. unfold same in *. by rewrite bool_decide_eq_true_2 in Hd, Hm by done.
  - intros E. unfold same in *. rewrite bool_decide_eq_false_2 in Hd, Hm by done. split; [done|]. split; [done|].
    intros w (_ & _ & _ & _ & H & _). congruence.
Qed.

(** ** Witnesses *)

(** A remediation component with nothing to resume. *)
#[local] Instance no_remediation : UploadInterceptor :=
  {| intercept_upload db _ _ _ _ _ _ := Ok (db, false, None) |}.

#[local] Instance no_remediation_laws : UploadInterceptorLaws.
Proof.
  split; cbn; intros db v f u at_ auto g db' h r [= <- <- <-]; [done|].
  exists []. rewrite app_nil_r. split; [done|]. split; [constructor|]. split; [done|]. split; [done|]. cbn. lia.
Qed.

Definition w_rq (action : string) (version : option string) : job_request :=
  {| rq_vault_id := 1; rq_path := "a/b.txt"; rq_action := action; rq_requested_by := 7; rq_requested_at := 5;
     rq_group_id := "g"; rq_is_directory := false; rq_archive_version_id := version;
     rq_restore_tier := None; rq_restore_days := None; rq_initial_status := "queued";
     rq_pending_until := None; rq_origin := "manual"; rq_target_storage_class := None; rq_whole_vault := false |}.

Definition w_local : local_copy :=
  {| lc_vault_file_id := "f"; lc_presence := Present; lc_file_type := Regular; lc_size := Some 10;
     lc_mtime_ns := Some 3; lc_plaintext_sha256 := Some "h"; lc_matched_archive_version_id := Some "v1";
     lc_cloud_only_version_id := None; lc_last_seen_at := Some 0; lc_observed_at := 0;
     lc_content_observed_at := Some 0; lc_recovered_at := None |}.

(** The catalog after admitting the request, and its first Job. *)
Definition w_after (db : catalog) (rq : job_request) : catalog :=
  match queue_jobs "checksum" db rq with Ok (db', _, _, _) => db' | Raise _ => db end.

Definition w_job (db : catalog) (rq : job_request) : job :=
  new_job rq 1
    (candidate_of {| vf_id := "f"; vf_vault_id := 1; vf_status := Active; vf_created_at := 0; vf_retired_at := None |}
       {| fp_vault_file_id := "f"; fp_vault_id := 1; fp_path := "a/b.txt"; fp_valid_from := 0; fp_valid_to := None |}
       (local_copy_of (t_copies db) "f") (Some w_cloud_version)) 10 None.

Lemma queue_jobs_one_active_witness :
  one_active_job (t_jobs (w_after (set_copies [w_local] w_catalog) (w_rq "free-space" None))).
Proof.
  eapply (queue_jobs_one_active "checksum" (set_copies [w_local] w_catalog) (w_rq "free-space" None)).
  - apply NoDup_nil_2.
  - vm_compute. reflexivity.
Defined.

Lemma free_space_is_safe_witness :
  ∃ c v, local_copy_of [w_local] "f" = Some c ∧ v ∈ [w_cloud_version] ∧ copy_protected c v.
Proof.
  set (db := set_copies [w_local] w_catalog).
  destruct (free_space_is_safe "checksum" db (w_rq "free-space" None) (w_after db (w_rq "free-space" None)) [1] 10 1
              (w_job db (w_rq "free-space" None))) as (c & v & Hc & Hv & _ & Hp & _).
  - reflexivity.
  - vm_compute. reflexivity.
  - vm_compute. left.
  - apply not_elem_of_nil.
  - exists c, v. split; [exact Hc|]. split; [exact Hv|exact Hp].
Defined.

Lemma recovery_restores_current_snapshot_witness :
  j_archive_version_id (w_job w_catalog (w_rq "recover" (Some "v1"))) = Some "v1".
Proof.
  eapply (recovery_restores_current_snapshot "checksum" w_catalog (w_rq "recover" (Some "v1"))
            (w_after w_catalog (w_rq "recover" (Some "v1"))) [1] 10 1).
  - reflexivity.
  - vm_compute. reflexivity.
  - vm_compute. left.
  - apply not_elem_of_nil.
  - reflexivity.
  - reflexivity.
  - reflexivity.
Defined.

Definition w_observed (db : catalog) (size : Z) : catalog :=
  match observe_local_copy db 1 "a/b.txt" Regular (Some size) (Some 3) 20 None None "u" with
  | Ok (db', _) => db'
  | Raise _ => db
  end.

(** The file of [w_scheduled], cloud-only with a pending deletion, reappears. *)
Lemma reappearing_copy_is_held_witness :
  ∃ c, local_copy_of (t_copies (w_observed w_scheduled 11)) "f" = Some c
    ∧ lc_cloud_only_version_id c = Some "v1"
    ∧ (∀ j, j ∈ t_jobs (w_observed w_scheduled 11) → ¬ pending_deletion 1 "f" j).
Proof.
  destruct (reappearing_copy_is_held w_scheduled 1 "a/b.txt" (Some 11) (Some 3) 20 None "u"
              (w_observed w_scheduled 11) "f" w_cloud_version) as (c & Hc & _ & Ho & _ & Hj).
  - vm_compute. reflexivity.
  - intros c Hc. vm_compute in Hc. discriminate.
  - vm_compute. reflexivity.
  - discriminate.
  - exists c. split; [exact Hc|]. split; [exact Ho|exact Hj].
Defined.

Lemma observation_evidence_witness :
  ∃ c', local_copy_of (t_copies (w_observed (set_copies [w_local] w_catalog) 11)) "f" = Some c'
    ∧ lc_plaintext_sha256 c' = None.
Proof.
  destruct (observation_evidence (set_copies [w_local] w_catalog) 1 "a/b.txt" Regular (Some 11) (Some 3) 20 None None "u"
              (w_observed (set_copies [w_local] w_catalog) 11) "f" w_local) as (c' & Hc & _ & _ & _ & _ & Hn).
  - vm_compute. reflexivity.
  - reflexivity.
  - exists c'. split; [exact Hc|]. apply Hn. intros (_ & H & _). discriminate H.
Defined.
