(* ===== verification/Automation.v ===== *)
(** * Automation: automatic upload and automatic release of local copies

    Models [queue_auto_uploads], [local_release_is_confirmed] and
    [queue_auto_local_cleanups] of [src/app/services/operation_policies.py].
    [uuid4().hex] is the function [group] of the turn of the loop; [lstat] and
    [vault_local_access] are answers of the operating system. *)
From S2P Require Import Prelude Sql PyString VaultPaths Schema ProtectionStates DirectoryAggregates JobScheduler JobClaims DirtyMarks CloudDeletion Fnmatch OperationPolicies Catalog.

(** [Path.stat(follow_symlinks=False)]: what the loop reads of it. *)
Record stat_result := {
  st_regular : bool;
  st_size : Z;
  st_mtime_ns : Z;
}.

(** A row of one of the two queries. *)
Record local_row := {
  lr_file : vault_file;
  lr_path : string;
  lr_copy : local_copy;
  lr_version : option archive_version;
}.

(** [COALESCE(lc.content_observed_at, lc.observed_at)]. *)
Definition content_observed (c : local_copy) : timestamp := coalesce (lc_content_observed_at c) (lc_observed_at c).

(** [archive_versions av ON av.id=lc.matched_archive_version_id]. *)
Definition matched_version (db : catalog) (c : local_copy) : option archive_version :=
  lc_matched_archive_version_id c ≫= fun id => fetchone (fun v => av_id v =b id) (t_versions db).

Definition copy_is_matched (c : local_copy) (av : option archive_version) : bool :=
  is_some (lc_matched_archive_version_id c) && is_some (lc_plaintext_sha256 c)
  && match av with
     | Some v => (av_integrity v =b Verified) && (av_availability v =b Available)
                 && (av_plaintext_sha256 v =b lc_plaintext_sha256 c)
     | None => false
     end.

Definition latest_upload_status (db : catalog) (file_id : string) : option string :=
  j_status <$> latest j_id (select (fun j => (j_vault_file_id j =b file_id) && (j_action j =b "upload")) (t_jobs db)).

Definition stopped_since (db : catalog) (file_id : string) (observed : timestamp) : bool :=
  exists_row (fun j => (j_vault_file_id j =b file_id) && (j_action j =b "upload") && (j_origin j =b "automatic")
                       && (j_status j ∈b ["failed"; "cancelled"]) && (observed <=? j_requested_at j)) (t_jobs db).

Definition pending_delete (db : catalog) (file_id : string) : bool :=
  exists_row (fun i => (cdi_vault_file_id i =b file_id) && (cdi_status i =b "pending")) (t_items db).

Definition auto_upload_row (db : catalog) (vault_id : Z) (retry_failed_only : bool) (f : vault_file)
  : option local_row :=
  match current_path_of (t_paths db) (vf_id f), local_copy_of (t_copies db) (vf_id f) with
  | Some p, Some c =>
      let av := matched_version db c in
      if (vf_vault_id f =b vault_id) && (vf_status f =b Active) && (lc_presence c =b Present)
         && (lc_file_type c =b Regular) && is_none (lc_cloud_only_version_id c)
         && negb (bool_decide (av_availability <$> av = Some Purged))
         && negb (copy_is_matched c av) && negb (has_active_job db (vf_id f))
         && (if retry_failed_only then bool_decide (latest_upload_status db (vf_id f) = Some "failed")
             else negb (stopped_since db (vf_id f) (content_observed c)))
         && negb (pending_delete db (vf_id f))
      then Some {| lr_file := f; lr_path := fp_path p; lr_copy := c; lr_version := av |} else None
  | _, _ => None
  end.

Definition by_lower_path (rows : list local_row) : list local_row :=
  sort_by (fun a b => String.leb (lower (lr_path a)) (lower (lr_path b))) rows.

Definition auto_upload_rows (db : catalog) (vault_id : Z) (retry_failed_only : bool) : list local_row :=
  by_lower_path (omap (auto_upload_row db vault_id retry_failed_only) (t_files db)).

Section automation.
Context `{UploadInterceptor} (default_upload_verification : string).
Context (fs : fs_view) (lstat : list string → option stat_result) (local_access : string → bool).
Context (group : nat → string).

(** The checks of one row before it is handed to [queue_jobs]. *)
Definition upload_row_allowed (p : OperationPolicy) (source_root : string) (now : timestamp) (r : local_row) : bool :=
  auto_upload_path_is_included (lr_path r) p
  && negb (truthy (lc_matched_archive_version_id (lr_copy r)) && truthy (lc_plaintext_sha256 (lr_copy r))
           && match lr_version r with
              | Some v => (av_integrity v =b Verified) && (av_availability v =b Available)
                          && (av_plaintext_sha256 v =b lc_plaintext_sha256 (lr_copy r))
              | None => false
              end)
  && negb (bool_decide (av_availability <$> lr_version r = Some Purged))
  && match safe_local_path fs source_root (lr_path r) with
     | Raise _ => false
     | Ok local_path =>
         match lstat local_path with
         | None => false
         | Some st =>
             st_regular st && bool_decide (lc_size (lr_copy r) = Some (st_size st))
             && bool_decide (lc_mtime_ns (lr_copy r) = Some (st_mtime_ns st))
             && file_is_stable (st_mtime_ns st) now (stability_seconds p) (Some (content_observed (lr_copy r)))
         end
     end.

(** The request both loops make for one path. *)
Definition automatic_request (vault_id requested_by : Z) (now : timestamp) (action path gid : string)
    (version : option string) : job_request :=
  {| rq_vault_id := vault_id; rq_path := path; rq_action := action; rq_requested_by := requested_by;
     rq_requested_at := now; rq_group_id := gid; rq_is_directory := false; rq_archive_version_id := version;
     rq_restore_tier := None; rq_restore_days := None; rq_initial_status := "queued"; rq_pending_until := None;
     rq_origin := "automatic"; rq_target_storage_class := None; rq_whole_vault := false |}.

Definition upload_turn (vault_id requested_by : Z) (p : OperationPolicy) (source_root : string) (now : timestamp)
    (st : catalog * Z) (ir : nat * local_row) : result (catalog * Z) :=
  if upload_row_allowed p source_root now ir.2 then
    q ← queue_jobs default_upload_verification st.1
          (automatic_request vault_id requested_by now "upload" (lr_path ir.2) (group ir.1) None);
    Ok (q.1.1.1, st.2 + Z.of_nat (length (q.1.1.2)))
  else Ok st.

Definition queue_auto_uploads (db : catalog) (vault_id : Z) (source_root : string) (requested_by : Z)
    (now : timestamp) (retry_failed_only : bool) : result (catalog * Z) :=
  let p := get_policy db vault_id in
  if negb (auto_upload p) then Ok (db, 0)
  else
    match fetchone (fun v => va_id v =b vault_id) (t_vaults db) with
    | None => Ok (db, 0)
    | Some v =>
        if (if truthy (va_decommission_state v) then or_default (va_decommission_state v) "" else "active") <>b "active"
        then Ok (db, 0)
        else foldM_r (upload_turn vault_id requested_by p source_root now) (db, 0)
               (imap pair (auto_upload_rows db vault_id retry_failed_only))
    end.

Definition local_release_is_confirmed (db : catalog) (vault_id : Z) : bool :=
  match fetchone (fun v => va_id v =b vault_id) (t_vaults db) with
  | None => false
  | Some v =>
      va_enabled v && (va_relocation_state v =b "ready")
      && bool_decide (va_decommission_state v = Some "active")
      && local_access (va_source_root v)
      && negb (observation_is_unconfirmed (health_of db vault_id))
  end.

Definition cleanup_row (db : catalog) (vault_id : Z) (f : vault_file) : option local_row :=
  match current_path_of (t_paths db) (vf_id f), local_copy_of (t_copies db) (vf_id f) with
  | Some p, Some c =>
      match matched_version db c with
      | Some v =>
          if (vf_vault_id f =b vault_id) && (vf_status f =b Active) && (lc_presence c =b Present)
             && (lc_file_type c =b Regular) && is_some (lc_plaintext_sha256 c)
             && (bool_decide (lc_plaintext_sha256 c = av_plaintext_sha256 v))
             && (av_integrity v =b Verified) && (av_availability v =b Available) && is_some (av_verified_at v)
             && is_none (lc_cloud_only_version_id c)
             && bool_decide (av_id <$> latest_version (t_versions db) (vf_id f) = Some (av_id v))
          then Some {| lr_file := f; lr_path := fp_path p; lr_copy := c; lr_version := Some v |} else None
      | None => None
      end
  | _, _ => None
  end.

Definition cleanup_rows (db : catalog) (vault_id : Z) : list local_row :=
  by_lower_path (omap (cleanup_row db vault_id) (t_files db)).

Definition row_is_due (retention : Z) (now : timestamp) (r : local_row) : bool :=
  match lr_version r with
  | Some v => local_cleanup_is_due (or_default (av_verified_at v) 0) retention now (lc_mtime_ns (lr_copy r))
                (lc_recovered_at (lr_copy r)) (Some (content_observed (lr_copy r)))
  | None => false
  end.

Definition cleanup_turn (vault_id requested_by retention : Z) (now : timestamp)
    (st : catalog * Z) (ir : nat * local_row) : result (catalog * Z) :=
  if row_is_due retention now ir.2 then
    q ← queue_jobs default_upload_verification st.1
          (automatic_request vault_id requested_by now "free-space" (lr_path ir.2) (group ir.1)
             (av_id <$> lr_version ir.2));
    Ok (foldl (fun db job_id => audit "local_cleanup.auto_queued" (Some requested_by) vault_id (Some job_id) "queued" db)
          q.1.1.1 q.1.1.2,
        st.2 + Z.of_nat (length (q.1.1.2)))
  else Ok st.

Definition queue_auto_local_cleanups (db : catalog) (vault_id requested_by : Z) (now : timestamp)
  : result (catalog * Z) :=
  let p := get_policy db vault_id in
  match local_release_after_days p with
  | None => Ok (db, 0)
  | Some retention =>
      _ ← validate_policy p;
      if negb (local_release_is_confirmed db vault_id) then Ok (db, 0)
      else foldM_r (cleanup_turn vault_id requested_by retention now) (db, 0)
             (imap pair (cleanup_rows db vault_id))
  end.
End automation.

(** ** What the loops admit *)

(** Two files of a Vault never share a current path. *)
Definition unique_current_paths (db : catalog) (vault_id : Z) : Prop :=
  ∀ f g p q, f ∈ t_files db → g ∈ t_files db → vf_vault_id f = vault_id → vf_vault_id g = vault_id →
    current_path_of (t_paths db) (vf_id f) = Some p → current_path_of (t_paths db) (vf_id g) = Some q →
    fp_path p = fp_path q → vf_id f = vf_id g.

Section properties.
Context `{UploadInterceptorLaws} (default_mode : string).
Context (fs : fs_view) (lstat : list string → option stat_result) (local_access : string → bool).
Context (group : nat → string).

Lemma audits_same ids by_ v db :
  let db' := foldl (fun db job_id => audit "local_cleanup.auto_queued" (Some by_) v (Some job_id) "queued" db) db ids in
  same_inventory db' db ∧ t_jobs db' = t_jobs db.
Proof.
  revert db; induction ids as [|i ids IH]; intros db; cbn [foldl]; [done|].
  destruct (IH (audit "local_cleanup.auto_queued" (Some by_) v (Some i) "queued" db)) as [H1 H2].
  split; [by eapply same_inventory_trans; [exact H1|]|by rewrite H2].
Qed.

(** The rows of a loop, with their turn. *)
Lemma elem_of_turns {A} (l : list A) ir : ir ∈ imap pair l → ir.2 ∈ l.
Proof. intros (i & x & -> & Hx)%elem_of_lookup_imap. by eapply list_elem_of_lookup_2. Qed.

Lemma elem_of_by_lower_path rows r : r ∈ by_lower_path rows ↔ r ∈ rows.
Proof. unfold by_lower_path. by rewrite sort_by_perm. Qed.

(** A loop that admits single paths: every Job it adds satisfies [good]. *)
Lemma admission_loop (turn : catalog * Z → nat * local_row → result (catalog * Z)) (good : job → Prop) db rows st' :
  (∀ st ir st', ir ∈ rows → same_inventory st.1 db → turn st ir = Ok st' →
     same_inventory st'.1 db ∧ ∀ j, j ∈ t_jobs st'.1 → j ∈ t_jobs st.1 ∨ good j) →
  foldM_r turn (db, 0) rows = Ok st' →
  ∀ j, j ∈ t_jobs st'.1 → j ∉ t_jobs db → good j.
Proof.
  intros Hturn Hfold. enough (Hinv : same_inventory st'.1 db ∧ ∀ j, j ∈ t_jobs st'.1 → j ∈ t_jobs db ∨ good j).
  { intros j Hj Hn. by destruct (proj2 Hinv j Hj). }
  eapply (foldM_r_invariant (fun st => same_inventory st.1 db ∧ ∀ j, j ∈ t_jobs st.1 → j ∈ t_jobs db ∨ good j));
    [| |exact Hfold].
  - intros st ir st2 Hir [Hi Hg] Ht. destruct (Hturn st ir st2 Hir Hi Ht) as [Hi2 Hg2]. split; [done|].
    intros j Hj. destruct (Hg2 j Hj); auto.
  - split; [done|]. by left.
Qed.

(** The file of a new Job is the file of the row it was asked for. *)
Lemma automatic_job_file db v by_ now action gid version db1 db2 ids total n r p j :
  unique_current_paths db v → same_inventory db1 db →
  lr_file r ∈ t_files db → vf_vault_id (lr_file r) = v →
  current_path_of (t_paths db) (vf_id (lr_file r)) = Some p → lr_path r = fp_path p →
  queue_jobs default_mode db1 (automatic_request v by_ now action (lr_path r) gid version) = Ok (db2, ids, total, n) →
  j ∈ t_jobs db2 → j ∉ t_jobs db1 → j_vault_file_id j = vf_id (lr_file r).
Proof.
  intros Hu (_ & Hf & Hp & _) Hr Hv Hc Hpath Hq Hj Hn.
  destruct (queue_jobs_new_file default_mode _ _ _ _ _ _ _ Hq Hj Hn) as (f & q & Hin & Hvf & Hcf & Hs & ->).
  rewrite Hf in Hin. rewrite Hp in Hcf. unfold path_in_scope in Hs. cbn in Hs, Hvf. bsimpl.
  eapply Hu; eauto. congruence.
Qed.

(** Why a local copy may go: it is protected, and the retention window has run
    out since its verification, its last change, its recovery and its mtime. *)
Record release_is_due (db : catalog) (retention : Z) (now : timestamp) (j : job) (c : local_copy)
    (w : archive_version) : Prop := {
  rd_copy : local_copy_of (t_copies db) (j_vault_file_id j) = Some c;
  rd_version : w ∈ t_versions db;
  rd_protected : copy_protected c w;
  rd_pinned : j_archive_version_id j = Some (av_id w);
  rd_not_held : lc_cloud_only_version_id c = None;
  rd_verified : ∃ t, av_verified_at w = Some t ∧ t + days retention ≤ now;
  rd_observed : content_observed c + days retention ≤ now;
  rd_recovered : ∀ t, lc_recovered_at c = Some t → t + days retention ≤ now;
  rd_modified : ∀ ns, lc_mtime_ns c = Some ns → fromtimestamp_ns ns + days retention ≤ now;
}.

Lemma elem_of_cleanup_rows db v r :
  r ∈ cleanup_rows db v →
  ∃ p w, lr_file r ∈ t_files db ∧ vf_vault_id (lr_file r) = v
    ∧ current_path_of (t_paths db) (vf_id (lr_file r)) = Some p ∧ lr_path r = fp_path p
    ∧ local_copy_of (t_copies db) (vf_id (lr_file r)) = Some (lr_copy r)
    ∧ lr_version r = Some w ∧ w ∈ t_versions db ∧ lc_matched_archive_version_id (lr_copy r) = Some (av_id w)
    ∧ is_Some (av_verified_at w) ∧ lc_cloud_only_version_id (lr_copy r) = None.
Proof.
  unfold cleanup_rows. rewrite elem_of_by_lower_path, list_elem_of_omap. intros (f & Hf & Hrow).
  unfold cleanup_row in Hrow. destruct (current_path_of _ _) as [p|] eqn:Ep; [|done].
  destruct (local_copy_of _ _) as [c|] eqn:Ec; [|done]. destruct (matched_version db c) as [w|] eqn:Ew; [|done].
  destruct (_ && _) eqn:E; [|done]. injection Hrow as <-. bsimpl. exists p, w. cbn.
  unfold matched_version in Ew. destruct (lc_matched_archive_version_id c) as [id|]; [|done].
  apply fetchone_some in Ew as [Hw Hid]. bsimpl. subst id. rewrite is_some_true in *.
  repeat split; try done. by destruct (lc_cloud_only_version_id c).
Qed.

Lemma versions_by_id db w w' :
  NoDup (map av_id (t_versions db)) → w ∈ t_versions db → w' ∈ t_versions db → av_id w = av_id w' → w = w'.
Proof.
  intros Hnd Hw Hw' Heq.
  assert (Hu : ∀ x, x ∈ t_versions db → av_id x = av_id w → fetchone (fun v => av_id v =b av_id w) (t_versions db) = Some x).
  { intros x Hx Hxw. apply (fetchone_unique av_id); [done| |done|by apply bool_decide_eq_true_2].
    intros y Hy. bsimpl. congruence. }
  assert (H1 := Hu w Hw eq_refl). assert (H2 := Hu w' Hw' (eq_sym Heq)). congruence.
Qed.

Lemma cleanup_turn_good db v by_ retention now st ir st' :
  NoDup (map av_id (t_versions db)) → unique_current_paths db v → ir.2 ∈ cleanup_rows db v →
  same_inventory st.1 db → cleanup_turn default_mode group v by_ retention now st ir = Ok st' →
  same_inventory st'.1 db
  ∧ ∀ j, j ∈ t_jobs st'.1 → j ∈ t_jobs st.1 ∨ j_action j = "free-space" ∧ ∃ c w, release_is_due db retention now j c w.
Proof.
  intros Hnd Hu Hrow Hi Ht. unfold cleanup_turn in Ht.
  destruct (row_is_due retention now ir.2) eqn:Edue; [|injection Ht as <-; auto].
  apply bind_ok in Ht as ([[[db2 ids] total] n] & Hq & [= <-]). cbn [fst snd].
  destruct (audits_same ids by_ v db2) as [Ha1 Ha2].
  destruct (queue_jobs_inv default_mode _ _ _ _ _ _ Hq) as (_ & Hi2 & _ & resumed & new & Hjobs & Hres & _ & Hnew).
  split; [eapply same_inventory_trans; [exact Ha1|by eapply same_inventory_trans]|].
  intros j Hj. rewrite Ha2 in Hj.
  destruct (decide (j ∈ t_jobs st.1)) as [|Hn]; [by left|]. right.
  destruct (elem_of_cleanup_rows _ _ _ Hrow) as (p & w & Hf & Hv & Hp & Hpath & Hc & Hw & Hwin & Hm & [t Ht] & Hco).
  assert (Hfile := automatic_job_file db v by_ now "free-space" _ _ _ _ _ _ _ _ p j Hu Hi Hf Hv Hp Hpath Hq Hj Hn).
  destruct (free_space_evidence default_mode _ (automatic_request v by_ now "free-space" _ _ _) _ _ _ _ _ eq_refl Hq Hj Hn) as (c & w' & Hc' & Hw' & _ & Hprot & Hpin & _).
  destruct Hi as (_ & _ & _ & Hvs & Hcs & _). destruct Hi2 as (_ & _ & _ & Hvs2 & Hcs2 & _).
  rewrite Hcs2, Hcs, Hfile, Hc in Hc'. injection Hc' as <-. rewrite Hvs2, Hvs in Hw'.
  assert (w' = w) as ->.
  { apply (versions_by_id db); try done. destruct Hprot as (_ & _ & _ & _ & Hm' & _). congruence. }
  split.
  { rewrite Hjobs, (Hres ltac:(done)) in Hj. apply elem_of_app in Hj as [?|Hj]; [done|].
    destruct (Hnew j Hj) as (row & id & size & mode & _ & _ & ->). done. }
  unfold row_is_due in Edue. rewrite Hw in Edue. apply local_cleanup_is_due_spec in Edue as (H1 & H2 & H3 & H4).
  rewrite Ht in H1. exists (lr_copy ir.2), w. constructor; try done; [by rewrite Hfile|by exists t|by apply H3].
Qed.

(** C24: automatic release only drops copies that are safe in the cloud and past
    the whole retention window.  Every Job [queue_auto_local_cleanups] adds is a
    free-space Job, admitted under a period of 90, 180, 365 or 730 days while
    the source is trusted and the cloud observable, for a regular local copy
    with the digest of the verified, available version the Job pins, which is
    not held; and the period has passed since the verification, the last
    change of content, the recovery and the modification time.  Without a
    period, or unconfirmed, nothing changes. *)
Theorem automatic_release_is_safe db v by_ now db' n :
  NoDup (map av_id (t_versions db)) → unique_current_paths db v →
  queue_auto_local_cleanups default_mode local_access group db v by_ now = Ok (db', n) →
  (local_release_after_days (get_policy db v) = None ∨ local_release_is_confirmed local_access db v = false → db' = db)
  ∧ ∀ j, j ∈ t_jobs db' → j ∉ t_jobs db →
      j_action j = "free-space"
      ∧ ∃ retention c w, local_release_after_days (get_policy db v) = Some retention
          ∧ retention ∈ LOCAL_RELEASE_PERIODS ∧ local_release_is_confirmed local_access db v = true
          ∧ release_is_due db retention now j c w.
Proof.
  intros Hnd Hu. unfold queue_auto_local_cleanups.
  destruct (local_release_after_days (get_policy db v)) as [d|] eqn:Ed; [|by intros [= <- _]].
  rewrite bind_ok. intros ([] & (_ & _ & Hd & _)%validate_policy_ok & Hrun).
  destruct (local_release_is_confirmed local_access db v); cbn [negb] in Hrun; [|by injection Hrun as <- _].
  split; [by intros [?|?]|]. intros j Hj Hn.
  destruct (admission_loop _ (fun j => j_action j = "free-space" ∧ ∃ c w, release_is_due db d now j c w) _ _ _
              (fun st ir st' Hir => cleanup_turn_good db v by_ d now st ir st' Hnd Hu (elem_of_turns _ _ Hir)) Hrun j Hj Hn)
    as [Ha (c & w & Hdue)].
  split; [done|]. exists d, c, w. auto.
Qed.

(** Why a file may be uploaded unattended. *)
Record upload_is_ready (db : catalog) (p : OperationPolicy) (source_root : string) (now : timestamp)
    (j : job) (path : string) (c : local_copy) : Prop := {
  ur_copy : local_copy_of (t_copies db) (j_vault_file_id j) = Some c;
  ur_content : lc_presence c = Present ∧ lc_file_type c = Regular;
  ur_not_held : lc_cloud_only_version_id c = None;
  ur_path : ∃ q, current_path_of (t_paths db) (j_vault_file_id j) = Some q ∧ fp_path q = path;
  ur_included : auto_upload_path_is_included path p = true;
  ur_unqueued : has_active_job db (j_vault_file_id j) = false;
  ur_undeleted : pending_delete db (j_vault_file_id j) = false;
  ur_on_disk : ∃ local_path st, safe_local_path fs source_root path = Ok local_path
    ∧ lstat local_path = Some st ∧ st_regular st = true
    ∧ lc_size c = Some (st_size st) ∧ lc_mtime_ns c = Some (st_mtime_ns st)
    ∧ fromtimestamp_ns (st_mtime_ns st) + seconds (stability_seconds p) ≤ now;
  ur_settled : content_observed c + seconds (stability_seconds p) ≤ now;
}.

Lemma elem_of_auto_upload_rows db v retry r :
  r ∈ auto_upload_rows db v retry →
  ∃ p, lr_file r ∈ t_files db ∧ vf_vault_id (lr_file r) = v
    ∧ current_path_of (t_paths db) (vf_id (lr_file r)) = Some p ∧ lr_path r = fp_path p
    ∧ local_copy_of (t_copies db) (vf_id (lr_file r)) = Some (lr_copy r)
    ∧ lc_presence (lr_copy r) = Present ∧ lc_file_type (lr_copy r) = Regular
    ∧ lc_cloud_only_version_id (lr_copy r) = None
    ∧ has_active_job db (vf_id (lr_file r)) = false ∧ pending_delete db (vf_id (lr_file r)) = false.
Proof.
  unfold auto_upload_rows. rewrite elem_of_by_lower_path, list_elem_of_omap. intros (f & Hf & Hrow).
  unfold auto_upload_row in Hrow. destruct (current_path_of _ _) as [p|] eqn:Ep; [|done].
  destruct (local_copy_of _ _) as [c|] eqn:Ec; [|done].
  destruct (_ && negb (pending_delete _ _)) eqn:E; [|done]. injection Hrow as <-. bsimpl. exists p. cbn.
  repeat split; try done. by destruct (lc_cloud_only_version_id c).
Qed.

Lemma upload_turn_good db v by_ p root now retry st ir st' :
  unique_current_paths db v → ir.2 ∈ auto_upload_rows db v retry →
  same_inventory st.1 db → upload_turn default_mode fs lstat group v by_ p root now st ir = Ok st' →
  same_inventory st'.1 db
  ∧ ∀ j, j ∈ t_jobs st'.1 → j ∈ t_jobs st.1 ∨ ∃ path c, upload_is_ready db p root now j path c.
Proof.
  intros Hu Hrow Hi Ht. unfold upload_turn in Ht.
  destruct (upload_row_allowed fs lstat p root now ir.2) eqn:Eok; [|injection Ht as <-; auto].
  apply bind_ok in Ht as ([[[db2 ids] total] n] & Hq & [= <-]). cbn [fst snd].
  destruct (queue_jobs_inv default_mode _ _ _ _ _ _ Hq) as (_ & Hi2 & _).
  split; [by eapply same_inventory_trans|]. intros j Hj.
  destruct (decide (j ∈ t_jobs st.1)) as [|Hn]; [by left|]. right.
  destruct (elem_of_auto_upload_rows _ _ _ _ Hrow) as (q & Hf & Hv & Hp & Hpath & Hc & Hpr & Hft & Hco & Ha & Hd).
  assert (Hfile := automatic_job_file db v by_ now "upload" _ _ _ _ _ _ _ _ q j Hu Hi Hf Hv Hp Hpath Hq Hj Hn).
  unfold upload_row_allowed in Eok. apply andb_true_iff in Eok as [Eok Edisk]. bsimpl.
  destruct (safe_local_path fs root (lr_path ir.2)) as [lp|] eqn:El; [|done].
  destruct (lstat lp) as [s|] eqn:Es; [|done]. bsimpl.
  match goal with H : file_is_stable _ _ _ _ = true |- _ => apply file_is_stable_spec in H as [Hst1 Hst2] end.
  exists (lr_path ir.2), (lr_copy ir.2). constructor; rewrite ?Hfile; try done.
  - by exists q.
  - exists lp, s. by repeat split.
  - by apply Hst2.
Qed.

(** Unattended uploads only take settled, selected files.  Every Job
    [queue_auto_uploads] adds, the ones the remediation component resumes
    included, is for a file of the Vault with a present regular copy that is
    not held, whose path the policy includes, with no active Job and no pending
    deletion; the file on disk is regular, has the catalogued size and mtime,
    and both its mtime and the observed content are older than the stability
    window.  When automatic upload is off nothing changes. *)
Theorem automatic_upload_is_ready db v root by_ now retry db' n :
  unique_current_paths db v →
  queue_auto_uploads default_mode fs lstat group db v root by_ now retry = Ok (db', n) →
  (auto_upload (get_policy db v) = false → db' = db ∧ n = 0)
  ∧ ∀ j, j ∈ t_jobs db' → j ∉ t_jobs db → ∃ path c, upload_is_ready db (get_policy db v) root now j path c.
Proof.
  intros Hu. unfold queue_auto_uploads.
  destruct (auto_upload (get_policy db v)); cbn [negb]; [|by intros [= <- <-]].
  intros Hrun. split; [done|]. destruct (fetchone _ (t_vaults db)) as [vault|]; [|by injection Hrun as <- _].
  destruct (negb (_ =b "active")); [by injection Hrun as <- _|].
  apply (admission_loop _ (fun j => ∃ path c, upload_is_ready db (get_policy db v) root now j path c) _ _ _
           (fun st ir st' Hir => upload_turn_good db v by_ _ root now retry st ir st' Hu (elem_of_turns _ _ Hir)) Hrun).
Qed.
End properties.

(** ** Witnesses: one stored file, first protected, then changed *)
#[local] Existing Instance no_remediation.
#[local] Existing Instance no_remediation_laws.

Definition w_release_db : catalog :=
  set_policies [{| pr_vault_id := 1; pr_auto_upload := true; pr_local_release_after_days := Some 90;
                   pr_stability_seconds := 300; pr_include_globs := []; pr_exclude_globs := [];
                   pr_upload_verification := None; pr_suspended_at := None |}]
    (set_copies [w_local] w_catalog).

Lemma w_unique_paths copies policies :
  unique_current_paths (set_policies policies (set_copies copies w_catalog)) 1.
Proof.
  intros f g p q Hf Hg _ _ _ _ _. cbn in Hf, Hg. apply list_elem_of_singleton in Hf, Hg. by subst.
Qed.

Definition w_released : catalog :=
  match queue_auto_local_cleanups "s3_checksum" (fun _ => true) (fun _ => "g") w_release_db 1 7 (days 90 + 1000000) with
  | Ok (db, _) => db
  | Raise _ => w_release_db
  end.

Lemma automatic_release_is_safe_witness :
  ∃ j, t_jobs w_released = [j] ∧ j_action j = "free-space".
Proof.
  eexists. split; [vm_compute; reflexivity|].
  eapply (automatic_release_is_safe "s3_checksum" (fun _ => true) (fun _ => "g") w_release_db 1 7 (days 90 + 1000000)
            w_released 1).
  - vm_compute. apply NoDup_singleton.
  - apply w_unique_paths.
  - vm_compute. reflexivity.
  - vm_compute. left.
  - vm_compute. apply not_elem_of_nil.
Defined.

(** The same path with other bytes: not matched, stable for an hour. *)
Definition w_changed : local_copy :=
  {| lc_vault_file_id := "f"; lc_presence := Present; lc_file_type := Regular; lc_size := Some 12;
     lc_mtime_ns := Some 0; lc_plaintext_sha256 := None; lc_matched_archive_version_id := None;
     lc_cloud_only_version_id := None; lc_last_seen_at := Some 0; lc_observed_at := 0;
     lc_content_observed_at := Some 0; lc_recovered_at := None |}.

Definition w_fs : fs_view :=
  {| fs_absolute _ := ["src"]; fs_resolve p := p; fs_is_symlink _ := false |}.

Definition w_lstat (p : list string) : option stat_result :=
  Some {| st_regular := true; st_size := 12; st_mtime_ns := 0 |}.

Definition w_upload_db : catalog := set_policies [] (set_copies [w_changed] w_catalog).

Definition w_uploaded : catalog :=
  match queue_auto_uploads "s3_checksum" w_fs w_lstat (fun _ => "g") w_upload_db 1 "/src" 7 (seconds 3600) false with
  | Ok (db, _) => db
  | Raise _ => w_upload_db
  end.

Lemma automatic_upload_is_ready_witness :
  ∃ j path c, t_jobs w_uploaded = [j] ∧ upload_is_ready w_fs w_lstat w_upload_db default_policy "/src" (seconds 3600) j path c.
Proof.
  destruct (automatic_upload_is_ready "s3_checksum" w_fs w_lstat (fun _ => "g") w_upload_db 1 "/src" 7 (seconds 3600)
              false w_uploaded 1) as [_ H].
  - apply w_unique_paths.
  - vm_compute. reflexivity.
  - destruct (t_jobs w_uploaded) as [|j [|? ?]] eqn:E; [vm_compute in E; discriminate| |vm_compute in E; discriminate].
    destruct (H j) as (path & c & Hr); [left|vm_compute; apply not_elem_of_nil|].
    exists j, path, c. split; [reflexivity|exact Hr].
Defined.
