(* ===== verification/CatalogBatch.v ===== *)
(** * CatalogBatch: observation of many Local Copies in a few statements

    Models [_chunked], [_resolve_or_create_files] and
    [observe_local_copies_batch] of [ArchiveCatalog] (src/app/catalog.py), and
    proves that a batch of distinct paths leaves the catalog the serialized
    [observe_local_copy] calls leave.  The uuid minted for a path is a function
    of the path, the same one on both sides; [wf_paths] states the unique
    indexes and foreign keys of [vault_files] and [file_paths]. *)
From S2P Require Import Prelude Sql PyString VaultPaths Schema ProtectionStates DirectoryAggregates JobScheduler JobClaims DirtyMarks CloudDeletion OperationPolicies Catalog.

(** ** Python dicts that keep insertion order *)

(** [list(dict.fromkeys(l))]: the first occurrence of each key. *)
Definition dict_fromkeys (l : list string) : list string :=
  foldl (fun ks k => if k ∈b ks then ks else ks ++ [k]) [] l.

(** [d[k] = v]: an existing key keeps its position. *)
Fixpoint dict_set {V} (k : string) (v : V) (d : list (string * V)) : list (string * V) :=
  match d with
  | [] => [(k, v)]
  | (k', v') :: d => if k' =b k then (k, v) :: d else (k', v') :: dict_set k v d
  end.

(** ** Identities *)
Section resolve.
Context (vault_id : Z) (created_at : timestamp) (uuid : string → string).

(** [SELECT fp.path, vf.id ... WHERE vf.vault_id=... AND fp.path IN (...)]. *)
Definition lookup_paths (db : catalog) (paths : list string) : list (string * string) :=
  flat_map (fun f =>
    if vf_vault_id f =b vault_id then
      omap (fun p => if (fp_vault_file_id p =b vf_id f) && is_none (fp_valid_to p) && (fp_path p ∈b paths)
                     then Some (fp_path p, vf_id f) else None) (t_paths db)
    else []) (t_files db).

Definition remember_rows (resolved : gmap string string) (rows : list (string * string)) : gmap string string :=
  foldl (fun m r => <[r.1 := r.2]> m) resolved rows.

(** The [NOT EXISTS] guard of both INSERT statements. *)
Definition path_is_free (db : catalog) (path : string) : bool :=
  negb (exists_row (fun p => (fp_vault_id p =b vault_id) && (fp_path p =b path) && is_none (fp_valid_to p))
          (t_paths db)).

Definition minted_file (path : string) : vault_file :=
  {| vf_id := uuid path; vf_vault_id := vault_id; vf_status := Active; vf_created_at := created_at;
     vf_retired_at := None |}.

Definition minted_path (path : string) : file_path :=
  {| fp_vault_file_id := uuid path; fp_vault_id := vault_id; fp_path := path;
     fp_valid_from := created_at; fp_valid_to := None |}.

Definition insert_minted_files (paths : list string) (db : catalog) : catalog :=
  set_files (t_files db ++ map minted_file (List.filter (path_is_free db) paths)) db.

Definition insert_minted_paths (paths : list string) (db : catalog) : catalog :=
  set_paths (t_paths db ++ map minted_path (List.filter (path_is_free db) paths)) db.

Definition resolve_chunk (st : catalog * gmap string string) (chunk : list string)
  : catalog * gmap string string :=
  let '(db, resolved) := st in
  let resolved := remember_rows resolved (lookup_paths db chunk) in
  let new_paths := List.filter (fun p => is_none (resolved !! p)) chunk in
  if bool_decide (new_paths = []) then (db, resolved)
  else
    let db := insert_minted_paths new_paths (insert_minted_files new_paths db) in
    (db, remember_rows resolved (lookup_paths db new_paths)).

(** [{path: resolved[path] for path in paths}]. *)
Definition resolve_or_create_files (db : catalog) (paths : list string)
  : result (catalog * list (string * string)) :=
  let unique_paths := dict_fromkeys paths in
  let '(db', resolved) := foldl resolve_chunk (db, ∅) (chunks 200 unique_paths) in
  ids ← mapM_r (fun p => match resolved !! p with Some i => Ok (p, i) | None => Raise (KeyError p) end) unique_paths;
  Ok (db', ids).
End resolve.

(** ** The batch *)
Record entry := {
  en_path : string;
  en_file_type : file_type;
  en_size : option Z;
  en_mtime_ns : option Z;
  en_observed_at : timestamp;
}.

Definition last_by_path (entries : list entry) : list (string * entry) :=
  foldl (fun d e => dict_set (en_path e) e d) [] entries.

(** A row of the derived table [s]. *)
Record batch_row := {
  br_vault_file_id : string;
  br_presence : presence;
  br_file_type : file_type;
  br_size : option Z;
  br_mtime_ns : option Z;
  br_last_seen_at : timestamp;
  br_observed_at : timestamp;
}.

Definition batch_row_of (seen_at : option timestamp) (file_id : string) (e : entry) : batch_row :=
  {| br_vault_file_id := file_id; br_presence := if en_file_type e =b Regular then Present else Unsupported;
     br_file_type := en_file_type e; br_size := en_size e; br_mtime_ns := en_mtime_ns e;
     br_last_seen_at := or_default seen_at (en_observed_at e); br_observed_at := en_observed_at e |}.

(** [(a = b OR (a IS NULL AND b IS NULL))]. *)
Definition same_or_null (a b : option Z) : bool :=
  holds (tv_or (sql_eq a b) (tv_and (sql_is_null a) (sql_is_null b))).

(** The assignments of [UPDATE local_copies]. *)
Definition batch_update (db : catalog) (s : batch_row) (c : local_copy) : local_copy :=
  let unchanged := (lc_file_type c =b br_file_type s) && same_or_null (lc_size c) (br_size s)
                   && same_or_null (lc_mtime_ns c) (br_mtime_ns s) in
  {| lc_vault_file_id := lc_vault_file_id c;
     lc_presence := br_presence s; lc_file_type := br_file_type s; lc_size := br_size s;
     lc_mtime_ns := br_mtime_ns s;
     lc_plaintext_sha256 := if unchanged then lc_plaintext_sha256 c else None;
     lc_matched_archive_version_id := if unchanged then lc_matched_archive_version_id c else None;
     lc_cloud_only_version_id :=
       if (lc_presence c <>b Present) && (br_presence s =b Present)
       then av_id <$> only_cloud_copy db (lc_vault_file_id c) else lc_cloud_only_version_id c;
     lc_last_seen_at := Some (br_last_seen_at s); lc_observed_at := br_observed_at s;
     lc_content_observed_at :=
       if bool_decide ((lc_presence c, lc_file_type c, lc_size c, lc_mtime_ns c)
                       ≠ (br_presence s, br_file_type s, br_size s, br_mtime_ns s))
       then Some (br_observed_at s)
       else Some (coalesce (lc_content_observed_at c) (lc_observed_at c));
     lc_recovered_at := lc_recovered_at c |}.

(** [INSERT INTO local_copies ... SELECT ... FROM s]. *)
Definition batch_insert (db : catalog) (s : batch_row) : local_copy :=
  {| lc_vault_file_id := br_vault_file_id s; lc_presence := br_presence s; lc_file_type := br_file_type s;
     lc_size := br_size s; lc_mtime_ns := br_mtime_ns s; lc_plaintext_sha256 := None;
     lc_matched_archive_version_id := None;
     lc_cloud_only_version_id :=
       if br_presence s =b Present then av_id <$> only_cloud_copy db (br_vault_file_id s) else None;
     lc_last_seen_at := Some (br_last_seen_at s); lc_observed_at := br_observed_at s;
     lc_content_observed_at := Some (br_observed_at s); lc_recovered_at := None |}.

Definition row_of (s : list batch_row) (file_id : string) : option batch_row :=
  fetchone (fun r => br_vault_file_id r =b file_id) s.

Definition batch_upsert (db : catalog) (s : list batch_row) (copies : list local_copy) : list local_copy :=
  let updated := map (fun c => match row_of s (lc_vault_file_id c) with
                               | Some r => batch_update db r c
                               | None => c
                               end) copies in
  updated ++ map (batch_insert db)
    (List.filter (fun r => negb (exists_row (fun c => lc_vault_file_id c =b br_vault_file_id r) updated)) s).

Definition observe_local_copies_batch (uuid : string → string) (db : catalog) (vault_id : Z)
    (entries : list entry) (seen_at : option timestamp) : result (catalog * list (string * string)) :=
  match map snd (last_by_path entries) with
  | [] => Ok (db, [])
  | (first :: _) as ordered_entries =>
      let paths := map en_path ordered_entries in
      let observed_at := en_observed_at first in
      r ← resolve_or_create_files vault_id observed_at uuid db paths;
      let '(db1, file_ids) := r in
      rows ← mapM_r (fun e => match (list_to_map file_ids : gmap string string) !! en_path e with
                              | Some i => Ok (batch_row_of seen_at i e)
                              | None => Raise (KeyError (en_path e))
                              end) ordered_entries;
      let db2 := set_copies (batch_upsert db1 rows (t_copies db1)) db1 in
      db3 ← cancel_reappeared_deletions db2 vault_id (map snd file_ids) observed_at;
      Ok (mark_paths_dirty vault_id (map Some paths) db3, file_ids)
  end.

(** The reference: one [observe_local_copy] per entry. *)
Definition observe_each (uuid : string → string) (db : catalog) (vault_id : Z) (entries : list entry)
    (seen_at : option timestamp) : result catalog :=
  foldM_r (fun db e => r ← observe_local_copy db vault_id (en_path e) (en_file_type e) (en_size e)
                             (en_mtime_ns e) (en_observed_at e) seen_at None (uuid (en_path e));
                       Ok r.1) db entries.

(** ** Well-formed identities: the constraints of migration 0002 *)
Definition is_current (p : file_path) : bool := is_none (fp_valid_to p).

Record wf_paths (db : catalog) : Prop := {
  wf_file_ids : NoDup (map vf_id (t_files db));
  wf_current_path : NoDup (map (fun p => (fp_vault_id p, fp_path p)) (List.filter is_current (t_paths db)));
  wf_current_file : NoDup (map fp_vault_file_id (List.filter is_current (t_paths db)));
  wf_owner : ∀ p, p ∈ t_paths db → ∃ f, f ∈ t_files db ∧ vf_id f = fp_vault_file_id p ∧ vf_vault_id f = fp_vault_id p;
}.

(** [owns db v path f]: [f] is the file the joins return for the path. *)
Definition owns (db : catalog) (v : Z) (path : string) (f : vault_file) : Prop :=
  f ∈ t_files db ∧ vf_vault_id f = v
  ∧ ∃ p, p ∈ t_paths db ∧ fp_vault_file_id p = vf_id f ∧ fp_vault_id p = v ∧ fp_path p = path
      ∧ fp_valid_to p = None.

Lemma elem_of_current p db : p ∈ List.filter is_current (t_paths db) ↔ p ∈ t_paths db ∧ fp_valid_to p = None.
Proof. rewrite list_elem_of_In, filter_In, <- list_elem_of_In. unfold is_current. by rewrite is_none_true. Qed.

Lemma owns_unique db v path f g : wf_paths db → owns db v path f → owns db v path g → f = g.
Proof.
  intros Hwf (Hf & Hfv & p & Hp & Hpf & Hpv & Hpp & Hpc) (Hg & Hgv & q & Hq & Hqf & Hqv & Hqp & Hqc).
  assert (p = q) as <-.
  { eapply (NoDup_key_inj _ _ p q (wf_current_path _ Hwf)); [by apply elem_of_current..|]. congruence. }
  apply (NoDup_key_inj vf_id _ _ _ (wf_file_ids _ Hwf)); congruence.
Qed.

Lemma current_file_owns db v path f : current_file db v path = Some f → owns db v path f.
Proof.
  intros [Hf Hp]%fetchone_some. bsimpl. apply exists_row_true in Hp as (p & Hp & Hq). bsimpl.
  split; [done|]. split; [done|]. exists p. rewrite is_none_true in *. repeat split; congruence.
Qed.

Lemma owns_current_file db v path f : wf_paths db → owns db v path f → current_file db v path = Some f.
Proof.
  intros Hwf Ho. destruct (current_file db v path) as [g|] eqn:E.
  - f_equal. symmetry. eapply owns_unique; eauto using current_file_owns.
  - exfalso. unfold current_file in E. rewrite fetchone_none in E.
    destruct Ho as (Hf & Hv & p & Hp & Hpf & Hpv & Hpp & Hpc). specialize (E f Hf).
    apply andb_false_iff in E as [E|E]; [by rewrite bool_decide_eq_true_2 in E|].
    rewrite exists_row_false in E. specialize (E p Hp). rewrite Hpc in E. cbn in E.
    by rewrite !bool_decide_eq_true_2 in E by congruence.
Qed.

(** [current_id]: the identity of a path, if it has one. *)
Definition current_id (db : catalog) (v : Z) (path : string) : option string :=
  vf_id <$> current_file db v path.

Lemma current_id_some db v path i : wf_paths db →
  current_id db v path = Some i ↔ ∃ f, owns db v path f ∧ vf_id f = i.
Proof.
  intros Hwf. unfold current_id. rewrite fmap_Some. split.
  - intros (f & Hf & ->). eauto using current_file_owns.
  - intros (f & Hf & <-). eauto using owns_current_file.
Qed.

Lemma current_id_none db v path : wf_paths db →
  current_id db v path = None ↔ path_is_free v db path = true.
Proof.
  intros Hwf. unfold path_is_free. rewrite negb_true_iff, exists_row_false. split.
  - intros Hn p Hp. destruct (_ && _) eqn:E; [|done]. bsimpl. rewrite is_none_true in *.
    destruct (wf_owner _ Hwf p Hp) as (f & Hf & Hi & Hv).
    assert (current_id db v path = Some (vf_id f)); [|congruence].
    apply current_id_some; [done|]. exists f. split; [|done]. split; [done|]. split; [congruence|].
    exists p. repeat split; congruence.
  - intros Hfree. destruct (current_id db v path) as [i|] eqn:E; [|done].
    apply current_id_some in E as (f & (Hf & Hv & p & Hp & Hpf & Hpv & Hpp & Hpc) & _); [|done].
    specialize (Hfree p Hp). rewrite Hpc in Hfree. cbn in Hfree.
    by rewrite !bool_decide_eq_true_2 in Hfree by congruence.
Qed.

Lemma elem_of_lookup_paths db v paths path i : wf_paths db →
  (path, i) ∈ lookup_paths v db paths ↔ path ∈ paths ∧ current_id db v path = Some i.
Proof.
  intros Hwf. unfold lookup_paths. rewrite list_elem_of_In, in_flat_map. rewrite current_id_some by done. split.
  - intros (f & Hf & Hin). apply list_elem_of_In in Hf. destruct (vf_vault_id f =b v) eqn:Ev; [|done].
    apply list_elem_of_In, list_elem_of_omap in Hin as (p & Hp & Hc).
    destruct (_ && _) eqn:E; [|done]. injection Hc as <- <-. bsimpl. rewrite is_none_true in *.
    split; [done|]. exists f. split; [|done]. split; [done|]. split; [done|]. exists p.
    destruct (wf_owner _ Hwf p Hp) as (g & Hg & Hi & Hgv).
    assert (g = f) as -> by (apply (NoDup_key_inj vf_id _ _ _ (wf_file_ids _ Hwf)); congruence).
    repeat split; congruence.
  - intros (Hin & f & (Hf & Hv & p & Hp & Hpf & Hpv & Hpp & Hpc) & <-). exists f.
    split; [by apply list_elem_of_In|]. rewrite bool_decide_eq_true_2 by done.
    apply list_elem_of_In, list_elem_of_omap. exists p. split; [done|].
    rewrite Hpc. cbn. rewrite !bool_decide_eq_true_2 by congruence. cbn. congruence.
Qed.

(** ** Minting *)
Section minting.
Context (v : Z) (at_ : timestamp) (uuid : string → string) `{!Inj (=) (=) uuid}.
Implicit Types (db : catalog) (ps : list string).

Definition create_all (ps : list string) (db : catalog) : catalog :=
  set_paths (t_paths db ++ map (minted_path v at_ uuid) ps)
    (set_files (t_files db ++ map (minted_file v at_ uuid) ps) db).

(** No minted identity is taken yet. *)
Definition fresh_for (db : catalog) (ps : list string) : Prop :=
  ∀ p, p ∈ ps → uuid p ∉ map vf_id (t_files db).

Lemma create_nil db : create_all [] db = db.
Proof. unfold create_all. cbn. rewrite !app_nil_r. by destruct db. Qed.

Lemma create_cons p ps db : create_all (p :: ps) db = create_all ps (create_all [p] db).
Proof. unfold create_all. destruct db. cbn. by rewrite <- !app_assoc. Qed.

Lemma goc_create db p :
  (get_or_create_file db v p at_ (uuid p)).1 = match current_id db v p with Some _ => db | None => create_all [p] db end.
Proof. unfold get_or_create_file, current_id. by destruct (current_file db v p). Qed.

Lemma NoDup_snoc_map {A K} (k : A → K) l x : NoDup (map k l) → k x ∉ map k l → NoDup (map k (l ++ [x])).
Proof.
  intros Hl Hx. rewrite map_app. cbn. apply NoDup_app. split; [done|].
  split; [|apply NoDup_singleton]. by intros y Hy ->%list_elem_of_singleton.
Qed.

Lemma create_one_wf db p :
  wf_paths db → current_id db v p = None → fresh_for db [p] → wf_paths (create_all [p] db).
Proof.
  intros Hwf Hn Hfr. assert (Hu : uuid p ∉ map vf_id (t_files db)) by (apply Hfr; left).
  assert (Hcur : List.filter is_current (t_paths db ++ [minted_path v at_ uuid p])
                 = List.filter is_current (t_paths db) ++ [minted_path v at_ uuid p]) by (by rewrite List.filter_app).
  constructor; cbn [create_all set_paths set_files t_files t_paths map]; rewrite ?Hcur.
  - apply NoDup_snoc_map; [apply Hwf|done].
  - apply NoDup_snoc_map; [apply Hwf|]. cbn. intros Hin.
    apply list_elem_of_In, in_map_iff in Hin as (q & [= Hq1 Hq2] & Hq).
    apply list_elem_of_In, elem_of_current in Hq as [Hq Hc].
    apply current_id_none in Hn; [|done]. unfold path_is_free in Hn.
    rewrite negb_true_iff, exists_row_false in Hn. specialize (Hn q Hq). rewrite Hc in Hn. cbn in Hn.
    by rewrite !bool_decide_eq_true_2 in Hn.
  - apply NoDup_snoc_map; [apply Hwf|]. cbn. intros Hin. apply Hu.
    apply list_elem_of_In, in_map_iff in Hin as (q & Hq1 & Hq).
    apply list_elem_of_In, elem_of_current in Hq as [Hq Hc]. destruct (wf_owner _ Hwf q Hq) as (f & Hf & Hi & _).
    rewrite <- Hq1, <- Hi. apply list_elem_of_In, in_map. by apply list_elem_of_In.
  - intros q [Hq| ->%list_elem_of_singleton]%elem_of_app.
    + destruct (wf_owner _ Hwf q Hq) as (f & Hf & ?). exists f. split; [apply elem_of_app; by left|done].
    + exists (minted_file v at_ uuid p). split; [apply elem_of_app; right; by left|done].
Qed.

Lemma create_one_current db p q :
  wf_paths db → current_id db v p = None → fresh_for db [p] →
  current_id (create_all [p] db) v q = if q =b p then Some (uuid p) else current_id db v q.
Proof.
  intros Hwf Hn Hfr. assert (Hwf' := create_one_wf _ _ Hwf Hn Hfr).
  assert (Hu : uuid p ∉ map vf_id (t_files db)) by (apply Hfr; left).
  assert (Hold : ∀ f, f ∈ t_files db → vf_id f ≠ uuid p).
  { intros f Hf E. apply Hu. rewrite <- E. apply list_elem_of_In, in_map. by apply list_elem_of_In. }
  destruct (decide (q = p)) as [->|Hqp].
  - rewrite bool_decide_eq_true_2 by done. apply current_id_some; [done|]. exists (minted_file v at_ uuid p).
    split; [|done]. split; [apply elem_of_app; right; by left|]. split; [done|].
    exists (minted_path v at_ uuid p). split; [apply elem_of_app; right; by left|done].
  - rewrite bool_decide_eq_false_2 by done. apply option_eq. intros i. rewrite !current_id_some by done.
    split; intros (f & (Hf & Hv & r & Hr & Hrf & Hrv & Hrp & Hrc) & <-).
    + cbn in Hf, Hr. apply elem_of_app in Hr as [Hr| ->%list_elem_of_singleton]; [|by cbn in Hrp].
      apply elem_of_app in Hf as [Hf| ->%list_elem_of_singleton].
      * exists f. split; [|done]. split; [done|]. split; [done|]. by exists r.
      * exfalso. destruct (wf_owner _ Hwf r Hr) as (g & Hg & Hi & _). apply (Hold g Hg). by rewrite Hi, Hrf.
    + exists f. split; [|done]. split; [apply elem_of_app; by left|]. split; [done|]. exists r.
      split; [apply elem_of_app; by left|done].
Qed.

(** The serialized minting of a list of paths. *)
Definition goc_all (db : catalog) (ps : list string) : catalog :=
  foldl (fun db p => (get_or_create_file db v p at_ (uuid p)).1) db ps.

Lemma goc_all_app db ps qs : goc_all db (ps ++ qs) = goc_all (goc_all db ps) qs.
Proof. apply foldl_app. Qed.

Definition unknown (db : catalog) (ps : list string) : list string :=
  List.filter (fun p => is_none (current_id db v p)) ps.

Lemma goc_one db p :
  wf_paths db → fresh_for db [p] →
  let db' := (get_or_create_file db v p at_ (uuid p)).1 in
  wf_paths db'
  ∧ (∀ q, current_id db' v q = if q =b p then Some (or_default (current_id db v p) (uuid p)) else current_id db v q)
  ∧ ∀ q, q ≠ p → fresh_for db [q] → fresh_for db' [q].
Proof.
  intros Hwf Hfr. rewrite goc_create. destruct (current_id db v p) as [i|] eqn:E; cbn.
  - split; [done|]. split; [|done]. intros q. case_bool_decide; congruence.
  - split; [by apply create_one_wf|]. split; [intros q; by apply create_one_current|].
    intros q Hq Hf r ->%list_elem_of_singleton. cbn. rewrite map_app, elem_of_app. intros [H|H].
    + by apply (Hf q); [left|].
    + cbn in H. apply list_elem_of_singleton in H. apply Hq. by apply (inj uuid).
Qed.

Lemma fresh_for_forall db ps : fresh_for db ps ↔ ∀ p, p ∈ ps → fresh_for db [p].
Proof. unfold fresh_for. setoid_rewrite list_elem_of_singleton. naive_solver. Qed.

Lemma goc_all_spec db ps :
  wf_paths db → NoDup ps → fresh_for db ps →
  goc_all db ps = create_all (unknown db ps) db
  ∧ wf_paths (goc_all db ps)
  ∧ (∀ q, current_id (goc_all db ps) v q
          = if q ∈b ps then Some (or_default (current_id db v q) (uuid q)) else current_id db v q)
  ∧ ∀ q, q ∉ ps → fresh_for db [q] → fresh_for (goc_all db ps) [q].
Proof.
  revert db; induction ps as [|p ps IH]; intros db Hwf Hnd Hfr.
  - cbn. rewrite create_nil. split; [done|]. split; [done|]. split; [|done]. done.
  - apply NoDup_cons in Hnd as [Hp Hnd]. rewrite fresh_for_forall in Hfr.
    assert (Hfp : fresh_for db [p]) by (apply Hfr; left).
    destruct (goc_one db p Hwf Hfp) as (Hwf1 & Hc1 & Hf1). cbn [goc_all foldl].
    set (db1 := (get_or_create_file db v p at_ (uuid p)).1) in *.
    assert (Hfr1 : fresh_for db1 ps).
    { apply fresh_for_forall. intros q Hq. apply Hf1; [by intros ->|]. apply Hfr. by right. }
    destruct (IH db1 Hwf1 Hnd Hfr1) as (Hg & Hwf2 & Hc2 & Hf2). fold (goc_all db1 ps).
    split; [|split; [done|split]].
    + rewrite Hg. unfold unknown. cbn [List.filter].
      assert (Hsame : List.filter (fun q => is_none (current_id db1 v q)) ps = unknown db ps).
      { apply filter_ext_in. intros q Hq. rewrite Hc1, bool_decide_eq_false_2; [done|].
        intros ->. apply Hp. by apply list_elem_of_In. }
      rewrite Hsame. unfold db1. rewrite goc_create. destruct (current_id db v p) eqn:E; cbn [is_none]; [done|].
      symmetry. apply create_cons.
    + intros q. rewrite Hc2, Hc1. destruct (decide (q = p)) as [->|Hqp].
      * rewrite (bool_decide_eq_false_2 (p ∈ ps)) by done. by rewrite !bool_decide_eq_true_2 by (by try left).
      * rewrite (bool_decide_eq_false_2 (q = p)) by done.
        replace (q ∈b p :: ps) with (q ∈b ps); [done|]. apply bool_decide_ext. set_solver.
    + intros q Hq Hfq. apply Hf2; [set_solver|]. apply Hf1; [set_solver|done].
Qed.
End minting.

(** ** Resolution in chunks *)
Lemma concat_chunks {A} (n : nat) (l : list A) : n ≠ O → concat (chunks n l) = l.
Proof.
  intros Hn. unfold chunks. remember (length l) as fuel eqn:E. assert (Hle : (length l ≤ fuel)%nat) by lia. clear E.
  revert l Hle; induction fuel as [|fuel IH]; intros l Hle; [by destruct l; [|cbn in Hle; lia]|].
  destruct l as [|x l]; [done|]. cbn [chunks_fuel concat]. rewrite IH; [apply take_drop|].
  rewrite length_drop. cbn in *. lia.
Qed.

Lemma foldl_fromkeys (l acc : list string) :
  NoDup (acc ++ l) → foldl (fun ks k => if k ∈b ks then ks else ks ++ [k]) acc l = acc ++ l.
Proof.
  revert acc; induction l as [|k l IH]; intros acc Hnd; cbn; [by rewrite app_nil_r|].
  rewrite bool_decide_eq_false_2.
  - rewrite IH; [by rewrite <- app_assoc|by rewrite <- app_assoc].
  - apply NoDup_app in Hnd as (_ & Hd & _). intros Hk. by apply (Hd k Hk); left.
Qed.

Lemma dict_fromkeys_NoDup l : NoDup l → dict_fromkeys l = l.
Proof. intros Hnd. unfold dict_fromkeys. by rewrite foldl_fromkeys. Qed.

Section resolution.
Context (v : Z) (at_ : timestamp) (uuid : string → string) `{!Inj (=) (=) uuid}.

(** The dict only holds current identities. *)
Definition sound_for (db : catalog) (m : gmap string string) : Prop :=
  ∀ p i, m !! p = Some i → current_id db v p = Some i.

Lemma remember_sound db m rows :
  sound_for db m → (∀ p i, (p, i) ∈ rows → current_id db v p = Some i) →
  sound_for db (remember_rows m rows).
Proof.
  unfold remember_rows. revert m; induction rows as [|[q j] rows IH]; intros m Hm Hrows; [done|]. cbn.
  apply IH; [|intros p i Hin; apply Hrows; by right].
  intros p i. destruct (decide (q = p)) as [->|Hne].
  - rewrite lookup_insert. destruct (decide (p = p)); [|done]. intros [= <-]. apply Hrows. left.
  - rewrite lookup_insert_ne by done. apply Hm.
Qed.

Lemma remember_dom m rows p :
  is_Some (m !! p) ∨ p ∈ map fst rows → is_Some (remember_rows m rows !! p).
Proof.
  unfold remember_rows. revert m; induction rows as [|[q j] rows IH]; intros m H; cbn.
  - destruct H as [|H]; [done|by apply not_elem_of_nil in H].
  - apply IH. destruct (decide (q = p)) as [->|Hne].
    + left. rewrite lookup_insert. destruct (decide (p = p)); [eauto|done].
    + rewrite lookup_insert_ne by done. destruct H as [|H]; [by left|]. right. cbn in H. set_solver.
Qed.

Lemma lookup_paths_dom db ps p i : wf_paths db →
  p ∈ ps → current_id db v p = Some i → p ∈ map fst (lookup_paths v db ps).
Proof.
  intros Hwf Hp Hi. apply list_elem_of_In, in_map_iff. exists (p, i). split; [done|].
  apply list_elem_of_In. by apply elem_of_lookup_paths.
Qed.

Lemma filter_all {A} (f : A → bool) l : (∀ x, x ∈ l → f x = true) → List.filter f l = l.
Proof.
  induction l as [|x l IH]; intros H; [done|]. cbn. rewrite (H x) by left. f_equal. apply IH.
  intros y Hy. apply H. by right.
Qed.

Lemma resolve_chunk_spec db m chunk :
  wf_paths db → NoDup chunk → fresh_for uuid db chunk → sound_for db m →
  ∃ m', resolve_chunk v at_ uuid (db, m) chunk = (goc_all v at_ uuid db chunk, m')
    ∧ sound_for (goc_all v at_ uuid db chunk) m'
    ∧ ∀ p, is_Some (m !! p) ∨ p ∈ chunk → is_Some (m' !! p).
Proof using All.
  intros Hwf Hnd Hfr Hm. destruct (goc_all_spec v at_ uuid db chunk Hwf Hnd Hfr) as (Hg & Hwf' & Hc & _).
  set (m1 := remember_rows m (lookup_paths v db chunk)).
  assert (Hm1 : sound_for db m1).
  { apply remember_sound; [done|]. intros p i Hin. by apply elem_of_lookup_paths in Hin as [_ ?]. }
  assert (Hnew : List.filter (fun p => is_none (m1 !! p)) chunk = unknown v db chunk).
  { apply filter_ext_in. intros p Hp%list_elem_of_In. destruct (current_id db v p) as [i|] eqn:E.
    - destruct (remember_dom m (lookup_paths v db chunk) p) as [j Hj]; [right; by eapply lookup_paths_dom|].
      fold m1 in Hj. by rewrite Hj.
    - destruct (m1 !! p) as [i|] eqn:E1; [|done]. apply Hm1 in E1. congruence. }
  assert (Hsound : sound_for (goc_all v at_ uuid db chunk) m1).
  { intros p i Hp%Hm1. rewrite Hc, Hp. by case_bool_decide. }
  assert (Hfree : List.filter (path_is_free v db) (unknown v db chunk) = unknown v db chunk).
  { apply filter_all. intros p Hp. apply list_elem_of_In, filter_In in Hp as [_ Hp].
    apply current_id_none; [done|]. by apply is_none_true. }
  assert (Hins : insert_minted_paths v at_ uuid (unknown v db chunk) (insert_minted_files v at_ uuid (unknown v db chunk) db)
                 = goc_all v at_ uuid db chunk).
  { rewrite Hg. unfold insert_minted_paths, insert_minted_files, create_all.
    change (path_is_free v (set_files ?l db)) with (path_is_free v db). by rewrite Hfree. }
  unfold resolve_chunk. fold m1. rewrite Hnew. case_bool_decide as En.
  - exists m1. rewrite Hg, En, create_nil. split; [done|]. split; [exact Hm1|]. intros p [Hp|Hp].
    + apply remember_dom. by left.
    + destruct (current_id db v p) as [i|] eqn:E; [apply remember_dom; right; by eapply lookup_paths_dom|].
      exfalso. apply (not_elem_of_nil p). rewrite <- En. apply list_elem_of_In, filter_In.
      rewrite <- list_elem_of_In, is_none_true. done.
  - rewrite Hins. eexists. split; [done|]. split.
    + apply remember_sound; [done|]. intros p i Hin. by apply elem_of_lookup_paths in Hin as [_ ?].
    + intros p [Hp|Hp]; [apply remember_dom; left; apply remember_dom; by left|].
      destruct (current_id db v p) as [i|] eqn:E.
      * apply remember_dom. left. apply remember_dom. right. by eapply lookup_paths_dom.
      * apply remember_dom. right. eapply (lookup_paths_dom _ _ p (uuid p)); [done| |].
        -- apply list_elem_of_In, filter_In. rewrite <- list_elem_of_In, is_none_true. done.
        -- rewrite Hc, E. by rewrite bool_decide_eq_true_2.
Qed.

Lemma resolve_chunks_spec db m cs :
  wf_paths db → NoDup (concat cs) → fresh_for uuid db (concat cs) → sound_for db m →
  ∃ m', foldl (resolve_chunk v at_ uuid) (db, m) cs = (goc_all v at_ uuid db (concat cs), m')
    ∧ sound_for (goc_all v at_ uuid db (concat cs)) m'
    ∧ ∀ p, is_Some (m !! p) ∨ p ∈ concat cs → is_Some (m' !! p).
Proof using All.
  revert db m; induction cs as [|c cs IH]; intros db m Hwf Hnd Hfr Hm; cbn [concat foldl].
  - exists m. split; [done|]. split; [done|]. intros p [?|?%not_elem_of_nil]; done.
  - cbn [concat] in Hnd. apply NoDup_app in Hnd as (Hnd1 & Hdis & Hnd2).
    rewrite fresh_for_forall in Hfr. cbn [concat] in Hfr. setoid_rewrite elem_of_app in Hfr.
    assert (Hf1 : fresh_for uuid db c) by (apply fresh_for_forall; auto).
    destruct (goc_all_spec v at_ uuid db c Hwf Hnd1 Hf1) as (_ & Hwf1 & _ & Hf).
    destruct (resolve_chunk_spec db m c Hwf Hnd1 Hf1 Hm) as (m1 & -> & Hs1 & Hd1).
    destruct (IH (goc_all v at_ uuid db c) m1 Hwf1 Hnd2) as (m2 & -> & Hs2 & Hd2); [|done|].
    + apply fresh_for_forall. intros p Hp. apply Hf; [|auto]. intros Hin. by apply (Hdis p).
    + exists m2. rewrite goc_all_app. split; [done|]. split; [done|]. intros p Hp. apply Hd2.
      rewrite elem_of_app in Hp. destruct Hp as [?|[?|?]]; auto.
Qed.

(** [_resolve_or_create_files] is the serialized minting. *)
Lemma resolve_or_create_spec db ps :
  wf_paths db → NoDup ps → fresh_for uuid db ps →
  resolve_or_create_files v at_ uuid db ps
  = Ok (goc_all v at_ uuid db ps, map (fun p => (p, or_default (current_id db v p) (uuid p))) ps).
Proof using All.
  intros Hwf Hnd Hfr. unfold resolve_or_create_files. rewrite dict_fromkeys_NoDup by done.
  assert (Hcc : concat (chunks 200 ps) = ps) by (by apply concat_chunks).
  destruct (resolve_chunks_spec db ∅ (chunks 200 ps) Hwf) as (m & -> & Hs & Hd); rewrite ?Hcc in *; try done.
  destruct (goc_all_spec v at_ uuid db ps Hwf Hnd Hfr) as (_ & _ & Hc & _).
  assert (Hm : mapM_r (fun p => match m !! p with Some i => Ok (p, i) | None => Raise (KeyError p) end) ps
               = Ok (map (fun p => (p, or_default (current_id db v p) (uuid p))) ps)).
  { apply mapM_r_ok. clear Hnd Hfr Hcc. assert (Hall : ∀ p, p ∈ ps → m !! p = Some (or_default (current_id db v p) (uuid p))).
    { intros p Hp. destruct (Hd p (or_intror Hp)) as [i Hi]. rewrite Hi. specialize (Hs p i Hi).
      rewrite Hc, bool_decide_eq_true_2 in Hs by done. congruence. }
    clear -Hall. induction ps as [|p ps IH]; cbn; constructor.
    - by rewrite (Hall p) by left.
    - apply IH. intros q Hq. apply Hall. by right. }
  by rewrite Hm.
Qed.
End resolution.

(** ** The UPDATE and the INSERT against the serialized upserts *)
Lemma same_or_null_eq a b : same_or_null a b = bool_decide (a = b).
Proof.
  unfold same_or_null. destruct a as [x|], b as [y|]; cbn; try done.
  destruct (decide (x = y)) as [->|Hne]; [by rewrite !bool_decide_eq_true_2|].
  rewrite !bool_decide_eq_false_2 by congruence. done.
Qed.

Section upserts.
Context (db : catalog) (seen_at : option timestamp).
Implicit Types (copies : list local_copy) (l : list (string * entry)).

Definition observed_entry (x : string * entry) : local_copy :=
  observed_row db x.1 (en_file_type x.2) (en_size x.2) (en_mtime_ns x.2) (en_observed_at x.2) seen_at None.

Definition row_of_entry (x : string * entry) : batch_row := batch_row_of seen_at x.1 x.2.

Lemma batch_insert_observed x : batch_insert db (row_of_entry x) = observed_entry x.
Proof. unfold batch_insert, observed_entry, observed_row. cbn. by rewrite andb_true_r. Qed.

Lemma batch_update_merge x c :
  lc_vault_file_id c = x.1 → batch_update db (row_of_entry x) c = merge_observation c (observed_entry x).
Proof.
  intros Hid. unfold batch_update, merge_observation, observed_entry, observed_row.
  cbn -[bool_decide]. rewrite !same_or_null_eq, Hid, andb_true_r. f_equal.
  - destruct (en_file_type x.2 =b Regular), (lc_presence c); reflexivity.
  - destruct (decide (lc_presence c = (if en_file_type x.2 =b Regular then Present else Unsupported))) as [Ep|Ep].
    2:{ rewrite (bool_decide_eq_false_2 _ Ep). cbn. rewrite bool_decide_eq_true_2; [done|congruence]. }
    rewrite (bool_decide_eq_true_2 _ Ep). cbn -[bool_decide].
    destruct (decide (lc_file_type c = en_file_type x.2 ∧ lc_size c = en_size x.2 ∧ lc_mtime_ns c = en_mtime_ns x.2))
      as [(E1 & E2 & E3)|E].
    + rewrite (bool_decide_eq_true_2 (lc_file_type c = _)), (bool_decide_eq_true_2 (lc_size c = _)),
        (bool_decide_eq_true_2 (lc_mtime_ns c = _)) by done. cbn -[bool_decide].
      rewrite bool_decide_eq_false_2; [by destruct (lc_content_observed_at c)|]. rewrite Ep, E1, E2, E3. tauto.
    + rewrite bool_decide_eq_true_2 by (intros [= ????]; tauto).
      destruct ((_ =b _) && _ && _) eqn:Eb; [|done]. bsimpl. tauto.
Qed.

Definition update_from (l : list (string * entry)) (c : local_copy) : local_copy :=
  match row_of (map row_of_entry l) (lc_vault_file_id c) with
  | Some r => batch_update db r c
  | None => c
  end.

Lemma update_from_id l c : lc_vault_file_id (update_from l c) = lc_vault_file_id c.
Proof. unfold update_from. by destruct (row_of _ _). Qed.

Lemma row_of_none l i : i ∉ map fst l → row_of (map row_of_entry l) i = None.
Proof.
  intros Hi. apply fetchone_none. intros r Hr. apply list_elem_of_In, in_map_iff in Hr as (x & <- & Hx).
  apply bool_decide_eq_false_2. cbn. intros <-. apply Hi. apply list_elem_of_In. by apply in_map.
Qed.

Lemma find_app {A} (p : A → bool) (l k : list A) : List.find p (l ++ k) = match List.find p l with Some x => Some x | None => List.find p k end.
Proof. induction l as [|x l IH]; [done|]. cbn. by destruct (p x). Qed.

Lemma update_from_snoc l x c :
  x.1 ∉ map fst l →
  update_from (l ++ [x]) c
  = if lc_vault_file_id c =b x.1 then merge_observation c (observed_entry x) else update_from l c.
Proof.
  intros Hx. unfold update_from, row_of, fetchone. rewrite map_app, find_app. cbn [map List.find].
  destruct (decide (lc_vault_file_id c = x.1)) as [E|E].
  - assert (Hn : List.find (fun r => br_vault_file_id r =b lc_vault_file_id c) (map row_of_entry l) = None)
      by (rewrite E; by apply row_of_none).
    rewrite Hn, (bool_decide_eq_true_2 _ E), E. cbn [br_vault_file_id row_of_entry batch_row_of].
    rewrite bool_decide_eq_true_2 by done. by apply batch_update_merge.
  - rewrite (bool_decide_eq_false_2 _ E). cbn [br_vault_file_id row_of_entry batch_row_of].
    rewrite (bool_decide_eq_false_2 (x.1 = _)) by congruence. by destruct (List.find _ _).
Qed.

Definition has_copy (copies : list local_copy) (i : string) : bool :=
  exists_row (fun c => lc_vault_file_id c =b i) copies.

Lemma has_copy_map f copies i :
  (∀ c, lc_vault_file_id (f c) = lc_vault_file_id c) → has_copy (map f copies) i = has_copy copies i.
Proof. intros Hf. unfold has_copy, exists_row. induction copies as [|c copies IH]; [done|]. cbn. by rewrite Hf, IH. Qed.

Lemma has_copy_app a b i : has_copy (a ++ b) i = has_copy a i || has_copy b i.
Proof. apply existsb_app. Qed.

Lemma batch_upsert_eq l copies :
  batch_upsert db (map row_of_entry l) copies
  = map (update_from l) copies
    ++ map observed_entry (List.filter (fun x => negb (has_copy copies x.1)) l).
Proof.
  unfold batch_upsert. f_equal.
  assert (Hf : ∀ k, List.filter (fun r => negb (has_copy (map (update_from l) copies) (br_vault_file_id r))) (map row_of_entry k)
               = map row_of_entry (List.filter (fun x => negb (has_copy copies x.1)) k)).
  { intros k. induction k as [|x k IH]; [done|]. cbn [map List.filter].
    rewrite (has_copy_map (update_from l)) by apply update_from_id.
    cbn [br_vault_file_id row_of_entry batch_row_of]. destruct (has_copy copies x.1); cbn [negb map]; [apply IH|].
    f_equal. apply IH. }
  etrans; [apply (f_equal (map (batch_insert db))), (Hf l)|].
  rewrite map_map. apply map_ext. intros x. apply batch_insert_observed.
Qed.

Lemma upserts_batch l copies :
  NoDup (map fst l) →
  foldl (fun cs x => upsert_copy (observed_entry x) cs) copies l = batch_upsert db (map row_of_entry l) copies.
Proof.
  induction l as [|x l IH] using rev_ind; intros Hnd.
  - rewrite batch_upsert_eq. cbn. rewrite app_nil_r. symmetry. erewrite map_ext; [apply map_id|]. done.
  - rewrite map_app in Hnd. apply NoDup_app in Hnd as (Hnd & Hdis & _).
    assert (Hx : x.1 ∉ map fst l) by (intros Hin; apply (Hdis _ Hin); by left).
    rewrite foldl_app. cbn [foldl]. rewrite IH by done. rewrite !batch_upsert_eq, List.filter_app, map_app.
    set (new := map observed_entry (List.filter _ l)).
    assert (Hnew : ∀ c, c ∈ new → lc_vault_file_id c ≠ x.1).
    { intros c Hc E. apply list_elem_of_In, in_map_iff in Hc as (y & <- & Hy). apply filter_In in Hy as [Hy _].
      apply Hx. rewrite <- E. apply list_elem_of_In. by apply (in_map fst). }
    assert (Hnone : has_copy new x.1 = false).
    { apply exists_row_false. intros c Hc. apply bool_decide_eq_false_2. auto. }
    unfold upsert_copy. change (lc_vault_file_id (observed_entry x)) with x.1.
    fold (has_copy (map (update_from l) copies ++ new) x.1).
    rewrite has_copy_app, has_copy_map, Hnone, orb_false_r by apply update_from_id.
    cbn [List.filter]. destruct (has_copy copies x.1) eqn:Eh; cbn [negb map].
    + rewrite app_nil_r. unfold update_where. rewrite map_app. f_equal.
      * rewrite map_map. apply map_ext. intros c. rewrite update_from_snoc, update_from_id by done.
        case_bool_decide as E; [|done]. f_equal. unfold update_from. by rewrite E, row_of_none.
      * clear -Hnew. induction new as [|c new IH]; [done|]. cbn.
        rewrite bool_decide_eq_false_2 by (apply Hnew; left). f_equal. apply IH. intros d Hd. apply Hnew. by right.
    + rewrite <- app_assoc. f_equal. apply map_ext_in. intros c Hc%list_elem_of_In.
      rewrite update_from_snoc by done. rewrite bool_decide_eq_false_2; [done|]. intros E.
      unfold has_copy in Eh. rewrite exists_row_false in Eh. specialize (Eh c Hc).
      by rewrite bool_decide_eq_true_2 in Eh.
Qed.
End upserts.

(** ** Cancellation, one group after the other *)
Section cancellation.
Context (v : Z) (at_ : timestamp).
Implicit Types (db : catalog) (gs : list string) (jobs : list job).

Definition CANCELLED_BEFORE_START : string := "Cancelled before deletion started".

Definition in_groups (gs : list string) (j : job) : bool :=
  (j_vault_id j =b v) && (j_action j =b "cloud-purge") && (j_group_id j ∈b map Some gs).

Definition cancel_groups (gs : list string) (jobs : list job) : list job :=
  update_where (in_groups gs) (cancel_job_row CANCELLED_BEFORE_START at_) jobs.

(** The tables cancellation leaves alone. *)
Definition same_archive (a b : catalog) : Prop :=
  t_vaults a = t_vaults b ∧ t_files a = t_files b ∧ t_paths a = t_paths b ∧ t_copies a = t_copies b
  ∧ t_versions a = t_versions b.

Lemma cancel_rows_archive db rows actor reason :
  same_archive (cancel_rows db rows at_ actor reason) db ∧ t_dirty (cancel_rows db rows at_ actor reason) = t_dirty db.
Proof.
  unfold cancel_rows. revert db; induction rows as [|r rows IH]; intros db; [done|]. cbn.
  destruct (IH (cancel_row at_ actor reason db r)) as [H ->]. done.
Qed.

(** What [cancel_cloud_deletion] asks of a group. *)
Definition group_ok (db : catalog) (g : string) : Prop :=
  is_ok (lock_vault db v) = true ∧ (∃ j, j ∈ group_rows db v g)
  ∧ ∀ j, j ∈ group_rows db v g → j_status j = "pending_delay" ∧ truthy (j_claim_token j) = false.

Lemma in_groups_one db g j : j ∈ t_jobs db → in_groups [g] j = true ↔ j ∈ group_rows db v g.
Proof.
  intros Hj. rewrite elem_of_group_rows. unfold in_groups. rewrite !andb_true_iff, !bool_decide_eq_true. cbn.
  rewrite list_elem_of_singleton. tauto.
Qed.

Lemma cancel_one_ok db g : group_ok db g →
  ∃ db' n, cancel_cloud_deletion db v g None at_ = Ok (db', n).
Proof.
  intros (Hl & (j & Hj) & Hall). unfold cancel_cloud_deletion. destruct (lock_vault db v); [|done].
  cbn [mbind result_bind].
  replace (bool_decide (map j_id (group_rows db v g) = [])) with false.
  2:{ symmetry. apply bool_decide_eq_false_2. intros E. destruct (group_rows db v g); [by apply not_elem_of_nil in Hj|done]. }
  replace (existsb _ _) with false; [cbn; eauto|]. symmetry. apply not_true_iff_false. intros E.
  apply existsb_exists in E as (r & Hr & E). apply list_elem_of_In in Hr. destruct (Hall r Hr) as [Hs Ht].
  rewrite Hs, Ht in E. done.
Qed.

Lemma cancel_one_spec db g db' n :
  NoDup (map j_id (t_jobs db)) → cancel_cloud_deletion db v g None at_ = Ok (db', n) →
  group_ok db g ∧ t_jobs db' = cancel_groups [g] (t_jobs db) ∧ same_archive db' db ∧ t_dirty db' = t_dirty db.
Proof.
  intros Hnd. unfold cancel_cloud_deletion. rewrite bind_ok. intros (u & Hl & H).
  apply raise_if_bind_ok in H as [Hg H]. injection H as <- _. apply orb_false_iff in Hg as [Hne Hall].
  split; [|split; [|apply cancel_rows_archive]].
  - split; [by rewrite Hl|]. split.
    + destruct (group_rows db v g) as [|j l] eqn:E; [done|]. exists j. left.
    + intros j Hj. apply not_true_iff_false in Hall. destruct (j_status j <>b "pending_delay") eqn:Es.
      { exfalso. apply Hall, existsb_exists. exists j. rewrite <- list_elem_of_In, Es. done. }
      destruct (truthy (j_claim_token j)) eqn:Et; [|by bsimpl].
      exfalso. apply Hall, existsb_exists. exists j. rewrite <- list_elem_of_In, Et, orb_true_r. done.
  - rewrite cancel_rows_jobs. unfold cancel_groups, update_where. apply map_ext_in. intros j Hj%list_elem_of_In.
    replace (j_id j ∈b map j_id (group_rows db v g)) with (in_groups [g] j); [done|].
    apply eq_true_iff_eq. rewrite (in_groups_one db), bool_decide_eq_true by done.
    split; [intros; by apply list_elem_of_In, in_map, list_elem_of_In|].
    intros (r & Er & Hr%list_elem_of_In)%list_elem_of_In%in_map_iff. assert (Hr' := Hr). apply elem_of_group_rows in Hr as (Hr & _).
    by rewrite <- (NoDup_key_inj j_id _ _ _ Hnd Hr Hj Er).
Qed.

Lemma cancel_groups_ids gs jobs : map j_id (cancel_groups gs jobs) = map j_id jobs.
Proof. apply update_where_column. done. Qed.

Lemma cancel_groups_app gs hs jobs : cancel_groups hs (cancel_groups gs jobs) = cancel_groups (gs ++ hs) jobs.
Proof.
  unfold cancel_groups, update_where. rewrite map_map. apply map_ext. intros j.
  assert (Hs : in_groups (gs ++ hs) j = in_groups gs j || in_groups hs j).
  { unfold in_groups. rewrite map_app. destruct ((j_vault_id j =b v) && (j_action j =b "cloud-purge")); [|done]. cbn.
    apply eq_true_iff_eq. rewrite orb_true_iff, !bool_decide_eq_true. apply elem_of_app. }
  rewrite Hs. destruct (in_groups gs j) eqn:E; cbn [orb]; [|done].
  by destruct (in_groups hs (cancel_job_row CANCELLED_BEFORE_START at_ j)).
Qed.

Lemma cancel_groups_ext gs hs jobs : (∀ g, g ∈ gs ↔ g ∈ hs) → cancel_groups gs jobs = cancel_groups hs jobs.
Proof.
  intros H. unfold cancel_groups, update_where. apply map_ext. intros j. unfold in_groups.
  replace (j_group_id j ∈b map Some hs) with (j_group_id j ∈b map Some gs); [done|].
  apply bool_decide_ext. rewrite !list_elem_of_In, !in_map_iff. setoid_rewrite <- list_elem_of_In. naive_solver.
Qed.

(** Cancelling other groups changes nothing for a group. *)
Lemma group_rows_other db db' gs g j :
  t_jobs db' = cancel_groups gs (t_jobs db) → g ∉ gs → j ∈ group_rows db' v g ↔ j ∈ group_rows db v g.
Proof.
  intros Hj Hg. rewrite !elem_of_group_rows, Hj. unfold cancel_groups. rewrite elem_of_update_where.
  assert (Hno : ∀ r, j_group_id r = Some g → in_groups gs r = false).
  { intros r Hr. unfold in_groups. rewrite Hr. rewrite (bool_decide_eq_false_2 (Some g ∈ _)); [apply andb_false_r|].
    intros Hin. apply list_elem_of_In, in_map_iff in Hin as (h & [= ->] & Hh). by apply Hg, list_elem_of_In. }
  split.
  - intros ((r & Hr & ->) & Hv & Hgr & Ha). destruct (in_groups gs r) eqn:E; [|done].
    cbn in Hgr. by rewrite Hno in E.
  - intros (Hin & Hv & Hgr & Ha). split; [|done]. exists j. by rewrite Hno.
Qed.

Lemma group_ok_other db db' gs g :
  t_jobs db' = cancel_groups gs (t_jobs db) → t_vaults db' = t_vaults db → g ∉ gs →
  group_ok db' g ↔ group_ok db g.
Proof.
  intros Hj Hv Hg. unfold group_ok, lock_vault. rewrite Hv.
  assert (Hr := group_rows_other db db' gs g). split; intros (Hl & (j & Hin) & Hall).
  - split; [done|]. split; [exists j; by apply Hr|]. intros r Hin'. apply Hall, Hr; done.
  - split; [done|]. split; [exists j; by apply Hr|]. intros r Hin'. apply Hall, Hr; done.
Qed.

(** The loop of [_cancel_reappeared_deletions]. *)
Definition cancel_loop (db : catalog) (groups : list (option string)) : result catalog :=
  foldM_r (fun db g => match g with
                       | Some g => r ← cancel_cloud_deletion db v g None at_; Ok r.1
                       | None => Raise (CloudDeletionError "Deletion has started or is no longer cancellable")
                       end) db groups.

Definition all_ok (db : catalog) (groups : list (option string)) : Prop :=
  ∀ o, o ∈ groups → ∃ g, o = Some g ∧ group_ok db g.

Lemma cancel_loop_spec db groups :
  NoDup (map j_id (t_jobs db)) → NoDup groups →
  (all_ok db groups → is_ok (cancel_loop db groups) = true)
  ∧ ∀ db', cancel_loop db groups = Ok db' →
      all_ok db groups ∧ t_jobs db' = cancel_groups (omap id groups) (t_jobs db)
      ∧ same_archive db' db ∧ t_dirty db' = t_dirty db.
Proof.
  revert db; induction groups as [|o groups IH]; intros db Hnd Hng.
  - split; [done|]. intros db' [= <-]. split; [by intros o ?%not_elem_of_nil|]. split; [|done].
    unfold cancel_groups, update_where. cbn. symmetry. erewrite map_ext; [apply map_id|]. intros j. cbn.
    unfold in_groups. cbn. by rewrite andb_false_r.
  - apply NoDup_cons in Hng as [Ho Hng].
    assert (Hrest : ∀ g db1, o = Some g → t_jobs db1 = cancel_groups [g] (t_jobs db) → same_archive db1 db →
      all_ok db1 groups ↔ all_ok db groups).
    { intros g db1 -> Hj (Hv & _). unfold all_ok.
      assert (Heq : ∀ h, Some h ∈ groups → group_ok db1 h ↔ group_ok db h).
      { intros h Hh. eapply group_ok_other; [exact Hj|done|]. intros ->%list_elem_of_singleton. done. }
      split; intros H p Hp; destruct (H p Hp) as (h & -> & Hk); exists h; (split; [done|]); by apply Heq. }
    split.
    + intros Hall. destruct (Hall o) as (g & -> & Hg); [left|].
      destruct (cancel_one_ok db g Hg) as (db1 & n & Hc).
      destruct (cancel_one_spec _ _ _ _ Hnd Hc) as (_ & Hj1 & Hs1 & _). cbn. rewrite Hc. cbn.
      apply IH; [by rewrite Hj1, cancel_groups_ids|done|].
      eapply Hrest; [done|done|done|]. intros p Hp. apply Hall. by right.
    + intros db' H. cbn in H. apply bind_ok in H as (db1 & H1 & H). destruct o as [g|]; [|done].
      apply bind_ok in H1 as ([db2 n] & Hc & [= <-]).
      destruct (cancel_one_spec _ _ _ _ Hnd Hc) as (Hg & Hj1 & Hs1 & Hd1). cbn [fst] in H.
      destruct (IH db2) as [_ IH2]; [by rewrite Hj1, cancel_groups_ids|done|].
      destruct (IH2 _ H) as (Hall & Hj & Hs & Hd). split; [|split; [|split]].
      * intros p [->|Hp]%elem_of_cons; [eauto|]. by apply (Hrest g db2).
      * rewrite Hj, Hj1, cancel_groups_app. done.
      * destruct Hs as (?&?&?&?&?), Hs1 as (?&?&?&?&?). repeat split; congruence.
      * congruence.
Qed.

Lemma elem_of_pending_groups db ids o :
  o ∈ pending_groups db v ids ↔
  ∃ j, j ∈ t_jobs db ∧ j_group_id j = o ∧ ∃ i, i ∈ ids ∧ pending_deletion v i j.
Proof.
  unfold pending_groups, pending_deletion.
  rewrite elem_of_remove_dups, list_elem_of_In, in_map_iff. setoid_rewrite <- list_elem_of_In.
  setoid_rewrite elem_of_select. setoid_rewrite andb_true_iff. setoid_rewrite andb_true_iff. setoid_rewrite andb_true_iff.
  setoid_rewrite bool_decide_eq_true. naive_solver.
Qed.

(** The groups still pending after some were cancelled. *)
Lemma pending_after_cancel db db' gs ids o :
  t_jobs db' = cancel_groups gs (t_jobs db) →
  o ∈ pending_groups db' v ids ↔ o ∈ pending_groups db v ids ∧ o ∉ map Some gs.
Proof.
  intros Hj. rewrite !elem_of_pending_groups, Hj. unfold cancel_groups. setoid_rewrite elem_of_update_where. split.
  - intros (j & (r & Hr & ->) & <- & i & Hi & Hv & Hf & Ha & Hs).
    destruct (in_groups gs r) eqn:E; [by cbn in Hs|]. split; [by exists r; split; [done|]; split; [done|]; exists i|].
    intros Hin. unfold in_groups in E. by rewrite !bool_decide_eq_true_2 in E.
  - intros [(j & Hin & <- & i & Hi & Hv & Hf & Ha & Hs) Hg]. exists j. split; [|by split; [done|]; exists i].
    exists j. split; [done|]. unfold in_groups. rewrite (bool_decide_eq_false_2 _ Hg), andb_false_r. done.
Qed.

Lemma cancel_reappeared_loop db ids :
  cancel_reappeared_deletions db v ids at_ = cancel_loop db (pending_groups db v ids).
Proof.
  unfold cancel_reappeared_deletions. destruct ids as [|i ids]; [|done].
  replace (pending_groups db v []) with ([] : list (option string)); [done|].
  destruct (pending_groups db v []) as [|o l] eqn:E; [done|]. exfalso.
  assert (Ho : o ∈ o :: l) by left. rewrite <- E in Ho.
  apply elem_of_pending_groups in Ho as (_ & _ & _ & i & Hi & _). by apply not_elem_of_nil in Hi.
Qed.
End cancellation.

(** ** The serialized calls, prefix by prefix *)
Definition marked_by (p : string) : list string :=
  if truthy (Some p) then ancestor_directories p else [].

Lemma mark_path_dirty_elem v p db m :
  m ∈ t_dirty (mark_path_dirty v (Some p) db) ↔ m ∈ t_dirty db ∨ ∃ d, d ∈ marked_by p ∧ m = (v, d).
Proof.
  unfold mark_path_dirty, marked_by. destruct (truthy (Some p)); cbn [negb or_default]; [apply elem_of_persist_all|].
  set_solver.
Qed.

Lemma mark_paths_dirty_elem v ps db m :
  m ∈ t_dirty (mark_paths_dirty v (map Some ps) db)
  ↔ m ∈ t_dirty db ∨ ∃ p d, p ∈ ps ∧ d ∈ marked_by p ∧ m = (v, d).
Proof.
  unfold mark_paths_dirty. rewrite elem_of_persist_all. apply or_iff_compat_l.
  setoid_rewrite sort_by_perm. setoid_rewrite elem_of_remove_dups. setoid_rewrite list_elem_of_In.
  setoid_rewrite in_flat_map. split.
  - intros (d & (o & Ho & Hd) & ->). apply in_map_iff in Ho as (p & <- & Hp). exists p, d. done.
  - intros (p & d & Hp & Hd & ->). exists d. split; [|done]. exists (Some p). split; [by apply in_map|done].
Qed.

Section equivalence.
Context (uuid : string → string) `{!Inj (=) (=) uuid} (db : catalog) (v : Z) (at_ : timestamp).
Context (seen_at : option timestamp) (Hwf : wf_paths db) (Hjobs : NoDup (map j_id (t_jobs db))).

Definition id_of (p : string) : string := or_default (current_id db v p) (uuid p).
Definition identified (e : entry) : string * entry := (id_of (en_path e), e).

(** What observing the entries leaves. *)
Record observed_all (es : list entry) (db' : catalog) : Prop := {
  oa_vaults : t_vaults db' = t_vaults db;
  oa_files : t_files db' = t_files (goc_all v at_ uuid db (map en_path es));
  oa_paths : t_paths db' = t_paths (goc_all v at_ uuid db (map en_path es));
  oa_versions : t_versions db' = t_versions db;
  oa_copies : t_copies db' = foldl (fun cs x => upsert_copy (observed_entry db seen_at x) cs) (t_copies db)
                               (map identified es);
  oa_jobs : ∃ gs, (∀ g, g ∈ gs ↔ Some g ∈ pending_groups db v (map (fun e => id_of (en_path e)) es))
              ∧ t_jobs db' = cancel_groups v at_ gs (t_jobs db);
  oa_dirty : ∀ m, m ∈ t_dirty db' ↔ m ∈ t_dirty db ∨ ∃ p d, p ∈ map en_path es ∧ d ∈ marked_by p ∧ m = (v, d);
}.

Definition all_cancellable (es : list entry) : Prop :=
  all_ok v db (pending_groups db v (map (fun e => id_of (en_path e)) es)).

Lemma goc_tables a b p :
  t_files a = t_files b → t_paths a = t_paths b →
  let a' := get_or_create_file a v p at_ (uuid p) in
  let b' := get_or_create_file b v p at_ (uuid p) in
  t_files a'.1 = t_files b'.1 ∧ t_paths a'.1 = t_paths b'.1 ∧ a'.2 = b'.2 ∧ t_dirty a'.1 = t_dirty a.
Proof.
  intros Hf Hp. unfold get_or_create_file, current_file. rewrite Hf, Hp.
  destruct (fetchone _ _); cbn; rewrite ?Hf, ?Hp; done.
Qed.

Lemma goc_id p : (get_or_create_file db v p at_ (uuid p)).2 = id_of p.
Proof. unfold get_or_create_file, id_of, current_id. by destruct (current_file db v p). Qed.

Lemma goc_id_after es e :
  NoDup (map en_path (es ++ [e])) → fresh_for uuid db (map en_path (es ++ [e])) →
  (get_or_create_file (goc_all v at_ uuid db (map en_path es)) v (en_path e) at_ (uuid (en_path e))).2 = id_of (en_path e).
Proof using All.
  rewrite map_app. intros (Hnd & Hdis & _)%NoDup_app Hfr.
  destruct (goc_all_spec v at_ uuid db (map en_path es) Hwf Hnd) as (_ & _ & Hc & _).
  { intros p Hp. apply Hfr, elem_of_app. by left. }
  specialize (Hc (en_path e)). rewrite bool_decide_eq_false_2 in Hc.
  2:{ intros Hin. apply (Hdis _ Hin). by left. }
  unfold id_of. rewrite <- Hc. unfold current_id, get_or_create_file. by destruct (current_file _ _ _).
Qed.

(** One more observation. *)
Lemma observe_step es e db1 :
  NoDup (map en_path (es ++ [e])) → fresh_for uuid db (map en_path (es ++ [e])) → en_observed_at e = at_ →
  observed_all es db1 → all_cancellable es →
  let r := observe_local_copy db1 v (en_path e) (en_file_type e) (en_size e) (en_mtime_ns e) (en_observed_at e)
             seen_at None (uuid (en_path e)) in
  (all_cancellable (es ++ [e]) → is_ok r = true)
  ∧ ∀ db2 i, r = Ok (db2, i) → all_cancellable (es ++ [e]) ∧ observed_all (es ++ [e]) db2.
Proof using All.
  intros Hnd Hfr Hat [Hva Hfi Hpa Hve Hco (gs & Hgs & Hj) Hdi] Hcan. cbv zeta. unfold observe_local_copy. rewrite Hat.
  set (dbg := goc_all v at_ uuid db (map en_path es)) in *. set (p := en_path e).
  destruct (goc_tables db1 dbg p Hfi Hpa) as (Hf1 & Hp1 & Hi1 & Hd1).
  destruct (get_or_create_same db1 v p at_ (uuid p)) as (Hc1 & Hv1 & Hj1 & Hva1).
  assert (Hid := goc_id_after es e Hnd Hfr). fold p dbg in Hid. rewrite Hid in Hi1.
  destruct (get_or_create_file db1 v p at_ (uuid p)) as [dbo i]. cbn [fst snd] in *. subst i.
  set (db2 := set_copies _ dbo).
  assert (Hj2 : t_jobs db2 = cancel_groups v at_ gs (t_jobs db)) by (cbn; congruence).
  assert (Hva2 : t_vaults db2 = t_vaults db) by (cbn; congruence).
  rewrite cancel_reappeared_loop.
  destruct (cancel_loop_spec v at_ db2 (pending_groups db2 v [id_of p])) as [Hok Hspec].
  { by rewrite Hj2, cancel_groups_ids. }
  { apply NoDup_remove_dups. }
  assert (Hpend : ∀ o, o ∈ pending_groups db2 v [id_of p] ↔ o ∈ pending_groups db v [id_of p] ∧ o ∉ map Some gs)
    by (intros o; by eapply pending_after_cancel).
  assert (Hsplit : ∀ o, o ∈ pending_groups db v (map (fun e => id_of (en_path e)) (es ++ [e]))
    ↔ o ∈ pending_groups db v (map (fun e => id_of (en_path e)) es) ∨ o ∈ pending_groups db v [id_of p]).
  { intros o. rewrite !elem_of_pending_groups, map_app. setoid_rewrite elem_of_app. cbn. naive_solver. }
  assert (Hgsmap : ∀ g, Some g ∈ map Some gs ↔ g ∈ gs).
  { intros g. rewrite list_elem_of_In, in_map_iff. setoid_rewrite <- list_elem_of_In. naive_solver. }
  assert (Hall : all_ok v db2 (pending_groups db2 v [id_of p]) ↔ all_cancellable (es ++ [e])).
  { unfold all_cancellable, all_ok. split.
    - intros H o [Ho|Ho]%Hsplit; [by apply Hcan|]. destruct (decide (o ∈ map Some gs)) as [Hg|Hg].
      + apply Hcan. apply list_elem_of_In, in_map_iff in Hg as (g & <- & Hg%list_elem_of_In). by apply Hgs.
      + destruct (H o) as (g & -> & Hk); [by apply Hpend|]. exists g. split; [done|].
        eapply (group_ok_other v at_ db db2 gs); [done..| |done]. by rewrite <- Hgsmap.
    - intros H o [Ho Hg]%Hpend. destruct (H o) as (g & -> & Hk); [apply Hsplit; by right|]. exists g. split; [done|].
      eapply (group_ok_other v at_ db db2 gs); [done..| |done]. by rewrite <- Hgsmap. }
  split.
  - intros H. destruct (cancel_loop _ _ _ _) eqn:E; [done|]. rewrite <- Hall in H. by specialize (Hok H).
  - intros db3 i. rewrite bind_ok. intros (db4 & Hc4 & [= <- _]).
    destruct (Hspec _ Hc4) as (Hok4 & Hj4 & (Hva4 & Hf4 & Hp4 & Hcp4 & Hv4) & Hd4). split; [by apply Hall|].
    assert (Hm := mark_path_same v (Some p) db4).
    constructor; rewrite ?map_app, ?goc_all_app, ?foldl_app.
    + rewrite (same_vaults _ _ Hm). congruence.
    + rewrite (same_files _ _ Hm), Hf4. exact Hf1.
    + rewrite (same_paths _ _ Hm), Hp4. exact Hp1.
    + rewrite (same_versions _ _ Hm), Hv4. cbn. congruence.
    + rewrite (same_copies _ _ Hm), Hcp4. cbn [db2 t_copies set_copies foldl map]. rewrite Hc1, Hco.
      f_equal. unfold observed_entry, observed_row, only_cloud_copy. cbn. by rewrite Hv1, Hve, Hat.
    + exists (gs ++ omap id (pending_groups db2 v [id_of p])). split.
      * intros g. rewrite elem_of_app, list_elem_of_omap. change [en_path e] with (map en_path [e]).
        rewrite <- map_app, Hsplit, Hgs. setoid_rewrite Hpend. cbn. split.
        -- intros [?|(o & [Ho _] & ->)]; auto.
        -- intros [?|Ho]; [by left|]. destruct (decide (g ∈ gs)) as [Hg|Hg]; [left; by apply Hgs|].
           right. exists (Some g). split; [|done]. split; [done|]. by rewrite Hgsmap.
      * rewrite (same_jobs _ _ Hm), Hj4, Hj2. apply cancel_groups_app.
    + intros m. rewrite mark_path_dirty_elem, Hd4. cbn [db2 t_dirty set_copies]. rewrite Hd1, Hdi.
      setoid_rewrite elem_of_app. cbn. fold p. setoid_rewrite list_elem_of_singleton. naive_solver.
Qed.

Lemma observe_each_spec es :
  NoDup (map en_path es) → fresh_for uuid db (map en_path es) → (∀ e, e ∈ es → en_observed_at e = at_) →
  (all_cancellable es → is_ok (observe_each uuid db v es seen_at) = true)
  ∧ ∀ db', observe_each uuid db v es seen_at = Ok db' → all_cancellable es ∧ observed_all es db'.
Proof using All.
  induction es as [|e es IH] using rev_ind; intros Hnd Hfr Hat.
  - split; [done|]. intros db' [= <-]. split; [|constructor; cbn; try done].
    + intros o Ho. apply elem_of_pending_groups in Ho as (_ & _ & _ & i & Hi & _). by apply not_elem_of_nil in Hi.
    + exists []. split.
      * intros g. split; [by intros ?%not_elem_of_nil|].
        intros (_ & _ & _ & i & Hi & _)%elem_of_pending_groups. by apply not_elem_of_nil in Hi.
      * unfold cancel_groups, update_where. symmetry. erewrite map_ext; [apply map_id|]. intros j. cbn.
        unfold in_groups. cbn. by rewrite andb_false_r.
    + set_solver.
  - assert (Hpre : NoDup (map en_path es) ∧ fresh_for uuid db (map en_path es)).
    { rewrite map_app in Hnd, Hfr. apply NoDup_app in Hnd as (Hnd & _ & _). split; [done|].
      intros p Hp. apply Hfr, elem_of_app. by left. }
    destruct Hpre as [Hnd' Hfr']. destruct (IH Hnd' Hfr') as [IHok IHspec]; [intros x Hx; apply Hat, elem_of_app; by left|].
    unfold observe_each in *. rewrite foldM_r_app.
    assert (He : en_observed_at e = at_) by (apply Hat, elem_of_app; right; by left).
    assert (Hmono : all_cancellable (es ++ [e]) → all_cancellable es).
    { intros H o Ho. apply H. rewrite elem_of_pending_groups in *. rewrite map_app. setoid_rewrite elem_of_app.
      destruct Ho as (j & ? & ? & i & ? & ?). eauto 10. }
    split.
    + intros Hall. specialize (IHok (Hmono Hall)). destruct (foldM_r _ db es) as [db1|] eqn:E1; [|done].
      destruct (IHspec db1 eq_refl) as [Hc1 Ho1]. cbn -[observe_local_copy].
      destruct (observe_step es e db1 Hnd Hfr He Ho1 Hc1) as [Hok _]. specialize (Hok Hall).
      by destruct (observe_local_copy _ _ _ _ _ _ _ _ _ _).
    + intros db'. rewrite bind_ok. intros (db1 & E1 & H). destruct (IHspec db1 E1) as [Hc1 Ho1].
      cbn -[observe_local_copy] in H. apply bind_ok in H as (db2 & H & [= <-]).
      apply bind_ok in H as ([db3 i] & H & [= <-]).
      destruct (observe_step es e db1 Hnd Hfr He Ho1 Hc1) as [_ Hspec]. by apply (Hspec db3 i).
Qed.

Lemma last_by_path_distinct es : NoDup (map en_path es) → last_by_path es = map (fun e => (en_path e, e)) es.
Proof.
  unfold last_by_path. induction es as [|e es IH] using rev_ind; intros Hnd; [done|].
  rewrite map_app in Hnd. apply NoDup_app in Hnd as (Hnd & Hdis & _).
  rewrite foldl_app, IH, map_app by done. cbn.
  assert (He : en_path e ∉ map en_path es) by (intros H; apply (Hdis _ H); by left).
  clear -He. induction es as [|x es IH]; [done|]. cbn in *. rewrite bool_decide_eq_false_2 by set_solver.
  f_equal. apply IH. set_solver.
Qed.

Lemma goc_all_tables ps :
  let db' := goc_all v at_ uuid db ps in
  t_vaults db' = t_vaults db ∧ t_versions db' = t_versions db ∧ t_copies db' = t_copies db
  ∧ t_jobs db' = t_jobs db ∧ t_dirty db' = t_dirty db.
Proof.
  induction ps as [|p ps IH] using rev_ind; [done|]. cbv zeta. rewrite goc_all_app. cbn [goc_all foldl].
  unfold get_or_create_file. destruct (current_file _ _ _); exact IH.
Qed.

(** Distinct paths have distinct identities. *)
Lemma identified_distinct es :
  NoDup (map en_path es) → fresh_for uuid db (map en_path es) → NoDup (map fst (map identified es)).
Proof using All.
  intros Hnd Hfr. rewrite map_map. cbn. destruct (goc_all_spec v at_ uuid db _ Hwf Hnd Hfr) as (_ & Hwf' & Hc & _).
  set (dbg := goc_all v at_ uuid db (map en_path es)) in *.
  rewrite <- (map_map en_path id_of). apply (NoDup_fmap_2_strong id_of); [|done].
  intros p q Hp Hq E.
  assert (Hip : current_id dbg v p = Some (id_of p)) by (rewrite Hc, bool_decide_eq_true_2 by done; done).
  assert (Hiq : current_id dbg v q = Some (id_of q)) by (rewrite Hc, bool_decide_eq_true_2 by done; done).
  rewrite <- E in Hiq. apply current_id_some in Hip as (f & (Hf & _ & r & Hr & Hrf & _ & Hrp & Hrc) & Hfi); [|done].
  apply current_id_some in Hiq as (g & (Hg & _ & s & Hs & Hsf & _ & Hsp & Hsc) & Hgi); [|done].
  assert (r = s) as ->; [|congruence].
  eapply (NoDup_key_inj _ _ r s (wf_current_file _ Hwf')); [by apply elem_of_current..|]. congruence.
Qed.

Lemma batch_spec es :
  es ≠ [] → NoDup (map en_path es) → fresh_for uuid db (map en_path es) → (∀ e, e ∈ es → en_observed_at e = at_) →
  (all_cancellable es → is_ok (observe_local_copies_batch uuid db v es seen_at) = true)
  ∧ ∀ db' ids, observe_local_copies_batch uuid db v es seen_at = Ok (db', ids) →
      all_cancellable es ∧ observed_all es db' ∧ ids = map (fun e => (en_path e, id_of (en_path e))) es.
Proof using All.
  intros Hne Hnd Hfr Hat. unfold observe_local_copies_batch.
  rewrite last_by_path_distinct, map_map, map_id by done. destruct es as [|e0 es0]; [done|]. cbv beta iota.
  set (es := e0 :: es0) in *. replace (en_observed_at e0) with at_ by (symmetry; apply Hat; left).
  rewrite resolve_or_create_spec by done. cbn [mbind result_bind].
  set (dbg := goc_all v at_ uuid db (map en_path es)). set (ids := map (fun p => (p, or_default _ _)) _).
  assert (Hids : ids = map (fun e => (en_path e, id_of (en_path e))) es) by (unfold ids; by rewrite map_map).
  assert (Hfst : ids.*1 = map en_path es) by (rewrite Hids; by rewrite <- map_fmap, map_map).
  assert (Hsnd : map snd ids = map (fun e => id_of (en_path e)) es) by (rewrite Hids; by rewrite map_map).
  destruct (goc_all_tables (map en_path es)) as (Hva & Hve & Hco & Hjo & Hdi). fold dbg in Hva, Hve, Hco, Hjo, Hdi.
  assert (Hrows : mapM_r (fun e => match (list_to_map ids : gmap string string) !! en_path e with
                              | Some i => Ok (batch_row_of seen_at i e)
                              | None => Raise (KeyError (en_path e))
                              end) es = Ok (map (row_of_entry seen_at) (map identified es))).
  { apply mapM_r_ok. assert (Hall : ∀ e, e ∈ es → (list_to_map ids : gmap string string) !! en_path e = Some (id_of (en_path e))).
    { intros e He. apply elem_of_list_to_map_1; [by rewrite Hfst|]. rewrite Hids.
      apply list_elem_of_In, in_map_iff. exists e. by rewrite <- list_elem_of_In. }
    clearbody ids. clear -Hall. induction es as [|e es IH]; cbn; constructor.
    - by rewrite (Hall e) by left.
    - apply IH. intros x Hx. apply Hall. by right. }
  rewrite Hrows. cbn [mbind result_bind]. clear Hrows. rewrite cancel_reappeared_loop, Hsnd.
  set (db2 := set_copies _ dbg).
  assert (Hj2 : t_jobs db2 = t_jobs db) by done.
  assert (Hp2 : ∀ l, pending_groups db2 v l = pending_groups db v l) by (intros l; unfold pending_groups; by rewrite Hj2).
  assert (Hok2 : ∀ l, all_ok v db2 l ↔ all_ok v db l).
  { intros l. unfold all_ok, group_ok, lock_vault, group_rows. rewrite Hj2. change (t_vaults db2) with (t_vaults dbg).
    by rewrite Hva. }
  destruct (cancel_loop_spec v at_ db2 (pending_groups db2 v (map (fun e => id_of (en_path e)) es))) as [Hok Hspec].
  { by rewrite Hj2. }
  { apply NoDup_remove_dups. }
  split.
  - intros Hall. rewrite Hok2, Hp2 in Hok. specialize (Hok Hall). rewrite Hp2. by destruct (cancel_loop _ _ _ _).
  - intros db' ids'. rewrite bind_ok. intros (db3 & H3 & [= <- <-]).
    destruct (Hspec _ H3) as (Hall & Hj3 & (Hva3 & Hf3 & Hp3 & Hc3 & Hv3) & Hd3). rewrite Hok2, Hp2 in Hall.
    split; [done|]. split; [|done].
    assert (Hm : same_but_dirty (mark_paths_dirty v (map Some (map en_path es)) db3) db3) by apply persist_all_same.
    constructor.
    + etrans; [apply (same_vaults _ _ Hm)|]. rewrite Hva3. exact Hva.
    + etrans; [apply (same_files _ _ Hm)|]. by rewrite Hf3.
    + etrans; [apply (same_paths _ _ Hm)|]. by rewrite Hp3.
    + etrans; [apply (same_versions _ _ Hm)|]. rewrite Hv3. exact Hve.
    + etrans; [apply (same_copies _ _ Hm)|]. rewrite Hc3. cbn [db2 t_copies set_copies]. rewrite Hco.
      rewrite upserts_batch by (by apply identified_distinct). unfold batch_upsert.
      unfold batch_update, batch_insert, only_cloud_copy. by rewrite Hve.
    + eexists. split; [|etrans; [apply (same_jobs _ _ Hm)|]; by rewrite Hj3, Hj2]. intros g. rewrite list_elem_of_omap, Hp2. cbn.
      split; [by intros (o & Ho & ->)|]. intros H. by exists (Some g).
    + intros m. etrans; [apply (mark_paths_dirty_elem v (map en_path es) db3)|]. rewrite Hd3. change (t_dirty db2) with (t_dirty dbg). by rewrite Hdi.
Qed.
End equivalence.


(** ** Witnesses *)
Definition w_stored : local_copy :=
  {| lc_vault_file_id := "f"; lc_presence := Present; lc_file_type := Regular; lc_size := Some 5;
     lc_mtime_ns := Some 1; lc_plaintext_sha256 := Some "d"; lc_matched_archive_version_id := Some "v1";
     lc_cloud_only_version_id := None; lc_last_seen_at := Some 1; lc_observed_at := 1;
     lc_content_observed_at := Some 1; lc_recovered_at := None |}.

Definition w_batch : catalog := set_copies [w_stored] w_marks.

Definition w_uuid (p : string) : string := "u" +:+ p.

Definition w_entry (path : string) (size at_ : Z) : entry :=
  {| en_path := path; en_file_type := Regular; en_size := Some size; en_mtime_ns := Some 1; en_observed_at := at_ |}.

Lemma w_batch_wf : wf_paths w_batch.
Proof.
  split; cbn.
  - by apply NoDup_singleton.
  - by apply NoDup_singleton.
  - by apply NoDup_singleton.
  - intros p ->%list_elem_of_singleton. eexists. split; [by left|done].
Qed.

Definition batch_db (r : result (catalog * list (string * string))) : catalog :=
  match r with Ok (db, _) => db | Raise _ => w_batch end.
Definition each_db (r : result catalog) : catalog := match r with Ok db => db | Raise _ => w_batch end.


(** A path repeated in one batch: the serialized calls see the intermediate
    observation and drop the digest of the stored row, the batch compares the
    last entry with the stored row and keeps it. *)
Lemma batch_repeated_path_diverges :
  let es := [w_entry "a/b.txt" 6 9; w_entry "a/b.txt" 5 9] in
  (lc_plaintext_sha256 <$> local_copy_of (t_copies (batch_db (observe_local_copies_batch w_uuid w_batch 1 es None))) "f")
    = Some (Some "d")
  ∧ (lc_plaintext_sha256 <$> local_copy_of (t_copies (each_db (observe_each w_uuid w_batch 1 es None))) "f")
    = Some None.
Proof. split; vm_compute; reflexivity. Qed.
