(* ===== verification/CatalogIncidents.v ===== *)
(** * CatalogIncidents: durable incidents that need the owner

    Models [src/app/services/catalog_incidents.py]: the incidents opened for
    Archive Versions that went missing, their resolution, the decision on content
    that reappeared at a cloud-only path and the owner's confirmation.  A call of
    the notification service for an incident is an entry of [t_outbox]; the
    clock is an argument. *)
From S2P Require Import Prelude Sql PyString VaultPaths Schema ProtectionStates DirectoryAggregates JobScheduler JobClaims DirtyMarks CloudDeletion OperationPolicies Catalog.

Definition INCIDENT_KIND_MISSING : string := "archive_version_missing".
Definition INCIDENT_KIND_CLOUD_ONLY_CONFLICT : string := "cloud_only_conflict".
Definition INCIDENT_STATUS_OPEN : string := "open".
Definition INCIDENT_STATUS_RESOLVED : string := "resolved".

(** ** Assignments on rows *)
Definition touch_incident (at_ : timestamp) (reason : option string) (i : incident) : incident :=
  {| ci_id := ci_id i; ci_vault_id := ci_vault_id i; ci_vault_file_id := ci_vault_file_id i;
     ci_archive_version_id := ci_archive_version_id i; ci_kind := ci_kind i; ci_status := ci_status i;
     ci_reason := or_default reason (ci_reason i); ci_path := ci_path i; ci_object_key := ci_object_key i;
     ci_provider_version_id := ci_provider_version_id i; ci_opened_at := ci_opened_at i;
     ci_last_seen_at := at_; ci_resolved_at := ci_resolved_at i |}.

Definition resolve_incident (at_ : timestamp) (i : incident) : incident :=
  {| ci_id := ci_id i; ci_vault_id := ci_vault_id i; ci_vault_file_id := ci_vault_file_id i;
     ci_archive_version_id := ci_archive_version_id i; ci_kind := ci_kind i;
     ci_status := INCIDENT_STATUS_RESOLVED; ci_reason := ci_reason i; ci_path := ci_path i;
     ci_object_key := ci_object_key i; ci_provider_version_id := ci_provider_version_id i;
     ci_opened_at := ci_opened_at i; ci_last_seen_at := at_; ci_resolved_at := Some at_ |}.

(** [SET cloud_only_version_id=NULL], with the match it leaves. *)
Definition set_hold (matched : option string) (c : local_copy) : local_copy :=
  {| lc_vault_file_id := lc_vault_file_id c; lc_presence := lc_presence c; lc_file_type := lc_file_type c;
     lc_size := lc_size c; lc_mtime_ns := lc_mtime_ns c; lc_plaintext_sha256 := lc_plaintext_sha256 c;
     lc_matched_archive_version_id := matched; lc_cloud_only_version_id := None;
     lc_last_seen_at := lc_last_seen_at c; lc_observed_at := lc_observed_at c;
     lc_content_observed_at := lc_content_observed_at c; lc_recovered_at := lc_recovered_at c |}.

Definition release_hold (c : local_copy) : local_copy := set_hold (lc_matched_archive_version_id c) c.
Definition match_cloud_copy (c : local_copy) : local_copy := set_hold (lc_cloud_only_version_id c) c.

(** ** Opening *)
Definition is_open (version_id kind : string) (i : incident) : bool :=
  (ci_archive_version_id i =b version_id) && (ci_kind i =b kind) && (ci_status i =b INCIDENT_STATUS_OPEN).

Definition open_incident (db : catalog) (version_id kind : string) : option incident :=
  fetchone (is_open version_id kind) (t_incidents db).

(** [INSERT INTO catalog_incidents ... RETURNING *] and the notification. *)
Definition insert_incident (i : Z → incident) (event : string) (db : catalog) : catalog * incident :=
  let row := i (next_id (map ci_id (t_incidents db))) in
  (set_outbox (t_outbox db ++ [(event, ci_id row)]) (set_incidents (t_incidents db ++ [row]) db), row).

Definition new_incident (vault_id : Z) (file version_id kind reason path : string)
    (object_key provider_version_id : option string) (at_ : timestamp) (id : Z) : incident :=
  {| ci_id := id; ci_vault_id := vault_id; ci_vault_file_id := file; ci_archive_version_id := version_id;
     ci_kind := kind; ci_status := INCIDENT_STATUS_OPEN; ci_reason := reason; ci_path := path;
     ci_object_key := object_key; ci_provider_version_id := provider_version_id; ci_opened_at := at_;
     ci_last_seen_at := at_; ci_resolved_at := None |}.

(** A row [mark_unseen_archive_versions_missing] returns. *)
Record missing_row := {
  mr_id : string;
  mr_vault_id : Z;
  mr_vault_file_id : string;
  mr_object_key : option string;
  mr_provider_version_id : option string;
  mr_path : option string;
}.

Definition remember_missing (reason : string) (observed_at : timestamp)
    (st : catalog * list incident) (row : missing_row) : catalog * list incident :=
  let '(db, opened) := st in
  match open_incident db (mr_id row) INCIDENT_KIND_MISSING with
  | Some existing =>
      (set_incidents (update_where (fun i => ci_id i =b ci_id existing) (touch_incident observed_at (Some reason))
                        (t_incidents db)) db, opened)
  | None =>
      let '(db', incident) :=
        insert_incident (new_incident (mr_vault_id row) (mr_vault_file_id row) (mr_id row) INCIDENT_KIND_MISSING
                           reason (or_default (mr_path row) "") (mr_object_key row)
                           (mr_provider_version_id row) observed_at)
          "archive_version_missing" db in
      (db', opened ++ [incident])
  end.

Definition remember_missing_archives (db : catalog) (rows : list missing_row) (reason : string)
    (observed_at : timestamp) : catalog * list incident :=
  foldl (remember_missing reason observed_at) (db, []) rows.

Definition resolve_one (observed_at : timestamp) (st : catalog * Z) (version_id : string) : catalog * Z :=
  let '(db, resolved) := st in
  let p := is_open version_id INCIDENT_KIND_MISSING in
  (set_incidents (update_where p (resolve_incident observed_at) (t_incidents db)) db,
   resolved + countZ p (t_incidents db)).

Definition resolve_archive_version_incidents (db : catalog) (version_ids : list string)
    (observed_at : timestamp) : catalog * Z :=
  foldl (resolve_one observed_at) (db, 0) version_ids.

(** ** Content at a cloud-only path *)
Record settle_row := {
  sr_vault_id : Z;
  sr_path : string;
  sr_copy : local_copy;
  sr_hold : string;
  sr_version : option archive_version;
}.

(** The row the joins give for one copy, if it is held and in scope. *)
Definition settle_row_of (db : catalog) (vault_id : Z) (path : option string) (c : local_copy) : option settle_row :=
  hold ← lc_cloud_only_version_id c;
  f ← fetchone (fun f => vf_id f =b lc_vault_file_id c) (t_files db);
  p ← current_path_of (t_paths db) (vf_id f);
  if (fp_vault_id p =b vault_id) && (vf_vault_id f =b fp_vault_id p)
     && match path with Some q => fp_path p =b q | None => true end
  then Some {| sr_vault_id := vf_vault_id f; sr_path := fp_path p; sr_copy := c; sr_hold := hold;
               sr_version := fetchone (fun v => av_id v =b hold) (t_versions db) |}
  else None.

Definition settle_rows (db : catalog) (vault_id : Z) (path : option string) : list settle_row :=
  omap (settle_row_of db vault_id path) (t_copies db).

Definition open_cloud_only_conflict (observed_at : timestamp) (row : settle_row) (db : catalog)
  : catalog * option incident :=
  match open_incident db (sr_hold row) INCIDENT_KIND_CLOUD_ONLY_CONFLICT with
  | Some existing =>
      (set_incidents (update_where (fun i => ci_id i =b ci_id existing) (touch_incident observed_at None)
                        (t_incidents db)) db, None)
  | None =>
      let '(db', incident) :=
        insert_incident (new_incident (sr_vault_id row) (lc_vault_file_id (sr_copy row)) (sr_hold row)
                           INCIDENT_KIND_CLOUD_ONLY_CONFLICT "different_content" (sr_path row)
                           (sr_version row ≫= av_object_key) (sr_version row ≫= av_provider_version_id) observed_at)
          "cloud_only_conflict" db in
      (db', Some incident)
  end.

Record settlement := {
  sm_identical : Z;
  sm_conflicts : Z;
  sm_released : Z;
  sm_resolved : Z;
}.

Definition holds_version (file hold : string) (c : local_copy) : bool :=
  (lc_vault_file_id c =b file) && bool_decide (lc_cloud_only_version_id c = Some hold).

Definition recoverable (v : option archive_version) : bool :=
  bool_decide (av_integrity <$> v = Some Verified) && bool_decide (av_availability <$> v = Some Available).

Definition settle_one (stamp : timestamp) (st : catalog * settlement) (row : settle_row) : catalog * settlement :=
  let '(db, s) := st in
  let c := sr_copy row in
  if negb (recoverable (sr_version row)) then
    (set_copies (update_where (holds_version (lc_vault_file_id c) (sr_hold row)) release_hold (t_copies db)) db,
     {| sm_identical := sm_identical s; sm_conflicts := sm_conflicts s; sm_released := sm_released s + 1;
        sm_resolved := sm_resolved s |})
  else if negb (lc_presence c =b Present) || negb (lc_file_type c =b Regular) || negb (truthy (lc_plaintext_sha256 c)) then st
  else if lower (or_default (lc_plaintext_sha256 c) "") =b lower (or_default (sr_version row ≫= av_plaintext_sha256) "") then
    (set_copies (update_where (holds_version (lc_vault_file_id c) (sr_hold row)) match_cloud_copy (t_copies db)) db,
     {| sm_identical := sm_identical s + 1; sm_conflicts := sm_conflicts s; sm_released := sm_released s;
        sm_resolved := sm_resolved s |})
  else
    let '(db', opened) := open_cloud_only_conflict stamp row db in
    (db', {| sm_identical := sm_identical s;
             sm_conflicts := if is_some opened then sm_conflicts s + 1 else sm_conflicts s;
             sm_released := sm_released s; sm_resolved := sm_resolved s |}).

(** The final UPDATE: conflicts whose content left the path or was released. *)
Definition conflict_is_over (db : catalog) (vault_id : Z) (path : option string) (i : incident) : bool :=
  (ci_vault_id i =b vault_id) && (ci_kind i =b INCIDENT_KIND_CLOUD_ONLY_CONFLICT)
  && (ci_status i =b INCIDENT_STATUS_OPEN)
  && match path with Some q => ci_path i =b q | None => true end
  && negb (exists_row (fun c => holds_version (ci_vault_file_id i) (ci_archive_version_id i) c
                                && (lc_presence c =b Present)) (t_copies db)).

Definition settle_cloud_only_copies (db : catalog) (vault_id : Z) (path : option string)
    (stamp : timestamp) : catalog * settlement :=
  let '(db1, s) := foldl (settle_one stamp)
                     (db, {| sm_identical := 0; sm_conflicts := 0; sm_released := 0; sm_resolved := 0 |})
                     (settle_rows db vault_id path) in
  let over := conflict_is_over db1 vault_id path in
  (set_incidents (update_where over (resolve_incident stamp) (t_incidents db1)) db1,
   {| sm_identical := sm_identical s; sm_conflicts := sm_conflicts s; sm_released := sm_released s;
      sm_resolved := countZ over (t_incidents db1) |}).

(** ** The owner's choice *)
Definition confirm_cloud_only_replacement (db : catalog) (vault_id : Z) (path : string)
    (actor : option Z) (stamp : timestamp) : result (catalog * incident) :=
  let db1 := (settle_cloud_only_copies db vault_id (Some path) stamp).1 in
  match latest ci_id (select (fun i => (ci_vault_id i =b vault_id) && (ci_path i =b path)
                                       && (ci_kind i =b INCIDENT_KIND_CLOUD_ONLY_CONFLICT)
                                       && (ci_status i =b INCIDENT_STATUS_OPEN)) (t_incidents db1)) with
  | None => Raise (NoCloudOnlyConflict path)
  | Some i =>
      let held c := holds_version (ci_vault_file_id i) (ci_archive_version_id i) c && (lc_presence c =b Present) in
      raise! NoCloudOnlyConflict path when negb (exists_row held (t_copies db1));
      let db2 := set_copies (update_where held release_hold (t_copies db1)) db1 in
      let db3 := set_incidents (update_where (fun x => ci_id x =b ci_id i) (resolve_incident stamp)
                                  (t_incidents db2)) db2 in
      Ok (audit "cloud_only_conflict_replacement_confirmed" actor vault_id None "confirmed" db3, i)
  end.

(** ** One open incident per version and kind, one notification per incident *)
Definition opened (i : incident) : bool := ci_status i =b INCIDENT_STATUS_OPEN.
Definition incident_key (i : incident) : string * string := (ci_archive_version_id i, ci_kind i).
Definition open_keys (l : list incident) : list (string * string) := map incident_key (List.filter opened l).

Record incidents_inv (db : catalog) : Prop := {
  inv_ids : NoDup (map ci_id (t_incidents db));
  inv_open : NoDup (open_keys (t_incidents db));
  inv_notified : map snd (t_outbox db) = map ci_id (t_incidents db);
}.

Lemma open_keys_touch p at_ reason l : open_keys (update_where p (touch_incident at_ reason) l) = open_keys l.
Proof.
  unfold open_keys, update_where. induction l as [|i l IH]; [done|]. cbn [map List.filter].
  replace (opened (if p i then _ else i)) with (opened i) by (by destruct (p i)).
  destruct (opened i); cbn [map]; [|done]. rewrite IH. by destruct (p i).
Qed.

Lemma open_keys_resolve p at_ l : sublist (open_keys (update_where p (resolve_incident at_) l)) (open_keys l).
Proof.
  unfold open_keys, update_where. induction l as [|i l IH]; [constructor|]. cbn [map List.filter]. destruct (p i).
  - change (opened (resolve_incident at_ i)) with false. cbn match.
    destruct (opened i); cbn [map]; [by constructor|done].
  - destruct (opened i); cbn [map]; [by constructor|done].
Qed.

Lemma touch_inv db p at_ reason :
  incidents_inv db → incidents_inv (set_incidents (update_where p (touch_incident at_ reason) (t_incidents db)) db).
Proof.
  intros [Hi Ho Hn]. split; cbn [t_incidents set_incidents t_outbox]; rewrite ?(update_where_column ci_id) by done; [done| |done]. by rewrite open_keys_touch.
Qed.

Lemma resolve_inv db p at_ :
  incidents_inv db → incidents_inv (set_incidents (update_where p (resolve_incident at_) (t_incidents db)) db).
Proof.
  intros [Hi Ho Hn]. split; cbn [t_incidents set_incidents t_outbox]; rewrite ?(update_where_column ci_id) by done; [done| |done].
  eapply sublist_NoDup; [exact Ho|apply open_keys_resolve].
Qed.

Lemma open_incident_none db version kind :
  open_incident db version kind = None ↔ (version, kind) ∉ open_keys (t_incidents db).
Proof.
  unfold open_incident, open_keys. rewrite fetchone_none. split.
  - intros H Hin. apply list_elem_of_In, in_map_iff in Hin as (i & [= <- <-] & Hi).
    apply filter_In in Hi as [Hi Ho]. apply list_elem_of_In in Hi. specialize (H i Hi). unfold is_open in H.
    unfold opened in Ho. rewrite Ho in H. by rewrite !bool_decide_eq_true_2 in H.
  - intros H i Hi. destruct (is_open version kind i) eqn:E; [|done]. exfalso. apply H. unfold is_open in E. bsimpl.
    apply list_elem_of_In, in_map_iff. exists i. split; [unfold incident_key; congruence|].
    apply filter_In. split; [by apply list_elem_of_In|]. unfold opened. by apply bool_decide_eq_true_2.
Qed.

Lemma next_id_not_in ids : next_id ids ∉ ids.
Proof. intros H%next_id_fresh. lia. Qed.

Lemma insert_inv db v file version kind reason path key pv at_ event :
  incidents_inv db → open_incident db version kind = None →
  incidents_inv (insert_incident (new_incident v file version kind reason path key pv at_) event db).1.
Proof.
  intros [Hi Ho Hn] Hnone%open_incident_none. split; cbn.
  - rewrite map_app. cbn. apply NoDup_app. split; [done|]. split; [|apply NoDup_singleton].
    intros x Hx ->%list_elem_of_singleton. by apply next_id_not_in in Hx.
  - unfold open_keys in *. rewrite List.filter_app, map_app. cbn. apply NoDup_app. split; [done|].
    split; [|apply NoDup_singleton]. by intros x Hx ->%list_elem_of_singleton.
  - by rewrite !map_app, Hn.
Qed.

Lemma foldl_inv {S A} (P : S → Prop) (f : S → A → S) l s :
  (∀ s x, P s → P (f s x)) → P s → P (foldl f s l).
Proof. intros Hf. revert s; induction l as [|x l IH]; intros s Hs; cbn; auto. Qed.

Lemma remember_inv db rows reason at_ :
  incidents_inv db → incidents_inv (remember_missing_archives db rows reason at_).1.
Proof.
  intros H. unfold remember_missing_archives. apply (foldl_inv (fun st => incidents_inv st.1)); [|done].
  intros [db1 o] row H1. cbn in *. destruct (open_incident db1 _ _) eqn:E; [by apply touch_inv|].
  by apply insert_inv.
Qed.

Lemma resolve_versions_inv db ids at_ :
  incidents_inv db → incidents_inv (resolve_archive_version_incidents db ids at_).1.
Proof.
  intros H. unfold resolve_archive_version_incidents. apply (foldl_inv (fun st => incidents_inv st.1)); [|done].
  intros [db1 n] v H1. by apply resolve_inv.
Qed.

Lemma set_copies_inv l db : incidents_inv db → incidents_inv (set_copies l db).
Proof. intros [? ? ?]. by split. Qed.

Lemma open_conflict_inv at_ row db :
  incidents_inv db → incidents_inv (open_cloud_only_conflict at_ row db).1.
Proof.
  intros H. unfold open_cloud_only_conflict. destruct (open_incident db _ _) eqn:E; [by apply touch_inv|].
  by apply insert_inv.
Qed.

Lemma settle_one_inv at_ st row : incidents_inv st.1 → incidents_inv (settle_one at_ st row).1.
Proof.
  destruct st as [db s]. intros H. unfold settle_one. cbn in H.
  destruct (negb (recoverable _)); [by apply set_copies_inv|].
  destruct (_ || _); [done|]. destruct (_ =b _); [by apply set_copies_inv|].
  assert (Hc := open_conflict_inv at_ row db H). by destruct (open_cloud_only_conflict at_ row db).
Qed.

Lemma settle_inv db v path at_ : incidents_inv db → incidents_inv (settle_cloud_only_copies db v path at_).1.
Proof.
  intros H. unfold settle_cloud_only_copies.
  match goal with |- context [foldl ?f ?s ?l] =>
    assert (H1 : incidents_inv (foldl f s l).1) by (apply (foldl_inv (fun st => incidents_inv st.1)); [apply settle_one_inv|done]);
    destruct (foldl f s l) as [db1 s1] end.
  by apply resolve_inv.
Qed.

Lemma confirm_inv db v path actor at_ db' i :
  confirm_cloud_only_replacement db v path actor at_ = Ok (db', i) → incidents_inv db → incidents_inv db'.
Proof.
  unfold confirm_cloud_only_replacement. intros H Hi. apply (settle_inv _ v (Some path) at_) in Hi.
  destruct (latest _ _) as [i0|]; [|done]. apply raise_if_bind_ok in H as [_ H]. injection H as <- _.
  assert (H2 := set_copies_inv (update_where (fun c => holds_version (ci_vault_file_id i0) (ci_archive_version_id i0) c && (lc_presence c =b Present)) release_hold
                  (t_copies (settle_cloud_only_copies db v (Some path) at_).1)) _ Hi).
  apply (resolve_inv _ (fun x => ci_id x =b ci_id i0) at_) in H2. destruct H2. by split.
Qed.

(** ** The operations as steps *)
Inductive incident_step : catalog → catalog → Prop :=
  | step_missing db rows reason at_ :
      incident_step db (remember_missing_archives db rows reason at_).1
  | step_resolve db versions at_ :
      incident_step db (resolve_archive_version_incidents db versions at_).1
  | step_settle db v path at_ :
      incident_step db (settle_cloud_only_copies db v path at_).1
  | step_confirm db v path actor at_ db' i :
      confirm_cloud_only_replacement db v path actor at_ = Ok (db', i) → incident_step db db'.

(** The owner is told once.  In every state the incident operations can
    reach, in any order and with any repetition of scans, incident ids are
    distinct, at most one incident per Archive Version and kind is open, and the
    notification service was called exactly once for each incident, in order. *)
Theorem incidents_told_once db db' :
  incidents_inv db → rtc incident_step db db' → incidents_inv db'.
Proof.
  intros H Hs. induction Hs as [|a b c Hab _ IH]; [done|]. apply IH. destruct Hab.
  - by apply remember_inv.
  - by apply resolve_versions_inv.
  - by apply settle_inv.
  - by eapply confirm_inv.
Qed.

(** ** What settlement does to each copy *)

(** The decision on one row, as the assignment it makes. *)
Definition undecided (c : local_copy) : bool :=
  negb (lc_presence c =b Present) || negb (lc_file_type c =b Regular) || negb (truthy (lc_plaintext_sha256 c)).

Definition same_digest (row : settle_row) : bool :=
  lower (or_default (lc_plaintext_sha256 (sr_copy row)) "") =b lower (or_default (sr_version row ≫= av_plaintext_sha256) "").

Definition verdict (row : settle_row) : local_copy → local_copy :=
  if negb (recoverable (sr_version row)) then release_hold
  else if undecided (sr_copy row) then id
  else if same_digest row then match_cloud_copy
  else id.

Definition apply_verdict (copies : list local_copy) (row : settle_row) : list local_copy :=
  update_where (holds_version (lc_vault_file_id (sr_copy row)) (sr_hold row)) (verdict row) copies.

Lemma update_where_id {A} (p : A → bool) (l : list A) : update_where p id l = l.
Proof. unfold update_where. erewrite map_ext; [apply map_id|]. intros x. by destruct (p x). Qed.

Lemma open_conflict_copies at_ row db : t_copies (open_cloud_only_conflict at_ row db).1 = t_copies db.
Proof. unfold open_cloud_only_conflict. by destruct (open_incident _ _ _). Qed.

Lemma settle_one_copies at_ st row : t_copies (settle_one at_ st row).1 = apply_verdict (t_copies st.1) row.
Proof.
  destruct st as [db s]. unfold settle_one, apply_verdict, verdict.
  destruct (negb (recoverable _)); [done|]. fold (undecided (sr_copy row)). destruct (undecided _); [by rewrite update_where_id|].
  fold (same_digest row). destruct (same_digest row); [done|]. rewrite update_where_id.
  cbn [fst]. rewrite <- (open_conflict_copies at_ row db). by destruct (open_cloud_only_conflict at_ row db).
Qed.

Definition settle_loop (db : catalog) (v : Z) (path : option string) (at_ : timestamp) : catalog * settlement :=
  foldl (settle_one at_) (db, {| sm_identical := 0; sm_conflicts := 0; sm_released := 0; sm_resolved := 0 |})
    (settle_rows db v path).

Lemma settle_loop_copies at_ rows st :
  t_copies (foldl (settle_one at_) st rows).1 = foldl apply_verdict (t_copies st.1) rows.
Proof.
  revert st; induction rows as [|row rows IH]; intros st; [done|]. cbn [foldl]. by rewrite IH, settle_one_copies.
Qed.

Lemma settle_copies db v path at_ :
  t_copies (settle_cloud_only_copies db v path at_).1 = foldl apply_verdict (t_copies db) (settle_rows db v path).
Proof.
  unfold settle_cloud_only_copies.
  rewrite <- (settle_loop_copies at_ _ (db, {| sm_identical := 0; sm_conflicts := 0; sm_released := 0; sm_resolved := 0 |})).
  by destruct (foldl _ _ _).
Qed.

Lemma verdict_id row c : lc_vault_file_id (verdict row c) = lc_vault_file_id c.
Proof. unfold verdict. by repeat case_match. Qed.

Lemma local_copy_of_verdict copies row file :
  local_copy_of (apply_verdict copies row) file
  = (fun c => if holds_version (lc_vault_file_id (sr_copy row)) (sr_hold row) c then verdict row c else c)
      <$> local_copy_of copies file.
Proof.
  unfold local_copy_of, apply_verdict, update_where, fetchone. induction copies as [|c copies IH]; [done|].
  cbn [map List.find]. assert (Hid : lc_vault_file_id (if holds_version (lc_vault_file_id (sr_copy row)) (sr_hold row) c
    then verdict row c else c) = lc_vault_file_id c) by (case_match; [apply verdict_id|done]).
  rewrite Hid. by case_bool_decide.
Qed.

Lemma local_copy_of_other copies rows file :
  file ∉ map (fun r => lc_vault_file_id (sr_copy r)) rows →
  local_copy_of (foldl apply_verdict copies rows) file = local_copy_of copies file.
Proof.
  revert copies; induction rows as [|row rows IH]; intros copies Hn; [done|]. cbn [map] in Hn. cbn [foldl]. rewrite IH by set_solver.
  rewrite local_copy_of_verdict. destruct (local_copy_of copies file) as [c|] eqn:E; [|done]. cbn.
  apply fetchone_some in E as [_ E]. bsimpl. unfold holds_version.
  rewrite (bool_decide_eq_false_2 (lc_vault_file_id c = _)) by set_solver. done.
Qed.

Lemma local_copy_of_row copies rows row :
  NoDup (map (fun r => lc_vault_file_id (sr_copy r)) rows) → row ∈ rows →
  lc_cloud_only_version_id (sr_copy row) = Some (sr_hold row) →
  local_copy_of copies (lc_vault_file_id (sr_copy row)) = Some (sr_copy row) →
  local_copy_of (foldl apply_verdict copies rows) (lc_vault_file_id (sr_copy row)) = Some (verdict row (sr_copy row)).
Proof.
  intros Hnd Hin Hh Hc. apply list_elem_of_split in Hin as (l1 & l2 & ->). rewrite map_app in Hnd. cbn in Hnd.
  apply NoDup_app in Hnd as (_ & Hdis & Hnd2). apply NoDup_cons in Hnd2 as [Hn2 _].
  rewrite foldl_app. cbn [foldl]. rewrite local_copy_of_other by done. rewrite local_copy_of_verdict.
  rewrite local_copy_of_other, Hc.
  - cbn. unfold holds_version. by rewrite Hh, !bool_decide_eq_true_2.
  - intros H1. apply (Hdis _ H1). left.
Qed.

(** The rows of the query, one per held copy in scope. *)
Lemma settle_row_of_some db v path c row :
  settle_row_of db v path c = Some row →
  sr_copy row = c ∧ lc_cloud_only_version_id c = Some (sr_hold row) ∧ sr_vault_id row = v
  ∧ sr_version row = fetchone (fun w => av_id w =b sr_hold row) (t_versions db)
  ∧ ∀ q, path = Some q → sr_path row = q.
Proof.
  unfold settle_row_of. intros H. repeat (apply bind_Some in H as (? & ? & H)).
  destruct (_ && _) eqn:E; [|done]. injection H as <-. cbn. bsimpl.
  repeat split; try congruence. intros q ->. by bsimpl.
Qed.

Lemma settle_rows_NoDup db v path :
  NoDup (map lc_vault_file_id (t_copies db)) →
  NoDup (map (fun r => lc_vault_file_id (sr_copy r)) (settle_rows db v path)).
Proof.
  unfold settle_rows. generalize (t_copies db) as copies. set (f := settle_row_of db v path).
  intros copies. induction copies as [|c copies IH]; [constructor|]. cbn [map]. intros [Hc Hnd]%NoDup_cons.
  assert (Hsub : ∀ x, x ∈ map (fun r => lc_vault_file_id (sr_copy r)) (omap f copies) → x ∈ map lc_vault_file_id copies).
  { intros x Hx. apply list_elem_of_In, in_map_iff in Hx as (r & <- & Hr%list_elem_of_In).
    apply list_elem_of_omap in Hr as (c0 & Hc0 & H0). apply settle_row_of_some in H0 as (-> & _).
    apply list_elem_of_In, in_map. by apply list_elem_of_In. }
  cbn. destruct (f c) as [row|] eqn:E; [|by apply IH]. cbn [map]. apply NoDup_cons. split; [|by apply IH].
  apply settle_row_of_some in E as (-> & _). auto.
Qed.

Lemma settled_copy db v path at_ c :
  NoDup (map lc_vault_file_id (t_copies db)) → c ∈ t_copies db →
  local_copy_of (t_copies (settle_cloud_only_copies db v path at_).1) (lc_vault_file_id c)
  = Some (match settle_row_of db v path c with Some row => verdict row c | None => c end).
Proof.
  intros Hnd Hc. rewrite settle_copies.
  assert (Hl : local_copy_of (t_copies db) (lc_vault_file_id c) = Some c).
  { apply (fetchone_unique lc_vault_file_id); [done| |done|]; [intros r; by rewrite bool_decide_eq_true|by apply bool_decide_eq_true_2]. }
  destruct (settle_row_of db v path c) as [row|] eqn:E.
  - assert (Hrow : row ∈ settle_rows db v path) by (apply list_elem_of_omap; eauto).
    apply settle_row_of_some in E as (<- & Hh & _). apply local_copy_of_row; [by apply settle_rows_NoDup|done..].
  - rewrite local_copy_of_other; [done|]. intros Hin. apply list_elem_of_In, in_map_iff in Hin as (row & Hid & Hr%list_elem_of_In).
    apply list_elem_of_omap in Hr as (c0 & Hc0 & H0). assert (H0' := H0). apply settle_row_of_some in H0 as (<- & _).
    assert (c = sr_copy row) as ->; [|congruence].
    assert (local_copy_of (t_copies db) (lc_vault_file_id (sr_copy row)) = Some (sr_copy row)).
    { apply (fetchone_unique lc_vault_file_id); [done| |done|]; [intros r; by rewrite bool_decide_eq_true|by apply bool_decide_eq_true_2]. }
    congruence.
Qed.

(** ** The incidents settlement leaves open *)

(** Turns of the loop never close or re-key an incident. *)
Definition keeps_open (a b : list incident) : Prop :=
  ∀ i, i ∈ a → opened i = true → ∃ i', i' ∈ b ∧ opened i' = true ∧ incident_key i' = incident_key i
         ∧ ci_vault_file_id i' = ci_vault_file_id i.

#[local] Instance keeps_open_refl : Reflexive keeps_open.
Proof. intros l i Hi Ho. by exists i. Qed.
#[local] Instance keeps_open_trans : Transitive keeps_open.
Proof.
  intros a b c Hab Hbc i Hi Ho. destruct (Hab i Hi Ho) as (j & Hj & Hjo & Hk & Hf).
  destruct (Hbc j Hj Hjo) as (k & ? & ? & ? & ?). exists k. repeat split; congruence.
Qed.

Lemma open_conflict_keeps at_ row db :
  keeps_open (t_incidents db) (t_incidents (open_cloud_only_conflict at_ row db).1)
  ∧ ∃ i, i ∈ t_incidents (open_cloud_only_conflict at_ row db).1
      ∧ is_open (sr_hold row) INCIDENT_KIND_CLOUD_ONLY_CONFLICT i = true.
Proof.
  unfold open_cloud_only_conflict. destruct (open_incident db _ _) as [x|] eqn:E.
  - apply fetchone_some in E as [Hx Hxo]. split.
    + intros i Hi Ho. exists (if ci_id i =b ci_id x then touch_incident at_ None i else i).
      split; [apply elem_of_update_where; eauto|]. by case_match.
    + exists (touch_incident at_ None x). split; [|done].
      apply elem_of_update_where. exists x. split; [done|]. by rewrite bool_decide_eq_true_2.
  - split; cbn.
    + intros i Hi Ho. exists i. by split; [apply elem_of_app; left|].
    + eexists. split; [apply elem_of_app; right; by left|]. unfold is_open. cbn. by rewrite !bool_decide_eq_true_2.
Qed.

Lemma settle_one_keeps at_ st row : keeps_open (t_incidents st.1) (t_incidents (settle_one at_ st row).1).
Proof.
  destruct st as [db s]. unfold settle_one. destruct (negb (recoverable _)); [done|]. destruct (_ || _); [done|].
  destruct (_ =b _); [done|]. destruct (open_conflict_keeps at_ row db) as [H _].
  by destruct (open_cloud_only_conflict at_ row db).
Qed.

Lemma settle_loop_keeps at_ rows st :
  keeps_open (t_incidents st.1) (t_incidents (foldl (settle_one at_) st rows).1).
Proof.
  revert st; induction rows as [|row rows IH]; intros st; [done|]. cbn [foldl].
  etrans; [apply (settle_one_keeps at_ st row)|apply IH].
Qed.

Lemma settle_loop_opens at_ rows st row :
  row ∈ rows → recoverable (sr_version row) = true → undecided (sr_copy row) = false → same_digest row = false →
  ∃ i, i ∈ t_incidents (foldl (settle_one at_) st rows).1
    ∧ is_open (sr_hold row) INCIDENT_KIND_CLOUD_ONLY_CONFLICT i = true.
Proof.
  intros (l1 & l2 & ->)%list_elem_of_split Hr Hu Hs. rewrite foldl_app. cbn [foldl].
  set (st1 := foldl _ st l1). destruct st1 as [db1 s1].
  assert (H1 : ∃ i, i ∈ t_incidents (settle_one at_ (db1, s1) row).1
    ∧ is_open (sr_hold row) INCIDENT_KIND_CLOUD_ONLY_CONFLICT i = true).
  { unfold settle_one. fold (undecided (sr_copy row)) (same_digest row). rewrite Hr, Hu, Hs. cbn [negb].
    destruct (open_conflict_keeps at_ row db1) as [_ H]. by destruct (open_cloud_only_conflict at_ row db1). }
  destruct H1 as (i & Hi & Hio). assert (Hop : opened i = true) by (unfold is_open in Hio; bsimpl; by apply bool_decide_eq_true_2).
  destruct (settle_loop_keeps at_ l2 _ i Hi Hop) as (i' & Hi' & Ho' & Hk & _). exists i'. split; [done|].
  unfold is_open, opened, incident_key in *. rewrite Ho'. injection Hk as -> ->. bsimpl.
  by rewrite !bool_decide_eq_true_2.
Qed.

(** A hold and a conflict name a version of their own file. *)
Definition conflict_owned (versions : list archive_version) (i : incident) : Prop :=
  ∀ w, w ∈ versions → ci_kind i = INCIDENT_KIND_CLOUD_ONLY_CONFLICT → ci_archive_version_id i = av_id w →
    ci_vault_file_id i = av_vault_file_id w.

Record holds_owned (db : catalog) : Prop := {
  ho_copies : ∀ c w, c ∈ t_copies db → w ∈ t_versions db → lc_cloud_only_version_id c = Some (av_id w) →
    lc_vault_file_id c = av_vault_file_id w;
  ho_incidents : ∀ i, i ∈ t_incidents db → conflict_owned (t_versions db) i;
}.

Lemma settle_loop_owned at_ versions rows st :
  (∀ row, row ∈ rows → ∀ w, w ∈ versions → sr_hold row = av_id w → lc_vault_file_id (sr_copy row) = av_vault_file_id w) →
  (∀ i, i ∈ t_incidents st.1 → conflict_owned versions i) →
  ∀ i, i ∈ t_incidents (foldl (settle_one at_) st rows).1 → conflict_owned versions i.
Proof.
  revert st; induction rows as [|row rows IH]; intros st Hrows Hst; [done|]. cbn [foldl].
  apply IH; [intros r Hr; apply Hrows; by right|]. destruct st as [db s]. unfold settle_one.
  destruct (negb (recoverable _)); [done|]. destruct (_ || _); [done|]. destruct (_ =b _); [done|].
  unfold open_cloud_only_conflict. destruct (open_incident db _ _) as [x|]; intros i Hi.
  - apply elem_of_update_where in Hi as (i0 & Hi0 & ->). specialize (Hst i0 Hi0). by case_match.
  - cbn in Hi. apply elem_of_app in Hi as [Hi| ->%list_elem_of_singleton]; [by apply Hst|].
    intros w Hw _ Hv. apply (Hrows row ltac:(left) w Hw Hv).
Qed.

Lemma settle_incidents db v path at_ i :
  i ∈ t_incidents (settle_loop db v path at_).1 →
  conflict_is_over (settle_loop db v path at_).1 v path i = false →
  i ∈ t_incidents (settle_cloud_only_copies db v path at_).1.
Proof.
  unfold settle_cloud_only_copies. fold (settle_loop db v path at_). destruct (settle_loop db v path at_) as [db1 s].
  cbn [fst]. intros Hi Ho. apply elem_of_update_where. exists i. by rewrite Ho.
Qed.

(** Content back at a cloud-only path is decided by its digest alone.  For
    every Local Copy, settlement lifts the hold when the held version can no
    longer be recovered, makes the copy a match of the held version when the
    digests agree, leaves the copy held when it is not hashed or differs, with
    an open conflict incident in the latter case, and touches no copy outside the
    Vault and path; so different bytes never become eligible to replace the only
    cloud copy. *)
Theorem settlement_decides db v path at_ c :
  NoDup (map lc_vault_file_id (t_copies db)) → holds_owned db → c ∈ t_copies db →
  let db' := (settle_cloud_only_copies db v path at_).1 in
  match settle_row_of db v path c with
  | None => local_copy_of (t_copies db') (lc_vault_file_id c) = Some c
  | Some row =>
      if negb (recoverable (sr_version row)) then
        local_copy_of (t_copies db') (lc_vault_file_id c) = Some (release_hold c)
      else if undecided c then local_copy_of (t_copies db') (lc_vault_file_id c) = Some c
      else if same_digest row then
        local_copy_of (t_copies db') (lc_vault_file_id c) = Some (match_cloud_copy c)
      else
        local_copy_of (t_copies db') (lc_vault_file_id c) = Some c
        ∧ lc_cloud_only_version_id c = Some (sr_hold row)
        ∧ ∃ i, i ∈ t_incidents db' ∧ is_open (sr_hold row) INCIDENT_KIND_CLOUD_ONLY_CONFLICT i = true
  end.
Proof.
  intros Hnd Hown Hc. cbv zeta. assert (Hset := settled_copy db v path at_ c Hnd Hc).
  destruct (settle_row_of db v path c) as [row|] eqn:E; [|done].
  assert (Hrow : row ∈ settle_rows db v path) by (apply list_elem_of_omap; eauto).
  apply settle_row_of_some in E as (Ec & Hh & _ & Hver & _). subst c. unfold verdict in Hset.
  destruct (negb (recoverable _)) eqn:Hrec; [done|]. destruct (undecided _) eqn:Hun; [done|].
  destruct (same_digest row) eqn:Hsd; [done|]. split; [done|]. split; [done|].
  apply negb_false_iff in Hrec.
  destruct (settle_loop_opens at_ _ (db, {| sm_identical := 0; sm_conflicts := 0; sm_released := 0; sm_resolved := 0 |}) row Hrow Hrec Hun Hsd)
    as (i & Hi & Hio).
  exists i. split; [|done]. apply settle_incidents; [done|].
  assert (Hw : ∃ w, w ∈ t_versions db ∧ av_id w = sr_hold row).
  { destruct (sr_version row) as [w|]; [|done]. symmetry in Hver. apply fetchone_some in Hver as [? ?]. bsimpl. eauto. }
  destruct Hw as (w & Hw & Hwid).
  assert (Hfile : ci_vault_file_id i = lc_vault_file_id (sr_copy row)).
  { rewrite (ho_copies _ Hown (sr_copy row) w Hc Hw) by congruence. unfold is_open in Hio. bsimpl.
    eapply (settle_loop_owned at_ (t_versions db) (settle_rows db v path)); [| |exact Hi|done|done|congruence].
    - intros r Hr w' Hw' Hh'. apply list_elem_of_omap in Hr as (c0 & Hc0 & Hr).
      apply settle_row_of_some in Hr as (<- & Hr & _). apply (ho_copies _ Hown); [done|done|congruence].
    - apply Hown. }
  unfold conflict_is_over. replace (exists_row _ _) with true; [by rewrite !andb_false_r|]. symmetry.
  apply exists_row_true. exists (sr_copy row). split.
  - rewrite settle_copies in Hset. unfold settle_loop. rewrite settle_loop_copies. cbn [fst].
    by apply fetchone_some in Hset as [Hset _].
  - unfold is_open in Hio. bsimpl. unfold holds_version. rewrite Hfile, Hh. unfold undecided in Hun. bsimpl.
    rewrite !bool_decide_eq_true_2 by congruence. done.
Qed.

(** The owner's confirmation releases exactly the held copy.  It succeeds
    exactly when settlement leaves an open conflict of the Vault at the path (the
    second guard never fires); it then lifts the hold of the one copy the newest
    conflict names, leaves every other copy alone, and closes that conflict. *)
Theorem confirmation_releases_the_held_copy db v path actor at_ :
  let db1 := (settle_cloud_only_copies db v (Some path) at_).1 in
  let at_path i := ci_vault_id i = v ∧ ci_path i = path ∧ ci_kind i = INCIDENT_KIND_CLOUD_ONLY_CONFLICT
                   ∧ ci_status i = INCIDENT_STATUS_OPEN in
  match confirm_cloud_only_replacement db v path actor at_ with
  | Raise e => e = NoCloudOnlyConflict path ∧ ∀ i, i ∈ t_incidents db1 → ¬ at_path i
  | Ok (db', i) =>
      i ∈ t_incidents db1 ∧ at_path i
      ∧ (∃ c, c ∈ t_copies db1 ∧ lc_vault_file_id c = ci_vault_file_id i ∧ lc_presence c = Present
              ∧ lc_cloud_only_version_id c = Some (ci_archive_version_id i) ∧ release_hold c ∈ t_copies db')
      ∧ (∀ c, c ∈ t_copies db1 → c ∈ t_copies db' ∨ lc_vault_file_id c = ci_vault_file_id i)
      ∧ ∀ x, x ∈ t_incidents db' → ci_id x = ci_id i → ci_status x = INCIDENT_STATUS_RESOLVED
  end.
Proof.
  intros db1 at_path. unfold confirm_cloud_only_replacement. fold db1.
  destruct (latest ci_id _) as [i|] eqn:E.
  2:{ split; [done|]. intros i Hi (Hv & Hp & Hk & Hs). apply latest_none in E.
      apply (not_elem_of_nil i). rewrite <- E. apply elem_of_select. split; [done|]. by rewrite !bool_decide_eq_true_2. }
  apply latest_some in E as [(Hi & Hp)%elem_of_select _]. bsimpl.
  assert (Hheld : ∃ c, c ∈ t_copies db1
    ∧ holds_version (ci_vault_file_id i) (ci_archive_version_id i) c && (lc_presence c =b Present) = true).
  { apply exists_row_true. unfold db1, settle_cloud_only_copies in *.
    destruct (foldl _ _ _) as [db0 s]. cbn [fst] in *. apply elem_of_update_where in Hi as (i0 & Hi0 & ->).
    change (t_copies (set_incidents _ db0)) with (t_copies db0).
    destruct (conflict_is_over db0 v (Some path) i0) eqn:Eo; [by cbn in *|]. unfold conflict_is_over in Eo.
    rewrite !bool_decide_eq_true_2 in Eo by done. cbn in Eo. by apply negb_false_iff in Eo. }
  assert (Hex := Hheld). rewrite <- exists_row_true in Hex. rewrite Hex. cbn [negb raise_if mbind result_bind].
  split; [done|]. split; [done|]. split; [|split].
  - destruct Hheld as (c & Hc & Hq). exists c.
    assert (Hr : release_hold c ∈ update_where (fun c => holds_version (ci_vault_file_id i) (ci_archive_version_id i) c
                                                         && (lc_presence c =b Present)) release_hold (t_copies db1))
      by (apply elem_of_update_where; exists c; by rewrite Hq).
    unfold holds_version in Hq. bsimpl. done.
  - intros c Hc. destruct (decide (lc_vault_file_id c = ci_vault_file_id i)) as [|Hne]; [by right|]. left.
    apply elem_of_update_where. exists c. split; [done|]. unfold holds_version.
    by rewrite (bool_decide_eq_false_2 (lc_vault_file_id c = _)).
  - intros x Hx Hid. apply elem_of_update_where in Hx as (x0 & Hx0 & ->).
    destruct (ci_id x0 =b ci_id i) eqn:Ex; [done|]. bsimpl. done.
Qed.

(** ** Witnesses *)
Definition w_held (digest : string) : local_copy :=
  {| lc_vault_file_id := "f"; lc_presence := Present; lc_file_type := Regular; lc_size := Some 5;
     lc_mtime_ns := Some 1; lc_plaintext_sha256 := Some digest; lc_matched_archive_version_id := None;
     lc_cloud_only_version_id := Some "v1"; lc_last_seen_at := Some 1; lc_observed_at := 1;
     lc_content_observed_at := Some 1; lc_recovered_at := None |}.

Definition w_only_copy : archive_version :=
  {| av_id := "v1"; av_vault_file_id := "f"; av_vault_id := 1; av_version_number := 1;
     av_object_key := Some "p/a"; av_provider_version_id := Some "s3"; av_size := Some 5;
     av_storage_class := None; av_plaintext_sha256 := Some "aa"; av_origin := Upload;
     av_integrity := Verified; av_verified_at := Some 1; av_availability := Available;
     av_availability_checked_at := Some 1; av_restore_state := None;
     av_placement := new_placement 1; av_evidence := no_evidence |}.

Definition w_reappeared (digest : string) : catalog := set_versions [w_only_copy] (set_copies [w_held digest] w_marks).

Lemma incidents_told_once_witness :
  incidents_inv (settle_cloud_only_copies
                   (settle_cloud_only_copies (w_reappeared "bb") 1 None 5).1 1 None 6).1.
Proof.
  apply (incidents_told_once (w_reappeared "bb")).
  - split; [constructor|constructor|reflexivity].
  - eapply rtc_l; [apply step_settle|]. eapply rtc_l; [apply step_settle|]. apply rtc_refl.
Defined.

Lemma settlement_decides_witness :
  local_copy_of (t_copies (settle_cloud_only_copies (w_reappeared "bb") 1 None 5).1) "f" = Some (w_held "bb").
Proof.
  refine (proj1 (settlement_decides (w_reappeared "bb") 1 None 5 (w_held "bb") _ _ _)).
  - apply NoDup_singleton.
  - split.
    + intros c w Hc Hw _. apply list_elem_of_singleton in Hc as ->. apply list_elem_of_singleton in Hw as ->. reflexivity.
    + intros i Hi. by apply not_elem_of_nil in Hi.
  - by left.
Defined.
