(* ===== verification/CatalogVersions.v ===== *)
(** * CatalogVersions: Archive Versions, Local Copies and scans

    Models the operations of [ArchiveCatalog] (src/app/catalog.py) on Archive
    Versions (publication, reuse, snapshots, placement, verification, purge), on
    Local Copies that vanish or change, and on delete markers, with the two
    reconciliations at the end of a scan.  A uuid and the clock are arguments; a
    scan id is the instant the scan stamps on the rows it sees.  The lineage check of
    the snapshot cleanup, the snapshot format and the capture of remediation
    targets are the interfaces [Lineage], [SnapshotFormat] and [TargetCapture]. *)
From Stdlib Require Import Ascii.
From S2P Require Import Prelude Sql PyString VaultPaths Schema ProtectionStates DirectoryAggregates JobScheduler JobClaims DirtyMarks CloudDeletion OperationPolicies Catalog CatalogIncidents.

(** ** [int(value, 16)]: Python's grammar for integer literals

    ASCII text: surrounding space, a sign, a [0x] prefix that one underscore may
    follow, and digits with single underscores between them. *)
Definition is_hex (a : ascii) : bool :=
  let n := nat_of_ascii a in
  ((48 <=? n) && (n <=? 57) || (65 <=? n) && (n <=? 70) || (97 <=? n) && (n <=? 102))%nat.

(** [digit_next]: a digit must come next (after the start or an underscore). *)
Fixpoint hex_digits (digit_next : bool) (s : string) : bool :=
  match s with
  | EmptyString => negb digit_next
  | String a s => if is_hex a then hex_digits false s
                  else if digit_next then false
                  else (a =b "_"%char) && hex_digits true s
  end.

Definition drop_sign (s : string) : string :=
  match s with
  | String a rest => if (a =b "+"%char) || (a =b "-"%char) then rest else s
  | EmptyString => s
  end.

Definition drop_0x (s : string) : string :=
  match s with
  | String a (String b rest) =>
      if (a =b "0"%char) && ((b =b "x"%char) || (b =b "X"%char)) then
        match rest with
        | String c more => if c =b "_"%char then more else rest
        | EmptyString => rest
        end
      else s
  | _ => s
  end.

Definition is_int_base_16 (s : string) : bool := hex_digits true (drop_0x (drop_sign (py_strip s))).

(** The check every digest setter starts with. *)
Definition check_sha256 (digest : string) : result unit :=
  raise! ValueError "SHA-256 must contain 64 hexadecimal characters" when negb (String.length digest =? 64)%nat;
  raise_if (negb (is_int_base_16 digest)) (ValueError "invalid literal for int() with base 16").

(** ** Assignments on Archive Versions *)
Definition set_availability (a : availability) (at_ : timestamp) (v : archive_version) : archive_version :=
  {| av_id := av_id v; av_vault_file_id := av_vault_file_id v; av_vault_id := av_vault_id v;
     av_version_number := av_version_number v; av_object_key := av_object_key v;
     av_provider_version_id := av_provider_version_id v; av_size := av_size v;
     av_storage_class := av_storage_class v; av_plaintext_sha256 := av_plaintext_sha256 v;
     av_origin := av_origin v; av_integrity := av_integrity v; av_verified_at := av_verified_at v;
     av_availability := a; av_availability_checked_at := Some at_;
     av_restore_state := av_restore_state v; av_placement := av_placement v; av_evidence := av_evidence v |}.

Definition set_integrity (i : integrity) (digest : string) (at_ : timestamp) (v : archive_version) : archive_version :=
  {| av_id := av_id v; av_vault_file_id := av_vault_file_id v; av_vault_id := av_vault_id v;
     av_version_number := av_version_number v; av_object_key := av_object_key v;
     av_provider_version_id := av_provider_version_id v; av_size := av_size v;
     av_storage_class := av_storage_class v; av_plaintext_sha256 := Some digest;
     av_origin := av_origin v; av_integrity := i; av_verified_at := Some at_;
     av_availability := av_availability v; av_availability_checked_at := av_availability_checked_at v;
     av_restore_state := av_restore_state v; av_placement := av_placement v; av_evidence := av_evidence v |}.

(** The storage columns: class, provider version, restore state, placement. *)
Definition set_storage (provider_version_id storage_class restore_state : option string)
    (placement : version_placement) (v : archive_version) : archive_version :=
  {| av_id := av_id v; av_vault_file_id := av_vault_file_id v; av_vault_id := av_vault_id v;
     av_version_number := av_version_number v; av_object_key := av_object_key v;
     av_provider_version_id := provider_version_id; av_size := av_size v;
     av_storage_class := storage_class; av_plaintext_sha256 := av_plaintext_sha256 v;
     av_origin := av_origin v; av_integrity := av_integrity v; av_verified_at := av_verified_at v;
     av_availability := av_availability v; av_availability_checked_at := av_availability_checked_at v;
     av_restore_state := restore_state; av_placement := placement; av_evidence := av_evidence v |}.

Definition set_evidence (e : version_evidence) (v : archive_version) : archive_version :=
  {| av_id := av_id v; av_vault_file_id := av_vault_file_id v; av_vault_id := av_vault_id v;
     av_version_number := av_version_number v; av_object_key := av_object_key v;
     av_provider_version_id := av_provider_version_id v; av_size := av_size v;
     av_storage_class := av_storage_class v; av_plaintext_sha256 := av_plaintext_sha256 v;
     av_origin := av_origin v; av_integrity := av_integrity v; av_verified_at := av_verified_at v;
     av_availability := av_availability v; av_availability_checked_at := av_availability_checked_at v;
     av_restore_state := av_restore_state v; av_placement := av_placement v; av_evidence := e |}.

Definition update_version (id : string) (f : archive_version → archive_version) (db : catalog) : catalog :=
  set_versions (update_where (fun v => av_id v =b id) f (t_versions db)) db.

(** [SELECT vault_id, vault_file_id FROM archive_versions WHERE id=...]. *)
Definition version_owner (db : catalog) (id : string) : option (Z * string) :=
  (fun v => (av_vault_id v, av_vault_file_id v)) <$> fetchone (fun v => av_id v =b id) (t_versions db).

(** [if owned is not None: self._mark_file_aggregates_dirty(...)]. *)
Definition mark_owner (owned : option (Z * string)) (db : catalog) : catalog :=
  match owned with Some (v, f) => mark_file_id_dirty v (Some f) db | None => db end.

(** The shape most setters share: read the owner, update, mark. *)
Definition update_owned_version (id : string) (f : archive_version → archive_version) (db : catalog) : catalog :=
  mark_owner (version_owner db id) (update_version id f db).

Definition request_vault_rebuild (vault_id : Z) (db : catalog) : catalog :=
  if vault_id ∈b t_rebuilds db then db else set_rebuilds (t_rebuilds db ++ [vault_id]) db.

(** ** Publication *)
Record publication := {
  pb_vault_id : Z;
  pb_path : string;
  pb_object_key : string;
  pb_provider_version_id : string;
  pb_size : option Z;
  pb_storage_class : option string;
  pb_etag : option string;
  pb_uploaded_at : timestamp;
  pb_observed_at : timestamp;
  pb_scan_id : timestamp;
  pb_origin : version_origin;
  pb_vault_file_id : option string;
}.

Definition owner_has_path (db : catalog) (vault_id : Z) (file path : string) : bool :=
  exists_row (fun f => (vf_id f =b file) && (vf_vault_id f =b vault_id) && (vf_status f =b Active)
                       && exists_row (fun p => (fp_vault_file_id p =b vf_id f) && is_none (fp_valid_to p)
                                               && (fp_path p =b path)) (t_paths db))
    (t_files db).

Definition exact_version (db : catalog) (vault_id : Z) (key provider_version_id : string) : option archive_version :=
  fetchone (fun v => (av_vault_id v =b vault_id) && bool_decide (av_object_key v = Some key)
                     && bool_decide (av_provider_version_id v = Some provider_version_id)) (t_versions db).

(** The refresh of a version that is already recorded. *)
Definition refresh_version (rq : publication) (v : archive_version) : archive_version :=
  let source := if truthy (vp_storage_class_source (av_placement v))
                then or_default (vp_storage_class_source (av_placement v)) "" else "unknown" in
  let source := if truthy (pb_storage_class rq) && negb (bool_decide (pb_storage_class rq = av_storage_class v))
                   && (source <>b "manual") then "discovered" else source in
  let p := av_placement v in
  set_availability Available (pb_scan_id rq)
    (set_storage (av_provider_version_id v) (pb_storage_class rq) (av_restore_state v)
       {| vp_etag := pb_etag rq; vp_uploaded_at := vp_uploaded_at p; vp_discovered_at := vp_discovered_at p;
          vp_storage_class_source := Some source; vp_restore_expiry := vp_restore_expiry p;
          vp_restore_checked_at := vp_restore_checked_at p |} v).

Fixpoint list_max (l : list Z) : option Z :=
  match l with [] => None | x :: l => Some (match list_max l with Some m => Z.max x m | None => x end) end.
Fixpoint list_min (l : list Z) : option Z :=
  match l with [] => None | x :: l => Some (match list_min l with Some m => Z.min x m | None => x end) end.

Definition version_numbers (db : catalog) (file : string) : list Z :=
  map av_version_number (select (fun v => av_vault_file_id v =b file) (t_versions db)).

Definition has_keeper (db : catalog) (file : string) : bool :=
  exists_row (fun v => (av_vault_file_id v =b file) && (av_integrity v =b Verified)
                       && (av_availability v =b Available)) (t_versions db).

Definition next_version_number (db : catalog) (file : string) (origin : version_origin) : Z :=
  if (origin =b Discovered) && has_keeper db file
  then Z.min 0 (or_default (list_min (version_numbers db file)) 0) - 1
  else or_default (list_max (version_numbers db file)) 0 + 1.

Definition published_version (rq : publication) (uuid file : string) (number : Z) : archive_version :=
  {| av_id := uuid; av_vault_file_id := file; av_vault_id := pb_vault_id rq; av_version_number := number;
     av_object_key := Some (pb_object_key rq); av_provider_version_id := Some (pb_provider_version_id rq);
     av_size := pb_size rq; av_storage_class := pb_storage_class rq; av_plaintext_sha256 := None;
     av_origin := pb_origin rq; av_integrity := Unverified; av_verified_at := None;
     av_availability := Available; av_availability_checked_at := Some (pb_scan_id rq); av_restore_state := None;
     av_placement := {| vp_etag := pb_etag rq; vp_uploaded_at := pb_uploaded_at rq;
                        vp_discovered_at := pb_observed_at rq;
                        vp_storage_class_source :=
                          Some match pb_origin rq with Upload => "upload" | Discovered => "discovered" | Legacy => "unknown" end;
                        vp_restore_expiry := None; vp_restore_checked_at := None |};
     av_evidence := no_evidence |}.

Definition record_archive_version (db : catalog) (rq : publication) (file_uuid version_uuid : string)
  : result (catalog * string) :=
  raise! RuntimeError "Archive Version publication owner/path changed" when
    match pb_vault_file_id rq with
    | Some f => negb (owner_has_path db (pb_vault_id rq) f (pb_path rq))
    | None => false
    end;
  match exact_version db (pb_vault_id rq) (pb_object_key rq) (pb_provider_version_id rq) with
  | Some existing =>
      raise! RuntimeError "Exact provider identity belongs to another Vault File" when
        match pb_vault_file_id rq with Some f => av_vault_file_id existing <>b f | None => false end;
      let db1 := update_version (av_id existing) (refresh_version rq) db in
      let db2 := (resolve_archive_version_incidents db1 [av_id existing] (pb_scan_id rq)).1 in
      Ok (mark_path_dirty (pb_vault_id rq) (Some (pb_path rq)) db2, av_id existing)
  | None =>
      let '(db1, file) :=
        if truthy (pb_vault_file_id rq) then (db, or_default (pb_vault_file_id rq) "")
        else resolve_cloud_path_file db (pb_vault_id rq) (pb_path rq) (pb_observed_at rq) file_uuid in
      let number := next_version_number db1 file (pb_origin rq) in
      let db2 := set_versions (t_versions db1 ++ [published_version rq version_uuid file number]) db1 in
      Ok (mark_path_dirty (pb_vault_id rq) (Some (pb_path rq)) db2, version_uuid)
  end.

(** ** Reuse of an earlier upload *)

(** What the catalog relies on from [snapshot_cleanup._has_lineage]: it
    answers whether the application itself wrote a version, or refuses. *)
Class Lineage := {
  has_lineage : catalog → archive_version → string → option string → option string → result bool;
}.

(** [UploadSnapshot.from_json], reduced to the plaintext digest it returns. *)
Class SnapshotFormat := {
  snapshot_digest : string → result string;
}.

(** [upload_remediation_discovery.capture] for one version. *)
Class TargetCapture := {
  capture : catalog → timestamp → string → catalog;
}.

Definition not_restoring (v : archive_version) : bool :=
  is_none (av_restore_state v) || negb (bool_decide (av_restore_state v = Some "restoring")).

Section reuse.
Context `{Lineage}.

(** The verified version, when it is the current snapshot. *)
Definition reusable_verified (db : catalog) (file digest : string) : option archive_version :=
  latest av_version_number
    (select (fun v => (av_vault_file_id v =b file) && (av_integrity v =b Verified) && (av_availability v =b Available)
                      && bool_decide (av_plaintext_sha256 v = Some digest)
                      && bool_decide (Some (av_id v) = av_id <$> only_cloud_copy db (av_vault_file_id v))
                      && not_restoring v) (t_versions db)).

(** The unverified version an earlier upload Job of the same bytes left. *)
Definition reusable_unverified (db : catalog) (file digest : string) : option archive_version :=
  latest av_version_number
    (select (fun v => (av_vault_file_id v =b file) && (av_integrity v =b Unverified) && (av_availability v =b Available)
                      && not_restoring v
                      && exists_row (fun j => bool_decide (j_archive_version_id j = Some (av_id v))
                                              && (j_vault_file_id j =b av_vault_file_id v)
                                              && (j_vault_id j =b av_vault_id v) && (j_action j =b "upload")
                                              && bool_decide (ju_plaintext_sha256 (j_upload j) = Some digest))
                           (t_jobs db)) (t_versions db)).

Definition find_reusable_upload_version (db : catalog) (file plaintext_sha256 : string)
    (bucket provider : option string) : result (option archive_version) :=
  let digest := lower plaintext_sha256 in
  match reusable_verified db file digest with
  | Some v =>
      ours ← has_lineage db v file bucket provider;
      if ours : bool then Ok (Some v) else Ok (reusable_unverified db file digest)
  | None => Ok (reusable_unverified db file digest)
  end.
End reuse.

(** ** Jobs and their uploads *)
Definition set_job_upload (version : option string) (u : job_upload) (j : job) : job :=
  {| j_id := j_id j; j_vault_id := j_vault_id j; j_vault_file_id := j_vault_file_id j;
     j_archive_version_id := version; j_path := j_path j; j_action := j_action j;
     j_status := j_status j; j_origin := j_origin j; j_message := j_message j;
     j_message_key := j_message_key j; j_message_params := j_message_params j;
     j_requested_by := j_requested_by j; j_requested_at := j_requested_at j;
     j_updated_at := j_updated_at j; j_group_id := j_group_id j; j_group_path := j_group_path j;
     j_total_bytes := j_total_bytes j; j_transferred_bytes := j_transferred_bytes j;
     j_reason := j_reason j; j_confirmation_phrase := j_confirmation_phrase j;
     j_restore_tier := j_restore_tier j; j_restore_days := j_restore_days j;
     j_target_storage_class := j_target_storage_class j;
     j_upload_verification_requested := j_upload_verification_requested j;
     j_pending_until := j_pending_until j; j_retry_after := j_retry_after j;
     j_claim_token := j_claim_token j; j_claimed_at := j_claimed_at j;
     j_claim_expires_at := j_claim_expires_at j; j_upload := u |}.

Definition update_job (id : Z) (f : job → job) (db : catalog) : catalog :=
  set_jobs (update_where (fun j => j_id j =b id) f (t_jobs db)) db.

Definition link_job_version (job_id : Z) (version : string) (db : catalog) : catalog :=
  update_job job_id (fun j => set_job_upload (Some version) (j_upload j) j) db.

Definition set_upload_plaintext_digest (job_id : Z) (digest : string) (db : catalog) : result catalog :=
  _ ← check_sha256 digest;
  Ok (update_job job_id (fun j =>
        set_job_upload (j_archive_version_id j)
          {| ju_plaintext_sha256 := Some (lower digest); ju_snapshot := ju_snapshot (j_upload j);
             ju_reconcile_only := ju_reconcile_only (j_upload j); ju_retry_count := ju_retry_count (j_upload j) |} j) db).

Section snapshots.
Context `{SnapshotFormat} `{TargetCapture}.

Definition set_upload_snapshot (job_id : Z) (snapshot_json : string) (db : catalog) : result catalog :=
  digest ← snapshot_digest snapshot_json;
  raise! RuntimeError "Upload Snapshot is immutable for an admitted intent" when
    match fetchone (fun j => j_id j =b job_id) (t_jobs db) with
    | Some j => match ju_snapshot (j_upload j) with Some s => s <>b snapshot_json | None => false end
    | None => false
    end;
  Ok (update_job job_id (fun j =>
        set_job_upload (j_archive_version_id j)
          {| ju_plaintext_sha256 := Some digest; ju_snapshot := Some snapshot_json;
             ju_reconcile_only := ju_reconcile_only (j_upload j); ju_retry_count := ju_retry_count (j_upload j) |} j) db).

Definition pin_snapshot (snapshot_json requested : string) (v : archive_version) : archive_version :=
  let e := av_evidence v in
  set_evidence {| ve_upload_snapshot := Some snapshot_json; ve_verification_requested := Some requested;
                  ve_method := ve_method e; ve_fallback_reason := ve_fallback_reason e;
                  ve_egress_bytes := ve_egress_bytes e; ve_provider_checksums := ve_provider_checksums e |} v.

Definition set_version_upload_snapshot (id snapshot_json requested : string) (now : timestamp) (db : catalog)
  : result catalog :=
  _ ← snapshot_digest snapshot_json;
  match fetchone (fun v => av_id v =b id) (t_versions db) with
  | None => Raise (LookupError "Archive Version not found")
  | Some v =>
      let e := av_evidence v in
      raise! RuntimeError "Cannot reconstruct Upload Snapshot evidence for a verified Archive Version" when
        is_none (ve_upload_snapshot e) && (av_integrity v =b Verified);
      if is_some (ve_upload_snapshot e) then
        raise! RuntimeError "Archive Version Upload Snapshot is immutable" when
          negb (bool_decide ((ve_upload_snapshot e, ve_verification_requested e) = (Some snapshot_json, Some requested)));
        Ok db
      else Ok (capture (update_version id (pin_snapshot snapshot_json requested) db) now id)
  end.
End snapshots.

(** [provider_proof] is the JSON text of a non-empty proof. *)
Definition record_method (method : string) (fallback : option string) (egress : option Z) (proof : option string)
    (v : archive_version) : archive_version :=
  let e := av_evidence v in
  set_evidence {| ve_upload_snapshot := ve_upload_snapshot e; ve_verification_requested := ve_verification_requested e;
                  ve_method := Some method; ve_fallback_reason := fallback; ve_egress_bytes := egress;
                  ve_provider_checksums := match proof with Some p => Some p | None => ve_provider_checksums e end |} v.

Definition set_version_verification_method (id method : string) (fallback : option string) (egress : option Z)
    (proof : option string) (db : catalog) : catalog :=
  set_versions (update_where (fun v => (av_id v =b id) && (av_integrity v <>b Verified))
                  (record_method method fallback egress proof) (t_versions db)) db.

(** ** Restore state and placement *)
Definition update_restore_state (id : string) (state : option string) (expiry : option timestamp)
    (checked_at : timestamp) (storage_class : option string) (db : catalog) : catalog :=
  update_owned_version id (fun v =>
    let p := av_placement v in
    set_storage (av_provider_version_id v) (match storage_class with Some c => Some c | None => av_storage_class v end) state
      {| vp_etag := vp_etag p; vp_uploaded_at := vp_uploaded_at p; vp_discovered_at := vp_discovered_at p;
         vp_storage_class_source := vp_storage_class_source p; vp_restore_expiry := expiry;
         vp_restore_checked_at := Some checked_at |} v) db.

(** The unique index [archive_versions_object_version_uq] on the new identity. *)
Definition identity_taken (db : catalog) (id provider_version_id : string) : bool :=
  exists_row (fun v => (av_id v =b id)
    && exists_row (fun w => (av_id w <>b id) && (av_vault_id w =b av_vault_id v) && is_some (av_object_key w)
                            && bool_decide (av_object_key w = av_object_key v)
                            && bool_decide (av_provider_version_id w = Some provider_version_id)) (t_versions db))
    (t_versions db).

Definition place_version (provider_version_id storage_class : string) (etag : option string)
    (observed_at : timestamp) (source : string) (v : archive_version) : archive_version :=
  let p := av_placement v in
  set_availability Available observed_at
    (set_storage (Some provider_version_id) (Some storage_class) None
       {| vp_etag := match etag with Some e => Some e | None => vp_etag p end; vp_uploaded_at := vp_uploaded_at p;
          vp_discovered_at := vp_discovered_at p; vp_storage_class_source := Some source;
          vp_restore_expiry := None; vp_restore_checked_at := Some observed_at |} v).

Definition update_version_storage_placement (id provider_version_id storage_class : string) (etag : option string)
    (observed_at : timestamp) (source : string) (db : catalog) : result catalog :=
  raise! IntegrityError "archive_versions_object_version_uq" when identity_taken db id provider_version_id;
  Ok (update_owned_version id (place_version provider_version_id storage_class etag observed_at source) db).

Definition publish_storage_class_copy (job_id : Z) (id provider_version_id storage_class : string)
    (etag : option string) (observed_at : timestamp) (db : catalog) : result (catalog * string) :=
  raise! ValueError "A provider VersionId is required" when (provider_version_id =b "");
  raise! LookupError "Archive Version is no longer available" when
    negb (exists_row (fun v => av_id v =b id) (t_versions db));
  db1 ← update_version_storage_placement id provider_version_id storage_class etag observed_at "manual" db;
  Ok (link_job_version job_id id db1, id).

(** ** Verification *)
Definition mark_version_verified (id digest : string) (verified_at : timestamp) (db : catalog) : result catalog :=
  _ ← check_sha256 digest;
  Ok (update_owned_version id (set_integrity Verified (lower digest) verified_at) db).

Definition mark_version_mismatch (id digest : string) (checked_at : timestamp) (db : catalog) : result catalog :=
  _ ← check_sha256 digest;
  Ok (update_owned_version id (set_integrity Mismatch (lower digest) checked_at) db).

(** ** Purge *)
Definition has_active_upload (db : catalog) (file : string) : bool :=
  exists_row (fun j => (j_vault_file_id j =b file) && (j_action j =b "upload") && job_is_active j) (t_jobs db).

(** [(checked_at IS NULL OR checked_at<>scan) AND discovered_at<=started]. *)
Definition not_seen_by (scan_id scan_started_at : timestamp) (v : archive_version) : bool :=
  negb (bool_decide (av_availability_checked_at v = Some scan_id))
  && (vp_discovered_at (av_placement v) <=? scan_started_at).

Definition is_superseded (db : catalog) (file kept : string) (scan_id scan_started_at : timestamp)
    (v : archive_version) : bool :=
  (av_vault_file_id v =b file) && (av_id v <>b kept)
  && negb ((av_availability v =b AvMissing) || (av_availability v =b Purged))
  && not_seen_by scan_id scan_started_at v && negb (has_active_upload db (av_vault_file_id v)).

Definition mark_unlisted_snapshot_versions_superseded (kept : string) (scan_id scan_started_at : timestamp)
    (db : catalog) : catalog :=
  match version_owner db kept with
  | None => db
  | Some (v, f) =>
      mark_file_id_dirty v (Some f)
        (set_versions (update_where (is_superseded db f kept scan_id scan_started_at)
                         (set_availability Purged scan_id) (t_versions db)) db)
  end.

(** [SELECT DISTINCT vault_id, vault_file_id ... WHERE id IN (...)]. *)
Definition version_owners (db : catalog) (ids : list string) : list (Z * string) :=
  remove_dups (map (fun v => (av_vault_id v, av_vault_file_id v))
                 (select (fun v => av_id v ∈b ids) (t_versions db))).

Definition mark_versions_purged (version_ids : list string) (checked_at : timestamp) (db : catalog) : catalog :=
  let ids := List.filter (fun i => i <>b "") version_ids in
  if bool_decide (ids = []) then db
  else foldl (fun db o => mark_file_id_dirty o.1 (Some o.2) db)
         (set_versions (update_where (fun v => av_id v ∈b ids) (set_availability Purged checked_at) (t_versions db)) db)
         (version_owners db ids).

Definition clear_delete_markers_for_file (file : string) (db : catalog) : catalog :=
  set_markers (delete_where (fun m => dm_vault_file_id m =b file) (t_markers db)) db.

(** ** Local Copies *)
Definition set_presence (p : presence) (at_ : timestamp) (c : local_copy) : local_copy :=
  {| lc_vault_file_id := lc_vault_file_id c; lc_presence := p; lc_file_type := lc_file_type c;
     lc_size := lc_size c; lc_mtime_ns := lc_mtime_ns c; lc_plaintext_sha256 := lc_plaintext_sha256 c;
     lc_matched_archive_version_id := lc_matched_archive_version_id c;
     lc_cloud_only_version_id := lc_cloud_only_version_id c; lc_last_seen_at := lc_last_seen_at c;
     lc_observed_at := at_; lc_content_observed_at := lc_content_observed_at c;
     lc_recovered_at := lc_recovered_at c |}.

(** [SELECT vault_id FROM vault_files WHERE id=...]. *)
Definition mark_file_owner (file : string) (before db : catalog) : catalog :=
  match fetchone (fun f => vf_id f =b file) (t_files before) with
  | Some f => mark_file_id_dirty (vf_vault_id f) (Some file) db
  | None => db
  end.

Definition mark_local_copy_missing (file : string) (observed_at : timestamp) (db : catalog) : catalog :=
  mark_file_owner file db
    (set_copies (update_where (fun c => lc_vault_file_id c =b file) (set_presence Missing observed_at) (t_copies db)) db).

Definition replace_copy (db : catalog) (ft : file_type) (size mtime_ns : option Z) (observed_at : timestamp)
    (c : local_copy) : local_copy :=
  let presence := if ft =b Regular then Present else Unsupported in
  {| lc_vault_file_id := lc_vault_file_id c; lc_presence := presence; lc_file_type := ft; lc_size := size;
     lc_mtime_ns := mtime_ns; lc_plaintext_sha256 := None; lc_matched_archive_version_id := None;
     lc_cloud_only_version_id :=
       if presence =b Present then av_id <$> only_cloud_copy db (lc_vault_file_id c) else None;
     lc_last_seen_at := Some observed_at; lc_observed_at := observed_at;
     lc_content_observed_at := lc_content_observed_at c; lc_recovered_at := lc_recovered_at c |}.

Definition observe_replaced_local_copy (file : string) (ft : file_type) (size mtime_ns : option Z)
    (observed_at : timestamp) (db : catalog) : catalog :=
  mark_file_owner file db
    (set_copies (update_where (fun c => lc_vault_file_id c =b file) (replace_copy db ft size mtime_ns observed_at)
                   (t_copies db)) db).

Definition set_fingerprint (digest : string) (matched : option string) (c : local_copy) : local_copy :=
  {| lc_vault_file_id := lc_vault_file_id c; lc_presence := lc_presence c; lc_file_type := lc_file_type c;
     lc_size := lc_size c; lc_mtime_ns := lc_mtime_ns c; lc_plaintext_sha256 := Some digest;
     lc_matched_archive_version_id := matched; lc_cloud_only_version_id := lc_cloud_only_version_id c;
     lc_last_seen_at := lc_last_seen_at c; lc_observed_at := lc_observed_at c;
     lc_content_observed_at := lc_content_observed_at c; lc_recovered_at := lc_recovered_at c |}.

Definition set_local_fingerprint (vault_id : Z) (path digest : string) (matched : option string) (now : timestamp)
    (db : catalog) : result catalog :=
  _ ← check_sha256 digest;
  let db1 := match current_file db vault_id path with
             | Some f => set_copies (update_where (fun c => lc_vault_file_id c =b vf_id f)
                                       (set_fingerprint (lower digest) matched) (t_copies db)) db
             | None => db
             end in
  let db2 := (settle_cloud_only_copies db1 vault_id (Some path) now).1 in
  Ok (mark_path_dirty vault_id (Some path) db2).

(** ** Delete markers *)
Definition touch_marker (at_ : timestamp) (m : delete_marker) : delete_marker :=
  {| dm_id := dm_id m; dm_vault_file_id := dm_vault_file_id m; dm_vault_id := dm_vault_id m;
     dm_object_key := dm_object_key m; dm_provider_version_id := dm_provider_version_id m;
     dm_created_at := dm_created_at m; dm_discovered_at := at_ |}.

Definition record_delete_marker (db : catalog) (vault_id : Z) (path key provider_version_id : string)
    (created_at observed_at : timestamp) (file_uuid marker_uuid : string) : catalog * string :=
  let '(db1, file) := resolve_cloud_path_file db vault_id path observed_at file_uuid in
  match fetchone (fun m => (dm_vault_id m =b vault_id) && (dm_object_key m =b key)
                           && (dm_provider_version_id m =b provider_version_id)) (t_markers db1) with
  | Some m => (set_markers (update_where (fun x => dm_id x =b dm_id m) (touch_marker observed_at) (t_markers db1)) db1, dm_id m)
  | None =>
      (set_markers (t_markers db1 ++ [{| dm_id := marker_uuid; dm_vault_file_id := file; dm_vault_id := vault_id;
                                         dm_object_key := key; dm_provider_version_id := provider_version_id;
                                         dm_created_at := created_at; dm_discovered_at := observed_at |}]) db1,
       marker_uuid)
  end.

(** ** The end of a scan *)
Definition in_vault (db : catalog) (vault_id : Z) (file : string) : bool :=
  exists_row (fun f => (vf_id f =b file) && (vf_vault_id f =b vault_id)) (t_files db).

(** The condition both statements share. *)
Definition unseen_version (db : catalog) (vault_id : Z) (scan_id scan_started_at : timestamp) (v : archive_version) : bool :=
  in_vault db vault_id (av_vault_file_id v) && not_seen_by scan_id scan_started_at v
  && negb (has_active_upload db (av_vault_file_id v)).

Definition newly_missing (db : catalog) (vault_id : Z) (scan_id scan_started_at : timestamp) : list missing_row :=
  map (fun v => {| mr_id := av_id v; mr_vault_id := av_vault_id v; mr_vault_file_id := av_vault_file_id v;
                   mr_object_key := av_object_key v; mr_provider_version_id := av_provider_version_id v;
                   mr_path := fp_path <$> current_path_of (t_paths db) (av_vault_file_id v) |})
    (select (fun v => unseen_version db vault_id scan_id scan_started_at v
                      && negb ((av_availability v =b AvMissing) || (av_availability v =b Purged))) (t_versions db)).

Definition mark_unseen_archive_versions_missing (db : catalog) (vault_id : Z) (scan_id scan_started_at : timestamp)
  : catalog * list missing_row :=
  let rows := newly_missing db vault_id scan_id scan_started_at in
  let db1 := set_versions (update_where (fun v => unseen_version db vault_id scan_id scan_started_at v
                                                  && (av_availability v <>b Purged))
                             (set_availability AvMissing scan_id) (t_versions db)) db in
  (request_vault_rebuild vault_id db1, rows).

Definition unseen_copy (db : catalog) (vault_id : Z) (seen_at : timestamp) (scan_started_at : option timestamp)
    (c : local_copy) : bool :=
  in_vault db vault_id (lc_vault_file_id c)
  && ((lc_presence c =b Present) || (lc_presence c =b Unsupported))
  && negb (bool_decide (lc_last_seen_at c = Some seen_at))
  && match scan_started_at with Some s => lc_observed_at c <=? s | None => true end.

Definition mark_unseen_local_copies_missing (db : catalog) (vault_id : Z) (seen_at observed_at : timestamp)
    (scan_started_at : option timestamp) : catalog :=
  request_vault_rebuild vault_id
    (set_copies (update_where (unseen_copy db vault_id seen_at scan_started_at)
                   (set_presence Missing observed_at) (t_copies db)) db).

Definition under_path (db : catalog) (vault_id : Z) (path file : string) : bool :=
  exists_row (fun f => (vf_id f =b file) && (vf_vault_id f =b vault_id)
                       && exists_row (fun p => (fp_vault_file_id p =b vf_id f) && is_none (fp_valid_to p)
                                               && ((fp_path p =b path) || like (escape_like path +:+ "/%") (fp_path p)))
                            (t_paths db)) (t_files db).

Definition mark_local_path_missing (vault_id : Z) (path : string) (observed_at : timestamp) (db : catalog) : catalog :=
  let db1 := set_copies (update_where (fun c => under_path db vault_id path (lc_vault_file_id c))
                           (set_presence Missing observed_at) (t_copies db)) db in
  mark_directory_dirty vault_id (Some path) (mark_path_dirty vault_id (Some path) db1).

(** ** Well-formed versions: the constraints of [archive_versions] *)
Definition provider_identity (v : archive_version) : option (Z * string * string) :=
  k ← av_object_key v; p ← av_provider_version_id v; Some (av_vault_id v, k, p).

Record versions_wf (vs : list archive_version) : Prop := {
  vw_ids : NoDup (map av_id vs);
  vw_numbers : NoDup (map (fun v => (av_vault_file_id v, av_version_number v)) vs);
  vw_identity : NoDup (omap provider_identity vs);
  vw_provider : ∀ v, v ∈ vs → av_origin v = Legacy ∨ av_provider_version_id v ≠ None;
}.

(** The columns the constraints read. *)
Definition same_identity (v w : archive_version) : Prop :=
  av_id w = av_id v ∧ av_vault_file_id w = av_vault_file_id v ∧ av_vault_id w = av_vault_id v
  ∧ av_version_number w = av_version_number v ∧ av_object_key w = av_object_key v
  ∧ av_provider_version_id w = av_provider_version_id v ∧ av_origin w = av_origin v.

Lemma same_identity_key v w : same_identity v w → provider_identity w = provider_identity v.
Proof. unfold same_identity, provider_identity. intros (_ & _ & -> & _ & -> & -> & _). done. Qed.

Lemma omap_update {A B} (k : A → option B) p f l :
  (∀ x, k (f x) = k x) → omap k (update_where p f l) = omap k l.
Proof.
  intros Hk. unfold update_where. induction l as [|x l IH]; [done|]. cbn.
  replace (k (if p x then f x else x)) with (k x) by (by destruct (p x)). by rewrite IH.
Qed.

Lemma update_where_wf p f vs :
  (∀ v, same_identity v (f v)) → versions_wf vs → versions_wf (update_where p f vs).
Proof.
  intros Hf [Hi Hn Hk Hp]. split.
  - by rewrite update_where_column by apply Hf.
  - rewrite update_where_column; [done|]. intros v. by destruct (Hf v) as (_ & -> & _ & -> & _).
  - rewrite omap_update; [done|]. intros v. apply same_identity_key, Hf.
  - intros v (w & Hw & ->)%elem_of_update_where. destruct (Hf w) as (_ & _ & _ & _ & _ & Hpv & Ho).
    destruct (p w); [rewrite Hpv, Ho|]; auto.
Qed.

Lemma set_availability_same a at_ v : same_identity v (set_availability a at_ v).
Proof. by unfold same_identity. Qed.
Lemma set_integrity_same i d at_ v : same_identity v (set_integrity i d at_ v).
Proof. by unfold same_identity. Qed.
Lemma set_evidence_same e v : same_identity v (set_evidence e v).
Proof. by unfold same_identity. Qed.
Lemma set_storage_same c r p v : same_identity v (set_storage (av_provider_version_id v) c r p v).
Proof. by unfold same_identity. Qed.

#[local] Hint Resolve set_availability_same set_integrity_same set_evidence_same set_storage_same : versions.

Lemma mark_owner_same o db : same_but_dirty (mark_owner o db) db.
Proof. destruct o as [[v f]|]; [apply mark_file_same|done]. Qed.

Lemma update_owned_versions id f db :
  t_versions (update_owned_version id f db) = update_where (fun v => av_id v =b id) f (t_versions db).
Proof. unfold update_owned_version. by rewrite (same_versions _ _ (mark_owner_same _ _)). Qed.

Lemma list_max_spec l m : list_max l = Some m → ∀ x, x ∈ l → x ≤ m.
Proof.
  revert m; induction l as [|y l IH]; intros m; cbn; [done|]. intros [= <-] x [->|Hx]%elem_of_cons.
  - destruct (list_max l); lia.
  - destruct (list_max l) as [n|] eqn:E; [specialize (IH n eq_refl x Hx); lia|].
    destruct l; [by apply not_elem_of_nil in Hx|done].
Qed.

Lemma list_min_spec l m : list_min l = Some m → ∀ x, x ∈ l → m ≤ x.
Proof.
  revert m; induction l as [|y l IH]; intros m; cbn; [done|]. intros [= <-] x [->|Hx]%elem_of_cons.
  - destruct (list_min l); lia.
  - destruct (list_min l) as [n|] eqn:E; [specialize (IH n eq_refl x Hx); lia|].
    destruct l; [by apply not_elem_of_nil in Hx|done].
Qed.

Lemma elem_of_version_numbers db file n :
  n ∈ version_numbers db file ↔ ∃ v, v ∈ t_versions db ∧ av_vault_file_id v = file ∧ av_version_number v = n.
Proof.
  unfold version_numbers. rewrite list_elem_of_In, in_map_iff. setoid_rewrite <- list_elem_of_In.
  setoid_rewrite elem_of_select. setoid_rewrite bool_decide_eq_true. naive_solver.
Qed.

(** A new number lies above every number of the file, or below all of them. *)
Lemma next_number_outside db file origin n :
  n ∈ version_numbers db file →
  if (origin =b Discovered) && has_keeper db file
  then next_version_number db file origin < n ∧ next_version_number db file origin < 0
  else n < next_version_number db file origin.
Proof.
  intros Hn. unfold next_version_number. destruct (_ && _).
  - destruct (list_min _) as [m|] eqn:E; cbn; [assert (H := list_min_spec _ _ E _ Hn); lia|].
    destruct (version_numbers db file); [by apply not_elem_of_nil in Hn|done].
  - destruct (list_max _) as [m|] eqn:E; cbn; [assert (H := list_max_spec _ _ E _ Hn); lia|].
    destruct (version_numbers db file); [by apply not_elem_of_nil in Hn|done].
Qed.

Lemma next_number_fresh db file origin : next_version_number db file origin ∉ version_numbers db file.
Proof. intros H. assert (H1 := next_number_outside db file origin _ H). destruct (_ && _); lia. Qed.

Lemma resolve_versions_tables db ids at_ :
  let db' := (resolve_archive_version_incidents db ids at_).1 in
  t_versions db' = t_versions db ∧ t_copies db' = t_copies db ∧ t_files db' = t_files db ∧ t_paths db' = t_paths db
  ∧ t_jobs db' = t_jobs db.
Proof.
  unfold resolve_archive_version_incidents.
  apply (foldl_inv (fun st : catalog * Z => t_versions st.1 = t_versions db ∧ t_copies st.1 = t_copies db
    ∧ t_files st.1 = t_files db ∧ t_paths st.1 = t_paths db ∧ t_jobs st.1 = t_jobs db)); [|done].
  intros [db1 n] v H. exact H.
Qed.

Lemma resolve_cloud_versions db v path at_ uuid :
  t_versions (resolve_cloud_path_file db v path at_ uuid).1 = t_versions db.
Proof.
  unfold resolve_cloud_path_file, get_or_create_file.
  by destruct (current_file db v path), (historical_file db v path).
Qed.

(** The two ways a publication ends. *)
Lemma record_cases db rq fu vu db' id :
  record_archive_version db rq fu vu = Ok (db', id) →
  (∃ v, exact_version db (pb_vault_id rq) (pb_object_key rq) (pb_provider_version_id rq) = Some v ∧ id = av_id v
     ∧ (∀ f, pb_vault_file_id rq = Some f → av_vault_file_id v = f)
     ∧ t_versions db' = update_where (fun w => av_id w =b av_id v) (refresh_version rq) (t_versions db))
  ∨ (exact_version db (pb_vault_id rq) (pb_object_key rq) (pb_provider_version_id rq) = None ∧ id = vu
     ∧ ∃ file db1, t_versions db1 = t_versions db
         ∧ (∀ f, pb_vault_file_id rq = Some f → f ≠ "" → file = f)
         ∧ t_versions db' = t_versions db
             ++ [published_version rq vu file (next_version_number db1 file (pb_origin rq))]).
Proof.
  unfold record_archive_version. intros [_ H]%raise_if_bind_ok.
  destruct (exact_version db _ _ _) as [v|] eqn:E.
  - left. apply raise_if_bind_ok in H as [Hf H]. injection H as <- <-. exists v. split; [done|]. split; [done|]. split.
    + intros f Hpf. rewrite Hpf in Hf. by bsimpl.
    + by rewrite (same_versions _ _ (mark_path_same _ _ _)).
  - right. split; [done|].
    destruct (if truthy (pb_vault_file_id rq) then _ else _) as [db1 file] eqn:Er. injection H as <- <-.
    split; [done|]. exists file, db1. rewrite (same_versions _ _ (mark_path_same _ _ _)).
    assert (Hv : t_versions db1 = t_versions db).
    { destruct (truthy _); [congruence|]. by rewrite <- (resolve_cloud_versions db (pb_vault_id rq) (pb_path rq) (pb_observed_at rq) fu), Er. }
    split; [done|]. split; [|cbn; by rewrite Hv].
    intros f Hf Hne. rewrite Hf in Er. replace (truthy (Some f)) with true in Er by (by destruct f). by injection Er.
Qed.

Lemma exact_none db v key pv w :
  exact_version db v key pv = None → w ∈ t_versions db → provider_identity w ≠ Some (v, key, pv).
Proof.
  intros E Hw Hp. unfold exact_version in E. rewrite fetchone_none in E. specialize (E w Hw).
  unfold provider_identity in Hp. destruct (av_object_key w) as [k|]; [|done]. destruct (av_provider_version_id w) as [p|]; [|done].
  cbn in Hp. injection Hp as <- -> ->. by rewrite !bool_decide_eq_true_2 in E.
Qed.

Lemma record_wf db rq fu vu db' id :
  record_archive_version db rq fu vu = Ok (db', id) → vu ∉ map av_id (t_versions db) →
  versions_wf (t_versions db) → versions_wf (t_versions db').
Proof.
  intros [(v & _ & _ & _ & ->)|(Hx & _ & file & db1 & Hv1 & _ & ->)]%record_cases Hu Hwf.
  - apply update_where_wf; [|done]. intros w. by unfold same_identity.
  - destruct Hwf as [Hi Hn Hk Hp]. set (new := published_version _ _ _ _). split.
    + rewrite map_app. apply NoDup_app. split; [done|]. split; [|apply NoDup_singleton].
      by intros x Hx1 ->%list_elem_of_singleton.
    + rewrite map_app. apply NoDup_app. split; [done|]. split; [|apply NoDup_singleton].
      intros x Hx1 ->%list_elem_of_singleton. cbn in Hx1.
      apply (next_number_fresh db1 file (pb_origin rq)), elem_of_version_numbers. rewrite Hv1.
      apply list_elem_of_In, in_map_iff in Hx1 as (w & [= Hwf Hwn] & Hw%list_elem_of_In). eauto.
    + rewrite omap_app. apply NoDup_app. split; [done|]. split; [|apply NoDup_singleton].
      intros x Hx1 ->%list_elem_of_singleton. apply list_elem_of_omap in Hx1 as (w & Hw & Hpw).
      by apply (exact_none _ _ _ _ w Hx Hw).
    + intros w [Hw| ->%list_elem_of_singleton]%elem_of_app; [auto|]. by right.
Qed.

Lemma NoDup_omap_cons {A B} (k : A → option B) x l :
  NoDup (omap k l) → (∀ y, k x = Some y → y ∉ omap k l) → NoDup (omap k (x :: l)).
Proof. intros Hl Hx. cbn. destruct (k x) as [y|]; [|done]. apply NoDup_cons. auto. Qed.

(** Moving one version to an identity no other version has. *)
Lemma place_wf db id pv cls etag at_ src :
  identity_taken db id pv = false → versions_wf (t_versions db) →
  versions_wf (update_where (fun v => av_id v =b id) (place_version pv cls etag at_ src) (t_versions db)).
Proof.
  intros Ht [Hi Hn Hk Hp]. split.
  - by rewrite update_where_column.
  - by rewrite update_where_column.
  - assert (Hfree : ∀ v w, v ∈ t_versions db → w ∈ t_versions db → av_id v = id → av_id w ≠ id →
      ∀ x, provider_identity w = Some x → provider_identity (place_version pv cls etag at_ src v) ≠ Some x).
    { intros v w Hv Hw Hvi Hwi x Hx Hy. unfold identity_taken in Ht. rewrite exists_row_false in Ht. specialize (Ht v Hv).
      rewrite bool_decide_eq_true_2 in Ht by done. cbn in Ht. rewrite exists_row_false in Ht. specialize (Ht w Hw).
      unfold provider_identity in *. cbn in Hy. destruct (av_object_key v) as [k|]; [|done]. cbn in Hy. injection Hy as <-.
      destruct (av_object_key w) as [k'|]; [|done]. destruct (av_provider_version_id w) as [p'|]; [|done].
      cbn in Hx. injection Hx as Hxv -> ->. rewrite Hxv in Ht. rewrite bool_decide_eq_false_2 in Ht by done.
      by rewrite !bool_decide_eq_true_2 in Ht. }
    revert Hk Hfree Hi. clear. generalize (t_versions db) as vs. intros vs.
    induction vs as [|v vs IH]; intros Hk Hfree Hi; [constructor|]. cbn [map] in Hi. apply NoDup_cons in Hi as [Hv Hi].
    assert (Hk' : NoDup (omap provider_identity vs) ∧ ∀ x, provider_identity v = Some x → x ∉ omap provider_identity vs).
    { cbn in Hk. destruct (provider_identity v); [|by split]. apply NoDup_cons in Hk as [? ?]. split; [done|]. by intros x [= <-]. }
    destruct Hk' as [Hk1 Hk2].
    assert (IH' : NoDup (omap provider_identity (update_where (fun v => av_id v =b id) (place_version pv cls etag at_ src) vs))).
    { apply IH; [done| |done]. intros a b Ha Hb. apply Hfree; by right. }
    destruct (decide (av_id v = id)) as [Ev|Ev].
    + assert (Hsame : update_where (fun v => av_id v =b id) (place_version pv cls etag at_ src) vs = vs).
      { unfold update_where. rewrite <- (map_id vs) at 2. apply map_ext_in. intros w Hw.
        rewrite bool_decide_eq_false_2; [done|]. intros Ew. apply Hv. rewrite Ev, <- Ew. apply list_elem_of_In. by apply in_map. }
      unfold update_where at 1. cbn [map]. rewrite (bool_decide_eq_true_2 _ Ev). fold (update_where (fun v => av_id v =b id) (place_version pv cls etag at_ src) vs).
      rewrite Hsame. apply NoDup_omap_cons; [done|]. intros x Ex Hin. apply list_elem_of_omap in Hin as (w & Hw & Hx).
      refine (Hfree v w ltac:(left) ltac:(by right) Ev _ x Hx Ex). intros Ew. apply Hv. rewrite Ev, <- Ew.
      apply list_elem_of_In. apply in_map. by apply list_elem_of_In.
    + unfold update_where at 1. cbn [map]. rewrite (bool_decide_eq_false_2 _ Ev). fold (update_where (fun v => av_id v =b id) (place_version pv cls etag at_ src) vs).
      apply NoDup_omap_cons; [done|]. intros x Ex Hin. apply list_elem_of_omap in Hin as (w' & Hw' & Hx).
      apply elem_of_update_where in Hw' as (w & Hw & ->). destruct (decide (av_id w = id)) as [Ew|Ew].
      * rewrite (bool_decide_eq_true_2 _ Ew) in Hx. by refine (Hfree w v ltac:(by right) ltac:(left) Ew Ev x Ex Hx).
      * rewrite (bool_decide_eq_false_2 _ Ew) in Hx. apply (Hk2 x Ex), list_elem_of_omap. eauto.
  - intros w (v & Hv & ->)%elem_of_update_where. case_match; [by right|auto].
Qed.

Lemma rebuild_versions v db : t_versions (request_vault_rebuild v db) = t_versions db.
Proof. unfold request_vault_rebuild. by case_bool_decide. Qed.

Lemma foldl_mark_same l db :
  same_but_dirty (foldl (fun db (o : Z * string) => mark_file_id_dirty o.1 (Some o.2) db) db l) db.
Proof. apply foldl_same. intros; apply mark_file_same. Qed.

(** Capturing remediation targets leaves the versions alone. *)
Class TargetCaptureLaws `{TargetCapture} : Prop :=
  capture_versions db at_ id : t_versions (capture db at_ id) = t_versions db.

Section steps.
Context `{SnapshotFormat} `{TargetCaptureLaws}.

(** Every operation of the catalog that writes an Archive Version. *)
Inductive version_step : catalog → catalog → Prop :=
  | step_record db rq fu vu db' id :
      record_archive_version db rq fu vu = Ok (db', id) → vu ∉ map av_id (t_versions db) → version_step db db'
  | step_snapshot db id json requested now db' :
      set_version_upload_snapshot id json requested now db = Ok db' → version_step db db'
  | step_method db id method fallback egress proof :
      version_step db (set_version_verification_method id method fallback egress proof db)
  | step_restore db id state expiry at_ cls :
      version_step db (update_restore_state id state expiry at_ cls db)
  | step_place db id pv cls etag at_ src db' :
      update_version_storage_placement id pv cls etag at_ src db = Ok db' → version_step db db'
  | step_publish db job id pv cls etag at_ db' r :
      publish_storage_class_copy job id pv cls etag at_ db = Ok (db', r) → version_step db db'
  | step_verified db id digest at_ db' :
      mark_version_verified id digest at_ db = Ok db' → version_step db db'
  | step_mismatch db id digest at_ db' :
      mark_version_mismatch id digest at_ db = Ok db' → version_step db db'
  | step_superseded db kept scan start :
      version_step db (mark_unlisted_snapshot_versions_superseded kept scan start db)
  | step_purged db ids at_ :
      version_step db (mark_versions_purged ids at_ db)
  | step_unseen db v scan start :
      version_step db (mark_unseen_archive_versions_missing db v scan start).1.

Lemma version_step_wf db db' : version_step db db' → versions_wf (t_versions db) → versions_wf (t_versions db').
Proof.
  assert (Hplace : ∀ db id pv cls etag at_ src db', update_version_storage_placement id pv cls etag at_ src db = Ok db' →
    versions_wf (t_versions db) → versions_wf (t_versions db')).
  { intros ???????? [Ht [= <-]]%raise_if_bind_ok Hwf. rewrite update_owned_versions. by apply place_wf. }
  destruct 1 as [db rq fu vu db' id Hr Hu|db id json req now db' Hs|db id m f e p|db id s x a c|db id pv c e a s db' Hp
    |db j id pv c e a db' r Hp|db id d a db' Hv|db id d a db' Hv|db k s st|db ids a|db v s st]; intros Hwf.
  - by eapply record_wf.
  - unfold set_version_upload_snapshot in Hs. inv_ok. destruct (fetchone _ _); [|done]. inv_ok.
    destruct (is_some _); inv_ok; subst; [done|]. rewrite capture_versions. apply update_where_wf; auto with versions.
    intros w. apply set_evidence_same.
  - apply update_where_wf; [|done]. intros w. apply set_evidence_same.
  - unfold update_restore_state. rewrite update_owned_versions. apply update_where_wf; [|done]. intros w. apply set_storage_same.
  - by eapply Hplace.
  - unfold publish_storage_class_copy in Hp. inv_ok. subst. cbn. by eapply Hplace.
  - unfold mark_version_verified in Hv. inv_ok. subst db'. rewrite update_owned_versions. apply update_where_wf; auto with versions.
  - unfold mark_version_mismatch in Hv. inv_ok. subst db'. rewrite update_owned_versions. apply update_where_wf; auto with versions.
  - unfold mark_unlisted_snapshot_versions_superseded. destruct (version_owner db k) as [[? ?]|]; [|done].
    rewrite (same_versions _ _ (mark_file_same _ _ _)). apply update_where_wf; auto with versions.
  - unfold mark_versions_purged. case_bool_decide; [done|]. rewrite (same_versions _ _ (foldl_mark_same _ _)).
    apply update_where_wf; auto with versions.
  - unfold mark_unseen_archive_versions_missing. cbn [fst]. rewrite rebuild_versions. apply update_where_wf; auto with versions.
Qed.

End steps.

(** A row below all others is not the latest. *)
Lemma latest_snoc_low {A} (key : A → Z) (l : list A) (x : A) :
  l ≠ [] → (∀ y, y ∈ l → key x < key y) → latest key (l ++ [x]) = latest key l.
Proof.
  induction l as [|y l IH]; intros Hne Hlow; [done|]. cbn. destruct l as [|z l].
  - cbn. specialize (Hlow y ltac:(left)). destruct (Z.ltb_spec (key y) (key x)); [lia|done].
  - rewrite IH; [done..|]. intros w Hw. apply Hlow. by right.
Qed.

(** A discovery never outranks the verified keeper.  Recording an S3 version
    found by a scan on a file that has a verified and available version gives it a
    negative number below every other, so the file's current version and its only
    recoverable copy are the ones they were before; a version the catalog already
    knows is only refreshed. *)
Theorem discovery_never_outranks_keeper db rq fu vu db' id file :
  pb_origin rq = Discovered → pb_vault_file_id rq = Some file → file ≠ "" → has_keeper db file = true →
  record_archive_version db rq fu vu = Ok (db', id) →
  latest_version (t_versions db') file = latest_version (t_versions db) file
  ∧ only_cloud_copy db' file = only_cloud_copy db file
  ∨ ∃ v, exact_version db (pb_vault_id rq) (pb_object_key rq) (pb_provider_version_id rq) = Some v ∧ id = av_id v
      ∧ av_vault_file_id v = file
      ∧ t_versions db' = update_where (fun w => av_id w =b id) (refresh_version rq) (t_versions db).
Proof.
  intros Ho Hf Hne Hk [(v & Hx & -> & Hown & Hv)|(Hx & -> & f & db1 & Hv1 & Hfile & Hv)]%record_cases.
  - right. exists v. by auto.
  - left. specialize (Hfile file Hf Hne). subst f. set (new := published_version _ _ _ _) in Hv.
    assert (Hk1 : has_keeper db1 file = true) by (unfold has_keeper; by rewrite Hv1).
    assert (Hlow : ∀ v, v ∈ t_versions db → av_vault_file_id v = file → av_version_number new < av_version_number v).
    { intros v Hin Hvf. assert (H := next_number_outside db1 file Discovered (av_version_number v)).
      rewrite Hk1 in H. cbn [andb] in H. unfold new. rewrite Ho. apply H, elem_of_version_numbers. rewrite Hv1. eauto. }
    assert (Happ : ∀ p, exists_row p (t_versions db) = true → (∀ v, p v = true → av_vault_file_id v = file) →
      latest av_version_number (select p (t_versions db ++ [new])) = latest av_version_number (select p (t_versions db))).
    { intros p Hp Hpf. unfold select. rewrite List.filter_app. cbn. destruct (p new) eqn:En; [|by rewrite app_nil_r].
      apply exists_row_true in Hp as (k & Hkin & Hkp). assert (Hkf := Hpf k Hkp).
      apply latest_snoc_low.
      - intros Hnil. apply (not_elem_of_nil k). rewrite <- Hnil. by apply elem_of_select.
      - intros v [Hin Hpv]%elem_of_select. auto. }
    unfold has_keeper in Hk. apply exists_row_true in Hk as (k & Hkin & Hkp). bsimpl.
    split; unfold latest_version, only_cloud_copy; rewrite Hv; apply Happ.
    + apply exists_row_true. exists k. split; [done|]. rewrite bool_decide_eq_true_2 by done.
      rewrite bool_decide_eq_false_2; [done|]. congruence.
    + intros v Hp. by bsimpl.
    + apply exists_row_true. exists k. split; [done|]. by rewrite !bool_decide_eq_true_2.
    + intros v Hp. by bsimpl.
Qed.

(** ** Losses a scan finds *)
Lemma open_keys_app a b : open_keys (a ++ b) = open_keys a ++ open_keys b.
Proof. unfold open_keys. by rewrite List.filter_app, map_app. Qed.

Lemma remember_one_keys reason at_ st row k :
  k ∈ open_keys (t_incidents (remember_missing reason at_ st row).1)
  ↔ k ∈ open_keys (t_incidents st.1) ∨ k = (mr_id row, INCIDENT_KIND_MISSING).
Proof.
  destruct st as [db o]. unfold remember_missing. destruct (open_incident db _ _) as [x|] eqn:E; cbn [fst].
  - cbn [t_incidents set_incidents]. rewrite open_keys_touch. split; [by left|]. intros [?| ->]; [done|].
    apply fetchone_some in E as [Hx Hp]. unfold is_open in Hp. bsimpl.
    apply list_elem_of_In, in_map_iff. exists x. split; [unfold incident_key; congruence|].
    apply filter_In. rewrite <- list_elem_of_In. split; [done|]. unfold opened. by apply bool_decide_eq_true_2.
  - cbn [insert_incident fst t_incidents set_outbox set_incidents]. rewrite open_keys_app, elem_of_app.
    apply or_iff_compat_l, list_elem_of_singleton.
Qed.

Lemma remember_keys db rows reason at_ k :
  k ∈ open_keys (t_incidents (remember_missing_archives db rows reason at_).1)
  ↔ k ∈ open_keys (t_incidents db) ∨ ∃ row, row ∈ rows ∧ k = (mr_id row, INCIDENT_KIND_MISSING).
Proof.
  unfold remember_missing_archives.
  assert (Hgen : ∀ st : catalog * list incident, k ∈ open_keys (t_incidents (foldl (remember_missing reason at_) st rows).1)
    ↔ k ∈ open_keys (t_incidents st.1) ∨ ∃ row, row ∈ rows ∧ k = (mr_id row, INCIDENT_KIND_MISSING)); [|apply Hgen].
  induction rows as [|row rows IH]; intros st; cbn [foldl].
  - split; [by left|]. intros [?|(r & Hr & _)]; [done|by apply not_elem_of_nil in Hr].
  - rewrite IH, remember_one_keys. setoid_rewrite elem_of_cons. naive_solver.
Qed.

Lemma remember_versions db rows reason at_ :
  t_versions (remember_missing_archives db rows reason at_).1 = t_versions db.
Proof.
  unfold remember_missing_archives. apply (foldl_inv (fun st : catalog * list incident => t_versions st.1 = t_versions db)); [|done].
  intros [db1 o] row H. unfold remember_missing. by destruct (open_incident db1 _ _).
Qed.

(** What protects a version from a scan that did not list it. *)
Definition spared (db : catalog) (v : Z) (scan_id scan_started_at : timestamp) (w : archive_version) : Prop :=
  in_vault db v (av_vault_file_id w) = false ∨ av_availability_checked_at w = Some scan_id
  ∨ scan_started_at < vp_discovered_at (av_placement w) ∨ has_active_upload db (av_vault_file_id w) = true
  ∨ av_availability w = Purged.

Lemma spared_spec db v scan start w :
  spared db v scan start w ↔ unseen_version db v scan start w && (av_availability w <>b Purged) = false.
Proof.
  unfold spared, unseen_version, not_seen_by.
  destruct (in_vault db v _); [|by split; [|left]]. destruct (has_active_upload db _); cbn [negb].
  { rewrite andb_false_r. cbn. split; [done|]. intros _. do 3 right. by left. }
  rewrite !andb_true_r. cbn [andb].
  destruct (decide (av_availability_checked_at w = Some scan)) as [E|E].
  { rewrite (bool_decide_eq_true_2 _ E). split; [done|]. intros _. right. by left. }
  rewrite (bool_decide_eq_false_2 _ E). cbn [negb andb]. destruct (Z.leb_spec (vp_discovered_at (av_placement w)) start).
  - destruct (decide (av_availability w = Purged)) as [Ep|Ep].
    + rewrite (bool_decide_eq_true_2 _ Ep). split; [done|]. intros _. by do 4 right.
    + rewrite (bool_decide_eq_false_2 _ Ep). split; [|done]. intros [?|[?|[?|[?|?]]]]; try done. lia.
  - cbn. split; [done|]. intros _. do 2 right. left. lia.
Qed.

(** C35: a completed scan reports exactly the losses.  A version the listing did not
    contain becomes missing and, unless it was missing already, has an open
    incident; a version that the scan stamped, that was discovered after the scan
    started, whose file has an upload in progress, that was purged or that belongs
    to another Vault keeps its row and gets no new incident. *)
Theorem scan_reports_exactly_the_losses db v scan_id scan_started_at reason w :
  NoDup (map av_id (t_versions db)) → w ∈ t_versions db →
  let '(db1, rows) := mark_unseen_archive_versions_missing db v scan_id scan_started_at in
  let db2 := (remember_missing_archives db1 rows reason scan_id).1 in
  let key := (av_id w, INCIDENT_KIND_MISSING) in
  (spared db v scan_id scan_started_at w →
     w ∈ t_versions db2 ∧ (key ∈ open_keys (t_incidents db2) → key ∈ open_keys (t_incidents db)))
  ∧ (¬ spared db v scan_id scan_started_at w →
     set_availability AvMissing scan_id w ∈ t_versions db2
     ∧ (av_availability w ≠ AvMissing → key ∈ open_keys (t_incidents db2))).
Proof.
  intros Hnd Hw. unfold mark_unseen_archive_versions_missing. cbv zeta.
  rewrite remember_versions, rebuild_versions. cbn [t_versions set_versions].
  set (rows := newly_missing db v scan_id scan_started_at).
  assert (Hinc : ∀ l, t_incidents (request_vault_rebuild v (set_versions l db)) = t_incidents db)
    by (intros l; unfold request_vault_rebuild; by case_bool_decide).
  assert (Hrows : ∀ x, (∃ row, row ∈ rows ∧ x = (mr_id row, INCIDENT_KIND_MISSING)) ↔
    ∃ u, u ∈ t_versions db ∧ ¬ spared db v scan_id scan_started_at u ∧ av_availability u ≠ AvMissing
         ∧ x = (av_id u, INCIDENT_KIND_MISSING)).
  { intros x. unfold rows, newly_missing. setoid_rewrite list_elem_of_In. setoid_rewrite in_map_iff.
    setoid_rewrite <- list_elem_of_In. setoid_rewrite elem_of_select. split.
    - intros (row & (u & <- & Hu & Hp) & ->). exists u. apply andb_true_iff in Hp as [Hp1 Hp2].
      apply negb_true_iff, orb_false_iff in Hp2 as [Hm Hp2]. split; [done|].
      rewrite spared_spec, Hp1, Hp2. bsimpl. done.
    - intros (u & Hu & Hs & Hm & ->). eexists. split; [exists u; split; [done|]; split; [done|]|done].
      rewrite spared_spec, not_false_iff_true in Hs. apply andb_true_iff in Hs as [-> Hp].
      rewrite (bool_decide_eq_false_2 _ Hm). exact Hp. }
  rewrite !remember_keys, Hinc, Hrows. split.
  - intros Hs. split.
    + apply elem_of_update_where. exists w. split; [done|]. apply spared_spec in Hs. by rewrite Hs.
    + intros [|(u & Hu & Hus & _ & [= Hid])]; [done|]. exfalso. apply Hus.
      assert (u = w) as ->; [|done].
      assert (Hf : ∀ z, z ∈ t_versions db → av_id z = av_id w → fetchone (fun y => av_id y =b av_id w) (t_versions db) = Some z).
      { intros z Hz Ez. apply (fetchone_unique av_id); [done| |done|by apply bool_decide_eq_true_2].
        intros y Hy. bsimpl. congruence. }
      assert (H1 := Hf u Hu (eq_sym Hid)). assert (H2 := Hf w Hw eq_refl). congruence.
  - intros Hs. split.
    + apply elem_of_update_where. exists w. split; [done|]. rewrite spared_spec, not_false_iff_true in Hs. by rewrite Hs.
    + intros Hm. right. exists w. done.
Qed.

(** ** Reuse and path loss *)
Section reuse_safety.
Context `{Lineage}.

(** An upload is skipped only for bytes that are already archived.  The
    version reused is an available version of this very file that no restore is
    running on, and either it is the verified current snapshot with the digest
    asked for and the lineage check accepted it, or it is unverified and an earlier
    upload Job of the file recorded that digest for it. *)
Theorem reuse_needs_the_same_bytes db file digest bucket provider v :
  find_reusable_upload_version db file digest bucket provider = Ok (Some v) →
  v ∈ t_versions db ∧ av_vault_file_id v = file ∧ av_availability v = Available
  ∧ av_restore_state v ≠ Some "restoring"
  ∧ (av_integrity v = Verified ∧ av_plaintext_sha256 v = Some (lower digest)
     ∧ (av_id <$> only_cloud_copy db file = Some (av_id v))
     ∧ has_lineage db v file bucket provider = Ok true
     ∨ av_integrity v = Unverified
       ∧ ∃ j, j ∈ t_jobs db ∧ j_action j = "upload" ∧ j_vault_file_id j = file ∧ j_vault_id j = av_vault_id v
           ∧ j_archive_version_id j = Some (av_id v) ∧ ju_plaintext_sha256 (j_upload j) = Some (lower digest)).
Proof.
  assert (Hrs : ∀ w, not_restoring w = true → av_restore_state w ≠ Some "restoring").
  { intros w Hn E. unfold not_restoring in Hn. rewrite E in Hn. by rewrite bool_decide_eq_true_2 in Hn. }
  assert (Hun : ∀ w, reusable_unverified db file (lower digest) = Some w →
    w ∈ t_versions db ∧ av_vault_file_id w = file ∧ av_availability w = Available ∧ av_restore_state w ≠ Some "restoring"
    ∧ (av_integrity w = Unverified ∧ ∃ j, j ∈ t_jobs db ∧ j_action j = "upload" ∧ j_vault_file_id j = file
        ∧ j_vault_id j = av_vault_id w ∧ j_archive_version_id j = Some (av_id w)
        ∧ ju_plaintext_sha256 (j_upload j) = Some (lower digest))).
  { intros w [(Hw & Hp)%elem_of_select _]%latest_some. bsimpl. apply exists_row_true in Hp as (j & Hj & Hq). bsimpl.
    split; [done|]. split; [done|]. split; [done|]. split; [by apply Hrs|]. split; [done|]. exists j.
    repeat split; congruence. }
  unfold find_reusable_upload_version. destruct (reusable_verified _ _ _) as [w|] eqn:E.
  - rewrite bind_ok. intros ([] & Hl & Hr); [injection Hr as <-|injection Hr as Hr].
    + apply latest_some in E as [(Hw & Hp)%elem_of_select _]. bsimpl.
      split; [done|]. split; [done|]. split; [done|]. split; [by apply Hrs|]. left. repeat split; try done. congruence.
    + destruct (Hun v Hr) as (? & ? & ? & ? & ?). auto 10.
  - intros [= Hr]. destruct (Hun v Hr) as (? & ? & ? & ? & ?). auto 10.
Qed.
End reuse_safety.

(** A path that vanished takes its descendants along, and nothing else. *)
Lemma path_missing_scope v path at_ db c :
  c ∈ t_copies (mark_local_path_missing v path at_ db) →
  ∃ c0, c0 ∈ t_copies db
    ∧ c = if under_path db v path (lc_vault_file_id c0) then set_presence Missing at_ c0 else c0.
Proof.
  unfold mark_local_path_missing.
  set (db1 := set_copies _ db).
  assert (Hs : same_but_dirty (mark_directory_dirty v (Some path) (mark_path_dirty v (Some path) db1)) db1).
  { etrans; [|apply mark_path_same]. unfold mark_directory_dirty. case_bool_decide; [done|].
    etrans; [apply persist_all_same|apply persist_same]. }
  rewrite (same_copies _ _ Hs). intros (c0 & Hc0 & ->)%elem_of_update_where. eauto.
Qed.

Lemma under_path_spec db v path file :
  under_path db v path file = true ↔
  ∃ f p, f ∈ t_files db ∧ vf_id f = file ∧ vf_vault_id f = v ∧ p ∈ t_paths db ∧ fp_vault_file_id p = file
    ∧ fp_valid_to p = None ∧ (fp_path p = path ∨ starts_with (path +:+ "/") (fp_path p) = true).
Proof.
  unfold under_path. rewrite exists_row_true. setoid_rewrite andb_true_iff. setoid_rewrite andb_true_iff.
  setoid_rewrite exists_row_true. setoid_rewrite andb_true_iff. setoid_rewrite andb_true_iff.
  setoid_rewrite orb_true_iff. setoid_rewrite bool_decide_eq_true. setoid_rewrite is_none_true.
  setoid_rewrite like_escape_prefix. naive_solver.
Qed.

(** The digest check is weaker than its message: [int(value, 16)] also reads a
    sign, a prefix, underscores and surrounding space. *)
Definition signed_digest : string :=
  "-aaaaaaaaaaaaaaaaaaaaaaaaaaaaaaaaaaaaaaaaaaaaaaaaaaaaaaaaaaaaaaa".

Lemma sha256_check_admits_a_sign :
  check_sha256 signed_digest = Ok tt
  ∧ forallb is_hex (String.list_ascii_of_string signed_digest) = false.
Proof. split; vm_compute; reflexivity. Qed.

(** ** Witnesses *)
Definition w_discovered (key pv : string) (file : option string) : publication :=
  {| pb_vault_id := 1; pb_path := "a/b.txt"; pb_object_key := key; pb_provider_version_id := pv;
     pb_size := Some 3; pb_storage_class := None; pb_etag := None; pb_uploaded_at := 2; pb_observed_at := 3;
     pb_scan_id := 4; pb_origin := Discovered; pb_vault_file_id := file |}.

Definition w_versions : catalog := w_reappeared "bb".

Definition recorded (r : result (catalog * string)) : catalog := match r with Ok (db, _) => db | Raise _ => w_versions end.

#[local] Instance w_format : SnapshotFormat := {| snapshot_digest s := Ok s |}.
#[local] Instance w_capture : TargetCapture := {| capture db _ _ := db |}.
#[local] Instance w_capture_laws : TargetCaptureLaws.
Proof. intros db at_ id. reflexivity. Qed.
#[local] Instance w_lineage : Lineage := {| has_lineage _ _ _ _ _ := Ok true |}.

Lemma w_versions_wf : versions_wf (t_versions w_versions).
Proof.
  split; try apply NoDup_singleton. intros v ->%list_elem_of_singleton. right. discriminate.
Qed.


Lemma discovery_never_outranks_keeper_witness :
  latest_version (t_versions (recorded (record_archive_version w_versions (w_discovered "p/x" "s9" (Some "f")) "f2" "v9"))) "f"
  = Some w_only_copy.
Proof.
  destruct (discovery_never_outranks_keeper w_versions (w_discovered "p/x" "s9" (Some "f")) "f2" "v9"
              (recorded (record_archive_version w_versions (w_discovered "p/x" "s9" (Some "f")) "f2" "v9")) "v9" "f")
    as [[H _]|(v & H & _)]; try reflexivity; try discriminate.
Defined.

Lemma scan_reports_exactly_the_losses_witness :
  ("v1", INCIDENT_KIND_MISSING) ∈
    open_keys (t_incidents (remember_missing_archives
      (mark_unseen_archive_versions_missing w_versions 1 9 8).1
      (mark_unseen_archive_versions_missing w_versions 1 9 8).2 "unlisted" 9).1).
Proof.
  refine (proj2 (proj2 (scan_reports_exactly_the_losses w_versions 1 9 8 "unlisted" w_only_copy _ _) _) _).
  - apply NoDup_singleton.
  - by left.
  - rewrite spared_spec. vm_compute. discriminate.
  - discriminate.
Defined.

Lemma reuse_needs_the_same_bytes_witness :
  find_reusable_upload_version w_versions "f" "AA" None None = Ok (Some w_only_copy)
  ∧ av_availability w_only_copy = Available.
Proof.
  split; [reflexivity|].
  apply (reuse_needs_the_same_bytes w_versions "f" "AA" None None w_only_copy). reflexivity.
Defined.
