(* ===== verification/CatalogRename.v ===== *)
(** * CatalogRename: one identity across a rename

    Models [rename_file], [list_rename_candidates], the compare-and-swap chain
    of [confirm_file_rename] with its helpers, and [list_path_history] of
    [ArchiveCatalog] (src/app/catalog.py).  A failed compare-and-swap rolls back
    to the savepoint and raises, so it is a [Raise]; the row locks change nothing.
    The order of [list_path_history] among equal [valid_from] is the insertion
    order of the rows. *)
From S2P Require Import Prelude Sql PyString VaultPaths Schema ProtectionStates DirectoryAggregates JobScheduler JobClaims DirtyMarks CloudDeletion OperationPolicies Catalog CatalogBatch CatalogVersions.

Definition AUTO_RENAME_WINDOW : Z := seconds 3600.

Definition within_rename_window (a b : timestamp) : bool := Z.abs (a - b) <=? AUTO_RENAME_WINDOW.

(** ** Paths *)
Definition close_path (at_ : timestamp) (p : file_path) : file_path :=
  {| fp_vault_file_id := fp_vault_file_id p; fp_vault_id := fp_vault_id p; fp_path := fp_path p;
     fp_valid_from := fp_valid_from p; fp_valid_to := Some at_ |}.

Definition new_path_row (file : string) (vault_id : Z) (path : string) (at_ : timestamp) : file_path :=
  {| fp_vault_file_id := file; fp_vault_id := vault_id; fp_path := path; fp_valid_from := at_; fp_valid_to := None |}.

(** The current path row of a file in its own Vault. *)
Definition current_row (db : catalog) (vault_id : Z) (file : string) : option file_path :=
  fetchone (fun p => (fp_vault_file_id p =b file) && (fp_vault_id p =b vault_id) && is_current p) (t_paths db).

Definition active_file (db : catalog) (vault_id : Z) (file : string) : option vault_file :=
  fetchone (fun f => (vf_id f =b file) && (vf_vault_id f =b vault_id) && (vf_status f =b Active)) (t_files db).

(** [file_paths_one_current_path_uq] refuses a path that is taken. *)
Definition rename_file (db : catalog) (file new_path : string) (changed_at : timestamp) (vault_id : Z) : result catalog :=
  match f ← active_file db vault_id file; current_row db vault_id (vf_id f) with
  | None => Raise VaultFileNotFound
  | Some p =>
      if fp_path p =b new_path then Ok db
      else
        let db1 := mark_path_dirty vault_id (Some new_path) (mark_path_dirty vault_id (Some (fp_path p)) db) in
        let closed := update_where (fun p => (fp_vault_file_id p =b file) && (fp_vault_id p =b vault_id) && is_current p)
                        (close_path changed_at) (t_paths db1) in
        raise! IntegrityError "file_paths_one_current_path_uq" when
          exists_row (fun p => (fp_vault_id p =b vault_id) && (fp_path p =b new_path) && is_current p) closed;
        Ok (set_paths (closed ++ [new_path_row file vault_id new_path changed_at]) db1)
  end.

Definition list_path_history (db : catalog) (file : string) (vault_id : Z) : list file_path :=
  sort_by (fun a b => fp_valid_from a <=? fp_valid_from b)
    (select (fun p => (fp_vault_file_id p =b file)
                      && exists_row (fun f => (vf_id f =b file) && (fp_vault_id p =b vf_vault_id f)
                                              && (vf_vault_id f =b vault_id)) (t_files db)) (t_paths db)).

(** ** Candidates *)
Record rename_row := {
  rr_file : string;
  rr_path : string;
  rr_present : bool;   (* 'present' rather than 'missing' *)
  rr_observed_at : timestamp;
  rr_digest : string;  (* in lower case *)
  rr_has_archive : bool;
  rr_has_pending_job : bool;
}.

Definition rename_row_of (db : catalog) (vault_id : Z) (digest : option string) (f : vault_file) : option rename_row :=
  if negb ((vf_vault_id f =b vault_id) && (vf_status f =b Active)) then None
  else
    p ← current_row db (vf_vault_id f) (vf_id f);
    c ← local_copy_of (t_copies db) (vf_id f);
    d ← lc_plaintext_sha256 c;
    if (lc_file_type c =b Regular) && ((lc_presence c =b Missing) || (lc_presence c =b Present))
       && is_none (lc_cloud_only_version_id c)
       && match digest with Some x => lower d =b lower x | None => true end
    then Some {| rr_file := vf_id f; rr_path := fp_path p; rr_present := lc_presence c =b Present;
                 rr_observed_at := lc_observed_at c; rr_digest := lower d;
                 rr_has_archive := exists_row (fun v => av_vault_file_id v =b vf_id f) (t_versions db);
                 rr_has_pending_job := has_active_job db (vf_id f) |}
    else None.

(** [ORDER BY lower(fp.path)]. *)
Definition rename_rows (db : catalog) (vault_id : Z) (digest : option string) : list rename_row :=
  sort_by (fun a b => String.leb (lower (rr_path a)) (lower (rr_path b)))
    (omap (rename_row_of db vault_id digest) (t_files db)).

Record rename_candidate := {
  rc_missing : string;
  rc_missing_path : string;
  rc_new : string;
  rc_new_path : string;
  rc_digest : string;
}.

Definition with_digest (present : bool) (d : string) (rows : list rename_row) : list rename_row :=
  List.filter (fun r => Bool.eqb (rr_present r) present && (rr_digest r =b d)) rows.

(** The body of the loop over [missing_by_digest]. *)
Definition candidate_for (rows : list rename_row) (d : string) : option rename_candidate :=
  match with_digest false d rows, with_digest true d rows with
  | [missing], [present] =>
      if negb (within_rename_window (rr_observed_at missing) (rr_observed_at present)) then None
      else if rr_has_archive present || rr_has_pending_job present || rr_has_pending_job missing then None
      else Some {| rc_missing := rr_file missing; rc_missing_path := rr_path missing; rc_new := rr_file present;
                   rc_new_path := rr_path present; rc_digest := d |}
  | _, _ => None
  end.

Definition list_rename_candidates (db : catalog) (vault_id : Z) (digest : option string) : list rename_candidate :=
  let rows := rename_rows db vault_id digest in
  omap (candidate_for rows) (dict_fromkeys (map rr_digest (List.filter (fun r => negb (rr_present r)) rows))).

(** ** The confirmation *)

(** [_reserve_rename_confirmation]. *)
Definition reserve_rename_confirmation (db : catalog) (vault_id : Z) : result unit :=
  raise_if (negb (exists_row (fun v => (va_id v =b vault_id) && bool_decide (va_decommission_state v = Some "active"))
                    (t_vaults db))) VaultFileNotFound.

Record rename_snapshot := {
  rs_missing : vault_file;
  rs_missing_path : file_path;
  rs_missing_copy : local_copy;
  rs_provisional : vault_file;
  rs_provisional_path : file_path;
  rs_provisional_copy : local_copy;
}.

(** The conditions on either copy. *)
Definition rename_side (p : presence) (c : local_copy) : bool :=
  (lc_file_type c =b Regular) && (lc_presence c =b p) && is_some (lc_plaintext_sha256 c)
  && is_none (lc_cloud_only_version_id c).

Definition load_rename_candidate (db : catalog) (file new_path : string) (vault_id : Z) : option rename_snapshot :=
  m ← active_file db vault_id file;
  mp ← current_row db vault_id (vf_id m);
  mc ← local_copy_of (t_copies db) (vf_id m);
  if negb (rename_side Missing mc) then None
  else
    head (omap (fun f =>
      if negb ((vf_vault_id f =b vault_id) && (vf_status f =b Active) && (vf_id f <>b vf_id m)) then None
      else
        p ← current_row db vault_id (vf_id f);
        c ← local_copy_of (t_copies db) (vf_id f);
        if (fp_path p =b new_path) && rename_side Present c
           && bool_decide (lower <$> lc_plaintext_sha256 c = lower <$> lc_plaintext_sha256 mc)
        then Some {| rs_missing := m; rs_missing_path := mp; rs_missing_copy := mc; rs_provisional := f;
                     rs_provisional_path := p; rs_provisional_copy := c |}
        else None) (t_files db)).

(** [_local_copy_snapshot_conditions]: NULL matches NULL, digests fold case. *)
Definition copy_unchanged (snapshot c : local_copy) : bool :=
  (lc_presence c =b lc_presence snapshot) && (lc_file_type c =b lc_file_type snapshot)
  && bool_decide (lc_size c = lc_size snapshot) && bool_decide (lc_mtime_ns c = lc_mtime_ns snapshot)
  && bool_decide (lower <$> lc_plaintext_sha256 c = lower <$> lc_plaintext_sha256 snapshot)
  && bool_decide (lc_matched_archive_version_id c = lc_matched_archive_version_id snapshot)
  && bool_decide (lc_last_seen_at c = lc_last_seen_at snapshot) && (lc_observed_at c =b lc_observed_at snapshot).

(** [_file_snapshot_conditions] and [_path_snapshot_conditions]. *)
Definition file_unchanged (file : string) (vault_id : Z) (status : file_status) (retired_at : option timestamp)
    (f : vault_file) : bool :=
  (vf_id f =b file) && (vf_vault_id f =b vault_id) && (vf_status f =b status)
  && bool_decide (vf_retired_at f = retired_at).

Definition path_state : Type := string * timestamp * option timestamp.

Definition path_unchanged (file : string) (vault_id : Z) (state : path_state) (p : file_path) : bool :=
  let '(path, valid_from, valid_to) := state in
  (fp_vault_file_id p =b file) && (fp_vault_id p =b vault_id) && (fp_path p =b path)
  && (fp_valid_from p =b valid_from) && bool_decide (fp_valid_to p = valid_to).

(** [_rename_pair_predicate]. *)
Definition rename_pair (db : catalog) (vault_id : Z) (s : rename_snapshot) (missing_path : path_state)
    (status : file_status) (retired_at : option timestamp) (provisional_path : path_state) (copy_present : bool) : bool :=
  let mid := vf_id (rs_missing s) in
  let pid := vf_id (rs_provisional s) in
  exists_row (file_unchanged mid vault_id (vf_status (rs_missing s)) (vf_retired_at (rs_missing s))) (t_files db)
  && exists_row (path_unchanged mid vault_id missing_path) (t_paths db)
  && exists_row (fun c => (lc_vault_file_id c =b mid) && copy_unchanged (rs_missing_copy s) c) (t_copies db)
  && exists_row (file_unchanged pid vault_id status retired_at) (t_files db)
  && exists_row (path_unchanged pid vault_id provisional_path) (t_paths db)
  && negb (exists_row (fun v => av_vault_file_id v =b pid) (t_versions db))
  && if copy_present
     then exists_row (fun c => (lc_vault_file_id c =b pid) && copy_unchanged (rs_provisional_copy s) c) (t_copies db)
     else negb (exists_row (fun c => lc_vault_file_id c =b pid) (t_copies db)).

(** [_require_one_rename_mutation]: the statement must change one row. *)
Definition require_one (rowcount : Z) : result unit := raise_if (negb (rowcount =? 1)) VaultFileNotFound.

(** [UPDATE ... WHERE p AND (pair)], a condition that does not depend on the row. *)
Definition cas_update {A} (pair : bool) (p : A → bool) (f : A → A) (rows : list A) : result (list A) :=
  let p x := p x && pair in
  _ ← require_one (countZ p rows); Ok (update_where p f rows).

Definition cas_delete {A} (pair : bool) (p : A → bool) (rows : list A) : result (list A) :=
  let p x := p x && pair in
  _ ← require_one (countZ p rows); Ok (delete_where p rows).

Definition retire (at_ : timestamp) (f : vault_file) : vault_file :=
  {| vf_id := vf_id f; vf_vault_id := vf_vault_id f; vf_status := Retired; vf_created_at := vf_created_at f;
     vf_retired_at := Some at_ |}.

(** The observation the surviving identity takes over. *)
Definition take_over (snapshot : local_copy) (at_ : timestamp) (c : local_copy) : local_copy :=
  {| lc_vault_file_id := lc_vault_file_id c; lc_presence := lc_presence snapshot;
     lc_file_type := lc_file_type snapshot; lc_size := lc_size snapshot; lc_mtime_ns := lc_mtime_ns snapshot;
     lc_plaintext_sha256 := lc_plaintext_sha256 snapshot;
     lc_matched_archive_version_id := lc_matched_archive_version_id snapshot;
     lc_cloud_only_version_id := lc_cloud_only_version_id c;
     lc_last_seen_at := Some (or_default (lc_last_seen_at snapshot) at_); lc_observed_at := lc_observed_at snapshot;
     lc_content_observed_at := lc_content_observed_at c; lc_recovered_at := lc_recovered_at c |}.

Section confirmation.
Context (vault_id : Z) (changed_at : timestamp) (new_path : string) (s : rename_snapshot).

Definition state_of (p : file_path) (valid_to : option timestamp) : path_state := (fp_path p, fp_valid_from p, valid_to).

Definition is_path_row (file : string) (p q : file_path) : bool :=
  (fp_vault_file_id q =b file) && (fp_vault_id q =b vault_id) && (fp_path q =b fp_path p)
  && (fp_valid_from q =b fp_valid_from p) && is_current q.

(** The six statements, each guarded by the state the previous ones left; [conflict]
    is what [ON CONFLICT DO NOTHING] swallows. *)
Definition consume_candidate (db : catalog) : result catalog :=
  let mid := vf_id (rs_missing s) in
  let pid := vf_id (rs_provisional s) in
  let missing_current := state_of (rs_missing_path s) None in
  let missing_closed := state_of (rs_missing_path s) (Some changed_at) in
  let missing_renamed : path_state := (new_path, changed_at, None) in
  let provisional_current := state_of (rs_provisional_path s) None in
  let provisional_closed := state_of (rs_provisional_path s) (Some changed_at) in
  files ← cas_update (rename_pair db vault_id s missing_current Active (vf_retired_at (rs_provisional s)) provisional_current true)
            (fun f => (vf_id f =b pid) && (vf_vault_id f =b vault_id) && (vf_status f =b Active)) (retire changed_at) (t_files db);
  let db1 := set_files files db in
  paths ← cas_update (rename_pair db1 vault_id s missing_current Retired (Some changed_at) provisional_current true)
            (is_path_row pid (rs_provisional_path s)) (close_path changed_at) (t_paths db1);
  let db2 := set_paths paths db1 in
  copies ← cas_delete (rename_pair db2 vault_id s missing_current Retired (Some changed_at) provisional_closed true)
             (fun c => lc_vault_file_id c =b pid) (t_copies db2);
  let db3 := set_copies copies db2 in
  paths ← cas_update (rename_pair db3 vault_id s missing_current Retired (Some changed_at) provisional_closed false)
            (is_path_row mid (rs_missing_path s)) (close_path changed_at) (t_paths db3);
  let db4 := set_paths paths db3 in
  let free := negb (exists_row (fun p => (fp_vault_id p =b vault_id) && (fp_path p =b new_path) && is_current p) (t_paths db4)) in
  let conflict := exists_row (fun p => (fp_vault_file_id p =b mid) && is_current p) (t_paths db4) in
  _ ← require_one (if rename_pair db4 vault_id s missing_closed Retired (Some changed_at) provisional_closed false && free
                      && negb conflict then 1 else 0);
  let db5 := set_paths (t_paths db4 ++ [new_path_row mid vault_id new_path changed_at]) db4 in
  copies ← cas_update (rename_pair db5 vault_id s missing_renamed Retired (Some changed_at) provisional_closed false)
             (fun c => lc_vault_file_id c =b mid) (take_over (rs_provisional_copy s) changed_at) (t_copies db5);
  Ok (invalidate_for_confirmed_rename vault_id (Some (fp_path (rs_missing_path s)))
        (Some (fp_path (rs_provisional_path s))) (Some new_path) (set_copies copies db5)).
End confirmation.

Definition is_candidate (file new_path : string) (candidates : list rename_candidate) : bool :=
  existsb (fun c => (rc_missing c =b file) && (rc_new_path c =b new_path)) candidates.

Definition confirm_file_rename (db : catalog) (file new_path : string) (changed_at : timestamp) (vault_id : Z)
  : result (catalog * string) :=
  _ ← reserve_rename_confirmation db vault_id;
  match load_rename_candidate db file new_path vault_id with
  | None => Raise VaultFileNotFound
  | Some s =>
      raise! VaultFileNotFound when
        negb (is_candidate file new_path (list_rename_candidates db vault_id (lc_plaintext_sha256 (rs_missing_copy s))));
      db' ← consume_candidate vault_id changed_at new_path s db;
      Ok (db', file)
  end.

(** ** One row per statement *)
Lemma count_one {A K} (k : A → K) (c p : A → bool) l x :
  NoDup (map k (List.filter c l)) → x ∈ l → p x = true → (∀ y, p y = true → c y = true ∧ k y = k x) → countZ p l = 1.
Proof.
  intros Hnd Hx Hp Hall. rewrite countZ_length. enough (H : List.filter p l = [x]) by (by rewrite H).
  apply list_elem_of_split in Hx as (l1 & l2 & ->). rewrite List.filter_app in *. cbn in *.
  destruct (Hall x Hp) as [Hcx _]. rewrite Hcx in Hnd. rewrite Hp. rewrite map_app in Hnd. cbn in Hnd.
  apply NoDup_app in Hnd as (_ & Hdis & Hnd2). apply NoDup_cons in Hnd2 as [Hn2 _].
  rewrite (filter_none p l1), (filter_none p l2); [done| |].
  - intros y Hy. destruct (p y) eqn:E; [|done]. exfalso. destruct (Hall y E) as [Hcy Hky]. apply Hn2. rewrite <- Hky.
    apply list_elem_of_In, in_map, filter_In. by rewrite <- list_elem_of_In.
  - intros y Hy. destruct (p y) eqn:E; [|done]. exfalso. destruct (Hall y E) as [Hcy Hky].
    apply (Hdis (k y)); [|rewrite Hky; left]. apply list_elem_of_In, in_map, filter_In. by rewrite <- list_elem_of_In.
Qed.

Lemma and_true_ext {A} (p : A → bool) b : b = true → ∀ x, p x && b = p x.
Proof. intros ->. intros x. apply andb_true_r. Qed.

Lemma cas_update_ok {A} pair (p : A → bool) f rows :
  pair = true → countZ p rows = 1 → cas_update pair p f rows = Ok (update_where p f rows).
Proof.
  intros Hb Hc. unfold cas_update, require_one. assert (He := and_true_ext p pair Hb).
  replace (countZ (fun x => p x && pair) rows) with 1.
  - cbn. f_equal. unfold update_where. apply map_ext. intros x. by rewrite He.
  - rewrite <- Hc. unfold countZ. f_equal. apply map_ext. intros x. by rewrite He.
Qed.

Lemma cas_delete_ok {A} pair (p : A → bool) (rows : list A) :
  pair = true → countZ p rows = 1 → cas_delete pair p rows = Ok (delete_where p rows).
Proof.
  intros Hb Hc. unfold cas_delete, require_one. assert (He := and_true_ext p pair Hb).
  replace (countZ (fun x => p x && pair) rows) with 1.
  - cbn. f_equal. unfold delete_where. apply filter_ext. intros x. by rewrite He.
  - rewrite <- Hc. unfold countZ. f_equal. apply map_ext. intros x. by rewrite He.
Qed.

Lemma update_where_in {A} (p : A → bool) f l x : x ∈ l → p x = true → f x ∈ update_where p f l.
Proof. intros Hx Hp. apply elem_of_update_where. exists x. by rewrite Hp. Qed.

Lemma update_where_notin {A} (p : A → bool) f l x : x ∈ l → p x = false → x ∈ update_where p f l.
Proof. intros Hx Hp. apply elem_of_update_where. exists x. by rewrite Hp. Qed.

Lemma exists_row_in {A} (p : A → bool) l x : x ∈ l → p x = true → exists_row p l = true.
Proof. intros ? ?. apply exists_row_true. eauto. Qed.

(** ** The snapshot *)
Record snapshot_ok (db : catalog) (v : Z) (file new_path : string) (s : rename_snapshot) : Prop := {
  so_m : rs_missing s ∈ t_files db; so_mid : vf_id (rs_missing s) = file;
  so_mv : vf_vault_id (rs_missing s) = v; so_ms : vf_status (rs_missing s) = Active;
  so_p : rs_provisional s ∈ t_files db; so_pne : vf_id (rs_provisional s) ≠ file;
  so_pv : vf_vault_id (rs_provisional s) = v; so_ps : vf_status (rs_provisional s) = Active;
  so_mp : rs_missing_path s ∈ t_paths db; so_mpf : fp_vault_file_id (rs_missing_path s) = file;
  so_mpv : fp_vault_id (rs_missing_path s) = v; so_mpc : fp_valid_to (rs_missing_path s) = None;
  so_pp : rs_provisional_path s ∈ t_paths db; so_ppf : fp_vault_file_id (rs_provisional_path s) = vf_id (rs_provisional s);
  so_ppv : fp_vault_id (rs_provisional_path s) = v; so_ppc : fp_valid_to (rs_provisional_path s) = None;
  so_ppp : fp_path (rs_provisional_path s) = new_path;
  so_mc : rs_missing_copy s ∈ t_copies db; so_mcf : lc_vault_file_id (rs_missing_copy s) = file;
  so_mside : rename_side Missing (rs_missing_copy s) = true;
  so_pc : rs_provisional_copy s ∈ t_copies db; so_pcf : lc_vault_file_id (rs_provisional_copy s) = vf_id (rs_provisional s);
  so_pside : rename_side Present (rs_provisional_copy s) = true;
  so_digest : lower <$> lc_plaintext_sha256 (rs_provisional_copy s) = lower <$> lc_plaintext_sha256 (rs_missing_copy s);
}.

Lemma current_row_some db v file p :
  current_row db v file = Some p →
  p ∈ t_paths db ∧ fp_vault_file_id p = file ∧ fp_vault_id p = v ∧ fp_valid_to p = None.
Proof. intros [Hp H]%fetchone_some. bsimpl. unfold is_current in *. by rewrite is_none_true in *. Qed.

Lemma local_copy_some copies file c :
  local_copy_of copies file = Some c → c ∈ copies ∧ lc_vault_file_id c = file.
Proof. intros [Hc H]%fetchone_some. by bsimpl. Qed.

Lemma load_ok db v file new_path s : load_rename_candidate db file new_path v = Some s → snapshot_ok db v file new_path s.
Proof.
  unfold load_rename_candidate. rewrite bind_Some. intros (m & Hm & H). apply bind_Some in H as (mp & Hmp & H).
  apply bind_Some in H as (mc & Hmc & H). destruct (rename_side Missing mc) eqn:Hside; [|done]. cbn [negb] in H.
  apply head_Some_elem_of in H. apply list_elem_of_omap in H as (f & Hf & H).
  destruct (negb _) eqn:Ef; [done|]. apply negb_false_iff in Ef. bsimpl. apply bind_Some in H as (p & Hp & H).
  apply bind_Some in H as (c & Hc & H). destruct (_ && _) eqn:E; [|done]. injection H as <-. bsimpl.
  apply fetchone_some in Hm as [Hm E2]. bsimpl.
  apply current_row_some in Hmp as (? & ? & ? & ?). apply current_row_some in Hp as (? & ? & ? & ?).
  apply local_copy_some in Hmc as [? ?]. apply local_copy_some in Hc as [? ?]. subst.
  by split.
Qed.

Lemma copy_unchanged_refl c : copy_unchanged c c = true.
Proof. unfold copy_unchanged. by rewrite !bool_decide_eq_true_2. Qed.

(** The state the predicate asks for. *)
Lemma rename_pair_intro db v s mpath status retired ppath copy_present m f mq pq :
  m ∈ t_files db → vf_id m = vf_id (rs_missing s) → vf_vault_id m = v → vf_status m = vf_status (rs_missing s) →
  vf_retired_at m = vf_retired_at (rs_missing s) →
  f ∈ t_files db → vf_id f = vf_id (rs_provisional s) → vf_vault_id f = v → vf_status f = status → vf_retired_at f = retired →
  mq ∈ t_paths db → path_unchanged (vf_id (rs_missing s)) v mpath mq = true →
  pq ∈ t_paths db → path_unchanged (vf_id (rs_provisional s)) v ppath pq = true →
  rs_missing_copy s ∈ t_copies db → lc_vault_file_id (rs_missing_copy s) = vf_id (rs_missing s) →
  (∀ w, w ∈ t_versions db → av_vault_file_id w ≠ vf_id (rs_provisional s)) →
  (if copy_present : bool
   then rs_provisional_copy s ∈ t_copies db ∧ lc_vault_file_id (rs_provisional_copy s) = vf_id (rs_provisional s)
   else ∀ c, c ∈ t_copies db → lc_vault_file_id c ≠ vf_id (rs_provisional s)) →
  rename_pair db v s mpath status retired ppath copy_present = true.
Proof.
  intros Hm Hmi Hmv Hms Hmr Hf Hfi Hfv Hfs Hfr Hmq Hmqp Hpq Hpqp Hmc Hmcf Hav Hcp. unfold rename_pair.
  rewrite (exists_row_in _ _ m Hm) by (unfold file_unchanged; by rewrite !bool_decide_eq_true_2).
  rewrite (exists_row_in _ _ mq Hmq Hmqp).
  rewrite (exists_row_in _ _ (rs_missing_copy s) Hmc) by (by rewrite bool_decide_eq_true_2, copy_unchanged_refl).
  rewrite (exists_row_in _ _ f Hf) by (unfold file_unchanged; by rewrite !bool_decide_eq_true_2).
  rewrite (exists_row_in _ _ pq Hpq Hpqp). cbn [andb].
  rewrite (proj2 (exists_row_false _ _)) by (intros w Hw; apply bool_decide_eq_false_2; auto). cbn [negb andb].
  destruct copy_present.
  - destruct Hcp as [Hc Hcf]. apply (exists_row_in _ _ (rs_provisional_copy s) Hc).
    by rewrite bool_decide_eq_true_2, copy_unchanged_refl.
  - rewrite (proj2 (exists_row_false _ _)); [done|]. intros c Hc. apply bool_decide_eq_false_2. auto.
Qed.

Section consumption.
Context (db : catalog) (v : Z) (at_ : timestamp) (file new_path : string) (s : rename_snapshot).
Context (Hwf : wf_paths db) (Hcopies : NoDup (map lc_vault_file_id (t_copies db))).
Context (Hok : snapshot_ok db v file new_path s).
Context (Hnew : ∀ w, w ∈ t_versions db → av_vault_file_id w ≠ vf_id (rs_provisional s)).

Definition pid : string := vf_id (rs_provisional s).

Definition files_after : list vault_file :=
  update_where (fun f => (vf_id f =b pid) && (vf_vault_id f =b v) && (vf_status f =b Active)) (retire at_) (t_files db).
Definition paths_provisional : list file_path :=
  update_where (is_path_row v pid (rs_provisional_path s)) (close_path at_) (t_paths db).
Definition paths_closed : list file_path :=
  update_where (is_path_row v (vf_id (rs_missing s)) (rs_missing_path s)) (close_path at_) paths_provisional.
Definition paths_after : list file_path :=
  paths_closed ++ [new_path_row (vf_id (rs_missing s)) v new_path at_].
Definition copies_consumed : list local_copy := delete_where (fun c => lc_vault_file_id c =b pid) (t_copies db).
Definition copies_after : list local_copy :=
  update_where (fun c => lc_vault_file_id c =b vf_id (rs_missing s)) (take_over (rs_provisional_copy s) at_) copies_consumed.

Definition renamed : catalog := set_copies copies_after (set_paths paths_after (set_copies copies_consumed (set_files files_after db))).

Lemma mid_eq : vf_id (rs_missing s) = file.
Proof using Hok. apply Hok. Qed.

Lemma pid_ne : pid ≠ vf_id (rs_missing s).
Proof using Hok. rewrite mid_eq. apply Hok. Qed.

Lemma path_row_self q f : fp_vault_file_id q = f → fp_vault_id q = v → fp_valid_to q = None → is_path_row v f q q = true.
Proof. intros <- <- Hc. unfold is_path_row, is_current. rewrite Hc. by rewrite !bool_decide_eq_true_2. Qed.

Lemma path_row_other f p q : fp_vault_file_id q ≠ f → is_path_row v f p q = false.
Proof. intros Hne. unfold is_path_row. by rewrite (bool_decide_eq_false_2 _ Hne). Qed.

Lemma path_row_current f p q : is_path_row v f p q = true → is_current q = true ∧ fp_vault_file_id q = f.
Proof. unfold is_path_row. intros H. by bsimpl. Qed.

Lemma state_unchanged f p q : fp_vault_file_id q = f → fp_vault_id q = v → fp_path q = fp_path p →
  fp_valid_from q = fp_valid_from p → path_unchanged f v (state_of p (fp_valid_to q)) q = true.
Proof. intros <- <- Hp Hfr. unfold path_unchanged, state_of. by rewrite !bool_decide_eq_true_2. Qed.

(** Where the rows of the pair are after each statement. *)
Lemma m_in_files : rs_missing s ∈ files_after.
Proof using Hok.
  apply update_where_notin; [apply Hok|]. rewrite (bool_decide_eq_false_2 (vf_id _ = pid)); [done|].
  intros E. by apply pid_ne.
Qed.
Lemma p_in_files : retire at_ (rs_provisional s) ∈ files_after.
Proof using Hok.
  apply update_where_in; [apply Hok|]. rewrite !bool_decide_eq_true_2; [done|apply Hok|apply Hok|done].
Qed.
Lemma mp_in_provisional : rs_missing_path s ∈ paths_provisional.
Proof using Hok.
  apply update_where_notin; [apply Hok|]. apply path_row_other. rewrite (so_mpf _ _ _ _ _ Hok), <- mid_eq. apply not_eq_sym, pid_ne.
Qed.
Lemma pp_in_provisional : close_path at_ (rs_provisional_path s) ∈ paths_provisional.
Proof using Hok. apply update_where_in; [apply Hok|]. apply path_row_self; apply Hok. Qed.
Lemma pp_in_closed : close_path at_ (rs_provisional_path s) ∈ paths_closed.
Proof using Hok.
  apply update_where_notin; [apply pp_in_provisional|]. apply path_row_other. cbn. rewrite (so_ppf _ _ _ _ _ Hok). apply pid_ne.
Qed.
Lemma mp_in_closed : close_path at_ (rs_missing_path s) ∈ paths_closed.
Proof using Hok.
  apply update_where_in; [apply mp_in_provisional|].
  apply path_row_self; [by rewrite (so_mpf _ _ _ _ _ Hok), mid_eq|apply Hok|apply Hok].
Qed.
Lemma mc_in_consumed : rs_missing_copy s ∈ copies_consumed.
Proof using Hok.
  apply elem_of_delete_where. split; [apply Hok|]. apply bool_decide_eq_false_2.
  rewrite (so_mcf _ _ _ _ _ Hok), <- mid_eq. apply not_eq_sym, pid_ne.
Qed.
Lemma consumed_no_pid c : c ∈ copies_consumed → lc_vault_file_id c ≠ pid.
Proof. intros [_ H]%elem_of_delete_where. by bsimpl. Qed.

(** No current row of the surviving identity or of the new path is left. *)
Lemma current_closed q :
  q ∈ paths_closed → is_current q = true →
  q ∈ t_paths db ∧ fp_vault_file_id q ≠ pid ∧ fp_vault_file_id q ≠ vf_id (rs_missing s).
Proof using Hwf Hok.
  intros (q1 & Hq1 & ->)%elem_of_update_where Hc.
  destruct (is_path_row v (vf_id (rs_missing s)) (rs_missing_path s) q1) eqn:E1; [done|].
  apply elem_of_update_where in Hq1 as (q & Hq & ->).
  destruct (is_path_row v pid (rs_provisional_path s) q) eqn:E2; [done|]. split; [done|].
  assert (Huniq : ∀ x, x ∈ t_paths db → fp_valid_to x = None → fp_vault_file_id q = fp_vault_file_id x → q = x).
  { intros x Hx Hxc Hid. eapply (NoDup_key_inj _ _ q x (wf_current_file _ Hwf)); [| |done]; apply elem_of_current;
      (split; [done|]); [by apply is_none_true|done]. }
  split; intros Hf.
  - rewrite (Huniq (rs_provisional_path s)) in E2; [|apply Hok|apply Hok|by rewrite (so_ppf _ _ _ _ _ Hok)].
    by rewrite path_row_self in E2; try apply Hok.
  - rewrite (Huniq (rs_missing_path s)) in E1; [|apply Hok|apply Hok|by rewrite Hf, (so_mpf _ _ _ _ _ Hok), mid_eq].
    rewrite path_row_self in E1; [done|by rewrite (so_mpf _ _ _ _ _ Hok), mid_eq|apply Hok|apply Hok].
Qed.

Lemma new_path_free :
  exists_row (fun p => (fp_vault_id p =b v) && (fp_path p =b new_path) && is_current p) paths_closed = false
  ∧ exists_row (fun p => (fp_vault_file_id p =b vf_id (rs_missing s)) && is_current p) paths_closed = false.
Proof using Hwf Hok.
  rewrite !exists_row_false. split; intros q Hq.
  - destruct (_ && is_current q) eqn:E; [|done]. bsimpl. destruct (current_closed q Hq ltac:(done)) as (Hin & Hp & _).
    exfalso. apply Hp. assert (q = rs_provisional_path s) as ->; [|apply Hok].
    eapply (NoDup_key_inj _ _ q (rs_provisional_path s) (wf_current_path _ Hwf)).
    + apply elem_of_current. split; [done|]. by apply is_none_true.
    + apply elem_of_current. split; apply Hok.
    + rewrite (so_ppv _ _ _ _ _ Hok), (so_ppp _ _ _ _ _ Hok). congruence.
  - destruct (_ && is_current q) eqn:E; [|done]. bsimpl. by destruct (current_closed q Hq ltac:(done)) as (_ & _ & Hm).
Qed.

Lemma count_file f : f ∈ t_files db → vf_vault_id f = v → vf_status f = Active →
  countZ (fun g => (vf_id g =b vf_id f) && (vf_vault_id g =b v) && (vf_status g =b Active)) (t_files db) = 1.
Proof using Hwf.
  intros Hf Hv Hs. apply (count_one vf_id (fun _ => true) _ _ f); [|done|by rewrite !bool_decide_eq_true_2|].
  - rewrite filter_all by done. apply Hwf.
  - intros g Hg. by bsimpl.
Qed.

Lemma count_path l f q : NoDup (map fp_vault_file_id (List.filter is_current l)) → q ∈ l → fp_vault_file_id q = f →
  fp_vault_id q = v → fp_valid_to q = None → countZ (is_path_row v f q) l = 1.
Proof.
  intros Hnd Hq Hf Hv Hc. apply (count_one fp_vault_file_id is_current _ _ q); [done|done|by apply path_row_self|].
  intros y Hy. apply path_row_current in Hy as [? ->]. done.
Qed.

Lemma count_copy l c : NoDup (map lc_vault_file_id l) → c ∈ l →
  countZ (fun d => lc_vault_file_id d =b lc_vault_file_id c) l = 1.
Proof.
  intros Hnd Hc. apply (count_one lc_vault_file_id (fun _ => true) _ _ c); [|done|by rewrite bool_decide_eq_true_2|].
  - by rewrite filter_all.
  - intros d Hd. by bsimpl.
Qed.

(** Closing rows keeps the current rows a sublist. *)
Lemma current_after_close p l : (∀ q, p q = true → is_current q = true) →
  sublist (List.filter is_current (update_where p (close_path at_) l)) (List.filter is_current l).
Proof.
  intros Hp. unfold update_where. induction l as [|q l IH]; [constructor|]. cbn. destruct (p q) eqn:E.
  - rewrite (Hp q E). change (is_current (close_path at_ q)) with false. by constructor.
  - destruct (is_current q); [by constructor|done].
Qed.

Lemma provisional_current : sublist (List.filter is_current paths_provisional) (List.filter is_current (t_paths db)).
Proof. apply current_after_close. by intros q [? _]%path_row_current. Qed.

Lemma closed_current : sublist (List.filter is_current paths_closed) (List.filter is_current (t_paths db)).
Proof.
  etrans; [apply (current_after_close (is_path_row v (vf_id (rs_missing s)) (rs_missing_path s)) paths_provisional)|apply provisional_current].
  by intros q [? _]%path_row_current.
Qed.

Lemma consume_ok :
  consume_candidate v at_ new_path s db
  = Ok (invalidate_for_confirmed_rename v (Some (fp_path (rs_missing_path s))) (Some (fp_path (rs_provisional_path s)))
          (Some new_path) renamed).
Proof using All.
  assert (Hmid := mid_eq). destruct Hok as [Hm Hmi Hmv Hms Hp Hpne Hpv Hps Hmp Hmpf Hmpv Hmpc Hpp Hppf Hppv Hppc Hppp Hmc Hmcf Hmside Hpc Hpcf Hpside Hdig].
  assert (Hmcid : lc_vault_file_id (rs_missing_copy s) = vf_id (rs_missing s)) by congruence.
  assert (Hmpid : fp_vault_file_id (rs_missing_path s) = vf_id (rs_missing s)) by congruence.
  assert (Sm : path_unchanged (vf_id (rs_missing s)) v (state_of (rs_missing_path s) None) (rs_missing_path s) = true)
    by (rewrite <- Hmpc; by apply state_unchanged).
  assert (Sp : path_unchanged (vf_id (rs_provisional s)) v (state_of (rs_provisional_path s) None) (rs_provisional_path s) = true)
    by (rewrite <- Hppc; by apply state_unchanged).
  assert (Smc : path_unchanged (vf_id (rs_missing s)) v (state_of (rs_missing_path s) (Some at_)) (close_path at_ (rs_missing_path s)) = true)
    by (by apply (state_unchanged _ _ (close_path at_ (rs_missing_path s)))).
  assert (Spc : path_unchanged (vf_id (rs_provisional s)) v (state_of (rs_provisional_path s) (Some at_)) (close_path at_ (rs_provisional_path s)) = true)
    by (by apply (state_unchanged _ _ (close_path at_ (rs_provisional_path s)))).
  unfold consume_candidate.
  rewrite cas_update_ok.
  2:{ eapply (rename_pair_intro _ _ _ _ _ _ _ _ (rs_missing s) (rs_provisional s) (rs_missing_path s) (rs_provisional_path s)); done. }
  2:{ by apply count_file. }
  cbn [mbind result_bind]. fold pid. fold files_after.
  rewrite cas_update_ok.
  2:{ eapply (rename_pair_intro _ _ _ _ _ _ _ _ (rs_missing s) (retire at_ (rs_provisional s)) (rs_missing_path s) (rs_provisional_path s));
        try done; [apply m_in_files|apply p_in_files]. }
  2:{ apply count_path; try done. apply Hwf. }
  cbn [mbind result_bind t_paths set_files]. fold paths_provisional.
  rewrite cas_delete_ok.
  2:{ eapply (rename_pair_intro _ _ _ _ _ _ _ _ (rs_missing s) (retire at_ (rs_provisional s)) (rs_missing_path s) (close_path at_ (rs_provisional_path s)));
        try done; [apply m_in_files|apply p_in_files|apply mp_in_provisional|apply pp_in_provisional]. }
  2:{ unfold pid. rewrite <- Hpcf. by apply count_copy. }
  cbn [mbind result_bind t_copies set_paths set_files]. fold copies_consumed.
  assert (Hcons : ∀ c, c ∈ copies_consumed → lc_vault_file_id c ≠ vf_id (rs_provisional s)) by (apply consumed_no_pid).
  rewrite cas_update_ok.
  2:{ eapply (rename_pair_intro _ _ _ _ _ _ _ _ (rs_missing s) (retire at_ (rs_provisional s)) (rs_missing_path s) (close_path at_ (rs_provisional_path s)));
        try done; [apply m_in_files|apply p_in_files|apply mp_in_provisional|apply pp_in_provisional|apply mc_in_consumed]. }
  2:{ apply count_path; try done; [|apply mp_in_provisional]. eapply NoDup_keys_sublist; [apply provisional_current|apply Hwf]. }
  cbn [mbind result_bind t_paths set_copies set_paths]. fold paths_closed.
  rewrite (rename_pair_intro _ v s (state_of (rs_missing_path s) (Some at_)) Retired (Some at_) (state_of (rs_provisional_path s) (Some at_)) false
             (rs_missing s) (retire at_ (rs_provisional s)) (close_path at_ (rs_missing_path s)) (close_path at_ (rs_provisional_path s)));
    try done; [|apply m_in_files|apply p_in_files|apply mp_in_closed|apply pp_in_closed|apply mc_in_consumed].
  destruct new_path_free as [Hfree Hconf]. cbn [t_paths set_paths]. rewrite Hfree, Hconf. cbn [negb andb].
  cbn [require_one raise_if Z.eqb negb mbind result_bind].
  rewrite cas_update_ok.
  2:{ eapply (rename_pair_intro _ _ _ _ _ _ _ _ (rs_missing s) (retire at_ (rs_provisional s)) (new_path_row (vf_id (rs_missing s)) v new_path at_) (close_path at_ (rs_provisional_path s)));
        try done; [apply m_in_files|apply p_in_files| | | |apply mc_in_consumed].
      - apply elem_of_app. right. by left.
      - unfold path_unchanged. cbn. by rewrite !bool_decide_eq_true_2.
      - apply elem_of_app. left. apply pp_in_closed. }
  2:{ rewrite <- Hmcid. apply count_copy; [|apply mc_in_consumed].
      eapply NoDup_keys_sublist; [apply filter_sublist|done]. }
  reflexivity.
Qed.
End consumption.

(** ** Candidates *)
Lemma rename_row_of_some db v d f row :
  rename_row_of db v d f = Some row →
  rr_file row = vf_id f ∧ vf_vault_id f = v ∧ ∃ p, current_row db v (vf_id f) = Some p ∧ rr_path row = fp_path p
    ∧ rr_has_archive row = exists_row (fun w => av_vault_file_id w =b vf_id f) (t_versions db).
Proof.
  unfold rename_row_of. destruct (negb _) eqn:E; [done|]. apply negb_false_iff in E. bsimpl.
  rewrite bind_Some. intros (p & Hp & Hr). apply bind_Some in Hr as (c & _ & Hr). apply bind_Some in Hr as (x & _ & Hr).
  destruct (_ && _); [|done]. injection Hr as <-. cbn. split; [done|]. split; [done|]. exists p. subst v. done.
Qed.

Lemma elem_of_rename_rows db v d row : row ∈ rename_rows db v d → ∃ f, f ∈ t_files db ∧ rename_row_of db v d f = Some row.
Proof. unfold rename_rows. rewrite sort_by_perm, list_elem_of_omap. done. Qed.

Lemma rename_rows_NoDup db v d : wf_paths db → NoDup (map rr_file (rename_rows db v d)).
Proof.
  intros Hwf. unfold rename_rows.
  assert (Hperm : map rr_file (sort_by (fun a b => String.leb (lower (rr_path a)) (lower (rr_path b))) (omap (rename_row_of db v d) (t_files db)))
    ≡ₚ map rr_file (omap (rename_row_of db v d) (t_files db))) by (apply Permutation_map, sort_by_perm).
  rewrite Hperm. assert (Hids := wf_file_ids _ Hwf). revert Hids. generalize (t_files db) as fs. intros fs.
  induction fs as [|f fs IH]; [constructor|]. cbn [map]. intros [Hf Hnd]%NoDup_cons. cbn.
  destruct (rename_row_of db v d f) as [row|] eqn:E; [|auto]. cbn. apply NoDup_cons. split; [|auto].
  apply rename_row_of_some in E as (-> & _). intros Hin. apply Hf.
  apply list_elem_of_In, in_map_iff in Hin as (r & Hr & Hin%list_elem_of_In). apply list_elem_of_omap in Hin as (g & Hg & Eg).
  apply rename_row_of_some in Eg as (Eg & _). rewrite <- Hr, Eg. apply list_elem_of_In, in_map. by apply list_elem_of_In.
Qed.

Lemma elem_of_with_digest b d rows r : r ∈ with_digest b d rows ↔ r ∈ rows ∧ rr_present r = b ∧ rr_digest r = d.
Proof.
  unfold with_digest. rewrite list_elem_of_In, filter_In, <- list_elem_of_In, andb_true_iff, bool_decide_eq_true, Bool.eqb_true_iff. done.
Qed.

(** A filter that keeps one row keeps it alone. *)
Lemma filter_singleton {A} (p : A → bool) l x :
  NoDup l → List.filter p l = [x] ↔ x ∈ l ∧ p x = true ∧ ∀ y, y ∈ l → p y = true → y = x.
Proof.
  intros Hnd. assert (Hin : ∀ y, y ∈ List.filter p l ↔ y ∈ l ∧ p y = true)
    by (intros y; rewrite list_elem_of_In, filter_In, <- list_elem_of_In; done). split.
  - intros E. rewrite E in Hin. destruct (proj1 (Hin x)) as [? ?]; [by left|]. split; [done|]. split; [done|].
    intros y Hy Hp. assert (Hy1 : y ∈ [x]) by (by apply Hin). by apply list_elem_of_singleton in Hy1.
  - intros (Hx & Hp & Hall). assert (Hnd' : NoDup (List.filter p l)) by (eapply sublist_NoDup; [exact Hnd|apply filter_sublist]).
    assert (Hx' : x ∈ List.filter p l) by (by apply Hin).
    destruct (List.filter p l) as [|a [|b k]]; [by apply not_elem_of_nil in Hx'|by apply list_elem_of_singleton in Hx' as ->|].
    assert (a = x) as -> by (destruct (proj1 (Hin a) ltac:(left)); auto).
    assert (b = x) as -> by (destruct (proj1 (Hin b) ltac:(right; left)); auto).
    apply NoDup_cons in Hnd' as [Hno _]. exfalso. apply Hno. left.
Qed.

Lemma elem_of_fromkeys l k : k ∈ dict_fromkeys l ↔ k ∈ l.
Proof.
  unfold dict_fromkeys. assert (Hgen : ∀ acc : list string,
    k ∈ foldl (fun ks k => if k ∈b ks then ks else ks ++ [k]) acc l ↔ k ∈ acc ∨ k ∈ l); [|rewrite Hgen; set_solver].
  induction l as [|x l IH]; intros acc; cbn; [set_solver|]. rewrite IH. case_bool_decide; set_solver.
Qed.

Lemma candidate_for_some rows d c :
  candidate_for rows d = Some c ↔
  ∃ m p, with_digest false d rows = [m] ∧ with_digest true d rows = [p]
    ∧ within_rename_window (rr_observed_at m) (rr_observed_at p) = true
    ∧ rr_has_archive p = false ∧ rr_has_pending_job p = false ∧ rr_has_pending_job m = false
    ∧ c = {| rc_missing := rr_file m; rc_missing_path := rr_path m; rc_new := rr_file p; rc_new_path := rr_path p; rc_digest := d |}.
Proof.
  unfold candidate_for. split.
  - destruct (with_digest false d rows) as [|m [|? ?]]; [done| |done].
    destruct (with_digest true d rows) as [|p [|? ?]]; [done| |done].
    destruct (within_rename_window _ _) eqn:Ew; [|done]. destruct (_ || _) eqn:Ej; [done|]. intros [= <-]. bsimpl.
    by exists m, p.
  - intros (m & p & -> & -> & -> & -> & -> & -> & ->). done.
Qed.

(** Only an unambiguous pair is a rename.  A missing file and a present file are
    offered as one renamed file exactly when they are the only missing and the only
    present file of the Vault with their digest, were observed at most an hour
    apart, the present one has no Archive Version and neither has a Job in
    progress. *)
Theorem rename_candidates_are_unambiguous db v digest c :
  wf_paths db →
  c ∈ list_rename_candidates db v digest ↔
  ∃ m p, m ∈ rename_rows db v digest ∧ p ∈ rename_rows db v digest
    ∧ rr_present m = false ∧ rr_present p = true ∧ rr_digest p = rr_digest m
    ∧ (∀ r, r ∈ rename_rows db v digest → rr_digest r = rr_digest m → r = if rr_present r then p else m)
    ∧ Z.abs (rr_observed_at m - rr_observed_at p) ≤ AUTO_RENAME_WINDOW
    ∧ rr_has_archive p = false ∧ rr_has_pending_job p = false ∧ rr_has_pending_job m = false
    ∧ c = {| rc_missing := rr_file m; rc_missing_path := rr_path m; rc_new := rr_file p; rc_new_path := rr_path p;
             rc_digest := rr_digest m |}.
Proof.
  intros Hwf. assert (Hnd := rename_rows_NoDup db v digest Hwf). apply NoDup_fmap_1 in Hnd.
  unfold list_rename_candidates. set (rows := rename_rows db v digest) in *.
  rewrite list_elem_of_omap. setoid_rewrite elem_of_fromkeys. setoid_rewrite candidate_for_some. split.
  - intros (d & _ & m & p & Hm & Hp & Hw & Ha & Hj1 & Hj2 & ->). apply filter_singleton in Hm as (Hmin & Hmp & Hmu); [|done].
    apply filter_singleton in Hp as (Hpin & Hpp & Hpu); [|done]. bsimpl. rewrite Bool.eqb_true_iff in *.
    exists m, p. unfold within_rename_window in Hw. bsimpl.
    repeat (split; [first [done|congruence]|]). split; [|by subst d].
    intros r Hr Hd. destruct (rr_present r) eqn:Er.
    + apply Hpu; [done|]. rewrite Er. by rewrite bool_decide_eq_true_2 by congruence.
    + apply Hmu; [done|]. rewrite Er. by rewrite bool_decide_eq_true_2 by congruence.
  - intros (m & p & Hm & Hp & Hmp & Hpp & Hd & Hu & Hw & Ha & Hj1 & Hj2 & ->). exists (rr_digest m). split.
    { apply list_elem_of_In, in_map, filter_In. rewrite <- list_elem_of_In. by rewrite Hmp. }
    exists m, p. split; [|split; [|split; [by apply Z.leb_le|done]]].
    + apply filter_singleton; [done|]. split; [done|]. split; [by rewrite Hmp, bool_decide_eq_true_2|].
      intros y Hy E. bsimpl. rewrite Bool.eqb_true_iff in *. assert (Hyu := Hu y Hy ltac:(done)). by destruct (rr_present y).
    + apply filter_singleton; [done|]. split; [done|]. split; [by rewrite Hpp, bool_decide_eq_true_2|].
      intros y Hy E. bsimpl. rewrite Bool.eqb_true_iff in *. assert (Hyu := Hu y Hy ltac:(done)). by destruct (rr_present y).
Qed.

(** The destination of a confirmed candidate has no Archive Version. *)
Lemma candidate_without_archive db v file new_path d s :
  wf_paths db → snapshot_ok db v file new_path s →
  is_candidate file new_path (list_rename_candidates db v d) = true →
  ∀ w, w ∈ t_versions db → av_vault_file_id w ≠ vf_id (rs_provisional s).
Proof.
  intros Hwf Hok Hc w Hw. unfold is_candidate in Hc. apply existsb_exists in Hc as (c & Hc & Hcp).
  apply list_elem_of_In, list_elem_of_omap in Hc as (k & _ & Hc). apply candidate_for_some in Hc as (m & p & _ & Hp & _ & Ha & _ & _ & ->).
  cbn in Hcp. bsimpl. assert (Hpin : p ∈ with_digest true k (rename_rows db v d)) by (rewrite Hp; left).
  apply elem_of_with_digest in Hpin as (Hpin & _ & _). apply elem_of_rename_rows in Hpin as (f & Hf & Hrow).
  apply rename_row_of_some in Hrow as (_ & Hfv & q & Hq & Hqp & Har). rewrite Ha in Har. symmetry in Har.
  rewrite exists_row_false in Har. specialize (Har w Hw). bsimpl.
  apply current_row_some in Hq as (Hqin & Hqf & Hqv & Hqc).
  assert (q = rs_provisional_path s) as ->.
  { eapply (NoDup_key_inj _ _ q (rs_provisional_path s) (wf_current_path _ Hwf)); [by apply elem_of_current|apply elem_of_current; split; apply Hok|].
    rewrite (so_ppv _ _ _ _ _ Hok), (so_ppp _ _ _ _ _ Hok). congruence. }
  rewrite (so_ppf _ _ _ _ _ Hok) in Hqf. congruence.
Qed.

Lemma renamed_wf db v at_ file new_path s :
  wf_paths db → snapshot_ok db v file new_path s → wf_paths (renamed db v at_ new_path s).
Proof.
  intros Hwf Hok. destruct (new_path_free db v at_ file new_path s Hwf Hok) as [Hfree Hconf].
  assert (Hsub := closed_current db v at_ s).
  assert (Hlast : List.filter is_current (paths_after db v at_ new_path s)
    = List.filter is_current (paths_closed db v at_ s) ++ [new_path_row (vf_id (rs_missing s)) v new_path at_])
    by (unfold paths_after; by rewrite List.filter_app).
  split; cbn [renamed t_files t_paths set_copies set_paths set_files].
  - unfold files_after. rewrite update_where_column by done. apply Hwf.
  - rewrite Hlast. apply NoDup_snoc_map; [eapply NoDup_keys_sublist; [exact Hsub|apply Hwf]|]. cbn. intros Hin.
    apply list_elem_of_In, in_map_iff in Hin as (q & [= Hv Hp] & Hq). apply filter_In in Hq as [Hq Hc].
    rewrite exists_row_false in Hfree. specialize (Hfree q ltac:(by apply list_elem_of_In)).
    by rewrite Hc, !bool_decide_eq_true_2 in Hfree.
  - rewrite Hlast. apply NoDup_snoc_map; [eapply NoDup_keys_sublist; [exact Hsub|apply Hwf]|]. cbn. intros Hin.
    apply list_elem_of_In, in_map_iff in Hin as (q & Hf & Hq). apply filter_In in Hq as [Hq Hc].
    rewrite exists_row_false in Hconf. specialize (Hconf q ltac:(by apply list_elem_of_In)).
    by rewrite Hc, !bool_decide_eq_true_2 in Hconf.
  - assert (Hown : ∀ q, q ∈ t_paths db → ∃ f, f ∈ files_after db v at_ s ∧ vf_id f = fp_vault_file_id q ∧ vf_vault_id f = fp_vault_id q).
    { intros q Hq. destruct (wf_owner _ Hwf q Hq) as (f & Hf & Hi & Hv). unfold files_after.
      eexists. split; [apply elem_of_update_where; exists f; split; [done|reflexivity]|]. by case_match. }
    intros q [Hq| ->%list_elem_of_singleton]%elem_of_app.
    + unfold paths_closed, paths_provisional in Hq. apply elem_of_update_where in Hq as (q1 & Hq1 & ->).
      apply elem_of_update_where in Hq1 as (q0 & Hq0 & ->). destruct (Hown q0 Hq0) as (f & ? & ? & ?). exists f.
      by repeat case_match.
    + exists (rs_missing s). split; [by apply (m_in_files db v at_ file new_path)|]. cbn. split; [done|apply Hok].
Qed.

Lemma current_row_unique db v f q :
  wf_paths db → q ∈ t_paths db → fp_vault_file_id q = f → fp_vault_id q = v → fp_valid_to q = None →
  current_row db v f = Some q.
Proof.
  intros Hwf Hq Hf Hv Hc. destruct (current_row db v f) as [r|] eqn:E.
  - apply current_row_some in E as (Hr & Hrf & _ & Hrc). f_equal.
    eapply (NoDup_key_inj _ _ r q (wf_current_file _ Hwf)); [by apply elem_of_current..|congruence].
  - unfold current_row in E. rewrite fetchone_none in E. specialize (E q Hq). unfold is_current in E. rewrite Hc in E.
    by rewrite !bool_decide_eq_true_2 in E.
Qed.


(** A plain rename closes the old path, opens the new one and stays well formed. *)
Lemma rename_file_ok db file new_path at_ v db' :
  wf_paths db → rename_file db file new_path at_ v = Ok db' →
  wf_paths db' ∧ ∃ p, current_row db' v file = Some p ∧ fp_path p = new_path.
Proof.
  intros Hwf. unfold rename_file. destruct (f ← _; _) as [p|] eqn:E; [|done].
  apply bind_Some in E as (f & Hf & Hp). apply fetchone_some in Hf as [Hf Hfp]. bsimpl. subst file.
  case_bool_decide as Ep; [intros [= <-]; by split; [|exists p]|].
  set (db1 := mark_path_dirty v (Some new_path) (mark_path_dirty v (Some (fp_path p)) db)).
  assert (Hs : same_but_dirty db1 db) by (etrans; apply mark_path_same).
  set (mine q := (fp_vault_file_id q =b vf_id f) && (fp_vault_id q =b v) && is_current q).
  intros [Hfree [= <-]]%raise_if_bind_ok. rewrite (same_paths _ _ Hs) in *.
  set (closed := update_where mine (close_path at_) (t_paths db)) in *.
  assert (Hsub : sublist (List.filter is_current closed) (List.filter is_current (t_paths db))).
  { apply current_after_close. intros q Hq. unfold mine in Hq. by bsimpl. }
  assert (Hlast : List.filter is_current (closed ++ [new_path_row (vf_id f) v new_path at_])
    = List.filter is_current closed ++ [new_path_row (vf_id f) v new_path at_]) by (by rewrite List.filter_app).
  assert (Hwf' : wf_paths (set_paths (closed ++ [new_path_row (vf_id f) v new_path at_]) db1)).
  { split; cbn [t_files t_paths set_paths]; rewrite ?(same_files _ _ Hs), ?Hlast.
    - apply Hwf.
    - apply NoDup_snoc_map; [eapply NoDup_keys_sublist; [exact Hsub|apply Hwf]|]. cbn. intros Hin.
      apply list_elem_of_In, in_map_iff in Hin as (q & [= Hqv Hqp] & Hq). apply filter_In in Hq as [Hq Hc].
      rewrite exists_row_false in Hfree. specialize (Hfree q ltac:(by apply list_elem_of_In)).
      by rewrite Hc, !bool_decide_eq_true_2 in Hfree.
    - apply NoDup_snoc_map; [eapply NoDup_keys_sublist; [exact Hsub|apply Hwf]|]. cbn. intros Hin.
      apply list_elem_of_In, in_map_iff in Hin as (q & Hqf & Hq). apply filter_In in Hq as [Hq Hc].
      apply list_elem_of_In in Hq. unfold closed in Hq. apply elem_of_update_where in Hq as (q0 & Hq0 & ->).
      destruct (mine q0) eqn:Em; [done|]. destruct (wf_owner _ Hwf q0 Hq0) as (g & Hg & Hgi & Hgv).
      assert (g = f) as -> by (apply (NoDup_key_inj vf_id _ _ _ (wf_file_ids _ Hwf)); congruence).
      unfold mine in Em. rewrite Hc in Em. by rewrite !bool_decide_eq_true_2 in Em by congruence.
    - intros q [Hq| ->%list_elem_of_singleton]%elem_of_app; [|by exists f].
      apply elem_of_update_where in Hq as (q0 & Hq0 & ->). destruct (wf_owner _ Hwf q0 Hq0) as (g & Hg & ?).
      exists g. by case_match. }
  split; [done|]. exists (new_path_row (vf_id f) v new_path at_). split; [|done].
  apply current_row_unique; [done| |done..]. apply elem_of_app. right. by left.
Qed.

(** ** Witnesses *)
Definition w_file (id : string) : vault_file :=
  {| vf_id := id; vf_vault_id := 1; vf_status := Active; vf_created_at := 0; vf_retired_at := None |}.
Definition w_path (id path : string) : file_path := new_path_row id 1 path 0.
Definition w_copy (id : string) (p : presence) : local_copy :=
  {| lc_vault_file_id := id; lc_presence := p; lc_file_type := Regular; lc_size := Some 5;
     lc_mtime_ns := Some 1; lc_plaintext_sha256 := Some "d"; lc_matched_archive_version_id := None;
     lc_cloud_only_version_id := None; lc_last_seen_at := Some 1; lc_observed_at := 1;
     lc_content_observed_at := Some 1; lc_recovered_at := None |}.

Definition w_moved : catalog :=
  set_vaults [w_vault]
    (set_files [w_file "f"; w_file "g"]
       (set_paths [w_path "f" "a/b.txt"; w_path "g" "a/c.txt"]
          (set_copies [w_copy "f" Missing; w_copy "g" Present] w_marks))).

Lemma w_moved_wf : wf_paths w_moved.
Proof.
  split.
  - apply (bool_decide_unpack _). vm_compute. exact I.
  - apply (bool_decide_unpack _). vm_compute. exact I.
  - apply (bool_decide_unpack _). vm_compute. exact I.
  - intros p [->| ->%list_elem_of_singleton]%elem_of_cons.
    + exists (w_file "f"). split; [by left|done].
    + exists (w_file "g"). split; [right; by left|done].
Qed.

Definition confirmed : catalog :=
  match confirm_file_rename w_moved "f" "a/c.txt" 7 1 with Ok (db, _) => db | Raise _ => w_moved end.


Lemma rename_candidates_are_unambiguous_witness :
  ∃ m p, m ∈ rename_rows w_moved 1 None ∧ p ∈ rename_rows w_moved 1 None ∧ rr_digest p = rr_digest m.
Proof.
  destruct (proj1 (rename_candidates_are_unambiguous w_moved 1 None
    {| rc_missing := "f"; rc_missing_path := "a/b.txt"; rc_new := "g"; rc_new_path := "a/c.txt"; rc_digest := "d" |} w_moved_wf))
    as (m & p & Hm & Hp & _ & _ & Hd & _).
  - vm_compute. left.
  - exists m, p. split; [exact Hm|]. split; [exact Hp|exact Hd].
Defined.
