(* ===== verification/CatalogListing.v ===== *)
(** * CatalogListing: browsing, searching and summaries

    Models the read side of [ArchiveCatalog] (src/app/catalog.py):
    [get_file_by_path], [list_versions], the shared clauses and SELECT of the
    listings, [_browse_directory_page], [_search_files_page], [list_files_page],
    [list_file_rows], [search_protected_vaults] and [summary], with
    [count_child_directories], [list_child_directory_rows] and
    [directory_row_to_item] of [services/directory_aggregates.py].  Text is
    ordered byte by byte (the C collation); the folder rows are an argument, and
    [unconfirmed] is the flag the catalog object is built with. *)
From S2P Require Import Prelude Sql PyString VaultPaths Schema ProtectionStates DirectoryAggregates JobScheduler JobClaims DirtyMarks CloudDeletion OperationPolicies Catalog CatalogBatch.

(** ** Rows of the listing *)

(** The statuses of a file's upload Jobs, by increasing id. *)
Definition upload_statuses (db : catalog) (file : string) : list string :=
  map j_status (sort_by (fun a b => j_id a <=? j_id b)
                  (select (fun j => (j_vault_file_id j =b file) && (j_action j =b "upload")) (t_jobs db))).

Definition joined_of (db : catalog) (file : string) : joined_row :=
  {| jr_lc := local_copy_of (t_copies db) file; jr_av := latest_version (t_versions db) file;
     jr_upload_jobs := upload_statuses db file |}.

Definition recoverable_count (db : catalog) (file : string) : Z :=
  countZ (fun v => (av_vault_file_id v =b file) && (av_integrity v =b Verified) && (av_availability v =b Available))
    (t_versions db).

(** [greatest]: the largest value that is not NULL. *)
Definition greatest (l : list (option Z)) : option Z :=
  foldr (fun o m => match o, m with Some x, Some y => Some (Z.max x y) | Some x, None => Some x | None, m => m end) None l.

Definition protection_observed_at (r : joined_row) : option timestamp :=
  let local := lc_observed_at <$> jr_lc r in
  let verified := jr_av r ≫= av_verified_at in
  if holds (sql_eq (av_availability <$> jr_av r) (Some Unknown)) then greatest [local; verified]
  else greatest [local; verified; jr_av r ≫= av_availability_checked_at].

(** A row of [_file_row_select_sql]. *)
Record listed := {
  li_file : string;
  li_joined : joined_row;
  li_row : file_row;
}.

Definition listed_of (db : catalog) (f : vault_file) (p : file_path) : listed :=
  let r := joined_of db (vf_id f) in
  {| li_file := vf_id f; li_joined := r;
     li_row := select_row (fp_path p) (recoverable_count db (vf_id f)) (protection_observed_at r) r |}.

Definition state_name (s : protection_state) : string :=
  match s with
  | pending => "pending" | protected => "protected" | problem => "problem"
  | unconfirmed => "unconfirmed" | cloud_only => "cloud_only"
  end.

Section listing.
(** [self.protection_unconfirmed]. *)
Context (is_unconfirmed : bool).

Definition scope_clause (directory search path : string) : bool :=
  if search <>b "" then like (lower ("%" +:+ search +:+ "%")) (lower path)
  else if directory <>b "" then
    like (escape_like directory +:+ "/%") path && negb (like (escape_like directory +:+ "/%/%") path)
  else negb (like "%/%" path).

Definition state_clause (state : string) (r : joined_row) : bool :=
  if state =b "" then true
  else if is_unconfirmed then state =b "unconfirmed"
  else state_name (STATE_SQL r) =b state.

(** The rows of [_direct_child_file_clauses]. *)
Definition file_rows (db : catalog) (vault_id : Z) (directory state search : string) : list listed :=
  omap (fun f =>
    p ← current_path_of (t_paths db) (vf_id f);
    let l := listed_of db f p in
    if (vf_vault_id f =b vault_id) && (fp_vault_id p =b vf_vault_id f) && (vf_status f =b Active)
       && scope_clause directory search (fp_path p) && holds (VISIBLE_SQL (li_joined l))
       && state_clause state (li_joined l)
    then Some l else None) (t_files db).

(** [ORDER BY lower(fp.path) ASC, fp.path ASC]. *)
Definition path_le (a b : string) : bool :=
  if lower a =b lower b then String.leb a b else String.leb (lower a) (lower b).

Definition ordered_rows (rows : list listed) : list listed :=
  sort_by (fun a b => path_le (fr_path (li_row a)) (fr_path (li_row b))) rows.

Record file_item := {
  it_name : string;
  it_path : string;
  it_local_exists : bool;
  it_local_size : option Z;
  it_modified_ns : option Z;
  it_local_file_type : option file_type;
  it_cloud_exists : bool;
  it_cloud_size : option Z;
  it_storage_class : option string;
  it_integrity : option integrity;
  it_availability : option availability;
  it_restore_state : option string;
  it_restore_expiry : option timestamp;
  it_evidence : option version_evidence;
  it_protection : protection_view;
  it_cloud_only_conflict : bool;
  it_upload_eligible : bool;
  it_recover_eligible : bool;
  it_recoverable_version_count : Z;
  it_cleanup_eligible : bool;
}.

Definition cleanup_eligible (row : file_row) (cloud_exists : bool) : bool :=
  bool_decide (fr_local_presence row = Some Present) && bool_decide (fr_local_file_type row = Some Regular)
  && cloud_exists && bool_decide (fr_integrity row = Some Verified)
  && bool_decide (fr_availability row = Some Available)
  && bool_decide (fr_matched_archive_version_id row = fr_archive_version_id row)
  && is_some (fr_local_sha256 row) && bool_decide (fr_local_sha256 row = fr_version_sha256 row).

(** One turn of [_materialize_file_items]; [continue] is [None]. *)
Definition materialize (name : string → string) (l : listed) : option file_item :=
  let row := li_row l in
  let local_exists := row_local_exists row in
  let cloud_exists := row_has_cloud row in
  if negb local_exists && is_none (fr_archive_version_id row) then None
  else
    let protection := project_file row is_unconfirmed in
    let recoverable := fr_recoverable_version_count row in
    Some {| it_name := name (fr_path row); it_path := fr_path row; it_local_exists := local_exists;
            it_local_size := fr_local_size row;
            it_modified_ns := match jr_lc (li_joined l) ≫= lc_mtime_ns with
                              | Some n => if n =? 0 then None else Some n
                              | None => None
                              end;
            it_local_file_type := fr_local_file_type row; it_cloud_exists := cloud_exists;
            it_cloud_size := fr_cloud_size row; it_storage_class := fr_storage_class row;
            it_integrity := fr_integrity row; it_availability := fr_availability row;
            it_restore_state := fr_restore_state row;
            it_restore_expiry := jr_av (li_joined l) ≫= fun v => vp_restore_expiry (av_placement v);
            it_evidence := av_evidence <$> jr_av (li_joined l);
            it_protection := protection;
            it_cloud_only_conflict := truthy (fr_cloud_only_version_id row);
            it_upload_eligible := local_copy_is_upload_eligible row && negb is_unconfirmed;
            it_recover_eligible := negb local_exists && (0 <? recoverable);
            it_recoverable_version_count := recoverable;
            it_cleanup_eligible := cleanup_eligible row cloud_exists && (pv_state protection =b protected) |}.

Definition materialize_file_items (name : string → string) (rows : list listed) : list file_item :=
  omap (materialize name) rows.

(** [row["path"][len(prefix):] if prefix else row["path"]]. *)
Definition name_below (directory path : string) : string :=
  if directory =b "" then path else drop_chars (String.length directory + 1) path.

(** [LIMIT limit OFFSET offset]. *)
Definition slice {A} (limit offset : Z) (l : list A) : list A := take (Z.to_nat limit) (drop (Z.to_nat offset) l).

Definition count_direct_child_files (db : catalog) (vault_id : Z) (directory state : string) : Z :=
  Z.of_nat (length (file_rows db vault_id directory state "")).

Definition list_direct_child_files (db : catalog) (vault_id : Z) (directory state : string) (limit offset : Z)
  : list file_item :=
  if limit <=? 0 then []
  else materialize_file_items (name_below directory)
         (slice limit (Z.max 0 offset) (ordered_rows (file_rows db vault_id directory state ""))).

(** ** Folders *)
Record folder_row := {
  fo_vault_id : Z;
  fo_path : string;
  fo_parent_path : string;
  fo_name : string;
  fo_rollup : directory_rollup;
  fo_updated_at : timestamp;
}.

(** [_STATE_COLUMNS]. *)
Definition STATE_COLUMNS : list protection_state := [pending; protected; problem; unconfirmed; cloud_only].
Definition state_column (state : string) : option protection_state :=
  fetchone (fun s => state_name s =b state) STATE_COLUMNS.

(** [None]: an unknown state, for which both queries answer nothing. *)
Definition folder_clause (vault_id : Z) (parent_path state_filter : string) : option (folder_row → bool) :=
  let base r := (fo_vault_id r =b vault_id) && (fo_parent_path r =b parent_path) in
  if state_filter =b "" then Some base
  else match state_column state_filter with
       | None => None
       | Some s => Some (fun r => base r && (0 <? dr_state_counts (fo_rollup r) s))
       end.

Definition count_child_directories (folders : list folder_row) (vault_id : Z) (parent_path state_filter : string) : Z :=
  match folder_clause vault_id parent_path state_filter with
  | None => 0
  | Some p => Z.of_nat (length (select p folders))
  end.

Record directory_item := {
  di_name : string;
  di_path : string;
  di_item_count : Z;
  di_total_size : Z;
  di_local_size : Z;
  di_cloud_size : Z;
  di_state : option protection_state;
  di_state_counts : list (protection_state * Z);
  di_last_known_states : list (protection_state * Z);
  di_last_known_at : timestamp;
  di_storage_class : option string;
  di_storage_class_count : Z;
  di_upload : Z;
  di_recover : Z;
  di_free_space : Z;
  di_cloud_purge : Z;
}.

Definition positive_states (r : directory_rollup) : list (protection_state * Z) :=
  List.filter (fun x => 0 <? x.2) (map (fun s => (s, dr_state_counts r s)) STATE_COLUMNS).

Definition directory_row_to_item (row : folder_row) : directory_item :=
  let r := fo_rollup row in
  let last_known := positive_states r in
  let counts := if is_unconfirmed then [(unconfirmed, dr_item_count r)] else last_known in
  let classes := sort_by String.leb (map fst (List.filter (fun x => 0 <? x.2) (map_to_list (dr_storage_classes r)))) in
  {| di_name := fo_name row; di_path := fo_path row; di_item_count := dr_item_count r;
     di_total_size := dr_total_size r; di_local_size := dr_local_size r; di_cloud_size := dr_cloud_size r;
     di_state := aggregate_state counts; di_state_counts := counts; di_last_known_states := last_known;
     di_last_known_at := fo_updated_at row;
     di_storage_class := match classes with [c] => Some c | _ => None end;
     di_storage_class_count := Z.of_nat (length classes);
     di_upload := if is_unconfirmed then 0 else dr_action_upload r;
     di_recover := dr_action_recover r;
     di_free_space := if is_unconfirmed then 0 else dr_action_free_space r;
     di_cloud_purge := dr_action_cloud_purge r |}.

(** [ORDER BY lower(name) ASC, name ASC]. *)
Definition ordered_folders (rows : list folder_row) : list folder_row :=
  sort_by (fun a b => path_le (fo_name a) (fo_name b)) rows.

Definition list_child_directory_rows (folders : list folder_row) (vault_id : Z) (parent_path state_filter : string)
    (limit offset : Z) : list directory_item :=
  match folder_clause vault_id parent_path state_filter with
  | None => []
  | Some p => map directory_row_to_item (slice (Z.max 0 limit) (Z.max 0 offset) (ordered_folders (select p folders)))
  end.

(** ** Pages *)
Inductive listing_item := Folder (d : directory_item) | File (f : file_item).

(** [folder_state]: under lost observability every folder is unconfirmed. *)
Definition folder_state (state : string) : string :=
  if is_unconfirmed then if (state =b "") || (state =b "unconfirmed") then "" else "__none__" else state.

Definition browse_directory_page (db : catalog) (folders : list folder_row) (vault_id : Z) (directory state : string)
    (page page_size : Z) : list listing_item * Z :=
  let folder_total := count_child_directories folders vault_id directory (folder_state state) in
  let file_total := count_direct_child_files db vault_id directory state in
  let total := folder_total + file_total in
  let offset := (page - 1) * page_size in
  let items :=
    if offset <? folder_total then
      let folder_items := list_child_directory_rows folders vault_id directory (folder_state state) page_size offset in
      let remaining := page_size - Z.of_nat (length folder_items) in
      map Folder folder_items
      ++ (if 0 <? remaining then map File (list_direct_child_files db vault_id directory state remaining 0) else [])
    else map File (list_direct_child_files db vault_id directory state page_size (offset - folder_total)) in
  (items, total).

Definition search_files_page (db : catalog) (vault_id : Z) (search state : string) (page page_size : Z)
  : list listing_item * Z :=
  let rows := file_rows db vault_id "" state search in
  (map File (materialize_file_items id (slice page_size (Z.max 0 ((page - 1) * page_size)) (ordered_rows rows))),
   Z.of_nat (length rows)).

Record page_view := {
  pg_items : list listing_item;
  pg_total : Z;
  pg_page : Z;
  pg_search : bool;
}.

Definition list_files_page (db : catalog) (folders : list folder_row) (vault_id : Z) (search directory state : string)
    (page page_size : Z) : page_view :=
  let page := Z.max 1 page in
  let page_size := Z.max 1 page_size in
  let '(items, total) :=
    if search <>b "" then search_files_page db vault_id search state page page_size
    else browse_directory_page db folders vault_id directory state page page_size in
  {| pg_items := items; pg_total := total; pg_page := page; pg_search := search <>b "" |}.
End listing.

(** [list_file_rows]: the whole scope, unpaged. *)
Definition list_file_rows (is_unconfirmed : bool) (db : catalog) (vault_id : Z) (search path_prefix : string) : list file_item :=
  let rows := omap (fun f =>
    p ← current_path_of (t_paths db) (vf_id f);
    let l := listed_of db f p in
    if (vf_vault_id f =b vault_id) && (fp_vault_id p =b vf_vault_id f) && (vf_status f =b Active)
       && (if search <>b "" then like (lower ("%" +:+ search +:+ "%")) (lower (fp_path p)) else true)
       && (if path_prefix <>b "" then like (escape_like path_prefix +:+ "/%") (fp_path p) else true)
       && holds (VISIBLE_SQL (li_joined l))
    then Some l else None) (t_files db) in
  materialize_file_items is_unconfirmed id
    (sort_by (fun a b => String.leb (lower (fr_path (li_row a))) (lower (fr_path (li_row b)))) rows).

(** ** Search across Vaults *)
Record searched_vault := {
  sv_id : Z;
  sv_name : string;
  sv_unconfirmed : bool;
}.

(** A row of the union, with the Vault its branch selects. *)
Definition vault_rows (db : catalog) (search state : string) (v : searched_vault) : list (searched_vault * listed) :=
  map (fun l => (v, l)) (file_rows (sv_unconfirmed v) db (sv_id v) "" state (if search =b "" then "%" else search)).

(** [ORDER BY lower(path), path, vault_id]. *)
Definition union_le (a b : searched_vault * listed) : bool :=
  let pa := fr_path (li_row a.2) in
  let pb := fr_path (li_row b.2) in
  if pa =b pb then sv_id a.1 <=? sv_id b.1 else path_le pa pb.

Definition union_rows (db : catalog) (search state : string) (vaults : list searched_vault) : list (searched_vault * listed) :=
  flat_map (vault_rows db search state) vaults.

Definition item_of_row (x : searched_vault * listed) : list (file_item * Z * string) :=
  match materialize (sv_unconfirmed x.1) id x.2 with
  | Some i => [(i, sv_id x.1, sv_name x.1)]
  | None => []
  end.

Definition search_protected_vaults (db : catalog) (vaults : list searched_vault) (search state : string)
    (page page_size : Z) : list (file_item * Z * string) * Z :=
  match vaults with
  | [] => ([], 0)
  | _ =>
      let rows := union_rows db search state vaults in
      (flat_map item_of_row (slice page_size ((page - 1) * page_size) (sort_by union_le rows)),
       Z.of_nat (length rows))
  end.

(** ** The summary of a Vault *)
Definition summary_rows (db : catalog) (vault_id : Z) : list joined_row :=
  omap (fun f =>
    _ ← current_path_of (t_paths db) (vf_id f);
    let r := joined_of db (vf_id f) in
    if (vf_vault_id f =b vault_id) && (vf_status f =b Active) && holds (VISIBLE_SQL r) then Some r else None) (t_files db).

Definition local_bytes (r : joined_row) : Z :=
  match jr_lc r with
  | Some c => if (lc_presence c =b Present) || (lc_presence c =b Unsupported) then or_default (lc_size c) 0 else 0
  | None => 0
  end.

(** [av.availability NOT IN ('missing', 'purged')]: not true for NULL. *)
Definition cloud_bytes (r : joined_row) : Z :=
  match jr_av r with
  | Some v => if (av_availability v =b AvMissing) || (av_availability v =b Purged) then 0 else or_default (av_size v) 0
  | None => 0
  end.

Record vault_summary := {
  su_states : list (protection_state * Z);
  su_protection_state : option protection_state;
  su_last_known_states : list (protection_state * Z);
  su_local_bytes : Z;
  su_cloud_bytes : Z;
  su_active_jobs : Z;
}.

(** [GROUP BY classified.state]: a group per state that occurs. *)
Definition summary (is_unconfirmed : bool) (db : catalog) (vault_id : Z) : vault_summary :=
  let rows := summary_rows db vault_id in
  let counts := List.filter (fun x => 0 <? x.2)
                  (map (fun s => (s, countZ (fun r => STATE_SQL r =b s) rows)) STATES) in
  let states := if is_unconfirmed && negb (bool_decide (map fst counts = []))
                then [(unconfirmed, sumZ (map snd counts))] else counts in
  {| su_states := states; su_protection_state := aggregate_state states; su_last_known_states := counts;
     su_local_bytes := sumZ (map local_bytes rows); su_cloud_bytes := sumZ (map cloud_bytes rows);
     su_active_jobs := countZ (fun j => (j_vault_id j =b vault_id) && job_is_active j) (t_jobs db) |}.

(** ** One file *)
Record file_view := {
  vw_file : vault_file;
  vw_path : string;
  vw_local_copy : option local_copy;
  vw_latest_version : option archive_version;
}.

Definition get_file_by_path (db : catalog) (vault_id : Z) (path : string) : option file_view :=
  f ← current_file db vault_id path;
  Some {| vw_file := f; vw_path := path; vw_local_copy := local_copy_of (t_copies db) (vf_id f);
          vw_latest_version := latest av_version_number (select (fun v => av_vault_file_id v =b vf_id f) (t_versions db)) |}.

Definition availability_name (a : availability) : string :=
  match a with Unknown => "unknown" | Available => "available" | AvMissing => "missing" | Purged => "purged" end.
Definition integrity_name (i : integrity) : string :=
  match i with Unverified => "unverified" | Verified => "verified" | Mismatch => "mismatch" end.

Definition version_recoverable (v : archive_version) : bool :=
  (av_integrity v =b Verified) && (av_availability v =b Available).

Definition not_selectable_reason (v : archive_version) : option string :=
  if version_recoverable v then None
  else Some (if (av_availability v =b AvMissing) || (av_availability v =b Purged) || (av_availability v =b Unknown)
             then availability_name (av_availability v) else integrity_name (av_integrity v)).

Definition list_versions (db : catalog) (vault_id : Z) (path : string)
  : list (archive_version * bool * option string) :=
  match current_file db vault_id path with
  | None => []
  | Some f =>
      map (fun v => (v, version_recoverable v, not_selectable_reason v))
        (sort_by (fun a b => av_version_number b <=? av_version_number a)
           (select (fun v => av_vault_file_id v =b vf_id f) (t_versions db)))
  end.

(** ** Pages and the whole *)

(** A visible row is never skipped: a page shows as many rows as it counts. *)
Lemma visible_not_skipped b name db f p :
  holds (VISIBLE_SQL (li_joined (listed_of db f p))) = true → is_Some (materialize b name (listed_of db f p)).
Proof.
  unfold VISIBLE_SQL. rewrite holds_or, orb_true_iff, holds_is_not_null. cbn [li_joined listed_of].
  intros Hv. unfold materialize. cbn [li_row listed_of].
  set (r := joined_of db (vf_id f)) in *.
  replace (negb (row_local_exists _) && is_none _) with false; [eauto|]. symmetry. apply andb_false_iff.
  destruct Hv as [Hl|Hl].
  - left. apply negb_false_iff. apply local_exists_sql_spec in Hl as (c & Hc & Hp). unfold row_local_exists, select_row.
    cbn [fr_local_presence]. rewrite Hc. cbn. destruct (lc_presence c); [done|done|done].
  - right. unfold select_row. cbn [fr_archive_version_id]. unfold is_some in Hl. by apply negb_true_iff in Hl.
Qed.

Lemma elem_of_file_rows b db v d st se l :
  l ∈ file_rows b db v d st se →
  ∃ f p, f ∈ t_files db ∧ current_path_of (t_paths db) (vf_id f) = Some p ∧ l = listed_of db f p
    ∧ vf_vault_id f = v ∧ fp_vault_id p = v ∧ vf_status f = Active ∧ scope_clause d se (fp_path p) = true
    ∧ holds (VISIBLE_SQL (li_joined l)) = true ∧ state_clause b st (li_joined l) = true.
Proof.
  unfold file_rows. rewrite list_elem_of_omap. intros (f & Hf & H). apply bind_Some in H as (p & Hp & H).
  destruct (_ && _) eqn:E; [|done]. injection H as <-. bsimpl. exists f, p. repeat split; congruence.
Qed.

Lemma omap_total {A B} (f : A → option B) l : (∀ x, x ∈ l → is_Some (f x)) → length (omap f l) = length l.
Proof.
  induction l as [|x l IH]; intros H; [done|]. cbn. destruct (H x ltac:(left)) as [y ->]. cbn. f_equal. apply IH.
  intros z Hz. apply H. by right.
Qed.

(** Materialization commutes with slicing when nothing is skipped. *)
Lemma omap_take {A B} (f : A → option B) n l : (∀ x, x ∈ l → is_Some (f x)) → omap f (take n l) = take n (omap f l).
Proof.
  revert n; induction l as [|x l IH]; intros n H; [by destruct n|]. destruct n as [|n]; [done|]. cbn.
  destruct (H x ltac:(left)) as [y ->]. cbn. f_equal. apply IH. intros z Hz. apply H. by right.
Qed.

Lemma omap_drop {A B} (f : A → option B) n l : (∀ x, x ∈ l → is_Some (f x)) → omap f (drop n l) = drop n (omap f l).
Proof.
  revert n; induction l as [|x l IH]; intros n H; [by destruct n|]. destruct n as [|n]; [done|]. cbn.
  destruct (H x ltac:(left)) as [y ->]. cbn. apply IH. intros z Hz. apply H. by right.
Qed.

Lemma materialize_slice b name limit offset rows :
  (∀ l, l ∈ rows → is_Some (materialize b name l)) →
  materialize_file_items b name (slice limit offset rows) = slice limit offset (materialize_file_items b name rows).
Proof.
  intros H. unfold materialize_file_items, slice. rewrite omap_take, omap_drop; [done|done|].
  intros x Hx. apply H. rewrite <- (take_drop (Z.to_nat offset) rows). apply elem_of_app. by right.
Qed.

Lemma slice_app {A} (limit offset : Z) (l k : list A) :
  0 ≤ limit → 0 ≤ offset →
  slice limit offset (l ++ k)
  = slice limit offset l
    ++ slice (limit - Z.of_nat (length (slice limit offset l))) (Z.max 0 (offset - Z.of_nat (length l))) k.
Proof.
  intros Hl Ho. unfold slice. rewrite drop_app, take_app, length_take, !length_drop. f_equal.
  f_equal; [lia|]. f_equal. lia.
Qed.

(** Consecutive slices of one size make up the list. *)
Lemma concat_slices {A} (size : Z) (n : nat) (l : list A) :
  0 < size → Z.of_nat (length l) ≤ Z.of_nat n * size →
  concat (map (fun k => slice size (Z.of_nat k * size) l) (seq 0 n)) = l.
Proof.
  intros Hs. revert l; induction n as [|n IH]; intros l Hl; [by destruct l; [|cbn in Hl; lia]|].
  cbn [seq map concat]. rewrite <- seq_shift, map_map.
  assert (Htail : concat (map (fun k => slice size (Z.of_nat (S k) * size) l) (seq 0 n)) = drop (Z.to_nat size) l).
  { rewrite <- (IH (drop (Z.to_nat size) l)); [|rewrite length_drop; lia]. f_equal. apply map_ext. intros k.
    unfold slice. rewrite drop_drop. do 2 f_equal. lia. }
  rewrite Htail. unfold slice. replace (Z.to_nat (Z.of_nat 0 * size)) with 0%nat by lia. cbn [drop]. apply take_drop.
Qed.

(** Every row of the listing becomes an item. *)
Lemma file_rows_shown b name db v d st se l :
  l ∈ ordered_rows (file_rows b db v d st se) → is_Some (materialize b name l).
Proof.
  unfold ordered_rows. rewrite sort_by_perm. intros H.
  apply elem_of_file_rows in H as (f & p & _ & _ & -> & _ & _ & _ & _ & Hv & _). by apply visible_not_skipped.
Qed.

(** ** The listing the pages cut up *)
Definition child_folders (folders : list folder_row) (vault_id : Z) (parent_path state_filter : string) : list folder_row :=
  match folder_clause vault_id parent_path state_filter with
  | None => []
  | Some p => ordered_folders (select p folders)
  end.

Definition shown_files (b : bool) (db : catalog) (vault_id : Z) (name : string → string) (search directory state : string)
  : list file_item :=
  materialize_file_items b name (ordered_rows (file_rows b db vault_id directory state search)).

Definition whole_listing (b : bool) (db : catalog) (folders : list folder_row) (vault_id : Z) (search directory state : string)
  : list listing_item :=
  if search <>b "" then map File (shown_files b db vault_id id search "" state)
  else map (fun r => Folder (directory_row_to_item b r)) (child_folders folders vault_id directory (folder_state b state))
       ++ map File (shown_files b db vault_id (name_below directory) "" directory state).

Lemma shown_files_length b db v name se d st :
  length (shown_files b db v name se d st) = length (file_rows b db v d st se).
Proof.
  unfold shown_files, materialize_file_items. rewrite omap_total; [|apply file_rows_shown].
  unfold ordered_rows. apply Permutation_length, sort_by_perm.
Qed.

Lemma map_slice {A B} (f : A → B) limit offset l : map f (slice limit offset l) = slice limit offset (map f l).
Proof. unfold slice. by rewrite <- firstn_map, <- skipn_map. Qed.

Lemma length_slice {A} limit offset (l : list A) :
  length (slice limit offset l) = (Z.to_nat limit `min` (length l - Z.to_nat offset))%nat.
Proof. unfold slice. by rewrite length_take, length_drop. Qed.

Lemma list_direct_child_files_slice b db v d st limit offset :
  list_direct_child_files b db v d st limit offset
  = slice limit (Z.max 0 offset) (shown_files b db v (name_below d) "" d st).
Proof.
  unfold list_direct_child_files. destruct (Z.leb_spec limit 0).
  - unfold slice. by replace (Z.to_nat limit) with 0%nat by lia.
  - apply materialize_slice. apply file_rows_shown.
Qed.

Lemma count_child_directories_length folders v d st :
  count_child_directories folders v d st = Z.of_nat (length (child_folders folders v d st)).
Proof.
  unfold count_child_directories, child_folders. destruct (folder_clause _ _ _); [|done]. f_equal. symmetry.
  apply Permutation_length, sort_by_perm.
Qed.

Lemma list_child_directory_rows_slice b folders v d st limit offset :
  list_child_directory_rows b folders v d st limit offset
  = slice (Z.max 0 limit) (Z.max 0 offset) (map (directory_row_to_item b) (child_folders folders v d st)).
Proof.
  unfold list_child_directory_rows, child_folders. destruct (folder_clause _ _ _); [apply map_slice|].
  unfold slice. cbn [map]. by rewrite drop_nil, take_nil.
Qed.

Lemma browse_page_slice b db folders v d st page size :
  1 ≤ page → 1 ≤ size →
  browse_directory_page b db folders v d st page size
  = (slice size ((page - 1) * size) (whole_listing b db folders v "" d st),
     Z.of_nat (length (whole_listing b db folders v "" d st))).
Proof.
  intros Hp Hs. unfold browse_directory_page, whole_listing. cbn [negb].
  rewrite count_child_directories_length. unfold count_direct_child_files.
  rewrite <- (shown_files_length b db v (name_below d) "" d st).
  set (F := child_folders _ _ _ _). set (S := shown_files _ _ _ _ _ _ _).
  replace ("" <>b "") with false by done.
  rewrite length_app, !length_map, Nat2Z.inj_add. f_equal.
  rewrite slice_app by nia. rewrite length_slice, !length_map.
  rewrite !list_direct_child_files_slice, list_child_directory_rows_slice. fold F S.
  rewrite length_slice, length_map.
  set (o := (page - 1) * size). assert (0 ≤ o) by (subst o; nia).
  destruct (Z.ltb_spec o (Z.of_nat (length F))) as [Ho|Ho].
  - rewrite !Z.max_r, map_slice, map_map by lia. f_equal.
    destruct (Z.ltb_spec 0 (size - Z.of_nat (Z.to_nat size `min` (length F - Z.to_nat o)))).
    + rewrite map_slice. f_equal; lia.
    + unfold slice. by replace (Z.to_nat (size - _)) with 0%nat by lia.
  - replace (slice size o (map _ F)) with (@nil listing_item).
    2:{ unfold slice. rewrite drop_ge by (rewrite length_map; lia). by rewrite take_nil. }
    cbn [app]. rewrite map_slice. f_equal; lia.
Qed.

(** The pages of a listing cut up one whole, in its order and without loss
    or repetition.  Whatever page and page size are asked for (both are raised to
    at least one), the items of the page are the slice of the whole listing the
    page stands for, also where the page holds the last folders and the first
    files; the reported total is the length of the whole; and as many pages as
    the total needs, put one after the other, give the whole back. *)
Theorem listing_pages_partition b db folders v search directory state page size n :
  let whole := whole_listing b db folders v search directory state in
  let asked k := list_files_page b db folders v search directory state k size in
  pg_items (asked page) = slice (Z.max 1 size) ((Z.max 1 page - 1) * Z.max 1 size) whole
  ∧ pg_total (asked page) = Z.of_nat (length whole)
  ∧ (pg_total (asked page) ≤ Z.of_nat n * Z.max 1 size →
     concat (map (fun k => pg_items (asked (Z.of_nat k + 1))) (seq 0 n)) = whole).
Proof.
  intros whole asked.
  assert (Hpage : ∀ k, pg_items (asked k) = slice (Z.max 1 size) ((Z.max 1 k - 1) * Z.max 1 size) whole
                       ∧ pg_total (asked k) = Z.of_nat (length whole)).
  { intros k. subst asked whole. unfold list_files_page. cbn zeta.
    destruct (search <>b "") eqn:E.
    - unfold search_files_page, whole_listing. rewrite E. cbn [pg_items pg_total].
      rewrite length_map, shown_files_length. split; [|done].
      rewrite materialize_slice by apply file_rows_shown. rewrite map_slice. f_equal. apply Z.max_r. nia.
    - assert (search = "") as -> by (unfold whole_listing in *; bsimpl; done).
      rewrite browse_page_slice by lia. done. }
  split_and!; [apply Hpage|apply Hpage|]. destruct (Hpage page) as [_ ->]. intros Hn.
  rewrite <- (concat_slices (Z.max 1 size) n whole) by lia. f_equal. apply map_ext. intros k.
  destruct (Hpage (Z.of_nat k + 1)) as [-> _]. f_equal. lia.
Qed.

(** ** Direct children *)
Lemma like_any_lit_any s : like "%/%" s = has_char slash s.
Proof.
  change (like "%/%" s) with (like_tokens [AnyMany; Lit slash; AnyMany] s).
  induction s as [|a s IH]; [done|]. cbn [has_char]. rewrite <- IH.
  change (like_tokens [AnyMany; Lit slash; AnyMany] (String a s))
    with ((bool_decide (slash = a) && like_tokens [AnyMany] s) || like_tokens [AnyMany; Lit slash; AnyMany] s).
  rewrite like_any_end, andb_true_r. f_equal. apply bool_decide_ext. done.
Qed.

(** The clause keeps exactly the paths [directory/name] with no slash in the
    name, and under no directory the paths without a slash. *)
Lemma scope_clause_child directory path :
  scope_clause directory "" path = true
  ↔ ∃ name, has_char slash name = false ∧ path = (if directory =b "" then name else directory +:+ "/" +:+ name).
Proof.
  unfold scope_clause. replace ("" <>b "") with false by done.
  destruct (directory =b "") eqn:E; cbn [negb].
  - rewrite like_any_lit_any, negb_true_iff. naive_solver.
  - rewrite andb_true_iff, negb_true_iff, like_escape_prefix, starts_with_spec.
    assert (Hdeep : ∀ t, like (escape_like directory +:+ "/%/%") (directory +:+ "/" +:+ t) = has_char slash t).
    { intros t. rewrite <- like_any_lit_any. apply eq_bool_prop_intro. rewrite !Is_true_true. unfold like.
      rewrite like_parse_escape, like_literals.
      change (like_parse "/%/%") with (Lit slash :: like_parse "%/%"). split.
      - intros (u & Hu%string_app_inj_l & H). cbn in Hu. subst u. cbn [like_tokens] in H. bsimpl. done.
      - intros H. exists ("/" +:+ t). split; [done|]. cbn [like_tokens String.append]. rewrite H. done. }
    setoid_rewrite <- (assoc_L String.append). split.
    + intros [[t ->] H]. rewrite Hdeep in H. eauto.
    + intros (t & H & ->). rewrite Hdeep. eauto.
Qed.

(** The files a directory directly holds, as the catalog's rows say it. *)
Definition direct_child (b : bool) (db : catalog) (v : Z) (d state name : string) (f : vault_file) (p : file_path) : Prop :=
  f ∈ t_files db ∧ vf_vault_id f = v ∧ vf_status f = Active
  ∧ current_path_of (t_paths db) (vf_id f) = Some p ∧ fp_vault_id p = v
  ∧ has_char slash name = false ∧ fp_path p = (if d =b "" then name else d +:+ "/" +:+ name)
  ∧ holds (VISIBLE_SQL (joined_of db (vf_id f))) = true ∧ state_clause b state (joined_of db (vf_id f)) = true.

Lemma file_rows_child b db v d st l :
  l ∈ file_rows b db v d st "" ↔ ∃ name f p, direct_child b db v d st name f p ∧ l = listed_of db f p.
Proof.
  split.
  - intros H. apply elem_of_file_rows in H as (f & p & Hf & Hp & -> & Hv & Hpv & Ha & Hs & Hvis & Hst).
    apply scope_clause_child in Hs as (name & Hn & Hpath). exists name, f, p. by repeat split.
  - intros (name & f & p & (Hf & Hv & Ha & Hp & Hpv & Hn & Hpath & Hvis & Hst) & ->).
    unfold file_rows. apply list_elem_of_omap. exists f. split; [done|]. rewrite Hp. cbn [mbind option_bind].
    assert (Hs : scope_clause d "" (fp_path p) = true) by (apply scope_clause_child; eauto).
    cbn [li_joined listed_of]. rewrite Hs, Hvis, Hst, !bool_decide_eq_true_2 by congruence. done.
Qed.

Lemma materialize_fields b name l i :
  materialize b name l = Some i → it_path i = fr_path (li_row l) ∧ it_name i = name (fr_path (li_row l)).
Proof. unfold materialize. destruct (_ && _); [done|]. by intros [= <-]. Qed.

Lemma elem_of_shown_files b db v name d st i :
  i ∈ shown_files b db v name "" d st
  ↔ ∃ n f p, direct_child b db v d st n f p ∧ materialize b name (listed_of db f p) = Some i.
Proof.
  unfold shown_files, materialize_file_items. rewrite list_elem_of_omap. unfold ordered_rows.
  setoid_rewrite sort_by_perm. setoid_rewrite file_rows_child. naive_solver.
Qed.

Lemma whole_listing_file b db folders v d st i :
  File i ∈ whole_listing b db folders v "" d st ↔ i ∈ shown_files b db v (name_below d) "" d st.
Proof.
  unfold whole_listing. replace ("" <>b "") with false by done. rewrite elem_of_app, !list_elem_of_fmap. split.
  - intros [(r & [=] & _)|(j & [= ->] & H)]; done.
  - eauto.
Qed.

Lemma name_below_child d name : name_below d (if d =b "" then name else d +:+ "/" +:+ name) = name.
Proof.
  unfold name_below. destruct (d =b "") eqn:E; [done|]. clear E. induction d as [|a d IH]; [done|]. exact IH.
Qed.

(** Browsing a directory lists its direct children and nothing deeper.  A
    file item carries the path of a direct child under the name below the
    directory, which holds no slash; and every active, visible file of the Vault
    whose current path is one name below the directory, and whose state passes
    the filter, is listed.  Wildcard characters in the directory's name match
    themselves only. *)
Theorem browse_lists_direct_children b db folders v d st name path :
  (∃ i, File i ∈ whole_listing b db folders v "" d st ∧ it_name i = name ∧ it_path i = path)
  ↔ ∃ f p, direct_child b db v d st name f p ∧ fp_path p = path.
Proof.
  split.
  - intros (i & Hi & <- & <-). apply whole_listing_file, elem_of_shown_files in Hi as (n & f & p & Hd & Hm).
    apply materialize_fields in Hm as [E1 E2]. exists f, p. rewrite E1, E2. cbn [li_row listed_of select_row fr_path].
    split; [|done]. destruct Hd as (? & ? & ? & ? & ? & ? & Hpath & ? & ?).
    rewrite Hpath, name_below_child. by repeat split.
  - intros (f & p & Hd & <-). destruct (visible_not_skipped b (name_below d) db f p) as [i Hi]; [by apply Hd|].
    exists i. rewrite whole_listing_file, elem_of_shown_files. apply materialize_fields in Hi as E. destruct E as [E1 E2].
    split; [eauto 10|]. rewrite E1, E2. cbn [li_row listed_of select_row fr_path]. split; [|done].
    destruct Hd as (_ & _ & _ & _ & _ & _ & -> & _). apply name_below_child.
Qed.

(** ** The summary and the filtered listing *)
Lemma like_everything s : like (lower ("%" +:+ "%" +:+ "%")) s = true.
Proof.
  change (like_tokens [AnyMany; AnyMany; AnyMany] s = true).
  destruct s; [done|]. unfold like_tokens at 1. fold like_tokens.
  rewrite orb_true_iff. left.
  change (like_tokens [AnyMany; AnyMany] (String a s) = true).
  cbn [like_tokens]. rewrite orb_true_iff. left. apply (like_any_end (String a s)).
Qed.

Lemma wf_current_path_vault db f p :
  wf_paths db → f ∈ t_files db → current_path_of (t_paths db) (vf_id f) = Some p → fp_vault_id p = vf_vault_id f.
Proof.
  intros Hwf Hf [Hp Hq]%fetchone_some. bsimpl. destruct (wf_owner _ Hwf p Hp) as (g & Hg & Hid & Hv).
  rewrite <- Hv. f_equal. apply (NoDup_key_inj vf_id _ _ _ (wf_file_ids _ Hwf)); congruence.
Qed.

Definition row_of_state (s : protection_state) (r : joined_row) : bool := STATE_SQL r =b s.

Lemma state_name_inj s t : state_name s = state_name t → s = t.
Proof. by destruct s, t. Qed.

(** One file contributes the same to the summary and to the listing. *)
Lemma listing_counts_state db v s :
  wf_paths db →
  length (file_rows false db v "" (state_name s) "%") = length (select (row_of_state s) (summary_rows db v)).
Proof.
  intros Hwf. unfold file_rows, summary_rows.
  assert (Hin : ∀ f, f ∈ t_files db → f ∈ t_files db) by done. revert Hin.
  generalize (t_files db) at 1 3 4. intros files Hin. induction files as [|f files IH]; [done|].
  assert (IH' := IH ltac:(intros g Hg; apply Hin; by right)). clear IH.
  specialize (Hin f ltac:(left)). cbn [omap list_omap].
  destruct (current_path_of (t_paths db) (vf_id f)) as [p|] eqn:Ep; cbn [mbind option_bind]; [|exact IH'].
  assert (Hpv := wf_current_path_vault db f p Hwf Hin Ep).
  cbn [li_joined listed_of]. rewrite (bool_decide_eq_true_2 (fp_vault_id p = _)) by done.
  replace (scope_clause "" "%" (fp_path p)) with true by (symmetry; apply like_everything).
  assert (Hst : state_clause false (state_name s) (joined_of db (vf_id f)) = row_of_state s (joined_of db (vf_id f))).
  { unfold state_clause, row_of_state. replace (state_name s =b "") with false by by destruct s.
    apply bool_decide_ext. split; [apply state_name_inj|congruence]. }
  rewrite Hst, !andb_true_r.
  destruct ((vf_vault_id f =b v) && (vf_status f =b Active) && holds (VISIBLE_SQL (joined_of db (vf_id f)))); [|exact IH'].
  cbn [andb select List.filter]. destruct (row_of_state s _); cbn [length]; [f_equal|]; exact IH'.
Qed.

(** The dashboard and the listing agree.  While the Vault is observable, the
    summary holds a state exactly when some file has it, and the count it shows
    is the total the search over the Vault reports for that state's filter. *)
Theorem summary_matches_filtered_search db v s n page size :
  wf_paths db → sv_unconfirmed v = false →
  (s, n) ∈ su_states (summary false db (sv_id v))
  ↔ 0 < n ∧ n = (search_protected_vaults db [v] "" (state_name s) page size).2.
Proof.
  intros Hwf Hu. unfold search_protected_vaults, union_rows, summary. cbn [flat_map su_states andb snd].
  rewrite app_nil_r. unfold vault_rows. rewrite length_map, Hu. replace ("" =b "") with true by done.
  rewrite (listing_counts_state db (sv_id v) s Hwf). unfold row_of_state, select. rewrite <- countZ_length.
  rewrite list_elem_of_In, filter_In, <- list_elem_of_In, list_elem_of_fmap, Z.ltb_lt. cbn [snd]. split.
  - intros [(t & E & _) Hn]. injection E as <- ->. done.
  - intros [Hn ->]. split; [|done]. exists s. split; [done|]. destruct s; repeat constructor.
Qed.

(** ** Witnesses *)
Definition w_folder : folder_row :=
  {| fo_vault_id := 1; fo_path := "a"; fo_parent_path := ""; fo_name := "a"; fo_rollup := empty_rollup; fo_updated_at := 5 |}.
Definition w_listed : catalog := set_copies [w_local] w_catalog.

Lemma listing_pages_partition_witness :
  concat (map (fun k => pg_items (list_files_page false w_listed [w_folder] 1 "" "a" "" (Z.of_nat k + 1) 1)) (seq 0 1))
  = whole_listing false w_listed [w_folder] 1 "" "a" "".
Proof. apply (listing_pages_partition false w_listed [w_folder] 1 "" "a" "" 1 1 1). vm_compute. discriminate. Defined.

Lemma browse_lists_direct_children_witness :
  ∃ f p, direct_child false w_listed 1 "a" "" "b.txt" f p ∧ fp_path p = "a/b.txt".
Proof.
  apply (browse_lists_direct_children false w_listed [w_folder] 1 "a" "" "b.txt" "a/b.txt").
  eexists. split; [vm_compute; left|]. split; reflexivity.
Defined.

Lemma summary_matches_filtered_search_witness :
  (search_protected_vaults w_batch [{| sv_id := 1; sv_name := "Photos"; sv_unconfirmed := false |}] "" "pending" 1 10).2 = 1
  ∧ ∃ s, (s, 1) ∈ su_states (summary false w_batch 1).
Proof.
  split; [vm_compute; reflexivity|]. exists pending.
  apply (summary_matches_filtered_search w_batch {| sv_id := 1; sv_name := "Photos"; sv_unconfirmed := false |} pending 1 1 10
           w_batch_wf eq_refl).
  vm_compute. done.
Defined.
