(* ===== verification/EventJournal.v ===== *)
(** * EventJournal: catalog revisions and events

    Models [src/app/services/catalog_events.py]: the journal a Vault's changes are
    published in.  [vault_catalog_revisions] has a high-water mark per Vault and
    the revision from which events are kept, [catalog_events] the events.  The
    payload column holds JSON text; as elsewhere the row holds the value, and
    [dumps] is the text [json.dumps] gives for it, whose length is bounded.

    [log] is the abstract specification: a Vault's history is the list of all
    events ever published, and a mark before which they may be forgotten.
    [journal_refines_log] shows that no sequence of operations, refused ones
    included, tells the tables and the specification apart. *)
From S2P Require Import Prelude Sql PyString Json.
From stdpp Require Import pretty.
From Stdlib Require Import Ascii.
#[local] Open Scope Z_scope.
#[local] Open Scope fv_scope.

Definition MAX_EVENT_DOMAIN_LENGTH : Z := 64.
Definition MAX_EVENT_SCOPE_LENGTH : Z := 512.
Definition MAX_EVENT_PAYLOAD_BYTES : Z := 4096.
Definition MAX_EVENT_PAGE_SIZE : Z := 100.

Definition len (s : string) : Z := Z.of_nat (String.length s).

(** ** json.dumps with sorted keys and no spaces *)
Definition hex_digit (n : nat) : ascii :=
  ascii_of_nat (if Nat.ltb n 10 then 48 + n else 87 + n).

Definition quote_char : ascii := ascii_of_nat 34.

Definition escape_json (a : ascii) : string :=
  let n := nat_of_ascii a in
  if Nat.eqb n 34 then String backslash (String quote_char "")
  else if Nat.eqb n 92 then String backslash (String backslash "")
  else if Nat.eqb n 10 then String backslash "n"
  else if Nat.eqb n 13 then String backslash "r"
  else if Nat.eqb n 9 then String backslash "t"
  else if Nat.eqb n 8 then String backslash "b"
  else if Nat.eqb n 12 then String backslash "f"
  else if Nat.ltb n 32 then
    String backslash ("u00" +:+ String (hex_digit (Nat.div n 16)) (String (hex_digit (Nat.modulo n 16)) ""))
  else String a "".

Fixpoint escape_text (s : string) : string :=
  match s with EmptyString => "" | String a s => escape_json a +:+ escape_text s end.

Definition quoted (s : string) : string := String quote_char (escape_text s +:+ String quote_char "").

Fixpoint dumps (v : json) : string :=
  match v with
  | JNull => "null"
  | JBool true => "true"
  | JBool false => "false"
  | JInt z => pretty z
  | JFloat repr => repr
  | JStr s => quoted s
  | JList l => "[" +:+ PyString.join "," (map dumps l) +:+ "]"
  | JDict d =>
      let items := map (fun kv => let '(k, v) := kv in (k, quoted k +:+ ":" +:+ dumps v)) d in
      "{" +:+ PyString.join "," (map snd (sort_by (fun a b => String.leb a.1 b.1) items)) +:+ "}"
  end.

(** ** Checked arguments *)
Definition bounded_text (value : option string) (name : string) (maximum : Z) (allow_empty : bool) : result string :=
  let text := or_default value "" in
  raise! ValueError (name +:+ " must not be empty") when negb allow_empty && (py_strip text =b "");
  raise! ValueError (name +:+ " contains a NUL byte") when has_char zero text;
  raise! ValueError (name +:+ " exceeds the " +:+ pretty maximum +:+ "-character bound") when maximum <? len text;
  Ok text.

Definition positive_or_zero (value : Z) (name : string) : result Z :=
  raise! ValueError (name +:+ " must be a non-negative integer") when value <? 0;
  Ok value.

Definition json_object (value : option json) (name : string) (maximum : Z) : result (list (string * json)) :=
  match or_default value (JDict []) with
  | JDict d =>
      raise! ValueError (name +:+ " exceeds its bounded payload size") when maximum <? len (dumps (JDict d));
      Ok d
  | _ => Raise (ValueError (name +:+ " must be a JSON object"))
  end.

Definition is_lower_letter (a : ascii) : bool :=
  let n := nat_of_ascii a in Nat.leb 97 n && Nat.leb n 122.
Definition is_domain_char (a : ascii) : bool :=
  let n := nat_of_ascii a in
  is_lower_letter a || (Nat.leb 48 n && Nat.leb n 57) || (a =b "_"%char) || (a =b "."%char) || (a =b "-"%char).

Fixpoint all_chars (p : ascii → bool) (s : string) : bool :=
  match s with EmptyString => true | String a s => p a && all_chars p s end.

(** [_DOMAIN_RE.fullmatch]. *)
Definition is_domain (s : string) : bool :=
  match s with EmptyString => false | String a s => is_lower_letter a && all_chars is_domain_char s end.

Definition domain_of (value event_type : option string) : result string :=
  raise! ValueError "domain and event_type must agree when both are supplied"
    when is_some value && is_some event_type && (value <>b event_type);
  text ← bounded_text (if is_none value then event_type else value) "domain" MAX_EVENT_DOMAIN_LENGTH false;
  raise! ValueError "domain contains unsupported characters" when negb (is_domain text);
  Ok text.

(** What a publication says: the columns that do not depend on the journal. *)
Record entry := {
  en_domain : string;
  en_scope : string;
  en_payload : list (string * json);
  en_created_at : string;
}.

(** The arguments of a publication; [pa_payload_json] is the value the text
    decodes to, [Some None] when it is not JSON. *)
Record publication_args := {
  pa_vault_id : Z;
  pa_domain : option string;
  pa_event_type : option string;
  pa_scope : option string;
  pa_payload : option json;
  pa_payload_json : option (option json);
  pa_created_at : option string;
}.

(** [created_at or _now()]. *)
Definition stamp_or (value : option string) (now : string) : string :=
  if truthy value then or_default value "" else now.

Definition prepare_event (a : publication_args) (now : string) : result entry :=
  event_domain ← domain_of (pa_domain a) (pa_event_type a);
  event_scope ← bounded_text (pa_scope a) "scope" MAX_EVENT_SCOPE_LENGTH true;
  event_payload ←
    match pa_payload_json a with
    | Some decoded =>
        raise! ValueError "payload and payload_json are mutually exclusive" when is_some (pa_payload a);
        match decoded with
        | None => Raise (ValueError "payload_json must contain valid JSON")
        | Some (JDict d) => json_object (Some (JDict d)) "catalog event payload" MAX_EVENT_PAYLOAD_BYTES
        | Some _ => Raise (ValueError "payload_json must contain a JSON object")
        end
    | None => json_object (pa_payload a) "catalog event payload" MAX_EVENT_PAYLOAD_BYTES
    end;
  stamp ← bounded_text (Some (stamp_or (pa_created_at a) now)) "created_at" 128 false;
  Ok {| en_domain := event_domain; en_scope := event_scope; en_payload := event_payload; en_created_at := stamp |}.

(** ** The journal *)
Record revision_row := {
  rv_vault_id : Z;
  rv_revision : Z;
  rv_retained_from : Z;
  rv_updated_at : string;
}.

Record event_row := {
  ev_id : Z;
  ev_vault_id : Z;
  ev_revision : Z;
  ev_entry : entry;
}.

Record journal := {
  jn_vaults : list Z;
  jn_revisions : list revision_row;
  jn_events : list event_row;
  jn_next_id : Z;
}.

Definition set_revisions (l : list revision_row) (j : journal) : journal :=
  {| jn_vaults := jn_vaults j; jn_revisions := l; jn_events := jn_events j; jn_next_id := jn_next_id j |}.
Definition set_events (l : list event_row) (j : journal) : journal :=
  {| jn_vaults := jn_vaults j; jn_revisions := jn_revisions j; jn_events := l; jn_next_id := jn_next_id j |}.

Definition lock_vault (j : journal) (vault_id : Z) : result unit :=
  raise_if (negb (countZ (fun v => v =b vault_id) (jn_vaults j) =? 1))
    (LookupError ("Vault " +:+ pretty vault_id +:+ " does not exist")).

Definition revision_of (j : journal) (vault_id : Z) : option revision_row :=
  fetchone (fun r => rv_vault_id r =b vault_id) (jn_revisions j).

Definition ensure_revision_row (j : journal) (vault_id : Z) (at_ : string) : journal :=
  if exists_row (fun r => rv_vault_id r =b vault_id) (jn_revisions j) then j
  else set_revisions (jn_revisions j ++ [{| rv_vault_id := vault_id; rv_revision := 0; rv_retained_from := 1;
                                            rv_updated_at := at_ |}]) j.

Definition bump (at_ : string) (r : revision_row) : revision_row :=
  {| rv_vault_id := rv_vault_id r; rv_revision := rv_revision r + 1; rv_retained_from := rv_retained_from r;
     rv_updated_at := at_ |}.

Definition event_at (vault_id revision : Z) (e : event_row) : bool :=
  (ev_vault_id e =b vault_id) && (ev_revision e =b revision).

(** INSERT: the sequence gives the id, UNIQUE(vault_id, revision) may refuse. *)
Definition insert_event (j : journal) (vault_id revision : Z) (e : entry) : result journal :=
  raise! IntegrityError "catalog_events_vault_revision_uq" when exists_row (event_at vault_id revision) (jn_events j);
  Ok {| jn_vaults := jn_vaults j; jn_revisions := jn_revisions j;
        jn_events := jn_events j ++ [{| ev_id := jn_next_id j; ev_vault_id := vault_id; ev_revision := revision;
                                        ev_entry := e |}];
        jn_next_id := jn_next_id j + 1 |}.

Definition append_locked (j : journal) (vault_id : Z) (e : entry) : result (journal * event_row) :=
  let j := ensure_revision_row j vault_id (en_created_at e) in
  let j := set_revisions (update_where (fun r => rv_vault_id r =b vault_id) (bump (en_created_at e)) (jn_revisions j)) j in
  match revision_of j vault_id with
  | None => Raise (RuntimeError "catalog revision row disappeared during publication")
  | Some state =>
      let revision := rv_revision state in
      raise! RuntimeError "catalog revision did not advance" when revision <=? 0;
      j ← insert_event j vault_id revision e;
      match fetchone (event_at vault_id revision) (jn_events j) with
      | None => Raise (RuntimeError "catalog event disappeared during publication")
      | Some row => Ok (j, row)
      end
  end.

Definition positive_vault (vault_id : Z) : result Z :=
  v ← positive_or_zero vault_id "vault_id";
  raise! ValueError "vault_id must be positive" when v =? 0;
  Ok v.

Definition append_event (j : journal) (a : publication_args) (now : string) : result (journal * event_row) :=
  vault_id ← positive_vault (pa_vault_id a);
  e ← prepare_event a now;
  _ ← lock_vault j vault_id;
  append_locked j vault_id e.

(** [mutate_and_publish]: the mutation runs between the lock and the insert, in
    one transaction with them; [S] is the rest of the database. *)
Definition mutate_and_publish {S T} (s : S) (j : journal) (a : publication_args) (now : string)
    (mutation : S → journal → result (S * journal * T)) : result (S * journal * (T * event_row)) :=
  vault_id ← positive_vault (pa_vault_id a);
  e ← prepare_event a now;
  _ ← lock_vault j vault_id;
  '(s, j, r) ← mutation s j;
  '(j, row) ← append_locked j vault_id e;
  Ok (s, j, (r, row)).

Definition current_revision (j : journal) (vault_id : Z) : result Z :=
  vault_id ← positive_vault vault_id;
  Ok (match revision_of j vault_id with Some r => rv_revision r | None => 0 end).

Record event_page := {
  ep_current : Z;
  ep_retained_from : Z;
  ep_has_gap : bool;
  ep_has_more : bool;
  ep_events : list event_row;
}.

(** The events after a revision, in order, at most [limit] of them. *)
Definition events_after (j : journal) (vault_id after_revision limit : Z) : list event_row :=
  take (Z.to_nat limit)
    (sort_by (fun a b => ev_revision a <=? ev_revision b)
       (select (fun e => (ev_vault_id e =b vault_id) && (after_revision <? ev_revision e)) (jn_events j))).

Definition high_water (j : journal) (vault_id : Z) : Z * Z :=
  match revision_of j vault_id with Some r => (rv_revision r, rv_retained_from r) | None => (0, 1) end.

Definition read_events (j : journal) (vault_id after_revision limit : Z) : result event_page :=
  vault_id ← positive_or_zero vault_id "vault_id";
  after_revision ← positive_or_zero after_revision "after_revision";
  raise! ValueError "vault_id must be positive" when vault_id =? 0;
  raise! ValueError "limit must be positive" when limit <=? 0;
  let limit := Z.min limit MAX_EVENT_PAGE_SIZE in
  let '(current, retained_from) := high_water j vault_id in
  let rows := events_after j vault_id after_revision (limit + 1) in
  let has_more := limit <? Z.of_nat (length rows) in
  let visible := take (Z.to_nat limit) rows in
  let expected := Z.max (after_revision + 1) retained_from in
  let has_gap := (after_revision <? retained_from - 1)
                 || match visible with r :: _ => expected <? ev_revision r | [] => after_revision <? current end in
  Ok {| ep_current := current; ep_retained_from := retained_from; ep_has_gap := has_gap; ep_has_more := has_more;
        ep_events := visible |}.

Record prune_report := {
  pn_deleted : Z;
  pn_revision : Z;
  pn_retained_from : Z;
}.

Definition retain (retained_from : Z) (at_ : string) (r : revision_row) : revision_row :=
  {| rv_vault_id := rv_vault_id r; rv_revision := rv_revision r; rv_retained_from := retained_from;
     rv_updated_at := at_ |}.

Definition prune_events (j : journal) (vault_id retain_from_revision : Z) (updated_at : option string) (now : string)
  : result (journal * prune_report) :=
  vault_id ← positive_or_zero vault_id "vault_id";
  retain_from ← positive_or_zero retain_from_revision "retain_from_revision";
  raise! ValueError "vault_id must be positive" when vault_id =? 0;
  raise! ValueError "retain_from_revision must be positive" when retain_from =? 0;
  stamp ← bounded_text (Some (stamp_or updated_at now)) "updated_at" 128 false;
  _ ← lock_vault j vault_id;
  match revision_of j vault_id with
  | None =>
      raise! ValueError "cannot retain beyond an uninitialized revision" when retain_from <>b 1;
      Ok (j, {| pn_deleted := 0; pn_revision := 0; pn_retained_from := 1 |})
  | Some state =>
      let current := rv_revision state in
      raise! ValueError "retain_from_revision cannot skip future revisions" when current + 1 <? retain_from;
      let dead e := (ev_vault_id e =b vault_id) && (ev_revision e <? retain_from) in
      let deleted := countZ dead (jn_events j) in
      let retained_from := Z.max (rv_retained_from state) retain_from in
      let j := set_events (select (fun e => negb (dead e)) (jn_events j)) j in
      let j := set_revisions (update_where (fun r => rv_vault_id r =b vault_id) (retain retained_from stamp) (jn_revisions j)) j in
      Ok (j, {| pn_deleted := Z.max deleted 0; pn_revision := current; pn_retained_from := retained_from |})
  end.

(** ** The specification: a history per Vault *)
Record log := {
  lg_entries : list entry;      (* every event ever published, oldest first *)
  lg_retained : Z;              (* the first revision that is still kept *)
}.

Definition no_log : log := {| lg_entries := []; lg_retained := 1 |}.

Record history := {
  hs_vaults : list Z;
  hs_logs : gmap Z log;
}.

Definition log_of (h : history) (vault_id : Z) : log := or_default (hs_logs h !! vault_id) no_log.
Definition set_log (vault_id : Z) (l : log) (h : history) : history :=
  {| hs_vaults := hs_vaults h; hs_logs := <[vault_id := l]> (hs_logs h) |}.

(** The n-th event of a Vault has revision n. *)
Fixpoint number (n : Z) (l : list entry) : list (Z * entry) :=
  match l with [] => [] | e :: l => (n, e) :: number (n + 1) l end.

Definition lg_length (l : log) : Z := Z.of_nat (length (lg_entries l)).

(** The events after a revision that are kept. *)
Definition kept_after (after : Z) (l : log) : list (Z * entry) :=
  drop (Z.to_nat (Z.max after (lg_retained l - 1))) (number 1 (lg_entries l)).

Inductive journal_op :=
  | Publish (a : publication_args) (now : string)
  | Read (vault_id after_revision limit : Z)
  | Prune (vault_id retain_from : Z) (updated_at : option string) (now : string)
  | Revision (vault_id : Z).

Inductive answer :=
  | Published (vault_id revision : Z) (e : entry)
  | Page (current retained_from : Z) (has_gap has_more : bool) (events : list (Z * entry))
  | Pruned (r : prune_report)
  | AtRevision (revision : Z).

Definition history_lock (h : history) (vault_id : Z) : result unit :=
  raise_if (negb (countZ (fun v => v =b vault_id) (hs_vaults h) =? 1))
    (LookupError ("Vault " +:+ pretty vault_id +:+ " does not exist")).

Definition spec_publish (h : history) (a : publication_args) (now : string) : result (history * answer) :=
  v ← positive_vault (pa_vault_id a);
  e ← prepare_event a now;
  _ ← history_lock h v;
  let l := log_of h v in
  Ok (set_log v {| lg_entries := lg_entries l ++ [e]; lg_retained := lg_retained l |} h,
      Published v (lg_length l + 1) e).

Definition spec_read (h : history) (vault_id after limit : Z) : result (history * answer) :=
  v ← positive_or_zero vault_id "vault_id";
  after ← positive_or_zero after "after_revision";
  raise! ValueError "vault_id must be positive" when v =? 0;
  raise! ValueError "limit must be positive" when limit <=? 0;
  let limit := Z.min limit MAX_EVENT_PAGE_SIZE in
  let l := log_of h v in
  Ok (h, Page (lg_length l) (lg_retained l) (after <? lg_retained l - 1)
           (limit <? Z.of_nat (length (kept_after after l))) (take (Z.to_nat limit) (kept_after after l))).

Definition spec_prune (h : history) (vault_id retain_from : Z) (updated_at : option string) (now : string)
  : result (history * answer) :=
  v ← positive_or_zero vault_id "vault_id";
  n ← positive_or_zero retain_from "retain_from_revision";
  raise! ValueError "vault_id must be positive" when v =? 0;
  raise! ValueError "retain_from_revision must be positive" when n =? 0;
  _ ← bounded_text (Some (stamp_or updated_at now)) "updated_at" 128 false;
  _ ← history_lock h v;
  match hs_logs h !! v with
  | None =>
      raise! ValueError "cannot retain beyond an uninitialized revision" when n <>b 1;
      Ok (h, Pruned {| pn_deleted := 0; pn_revision := 0; pn_retained_from := 1 |})
  | Some l =>
      raise! ValueError "retain_from_revision cannot skip future revisions" when lg_length l + 1 <? n;
      let m := Z.max (lg_retained l) n in
      Ok (set_log v {| lg_entries := lg_entries l; lg_retained := m |} h,
          Pruned {| pn_deleted := m - lg_retained l; pn_revision := lg_length l; pn_retained_from := m |})
  end.

Definition spec_exec (h : history) (op : journal_op) : result (history * answer) :=
  match op with
  | Publish a now => spec_publish h a now
  | Read v after limit => spec_read h v after limit
  | Prune v n at_ now => spec_prune h v n at_ now
  | Revision v => v ← positive_vault v; Ok (h, AtRevision (lg_length (log_of h v)))
  end.

(** The same operations on the tables; an event's id is not part of the answer. *)
Definition row_entry (e : event_row) : Z * entry := (ev_revision e, ev_entry e).

Definition exec (j : journal) (op : journal_op) : result (journal * answer) :=
  match op with
  | Publish a now => '(j, e) ← append_event j a now; Ok (j, Published (ev_vault_id e) (ev_revision e) (ev_entry e))
  | Read v after limit =>
      p ← read_events j v after limit;
      Ok (j, Page (ep_current p) (ep_retained_from p) (ep_has_gap p) (ep_has_more p) (map row_entry (ep_events p)))
  | Prune v n at_ now => '(j, r) ← prune_events j v n at_ now; Ok (j, Pruned r)
  | Revision v => r ← current_revision j v; Ok (j, AtRevision r)
  end.

(** A refused operation leaves the state as it was. *)
Definition advance {S A} (step : S → journal_op → result (S * A)) (s : S) (op : journal_op) : S :=
  match step s op with Ok (s, _) => s | Raise _ => s end.

Fixpoint outputs {S A} (step : S → journal_op → result (S * A)) (s : S) (ops : list journal_op) : list (result A) :=
  match ops with
  | [] => []
  | op :: ops => (snd <$> step s op) :: outputs step (advance step s op) ops
  end.

Definition new_journal (vaults : list Z) : journal :=
  {| jn_vaults := vaults; jn_revisions := []; jn_events := []; jn_next_id := 1 |}.
Definition new_history (vaults : list Z) : history := {| hs_vaults := vaults; hs_logs := ∅ |}.

(** ** The relation *)
Definition of_vault (v : Z) (j : journal) : list event_row := select (fun e => ev_vault_id e =b v) (jn_events j).

Definition log_ok (l : log) : Prop := 1 ≤ lg_retained l ≤ lg_length l + 1.

Definition represents_vault (j : journal) (v : Z) (o : option log) : Prop :=
  match o with
  | None => revision_of j v = None ∧ of_vault v j = []
  | Some l =>
      log_ok l ∧ map row_entry (of_vault v j) = kept_after 0 l
      ∧ ∃ r, revision_of j v = Some r ∧ rv_revision r = lg_length l ∧ rv_retained_from r = lg_retained l
  end.

Definition represents (j : journal) (h : history) : Prop :=
  jn_vaults j = hs_vaults h ∧ ∀ v, represents_vault j v (hs_logs h !! v).

(** ** Numbered lists *)
Lemma number_app n l k : number n (l ++ k) = number n l ++ number (n + Z.of_nat (length l)) k.
Proof.
  revert n; induction l as [|e l IH]; intros n; cbn [app number length]; [f_equal; lia|].
  rewrite IH. do 3 f_equal. lia.
Qed.

Lemma length_number n l : length (number n l) = length l.
Proof. revert n; induction l; intros n; cbn; auto. Qed.

Lemma drop_number k n l : drop k (number n l) = number (n + Z.of_nat k) (drop k l).
Proof.
  revert n l; induction k as [|k IH]; intros n [|e l]; cbn [drop number]; try done; [do 2 f_equal; lia|].
  rewrite IH. f_equal. lia.
Qed.

Lemma elem_of_number n l z e : (z, e) ∈ number n l → n ≤ z < n + Z.of_nat (length l).
Proof.
  revert n; induction l as [|x l IH]; intros n H; [by apply not_elem_of_nil in H|]. cbn [number length] in *.
  apply elem_of_cons in H as [[= -> ->]|H]; [lia|]. apply IH in H. lia.
Qed.

Lemma number_sorted n l : StronglySorted (fun a b => (a.1 <=? b.1) = true) (number n l).
Proof.
  revert n; induction l as [|e l IH]; intros n; cbn; constructor; [auto|]. apply Forall_forall. intros [z x] H.
  apply elem_of_number in H. cbn. lia.
Qed.

Lemma filter_number after n l :
  select (fun x => after <? x.1) (number n l) = drop (Z.to_nat (after + 1 - n)) (number n l).
Proof.
  revert n; induction l as [|e l IH]; intros n; [cbn [number]; by rewrite drop_nil|]. cbn [number select List.filter].
  unfold select in IH. cbn [fst]. destruct (Z.ltb_spec after n).
  - replace (Z.to_nat (after + 1 - n)) with 0%nat by lia. cbn [drop]. f_equal. rewrite IH.
    by replace (Z.to_nat (after + 1 - (n + 1))) with 0%nat by lia.
  - rewrite IH. replace (Z.to_nat (after + 1 - n)) with (S (Z.to_nat (after + 1 - (n + 1)))) by lia. done.
Qed.

Lemma kept_after_number after l :
  log_ok l → 0 ≤ after →
  kept_after after l = select (fun x => after <? x.1) (kept_after 0 l).
Proof.
  intros Hl Ha. unfold kept_after, log_ok in *. rewrite !drop_number, filter_number, drop_number, drop_drop.
  f_equal; [lia|]. f_equal. lia.
Qed.

(** ** Sorting and tables *)
Lemma sort_by_sorted_id {A} (le : A → A → bool) l : StronglySorted (fun a b => le a b = true) l → sort_by le l = l.
Proof.
  induction 1 as [|x l Hl IH Hx]; [done|]. cbn. rewrite IH. destruct l as [|y l]; [done|]. cbn.
  apply Forall_cons in Hx as [-> _]. done.
Qed.

Lemma sort_by_map {A B} (f : A → B) (le : B → B → bool) l :
  map f (sort_by (fun a b => le (f a) (f b)) l) = sort_by le (map f l).
Proof.
  induction l as [|x l IH]; [done|]. cbn. rewrite <- IH. generalize (sort_by (fun a b => le (f a) (f b)) l).
  intros k. induction k as [|y k IHk]; [done|]. cbn. destruct (le (f x) (f y)); [done|]. cbn. by rewrite IHk.
Qed.

Lemma select_map {A B} (f : A → B) p l : map f (select (fun x => p (f x)) l) = select p (map f l).
Proof. unfold select. induction l as [|x l IH]; [done|]. cbn. destruct (p (f x)); cbn; by rewrite IH. Qed.

Lemma select_and {A} (p q : A → bool) l : select (fun x => p x && q x) l = select q (select p l).
Proof. unfold select. induction l as [|x l IH]; [done|]. cbn. destruct (p x); cbn; [|done]. destruct (q x); by rewrite IH. Qed.

Lemma select_app {A} (p : A → bool) l k : select p (l ++ k) = select p l ++ select p k.
Proof. apply List.filter_app. Qed.

Lemma fetchone_app {A} (p : A → bool) l k :
  fetchone p (l ++ k) = match fetchone p l with Some r => Some r | None => fetchone p k end.
Proof. induction l as [|x l IH]; [done|]. cbn. destruct (p x); [done|exact IH]. Qed.

Lemma fetchone_update_same {A} (p : A → bool) f t :
  (∀ r, p (f r) = p r) → fetchone p (update_where p f t) = f <$> fetchone p t.
Proof.
  intros Hp. induction t as [|r t IH]; [done|]. cbn. destruct (p r) eqn:E; [by rewrite Hp, E|]. rewrite E. exact IH.
Qed.

Lemma fetchone_update_other {A} (p q : A → bool) f t :
  (∀ r, p r = true → q r = false ∧ q (f r) = false) → fetchone q (update_where p f t) = fetchone q t.
Proof.
  intros H. induction t as [|r t IH]; [done|]. cbn. destruct (p r) eqn:E.
  - destruct (H r E) as [-> ->]. exact IH.
  - destruct (q r); [done|exact IH].
Qed.

Lemma exists_row_fetchone {A} (p : A → bool) t : exists_row p t = is_some (fetchone p t).
Proof. induction t as [|r t IH]; [done|]. cbn. by destruct (p r). Qed.

(** ** The step *)
Definition agree {A} (R : journal → history → Prop) (x : result (journal * A)) (y : result (history * A)) : Prop :=
  match x, y with
  | Ok (j, a), Ok (h, b) => a = b ∧ R j h
  | Raise e, Raise e' => e = e'
  | _, _ => False
  end.

Lemma agree_bind {A C} R (m : result C) (f : C → result (journal * A)) (g : C → result (history * A)) :
  (∀ c, m = Ok c → agree R (f c) (g c)) → agree R (m ≫= f) (m ≫= g).
Proof. destruct m; cbn; auto. Qed.

Lemma represents_log_of j h v : represents j h → represents_vault j v (hs_logs h !! v) ∧ log_ok (log_of h v)
  ∧ map row_entry (of_vault v j) = kept_after 0 (log_of h v)
  ∧ high_water j v = (lg_length (log_of h v), lg_retained (log_of h v)).
Proof.
  intros [_ H]. specialize (H v). split; [done|]. unfold log_of, high_water. destruct (hs_logs h !! v) as [l|]; cbn in H.
  - destruct H as (Hl & Hm & r & -> & Hr & Hret). cbn. by rewrite Hr, Hret.
  - destruct H as [-> ->]. done.
Qed.

Lemma events_after_log j h v after limit :
  represents j h → 0 ≤ after →
  map row_entry (events_after j v after limit) = take (Z.to_nat limit) (kept_after after (log_of h v)).
Proof.
  intros HR Ha. destruct (represents_log_of j h v HR) as (_ & Hl & Hm & _). unfold events_after.
  rewrite <- firstn_map. f_equal.
  rewrite (sort_by_map row_entry (fun a b : Z * entry => a.1 <=? b.1)), select_and.
  rewrite (select_map row_entry (fun x : Z * entry => after <? x.1)). fold (of_vault v j). rewrite Hm.
  rewrite <- kept_after_number by done. apply sort_by_sorted_id. unfold kept_after. rewrite drop_number. apply number_sorted.
Qed.

(** The revision row of one Vault changes, the others stay. *)
Lemma revision_of_update j v w f :
  (∀ r, rv_vault_id (f r) = rv_vault_id r) →
  revision_of (set_revisions (update_where (fun r => rv_vault_id r =b v) f (jn_revisions j)) j) w
  = if decide (w = v) then f <$> revision_of j v else revision_of j w.
Proof.
  intros Hf. unfold revision_of. cbn [jn_revisions set_revisions]. destruct (decide (w = v)) as [->|Hne].
  - apply fetchone_update_same. intros r. by rewrite Hf.
  - apply fetchone_update_other. intros r E. bsimpl. rewrite Hf. split; apply bool_decide_eq_false_2; congruence.
Qed.

Lemma ensure_revision_row_of j v at_ w :
  revision_of (ensure_revision_row j v at_) w
  = if decide (w = v)
    then Some (or_default (revision_of j v) {| rv_vault_id := v; rv_revision := 0; rv_retained_from := 1; rv_updated_at := at_ |})
    else revision_of j w.
Proof.
  unfold ensure_revision_row. rewrite exists_row_fetchone. fold (revision_of j v).
  destruct (revision_of j v) as [r|] eqn:E; cbn [is_some is_none negb or_default].
  - destruct (decide (w = v)) as [->|]; done.
  - unfold revision_of in *. cbn [jn_revisions set_revisions]. rewrite fetchone_app.
    destruct (decide (w = v)) as [->|Hne].
    + rewrite E. cbn. by rewrite bool_decide_eq_true_2.
    + clear E. cbn [fetchone List.find rv_vault_id]. rewrite (bool_decide_eq_false_2 (v = w)) by congruence.
      by destruct (fetchone _ (jn_revisions j)).
Qed.

Lemma ensure_revision_row_rest j v at_ :
  jn_vaults (ensure_revision_row j v at_) = jn_vaults j ∧ jn_events (ensure_revision_row j v at_) = jn_events j
  ∧ jn_next_id (ensure_revision_row j v at_) = jn_next_id j.
Proof. unfold ensure_revision_row. by destruct (exists_row _ _). Qed.

Lemma kept_after_snoc l e :
  log_ok l →
  kept_after 0 {| lg_entries := lg_entries l ++ [e]; lg_retained := lg_retained l |}
  = kept_after 0 l ++ [(lg_length l + 1, e)].
Proof.
  intros Hl. unfold kept_after, log_ok, lg_length in *. cbn [lg_entries lg_retained].
  rewrite number_app, drop_app, length_number.
  replace (Z.to_nat _ - length (lg_entries l))%nat with 0%nat by lia. cbn. do 3 f_equal. lia.
Qed.

(** No kept event has a revision beyond the high-water mark. *)
Lemma kept_revision_bound j h v e :
  represents j h → e ∈ jn_events j → ev_vault_id e = v → lg_retained (log_of h v) ≤ ev_revision e ≤ lg_length (log_of h v).
Proof.
  intros HR He Hv. destruct (represents_log_of j h v HR) as (_ & Hl & Hm & _).
  assert (Hin : row_entry e ∈ map row_entry (of_vault v j)).
  { apply list_elem_of_fmap_2. apply elem_of_select. by rewrite bool_decide_eq_true_2. }
  rewrite Hm in Hin. unfold kept_after in Hin. rewrite drop_number in Hin. apply elem_of_number in Hin.
  rewrite length_drop in Hin. unfold log_ok, lg_length in *. lia.
Qed.

Lemma represents_vault_ext j j' v o :
  revision_of j' v = revision_of j v → of_vault v j' = of_vault v j → represents_vault j v o → represents_vault j' v o.
Proof. intros E1 E2. destruct o; cbn; by rewrite E1, E2. Qed.

Lemma append_locked_log j h v e :
  represents j h →
  ∃ j' row, append_locked j v e = Ok (j', row) ∧ ev_vault_id row = v
    ∧ row_entry row = (lg_length (log_of h v) + 1, e)
    ∧ represents j' (set_log v {| lg_entries := lg_entries (log_of h v) ++ [e]; lg_retained := lg_retained (log_of h v) |} h).
Proof.
  intros HR. destruct (represents_log_of j h v HR) as (_ & Hl & Hm & Hw).
  destruct (ensure_revision_row_rest j v (en_created_at e)) as (E1 & E2 & E3).
  unfold append_locked. set (j0 := ensure_revision_row j v (en_created_at e)) in *.
  rewrite revision_of_update by done. rewrite decide_True by done.
  unfold j0 at 1. rewrite ensure_revision_row_of, decide_True by done. cbn [fmap option_fmap option_map].
  set (state := or_default (revision_of j v) _).
  assert (Hs : rv_revision state = lg_length (log_of h v) ∧ rv_retained_from state = lg_retained (log_of h v)).
  { unfold high_water in Hw. subst state. destruct (revision_of j v); cbn; by injection Hw as <- <-. }
  destruct Hs as [Hs1 Hs2]. cbn [rv_revision bump].
  assert (Hpos : (rv_revision state + 1 <=? 0) = false) by (unfold lg_length in *; lia).
  rewrite Hpos. cbn [raise_if mbind result_bind].
  set (j1 := set_revisions _ j0). unfold insert_event.
  assert (Hfree : exists_row (event_at v (rv_revision state + 1)) (jn_events j1) = false).
  { cbn [j1 jn_events set_revisions]. rewrite E2. apply exists_row_false. intros r Hr. unfold event_at.
    apply andb_false_iff. destruct (decide (ev_vault_id r = v)); [right|left; by apply bool_decide_eq_false_2].
    apply bool_decide_eq_false_2. assert (H := kept_revision_bound j h v r HR Hr ltac:(done)). lia. }
  rewrite Hfree. cbn [raise_if mbind result_bind jn_events].
  assert (Hnone : fetchone (event_at v (rv_revision state + 1)) (jn_events j1) = None).
  { rewrite exists_row_fetchone in Hfree. by destruct (fetchone _ _). }
  rewrite fetchone_app, Hnone. cbn [fetchone List.find]. unfold event_at at 1. cbn [ev_vault_id ev_revision].
  rewrite !bool_decide_eq_true_2 by done. cbn [andb].
  eexists _, _. split; [done|]. cbn [ev_vault_id row_entry ev_revision ev_entry]. split; [done|].
  split; [by rewrite <- Hs1|]. split; [cbn; rewrite E1; by apply HR|]. intros w. cbn [hs_logs set_log].
  destruct (decide (w = v)) as [->|Hne].
  - rewrite lookup_insert_eq. cbn [represents_vault]. split; [unfold log_ok, lg_length in *; cbn; rewrite length_app; cbn; lia|].
    split.
    + rewrite kept_after_snoc, <- Hm by done. unfold of_vault. cbn [jn_events j1 set_revisions]. rewrite E2, select_app, map_app.
      f_equal. cbn. rewrite bool_decide_eq_true_2 by done. cbn. by rewrite <- Hs1.
    + exists (bump (en_created_at e) state). split; [|cbn; unfold lg_length in *; rewrite Hs2, Hs1; cbn; rewrite length_app; cbn; lia].
      change (revision_of j1 v = Some (bump (en_created_at e) state)). subst j1. rewrite revision_of_update, decide_True by done.
      unfold j0. rewrite ensure_revision_row_of, decide_True by done. done.
  - rewrite lookup_insert_ne by done. destruct HR as [_ HR]. specialize (HR w).
    apply (represents_vault_ext j); [|unfold of_vault; cbn [jn_events j1 set_revisions]; rewrite E2, select_app|done].
    + change (revision_of j1 w = revision_of j w). subst j1. rewrite revision_of_update, decide_False by done.
      unfold j0. by rewrite ensure_revision_row_of, decide_False by done.
    + cbn. rewrite bool_decide_eq_false_2 by done. by rewrite app_nil_r.
Qed.

Lemma length_kept_after after l :
  log_ok l → 0 ≤ after → Z.of_nat (length (kept_after after l)) = Z.max 0 (lg_length l - Z.max after (lg_retained l - 1)).
Proof. intros Hl Ha. unfold kept_after, log_ok, lg_length in *. rewrite length_drop, length_number. lia. Qed.

Lemma read_step j h v after limit : represents j h → agree represents (exec j (Read v after limit)) (spec_read h v after limit).
Proof.
  intros HR. unfold exec, spec_read, read_events.
  destruct (positive_or_zero v "vault_id") as [v'|]; [cbn [mbind result_bind]|done].
  destruct (positive_or_zero after "after_revision") as [a|] eqn:Ea; [cbn [mbind result_bind]|done].
  assert (Ha : 0 ≤ a) by (unfold positive_or_zero in Ea; inv_ok; bsimpl; lia). clear Ea v after.
  destruct (v' =? 0); [done|]. destruct (Z.leb_spec limit 0); [done|]. cbn [raise_if mbind result_bind].
  set (n := Z.min limit MAX_EVENT_PAGE_SIZE). assert (0 < n) by (unfold n, MAX_EVENT_PAGE_SIZE; lia).
  destruct (represents_log_of j h v' HR) as (_ & Hl & _ & ->).
  assert (Hrows := events_after_log j h v' a (n + 1) HR Ha). set (rows := events_after _ _ _ _) in *.
  set (l := log_of h v') in *. cbn [ep_current ep_retained_from ep_has_gap ep_has_more ep_events agree mbind result_bind].
  split; [|done].
  assert (Hvis : map row_entry (take (Z.to_nat n) rows) = take (Z.to_nat n) (kept_after a l)).
  { rewrite <- firstn_map, Hrows, take_take. f_equal. lia. }
  assert (Hlen : length rows = length (take (Z.to_nat (n + 1)) (kept_after a l))) by (rewrite <- Hrows, length_map; done).
  rewrite length_take in Hlen. rewrite Hvis. f_equal.
  - destruct (Z.ltb_spec a (lg_retained l - 1)) as [|Hge]; [done|]. cbn [orb].
    assert (Hk := length_kept_after a l Hl Ha).
    destruct (take (Z.to_nat n) rows) as [|r vis] eqn:Ev.
    + apply Z.ltb_ge. cbn in Hvis. symmetry in Hvis. apply (f_equal length) in Hvis. rewrite length_take in Hvis. cbn in Hvis. lia.
    + apply Z.ltb_ge. cbn [map row_entry] in Hvis. unfold kept_after in Hvis. rewrite drop_number in Hvis.
      destruct (drop _ (lg_entries l)) as [|e k]; [by cbn [number] in Hvis; rewrite take_nil in Hvis|].
      replace (Z.to_nat n) with (S (Z.to_nat (n - 1))) in Hvis by lia. cbn in Hvis. injection Hvis as -> _ _. lia.
  - apply eq_bool_prop_intro. rewrite !Is_true_true, !Z.ltb_lt. lia.
Qed.

Lemma select_select {A} (p q : A → bool) l : select p (select q l) = select (fun x => q x && p x) l.
Proof. symmetry. apply select_and. Qed.

Lemma select_ext {A} (p q : A → bool) l : (∀ x, p x = q x) → select p l = select q l.
Proof. intros H. unfold select. by apply List.filter_ext. Qed.

Lemma select_split {A} (p : A → bool) l : (length (select p l) + length (select (fun x => negb (p x)) l))%nat = length l.
Proof. unfold select. induction l as [|x l IH]; [done|]. cbn. destruct (p x); cbn; lia. Qed.

(** What pruning leaves of a Vault's rows. *)
Lemma of_vault_pruned j v n w :
  let dead e := (ev_vault_id e =b v) && (ev_revision e <? n) in
  select (fun e => ev_vault_id e =b w) (select (fun e => negb (dead e)) (jn_events j))
  = if decide (w = v) then select (fun e => negb (ev_revision e <? n)) (of_vault v j) else of_vault w j.
Proof.
  intros dead. unfold of_vault. rewrite select_select. destruct (decide (w = v)) as [->|Hne].
  - rewrite <- select_and. apply select_ext. intros e. subst dead. cbn beta.
    destruct (ev_vault_id e =b v); cbn [andb]; [by rewrite andb_true_r|apply andb_false_r].
  - apply select_ext. intros e. subst dead. cbn beta. destruct (decide (ev_vault_id e = w)) as [<-|].
    + rewrite (bool_decide_eq_true_2 (ev_vault_id e = ev_vault_id e)), bool_decide_eq_false_2 by done. done.
    + rewrite (bool_decide_eq_false_2 (ev_vault_id e = w)) by done. apply andb_false_r.
Qed.

Lemma kept_pruned l n m s :
  log_ok l → 1 ≤ n → m = Z.max (lg_retained l) n → s = kept_after 0 l →
  select (fun x => negb (x.1 <? n)) s = kept_after 0 {| lg_entries := lg_entries l; lg_retained := m |}.
Proof.
  intros Hl Hn -> ->. transitivity (select (fun x => n - 1 <? x.1) (kept_after 0 l)).
  - apply select_ext. intros x. apply eq_bool_prop_intro. rewrite !Is_true_true, negb_true_iff, Z.ltb_ge, Z.ltb_lt. lia.
  - rewrite <- kept_after_number by lia || done. unfold kept_after. cbn [lg_entries lg_retained]. f_equal. lia.
Qed.

Lemma prune_step j h v n at_ now :
  represents j h → agree represents (exec j (Prune v n at_ now)) (spec_prune h v n at_ now).
Proof.
  intros HR. unfold exec, spec_prune, prune_events.
  destruct (positive_or_zero v "vault_id") as [v'|]; [cbn [mbind result_bind]|done].
  destruct (positive_or_zero n "retain_from_revision") as [k|] eqn:Ek; [cbn [mbind result_bind]|done].
  assert (Hk : 0 ≤ k) by (unfold positive_or_zero in Ek; inv_ok; bsimpl; lia). clear Ek v n.
  destruct (v' =? 0); [done|]. destruct (Z.eqb_spec k 0); [done|]. cbn [raise_if mbind result_bind].
  destruct (bounded_text _ _ _ _) as [stamp|]; [cbn [mbind result_bind]|done].
  unfold lock_vault, history_lock. destruct HR as [HV HR]. rewrite HV.
  destruct (countZ (fun v => v =b v') (hs_vaults h) =? 1); [|done]. cbn [negb raise_if mbind result_bind].
  assert (Hv := HR v'). destruct (hs_logs h !! v') as [l|] eqn:El; cbn [represents_vault] in Hv.
  2:{ destruct Hv as [-> _]. destruct (k <>b 1); [done|]. cbn. split; [done|]. by split. }
  destruct Hv as (Hl & Hm & r & Er & Hr & Hret). rewrite Er, Hr, Hret. destruct (lg_length l + 1 <? k) eqn:Eb; [done|]. bsimpl.
  cbn [raise_if mbind result_bind agree]. split.
  - do 2 f_equal. rewrite countZ_length. fold (select (fun e => (ev_vault_id e =b v') && (ev_revision e <? k)) (jn_events j)).
    rewrite select_and. fold (of_vault v' j).
    assert (Hs := select_split (fun e => ev_revision e <? k) (of_vault v' j)).
    assert (H1 : length (of_vault v' j) = length (kept_after 0 l)) by (rewrite <- Hm, length_map; done).
    assert (H2 : length (select (fun e => negb (ev_revision e <? k)) (of_vault v' j))
                 = length (kept_after 0 {| lg_entries := lg_entries l; lg_retained := Z.max (lg_retained l) k |})).
    { rewrite <- (kept_pruned l k _ _ Hl ltac:(lia) eq_refl eq_refl), <- Hm, <- (select_map row_entry), length_map. done. }
    assert (L1 := length_kept_after 0 l Hl ltac:(lia)).
    assert (L2 := length_kept_after 0 {| lg_entries := lg_entries l; lg_retained := Z.max (lg_retained l) k |}).
    unfold log_ok, lg_length in *. cbn [lg_entries lg_retained] in *. lia.
  - split; [done|]. intros w. cbn [hs_logs set_log]. destruct (decide (w = v')) as [->|Hne].
    + rewrite lookup_insert_eq. cbn [represents_vault]. split; [unfold log_ok, lg_length in *; cbn; lia|]. split.
      * unfold of_vault at 1. cbn [jn_events set_revisions set_events]. rewrite of_vault_pruned, decide_True by done.
        rewrite <- (kept_pruned l k _ _ Hl ltac:(lia) eq_refl Hm), <- (select_map row_entry). done.
      * exists (retain (Z.max (lg_retained l) k) stamp r). split; [|done].
        rewrite (revision_of_update (set_events _ j)), decide_True by done. change (revision_of (set_events _ j) v') with (revision_of j v').
        by rewrite Er.
    + rewrite lookup_insert_ne by done. apply (represents_vault_ext j); [| |apply HR].
      * by rewrite (revision_of_update (set_events _ j)), decide_False by done.
      * unfold of_vault at 1. cbn [jn_events set_revisions set_events]. by rewrite of_vault_pruned, decide_False by done.
Qed.

Lemma exec_step j h op : represents j h → agree represents (exec j op) (spec_exec h op).
Proof.
  intros HR. destruct op as [a now|v after limit|v n at_ now|v]; cbn [spec_exec].
  - unfold exec, spec_publish, append_event. destruct (positive_vault _) as [v|]; [cbn [mbind result_bind]|done].
    destruct (prepare_event a now) as [e|]; [cbn [mbind result_bind]|done].
    unfold lock_vault, history_lock. rewrite (proj1 HR).
    destruct (countZ _ _ =? 1); [|done]. cbn [negb raise_if mbind result_bind].
    destruct (append_locked_log j h v e HR) as (j' & row & -> & Hv & Hrow & HR'). cbn. split; [|done].
    unfold row_entry in Hrow. injection Hrow as -> ->. by rewrite Hv.
  - by apply read_step.
  - by apply prune_step.
  - unfold exec, current_revision. destruct (positive_vault v) as [w|]; [|done]. cbn. split; [|done].
    destruct (represents_log_of j h w HR) as (_ & _ & _ & Hw). unfold high_water in Hw.
    destruct (revision_of j w); by injection Hw as -> _.
Qed.

Lemma outputs_agree ops j h : represents j h → outputs exec j ops = outputs spec_exec h ops.
Proof.
  revert j h; induction ops as [|op ops IH]; intros j h HR; [done|]. assert (Hs := exec_step j h op HR).
  cbn [outputs]. unfold advance. destruct (exec j op) as [[j' a]|e], (spec_exec h op) as [[h' b]|e']; cbn in Hs; try done.
  - destruct Hs as [-> Hs]. cbn. f_equal. by apply IH.
  - subst. cbn. f_equal. by apply IH.
Qed.

Lemma represents_new vaults : represents (new_journal vaults) (new_history vaults).
Proof. split; [done|]. intros v. cbn [hs_logs new_history]. by rewrite lookup_empty. Qed.

(** C33: the journal tables implement the history they stand for.  From a new
    database, every sequence of publications, reads, prunings and revision
    queries gives, answer by answer and refusal by refusal, what the abstract
    history gives: revisions count the publications of the Vault from one
    without holes, a page holds the kept events after the cursor in order, the
    gap flag says exactly that an event after the cursor has been pruned, and
    pruning forgets nothing at or after the mark. *)
Theorem journal_refines_log vaults ops :
  outputs exec (new_journal vaults) ops = outputs spec_exec (new_history vaults) ops.
Proof. apply outputs_agree, represents_new. Qed.
