(* ===== verification/EventStream.v ===== *)
(** * EventStream: from the journal to the browser

    Models [src/app/services/catalog_event_hub.py] (signals, their coalescing, the
    subscribers of a process) and [src/app/services/catalog_event_stream.py] (the
    bounded catch-up, the tick of a stream with its authorization, the frames of
    [iter_catalog_event_sse]), and the one-shot [catalog_revision_snapshot] of
    [src/app/main.py].  A stream is a function of what it meets: each turn of its
    loop carries the database the tick reads and the answers of the shutdown flag
    and of the disconnect probe.  The hub only shortens a wait, so it does not
    appear in the frames; its objects are a heap, because the registry and the
    stream share them.  [repr] is the text Python's [str] gives a list or a dict. *)
From S2P Require Import Prelude Sql PyString Json Schema OperationPolicies CatalogBatch Sessions EventJournal.
From stdpp Require Import pretty.
From Stdlib Require Import Ascii.
#[local] Open Scope Z_scope.
#[local] Open Scope fv_scope.

Definition DEFAULT_INVALIDATE_DOMAINS : list string := ["files"; "stats"].
Definition MAX_CATCHUP_EVENTS : Z := Z.min 64 MAX_EVENT_PAGE_SIZE.

Record signal := {
  sg_vault_id : Z;
  sg_revision : Z;
  sg_domains : list string;
  sg_has_gap : bool;
}.

Section stream.
Context (repr : json → string).

(** ** Signals *)

(** [str(item)]. *)
Definition py_str (v : json) : string :=
  match v with
  | JStr s => s
  | JInt z => pretty z
  | JBool true => "True"
  | JBool false => "False"
  | JNull => "None"
  | JFloat r => r
  | JList _ | JDict _ => repr v
  end.

(** The loop over [domains], and [ordered or list(DEFAULT_INVALIDATE_DOMAINS)]. *)
Definition ordered_domains (domains : list string) : list string :=
  match dict_fromkeys domains with [] => DEFAULT_INVALIDATE_DOMAINS | l => l end.

Definition stripped (l : list string) : list string := List.filter (fun s => s <>b "") (map py_strip l).

Fixpoint normalize_invalidate_domains (value : json) : list string :=
  match value with
  | JNull => ordered_domains DEFAULT_INVALIDATE_DOMAINS
  | JStr s => ordered_domains (stripped (split_on ","%char s))
  | JDict d =>
      let get key :=
        (fix get (d : list (string * json)) : option (list string) :=
           match d with
           | [] => None
           | (k, v) :: d =>
               if k =b key then match v with JNull => None | _ => Some (normalize_invalidate_domains v) end else get d
           end) d in
      match get "invalidate" with
      | Some domains => domains
      | None => match get "domains" with Some domains => domains | None => ordered_domains DEFAULT_INVALIDATE_DOMAINS end
      end
  | JList l => ordered_domains (stripped (map py_str l))
  | _ => ordered_domains DEFAULT_INVALIDATE_DOMAINS
  end.

Definition text_list (l : list string) : json := JList (map JStr l).

(** [signal_from_event] on the mapping the catch-up builds, which has [has_gap]
    false, and on a published event, which has none. *)
Definition signal_from_event (vault_id revision : Z) (domain : string) (payload : list (string * json)) : signal :=
  let domains := normalize_invalidate_domains (JDict payload) in
  let domains := if (domains =b []) && (domain <>b "") then normalize_invalidate_domains (JStr domain) else domains in
  {| sg_vault_id := vault_id; sg_revision := revision; sg_domains := domains; sg_has_gap := false |}.

Definition merge_signal (merged : option signal) (s : option signal) : result (option signal) :=
  match s with
  | None => Ok merged
  | Some s =>
      let domains := normalize_invalidate_domains (text_list (sg_domains s)) in
      match merged with
      | None => Ok (Some {| sg_vault_id := sg_vault_id s; sg_revision := sg_revision s; sg_domains := domains;
                            sg_has_gap := sg_has_gap s |})
      | Some m =>
          raise! ValueError "cannot coalesce catalog signals across Vaults" when sg_vault_id s <>b sg_vault_id m;
          Ok (Some {| sg_vault_id := sg_vault_id m; sg_revision := Z.max (sg_revision m) (sg_revision s);
                      sg_domains := normalize_invalidate_domains (text_list (sg_domains m ++ domains));
                      sg_has_gap := sg_has_gap m || sg_has_gap s |})
      end
  end.

Definition coalesce_signals (signals : list (option signal)) : result (option signal) :=
  foldM_r merge_signal None signals.

(** ** Subscribers of this process *)
Record subscriber := {
  sub_queue : list (option signal);
  sub_closed : bool;
  sub_loop_closed : bool;
}.

(** The queue has no bound: [put_nowait] never finds it full. *)
Definition offer (s : subscriber) (sig : signal) : result subscriber :=
  if sub_closed s then Ok s
  else
    let '(pending, rest) := match sub_queue s with [] => (None, []) | x :: rest => (x, rest) end in
    merged ← match pending with
             | Some p => coalesce_signals [Some p; Some sig]
             | None => Ok (Some sig)
             end;
    Ok {| sub_queue := rest ++ [merged]; sub_closed := false; sub_loop_closed := sub_loop_closed s |}.

Definition close_subscriber (s : subscriber) : subscriber :=
  if sub_closed s then s
  else {| sub_queue := sub_queue s ++ [None]; sub_closed := true; sub_loop_closed := sub_loop_closed s |}.

(** [hb_subscribers] maps a Vault to object references, [hb_heap] has the objects. *)
Record hub := {
  hb_subscribers : gmap Z (list nat);
  hb_heap : gmap nat subscriber;
  hb_next : nat;
}.

Definition holders (h : hub) (vault_id : Z) : list nat := or_default (hb_subscribers h !! vault_id) [].

Definition subscribe (h : hub) (vault_id : Z) : hub * nat :=
  let r := hb_next h in
  ({| hb_subscribers := <[vault_id := holders h vault_id ++ [r]]> (hb_subscribers h);
      hb_heap := <[r := {| sub_queue := []; sub_closed := false; sub_loop_closed := false |}]> (hb_heap h);
      hb_next := S r |}, r).

Definition unsubscribe (h : hub) (vault_id : Z) (r : nat) : hub :=
  match holders h vault_id with
  | [] => h
  | l =>
      let rest := List.filter (fun x => x <>b r) l in
      {| hb_subscribers := match rest with [] => delete vault_id (hb_subscribers h)
                                         | _ => <[vault_id := rest]> (hb_subscribers h) end;
         hb_heap := alter close_subscriber r (hb_heap h);
         hb_next := hb_next h |}
  end.

(** The offers of one publication, in the order of registration; one made through
    [call_soon_threadsafe] runs later on the subscriber's loop, with the same effect. *)
Definition offer_to (sig : signal) (heap : gmap nat subscriber) (r : nat) : result (gmap nat subscriber) :=
  match heap !! r with
  | None => Ok heap
  | Some s => if sub_loop_closed s then Ok heap else s' ← offer s sig; Ok (<[r := s']> heap)
  end.

Definition publish_signal (h : hub) (e : event_row) : result (hub * signal) :=
  let sig := signal_from_event (ev_vault_id e) (ev_revision e) (en_domain (ev_entry e)) (en_payload (ev_entry e)) in
  heap ← foldM_r (offer_to sig) (hb_heap h) (holders h (sg_vault_id sig));
  Ok ({| hb_subscribers := hb_subscribers h; hb_heap := heap; hb_next := hb_next h |}, sig).

Definition subscriber_count (h : hub) (vault_id : option Z) : Z :=
  match vault_id with
  | None => sumZ (map (fun x => Z.of_nat (length x.2)) (map_to_list (hb_subscribers h)))
  | Some v => Z.of_nat (length (holders h v))
  end.

(** ** Catch-up *)
Definition invalidate_all_signal (vault_id revision : Z) : signal :=
  {| sg_vault_id := vault_id; sg_revision := revision; sg_domains := normalize_invalidate_domains JNull;
     sg_has_gap := true |}.

Definition quiet_signal (vault_id revision : Z) : signal :=
  {| sg_vault_id := vault_id; sg_revision := revision; sg_domains := []; sg_has_gap := false |}.

Definition decoded_signal (row : event_row) : option signal :=
  Some (signal_from_event (ev_vault_id row) (ev_revision row) (en_domain (ev_entry row)) (en_payload (ev_entry row))).

Record catchup := {
  cu_signal : signal;
  cu_events_read : Z;
  cu_truncated : bool;
  cu_statements : Z;
}.

Definition coalesced_catchup_from_connection (j : journal) (vault_id after_revision max_events : Z) : result catchup :=
  let max_events := Z.max 1 (Z.min max_events MAX_EVENT_PAGE_SIZE) in
  let '(current, retained_from) := high_water j vault_id in
  let answer sig n t k := Ok {| cu_signal := sig; cu_events_read := n; cu_truncated := t; cu_statements := k |} in
  if (current <=? after_revision) && (retained_from - 1 <=? after_revision) then answer (quiet_signal vault_id current) 0 false 1
  else if after_revision <? retained_from - 1 then answer (invalidate_all_signal vault_id current) 0 true 1
  else
    let rows := events_after j vault_id after_revision (max_events + 1) in
    let has_more := max_events <? Z.of_nat (length rows) in
    let visible := take (Z.to_nat max_events) rows in
    let events_read := Z.of_nat (length visible) in
    match visible with
    | [] =>
        if after_revision <? current then answer (invalidate_all_signal vault_id current) 0 true 2
        else answer (quiet_signal vault_id current) 0 false 2
    | first :: _ =>
        let expected := Z.max (after_revision + 1) retained_from in
        if expected <? ev_revision first then answer (invalidate_all_signal vault_id current) events_read true 2
        else if has_more then answer (invalidate_all_signal vault_id current) events_read true 2
        else
          merged ← coalesce_signals (map decoded_signal visible);
          match merged with
          | None => answer (quiet_signal vault_id current) events_read false 2
          | Some m => answer m events_read false 2
          end
    end.

Definition coalesced_catchup_signal (j : journal) (vault_id after_revision max_events : Z) : result signal :=
  cu_signal <$> coalesced_catchup_from_connection j vault_id (Z.max 0 after_revision) max_events.

(** [catalog_revision_snapshot]: the signal, and whether anything changed. *)
Definition catalog_revision_snapshot (j : journal) (vault_id after_revision : Z) : result (signal * bool) :=
  s ← coalesced_catchup_signal j vault_id after_revision MAX_CATCHUP_EVENTS;
  Ok (s, sg_has_gap s || (after_revision <? sg_revision s)).

(** ** The tick *)
Inductive stream_error :=
  | session_revoked
  | session_expired
  | session_version_mismatch
  | vault_access_revoked
  | vault_switched.

Record stream_db := {
  sd_auth : auth_db;
  sd_vaults : list vault;
  sd_journal : journal;
}.

Record tick := {
  tk_result : stream_error + signal;      (* [inl] is [ok=False] *)
  tk_session_vault_id : option Z;
  tk_statements : Z;
  tk_events_read : Z;
  tk_truncated : bool;
}.

Definition refused (e : stream_error) (v : option Z) : tick :=
  {| tk_result := inl e; tk_session_vault_id := v; tk_statements := 1; tk_events_read := 0; tk_truncated := false |}.

Definition stream_tick_snapshot (db : stream_db) (session_id : string) (user_id vault_id after_revision max_events : Z)
    (now : timestamp) (explicit_vault : bool) : result tick :=
  let after_revision := Z.max 0 after_revision in
  match fetchone (fun s => (s_id s =b session_id) && (s_user_id s =b user_id)
                           && is_some (user_by_id (sd_auth db) (s_user_id s))) (sessions (sd_auth db)) with
  | None => Ok (refused session_revoked None)
  | Some s =>
      if is_some (s_revoked_at s) then Ok (refused session_revoked None)
      else if negb (bool_decide (Some (s_session_version s) = u_session_version <$> user_by_id (sd_auth db) (s_user_id s)))
      then Ok (refused session_version_mismatch None)
      else if session_is_expired s now then Ok (refused session_expired None)
      else if negb explicit_vault && (s_vault_id s <>b Some vault_id) then Ok (refused vault_switched (s_vault_id s))
      else if negb (exists_row (fun v => (va_id v =b vault_id) && va_enabled v
                                         && (va_decommission_state v =b Some "active")) (sd_vaults db))
      then Ok (refused vault_access_revoked (s_vault_id s))
      else
        c ← coalesced_catchup_from_connection (sd_journal db) vault_id after_revision max_events;
        Ok {| tk_result := inr (cu_signal c); tk_session_vault_id := s_vault_id s; tk_statements := 1 + cu_statements c;
              tk_events_read := cu_events_read c; tk_truncated := cu_truncated c |}
  end.

(** [session_stream_state]. *)
Definition session_stream_state (db : auth_db) (session_id : string) (now : timestamp) : option (option Z) :=
  match fetchone (fun s => (s_id s =b session_id) && is_some (user_by_id db (s_user_id s))) (sessions db) with
  | None => None
  | Some s =>
      if is_some (s_revoked_at s)
         || negb (bool_decide (Some (s_session_version s) = u_session_version <$> user_by_id db (s_user_id s)))
         || session_is_expired s now then None
      else Some (s_vault_id s)
  end.

(** ** The stream *)
Inductive frame :=
  | FError (code : stream_error) (vault_id : Z) (current_vault_id : option Z)
  | FHello (vault_id revision : Z) (event_id : option Z)
  | FCatalog (s : signal)
  | FKeepalive.

(** What one turn of the loop meets, in the order it looks. *)
Record turn := {
  tn_shutdown : bool;
  tn_disconnected : bool;
  tn_shutdown_waited : bool;
  tn_disconnected_waited : bool;
  tn_db : stream_db;
  tn_now : timestamp;
  tn_shutdown_ticked : bool;
}.

Record stream_args := {
  sa_vault_id : Z;
  sa_user_id : Z;
  sa_session_id : string;
  sa_resume_after : Z;
  sa_subscribe : bool;
  sa_max_events : Z;
  sa_explicit_vault : bool;
}.

Section one_stream.
Context (a : stream_args).

Definition tick_of (t : turn) (last_seen : Z) : result tick :=
  stream_tick_snapshot (tn_db t) (sa_session_id a) (sa_user_id a) (sa_vault_id a) last_seen (sa_max_events a)
    (tn_now t) (sa_explicit_vault a).

(** One turn: the frames it yields, and the cursor to go on with, [None] when the
    stream ends. *)
Definition stream_turn (t : turn) (last_seen : Z) : result (list frame * option Z) :=
  if tn_shutdown t || tn_disconnected t || tn_shutdown_waited t || tn_disconnected_waited t then Ok ([], None)
  else
    k ← tick_of t last_seen;
    if tn_shutdown_ticked t then Ok ([], None)
    else match tk_result k with
         | inl code => Ok ([FError code (sa_vault_id a) (tk_session_vault_id k)], None)
         | inr s =>
             if (sg_revision s <=? last_seen) && negb (sg_has_gap s) then Ok ([FKeepalive], Some last_seen)
             else Ok ([FCatalog s], Some (Z.max last_seen (sg_revision s)))
         end.

Fixpoint stream_loop (last_seen : Z) (turns : list turn) : result (list frame * option Z) :=
  match turns with
  | [] => Ok ([], Some last_seen)
  | t :: turns =>
      '(frames, next) ← stream_turn t last_seen;
      match next with
      | None => Ok (frames, None)
      | Some last_seen => '(more, last) ← stream_loop last_seen turns; Ok (frames ++ more, last)
      end
  end.

(** [first] is the tick before the loop: its [tn_shutdown] is the flag at the
    start, its [tn_shutdown_ticked] the flag after the tick. *)
Definition iter_catalog_event_sse (first : turn) (turns : list turn) : result (list frame * option Z) :=
  if tn_shutdown first then Ok ([], None)
  else
    initial ← tick_of first (sa_resume_after a);
    if tn_shutdown_ticked first then Ok ([], None)
    else match tk_result initial with
         | inl code => Ok ([FError code (sa_vault_id a) (tk_session_vault_id initial)], None)
         | inr s =>
             let hello := FHello (sa_vault_id a) (sg_revision s) (if 0 <? sg_revision s then Some (sg_revision s) else None) in
             let '(frames, last_seen) :=
               if (sa_resume_after a <? sg_revision s) || sg_has_gap s
               then ([hello; FCatalog s], Z.max (sa_resume_after a) (sg_revision s))
               else ([hello], sa_resume_after a) in
             if negb (sa_subscribe a) then Ok (frames, None)
             else '(more, last) ← stream_loop last_seen turns; Ok (frames ++ more, last)
         end.
End one_stream.
End stream.

(** ** Domains *)
Lemma elem_of_foldl_fromkeys (l acc : list string) x :
  x ∈ foldl (fun ks k => if k ∈b ks then ks else ks ++ [k]) acc l ↔ x ∈ acc ∨ x ∈ l.
Proof.
  revert acc; induction l as [|y l IH]; intros acc; cbn [foldl]; [rewrite elem_of_nil; tauto|].
  rewrite IH, elem_of_cons. case_bool_decide; [set_solver|]. rewrite elem_of_app, list_elem_of_singleton. tauto.
Qed.

Lemma elem_of_dict_fromkeys l x : x ∈ dict_fromkeys l ↔ x ∈ l.
Proof. unfold dict_fromkeys. rewrite elem_of_foldl_fromkeys, elem_of_nil. tauto. Qed.

Definition clean (l : list string) : Prop := ∀ x, x ∈ l → py_strip x = x ∧ x ≠ "".

Lemma elem_of_stripped l x : x ∈ stripped l ↔ x ≠ "" ∧ ∃ y, y ∈ l ∧ x = py_strip y.
Proof.
  unfold stripped. rewrite list_elem_of_In, filter_In, in_map_iff. setoid_rewrite list_elem_of_In.
  rewrite negb_true_iff, bool_decide_eq_false. naive_solver.
Qed.

Lemma stripped_clean l : clean (stripped l).
Proof. intros x (Hx & y & _ & ->)%elem_of_stripped. split; [apply strip_idempotent|done]. Qed.

Lemma elem_of_ordered l x : x ∈ l → x ∈ ordered_domains l.
Proof.
  intros Hx%elem_of_dict_fromkeys. unfold ordered_domains. destruct (dict_fromkeys l); [|done].
  by apply not_elem_of_nil in Hx.
Qed.

Lemma ordered_nonempty l : ordered_domains l ≠ [].
Proof. unfold ordered_domains. by destruct (dict_fromkeys l). Qed.

Lemma ordered_clean l : clean l → clean (ordered_domains l).
Proof.
  intros Hl. unfold ordered_domains. destruct (dict_fromkeys l) as [|y k] eqn:E.
  - intros x Hx. unfold DEFAULT_INVALIDATE_DOMAINS in Hx. rewrite !elem_of_cons, elem_of_nil in Hx.
    by destruct Hx as [->|[->|[]]].
  - intros x Hx. apply Hl. apply elem_of_dict_fromkeys. by rewrite E.
Qed.

Lemma default_clean : clean DEFAULT_INVALIDATE_DOMAINS.
Proof.
  intros x Hx. unfold DEFAULT_INVALIDATE_DOMAINS in Hx. rewrite !elem_of_cons, elem_of_nil in Hx.
  by destruct Hx as [->|[->|[]]].
Qed.

#[export] Hint Resolve ordered_nonempty ordered_clean stripped_clean default_clean : fv.

Section facts.
Context (repr : json → string).
Local Notation normalize := (normalize_invalidate_domains repr).
Local Notation coalesce := (coalesce_signals repr).

(** Whatever the payload holds, the domains are never empty and never need
    stripping. *)
Lemma normalize_good : ∀ v, normalize v ≠ [] ∧ clean (normalize v).
Proof.
  fix IH 1. intros v. destruct v as [|b|z|r|s|l|d]; cbn [normalize_invalidate_domains]; try by eauto with fv.
  assert (Hget : ∀ key domains,
    (fix get (d : list (string * json)) : option (list string) :=
       match d with
       | [] => None
       | (k, v) :: d => if k =b key then match v with JNull => None | _ => Some (normalize v) end else get d
       end) d = Some domains → domains ≠ [] ∧ clean domains).
  { intros key domains. induction d as [|[k v] d IHd]; [done|]. destruct (k =b key); [|exact IHd].
    pose proof (IH v) as Hv. destruct v; intros H; try discriminate H; injection H as <-; exact Hv. }
  pose proof (Hget "invalidate") as H1. pose proof (Hget "domains") as H2. clear Hget. revert H1 H2.
  repeat match goal with |- context [match ?x with Some _ => _ | None => _ end] => generalize x; intros [domains|] end;
    intros H1 H2; eauto with fv.
Qed.

Lemma normalize_text_list l x : clean l → x ∈ l → x ∈ normalize (text_list l).
Proof.
  intros Hl Hx. apply elem_of_ordered, elem_of_stripped. destruct (Hl x Hx) as [Hs Hne]. split; [done|].
  exists x. rewrite Hs. split; [|done]. rewrite map_map. cbn. by rewrite map_id.
Qed.

(** The domains a client must refresh for an event. *)
Definition event_domains (e : entry) : list string := normalize (JDict (en_payload e)).

Lemma signal_from_event_domains v n d p :
  sg_domains (signal_from_event repr v n d p) = normalize (JDict p).
Proof.
  unfold signal_from_event. cbn [sg_domains]. destruct (normalize_good (JDict p)) as [H _].
  by rewrite bool_decide_eq_false_2.
Qed.

Definition row_domains (r : event_row) : list string := event_domains (ev_entry r).

Lemma merge_decoded m r :
  sg_vault_id m = ev_vault_id r →
  merge_signal repr (Some m) (decoded_signal repr r)
  = Ok (Some {| sg_vault_id := sg_vault_id m; sg_revision := Z.max (sg_revision m) (ev_revision r);
                sg_domains := normalize (text_list (sg_domains m ++ normalize (text_list (row_domains r))));
                sg_has_gap := sg_has_gap m |}).
Proof.
  intros Hm. unfold decoded_signal, merge_signal. rewrite signal_from_event_domains.
  change (sg_vault_id (signal_from_event _ _ _ _ _)) with (ev_vault_id r). rewrite bool_decide_eq_true_2 by done.
  cbn [negb raise_if mbind result_bind]. do 3 f_equal. apply orb_false_r.
Qed.

Lemma merge_rows v rows m :
  (∀ r, r ∈ rows → ev_vault_id r = v) → sg_vault_id m = v → clean (sg_domains m) →
  ∃ m', foldM_r (merge_signal repr) (Some m) (map (decoded_signal repr) rows) = Ok (Some m')
    ∧ sg_vault_id m' = v ∧ sg_has_gap m' = sg_has_gap m
    ∧ sg_revision m' = foldl Z.max (sg_revision m) (map ev_revision rows)
    ∧ (∀ x, x ∈ sg_domains m → x ∈ sg_domains m')
    ∧ (∀ r x, r ∈ rows → x ∈ row_domains r → x ∈ sg_domains m').
Proof.
  revert m; induction rows as [|r rows IH]; intros m Hv Hm Hc.
  { exists m. repeat split; [done..|]. intros r x Hr. by apply not_elem_of_nil in Hr. }
  cbn [map foldM_r]. rewrite merge_decoded by (rewrite Hm; symmetry; apply Hv; by left). cbn [mbind result_bind].
  set (ds := normalize (text_list (row_domains r))).
  assert (Hds : clean ds) by apply normalize_good.
  assert (Happ : clean (sg_domains m ++ ds)) by (intros x [?|?]%elem_of_app; auto).
  edestruct (IH {| sg_vault_id := sg_vault_id m; sg_revision := Z.max (sg_revision m) (ev_revision r);
                   sg_domains := normalize (text_list (sg_domains m ++ ds)); sg_has_gap := sg_has_gap m |})
    as (m' & -> & H1 & H2 & H3 & H4 & H5); [intros; apply Hv; by right|done|apply normalize_good|].
  exists m'. cbn [sg_domains] in H4. do 4 (split; [done|]).
  split; [intros x Hx; apply H4, normalize_text_list; [done|apply elem_of_app; by left]|].
  intros r' x [->|Hr']%elem_of_cons Hx; [|by eapply H5].
  apply H4, normalize_text_list; [done|]. apply elem_of_app. right.
  apply normalize_text_list; [apply normalize_good|done].
Qed.

Lemma coalesce_rows v r rows :
  (∀ r', r' ∈ r :: rows → ev_vault_id r' = v) →
  ∃ m, coalesce (map (decoded_signal repr) (r :: rows)) = Ok (Some m)
    ∧ sg_vault_id m = v ∧ sg_has_gap m = false
    ∧ sg_revision m = foldl Z.max (ev_revision r) (map ev_revision rows)
    ∧ (∀ r' x, r' ∈ r :: rows → x ∈ row_domains r' → x ∈ sg_domains m).
Proof.
  intros Hv. unfold coalesce_signals. cbn [map foldM_r].
  set (m0 := {| sg_vault_id := ev_vault_id r; sg_revision := ev_revision r;
                sg_domains := normalize (text_list (row_domains r)); sg_has_gap := false |}).
  assert (E : merge_signal repr None (decoded_signal repr r) = Ok (Some m0)).
  { unfold decoded_signal, merge_signal. by rewrite signal_from_event_domains. }
  rewrite E. cbn [mbind result_bind].
  destruct (merge_rows v rows m0) as (m & -> & H1 & H2 & H3 & H4 & H5).
  - intros r' Hr'. apply Hv. by right.
  - apply (Hv r). by left.
  - apply normalize_good.
  - exists m. do 4 (split; [done|]). intros r' x [->|Hr']%elem_of_cons Hx; [|by eapply H5].
    apply H4, normalize_text_list; [apply normalize_good|done].
Qed.

(** ** The catch-up *)
Lemma foldl_max_number n l r0 :
  n - 1 ≤ r0 → foldl Z.max r0 (map fst (number n l)) = Z.max r0 (n - 1 + Z.of_nat (length l)).
Proof.
  revert n r0; induction l as [|e l IH]; intros n r0 H; cbn [number map foldl length]; [lia|].
  rewrite IH by (cbn; lia). cbn. lia.
Qed.

Definition covers (s : signal) (e : entry) : Prop :=
  sg_has_gap s = true ∨ ∀ x, x ∈ event_domains e → x ∈ sg_domains s.

Lemma events_after_vault j v after n r : r ∈ events_after j v after n → ev_vault_id r = v.
Proof.
  unfold events_after. intros H. assert (H' : r ∈ sort_by (fun a b => ev_revision a <=? ev_revision b)
    (select (fun e => (ev_vault_id e =b v) && (after <? ev_revision e)) (jn_events j))).
  { rewrite <- (take_drop (Z.to_nat n)). apply elem_of_app. by left. }
  rewrite sort_by_perm in H'. apply elem_of_select in H' as [_ H']. by bsimpl.
Qed.

(** Rows that stand for numbered entries. *)
Lemma row_entry_revision rows : map ev_revision rows = map fst (map row_entry rows).
Proof. by rewrite map_map. Qed.

(** What a catch-up answers, in terms of the history. *)
Record caught_up (h : history) (v after max_events : Z) (c : catchup) : Prop := {
  cu_vault : sg_vault_id (cu_signal c) = v;
  cu_current : sg_revision (cu_signal c) = lg_length (log_of h v);
  cu_covers : ∀ n e, (n, e) ∈ number 1 (lg_entries (log_of h v)) → after < n → covers (cu_signal c) e;
  cu_gap : sg_has_gap (cu_signal c) = true
    ↔ after < lg_retained (log_of h v) - 1
      ∨ Z.max 1 (Z.min max_events MAX_EVENT_PAGE_SIZE) < lg_length (log_of h v) - after;
  cu_read : 0 ≤ cu_events_read c ≤ Z.max 1 (Z.min max_events MAX_EVENT_PAGE_SIZE);
  cu_cost : cu_statements c ≤ 2;
}.

Lemma kept_after_no_gap l after :
  log_ok l → 0 ≤ after → lg_retained l - 1 ≤ after →
  kept_after after l = number (after + 1) (drop (Z.to_nat after) (lg_entries l)).
Proof. intros Hl Ha Hr. unfold kept_after. rewrite drop_number. f_equal; [lia|]. f_equal. lia. Qed.

Lemma number_after l n e after :
  0 ≤ after → (n, e) ∈ number 1 l → after < n → (n, e) ∈ number (after + 1) (drop (Z.to_nat after) l).
Proof.
  intros Ha H Hn. rewrite <- (take_drop (Z.to_nat after) l), number_app in H. apply elem_of_app in H as [H|H].
  - apply elem_of_number in H. rewrite length_take in H. lia.
  - rewrite length_take in H. destruct (decide (Z.to_nat after ≤ length l)%nat).
    + replace (after + 1) with (1 + Z.of_nat (Z.to_nat after `min` length l)) by lia. done.
    + rewrite drop_ge in H by lia. by apply not_elem_of_nil in H.
Qed.

Lemma catchup_follows_history j h v after max_events :
  represents j h → 0 ≤ after ≤ lg_length (log_of h v) →
  ∃ c, coalesced_catchup_from_connection repr j v after max_events = Ok c ∧ caught_up h v after max_events c.
Proof.
  intros HR Ha. destruct (represents_log_of j h v HR) as (_ & Hl & _ & Hw).
  unfold coalesced_catchup_from_connection. rewrite Hw.
  set (l := log_of h v) in *. set (n := Z.max 1 (Z.min max_events MAX_EVENT_PAGE_SIZE)).
  assert (Hn : 1 ≤ n) by lia.
  destruct (Z.ltb_spec after (lg_retained l - 1)) as [Hgap|Hgap].
  { replace (_ && _) with false by (symmetry; apply andb_false_iff; right; lia). eexists. split; [done|].
    split; fold l n; cbn; [done..|by left|split; [by left|done]|lia|lia]. }
  replace (lg_retained l - 1 <=? after) with true by lia. rewrite andb_true_r.
  destruct (Z.leb_spec (lg_length l) after) as [Hend|Hend].
  { eexists. split; [done|]. split; fold l n; cbn; [done..| | |lia|lia].
    - intros k e Hk%elem_of_number Hak. unfold lg_length in *. lia.
    - split; [done|]. unfold lg_length in *. lia. }
  assert (Hrows := events_after_log j h v after (n + 1) HR (proj1 Ha)). fold l in Hrows.
  rewrite kept_after_no_gap in Hrows by (done || lia).
  set (rows := events_after j v after (n + 1)) in *.
  assert (Hvault : ∀ r, r ∈ rows → ev_vault_id r = v) by (intros r; apply events_after_vault).
  set (k := drop (Z.to_nat after) (lg_entries l)) in *.
  assert (Hk : Z.of_nat (length k) = lg_length l - after) by (unfold k, lg_length in *; rewrite length_drop; lia).
  assert (Hlen : length rows = (Z.to_nat (n + 1) `min` length k)%nat).
  { rewrite <- (length_map row_entry), Hrows, length_take, length_number. done. }
  assert (Hfst : ∀ r rest, take (Z.to_nat n) rows = r :: rest → ev_revision r = after + 1).
  { intros r rest Hr. apply (f_equal (map row_entry)) in Hr. rewrite <- firstn_map, Hrows, take_take in Hr.
    destruct k as [|e k']; [cbn [number] in Hr; rewrite take_nil in Hr; discriminate Hr|].
    replace (Z.to_nat n `min` Z.to_nat (n + 1))%nat with (S (Z.to_nat (n - 1))) in Hr by lia. cbn in Hr.
    by injection Hr as <- _ _. }
  destruct (take (Z.to_nat n) rows) as [|r rest] eqn:Ev.
  { exfalso. apply (f_equal length) in Ev. rewrite length_take in Ev. cbn in Ev. lia. }
  rewrite (Hfst r rest eq_refl). replace (Z.max (after + 1) (lg_retained l) <? after + 1) with false by lia.
  assert (Hread : length (r :: rest) = (Z.to_nat n `min` length rows)%nat) by (rewrite <- Ev, length_take; done).
  destruct (Z.ltb_spec n (Z.of_nat (length rows))) as [Hmore|Hmore].
  { eexists. split; [done|]. split; fold l n; cbn [cu_signal cu_events_read cu_statements]; [done..|by left|split; [|done]|lia|lia].
    intros _. right. lia. }
  assert (Hall : r :: rest = rows) by (rewrite <- Ev; apply take_ge; lia).
  assert (Hent : map row_entry rows = number (after + 1) k) by (rewrite Hrows; apply take_ge; rewrite length_number; lia).
  destruct (coalesce_rows v r rest) as (m & -> & H1 & H2 & H3 & H4); [by rewrite Hall|].
  cbn [mbind result_bind]. eexists. split; [done|].
  split; fold l n; cbn [cu_signal cu_events_read cu_statements]; [done| | | |lia|lia].
  - rewrite <- Hall in Hent. destruct k as [|e k']; [discriminate Hent|]. cbn [map number row_entry] in Hent.
    injection Hent as _ _ Hent. rewrite H3, row_entry_revision, Hent, (Hfst r rest eq_refl), foldl_max_number by lia.
    cbn [length] in Hk. lia.
  - intros q e Hq Haq. right. intros x Hx. apply (number_after _ _ _ after) in Hq; [|lia|done]. fold k in Hq. rewrite <- Hent in Hq.
    apply list_elem_of_fmap in Hq as (r' & Er & Hr'). rewrite <- Hall in Hr'. apply (H4 r' x Hr').
    unfold row_domains. injection Er as _ ->. done.
  - rewrite H2. split; [done|]. intros [?|?]; lia.
Qed.
End facts.

(** ** The stream and the history it follows *)

(** The state operations lead to. *)
Definition run {S A} (step : S → journal_op → result (S * A)) (s : S) (ops : list journal_op) : S :=
  foldl (advance step) s ops.

(** The turns read one journal that others keep writing: before each turn any
    operations may run.  The history runs along. *)
Inductive observed : journal → history → list turn → journal → history → Prop :=
  | observed_done j h : observed j h [] j h
  | observed_turn j h ops t ts j' h' :
      sd_journal (tn_db t) = run exec j ops →
      observed (run exec j ops) (run spec_exec h ops) ts j' h' →
      observed j h (t :: ts) j' h'.

Definition grows (v : Z) (h h' : history) : Prop :=
  lg_entries (log_of h v) `prefix_of` lg_entries (log_of h' v).

#[export] Instance grows_preorder v : PreOrder (grows v).
Proof. split; [intros h; by unfold grows|]. intros h1 h2 h3 H1 H2. unfold grows in *. by etrans. Qed.

Lemma log_of_set v l h w : log_of (set_log v l h) w = if decide (w = v) then l else log_of h w.
Proof.
  unfold log_of. cbn [hs_logs set_log]. destruct (decide (w = v)) as [->|]; [by rewrite lookup_insert_eq|].
  by rewrite lookup_insert_ne by done.
Qed.

Lemma advance_grows v h op : grows v h (advance spec_exec h op).
Proof.
  unfold grows, advance. destruct (spec_exec h op) as [[h' a]|] eqn:E; [|done].
  destruct op as [pa now|w after limit|w n at_ now|w]; cbn [spec_exec] in E.
  - unfold spec_publish in E. inv_ok. simplify_eq. rewrite log_of_set.
    destruct (decide _) as [->|]; [|done]. cbn. by apply prefix_app_r.
  - unfold spec_read in E. inv_ok. by simplify_eq.
  - unfold spec_prune in E. inv_ok. destruct (hs_logs h !! _) as [l|] eqn:El; inv_ok; simplify_eq; [|done].
    rewrite log_of_set. destruct (decide _) as [->|]; [|done]. unfold log_of. by rewrite El.
  - inv_ok. by simplify_eq.
Qed.

Lemma run_grows v h ops : grows v h (run spec_exec h ops).
Proof.
  revert h; induction ops as [|op ops IH]; intros h; [done|]. cbn.
  etrans; [apply advance_grows|apply IH].
Qed.

Lemma advance_represents j h op : represents j h → represents (advance exec j op) (advance spec_exec h op).
Proof.
  intros HR. assert (Hs := exec_step j h op HR). unfold advance.
  destruct (exec j op) as [[j' a]|], (spec_exec h op) as [[h' b]|]; cbn in Hs; try done. by destruct Hs.
Qed.

Lemma run_represents j h ops : represents j h → represents (run exec j ops) (run spec_exec h ops).
Proof. revert j h; induction ops as [|op ops IH]; intros j h HR; [done|]. cbn. apply IH, advance_represents, HR. Qed.

Lemma observed_grows v j h ts j' h' : observed j h ts j' h' → grows v h h'.
Proof. induction 1 as [|j h ops t ts j' h' Ht _ IH]; [done|]. etrans; [apply (run_grows v)|exact IH]. Qed.

Lemma grows_length v h h' : grows v h h' → lg_length (log_of h v) ≤ lg_length (log_of h' v).
Proof. intros H%prefix_length. unfold lg_length. lia. Qed.

Lemma number_prefix l k n e : l `prefix_of` k → (n, e) ∈ number 1 k → n ≤ Z.of_nat (length l) → (n, e) ∈ number 1 l.
Proof.
  intros [x ->] H Hn. rewrite number_app in H. apply elem_of_app in H as [H|H]; [done|].
  apply elem_of_number in H. lia.
Qed.

Section stream_facts.
Context (repr : json → string) (a : stream_args).
Local Notation v := (sa_vault_id a).

Lemma tick_signal db ts at_ now k s :
  stream_tick_snapshot repr db ts (sa_user_id a) v at_ (sa_max_events a) now (sa_explicit_vault a) = Ok k →
  tk_result k = inr s →
  ∃ c, coalesced_catchup_from_connection repr (sd_journal db) v (Z.max 0 at_) (sa_max_events a) = Ok c ∧ s = cu_signal c.
Proof.
  unfold stream_tick_snapshot. intros H Hs. destruct (fetchone _ _) as [x|]; [|by injection H as <-].
  repeat case_match; try by injection H as <-. apply bind_ok in H as (c & Hc & H). injection H as <-. cbn in Hs.
  injection Hs as <-. eauto.
Qed.

(** The cursor is at the end of a history, and every event after the one the
    client resumed from was in a frame that covers it. *)
Definition told (h : history) (resume : Z) (frames : list frame) : Prop :=
  ∀ n e, (n, e) ∈ number 1 (lg_entries (log_of h v)) → resume < n →
    ∃ s, FCatalog s ∈ frames ∧ n ≤ sg_revision s ∧ sg_vault_id s = v ∧ covers repr s e.

(** The catalog frames of a list, as the revisions they carry. *)
Definition revisions_of (frames : list frame) : list Z :=
  omap (fun f => match f with FCatalog s => Some (sg_revision s) | _ => None end) frames.

(** One more turn. *)
Lemma turn_tells j h t at_ frames last :
  represents j h → sd_journal (tn_db t) = j → 0 ≤ at_ ≤ lg_length (log_of h v) →
  stream_turn repr a t at_ = Ok (frames, Some last) →
  last = lg_length (log_of h v) ∧ told h at_ frames
  ∧ (revisions_of frames = [] ∨ at_ < last ∧ revisions_of frames = [last]).
Proof.
  intros HR Hj Ha H. unfold stream_turn in H. destruct (_ || _); [done|].
  apply bind_ok in H as (k & Hk & H). destruct (tn_shutdown_ticked t); [done|].
  destruct (tk_result k) as [|s] eqn:Es; [done|].
  destruct (tick_signal _ _ _ _ _ _ Hk Es) as (c & Hc & ->). rewrite Z.max_r, Hj in Hc by lia.
  destruct (catchup_follows_history repr j h v at_ (sa_max_events a) HR Ha) as (c' & Hc' & [Hv Hcur Hcov Hgap _ _]).
  rewrite Hc in Hc'. injection Hc' as <-. destruct (_ && _) eqn:Eq; injection H as <- <-.
  - bsimpl. split; [lia|]. split; [|by left]. intros n e Hn%elem_of_number Han. unfold lg_length in *. lia.
  - assert (Hlt : at_ < lg_length (log_of h v)).
    { apply andb_false_iff in Eq as [Eq|Eq]; bsimpl; [lia|]. apply Hgap in Eq.
      destruct (represents_log_of j h v HR) as (_ & Hl & _ & _). unfold log_ok in Hl. lia. }
    split; [lia|]. split; [|right; cbn; rewrite Hcur; split; [lia|f_equal; lia]].
    intros n e Hn Han. exists (cu_signal c). split; [by left|]. split; [|split; [done|by eapply Hcov]].
    apply elem_of_number in Hn. unfold lg_length in *. lia.
Qed.

Lemma told_grows h h' resume mid f1 f2 :
  grows v h h' → mid = lg_length (log_of h v) → told h resume f1 → told h' mid f2 → told h' resume (f1 ++ f2).
Proof.
  intros Hg -> H1 H2 n e Hn Hr. destruct (decide (n ≤ lg_length (log_of h v))) as [Hle|Hgt].
  - destruct (H1 n e) as (s & Hs & ?); [by eapply number_prefix|done|]. exists s. rewrite elem_of_app. eauto.
  - destruct (H2 n e) as (s & Hs & ?); [done|lia|]. exists s. rewrite elem_of_app. eauto.
Qed.

Lemma loop_tells ts j h j' h' at_ frames last :
  observed j h ts j' h' → represents j h → at_ = lg_length (log_of h v) →
  stream_loop repr a at_ ts = Ok (frames, Some last) →
  last = lg_length (log_of h' v) ∧ told h' at_ frames ∧ StronglySorted Z.lt (at_ :: revisions_of frames).
Proof.
  intros Hobs. revert at_ frames. induction Hobs as [j h|j h ops t ts j' h' Hj Hobs IH]; intros at_ frames HR Hat H.
  - injection H as <- <-. split; [done|]. split; [|repeat constructor].
    intros n e Hn%elem_of_number Hlt. unfold lg_length in *. lia.
  - cbn [stream_loop] in H. apply bind_ok in H as ([f1 [mid|]] & H1 & H); [|done].
    apply bind_ok in H as ([f2 last'] & H2 & H). injection H as <- ->.
    assert (HR1 := run_represents j h ops HR). assert (Hg := run_grows v h ops).
    assert (0 ≤ at_ ≤ lg_length (log_of (run spec_exec h ops) v)).
    { apply grows_length in Hg. unfold lg_length in *. lia. }
    destruct (turn_tells _ _ _ _ _ _ HR1 Hj ltac:(done) H1) as (-> & Ht & Hrev).
    destruct (IH _ _ HR1 eq_refl H2) as (-> & Ht2 & Hsort). split; [done|]. split.
    + eapply told_grows; [by eapply observed_grows|done|done|done].
    + unfold revisions_of in *. rewrite omap_app. destruct Hrev as [->|[Hlt ->]]; cbn.
      * inversion_clear Hsort as [|? ? Hs Hf]. constructor; [done|]. eapply Forall_impl; [done|]. intros x Hx. cbn in Hx. lia.
      * constructor; [done|]. constructor; [done|]. inversion_clear Hsort as [|? ? Hs Hf].
        eapply Forall_impl; [done|]. intros x Hx. cbn in Hx. lia.
Qed.

(** The first tick of a stream is a turn, with a greeting. *)
Definition calm (t : turn) : turn :=
  {| tn_shutdown := false; tn_disconnected := false; tn_shutdown_waited := false; tn_disconnected_waited := false;
     tn_db := tn_db t; tn_now := tn_now t; tn_shutdown_ticked := false |}.

Lemma iter_first first turns frames last :
  iter_catalog_event_sse repr a first turns = Ok (frames, Some last) →
  ∃ f0 mid f1 f2, stream_turn repr a (calm first) (sa_resume_after a) = Ok (f0, Some mid)
    ∧ stream_loop repr a mid turns = Ok (f2, Some last) ∧ frames = f1 ++ f2
    ∧ (∀ s, FCatalog s ∈ f0 → FCatalog s ∈ f1) ∧ revisions_of f1 = revisions_of f0.
Proof.
  unfold iter_catalog_event_sse, stream_turn. destruct (tn_shutdown first); [done|]. cbn [calm tn_shutdown tn_disconnected
    tn_shutdown_waited tn_disconnected_waited tn_shutdown_ticked orb].
  change (tick_of repr a (calm first)) with (tick_of repr a first). intros H. apply bind_ok in H as (k & -> & H).
  cbn [mbind result_bind]. destruct (tn_shutdown_ticked first); [done|]. destruct (tk_result k) as [|s]; [done|].
  assert (E : (sg_revision s <=? sa_resume_after a) && negb (sg_has_gap s) = negb ((sa_resume_after a <? sg_revision s) || sg_has_gap s)).
  { rewrite negb_orb, Z.ltb_antisym. by rewrite negb_involutive. }
  rewrite E. destruct ((sa_resume_after a <? sg_revision s) || sg_has_gap s); cbn [negb];
    (destruct (negb (sa_subscribe a)); [done|]); apply bind_ok in H as ([f2 l2] & H2 & H); injection H as <- ->;
    do 4 eexists; (split; [reflexivity|]); (split; [exact H2|]).
  - split; [exact (eq_refl ([_; FCatalog s] ++ f2))|]. split; [|done]. intros s' Hs'%list_elem_of_singleton. rewrite Hs'. by right; left.
  - split; [exact (eq_refl ([_] ++ f2))|]. split; [|done]. intros s' Hs'%list_elem_of_singleton. discriminate Hs'.
Qed.


Lemma catchup_cost j w after n c :
  coalesced_catchup_from_connection repr j w after n = Ok c →
  cu_statements c ≤ 2 ∧ cu_events_read c ≤ Z.max 1 (Z.min n MAX_EVENT_PAGE_SIZE).
Proof.
  unfold coalesced_catchup_from_connection. destruct (high_water j w) as [cur ret]. set (m := Z.max 1 _).
  assert (1 ≤ m) by lia. assert (Hlen := length_take (events_after j w after (m + 1)) (Z.to_nat m)).
  destruct (_ && _); [intros [= <-]; cbn; lia|]. destruct (after <? ret - 1); [intros [= <-]; cbn; lia|].
  destruct (take _ _) as [|r rest] eqn:E; [destruct (after <? cur); intros [= <-]; cbn; lia|].
  cbn [length] in Hlen. destruct (_ <? ev_revision r); [intros [= <-]; cbn [cu_statements cu_events_read]; lia|].
  destruct (m <? _); [intros [= <-]; cbn [cu_statements cu_events_read]; lia|].
  intros (o & _ & Ho)%bind_ok. destruct o; injection Ho as <-; cbn [cu_statements cu_events_read]; lia.
Qed.

(** A tick that grants: what it found in the database. *)
Definition granted (db : stream_db) (now : timestamp) : Prop :=
  ∃ s u va, s ∈ sessions (sd_auth db) ∧ s_id s = sa_session_id a ∧ s_user_id s = sa_user_id a
    ∧ s_revoked_at s = None ∧ now < s_absolute_expires_at s ∧ now < s_idle_expires_at s
    ∧ u ∈ users (sd_auth db) ∧ u_id u = sa_user_id a ∧ u_session_version u = s_session_version s
    ∧ (sa_explicit_vault a = true ∨ s_vault_id s = Some v)
    ∧ va ∈ sd_vaults db ∧ va_id va = v ∧ va_enabled va = true ∧ va_decommission_state va = Some "active".

Lemma tick_granted t at_ k s :
  tick_of repr a t at_ = Ok k → tk_result k = inr s →
  granted (tn_db t) (tn_now t) ∧ tk_statements k ≤ 3
  ∧ tk_events_read k ≤ Z.max 1 (Z.min (sa_max_events a) MAX_EVENT_PAGE_SIZE).
Proof.
  unfold tick_of, stream_tick_snapshot. intros H Hs. destruct (fetchone _ _) as [x|] eqn:Ex; [|by injection H as <-].
  apply fetchone_some in Ex as [Hx Hq]. destruct (is_some (s_revoked_at x)) eqn:E1; [by injection H as <-|].
  destruct (negb (bool_decide (Some _ = _))) eqn:E2; [by injection H as <-|].
  destruct (session_is_expired x (tn_now t)) eqn:E3; [by injection H as <-|].
  destruct (_ && (s_vault_id x <>b Some v)) eqn:E4; [by injection H as <-|].
  destruct (negb (exists_row _ _)) eqn:E5; [by injection H as <-|].
  apply bind_ok in H as (c & Hc & H). injection H as <-. cbn [tk_statements tk_events_read].
  apply catchup_cost in Hc as [C1 C2]. split; [|lia].
  bsimpl. apply exists_row_true in E5 as (va & Hva & Hva'). bsimpl.
  destruct (user_by_id _ _) as [u|] eqn:Eu; [|done]. cbn in E2. injection E2 as E2.
  apply fetchone_some in Eu as [Hu Hid]. bsimpl. unfold session_is_expired in E3. bsimpl.
  exists x, u, va. unfold is_some in E1. apply negb_false_iff, is_none_true in E1.
  apply andb_false_iff in E4. repeat split; try congruence; try lia.
  destruct E4 as [E4|E4]; bsimpl; [by left|by right].
Qed.

(** The stream fails closed and stays cheap.  A turn that yields anything
    but an error frame has found, in the database it read, the Session of the
    stream: not revoked, not expired, of its user's current session version, on
    this Vault unless the Vault was named explicitly, and the Vault enabled and
    active; and it took at most three statements and read at most
    [max_events] events, whatever the backlog. *)
Theorem stream_fails_closed t at_ f frames next :
  stream_turn repr a t at_ = Ok (f :: frames, next) →
  (∀ code w, f ≠ FError code v w) →
  granted (tn_db t) (tn_now t)
  ∧ ∃ k, tick_of repr a t at_ = Ok k ∧ tk_statements k ≤ 3
    ∧ tk_events_read k ≤ Z.max 1 (Z.min (sa_max_events a) MAX_EVENT_PAGE_SIZE).
Proof.
  unfold stream_turn. intros H Hf. destruct (_ || _); [done|]. apply bind_ok in H as (k & Hk & H).
  destruct (tn_shutdown_ticked t); [done|]. destruct (tk_result k) as [code|s] eqn:Es.
  - injection H as <- _ _. by edestruct Hf.
  - destruct (tick_granted t at_ k s Hk Es). eauto.
Qed.
End stream_facts.

(** ** The queue of a subscriber *)

(** An open subscriber never holds more than one signal, and that one stands for
    all offers since it was last drained. *)
Lemma offer_coalesces repr s sig p :
  sub_closed s = false → sub_queue s = [Some p] → sg_vault_id p = sg_vault_id sig →
  clean (sg_domains p) → clean (sg_domains sig) →
  ∃ m s', offer repr s sig = Ok s' ∧ sub_queue s' = [Some m] ∧ sub_closed s' = false
    ∧ sg_revision m = Z.max (sg_revision p) (sg_revision sig) ∧ sg_has_gap m = sg_has_gap p || sg_has_gap sig
    ∧ ∀ x, x ∈ sg_domains p ∨ x ∈ sg_domains sig → x ∈ sg_domains m.
Proof.
  intros Ho Hq Hv Hp Hs. unfold offer. rewrite Ho, Hq. unfold coalesce_signals. cbn [foldM_r merge_signal mbind result_bind sg_vault_id].
  rewrite bool_decide_eq_true_2 by done. cbn [negb raise_if mbind result_bind].
  eexists _, _. split; [reflexivity|]. cbn [sub_queue sub_closed sg_revision sg_has_gap sg_domains]. do 4 (split; [done|]).
  assert (H1 : clean (normalize_invalidate_domains repr (text_list (sg_domains p)))) by apply normalize_good.
  assert (H2 : clean (normalize_invalidate_domains repr (text_list (sg_domains sig)))) by apply normalize_good.
  intros x Hx. apply normalize_text_list; [intros y [?|?]%elem_of_app; auto|]. apply elem_of_app.
  destruct Hx; [left|right]; by apply normalize_text_list.
Qed.

(** ** Witnesses *)
Definition w_repr (v : json) : string := "".
Definition w_publication (domains : list string) : publication_args :=
  {| pa_vault_id := 1; pa_domain := Some "catalog"; pa_event_type := None; pa_scope := None;
     pa_payload := Some (JDict [("invalidate", text_list domains); ("reason", JStr "scan")]);
     pa_payload_json := None; pa_created_at := Some "2026-01-01T00:00:00+00:00" |}.
Definition w_first_ops : list journal_op := [Publish (w_publication ["files"]) "now"].
Definition w_next_ops : list journal_op := [Publish (w_publication ["stats"; "jobs"]) "now"; Prune 1 2 None "now"].
Definition w_journal : journal := run exec (new_journal [1]) w_first_ops.

Definition w_session : session :=
  {| s_id := "s"; s_user_id := 7; s_token_hash := "t"; s_auth_method := "password"; s_csrf_token := "c"; s_session_version := 1;
     s_created_at := 0; s_last_seen_at := 0; s_idle_expires_at := 100; s_absolute_expires_at := 200; s_reauth_at := None;
     s_ip := None; s_user_agent := None; s_revoked_at := None; s_vault_id := Some 1; s_transition_version := 0 |}.
Definition w_user : user :=
  {| u_id := 7; u_username := "owner"; u_display_name := "Owner"; u_password_hash := None; u_session_version := 1 |}.
Definition w_vault : vault :=
  {| va_id := 1; va_enabled := true; va_decommission_state := Some "active"; va_relocation_state := "idle";
     va_source_root := "/src"; va_name := "Photos"; va_s3_prefix := "p"; va_root_released_at := None;
     va_decommissioned_at := None; va_root_identity := None; va_root_identity_version := None |}.
Definition w_turn (j : journal) : turn :=
  calm {| tn_shutdown := false; tn_disconnected := false; tn_shutdown_waited := false; tn_disconnected_waited := false;
          tn_db := {| sd_auth := {| users := [w_user]; sessions := [w_session] |}; sd_vaults := [w_vault]; sd_journal := j |};
          tn_now := 5; tn_shutdown_ticked := false |}.
Definition w_stream : stream_args :=
  {| sa_vault_id := 1; sa_user_id := 7; sa_session_id := "s"; sa_resume_after := 0; sa_subscribe := true;
     sa_max_events := MAX_CATCHUP_EVENTS; sa_explicit_vault := false |}.
Definition w_frames : list frame :=
  match iter_catalog_event_sse w_repr w_stream (w_turn w_journal) [w_turn (run exec w_journal w_next_ops)] with
  | Ok (f, _) => f
  | Raise _ => []
  end.


Lemma stream_fails_closed_witness : granted w_stream (tn_db (w_turn w_journal)) 5.
Proof.
  eapply (stream_fails_closed w_repr w_stream (w_turn w_journal) 0).
  - vm_compute. reflexivity.
  - intros code w H. discriminate H.
Defined.
