(* ===== verification/Notifications.v ===== *)
(** * Notifications: the Owner's inbox and email deliveries

    Models [src/app/services/notifications.py] and [src/app/owner.py]: persisting
    notifications with deduplication, problems with their open and resolved
    episodes, the reconciliation with their causes, reading, and the bounded
    delivery of email.  The catalog the causes live in is an argument, as is
    [vault_component_health].

    Parameters: [translate] and [render_weekly_summary] give texts; [resolution]
    is the predicate RESOLUTION_SQL of the remediation component on the failed
    Job; [jsonb_text] is [->>] on a list or an object; [smtp_configured] is
    [_smtp_config() is not None].  What the SMTP endpoint does with one message is
    an argument of a delivery round. *)
From S2P Require Import Prelude Sql PyString Json Schema EventJournal.
From stdpp Require Import pretty.
#[local] Open Scope Z_scope.
#[local] Open Scope fv_scope.

Definition DELIVERY_RETRY_CAP_SECONDS : Z := 300.
Definition MAX_NOTIFICATION_LIST_FETCH : Z := 201.

Definition message_params := list (string * json).

Record notification := {
  no_id : Z;
  no_user_id : Z;
  no_vault_id : option Z;
  no_job_id : option Z;
  no_event : string;
  no_title : string;
  no_body : string;
  no_title_key : option string;
  no_body_key : option string;
  no_params : option message_params;
  no_in_app : option bool;
  no_dedupe_key : option string;
  no_created_at : timestamp;
  no_read_at : option timestamp;
  no_problem_status : option string;
  no_resolved_at : option timestamp;
}.

Record delivery := {
  nd_id : Z;
  nd_notification_id : Z;
  nd_channel : string;
  nd_status : string;
  nd_attempt_count : Z;
  nd_next_attempt_at : option timestamp;
  nd_last_error : option string;
  nd_updated_at : timestamp;
}.

Record component_health := {
  ch_vault_id : Z;
  ch_component : string;
  ch_last_error : option string;
  ch_last_success_at : option timestamp;
}.

(** The tables; [ib_terminal_pending] are the Jobs whose
    [terminal_notification_status] is 'pending'. *)
Record inbox := {
  ib_users : list Z;
  ib_notifications : list notification;
  ib_deliveries : list delivery;
  ib_next_notification : Z;
  ib_next_delivery : Z;
  ib_terminal_pending : list Z;
}.

Definition set_notifications (l : list notification) (b : inbox) : inbox :=
  {| ib_users := ib_users b; ib_notifications := l; ib_deliveries := ib_deliveries b;
     ib_next_notification := ib_next_notification b; ib_next_delivery := ib_next_delivery b;
     ib_terminal_pending := ib_terminal_pending b |}.
Definition set_deliveries (l : list delivery) (b : inbox) : inbox :=
  {| ib_users := ib_users b; ib_notifications := ib_notifications b; ib_deliveries := l;
     ib_next_notification := ib_next_notification b; ib_next_delivery := ib_next_delivery b;
     ib_terminal_pending := ib_terminal_pending b |}.

(** [now_iso()]: the microseconds are dropped. *)
Definition now_iso (now : timestamp) : timestamp := now - now mod 1000000.

(** The columns an UPDATE of [notifications] writes. *)
Definition set_read (at_ : option timestamp) (n : notification) : notification :=
  {| no_id := no_id n; no_user_id := no_user_id n; no_vault_id := no_vault_id n; no_job_id := no_job_id n;
     no_event := no_event n; no_title := no_title n; no_body := no_body n; no_title_key := no_title_key n;
     no_body_key := no_body_key n; no_params := no_params n; no_in_app := no_in_app n;
     no_dedupe_key := no_dedupe_key n; no_created_at := no_created_at n; no_read_at := at_;
     no_problem_status := no_problem_status n; no_resolved_at := no_resolved_at n |}.
Definition set_status (status : option string) (resolved : option timestamp) (n : notification) : notification :=
  {| no_id := no_id n; no_user_id := no_user_id n; no_vault_id := no_vault_id n; no_job_id := no_job_id n;
     no_event := no_event n; no_title := no_title n; no_body := no_body n; no_title_key := no_title_key n;
     no_body_key := no_body_key n; no_params := no_params n; no_in_app := no_in_app n;
     no_dedupe_key := no_dedupe_key n; no_created_at := no_created_at n; no_read_at := no_read_at n;
     no_problem_status := status; no_resolved_at := resolved |}.
Definition set_in_app (n : notification) : notification :=
  {| no_id := no_id n; no_user_id := no_user_id n; no_vault_id := no_vault_id n; no_job_id := no_job_id n;
     no_event := no_event n; no_title := no_title n; no_body := no_body n; no_title_key := no_title_key n;
     no_body_key := no_body_key n; no_params := no_params n; no_in_app := Some true;
     no_dedupe_key := no_dedupe_key n; no_created_at := no_created_at n; no_read_at := no_read_at n;
     no_problem_status := no_problem_status n; no_resolved_at := no_resolved_at n |}.
Definition set_context (params : message_params) (body : string) (created : timestamp) (n : notification) : notification :=
  {| no_id := no_id n; no_user_id := no_user_id n; no_vault_id := no_vault_id n; no_job_id := no_job_id n;
     no_event := no_event n; no_title := no_title n; no_body := body; no_title_key := no_title_key n;
     no_body_key := no_body_key n; no_params := Some params; no_in_app := no_in_app n;
     no_dedupe_key := no_dedupe_key n; no_created_at := created; no_read_at := no_read_at n;
     no_problem_status := no_problem_status n; no_resolved_at := no_resolved_at n |}.

(** [COALESCE(a, b)]. *)
Definition coalesce_at (a : option timestamp) (b : timestamp) : option timestamp := Some (or_default a b).

Definition by_id (id : Z) (n : notification) : bool := no_id n =b id.
Definition by_key (user_id : Z) (key : string) (n : notification) : bool :=
  (no_user_id n =b user_id) && (no_dedupe_key n =b Some key).

Definition update_notifications (p : notification → bool) (f : notification → notification) (b : inbox) : inbox :=
  set_notifications (update_where p f (ib_notifications b)) b.

(** [owner_user_id]: [SELECT id FROM users ORDER BY id LIMIT 1]. *)
Definition owner_user_id (b : inbox) : option Z := head (sort_by Z.leb (ib_users b)).

Section notifications.
Context (translate : string → message_params → string).
Context (render_weekly_summary : message_params → string).
Context (resolution : job → bool).
Context (jsonb_text : json → string).
Context (smtp_configured : bool).

(** ** Enqueueing *)
Definition of_delivery (notification_id : Z) (channel : string) (d : delivery) : bool :=
  (nd_notification_id d =b notification_id) && (nd_channel d =b channel).

Definition ensure_delivery (b : inbox) (notification_id : Z) (channel : string) (stamp : timestamp) : result inbox :=
  if channel =b "in_app" then Ok b
  else
    raise! ValueError ("invalid delivery channel: " +:+ channel) when channel <>b "email";
    if exists_row (of_delivery notification_id channel) (ib_deliveries b) then Ok b
    else Ok {| ib_users := ib_users b; ib_notifications := ib_notifications b;
               ib_deliveries := ib_deliveries b
                 ++ [{| nd_id := ib_next_delivery b; nd_notification_id := notification_id; nd_channel := channel;
                        nd_status := "pending"; nd_attempt_count := 0; nd_next_attempt_at := Some stamp;
                        nd_last_error := None; nd_updated_at := stamp |}];
               ib_next_notification := ib_next_notification b; ib_next_delivery := ib_next_delivery b + 1;
               ib_terminal_pending := ib_terminal_pending b |}.

Record request := {
  rq_user_id : Z;
  rq_event : string;
  rq_title : string;
  rq_body : string;
  rq_vault_id : option Z;
  rq_job_id : option Z;
  rq_channels : list string;
  rq_title_key : option string;
  rq_body_key : option string;
  rq_params : message_params;
  rq_in_app_enabled : option bool;
  rq_dedupe_key : option string;
}.

(** [tuple(dict.fromkeys(channels))]. *)
Definition unique_channels (channels : list string) : list string :=
  foldl (fun ks k => if k ∈b ks then ks else ks ++ [k]) [] channels.

Definition effective_in_app (r : request) : bool :=
  match rq_in_app_enabled r with Some x => x | None => "in_app" ∈b unique_channels (rq_channels r) end.

(** The row of the INSERT. *)
Definition requested_row (r : request) (id : Z) (stamp : timestamp) : notification :=
  let params := rq_params r in
  let title := if truthy (rq_title_key r) && (rq_title r =b "") then translate (or_default (rq_title_key r) "") params else rq_title r in
  let body := if truthy (rq_body_key r) && (rq_body r =b "") then translate (or_default (rq_body_key r) "") params else rq_body r in
  let params_json :=
    if truthy (rq_title_key r) || truthy (rq_body_key r) || negb (bool_decide (length params = 0%nat)) then Some params else None in
  let body := if rq_event r =b "weekly_summary" then render_weekly_summary params else body in
  {| no_id := id; no_user_id := rq_user_id r; no_vault_id := rq_vault_id r; no_job_id := rq_job_id r;
     no_event := rq_event r; no_title := title; no_body := body; no_title_key := rq_title_key r;
     no_body_key := rq_body_key r; no_params := params_json; no_in_app := Some (effective_in_app r);
     no_dedupe_key := rq_dedupe_key r; no_created_at := stamp; no_read_at := None; no_problem_status := None;
     no_resolved_at := None |}.

Definition insert_notification (b : inbox) (r : request) (stamp : timestamp) : inbox * notification :=
  let row := requested_row r (ib_next_notification b) stamp in
  ({| ib_users := ib_users b; ib_notifications := ib_notifications b ++ [row]; ib_deliveries := ib_deliveries b;
      ib_next_notification := ib_next_notification b + 1; ib_next_delivery := ib_next_delivery b;
      ib_terminal_pending := ib_terminal_pending b |}, row).

(** Insert, or find the row the key already has. *)
Definition persist (b : inbox) (r : request) (stamp : timestamp) : result (inbox * notification) :=
  match rq_dedupe_key r with
  | None => Ok (insert_notification b r stamp)
  | Some key =>
      if exists_row (by_key (rq_user_id r) key) (ib_notifications b) then
        match head (sort_by (fun x y => no_id x <=? no_id y) (select (by_key (rq_user_id r) key) (ib_notifications b))) with
        | None => Raise (RuntimeError "Notification deduplication lookup failed")
        | Some row =>
            if effective_in_app r && negb (or_default (no_in_app row) true)
            then
              let b := update_notifications (by_id (no_id row)) set_in_app b in
              match fetchone (by_id (no_id row)) (ib_notifications b) with
              | Some row => Ok (b, row)
              | None => Raise (TypeError "row is None")
              end
            else Ok (b, row)
        end
      else Ok (insert_notification b r stamp)
  end.

Definition enqueue_notification (b : inbox) (r : request) (now : timestamp) : result (inbox * notification) :=
  let channels := unique_channels (rq_channels r) in
  _ ← for_each (fun c => raise_if (negb (c ∈b ["in_app"; "email"])) (ValueError ("invalid delivery channel: " +:+ c))) channels;
  let stamp := now_iso now in
  '(b, row) ← persist b r stamp;
  b ← foldM_r (fun b c => ensure_delivery b (no_id row) c stamp) b channels;
  Ok (b, row).

Definition fixed_channels : list string := if smtp_configured then ["in_app"; "email"] else ["in_app"].

Definition keyed_request (user_id : Z) (event : string) (vault_id job_id : option Z) (params : message_params)
    (key : string) (channels : list string) : request :=
  {| rq_user_id := user_id; rq_event := event; rq_title := ""; rq_body := ""; rq_vault_id := vault_id; rq_job_id := job_id;
     rq_channels := channels; rq_title_key := Some ("notification." +:+ event +:+ ".title");
     rq_body_key := Some ("notification." +:+ event +:+ ".body"); rq_params := params; rq_in_app_enabled := None;
     rq_dedupe_key := Some key |}.

(** ** Terminal Jobs *)
Definition terminal_event (j : job) : option string :=
  if negb (j_status j ∈b ["completed"; "failed"]) then None
  else
    let recovery := (j_action j =b "recover") && (j_origin j <>b "automatic") in
    if negb recovery && negb ((j_action j =b "upload") && (j_status j =b "failed")) then None
    else Some (if recovery then if j_status j =b "completed" then "recovery_completed" else "recovery_failed" else "job_failed").

(** The UPDATE that opens the problem of a failed Job, or closes one whose
    target a remediation has completed. *)
Definition settle_failed_job (db : catalog) (now : timestamp) (n : notification) : notification :=
  match fetchone (fun j => bool_decide (Some (j_id j) = no_job_id n)) (t_jobs db) with
  | None => n
  | Some original =>
      if resolution original
      then set_read (coalesce_at (no_read_at n) (now_iso now))
             (set_status (Some "resolved") (coalesce_at (no_resolved_at n) (now_iso now)) n)
      else set_status (Some (or_default (no_problem_status n) "open")) (no_resolved_at n) n
  end.

Definition enqueue_job_terminal_notification (db : catalog) (b : inbox) (job_id : Z) (now : timestamp) : result (inbox * Z) :=
  match fetchone (fun j => j_id j =b job_id) (t_jobs db) with
  | None => Ok (b, 0)
  | Some j =>
      match terminal_event j, owner_user_id b with
      | None, _ | _, None => Ok (b, 0)
      | Some event, Some user_id =>
          let key := "job:" +:+ pretty (j_id j) +:+ ":" +:+ event in
          let known := exists_row (by_key user_id key) (ib_notifications b) in
          '(b, _) ← enqueue_notification b
             (keyed_request user_id event (Some (j_vault_id j)) (Some (j_id j))
                [("action", JStr (j_action j)); ("path", JStr (j_path j))] key fixed_channels) now;
          let b := if event =b "job_failed" then update_notifications (by_key user_id key) (settle_failed_job db now) b else b in
          Ok (b, if known then 0 else 1)
      end
  end.

(** [mark_terminal_notification_done]. *)
Definition is_terminal_job (db : catalog) (job_id : Z) : bool :=
  exists_row (fun j => (j_id j =b job_id) && ((j_status j =b "completed") || (j_status j =b "failed"))) (t_jobs db).

Definition mark_terminal_notification_done (db : catalog) (b : inbox) (job_id : Z) : inbox * bool :=
  let found := is_terminal_job db job_id in
  ({| ib_users := ib_users b; ib_notifications := ib_notifications b; ib_deliveries := ib_deliveries b;
      ib_next_notification := ib_next_notification b; ib_next_delivery := ib_next_delivery b;
      ib_terminal_pending := if found then List.filter (fun x => x <>b job_id) (ib_terminal_pending b) else ib_terminal_pending b |},
   found).

(** The savepoint: an exception leaves the tables as they were.  The exceptions
    of the model are not the retryable ones of the database. *)
Definition enqueue_job_terminal_notification_best_effort (db : catalog) (b : inbox) (job_id : Z) (now : timestamp)
  : inbox * option Z :=
  match enqueue_job_terminal_notification db b job_id now with
  | Raise _ => (b, None)
  | Ok (b, n) => ((mark_terminal_notification_done db b job_id).1, Some n)
  end.

Definition pending_terminal (db : catalog) (b : inbox) : list job :=
  select (fun j => ((j_status j =b "completed") || (j_status j =b "failed")) && (j_id j ∈b ib_terminal_pending b)) (t_jobs db).

Definition pending_terminal_notification_count (db : catalog) (b : inbox) : Z := Z.of_nat (length (pending_terminal db b)).

Definition older_job (x y : job) : bool :=
  if j_updated_at x =? j_updated_at y then j_id x <=? j_id y else j_updated_at x <? j_updated_at y.

Definition reconcile_pending_terminal_notifications (db : catalog) (b : inbox) (limit : Z) (now : timestamp) : inbox * Z :=
  foldl (fun st j =>
    let '(b, recovered) := st in
    match enqueue_job_terminal_notification_best_effort db b (j_id j) now with
    | (b, None) => (b, recovered)
    | (b, Some _) => ((mark_terminal_notification_done db b (j_id j)).1, recovered + 1)
    end) (b, 0) (take (Z.to_nat limit) (sort_by older_job (pending_terminal db b))).

(** ** Incidents *)
Definition open_if_new (n : notification) : notification :=
  set_status (Some (or_default (no_problem_status n) "open")) (no_resolved_at n) n.

Definition enqueue_incident_notification (b : inbox) (i : incident) (event : string) (params : message_params) (now : timestamp)
  : result (inbox * Z) :=
  match owner_user_id b with
  | None => Ok (b, 0)
  | Some user_id =>
      let key := "incident:" +:+ pretty (ci_id i) in
      let known := exists_row (by_key user_id key) (ib_notifications b) in
      '(b, _) ← enqueue_notification b (keyed_request user_id event (Some (ci_vault_id i)) None params key fixed_channels) now;
      Ok (update_notifications (by_key user_id key) open_if_new b, if known then 0 else 1)
  end.

(** ** Problems *)
Definition resolve_problem (stamp : timestamp) (n : notification) : notification :=
  set_read (coalesce_at (no_read_at n) stamp) (set_status (Some "resolved") (Some stamp) n).

Definition open_problem (reopen : bool) (params : message_params) (body : string) (stamp : timestamp) (n : notification) : notification :=
  set_context params body (if reopen then stamp else no_created_at n)
    (set_read (if reopen then None else no_read_at n) (set_status (Some "open") None n)).

Definition rearm (stamp : timestamp) (d : delivery) : delivery :=
  {| nd_id := nd_id d; nd_notification_id := nd_notification_id d; nd_channel := nd_channel d; nd_status := "pending";
     nd_attempt_count := 0; nd_next_attempt_at := Some stamp; nd_last_error := None; nd_updated_at := stamp |}.

Definition set_problem (b : inbox) (key event : string) (vault_id : option Z) (active : bool) (params : message_params)
    (email : bool) (now : timestamp) : result (inbox * option notification) :=
  match owner_user_id b with
  | None => Ok (b, None)
  | Some owner_id =>
      let previous := fetchone (by_key owner_id key) (ib_notifications b) in
      let stamp := now_iso now in
      if negb active then
        match previous with
        | Some p =>
            if no_problem_status p =b Some "open"
            then Ok (update_notifications (by_id (no_id p)) (resolve_problem stamp) b, None)
            else Ok (b, None)
        | None => Ok (b, None)
        end
      else
        '(b, item) ← enqueue_notification b
           (keyed_request owner_id event vault_id None params key (if email then fixed_channels else ["in_app"])) now;
        let reopen := bool_decide ((previous ≫= no_problem_status) = Some "resolved") in
        let body := translate ("notification." +:+ event +:+ ".body") params in
        let b := update_notifications (by_id (no_id item)) (open_problem reopen params body stamp) b in
        let b := if reopen
                 then set_deliveries (update_where (fun d => nd_notification_id d =b no_id item) (rearm stamp) (ib_deliveries b)) b
                 else b in
        Ok (b, fetchone (by_id (no_id item)) (ib_notifications b))
  end.

(** ** Reconciliation with the causes *)
Definition param_text (n : notification) (key : string) : option string :=
  match no_params n ≫= fun d => dict_get d key with
  | Some (JStr s) => Some s
  | Some (JInt z) => Some (pretty z)
  | Some (JBool true) => Some "true"
  | Some (JBool false) => Some "false"
  | Some (JFloat r) => Some r
  | Some JNull | None => None
  | Some v => Some (jsonb_text v)
  end.

Definition later_than (a : option timestamp) (b : timestamp) : bool :=
  match a with Some x => b <? x | None => false end.

Definition cause_is_over (db : catalog) (health : list component_health) (n : notification) : bool :=
  ((no_event n ∈b ["archive_version_missing"; "cloud_only_conflict"])
   && exists_row (fun i => (no_dedupe_key n =b Some ("incident:" +:+ pretty (ci_id i))) && (ci_status i =b "resolved")) (t_incidents db))
  || ((no_event n =b "job_failed")
      && exists_row (fun j => bool_decide (Some (j_id j) = no_job_id n) && resolution j) (t_jobs db))
  || ((no_event n =b "file_unreadable")
      && (exists_row (fun h => bool_decide (Some (ch_vault_id h) = no_vault_id n) && (ch_component h =b "source")
                               && is_none (ch_last_error h) && later_than (ch_last_success_at h) (no_created_at n)) health
          || exists_row (fun p => bool_decide (Some (fp_vault_id p) = no_vault_id n) && is_none (fp_valid_to p)
                                  && bool_decide (Some (fp_path p) = param_text n "path")
                                  && exists_row (fun c => (lc_vault_file_id c =b fp_vault_file_id p)
                                                          && (no_created_at n <? lc_observed_at c)) (t_copies db))
               (t_paths db))).

Definition reconcile_problem_states (db : catalog) (health : list component_health) (b : inbox) (now : timestamp) : inbox :=
  update_notifications (fun n => (no_problem_status n =b Some "open") && cause_is_over db health n)
    (resolve_problem (now_iso now)) b.

Definition visible (user_id : Z) (n : notification) : bool :=
  (no_user_id n =b user_id) && or_default (no_in_app n) true.

Definition count_open_problems (db : catalog) (health : list component_health) (b : inbox) (user_id : Z) (now : timestamp) : inbox * Z :=
  let b := reconcile_problem_states db health b now in
  (b, countZ (fun n => visible user_id n && (no_problem_status n =b Some "open")) (ib_notifications b)).

(** ** Reading *)
Definition normalize_notification_status (status : option string) : result string :=
  let normalized := lower (py_strip (if truthy status then or_default status "" else "all")) in
  raise! ValueError "status must be unread, read, or all" when negb (normalized ∈b ["all"; "unread"; "read"]);
  Ok normalized.

Definition list_in_app_notifications (db : catalog) (health : list component_health) (b : inbox) (user_id limit : Z)
    (status : option string) (before_id : option Z) (now : timestamp) : result (inbox * list notification) :=
  let b := reconcile_problem_states db health b now in
  normalized ← normalize_notification_status status;
  raise! ValueError "before_id must be a positive integer" when match before_id with Some x => x <? 1 | None => false end;
  let shown n := visible user_id n
                 && (if normalized =b "unread" then is_none (no_read_at n)
                     else if normalized =b "read" then is_some (no_read_at n) else true)
                 && match before_id with Some x => no_id n <? x | None => true end in
  Ok (b, take (Z.to_nat (Z.max 1 (Z.min limit MAX_NOTIFICATION_LIST_FETCH)))
           (sort_by (fun x y => no_id y <=? no_id x) (select shown (ib_notifications b)))).

Definition unread (user_id : Z) (n : notification) : bool := visible user_id n && is_none (no_read_at n).

Definition count_unread_notifications (db : catalog) (health : list component_health) (b : inbox) (user_id : Z) (now : timestamp)
  : inbox * Z :=
  let b := reconcile_problem_states db health b now in
  (b, countZ (unread user_id) (ib_notifications b)).

Definition stamp_read (stamp : timestamp) (n : notification) : notification := set_read (coalesce_at (no_read_at n) stamp) n.

Definition mark_notification_read (db : catalog) (health : list component_health) (b : inbox) (notification_id user_id : Z)
    (now : timestamp) : inbox * option notification :=
  let b := reconcile_problem_states db health b now in
  let mine n := by_id notification_id n && visible user_id n in
  let b := update_notifications mine (stamp_read (now_iso now)) b in
  (b, fetchone mine (ib_notifications b)).

Definition mark_all_notifications_read (db : catalog) (health : list component_health) (b : inbox) (user_id : Z) (now : timestamp)
  : inbox * (Z * Z) :=
  let b := reconcile_problem_states db health b now in
  let marked := countZ (unread user_id) (ib_notifications b) in
  let b := update_notifications (unread user_id) (stamp_read (now_iso now)) b in
  let '(b, remaining) := count_unread_notifications db health b user_id now in
  (b, (marked, remaining)).

(** ** Delivery *)
Definition delivery_retry_at (attempt : Z) (now : timestamp) : timestamp :=
  now_iso (now + seconds (Z.min DELIVERY_RETRY_CAP_SECONDS (2 ^ Z.max 1 attempt))).

(** The rows a round picks up. *)
Definition due (b : inbox) (stamp : timestamp) (d : delivery) : bool :=
  (nd_status d =b "pending")
  && match nd_next_attempt_at d with Some x => x <=? stamp | None => true end
  && exists_row (fun n => (no_id n =b nd_notification_id d)
                          && (is_none (no_problem_status n) || (no_problem_status n =b Some "open"))) (ib_notifications b).

Record delivery_stats := { ds_attempted : Z; ds_delivered : Z; ds_failed : Z; ds_requeued : Z }.

Definition attempted (status : string) (attempt : Z) (next : option timestamp) (error : option string) (stamp : timestamp)
    (d : delivery) : delivery :=
  {| nd_id := nd_id d; nd_notification_id := nd_notification_id d; nd_channel := nd_channel d; nd_status := status;
     nd_attempt_count := attempt; nd_next_attempt_at := next; nd_last_error := error; nd_updated_at := stamp |}.

(** One turn of the loop; [send d] says whether the endpoint took the message,
    and is only asked when there is a client and a configuration. *)
Definition deliver_one (client : bool) (send : delivery → bool) (max_attempts : Z) (stamp : timestamp)
    (st : list delivery * delivery_stats) (row : delivery) : list delivery * delivery_stats :=
  let '(deliveries, s) := st in
  let attempt := nd_attempt_count row + 1 in
  let sent := (nd_channel row =b "email") && client && smtp_configured && send row in
  let write f := update_where (fun d => nd_id d =b nd_id row) f deliveries in
  if sent then
    (write (attempted "delivered" attempt None None stamp),
     {| ds_attempted := ds_attempted s + 1; ds_delivered := ds_delivered s + 1; ds_failed := ds_failed s; ds_requeued := ds_requeued s |})
  else if max_attempts <=? attempt then
    (write (attempted "failed" attempt None (Some "smtp delivery failed") stamp),
     {| ds_attempted := ds_attempted s + 1; ds_delivered := ds_delivered s; ds_failed := ds_failed s + 1; ds_requeued := ds_requeued s |})
  else
    (write (attempted "pending" attempt (Some (delivery_retry_at attempt stamp)) (Some "smtp delivery failed") stamp),
     {| ds_attempted := ds_attempted s + 1; ds_delivered := ds_delivered s; ds_failed := ds_failed s; ds_requeued := ds_requeued s + 1 |}).

Definition deliver_pending_notifications (db : catalog) (health : list component_health) (b : inbox) (client : bool)
    (send : delivery → bool) (max_attempts : Z) (now : timestamp) : inbox * delivery_stats :=
  let b := reconcile_problem_states db health b now in
  let stamp := now_iso now in
  let pending := sort_by (fun x y => nd_id x <=? nd_id y) (select (due b stamp) (ib_deliveries b)) in
  let '(deliveries, stats) :=
    foldl (deliver_one client send max_attempts stamp)
      (ib_deliveries b, {| ds_attempted := 0; ds_delivered := 0; ds_failed := 0; ds_requeued := 0 |}) pending in
  (set_deliveries deliveries b, stats).
End notifications.

(** ** Delivery rounds end *)

(** What one attempt does to its row. *)
Definition after_attempt (smtp : bool) (client : bool) (send : delivery → bool) (max_attempts : Z) (stamp : timestamp) (d : delivery)
  : delivery :=
  let attempt := nd_attempt_count d + 1 in
  if (nd_channel d =b "email") && client && smtp && send d then attempted "delivered" attempt None None stamp d
  else if max_attempts <=? attempt then attempted "failed" attempt None (Some "smtp delivery failed") stamp d
  else attempted "pending" attempt (Some (delivery_retry_at attempt stamp)) (Some "smtp delivery failed") stamp d.

Section rounds.
Context (smtp client : bool) (send : delivery → bool) (max_attempts : Z) (stamp : timestamp).
Local Notation act := (after_attempt smtp client send max_attempts stamp).

Definition tried (ids : list Z) (d : delivery) : delivery := if nd_id d ∈b ids then act d else d.

Lemma after_attempt_id d : nd_id (act d) = nd_id d.
Proof. unfold after_attempt. repeat case_match; done. Qed.

(** The row a write leaves where it finds its id. *)
Definition overwrite (row d : delivery) : delivery :=
  let x := act row in
  attempted (nd_status x) (nd_attempt_count x) (nd_next_attempt_at x) (nd_last_error x) (nd_updated_at x) d.

Lemma overwrite_self d : overwrite d d = act d.
Proof. unfold overwrite, after_attempt, attempted. by repeat case_match. Qed.

Lemma deliver_one_row st row :
  (deliver_one smtp client send max_attempts stamp st row).1 = update_where (fun d => nd_id d =b nd_id row) (overwrite row) st.1.
Proof.
  destruct st as [ds s]. unfold deliver_one, overwrite, after_attempt.
  destruct (_ && send row); [done|]. by destruct (max_attempts <=? _).
Qed.

Lemma tried_step ds ids row :
  NoDup (map nd_id ds) → row ∈ ds → nd_id row ∉ ids →
  update_where (fun d => nd_id d =b nd_id row) (overwrite row) (map (tried ids) ds) = map (tried (ids ++ [nd_id row])) ds.
Proof.
  intros Hnd Hrow Hids. unfold update_where. rewrite map_map. apply map_ext_in. intros d Hd%list_elem_of_In.
  assert (Hid : nd_id (tried ids d) = nd_id d) by (unfold tried; case_match; [apply after_attempt_id|done]).
  rewrite Hid. case_bool_decide as E.
  - assert (d = row) as -> by by eapply (NoDup_key_inj nd_id). unfold tried.
    rewrite (bool_decide_eq_false_2 (_ ∈ ids)) by done. rewrite bool_decide_eq_true_2 by set_solver. apply overwrite_self.
  - unfold tried. erewrite bool_decide_ext; [done|]. rewrite elem_of_app, list_elem_of_singleton. tauto.
Qed.

Lemma deliver_all ds rows st ids :
  NoDup (map nd_id ds) → (∀ r, r ∈ rows → r ∈ ds) → NoDup (ids ++ map nd_id rows) → st.1 = map (tried ids) ds →
  (foldl (deliver_one smtp client send max_attempts stamp) st rows).1 = map (tried (ids ++ map nd_id rows)) ds.
Proof.
  intros Hnd. revert st ids; induction rows as [|r rows IH]; intros st ids Hin Hids Hst; cbn [foldl map].
  - by rewrite app_nil_r.
  - cbn [map] in Hids. rewrite (IH _ (ids ++ [nd_id r])).
    + by rewrite <- app_assoc.
    + intros x Hx. apply Hin. by right.
    + by rewrite <- app_assoc.
    + rewrite deliver_one_row, Hst. apply tried_step; [done|apply Hin; by left|].
      apply NoDup_app in Hids as (_ & Hd & _). intros Hr. apply (Hd _ Hr). left.
Qed.

(** A round attempts exactly the rows it picked up, each once. *)
Lemma round_pointwise ds p s :
  NoDup (map nd_id ds) →
  (foldl (deliver_one smtp client send max_attempts stamp) (ds, s)
     (sort_by (fun x y => nd_id x <=? nd_id y) (select p ds))).1
  = map (fun d => if p d then act d else d) ds.
Proof.
  intros Hnd. set (rows := sort_by _ _). assert (Hrows : ∀ r, r ∈ rows ↔ r ∈ ds ∧ p r = true).
  { intros r. unfold rows. rewrite sort_by_perm. apply elem_of_select. }
  rewrite (deliver_all ds rows _ []).
  - cbn [app]. apply map_ext_in. intros d Hd%list_elem_of_In. unfold tried. destruct (p d) eqn:E.
    + rewrite bool_decide_eq_true_2; [done|]. apply list_elem_of_fmap_2, Hrows. done.
    + rewrite bool_decide_eq_false_2; [done|]. intros (x & Hx & Hx')%list_elem_of_fmap. apply Hrows in Hx' as [Hin Hp].
      assert (d = x) as -> by by eapply (NoDup_key_inj nd_id). congruence.
  - done.
  - intros r Hr. by apply Hrows.
  - cbn [app]. unfold rows. rewrite sort_by_perm. by apply NoDup_map_select.
  - cbn [fst]. symmetry. transitivity (map id ds); [|apply map_id]. apply map_ext. intros d. unfold tried.
    by rewrite bool_decide_eq_false_2 by set_solver.
Qed.
End rounds.

(** One round of the worker: the state it reads and what the endpoint does. *)
Record round := {
  rd_catalog : catalog;
  rd_health : list component_health;
  rd_client : bool;
  rd_send : delivery → bool;
  rd_now : timestamp;
}.

Section termination.
Context (resolution : job → bool) (jsonb_text : json → string) (smtp : bool) (max_attempts : Z).

Definition run_round (b : inbox) (r : round) : inbox :=
  (deliver_pending_notifications resolution jsonb_text smtp (rd_catalog r) (rd_health r) b (rd_client r) (rd_send r)
     max_attempts (rd_now r)).1.

(** Each round is at least the longest backoff after the one before. *)
Fixpoint spaced (t : timestamp) (l : list round) : Prop :=
  match l with
  | [] => True
  | r :: l => t ≤ now_iso (rd_now r) ∧ spaced (now_iso (rd_now r) + seconds DELIVERY_RETRY_CAP_SECONDS) l
  end.

(** The notification is still worth an email. *)
Definition deliverable (b : inbox) (d : delivery) : Prop :=
  ∃ n, n ∈ ib_notifications b ∧ no_id n = nd_notification_id d ∧ (no_problem_status n = None ∨ no_problem_status n = Some "open").

Lemma reconcile_deliverable db health b now d :
  deliverable (reconcile_problem_states resolution jsonb_text db health b now) d → deliverable b d.
Proof.
  intros (n & Hn & Hid & Hst). unfold reconcile_problem_states in Hn. cbn [ib_notifications update_notifications set_notifications] in Hn.
  apply elem_of_update_where in Hn as (m & Hm & ->). destruct (_ && _); [cbn in Hst; by destruct Hst|]. by exists m.
Qed.

(** A round maps every delivery to itself or to its attempt. *)
Lemma run_round_deliveries b r :
  NoDup (map nd_id (ib_deliveries b)) →
  ib_deliveries (run_round b r)
  = map (fun d => if due (reconcile_problem_states resolution jsonb_text (rd_catalog r) (rd_health r) b (rd_now r)) (now_iso (rd_now r)) d
                  then after_attempt smtp (rd_client r) (rd_send r) max_attempts (now_iso (rd_now r)) d else d) (ib_deliveries b).
Proof.
  intros Hnd. unfold run_round, deliver_pending_notifications.
  set (b1 := reconcile_problem_states _ _ _ _ _ _). change (ib_deliveries b) with (ib_deliveries b1) in *.
  destruct (foldl _ _ _) as [ds st] eqn:E. cbn [fst ib_deliveries set_deliveries].
  apply (f_equal fst) in E. cbn [fst] in E. rewrite <- E. by apply round_pointwise.
Qed.

Lemma run_round_notifications b r :
  ib_notifications (run_round b r)
  = ib_notifications (reconcile_problem_states resolution jsonb_text (rd_catalog r) (rd_health r) b (rd_now r)).
Proof. unfold run_round, deliver_pending_notifications. by destruct (foldl _ _ _). Qed.

Lemma run_round_ids b r : NoDup (map nd_id (ib_deliveries b)) → map nd_id (ib_deliveries (run_round b r)) = map nd_id (ib_deliveries b).
Proof.
  intros H. rewrite run_round_deliveries, map_map by done. apply map_ext. intros d.
  destruct (due _ _ d); [apply after_attempt_id|done].
Qed.

Lemma now_iso_le t : now_iso t ≤ t.
Proof. unfold now_iso. assert (H := Z.mod_pos_bound t 1000000 ltac:(lia)). lia. Qed.

Lemma delivery_retry_at_cap attempt now : delivery_retry_at attempt now ≤ now + seconds DELIVERY_RETRY_CAP_SECONDS.
Proof.
  unfold delivery_retry_at. etrans; [apply now_iso_le|]. unfold seconds, DELIVERY_RETRY_CAP_SECONDS. lia.
Qed.

(** After [k] rounds a pending row that is still worth sending has been tried at
    least [k] times, and is due again within the longest backoff. *)
Definition chased (k : Z) (t : timestamp) (b : inbox) : Prop :=
  ∀ d, d ∈ ib_deliveries b → nd_status d = "pending" → deliverable b d →
    k ≤ nd_attempt_count d ∧ (k = 0 ∨ nd_attempt_count d < max_attempts)
    ∧ match nd_next_attempt_at d with Some x => x ≤ t | None => True end.

Lemma after_attempt_pending client send stamp d :
  nd_status (after_attempt smtp client send max_attempts stamp d) = "pending" →
  nd_attempt_count (after_attempt smtp client send max_attempts stamp d) = nd_attempt_count d + 1
  ∧ nd_attempt_count d + 1 < max_attempts
  ∧ nd_next_attempt_at (after_attempt smtp client send max_attempts stamp d) = Some (delivery_retry_at (nd_attempt_count d + 1) stamp).
Proof.
  unfold after_attempt. destruct (_ && send d); [done|]. destruct (max_attempts <=? _) eqn:E; [done|]. bsimpl. by intros _.
Qed.

Lemma round_chases k t b r :
  NoDup (map nd_id (ib_deliveries b)) → 0 ≤ k → chased k t b → t ≤ now_iso (rd_now r) →
  chased (k + 1) (now_iso (rd_now r) + seconds DELIVERY_RETRY_CAP_SECONDS) (run_round b r).
Proof.
  intros Hnd Hk Hch Ht d Hd Hp Hdel. rewrite run_round_deliveries in Hd by done. apply list_elem_of_fmap in Hd as (d0 & -> & Hd0).
  set (b1 := reconcile_problem_states _ _ _ _ _ _) in *.
  assert (Hdel1 : deliverable b1 d0).
  { destruct Hdel as (n & Hn & Hid & Hst). rewrite run_round_notifications in Hn. exists n. split; [done|]. split; [|done].
    rewrite Hid. destruct (due _ _ d0); [|done]. unfold after_attempt. by repeat case_match. }
  assert (Hdel0 := reconcile_deliverable _ _ _ _ _ Hdel1).
  destruct (due b1 (now_iso (rd_now r)) d0) eqn:Edue.
  - apply after_attempt_pending in Hp as (-> & Hlt & ->). unfold due in Edue. bsimpl.
    destruct (Hch d0 Hd0 ltac:(done) Hdel0) as (H1 & H2 & H3). split; [lia|]. split; [by right|]. apply delivery_retry_at_cap.
  - exfalso. destruct (Hch d0 Hd0 Hp Hdel0) as (H1 & H2 & H3). unfold due in Edue. rewrite Hp in Edue.
    rewrite bool_decide_eq_true_2 in Edue by done. cbn [andb] in Edue. apply andb_false_iff in Edue as [E|E].
    + destruct (nd_next_attempt_at d0); [bsimpl; lia|done].
    + rewrite exists_row_false in E. destruct Hdel1 as (n & Hn & Hid & Hst). specialize (E n Hn).
      rewrite bool_decide_eq_true_2 in E by done. cbn [andb] in E. apply orb_false_iff in E as [E1 E2]. bsimpl.
      destruct Hst as [Hst|Hst]; [by rewrite Hst in E1|done].
Qed.

Lemma rounds_chase rounds k t b :
  NoDup (map nd_id (ib_deliveries b)) → 0 ≤ k → chased k t b → spaced t rounds →
  ∃ t', chased (k + Z.of_nat (length rounds)) t' (foldl run_round b rounds).
Proof.
  revert k t b; induction rounds as [|r rounds IH]; intros k t b Hnd Hk Hch Hsp; cbn [foldl length].
  - exists t. by rewrite Z.add_0_r.
  - destruct Hsp as [Ht Hsp]. destruct (IH (k + 1) (now_iso (rd_now r) + seconds DELIVERY_RETRY_CAP_SECONDS) (run_round b r)) as (t' & H);
      [|lia|by eapply round_chases|done|].
    + by rewrite run_round_ids.
    + exists t'. by replace (k + Z.of_nat (S (length rounds))) with (k + 1 + Z.of_nat (length rounds)) by lia.
Qed.

(** No row is tried beyond the bound: what a row may become. *)
Definition tried_from (d0 d : delivery) : Prop :=
  nd_id d0 = nd_id d ∧ nd_attempt_count d0 ≤ nd_attempt_count d
  ∧ nd_attempt_count d ≤ Z.max (nd_attempt_count d0 + 1) max_attempts
  ∧ (nd_status d = "pending" → nd_attempt_count d = nd_attempt_count d0 ∨ nd_attempt_count d < max_attempts).

Lemma attempt_tried_from client send stamp d0 d :
  tried_from d0 d → nd_status d = "pending" → tried_from d0 (after_attempt smtp client send max_attempts stamp d).
Proof.
  intros (H1 & H2 & H3 & H4) Hp. specialize (H4 Hp). unfold after_attempt.
  destruct (_ && send d); [|destruct (max_attempts <=? _) eqn:E; bsimpl]; split_and!; cbn; try done; try lia.
Qed.

Lemma rounds_bounded rounds b d :
  NoDup (map nd_id (ib_deliveries b)) → d ∈ ib_deliveries (foldl run_round b rounds) →
  ∃ d0, d0 ∈ ib_deliveries b ∧ tried_from d0 d.
Proof.
  intros Hnd. assert (Hgen : ∀ b', NoDup (map nd_id (ib_deliveries b')) →
    (∀ x, x ∈ ib_deliveries b' → ∃ d0, d0 ∈ ib_deliveries b ∧ tried_from d0 x) →
    d ∈ ib_deliveries (foldl run_round b' rounds) → ∃ d0, d0 ∈ ib_deliveries b ∧ tried_from d0 d).
  { induction rounds as [|r rounds IH]; intros b' Hnd' Hb; cbn [foldl]; [apply Hb|]. apply IH; [by rewrite run_round_ids|].
    intros x Hx. rewrite run_round_deliveries in Hx by done. apply list_elem_of_fmap in Hx as (y & -> & Hy).
    destruct (Hb y Hy) as (d0 & Hd0 & Ht). exists d0. split; [done|]. destruct (due _ _ y) eqn:E; [|done].
    unfold due in E. bsimpl. by apply attempt_tried_from. }
  apply Hgen; [done|]. intros x Hx. exists x. split; [done|]. split_and!; [done|lia|lia|by left].
Qed.

(** C37: email delivery terminates.  Whatever the endpoint answers to each
    message, after [max_attempts] rounds that are at least the longest backoff
    apart no delivery is left pending for a notification that is still worth
    sending; and no number of rounds tries a delivery more often than
    [max_attempts] times (once more, if it had been tried that often before). *)
Theorem email_delivery_terminates b t rounds :
  NoDup (map nd_id (ib_deliveries b)) → 1 ≤ max_attempts →
  (∀ d, d ∈ ib_deliveries b → 0 ≤ nd_attempt_count d ∧ match nd_next_attempt_at d with Some x => x ≤ t | None => True end) →
  spaced t rounds → max_attempts ≤ Z.of_nat (length rounds) →
  ∀ d, d ∈ ib_deliveries (foldl run_round b rounds) →
    (nd_status d = "pending" → ¬ deliverable (foldl run_round b rounds) d)
    ∧ ∃ d0, d0 ∈ ib_deliveries b ∧ nd_id d0 = nd_id d ∧ nd_attempt_count d ≤ Z.max (nd_attempt_count d0 + 1) max_attempts.
Proof.
  intros Hnd Hmax Hb Hsp Hlen d Hd. split.
  - intros Hp Hdel. destruct (rounds_chase rounds 0 t b Hnd ltac:(lia)) as (t' & Hch); [|done|].
    + intros x Hx _ _. destruct (Hb x Hx). split; [lia|]. split; [by left|done].
    + destruct (Hch d Hd Hp Hdel) as (H1 & H2 & _). lia.
  - destruct (rounds_bounded rounds b d Hnd Hd) as (d0 & Hd0 & H1 & _ & H3 & _). eauto.
Qed.
End termination.

(** ** The tables stay well formed *)
Record wf_inbox (b : inbox) : Prop := {
  wi_ids : NoDup (map no_id (ib_notifications b));
  wi_fresh : ∀ n, n ∈ ib_notifications b → no_id n < ib_next_notification b;
  wi_keys : ∀ n m k, n ∈ ib_notifications b → m ∈ ib_notifications b → no_user_id n = no_user_id m →
    no_dedupe_key n = Some k → no_dedupe_key m = Some k → n = m;
  wi_delivery_ids : NoDup (map nd_id (ib_deliveries b));
  wi_delivery_fresh : ∀ d, d ∈ ib_deliveries b → nd_id d < ib_next_delivery b;
  wi_channels : NoDup (map (fun d => (nd_notification_id d, nd_channel d)) (ib_deliveries b));
  wi_deliveries : ∀ d, d ∈ ib_deliveries b →
    nd_notification_id d ∈ map no_id (ib_notifications b) ∧ nd_channel d = "email" ∧ 0 ≤ nd_attempt_count d;
}.

(** An assignment that leaves the identity of a notification alone. *)
Definition keeps_identity (f : notification → notification) : Prop :=
  ∀ n, no_id (f n) = no_id n ∧ no_user_id (f n) = no_user_id n ∧ no_dedupe_key (f n) = no_dedupe_key n.

Lemma update_ids p f b : keeps_identity f → map no_id (ib_notifications (update_notifications p f b)) = map no_id (ib_notifications b).
Proof. intros Hf. cbn. apply update_where_column. intros n. by apply Hf. Qed.

Lemma update_wf p f b : keeps_identity f → wf_inbox b → wf_inbox (update_notifications p f b).
Proof.
  intros Hf [H1 H2 H3 H4 H5 H6 H7].
  assert (Hpre : ∀ n, n ∈ ib_notifications (update_notifications p f b) → ∃ m, m ∈ ib_notifications b ∧ n = (if p m then f m else m)
            ∧ no_id n = no_id m ∧ no_user_id n = no_user_id m ∧ no_dedupe_key n = no_dedupe_key m).
  { intros n (m & Hm & ->)%elem_of_update_where. exists m. destruct (Hf m) as (? & ? & ?). by destruct (p m). }
  split; [by rewrite update_ids| | |done|done|done|by rewrite update_ids].
  - intros n (m & Hm & _ & -> & _)%Hpre. by apply H2.
  - intros n m k (n0 & Hn & -> & E1 & E2 & E3)%Hpre (m0 & Hm & -> & F1 & F2 & F3)%Hpre Hu Hk Hk'.
    assert (n0 = m0) as -> by (eapply (H3 _ _ k); congruence). done.
Qed.

(** Likewise for the deliveries. *)
Lemma deliveries_wf (f : delivery → delivery) b :
  (∀ d, nd_id (f d) = nd_id d ∧ nd_notification_id (f d) = nd_notification_id d ∧ nd_channel (f d) = nd_channel d
        ∧ (0 ≤ nd_attempt_count d → 0 ≤ nd_attempt_count (f d))) →
  wf_inbox b → wf_inbox (set_deliveries (map f (ib_deliveries b)) b).
Proof.
  intros Hf [H1 H2 H3 H4 H5 H6 H7]. split; [done|done|done| | | |]; cbn [ib_deliveries set_deliveries].
  - rewrite map_map. erewrite map_ext; [done|]. intros d. apply Hf.
  - intros d (x & -> & Hx)%list_elem_of_fmap. destruct (Hf x) as (-> & _). by apply H5.
  - rewrite map_map. erewrite map_ext; [done|]. intros d. destruct (Hf d) as (_ & -> & -> & _). done.
  - intros d (x & -> & Hx)%list_elem_of_fmap. destruct (Hf x) as (_ & -> & -> & Ha). destruct (H7 x Hx) as (? & ? & ?). auto.
Qed.

Section inbox_facts.
Context (translate : string → message_params → string) (render_weekly_summary : message_params → string).
Context (resolution : job → bool) (jsonb_text : json → string) (smtp : bool).
Local Notation requested_row := (requested_row translate render_weekly_summary).
Local Notation persist := (persist translate render_weekly_summary).
Local Notation enqueue := (enqueue_notification translate render_weekly_summary).
Local Notation set_problem := (set_problem translate render_weekly_summary smtp).

Lemma insert_wf b r stamp :
  wf_inbox b → (∀ k n, rq_dedupe_key r = Some k → n ∈ ib_notifications b → by_key (rq_user_id r) k n = false) →
  wf_inbox (insert_notification translate render_weekly_summary b r stamp).1.
Proof.
  intros [H1 H2 H3 H4 H5 H6 H7] Hk. split; cbn [insert_notification fst ib_notifications ib_next_notification ib_deliveries ib_next_delivery]; try done.
  - rewrite map_app. apply NoDup_app. split; [done|]. split; [|apply NoDup_singleton].
    intros x (n & -> & Hn)%list_elem_of_fmap Hx%list_elem_of_singleton. specialize (H2 n Hn). cbn in Hx. lia.
  - intros n [Hn|Hn%list_elem_of_singleton]%elem_of_app; [specialize (H2 n Hn); lia|]. subst. cbn. lia.
  - assert (Hnew : ∀ n k, n ∈ ib_notifications b → no_user_id n = rq_user_id r → no_dedupe_key n = Some k → rq_dedupe_key r = Some k → False).
    { intros n k Hn Hu Hd Hr. specialize (Hk k n Hr Hn). unfold by_key in Hk. rewrite !bool_decide_eq_true_2 in Hk; done. }
    intros n m k [Hn|Hn%list_elem_of_singleton]%elem_of_app [Hm|Hm%list_elem_of_singleton]%elem_of_app Hu Hd Hd'; subst; cbn in *.
    + by eapply H3.
    + exfalso. by eapply (Hnew n k).
    + exfalso. by eapply (Hnew m k).
    + done.
  - intros d Hd. destruct (H7 d Hd) as (? & ? & ?). rewrite map_app, elem_of_app. auto.
Qed.

(** Deduplication: the row of the key, or a new one. *)
Lemma persist_row b r stamp :
  wf_inbox b →
  ∃ b' row, persist b r stamp = Ok (b', row) ∧ wf_inbox b' ∧ row ∈ ib_notifications b' ∧ ib_deliveries b' = ib_deliveries b
    ∧ ib_users b' = ib_users b
    ∧ (∀ k p, rq_dedupe_key r = Some k → p ∈ ib_notifications b → by_key (rq_user_id r) k p = true →
         no_id row = no_id p ∧ map no_id (ib_notifications b') = map no_id (ib_notifications b)
         ∧ (row = p ∨ row = set_in_app p)).
Proof.
  intros Hwf. unfold Notifications.persist. destruct (rq_dedupe_key r) as [k|] eqn:Ek.
  2:{ eexists _, _. split; [reflexivity|]. split; [apply insert_wf; [done|]; intros k n E; congruence|]. cbn.
      split; [apply elem_of_app; right; by apply list_elem_of_singleton|]. done. }
  destruct (exists_row _ _) eqn:Ex.
  2:{ rewrite exists_row_false in Ex. eexists _, _. split; [reflexivity|].
      split; [apply insert_wf; [done|]; intros k' n E; rewrite Ek in E; injection E as <-; apply Ex|]. cbn.
      split; [apply elem_of_app; right; by apply list_elem_of_singleton|]. split; [done|]. split; [done|].
      intros k' p [= <-] Hp Hq. by rewrite Ex in Hq. }
  apply exists_row_true in Ex as (p & Hp & Hq).
  set (rows := sort_by _ _). assert (Hall : ∀ x, x ∈ rows → x = p).
  { intros x Hx. unfold rows in Hx. rewrite sort_by_perm in Hx. apply elem_of_select in Hx as [Hx Hx']. unfold by_key in *. bsimpl.
    eapply (wi_keys _ Hwf _ _ k); congruence. }
  assert (Hin : p ∈ rows) by (unfold rows; rewrite sort_by_perm; by apply elem_of_select).
  destruct rows as [|x rest]; [by apply not_elem_of_nil in Hin|]. assert (x = p) as -> by (apply Hall; left). cbn [head].
  assert (Hsame : ∀ k' p', Some k = Some k' → p' ∈ ib_notifications b → by_key (rq_user_id r) k' p' = true → p' = p).
  { intros k' p' [= <-] Hp' Hq'. unfold by_key in *. bsimpl. eapply (wi_keys _ Hwf _ _ k); congruence. }
  destruct (_ && negb _).
  - assert (Hf : fetchone (by_id (no_id p)) (ib_notifications (update_notifications (by_id (no_id p)) set_in_app b)) = Some (set_in_app p)).
    { cbn. rewrite fetchone_update_same by done. erewrite (fetchone_unique no_id _ _ p); [done|apply Hwf| |done|].
      - intros r' Hr'. unfold by_id in Hr'. by bsimpl.
      - unfold by_id. by rewrite bool_decide_eq_true_2. }
    rewrite Hf. eexists _, _. split; [reflexivity|]. split; [by apply update_wf|].
    apply fetchone_some in Hf as [Hf _]. split; [done|]. split; [done|]. split; [done|].
    intros k' p' Ek' Hp' Hq'. rewrite (Hsame k' p' Ek' Hp' Hq'). split; [done|]. split; [by apply update_ids|by right].
  - eexists _, _. split; [reflexivity|]. do 4 (split; [done|]).
    intros k' p' Ek' Hp' Hq'. rewrite (Hsame k' p' Ek' Hp' Hq'). by auto.
Qed.

(** A channel adds at most one row, which nobody has. *)
Lemma ensure_delivery_row b id c stamp :
  wf_inbox b → id ∈ map no_id (ib_notifications b) → c = "in_app" ∨ c = "email" →
  ∃ b', ensure_delivery b id c stamp = Ok b' ∧ wf_inbox b' ∧ ib_notifications b' = ib_notifications b ∧ ib_users b' = ib_users b
    ∧ ∀ d, d ∈ ib_deliveries b → d ∈ ib_deliveries b'.
Proof.
  intros Hwf Hid [-> | ->]; unfold ensure_delivery; [by exists b|].
  replace ("email" =b "in_app") with false by done. replace ("email" <>b "email") with false by done. cbn [raise_if mbind result_bind].
  destruct (exists_row _ _) eqn:Ex; [by exists b|]. rewrite exists_row_false in Ex. eexists. split; [reflexivity|].
  destruct Hwf as [H1 H2 H3 H4 H5 H6 H7].
  split; [|by split; [|split; [|intros d Hd; apply elem_of_app; left]]].
  split; cbn [ib_deliveries ib_notifications ib_next_delivery]; try done.
  - rewrite map_app. apply NoDup_app. split; [done|]. split; [|apply NoDup_singleton].
    intros x (d & -> & Hd)%list_elem_of_fmap Hx%list_elem_of_singleton. specialize (H5 d Hd). cbn in Hx. lia.
  - intros d [Hd|Hd%list_elem_of_singleton]%elem_of_app; [specialize (H5 d Hd); lia|]. subst. cbn. lia.
  - rewrite map_app. apply NoDup_app. split; [done|]. split; [|apply NoDup_singleton].
    intros x (d & -> & Hd)%list_elem_of_fmap Hx%list_elem_of_singleton. cbn in Hx. injection Hx as E1 E2.
    specialize (Ex d Hd). unfold of_delivery in Ex. rewrite !bool_decide_eq_true_2 in Ex; done.
  - intros d [Hd|Hd%list_elem_of_singleton]%elem_of_app; [by apply H7|]. subst. cbn. done.
Qed.

Definition valid_channel (c : string) : Prop := c = "in_app" ∨ c = "email".

Lemma ensure_deliveries channels b id stamp :
  wf_inbox b → id ∈ map no_id (ib_notifications b) → Forall valid_channel channels →
  ∃ b', foldM_r (fun b c => ensure_delivery b id c stamp) b channels = Ok b' ∧ wf_inbox b'
    ∧ ib_notifications b' = ib_notifications b ∧ ib_users b' = ib_users b ∧ ∀ d, d ∈ ib_deliveries b → d ∈ ib_deliveries b'.
Proof.
  intros Hwf Hid Hc. revert b Hwf Hid; induction Hc as [|c channels Hc _ IH]; intros b Hwf Hid; [by exists b|]. cbn [foldM_r].
  destruct (ensure_delivery_row b id c stamp Hwf Hid Hc) as (b1 & -> & Hwf1 & En & Eu & Hd). cbn [mbind result_bind].
  destruct (IH b1 Hwf1) as (b2 & -> & Hwf2 & En2 & Eu2 & Hd2); [by rewrite En|]. exists b2. split_and!; [done|done|congruence|congruence|auto].
Qed.

Lemma for_each_channels channels u :
  for_each (fun c => raise_if (negb (c ∈b ["in_app"; "email"])) (ValueError ("invalid delivery channel: " +:+ c))) channels = Ok u →
  Forall valid_channel channels.
Proof.
  destruct u. rewrite for_each_ok. intros H. eapply Forall_impl; [exact H|]. intros c Hc%raise_if_ok. bsimpl. unfold valid_channel. set_solver.
Qed.

(** What [enqueue_notification] does whenever its channels are valid. *)
Lemma enqueue_row b r now :
  wf_inbox b → Forall valid_channel (unique_channels (rq_channels r)) →
  ∃ b' row, enqueue b r now = Ok (b', row) ∧ wf_inbox b' ∧ row ∈ ib_notifications b' ∧ ib_users b' = ib_users b
    ∧ (∀ d, d ∈ ib_deliveries b → d ∈ ib_deliveries b')
    ∧ (∀ k p, rq_dedupe_key r = Some k → p ∈ ib_notifications b → by_key (rq_user_id r) k p = true →
         no_id row = no_id p ∧ map no_id (ib_notifications b') = map no_id (ib_notifications b) ∧ (row = p ∨ row = set_in_app p)).
Proof.
  intros Hwf Hc. unfold enqueue_notification.
  assert (Hf : for_each (fun c => raise_if (negb (c ∈b ["in_app"; "email"])) (ValueError ("invalid delivery channel: " +:+ c)))
                 (unique_channels (rq_channels r)) = Ok tt).
  { apply for_each_ok. eapply Forall_impl; [exact Hc|]. intros c Hv. apply raise_if_ok, negb_false_iff, bool_decide_eq_true.
    unfold valid_channel in Hv. set_solver. }
  rewrite Hf. cbn [mbind result_bind].
  destruct (persist_row b r (now_iso now) Hwf) as (b1 & row & -> & Hwf1 & Hrow & Ed & Eu & Hk). cbn [mbind result_bind].
  destruct (ensure_deliveries (unique_channels (rq_channels r)) b1 (no_id row) (now_iso now) Hwf1) as (b2 & -> & Hwf2 & En2 & Eu2 & Hd2);
    [by apply list_elem_of_fmap_2|done|]. cbn [mbind result_bind].
  exists b2, row. rewrite En2, Eu2, <- Ed. do 5 (split; [done|]). exact Hk.
Qed.

Lemma enqueue_wf b r now b' row : wf_inbox b → enqueue b r now = Ok (b', row) → wf_inbox b'.
Proof.
  intros Hwf H. assert (Hc : Forall valid_channel (unique_channels (rq_channels r))).
  { unfold enqueue_notification in H. apply bind_ok in H as (u & H & _). by eapply for_each_channels. }
  destruct (enqueue_row b r now Hwf Hc) as (b1 & row1 & E & Hwf1 & _). congruence.
Qed.

Lemma problem_channels (email : bool) : Forall valid_channel (unique_channels (if email then fixed_channels smtp else ["in_app"])).
Proof. unfold fixed_channels, valid_channel. destruct email, smtp; cbn; repeat (constructor; [by auto|]); constructor. Qed.

Lemma open_problem_identity reopen params body stamp : keeps_identity (open_problem reopen params body stamp).
Proof. done. Qed.

(** A problem is told once per episode.  When the Owner's row of a problem
    exists, reporting the problem as present succeeds, creates no second row and
    leaves it open.  While the episode lasts (the row is not resolved) every
    delivery, the reading mark and the date stay as they were, so polling neither
    sends another email nor marks a read problem unread; after a resolution the
    row is unread again and each of its deliveries starts over with no attempts. *)
Theorem problem_told_once_per_episode b key event v params email now o p :
  wf_inbox b → owner_user_id b = Some o → p ∈ ib_notifications b → by_key o key p = true →
  ∃ b' q, set_problem b key event v true params email now = Ok (b', Some q) ∧ wf_inbox b'
    ∧ no_id q = no_id p ∧ map no_id (ib_notifications b') = map no_id (ib_notifications b)
    ∧ no_problem_status q = Some "open" ∧ no_resolved_at q = None
    ∧ (no_problem_status p ≠ Some "resolved" →
         no_read_at q = no_read_at p ∧ no_created_at q = no_created_at p ∧ ∀ d, d ∈ ib_deliveries b → d ∈ ib_deliveries b')
    ∧ (no_problem_status p = Some "resolved" →
         no_read_at q = None ∧ no_created_at q = now_iso now
         ∧ ∀ d, d ∈ ib_deliveries b' → nd_notification_id d = no_id p → nd_status d = "pending" ∧ nd_attempt_count d = 0).
Proof.
  intros Hwf Ho Hp Hk. unfold Notifications.set_problem. rewrite Ho. cbn [negb].
  assert (Hprev : fetchone (by_key o key) (ib_notifications b) = Some p).
  { destruct (fetchone _ _) as [q|] eqn:E; [|rewrite fetchone_none in E; by rewrite E in Hk].
    apply fetchone_some in E as [Hq Hq']. unfold by_key in *. bsimpl. f_equal. eapply (wi_keys _ Hwf _ _ key); congruence. }
  rewrite Hprev. cbn [mbind option_bind].
  edestruct (enqueue_row b) as (b1 & row & -> & Hwf1 & Hrow & Eu & Hd & Hdup); [done|apply problem_channels|].
  cbn [mbind result_bind]. destruct (Hdup key p eq_refl Hp Hk) as (Hid & Hids & Hcase).
  set (reopen := bool_decide (no_problem_status p = Some "resolved")).
  set (f := open_problem reopen params _ (now_iso now)).
  assert (Hfetch : fetchone (by_id (no_id row)) (ib_notifications (update_notifications (by_id (no_id row)) f b1)) = Some (f row)).
  { cbn. rewrite fetchone_update_same by done. erewrite (fetchone_unique no_id _ _ row); [done|apply Hwf1| |done|].
    - intros r' Hr'. unfold by_id in Hr'. by bsimpl.
    - unfold by_id. by rewrite bool_decide_eq_true_2. }
  assert (Hwf2 : wf_inbox (update_notifications (by_id (no_id row)) f b1)) by by apply update_wf.
  assert (Hrp : no_read_at row = no_read_at p ∧ no_created_at row = no_created_at p) by by destruct Hcase as [-> | ->].
  eexists _, (f row). split; [|split; [|split; [exact Hid|split]]].
  - do 2 f_equal. destruct reopen; exact Hfetch.
  - destruct reopen; [|exact Hwf2]. apply (deliveries_wf (fun d => if nd_notification_id d =b no_id row then rearm (now_iso now) d else d)); [|exact Hwf2].
    intros d. destruct (nd_notification_id d =b no_id row); cbn; split_and!; done || lia.
  - destruct reopen; cbn [ib_notifications set_deliveries]; by rewrite update_ids.
  - split; [done|]. split; [done|]. subst f. unfold reopen. split.
    + intros Hn. rewrite !bool_decide_eq_false_2 by done. cbn. destruct Hrp as [-> ->]. by repeat split.
    + intros Hr. rewrite !bool_decide_eq_true_2 by done. split; [done|]. split; [done|].
      intros d Hdd Hnd. cbn [ib_deliveries set_deliveries] in Hdd. apply elem_of_update_where in Hdd as (d0 & Hd0 & ->).
      rewrite <- Hid in Hnd. destruct (nd_notification_id d0 =b no_id row) eqn:E; [done|]. bsimpl. done.
Qed.

(** ** Every operation on the inbox *)
Inductive inbox_step : inbox → inbox → Prop :=
  | step_enqueue b r now b' n : enqueue b r now = Ok (b', n) → inbox_step b b'
  | step_terminal db b job_id now b' n :
      enqueue_job_terminal_notification_best_effort translate render_weekly_summary resolution smtp db b job_id now = (b', n) → inbox_step b b'
  | step_reconcile_terminal db b limit now b' n :
      reconcile_pending_terminal_notifications translate render_weekly_summary resolution smtp db b limit now = (b', n) → inbox_step b b'
  | step_incident b i event params now b' n :
      enqueue_incident_notification translate render_weekly_summary smtp b i event params now = Ok (b', n) → inbox_step b b'
  | step_problem b key event v active params email now b' n :
      set_problem b key event v active params email now = Ok (b', n) → inbox_step b b'
  | step_reconcile db health b now : inbox_step b (reconcile_problem_states resolution jsonb_text db health b now)
  | step_read db health b id user now b' n :
      mark_notification_read resolution jsonb_text db health b id user now = (b', n) → inbox_step b b'
  | step_read_all db health b user now b' n :
      mark_all_notifications_read resolution jsonb_text db health b user now = (b', n) → inbox_step b b'
  | step_deliver db health b client send max_attempts now b' st :
      deliver_pending_notifications resolution jsonb_text smtp db health b client send max_attempts now = (b', st) → inbox_step b b'.

Lemma settle_failed_job_identity db now : keeps_identity (settle_failed_job resolution db now).
Proof. intros n. unfold settle_failed_job. destruct (fetchone _ _); [|done]. by destruct (resolution _). Qed.

Lemma reconcile_wf db health b now : wf_inbox b → wf_inbox (reconcile_problem_states resolution jsonb_text db health b now).
Proof. by apply update_wf. Qed.

Lemma mark_done_wf db b job_id : wf_inbox b → wf_inbox (mark_terminal_notification_done db b job_id).1.
Proof. intros [H1 H2 H3 H4 H5 H6 H7]. by split. Qed.

Lemma best_effort_wf db b job_id now :
  wf_inbox b → wf_inbox (enqueue_job_terminal_notification_best_effort translate render_weekly_summary resolution smtp db b job_id now).1.
Proof.
  intros Hwf. unfold enqueue_job_terminal_notification_best_effort.
  destruct (enqueue_job_terminal_notification _ _ _ _ _ _ _ _) as [[b1 n]|] eqn:E; [|done]. apply mark_done_wf.
  unfold enqueue_job_terminal_notification in E. destruct (fetchone _ _) as [j|]; [|by injection E as <- _].
  destruct (terminal_event j) as [event|]; [|by injection E as <- _]. destruct (owner_user_id b); [|by injection E as <- _].
  apply bind_ok in E as ([b2 row] & H & E). apply enqueue_wf in H; [|done]. injection E as <- _.
  destruct (event =b "job_failed"); [|done]. apply update_wf; [apply settle_failed_job_identity|done].
Qed.

Lemma reconcile_terminal_wf db b limit now :
  wf_inbox b → wf_inbox (reconcile_pending_terminal_notifications translate render_weekly_summary resolution smtp db b limit now).1.
Proof.
  intros Hwf. unfold reconcile_pending_terminal_notifications. generalize (take (Z.to_nat limit) (sort_by older_job (pending_terminal db b))).
  intros jobs. assert (Hst : wf_inbox (b, 0).1) by done. revert Hst. generalize (b, 0). induction jobs as [|j jobs IH]; intros [x n] Hx; [done|].
  cbn [foldl]. apply IH. assert (Hb := best_effort_wf db x (j_id j) now Hx).
  destruct (enqueue_job_terminal_notification_best_effort _ _ _ _ _ _ _ _) as [y [m|]]; [|done]. by apply mark_done_wf.
Qed.

Lemma deliver_wf db health b client send max_attempts now :
  wf_inbox b → wf_inbox (deliver_pending_notifications resolution jsonb_text smtp db health b client send max_attempts now).1.
Proof.
  intros Hwf. unfold deliver_pending_notifications. assert (Hr := reconcile_wf db health b now Hwf).
  set (b1 := reconcile_problem_states _ _ _ _ _ _) in *. destruct (foldl _ _ _) as [ds st] eqn:E. cbn [fst].
  apply (f_equal fst) in E. cbn [fst] in E. rewrite round_pointwise in E by apply Hr. subst ds. apply deliveries_wf; [|done].
  intros d. destruct (due _ _ d); [|done]. unfold after_attempt. repeat case_match; cbn; split_and!; done || lia.
Qed.

Lemma set_problem_wf b key event v active params email now b' n :
  wf_inbox b → set_problem b key event v active params email now = Ok (b', n) → wf_inbox b'.
Proof.
  intros Hwf H. unfold Notifications.set_problem in H. destruct (owner_user_id b) as [o|]; [|by injection H as <- _].
  destruct active; cbn [negb] in H.
  - apply bind_ok in H as ([b1 row] & H1 & H). apply enqueue_wf in H1; [|done]. injection H as <- _.
    assert (H2 := update_wf (by_id (no_id row))
      (open_problem (bool_decide ((fetchone (by_key o key) (ib_notifications b) ≫= no_problem_status) = Some "resolved")) params
         (translate ("notification." +:+ event +:+ ".body") params) (now_iso now)) b1 ltac:(done) H1).
    set (b2 := update_notifications _ _ b1) in *. change (ib_deliveries b1) with (ib_deliveries b2). clearbody b2. destruct (bool_decide _); [|done].
    apply (deliveries_wf (fun d => if nd_notification_id d =b no_id row then rearm (now_iso now) d else d)); [|done].
    intros d. destruct (nd_notification_id d =b no_id row); cbn; split_and!; done || lia.
  - destruct (fetchone _ _) as [p|]; [|by injection H as <- _]. destruct (_ =b _); injection H as <- _; [by apply update_wf|done].
Qed.

(** The inbox stays well formed under every operation: notification ids are
    unique, a User has at most one notification per deduplication key, a
    notification has at most one delivery per channel, every delivery belongs to
    a notification, goes by email and counts its attempts from zero. *)
Theorem inbox_stays_well_formed b b' : wf_inbox b → rtc inbox_step b b' → wf_inbox b'.
Proof.
  intros Hwf Hs. revert Hwf. induction Hs as [b|b b1 b' Hstep _ IH]; [done|]. intros Hwf. apply IH. clear IH.
  destruct Hstep as [b r now b1 n H|db b job_id now b1 n H|db b limit now b1 n H|b i event params now b1 n H
                    |b key event v active params email now b1 n H|db health b now|db health b id user now b1 n H
                    |db health b user now b1 n H|db health b client send max_attempts now b1 st H].
  - by eapply enqueue_wf.
  - apply (f_equal fst) in H; cbn [fst] in H; subst b1. by apply best_effort_wf.
  - apply (f_equal fst) in H; cbn [fst] in H; subst b1. by apply reconcile_terminal_wf.
  - unfold enqueue_incident_notification in H. destruct (owner_user_id b); [|by injection H as <- _].
    apply bind_ok in H as ([b2 row] & H1 & H). injection H as <- _. apply update_wf; [done|by eapply enqueue_wf].
  - by eapply set_problem_wf.
  - by apply reconcile_wf.
  - injection H as <- _. apply update_wf; [done|by apply reconcile_wf].
  - injection H as <- _. by apply reconcile_wf, update_wf, reconcile_wf.
  - apply (f_equal fst) in H; cbn [fst] in H; subst b1. by apply deliver_wf.
Qed.
End inbox_facts.

(** ** Witnesses *)
Definition w_texts (key : string) (params : message_params) : string := key.
Definition w_weekly (params : message_params) : string := "".
Definition w_resolution (j : job) : bool := false.
Definition w_inbox : inbox :=
  {| ib_users := [7]; ib_notifications := []; ib_deliveries := []; ib_next_notification := 1; ib_next_delivery := 1;
     ib_terminal_pending := [] |}.

Definition w_report (b : inbox) (now : timestamp) : inbox :=
  match set_problem w_texts w_weekly true b "blocked:1:source" "protection_blocked" (Some 1) true [("path", JStr "/src")] true now with
  | Ok (b, _) => b
  | Raise _ => b
  end.

Lemma w_inbox_wf : wf_inbox w_inbox.
Proof. split; cbn; first [by apply NoDup_nil_2|set_solver]. Qed.

Definition w_reported : inbox := w_report w_inbox 5000000.

Lemma inbox_stays_well_formed_witness : wf_inbox w_reported ∧ length (ib_deliveries w_reported) = 1%nat.
Proof.
  split; [|vm_compute; reflexivity].
  apply (inbox_stays_well_formed w_texts w_weekly w_resolution dumps true w_inbox); [exact w_inbox_wf|]. apply rtc_once.
  eapply (step_problem _ _ _ _ _ _ "blocked:1:source" "protection_blocked" (Some 1) true [("path", JStr "/src")] true 5000000).
  vm_compute. reflexivity.
Defined.

(** The problem goes away and comes back. *)
Definition w_resolved : inbox :=
  match set_problem w_texts w_weekly true w_reported "blocked:1:source" "protection_blocked" (Some 1) false [] true 9000000 with
  | Ok (b, _) => b
  | Raise _ => w_reported
  end.

Definition w_problem : notification :=
  or_default (fetchone (by_key 7 "blocked:1:source") (ib_notifications w_resolved)) (requested_row w_texts w_weekly
    (keyed_request 7 "" None None [] "" []) 0 0).

Lemma w_resolved_wf : wf_inbox w_resolved.
Proof.
  apply (set_problem_wf w_texts w_weekly true w_reported "blocked:1:source" "protection_blocked" (Some 1) false [] true 9000000 _ None).
  - apply (set_problem_wf w_texts w_weekly true w_inbox "blocked:1:source" "protection_blocked" (Some 1) true [("path", JStr "/src")] true 5000000
             _ (fetchone (by_id 1) (ib_notifications w_reported)) w_inbox_wf).
    vm_compute. reflexivity.
  - vm_compute. reflexivity.
Qed.

Lemma problem_told_once_per_episode_witness :
  no_problem_status w_problem = Some "resolved"
  ∧ ∃ b' q, set_problem w_texts w_weekly true w_resolved "blocked:1:source" "protection_blocked" (Some 1) true [] true 12000000 = Ok (b', Some q)
      ∧ no_read_at q = None.
Proof.
  split; [vm_compute; reflexivity|].
  destruct (problem_told_once_per_episode w_texts w_weekly true w_resolved "blocked:1:source" "protection_blocked" (Some 1) [] true
              12000000 7 w_problem w_resolved_wf) as (b' & q & H & _ & _ & _ & _ & _ & _ & Hr).
  - vm_compute. reflexivity.
  - vm_compute. left.
  - vm_compute. reflexivity.
  - exists b', q. split; [exact H|]. apply Hr. vm_compute. reflexivity.
Defined.

Definition w_round (now : timestamp) : round :=
  {| rd_catalog := {| t_vaults := []; t_files := []; t_paths := []; t_versions := []; t_markers := []; t_copies := []; t_jobs := [];
                      t_items := []; t_stops := []; t_policies := []; t_health := []; t_audit := []; t_dirty := [];
                      t_rebuilds := []; t_incidents := []; t_outbox := [] |};
     rd_health := []; rd_client := true; rd_send := fun _ => false; rd_now := now |}.
Definition w_rounds : list round := [w_round 6000000; w_round 306000000; w_round 606000000].

Lemma email_delivery_terminates_witness :
  Forall (fun d => nd_status d = "pending" → ¬ deliverable (foldl (run_round w_resolution dumps true 3) w_reported w_rounds) d)
    (ib_deliveries (foldl (run_round w_resolution dumps true 3) w_reported w_rounds)).
Proof.
  apply Forall_forall. intros d Hd. apply (email_delivery_terminates w_resolution dumps true 3 w_reported 5000000 w_rounds); [| | | | |exact Hd].
  - vm_compute. repeat constructor. by apply not_elem_of_nil.
  - done.
  - intros x Hx. vm_compute in Hx. apply list_elem_of_singleton in Hx. subst x. vm_compute. split; discriminate.
  - vm_compute. repeat split; discriminate.
  - vm_compute. discriminate.
Defined.
