(* ===== verification/FolderMaintenance.v ===== *)
(** * FolderMaintenance: keeping the folder rows true

    Models the durable marks, the rebuild requests and the flush of
    [src/app/services/directory_aggregates.py] with [ensure_directory_aggregates]
    and the in-process ownership of Vaults.  [files] is what the SELECT of visible
    files sees of each Vault; [tracker] is the object a connection carries.  A mark
    has the identity of the transaction that made it ([mark_id]); the clock and
    the order in which a Python set gives its Vaults are arguments or irrelevant:
    Vaults are handled one by one and do not interact. *)
From S2P Require Import Prelude Sql PyString Schema ProtectionStates DirectoryAggregates.

Definition STATUS_READY : string := "ready".
Definition STATUS_REBUILD_REQUIRED : string := "rebuild_required".
Definition AGGREGATE_LISTING_READY : string := "ready".
Definition AGGREGATE_LISTING_LOADING : string := "loading".
Definition AGGREGATE_LISTING_STALE : string := "stale".

Record mark := {
  mk_vault_id : Z;
  mk_path : string;
  mk_id : string;
  mk_at : timestamp;
}.

Record tracker := {
  tr_dirty : list (Z * string);
  tr_rebuild : list Z;
  tr_file_marks : Z;
}.

Definition no_tracker : tracker := {| tr_dirty := []; tr_rebuild := []; tr_file_marks := 0 |}.

Record folders := {
  fd_rows : gmap Z (gmap string directory_rollup);
  fd_marks : list mark;
  fd_status : gmap Z string;
  fd_tracker : tracker;
}.

Definition rows_of (m : folders) (vault_id : Z) : gmap string directory_rollup := or_default (fd_rows m !! vault_id) ∅.

Definition set_rows (vault_id : Z) (rows : gmap string directory_rollup) (m : folders) : folders :=
  {| fd_rows := <[vault_id := rows]> (fd_rows m); fd_marks := fd_marks m; fd_status := fd_status m; fd_tracker := fd_tracker m |}.
Definition set_marks (l : list mark) (m : folders) : folders :=
  {| fd_rows := fd_rows m; fd_marks := l; fd_status := fd_status m; fd_tracker := fd_tracker m |}.
Definition set_tracker (t : tracker) (m : folders) : folders :=
  {| fd_rows := fd_rows m; fd_marks := fd_marks m; fd_status := fd_status m; fd_tracker := t |}.

(** [_mark_status]. *)
Definition mark_status (vault_id : Z) (status : string) (m : folders) : folders :=
  {| fd_rows := fd_rows m; fd_marks := fd_marks m; fd_status := <[vault_id := status]> (fd_status m); fd_tracker := fd_tracker m |}.

(** ** Marks and requests *)

(** [_persist_dirty_directory] in the transaction [tx]. *)
Definition persist_mark (tx : string) (at_ : timestamp) (vault_id : Z) (directory : string) (m : folders) : folders :=
  let known k := (mk_vault_id k =b vault_id) && (mk_path k =b directory) && (mk_id k =b tx) in
  let marks := if exists_row known (fd_marks m) then fd_marks m
               else fd_marks m ++ [{| mk_vault_id := vault_id; mk_path := directory; mk_id := tx; mk_at := at_ |}] in
  let t := fd_tracker m in
  {| fd_rows := fd_rows m; fd_marks := marks; fd_status := fd_status m;
     fd_tracker := {| tr_dirty := (vault_id, directory) :: tr_dirty t; tr_rebuild := tr_rebuild t; tr_file_marks := tr_file_marks t |} |}.

Definition count_file_mark (m : folders) : folders :=
  let t := fd_tracker m in
  set_tracker {| tr_dirty := tr_dirty t; tr_rebuild := tr_rebuild t; tr_file_marks := tr_file_marks t + 1 |} m.

Definition mark_ancestors (tx : string) (at_ : timestamp) (vault_id : Z) (path : string) (m : folders) : folders :=
  if path =b "" then m
  else foldl (fun m d => persist_mark tx at_ vault_id d m) (count_file_mark m) (ancestor_directories path).

Definition request_vault_rebuild (vault_id : Z) (m : folders) : folders :=
  let t := fd_tracker m in
  mark_status vault_id STATUS_REBUILD_REQUIRED
    (set_tracker {| tr_dirty := tr_dirty t; tr_rebuild := vault_id :: tr_rebuild t; tr_file_marks := tr_file_marks t |} m).

(** ** The flush *)
Section flush.
Context (files : Z → list catalog_file).

Definition claim_dirty_rows (m : folders) (vault_id : option Z) (cutoff : timestamp) : list mark :=
  select (fun k => match vault_id with Some v => mk_vault_id k =b v | None => true end && (mk_at k <=? cutoff)) (fd_marks m).

(** Deletes the claimed identities of the Vault; the batches of 500 are one. *)
Definition delete_claimed_dirty_rows (vault_id : Z) (claims : list mark) (m : folders) : folders :=
  let identities := map (fun k => (mk_path k, mk_id k)) (select (fun k => mk_vault_id k =b vault_id) claims) in
  set_marks (delete_where (fun k => (mk_vault_id k =b vault_id) && ((mk_path k, mk_id k) ∈b identities)) (fd_marks m)) m.

(** [rebuild_vault_directory_aggregates] with its bookkeeping. *)
Definition rebuild_vault (vault_id : Z) (claims : list mark) (m : folders) : folders :=
  let m := set_rows vault_id (rebuild_vault_directory_aggregates (files vault_id)) m in
  let m := mark_status vault_id STATUS_READY (delete_claimed_dirty_rows vault_id claims m) in
  let t := fd_tracker m in
  set_tracker {| tr_dirty := List.filter (fun k => k.1 <>b vault_id) (tr_dirty t);
                 tr_rebuild := List.filter (fun v => v <>b vault_id) (tr_rebuild t); tr_file_marks := tr_file_marks t |} m.

Definition refresh (vault_id : Z) (m : folders) (directory : string) : folders :=
  set_rows vault_id (rebuild_directory (files vault_id) directory (rows_of m vault_id)) m.

(** [sorted(..., key=lambda item: (item.count("/"), item))]. *)
Fixpoint count_char (c : Ascii.ascii) (s : string) : nat :=
  match s with EmptyString => 0 | String a s => if a =b c then S (count_char c s) else count_char c s end.

Definition shallower (a b : string) : bool :=
  let m := count_char slash a in
  let n := count_char slash b in
  if (m =? n)%nat then String.leb a b else (m <? n)%nat.

Definition refresh_vault (claims : list mark) (dirty : list (Z * string)) (m : folders) (vault_id : Z) : folders :=
  let directories := sort_by shallower (remove_dups (map snd (List.filter (fun k => k.1 =b vault_id) dirty))) in
  mark_status vault_id STATUS_READY
    (delete_claimed_dirty_rows vault_id claims (foldl (refresh vault_id) m directories)).

Definition is_mine (vault_id : option Z) (v : Z) : bool := match vault_id with Some w => v =b w | None => true end.

(** The folders to refresh: the claimed marks and those of this connection. *)
Definition dirty_set (m : folders) (vault_id : option Z) (cutoff : timestamp) : list (Z * string) :=
  remove_dups (map (fun k => (mk_vault_id k, mk_path k)) (claim_dirty_rows m vault_id cutoff)
               ++ List.filter (fun k => is_mine vault_id k.1) (tr_dirty (fd_tracker m))).

(** The Vaults to rebuild. *)
Definition rebuild_set (m : folders) (vault_id : option Z) : list Z :=
  let required := map fst (List.filter (fun x => x.2 =b STATUS_REBUILD_REQUIRED) (map_to_list (fd_status m))) in
  sort_by Z.leb (remove_dups (List.filter (is_mine vault_id) (tr_rebuild (fd_tracker m) ++ required))).

(** What is left to refresh after the rebuilds. *)
Definition rest_set (m : folders) (vault_id : option Z) (cutoff : timestamp) : list (Z * string) :=
  List.filter (fun k => negb (k.1 ∈b rebuild_set m vault_id)) (dirty_set m vault_id cutoff).

Record flush_report := { fr_rebuilt_directories : Z; fr_full_rebuilds : Z; fr_dirty_file_marks : Z }.

Definition flush_directory_aggregates (m : folders) (vault_id : option Z) (cutoff : timestamp) : folders * flush_report :=
  let claimed := claim_dirty_rows m vault_id cutoff in
  let rebuilds := rebuild_set m vault_id in
  let dirty := rest_set m vault_id cutoff in
  let file_marks := tr_file_marks (fd_tracker m) in
  let m := foldl (fun m v => rebuild_vault v claimed m) m rebuilds in
  let m := foldl (refresh_vault claimed dirty) m (remove_dups (map fst dirty)) in
  let t := fd_tracker m in
  let t := match vault_id with
           | None => no_tracker
           | Some v =>
               let d := List.filter (fun k => k.1 <>b v) (tr_dirty t) in
               let r := List.filter (fun w => negb (w ∈b rebuilds)) (tr_rebuild t) in
               {| tr_dirty := d; tr_rebuild := r;
                  tr_file_marks := match d, r with [], [] => 0 | _, _ => tr_file_marks t end |}
           end in
  (set_tracker t m,
   {| fr_rebuilt_directories := Z.of_nat (length dirty); fr_full_rebuilds := Z.of_nat (length rebuilds);
      fr_dirty_file_marks := file_marks |}).
End flush.

(** [ensure_directory_aggregates]: the readiness a listing reports, and whether
    maintenance is scheduled. *)
Definition ensure_directory_aggregates (m : folders) (vault_id : Z) : folders * string * bool :=
  match fd_status m !! vault_id with
  | None => (request_vault_rebuild vault_id m, AGGREGATE_LISTING_LOADING, true)
  | Some status =>
      if status <>b STATUS_READY then
        (m, if bool_decide (rows_of m vault_id = ∅) then AGGREGATE_LISTING_LOADING else AGGREGATE_LISTING_STALE, true)
      else if exists_row (fun k => mk_vault_id k =b vault_id) (fd_marks m) then (m, AGGREGATE_LISTING_STALE, true)
      else (m, AGGREGATE_LISTING_READY, false)
  end.

(** ** What one Vault sees *)
Definition marks_of (m : folders) (v : Z) : list mark := select (fun k => mk_vault_id k =b v) (fd_marks m).

Definition view (m : folders) (v : Z) : gmap string directory_rollup * list mark * option string :=
  (rows_of m v, marks_of m v, fd_status m !! v).

(** The Vaults of a loop are handled one by one. *)
Lemma fold_view (f : folders → Z → folders) g v l m :
  NoDup l → (∀ m w, w ≠ v → view (f m w) v = view m v) → (∀ m, view (f m v) v = g (view m v)) →
  view (foldl f m l) v = if v ∈b l then g (view m v) else view m v.
Proof.
  intros Hnd Ho Hs. revert m. induction Hnd as [|w l Hw Hnd IH]; intros m; [done|]. cbn [foldl]. rewrite IH.
  destruct (decide (w = v)) as [->|Hne].
  - rewrite (bool_decide_eq_false_2 (v ∈ l)), (bool_decide_eq_true_2 (v ∈ v :: l)) by (done || left). apply Hs.
  - rewrite Ho by done. erewrite bool_decide_ext; [done|]. rewrite elem_of_cons. naive_solver.
Qed.

Lemma rows_of_set v rows m w : rows_of (set_rows v rows m) w = if decide (w = v) then rows else rows_of m w.
Proof.
  unfold rows_of. cbn [fd_rows set_rows]. destruct (decide (w = v)) as [->|]; [by rewrite lookup_insert_eq|].
  by rewrite lookup_insert_ne by done.
Qed.

Definition kept (claims : list mark) (v : Z) (l : list mark) : list mark :=
  let identities := map (fun k => (mk_path k, mk_id k)) (select (fun k => mk_vault_id k =b v) claims) in
  List.filter (fun k => negb ((mk_path k, mk_id k) ∈b identities)) l.

Lemma marks_of_delete v claims m w :
  marks_of (delete_claimed_dirty_rows v claims m) w = if decide (w = v) then kept claims v (marks_of m v) else marks_of m w.
Proof.
  unfold marks_of, delete_claimed_dirty_rows, kept. cbn [fd_marks set_marks]. set (ids := map _ _). clearbody ids.
  unfold delete_where, select. destruct (decide (w = v)) as [->|Hne]; induction (fd_marks m) as [|k l IH]; try done; cbn [List.filter].
  - destruct (mk_vault_id k =b v) eqn:E; cbn [andb negb].
    + cbn [List.filter]. destruct ((mk_path k, mk_id k) ∈b ids); cbn [negb List.filter]; rewrite ?E; by rewrite IH.
    + cbn [List.filter]. rewrite E. exact IH.
  - destruct (mk_vault_id k =b v) eqn:E; cbn [andb negb].
    + assert (Ew : (mk_vault_id k =b w) = false) by (apply bool_decide_eq_false_2; bsimpl; congruence).
      destruct (_ ∈b ids); cbn [negb List.filter]; rewrite ?Ew; exact IH.
    + cbn [List.filter]. destruct (mk_vault_id k =b w); by rewrite IH.
Qed.

Section facts.
Context (files : Z → list catalog_file).

Lemma view_rebuild v claims m w :
  view (rebuild_vault files v claims m) w
  = if decide (w = v) then (rebuild_vault_directory_aggregates (files v), kept claims v (marks_of m v), Some STATUS_READY) else view m w.
Proof.
  unfold view, rebuild_vault.
  change (rows_of (set_tracker ?t ?m) w) with (rows_of m w). change (marks_of (set_tracker ?t ?m) w) with (marks_of m w).
  change (fd_status (set_tracker ?t ?m)) with (fd_status m).
  change (rows_of (mark_status ?v ?s ?m) w) with (rows_of m w). change (marks_of (mark_status ?v ?s ?m) w) with (marks_of m w).
  rewrite marks_of_delete. change (rows_of (delete_claimed_dirty_rows ?v ?c ?m) w) with (rows_of m w). rewrite rows_of_set.
  cbn [fd_status mark_status delete_claimed_dirty_rows set_marks set_rows].
  change (marks_of (set_rows ?v ?r ?m)) with (marks_of m). destruct (decide (w = v)) as [->|].
  - by rewrite lookup_insert_eq.
  - by rewrite lookup_insert_ne by done.
Qed.

Definition refreshed (v : Z) (dirs : list string) (rows : gmap string directory_rollup) : gmap string directory_rollup :=
  foldl (fun r d => rebuild_directory (files v) d r) rows dirs.

Lemma fold_refresh v dirs m w :
  rows_of (foldl (refresh files v) m dirs) w = (if decide (w = v) then refreshed v dirs (rows_of m v) else rows_of m w)
  ∧ fd_marks (foldl (refresh files v) m dirs) = fd_marks m ∧ fd_status (foldl (refresh files v) m dirs) = fd_status m.
Proof.
  revert m; induction dirs as [|d dirs IH]; intros m; cbn [foldl].
  - split; [|done]. unfold refreshed. cbn. by destruct (decide (w = v)) as [->|].
  - destruct (IH (refresh files v m d)) as (H1 & H2 & H3). rewrite H1, H2, H3. split; [|done]. unfold refresh.
    rewrite !rows_of_set. destruct (decide (w = v)); [|done]. rewrite decide_True by done. done.
Qed.

Definition dirs_of (dirty : list (Z * string)) (v : Z) : list string :=
  sort_by shallower (remove_dups (map snd (List.filter (fun k => k.1 =b v) dirty))).

Lemma view_refresh_vault claims dirty m v w :
  view (refresh_vault files claims dirty m v) w
  = if decide (w = v) then (refreshed v (dirs_of dirty v) (rows_of m v), kept claims v (marks_of m v), Some STATUS_READY) else view m w.
Proof.
  unfold view, refresh_vault. fold (dirs_of dirty v).
  destruct (fold_refresh v (dirs_of dirty v) m w) as (H1 & H2 & H3). set (m1 := foldl _ _ _) in *.
  change (rows_of (mark_status ?v ?s ?m) w) with (rows_of m w). change (marks_of (mark_status ?v ?s ?m) w) with (marks_of m w).
  rewrite marks_of_delete. change (rows_of (delete_claimed_dirty_rows ?v ?c ?m) w) with (rows_of m w). rewrite H1.
  cbn [fd_status mark_status delete_claimed_dirty_rows set_marks]. unfold marks_of. rewrite H2, H3.
  destruct (decide (w = v)) as [->|]; [by rewrite lookup_insert_eq|by rewrite lookup_insert_ne by done].
Qed.

(** ** Rows that are true *)
Definition folder (d : string) : Prop := canonical d ∧ d ≠ "".

Definition exact (m : folders) (v : Z) (d : string) : Prop :=
  agree_rows (rows_of m v !! d) (rebuild_vault_directory_aggregates (files v) !! d).

Definition marked (m : folders) (v : Z) (d : string) : Prop := ∃ k, k ∈ marks_of m v ∧ mk_path k = d.

(** A rebuild is due, or every folder row is the one a rebuild would write or is
    marked. *)
Definition sound (m : folders) (v : Z) : Prop :=
  fd_status m !! v = Some STATUS_REBUILD_REQUIRED ∨ ∀ d, folder d → exact m v d ∨ marked m v d.

(** The catalog rows the SELECT sees have UUIDs and logical paths. *)
Definition files_ok (l : list catalog_file) : Prop := Forall well_formed l ∧ Forall (fun f => canonical (cf_path f)) l.

Lemma agree_rows_refl x : agree_rows x x.
Proof. by destruct x; [repeat split|]. Qed.

Lemma rebuild_directory_other l dir rows d :
  strip_slash (py_strip dir) ≠ d → rebuild_directory l dir rows !! d = rows !! d.
Proof.
  intros Hne. unfold rebuild_directory. destruct (_ =b _); [done|]. destruct (directory_summary _).
  - by rewrite lookup_insert_ne.
  - by rewrite lookup_delete_ne.
Qed.

Lemma rebuild_directory_strip l dir rows :
  canonical (strip_slash (py_strip dir)) → rebuild_directory l dir rows = rebuild_directory l (strip_slash (py_strip dir)) rows.
Proof. intros H. unfold rebuild_directory. by rewrite H. Qed.

Lemma refreshed_exact v dirs rows d :
  files_ok (files v) → folder d →
  agree_rows (rows !! d) (rebuild_vault_directory_aggregates (files v) !! d) ∨ d ∈ dirs →
  agree_rows (refreshed v dirs rows !! d) (rebuild_vault_directory_aggregates (files v) !! d).
Proof.
  intros [Hwf Hc] [Hd Hne]. unfold refreshed. revert rows; induction dirs as [|x dirs IH]; intros rows H; cbn [foldl].
  - destruct H as [H|H]; [done|by apply not_elem_of_nil in H].
  - apply IH. destruct (decide (strip_slash (py_strip x) = d)) as [E|E].
    + left. rewrite rebuild_directory_strip by (by rewrite E). rewrite E. by apply refresh_agrees.
    + rewrite rebuild_directory_other by done. destruct H as [H|H]; [by left|]. right.
      apply elem_of_cons in H as [->|H]; [done|done].
Qed.

(** The primary key of the marks, Vault by Vault. *)
Definition marks_unique (m : folders) (v : Z) : Prop := NoDup (map (fun k => (mk_path k, mk_id k)) (marks_of m v)).

(** ** The flush, Vault by Vault *)
Section one_flush.
Context (m : folders) (vault_id : option Z) (cutoff : timestamp).

Local Notation is_mine := (is_mine vault_id).
Local Notation claims := (claim_dirty_rows m vault_id cutoff).
Local Notation dirty_set := (dirty_set m vault_id cutoff).
Local Notation rebuild_set := (rebuild_set m vault_id).
Local Notation rest_set := (rest_set m vault_id cutoff).

Lemma flush_view v :
  view (flush_directory_aggregates files m vault_id cutoff).1 v
  = if v ∈b rebuild_set then (rebuild_vault_directory_aggregates (files v), kept claims v (marks_of m v), Some STATUS_READY)
    else if v ∈b map fst rest_set then (refreshed v (dirs_of rest_set v) (rows_of m v), kept claims v (marks_of m v), Some STATUS_READY)
    else view m v.
Proof.
  unfold flush_directory_aggregates.
  cbn [fst]. change (view (set_tracker ?t ?m) v) with (view m v).
  rewrite (fold_view (refresh_vault files claims rest_set)
    (fun x => (refreshed v (dirs_of rest_set v) x.1.1, kept claims v x.1.2, Some STATUS_READY))).
  - rewrite (fold_view (fun m v => rebuild_vault files v claims m)
      (fun x => (rebuild_vault_directory_aggregates (files v), kept claims v x.1.2, Some STATUS_READY))).
    + erewrite (bool_decide_ext (v ∈ remove_dups _)) by apply elem_of_remove_dups.
      destruct (v ∈b rebuild_set) eqn:Hr; [|done].
      apply bool_decide_eq_true in Hr. rewrite bool_decide_eq_false_2; [done|].
      intros ([w d] & E & Hin)%list_elem_of_fmap. cbn in E. subst w. apply list_elem_of_In, filter_In in Hin as [_ Hin].
      cbn in Hin. by rewrite bool_decide_eq_true_2 in Hin.
    + unfold FolderMaintenance.rebuild_set. rewrite sort_by_perm. apply NoDup_remove_dups.
    + intros m' w Hne. by rewrite view_rebuild, decide_False by done.
    + intros m'. by rewrite view_rebuild, decide_True by done.
  - apply NoDup_remove_dups.
  - intros m' w Hne. by rewrite view_refresh_vault, decide_False by done.
  - intros m'. by rewrite view_refresh_vault, decide_True by done.
Qed.

Lemma elem_of_claims k : k ∈ claims ↔ k ∈ fd_marks m ∧ is_mine (mk_vault_id k) = true ∧ mk_at k ≤ cutoff.
Proof.
  unfold claim_dirty_rows. rewrite elem_of_select. unfold FolderMaintenance.is_mine. destruct vault_id; rewrite andb_true_iff, Z.leb_le; done.
Qed.

(** Late marks survive, whatever their path. *)
Lemma kept_late v k : marks_unique m v → k ∈ marks_of m v → cutoff < mk_at k → k ∈ kept claims v (marks_of m v).
Proof.
  intros Hu Hk Hlate. unfold kept. apply list_elem_of_In, filter_In. split; [by apply list_elem_of_In|].
  apply negb_true_iff, bool_decide_eq_false_2. intros (k' & E & Hk')%list_elem_of_fmap.
  apply elem_of_select in Hk' as [Hk' Hv']. apply elem_of_claims in Hk' as (Hin' & _ & Hat).
  assert (k = k') as ->; [|lia].
  apply (NoDup_key_inj (fun k => (mk_path k, mk_id k)) (marks_of m v)); [done|done|by apply elem_of_select|done].
Qed.

Lemma kept_sub v k : k ∈ kept claims v (marks_of m v) → k ∈ marks_of m v ∧ k ∉ claims.
Proof.
  unfold kept. intros Hk. apply list_elem_of_In, filter_In in Hk as [Hk Hn]. apply list_elem_of_In in Hk. split; [done|].
  intros Hc. apply negb_true_iff, bool_decide_eq_false in Hn. apply Hn. apply list_elem_of_fmap. exists k. split; [done|].
  apply elem_of_select. split; [done|]. apply elem_of_select in Hk as [_ Hk]. done.
Qed.

Lemma rebuild_due v : is_mine v = true → fd_status m !! v = Some STATUS_REBUILD_REQUIRED → v ∈ rebuild_set.
Proof.
  intros Hm Hs. unfold FolderMaintenance.rebuild_set. rewrite sort_by_perm, elem_of_remove_dups. apply list_elem_of_In, filter_In. split; [|done].
  apply list_elem_of_In, elem_of_app. right. apply list_elem_of_fmap. exists (v, STATUS_REBUILD_REQUIRED). split; [done|].
  apply list_elem_of_In, filter_In. split; [|by apply bool_decide_eq_true_2]. by apply list_elem_of_In, elem_of_map_to_list.
Qed.

Lemma claimed_is_dirty v k : k ∈ marks_of m v → k ∈ claims → v ∉ rebuild_set → (v, mk_path k) ∈ rest_set.
Proof.
  intros Hk Hc Hr. unfold FolderMaintenance.rest_set. apply list_elem_of_In, filter_In. split; [|by apply negb_true_iff, bool_decide_eq_false_2].
  apply list_elem_of_In. unfold FolderMaintenance.dirty_set. apply elem_of_remove_dups, elem_of_app. left. apply list_elem_of_fmap. exists k.
  split; [|done]. apply elem_of_select in Hk as [_ Hk]. bsimpl. by subst.
Qed.

Lemma elem_of_dirs v d : d ∈ dirs_of rest_set v ↔ (v, d) ∈ rest_set.
Proof.
  unfold dirs_of. rewrite sort_by_perm, elem_of_remove_dups, list_elem_of_fmap. split.
  - intros ([w x] & -> & H). apply list_elem_of_In, filter_In in H as [H E]. cbn in *. bsimpl. subst. by apply list_elem_of_In.
  - intros H. exists (v, d). split; [done|]. apply list_elem_of_In, filter_In. split; [by apply list_elem_of_In|].
    by apply bool_decide_eq_true_2.
Qed.

(** What the flush makes of a sound Vault it is asked to handle. *)
Lemma flush_exact v :
  let m' := (flush_directory_aggregates files m vault_id cutoff).1 in
  is_mine v = true → marks_unique m v → files_ok (files v) → sound m v →
  fd_status m' !! v ≠ Some STATUS_REBUILD_REQUIRED
  ∧ (∀ d, folder d → exact m' v d ∨ ∃ k, k ∈ marks_of m' v ∧ mk_path k = d ∧ cutoff < mk_at k)
  ∧ ∀ k, k ∈ marks_of m' v → k ∈ marks_of m v ∧ cutoff < mk_at k.
Proof.
  intros m' Hmine Hu Hok Hsound. assert (Hview := flush_view v). fold m' in Hview. clearbody m'. unfold view at 1 in Hview.
  assert (Hlate : ∀ k, k ∈ marks_of m v → k ∉ claims → cutoff < mk_at k).
  { intros k Hk Hn. destruct (decide (mk_at k ≤ cutoff)); [|lia]. exfalso. apply Hn, elem_of_claims.
    apply elem_of_select in Hk as [Hk Hv]. bsimpl. subst v. done. }
  assert (Hkept : ∀ k, k ∈ kept claims v (marks_of m v) → k ∈ marks_of m v ∧ cutoff < mk_at k).
  { intros k Hk. apply kept_sub in Hk as [Hk Hn]. auto. }
  unfold exact. destruct (v ∈b rebuild_set) eqn:Er.
  - injection Hview as -> -> ->. split; [done|]. split; [|done]. intros d _. left. apply agree_rows_refl.
  - bsimpl. assert (Hs : ∀ d, folder d → exact m v d ∨ marked m v d).
    { destruct Hsound as [Hs|Hs]; [|done]. by apply (rebuild_due v Hmine) in Hs. }
    destruct (v ∈b map fst rest_set) eqn:Ed.
    + injection Hview as -> -> ->. split; [done|]. split; [|done]. intros d Hd.
      destruct (Hs d Hd) as [He|(k & Hk & <-)]; [left; apply refreshed_exact; auto|].
      destruct (decide (mk_at k ≤ cutoff)) as [Hle|Hgt].
      * left. apply refreshed_exact; [done|done|]. right. apply elem_of_dirs, claimed_is_dirty; [done| |done].
        apply elem_of_claims. apply elem_of_select in Hk as [Hk Hv]. bsimpl. by subst v.
      * right. exists k. split; [apply kept_late; [done|done|lia]|]. split; [done|lia].
    + bsimpl. assert (Hall : ∀ k, k ∈ marks_of m v → cutoff < mk_at k).
      { intros k Hk. apply Hlate; [done|]. intros Hc. apply Ed. apply list_elem_of_fmap. exists (v, mk_path k).
        split; [done|]. by apply claimed_is_dirty. }
      unfold view in Hview. injection Hview as -> -> ->. split; [by intros H; apply (rebuild_due v Hmine) in H|].
      split; [|auto]. intros d Hd. destruct (Hs d Hd) as [He|(k & Hk & Hp)]; [by left|]. right. exists k. auto.
Qed.

Lemma flush_not_mine v : is_mine v = false → view (flush_directory_aggregates files m vault_id cutoff).1 v = view m v.
Proof.
  intros Hm. rewrite flush_view, !bool_decide_eq_false_2; [done| |].
  - intros ([w d] & E & H)%list_elem_of_fmap. cbn in E. subst w. apply list_elem_of_In, filter_In in H as [H _].
    apply list_elem_of_In, elem_of_remove_dups, elem_of_app in H as [H|H].
    + apply list_elem_of_fmap in H as (k & E & Hk). injection E as -> ->. apply elem_of_claims in Hk as (_ & Hk & _). congruence.
    + apply list_elem_of_In, filter_In in H as [_ H]. cbn in H. congruence.
  - unfold FolderMaintenance.rebuild_set. rewrite sort_by_perm, elem_of_remove_dups. intros H.
    apply list_elem_of_In, filter_In in H as [_ H]. congruence.
Qed.

Lemma flush_unique v : marks_unique m v → marks_unique (flush_directory_aggregates files m vault_id cutoff).1 v.
Proof.
  intros Hu. unfold marks_unique. assert (Hview := flush_view v). set (m' := (flush_directory_aggregates _ _ _ _).1) in *. clearbody m'.
  unfold view at 1 in Hview. assert (Hk : NoDup (map (fun k => (mk_path k, mk_id k)) (kept claims v (marks_of m v)))).
  { unfold kept. eapply NoDup_keys_sublist; [apply filter_sublist|done]. }
  destruct (v ∈b rebuild_set); [by injection Hview as _ -> _|]. destruct (v ∈b map fst rest_set); injection Hview as _ -> _; done.
Qed.
End one_flush.
End facts.

(** ** Marks made by a change *)
Lemma persist_mark_view tx at_ v d m w :
  rows_of (persist_mark tx at_ v d m) w = rows_of m w ∧ fd_status (persist_mark tx at_ v d m) = fd_status m
  ∧ (∀ k, k ∈ marks_of m w → k ∈ marks_of (persist_mark tx at_ v d m) w)
  ∧ (marks_unique m w → marks_unique (persist_mark tx at_ v d m) w)
  ∧ marked (persist_mark tx at_ v d m) v d.
Proof.
  split; [done|]. split; [done|]. unfold marks_unique, marked, marks_of. cbn [fd_marks persist_mark].
  destruct (exists_row _ _) eqn:E.
  - do 2 (split; [done|]). apply exists_row_true in E as (k & Hk & E). bsimpl. exists k. split; [|done].
    apply elem_of_select. by rewrite bool_decide_eq_true_2.
  - rewrite exists_row_false in E. unfold select. rewrite !List.filter_app. split; [intros k Hk; apply elem_of_app; by left|]. split.
    + intros Hu. cbn [List.filter mk_vault_id]. destruct (v =b w) eqn:Ew; [|by rewrite app_nil_r]. bsimpl. subst w.
      rewrite map_app. apply NoDup_app. split; [done|]. split; [|apply NoDup_singleton].
      intros x (k & -> & Hk)%list_elem_of_fmap Hx%list_elem_of_singleton. apply list_elem_of_In, filter_In in Hk as [Hk Hv].
      apply list_elem_of_In in Hk. specialize (E k Hk). bsimpl. cbn in Hx. injection Hx as E1 E2.
      rewrite !bool_decide_eq_true_2 in E by done. done.
    + eexists. split; [apply elem_of_app; right; cbn; rewrite bool_decide_eq_true_2 by done; by left|done].
Qed.

Lemma mark_ancestors_view tx at_ v path m w :
  path ≠ "" →
  rows_of (mark_ancestors tx at_ v path m) w = rows_of m w ∧ fd_status (mark_ancestors tx at_ v path m) = fd_status m
  ∧ (∀ k, k ∈ marks_of m w → k ∈ marks_of (mark_ancestors tx at_ v path m) w)
  ∧ (marks_unique m w → marks_unique (mark_ancestors tx at_ v path m) w)
  ∧ ∀ d, d ∈ ancestor_directories path → marked (mark_ancestors tx at_ v path m) v d.
Proof.
  intros Hp. unfold mark_ancestors. rewrite bool_decide_eq_false_2 by done.
  assert (Hgen : ∀ l m0, rows_of m0 w = rows_of m w → fd_status m0 = fd_status m →
    (∀ k, k ∈ marks_of m w → k ∈ marks_of m0 w) → (marks_unique m w → marks_unique m0 w) →
    let m1 := foldl (fun m d => persist_mark tx at_ v d m) m0 l in
    rows_of m1 w = rows_of m w ∧ fd_status m1 = fd_status m ∧ (∀ k, k ∈ marks_of m w → k ∈ marks_of m1 w)
    ∧ (marks_unique m w → marks_unique m1 w) ∧ (∀ d, d ∈ l ∨ marked m0 v d → marked m1 v d)).
  { induction l as [|x l IH]; intros m0 H1 H2 H3 H4; cbn [foldl].
    - do 4 (split; [done|]). intros d [Hd|Hd]; [by apply not_elem_of_nil in Hd|done].
    - destruct (persist_mark_view tx at_ v x m0 w) as (E1 & E2 & E3 & E4 & E5).
      destruct (IH (persist_mark tx at_ v x m0)) as (F1 & F2 & F3 & F4 & F5); [congruence|congruence|auto|auto|].
      do 4 (split; [done|]). intros d Hd. apply F5. destruct Hd as [[->|Hd]%elem_of_cons|(k & Hk & Hd)]; [by right|by left|].
      right. exists k. split; [|done]. by apply (persist_mark_view tx at_ v x m0 v). }
  destruct (Hgen (ancestor_directories path) (count_file_mark m)) as (H1 & H2 & H3 & H4 & H5); [done|done|done|done|].
  do 4 (split; [done|]). intros d Hd. apply H5. by left.
Qed.

(** A folder row depends on the files below the folder only. *)
Lemma rebuild_below files files' d :
  files_ok files → files_ok files' → files_below d files' = files_below d files →
  rebuild_vault_directory_aggregates files' !! d = rebuild_vault_directory_aggregates files !! d.
Proof. intros [_ H] [_ H'] E. by rewrite !rebuild_vault_lookup, !contributions_below, E by done. Qed.

(** ** Everything that happens to the folder rows *)
Definition world : Type := (Z → list catalog_file) * folders.

Inductive upkeep : world → world → Prop :=
  | up_change files files' m tx at_ v path :
      path ≠ "" → (∀ w, files_ok (files' w)) → (∀ w, w ≠ v → files' w = files w) →
      (∀ d, d ∉ ancestor_directories path → files_below d (files' v) = files_below d (files v)) →
      upkeep (files, m) (files', mark_ancestors tx at_ v path m)
  | up_request files m v : upkeep (files, m) (files, request_vault_rebuild v m)
  | up_flush files m vault_id cutoff : upkeep (files, m) (files, (flush_directory_aggregates files m vault_id cutoff).1)
  | up_ensure files m v : upkeep (files, m) (files, (ensure_directory_aggregates m v).1.1)
  | up_connection files m : upkeep (files, m) (files, set_tracker no_tracker m).

Definition truthful (w : world) : Prop :=
  ∀ v, files_ok (w.1 v) ∧ marks_unique w.2 v ∧ sound w.1 w.2 v.

Lemma request_truthful files m v : truthful (files, m) → truthful (files, request_vault_rebuild v m).
Proof.
  intros H w. destruct (H w) as (H1 & H2 & H3). split; [done|]. split; [done|]. unfold sound. cbn [fst snd].
  change (fd_status (request_vault_rebuild v m)) with (<[v := STATUS_REBUILD_REQUIRED]> (fd_status m)).
  destruct (decide (w = v)) as [->|]; [left; by rewrite lookup_insert_eq|]. rewrite lookup_insert_ne by done. exact H3.
Qed.

Lemma upkeep_truthful w w' : truthful w → upkeep w w' → truthful w'.
Proof.
  intros H Hs. destruct Hs as [files files' m tx at_ v path Hp Hok Ho Hb|files m v|files m vault_id cutoff|files m v|files m].
  - intros w. destruct (H w) as (H1 & H2 & H3). destruct (mark_ancestors_view tx at_ v path m w Hp) as (E1 & E2 & E3 & E4 & E5).
    cbn [fst snd] in *. split; [done|]. split; [auto|]. destruct H3 as [H3|H3]; [left; by rewrite E2|]. right. intros d Hd.
    unfold exact. rewrite E1. destruct (decide (w = v)) as [->|Hne].
    + destruct (decide (d ∈ ancestor_directories path)) as [Hin|Hout]; [right; by apply E5|].
      rewrite (rebuild_below (files v)) by auto. destruct (H3 d Hd) as [?|(k & Hk & ?)]; [by left|right; exists k; auto].
    + rewrite Ho by done. destruct (H3 d Hd) as [?|(k & Hk & ?)]; [by left|right; exists k; auto].
  - by apply request_truthful.
  - intros w. destruct (H w) as (H1 & H2 & H3). cbn [fst snd] in *. split; [done|]. split; [by apply flush_unique|].
    destruct (is_mine vault_id w) eqn:Em.
    + destruct (flush_exact files m vault_id cutoff w Em H2 H1 H3) as (_ & He & _). right. intros d Hd.
      destruct (He d Hd) as [?|(k & Hk & ? & _)]; [by left|right; by exists k].
    + assert (Hv := flush_not_mine files m vault_id cutoff w Em). set (m' := (flush_directory_aggregates _ _ _ _).1) in *. clearbody m'.
      unfold sound, exact, marked in *. unfold view in Hv. injection Hv as -> -> ->. exact H3.
  - unfold ensure_directory_aggregates. destruct (fd_status m !! v); [|by apply request_truthful].
    destruct (_ <>b _); [done|]. by destruct (exists_row _ _).
  - exact H.
Qed.

(** A listing that is reported ready shows true folder rows.  Start from any
    state in which each Vault waits for a rebuild or has only true or marked rows
    (a new database; an upgraded one, where every Vault waits for a rebuild).  Let
    catalog changes that mark the ancestors of the path they touch, rebuild
    requests, flushes for one Vault or all with any cut-off, new connections and
    readiness checks follow in any order.  Then, whenever the readiness check of a
    Vault answers ready, every folder row of the Vault is the one a full rebuild
    of the present catalog would write. *)
Theorem ready_folder_rows_are_exact w files m v :
  truthful w → rtc upkeep w (files, m) → (ensure_directory_aggregates m v).1.2 = AGGREGATE_LISTING_READY →
  ∀ d, folder d → exact files m v d.
Proof.
  intros Ht Hs. assert (Hw : truthful (files, m)).
  { clear -Ht Hs. remember (files, m) as w' eqn:E. clear E. induction Hs as [|a b c Hab _ IH]; [done|].
    apply IH. by eapply upkeep_truthful. }
  destruct (Hw v) as (_ & _ & Hsound). cbn [fst snd] in Hsound. unfold ensure_directory_aggregates.
  destruct (fd_status m !! v) as [st|] eqn:Est; [|done]. destruct (st <>b STATUS_READY) eqn:Er.
  { cbn [fst snd]. destruct (bool_decide (rows_of m v = ∅)); discriminate. }
  destruct (exists_row _ _) eqn:Ex; [done|]. intros _ d Hd. bsimpl. subst st.
  destruct Hsound as [Hs'|Hs']; [rewrite Est in Hs'; discriminate Hs'|]. destruct (Hs' d Hd) as [He|(k & Hk & _)]; [done|].
  exfalso. apply elem_of_select in Hk as [Hk Hv]. rewrite exists_row_false in Ex. by rewrite (Ex k Hk) in Hv.
Qed.


(** ** Witnesses *)
Definition w_folder_files (v : Z) : list catalog_file := if v =b 1 then [w_file [w_version 1 Available]] else [].
Definition w_new : folders := {| fd_rows := ∅; fd_marks := []; fd_status := ∅; fd_tracker := no_tracker |}.
Definition w_marked : folders := mark_ancestors "tx1" 5 1 "a/b.txt" w_new.
Definition w_flushed : folders := (flush_directory_aggregates w_folder_files w_marked (Some 1) 9).1.

Lemma w_files_ok v : files_ok (w_folder_files v).
Proof.
  unfold w_folder_files. destruct (v =b 1); [|by split]. split; [|by repeat constructor].
  repeat constructor; [discriminate|]. intros x ->%list_elem_of_singleton. discriminate.
Qed.

Lemma w_new_truthful : truthful (fun _ => [], w_new).
Proof.
  intros v. split; [by split|]. split; [by apply NoDup_nil_2|]. right. intros d _. left. unfold exact.
  cbn [fst snd]. unfold rows_of. cbn [fd_rows w_new]. rewrite lookup_empty. cbn [or_default]. by rewrite lookup_empty.
Qed.

Lemma w_change : upkeep (fun _ => [], w_new) (w_folder_files, w_marked).
Proof.
  apply up_change; [discriminate|apply w_files_ok| |].
  - intros w Hw. unfold w_folder_files. by rewrite bool_decide_eq_false_2.
  - intros d Hd. assert (E : like (String.append (escape_like d) "/%") "a/b.txt" = false).
    { apply not_true_iff_false. intros H. apply Hd. rewrite like_escape_prefix in H. apply starts_with_spec in H as (t & Ht).
      apply elem_of_ancestors; [done|]. exists t. rewrite Ht, <- (assoc_L String.append). done. }
    unfold w_folder_files, files_below, select. rewrite bool_decide_eq_true_2 by done. cbn [List.filter cf_path w_file]. by rewrite E.
Qed.

Lemma ready_folder_rows_are_exact_witness :
  exact w_folder_files w_flushed 1 "a" ∧ dr_item_count <$> rows_of w_flushed 1 !! "a" = Some 1.
Proof.
  split; [|vm_compute; reflexivity].
  apply (ready_folder_rows_are_exact (fun _ => [], w_new) w_folder_files w_flushed 1 w_new_truthful).
  - eapply rtc_l; [exact w_change|]. apply rtc_once. apply up_flush.
  - vm_compute. reflexivity.
  - split; [reflexivity|discriminate].
Defined.


(** ** Workers of this process

    [rt_owners] is [_vault_maintenance_owners], [rt_pending]
    [_vault_maintenance_pending], [rt_inflight] [_maintenance_inflight] and
    [rt_alive] the threads that have not ended.  Each function below runs under the
    registry lock, so it is one step. *)
Record runtime := {
  rt_owners : gmap Z nat;
  rt_pending : gset Z;
  rt_inflight : gmap (option Z) nat;
  rt_alive : gset nat;
  rt_next : nat;
  rt_enabled : bool;
}.

Definition set_owners (o : gmap Z nat) (p : gset Z) (r : runtime) : runtime :=
  {| rt_owners := o; rt_pending := p; rt_inflight := rt_inflight r; rt_alive := rt_alive r; rt_next := rt_next r; rt_enabled := rt_enabled r |}.

Definition try_claim_vault_maintenance (v : Z) (owner : nat) (r : runtime) : runtime * bool :=
  match rt_owners r !! v with
  | Some current => if current =b owner then (set_owners (<[v := owner]> (rt_owners r)) (rt_pending r) r, true)
                    else (set_owners (rt_owners r) ({[v]} ∪ rt_pending r) r, false)
  | None => (set_owners (<[v := owner]> (rt_owners r)) (rt_pending r) r, true)
  end.

Definition release_vault_maintenance (v : Z) (owner : nat) (r : runtime) : runtime * bool :=
  let owners := if rt_owners r !! v =b Some owner then delete v (rt_owners r) else rt_owners r in
  (set_owners owners (rt_pending r ∖ {[v]}) r, bool_decide (v ∈ rt_pending r)).

Definition alive_slot (key : option Z) (r : runtime) : bool :=
  match rt_inflight r !! key with Some t => bool_decide (t ∈ rt_alive r) | None => false end.

Definition start_worker (key : option Z) (r : runtime) : runtime :=
  {| rt_owners := rt_owners r; rt_pending := rt_pending r; rt_inflight := <[key := rt_next r]> (rt_inflight r);
     rt_alive := {[rt_next r]} ∪ rt_alive r; rt_next := S (rt_next r); rt_enabled := rt_enabled r |}.

Definition schedule_directory_aggregate_maintenance (key : option Z) (r : runtime) : runtime * bool :=
  if negb (rt_enabled r) then (r, false)
  else match key with
       | Some v =>
           if is_some (rt_owners r !! v) || alive_slot key r
           then (set_owners (rt_owners r) ({[v]} ∪ rt_pending r) r, false)
           else (start_worker key r, true)
       | None => if alive_slot None r then (r, false) else (start_worker None r, true)
       end.

(** The [finally] of [_run_scheduled_maintenance], and the end of the thread. *)
Definition finish_worker (key : option Z) (thread : nat) (r : runtime) : runtime :=
  if rt_inflight r !! key =b Some thread then
    let follow_up := match key with Some v => bool_decide (v ∈ rt_pending r) | None => false end in
    let pending := match key with Some v => rt_pending r ∖ {[v]} | None => rt_pending r end in
    let r := {| rt_owners := rt_owners r; rt_pending := pending; rt_inflight := delete key (rt_inflight r);
                rt_alive := rt_alive r ∖ {[thread]}; rt_next := rt_next r; rt_enabled := rt_enabled r |} in
    if follow_up && rt_enabled r then (schedule_directory_aggregate_maintenance key r).1 else r
  else {| rt_owners := rt_owners r; rt_pending := rt_pending r; rt_inflight := rt_inflight r;
          rt_alive := rt_alive r ∖ {[thread]}; rt_next := rt_next r; rt_enabled := rt_enabled r |}.

(** One Vault of [process_directory_aggregate_maintenance]: [true] when its
    turn wrote something and a revision is to be published. *)
Definition process_vault (files : Z → list catalog_file) (owner : nat) (cutoff : timestamp) (v : Z) (m : folders) (r : runtime)
  : folders * runtime * bool :=
  let '(r, claimed) := try_claim_vault_maintenance v owner r in
  if negb claimed then (m, r, false)
  else let '(m, report) := flush_directory_aggregates files m (Some v) cutoff in
       (m, r, (0 <? fr_rebuilt_directories report) || (0 <? fr_full_rebuilds report)).

(** The Vaults of a sweep: those with a rebuild due or a mark. *)
Definition sweep_vaults (m : folders) (vault_id : option Z) : list Z :=
  match vault_id with
  | Some v => [v]
  | None => sort_by Z.leb (remove_dups (map fst (List.filter (fun x => x.2 =b STATUS_REBUILD_REQUIRED) (map_to_list (fd_status m)))
                                        ++ map mk_vault_id (fd_marks m)))
  end.

Definition process_directory_aggregate_maintenance (files : Z → list catalog_file) (owner : nat) (cutoff : timestamp)
    (vault_id : option Z) (m : folders) (r : runtime) : folders * runtime * list Z :=
  foldl (fun st v =>
    let '(m, r, published) := st in
    let '(m, r, wrote) := process_vault files owner cutoff v m r in
    (m, r, if wrote then published ++ [v] else published)) (m, r, []) (sweep_vaults m vault_id).

(** Its [finally]: release each claimed Vault, then follow up the requests. *)
Definition release_all (owner : nat) (claimed : list Z) (r : runtime) : runtime :=
  let '(r, requests) := foldl (fun st v => let '(r, l) := st in
                                          let '(r, p) := release_vault_maintenance v owner r in
                                          (r, if p then l ++ [v] else l)) (r, []) claimed in
  if rt_enabled r then foldl (fun r v => (schedule_directory_aggregate_maintenance (Some v) r).1) r requests else r.

(** A request noted for later has someone to pass it on: the Vault has an owner,
    or a live worker of its own. *)
Definition no_stranded_request (r : runtime) : Prop :=
  ∀ v, v ∈ rt_pending r → is_Some (rt_owners r !! v) ∨ alive_slot (Some v) r = true.

Definition fresh_threads (r : runtime) : Prop := ∀ t, t ∈ rt_alive r → (t < rt_next r)%nat.

Lemma claim_not_stranded v owner r : no_stranded_request r → no_stranded_request (try_claim_vault_maintenance v owner r).1.
Proof.
  intros H w. unfold try_claim_vault_maintenance. destruct (rt_owners r !! v) as [c|] eqn:E; [destruct (c =b owner)|]; cbn;
    change (alive_slot (Some w) (set_owners ?o ?p r)) with (alive_slot (Some w) r); intros Hw.
  - destruct (decide (w = v)) as [->|]; [left; by rewrite lookup_insert_eq|]. rewrite lookup_insert_ne by done. by apply H.
  - apply elem_of_union in Hw as [->%elem_of_singleton|Hw]; [left; by rewrite E|by apply H].
  - destruct (decide (w = v)) as [->|]; [left; by rewrite lookup_insert_eq|]. rewrite lookup_insert_ne by done. by apply H.
Qed.

Lemma release_not_stranded v owner r : no_stranded_request r → no_stranded_request (release_vault_maintenance v owner r).1.
Proof.
  intros H w Hw. unfold release_vault_maintenance in *. cbn [fst rt_pending set_owners] in Hw.
  apply elem_of_difference in Hw as [Hw Hne]. rewrite elem_of_singleton in Hne.
  destruct (H w Hw) as [Ho|Ha]; [left|by right]. cbn. destruct (_ =b _); [by rewrite lookup_delete_ne|done].
Qed.

Lemma schedule_not_stranded key r :
  fresh_threads r → no_stranded_request r → no_stranded_request (schedule_directory_aggregate_maintenance key r).1.
Proof.
  intros Hf H. assert (Hstart : no_stranded_request (start_worker key r)).
  { intros w Hw. destruct (H w Hw) as [?|Ha]; [by left|right]. unfold alive_slot in *. cbn [rt_inflight rt_alive start_worker].
    destruct (decide (Some w = key)) as [<-|Hne]; [rewrite lookup_insert_eq; apply bool_decide_eq_true; set_solver|].
    rewrite lookup_insert_ne by done. destruct (rt_inflight r !! Some w); [|done]. bsimpl. apply bool_decide_eq_true. set_solver. }
  unfold schedule_directory_aggregate_maintenance. destruct (rt_enabled r); cbn [negb]; [|done].
  destruct key as [v|]; [|by destruct (alive_slot None r)].
  destruct (is_some (rt_owners r !! v)) eqn:Eo; cbn [orb].
  - intros w Hw. cbn in Hw. apply elem_of_union in Hw as [->%elem_of_singleton|Hw]; [|by apply H]. left. cbn.
    by destruct (rt_owners r !! v).
  - destruct (alive_slot (Some v) r) eqn:Ea; [|done]. intros w Hw. cbn in Hw.
    apply elem_of_union in Hw as [->%elem_of_singleton|Hw]; [by right|by apply H].
Qed.

(** The handoff of a worker that ends: a request made while it ran is taken over
    by a new worker, and no other is lost. *)
Lemma finish_not_stranded key thread r :
  fresh_threads r → no_stranded_request r →
  (∀ k, k ≠ key → rt_inflight r !! k ≠ Some thread) → no_stranded_request (finish_worker key thread r).
Proof.
  intros Hf H Hslot. unfold finish_worker. destruct (rt_inflight r !! key =b Some thread) eqn:E.
  - set (requests := match key with Some v => rt_pending r ∖ {[v]} | None => rt_pending r end).
    set (r1 := {| rt_owners := rt_owners r; rt_pending := requests; rt_inflight := delete key (rt_inflight r);
                  rt_alive := rt_alive r ∖ {[thread]}; rt_next := rt_next r; rt_enabled := rt_enabled r |}).
    assert (H1 : no_stranded_request r1).
    { intros w Hw. assert (Hin : w ∈ rt_pending r ∧ Some w ≠ key).
      { cbn in Hw. unfold requests in Hw. destruct key as [v|]; [|done]. apply elem_of_difference in Hw as [Hw Hne].
        rewrite elem_of_singleton in Hne. split; congruence. }
      destruct Hin as [Hin Hne]. destruct (H w Hin) as [?|Ha]; [by left|right]. unfold alive_slot in *. cbn [rt_inflight rt_alive r1].
      rewrite lookup_delete_ne by done. destruct (rt_inflight r !! Some w) as [t|] eqn:Et; [|done]. bsimpl.
      apply bool_decide_eq_true, elem_of_difference. split; [done|]. rewrite elem_of_singleton. intros ->. by apply (Hslot (Some w)). }
    destruct (_ && _); [|exact H1]. apply schedule_not_stranded; [|exact H1]. intros t Ht. cbn in *. apply Hf. set_solver.
  - intros w Hw. destruct (H w Hw) as [?|Ha]; [by left|right]. unfold alive_slot in *. cbn [rt_inflight rt_alive].
    destruct (rt_inflight r !! Some w) as [t|] eqn:Et; [|done]. bsimpl. apply bool_decide_eq_true, elem_of_difference. split; [done|].
    rewrite elem_of_singleton. intros ->. destruct (decide (Some w = key)) as [<-|Hne]; [|by apply (Hslot (Some w))].
    congruence.
Qed.
