(* ===== verification/UploadTables.v ===== *)
(** * UploadTables: what the catalog remembers of uploads

    The tables of [migrations/versions/0064_upload_provenance.py] and
    [0065_upload_remediation.py].  A column that holds canonical JSON is the value
    it decodes to (equal values have equal texts); the evidence of an upload stays
    the text that [UploadSnapshot] writes. *)
From S2P Require Import Prelude Sql Json Schema.

(** [target_json]: the object and the root an upload was admitted for.  The target
    of an episode without an intent has no provider. *)
Record pinned_target := {
  tg_vault_id : Z;
  tg_vault_file_id : string;
  tg_bucket : string;
  tg_prefix : string;
  tg_key : string;
  tg_provider : option string;
  tg_path : string;
  tg_path_since : option timestamp;
  tg_source_root : string;
  tg_root_identity : option string;
  tg_root_identity_version : option string;
}.

(** [inventory_json]: the versions and delete markers of one key, sorted. *)
Record key_inventory := { ki_versions : list string; ki_markers : list string }.

Record upload_intent := {
  ui_id : string;
  ui_token : string;
  ui_vault_id : Z;
  ui_vault_file_id : string;
  ui_original_job_id : Z;
  ui_target : pinned_target;
  ui_snapshot : string;
  ui_requested : string;
  ui_inventory : key_inventory;
  ui_send_started : bool;
  ui_archive_version_id : option string;
  ui_settled : bool;
  ui_blocked_reason : option string;
  ui_created_at : timestamp;
}.

Record intent_job := { ij_job_id : Z; ij_intent_id : string }.

(** [upload_receipts]; the response is the dictionary of [response_json]. *)
Record upload_receipt := {
  rc_intent_id : string;
  rc_hash : string;
  rc_response : list (string * json);
  rc_received_at : timestamp;
}.

Record reconciliation_block := { rb_vault_file_id : string; rb_reason : string; rb_updated_at : timestamp }.

(** [upload_remediations]. *)
Record remediation := {
  rm_id : string;
  rm_target_key : string;
  rm_vault_id : Z;
  rm_vault_file_id : string;
  rm_intent_id : option string;
  rm_archive_version_id : option string;
  rm_target : pinned_target;
  rm_expected_sha256 : option string;
  rm_snapshot : option string;
  rm_requested_mode : string;
  rm_size : Z;
  rm_state : string;
  rm_phase : string;
  rm_reason : option string;
  rm_retry_count : Z;
  rm_due_at : timestamp;
  rm_current_job_id : option Z;
  rm_resolved_by_job_id : option Z;
  rm_created_at : timestamp;
  rm_updated_at : timestamp;
  rm_resolved_at : option timestamp;
  rm_cleanup_inventory_job_id : option Z;
}.

(** [upload_remediation_originals] and [upload_remediation_jobs]. *)
Record remediation_link := { rl_job_id : Z; rl_remediation_id : string; rl_vault_file_id : string; rl_vault_id : Z }.

Record discovery_row := {
  dc_job_id : Z;
  dc_vault_id : Z;
  dc_discovered_at : timestamp;
  dc_rejected_reason : option string;
}.

Record remediation_fact := {
  fc_target_key : string;
  fc_vault_id : Z;
  fc_vault_file_id : string;
  fc_intent_id : option string;
  fc_archive_version_id : option string;
  fc_discovered_at : timestamp;
  fc_due_at : timestamp;
}.

(** [snapshot_cleanup_inventories]; one inventory per key. *)
Record cleanup_inventory := {
  cv_job_id : Z;
  cv_keeper_id : option string;
  cv_target : pinned_target;
  cv_inventory : list (string * key_inventory);
  cv_created_at : timestamp;
  cv_completed_at : option timestamp;
}.

(** [snapshot_cleanup_proofs]: why one version may be deleted beside a keeper. *)
Record cleanup_proof := {
  cp_vault_file_id : string;
  cp_bucket : string;
  cp_provider : string;
  cp_object_key : string;
  cp_version_id : string;
  cp_keeper_id : string;
  cp_sha256 : string;
  cp_size : Z;
  cp_method : string;
  cp_proved_at : timestamp;
  cp_deleted_at : option timestamp;
}.

(** [protection_pending] of migration 0056: files waiting for their protection, which a
    verified upload takes off the list. *)
Record pending_row := { pr_vault_file_id : string; pr_pending_since : timestamp }.

(** [upload_remediation_sweep]: how far each pass got. *)
Record sweep_row := { sw_name : string; sw_last_vault_id : Z; sw_last_tick_at : option timestamp }.

(** [ut_signals]: the Vaults [_invalidate] appended an event for, in order. *)
Record upload_tables := {
  ut_intents : list upload_intent;
  ut_intent_jobs : list intent_job;
  ut_receipts : list upload_receipt;
  ut_blocks : list reconciliation_block;
  ut_inventories : list cleanup_inventory;
  ut_remediations : list remediation;
  ut_originals : list remediation_link;
  ut_remediation_jobs : list remediation_link;
  ut_discovery : list discovery_row;
  ut_facts : list remediation_fact;
  ut_proofs : list cleanup_proof;
  ut_pending : list pending_row;
  ut_sweep : list sweep_row;
  ut_signals : list (Z * timestamp);
}.

Definition no_uploads : upload_tables :=
  {| ut_intents := []; ut_intent_jobs := []; ut_receipts := []; ut_blocks := []; ut_inventories := [];
     ut_remediations := []; ut_originals := []; ut_remediation_jobs := []; ut_discovery := [];
     ut_facts := []; ut_proofs := []; ut_pending := []; ut_sweep := []; ut_signals := [] |}.

Definition set_intents (l : list upload_intent) (t : upload_tables) : upload_tables :=
  {| ut_intents := l; ut_intent_jobs := ut_intent_jobs t; ut_receipts := ut_receipts t; ut_blocks := ut_blocks t;
     ut_inventories := ut_inventories t; ut_remediations := ut_remediations t; ut_originals := ut_originals t; ut_remediation_jobs := ut_remediation_jobs t;
     ut_discovery := ut_discovery t; ut_facts := ut_facts t; ut_proofs := ut_proofs t; ut_pending := ut_pending t; ut_sweep := ut_sweep t; ut_signals := ut_signals t |}.
Definition set_intent_jobs (l : list intent_job) (t : upload_tables) : upload_tables :=
  {| ut_intents := ut_intents t; ut_intent_jobs := l; ut_receipts := ut_receipts t; ut_blocks := ut_blocks t;
     ut_inventories := ut_inventories t; ut_remediations := ut_remediations t; ut_originals := ut_originals t; ut_remediation_jobs := ut_remediation_jobs t;
     ut_discovery := ut_discovery t; ut_facts := ut_facts t; ut_proofs := ut_proofs t; ut_pending := ut_pending t; ut_sweep := ut_sweep t; ut_signals := ut_signals t |}.
Definition set_receipts (l : list upload_receipt) (t : upload_tables) : upload_tables :=
  {| ut_intents := ut_intents t; ut_intent_jobs := ut_intent_jobs t; ut_receipts := l; ut_blocks := ut_blocks t;
     ut_inventories := ut_inventories t; ut_remediations := ut_remediations t; ut_originals := ut_originals t; ut_remediation_jobs := ut_remediation_jobs t;
     ut_discovery := ut_discovery t; ut_facts := ut_facts t; ut_proofs := ut_proofs t; ut_pending := ut_pending t; ut_sweep := ut_sweep t; ut_signals := ut_signals t |}.
Definition set_blocks (l : list reconciliation_block) (t : upload_tables) : upload_tables :=
  {| ut_intents := ut_intents t; ut_intent_jobs := ut_intent_jobs t; ut_receipts := ut_receipts t; ut_blocks := l;
     ut_inventories := ut_inventories t; ut_remediations := ut_remediations t; ut_originals := ut_originals t; ut_remediation_jobs := ut_remediation_jobs t;
     ut_discovery := ut_discovery t; ut_facts := ut_facts t; ut_proofs := ut_proofs t; ut_pending := ut_pending t; ut_sweep := ut_sweep t; ut_signals := ut_signals t |}.
Definition set_inventories (l : list cleanup_inventory) (t : upload_tables) : upload_tables :=
  {| ut_intents := ut_intents t; ut_intent_jobs := ut_intent_jobs t; ut_receipts := ut_receipts t; ut_blocks := ut_blocks t;
     ut_inventories := l; ut_remediations := ut_remediations t; ut_originals := ut_originals t; ut_remediation_jobs := ut_remediation_jobs t;
     ut_discovery := ut_discovery t; ut_facts := ut_facts t; ut_proofs := ut_proofs t; ut_pending := ut_pending t; ut_sweep := ut_sweep t; ut_signals := ut_signals t |}.
Definition set_remediations (l : list remediation) (t : upload_tables) : upload_tables :=
  {| ut_intents := ut_intents t; ut_intent_jobs := ut_intent_jobs t; ut_receipts := ut_receipts t; ut_blocks := ut_blocks t;
     ut_inventories := ut_inventories t; ut_remediations := l; ut_originals := ut_originals t; ut_remediation_jobs := ut_remediation_jobs t;
     ut_discovery := ut_discovery t; ut_facts := ut_facts t; ut_proofs := ut_proofs t; ut_pending := ut_pending t; ut_sweep := ut_sweep t; ut_signals := ut_signals t |}.
Definition set_originals (l : list remediation_link) (t : upload_tables) : upload_tables :=
  {| ut_intents := ut_intents t; ut_intent_jobs := ut_intent_jobs t; ut_receipts := ut_receipts t; ut_blocks := ut_blocks t;
     ut_inventories := ut_inventories t; ut_remediations := ut_remediations t; ut_originals := l; ut_remediation_jobs := ut_remediation_jobs t;
     ut_discovery := ut_discovery t; ut_facts := ut_facts t; ut_proofs := ut_proofs t; ut_pending := ut_pending t; ut_sweep := ut_sweep t; ut_signals := ut_signals t |}.
Definition set_remediation_jobs (l : list remediation_link) (t : upload_tables) : upload_tables :=
  {| ut_intents := ut_intents t; ut_intent_jobs := ut_intent_jobs t; ut_receipts := ut_receipts t; ut_blocks := ut_blocks t;
     ut_inventories := ut_inventories t; ut_remediations := ut_remediations t; ut_originals := ut_originals t; ut_remediation_jobs := l;
     ut_discovery := ut_discovery t; ut_facts := ut_facts t; ut_proofs := ut_proofs t; ut_pending := ut_pending t; ut_sweep := ut_sweep t; ut_signals := ut_signals t |}.
Definition set_discovery (l : list discovery_row) (t : upload_tables) : upload_tables :=
  {| ut_intents := ut_intents t; ut_intent_jobs := ut_intent_jobs t; ut_receipts := ut_receipts t; ut_blocks := ut_blocks t;
     ut_inventories := ut_inventories t; ut_remediations := ut_remediations t; ut_originals := ut_originals t; ut_remediation_jobs := ut_remediation_jobs t;
     ut_discovery := l; ut_facts := ut_facts t; ut_proofs := ut_proofs t; ut_pending := ut_pending t; ut_sweep := ut_sweep t; ut_signals := ut_signals t |}.
Definition set_facts (l : list remediation_fact) (t : upload_tables) : upload_tables :=
  {| ut_intents := ut_intents t; ut_intent_jobs := ut_intent_jobs t; ut_receipts := ut_receipts t; ut_blocks := ut_blocks t;
     ut_inventories := ut_inventories t; ut_remediations := ut_remediations t; ut_originals := ut_originals t; ut_remediation_jobs := ut_remediation_jobs t;
     ut_discovery := ut_discovery t; ut_facts := l; ut_proofs := ut_proofs t; ut_pending := ut_pending t; ut_sweep := ut_sweep t; ut_signals := ut_signals t |}.
Definition set_proofs (l : list cleanup_proof) (t : upload_tables) : upload_tables :=
  {| ut_intents := ut_intents t; ut_intent_jobs := ut_intent_jobs t; ut_receipts := ut_receipts t; ut_blocks := ut_blocks t;
     ut_inventories := ut_inventories t; ut_remediations := ut_remediations t; ut_originals := ut_originals t; ut_remediation_jobs := ut_remediation_jobs t;
     ut_discovery := ut_discovery t; ut_facts := ut_facts t; ut_proofs := l; ut_pending := ut_pending t; ut_sweep := ut_sweep t; ut_signals := ut_signals t |}.
Definition set_pending_files (l : list pending_row) (t : upload_tables) : upload_tables :=
  {| ut_intents := ut_intents t; ut_intent_jobs := ut_intent_jobs t; ut_receipts := ut_receipts t; ut_blocks := ut_blocks t;
     ut_inventories := ut_inventories t; ut_remediations := ut_remediations t; ut_originals := ut_originals t; ut_remediation_jobs := ut_remediation_jobs t;
     ut_discovery := ut_discovery t; ut_facts := ut_facts t; ut_proofs := ut_proofs t; ut_pending := l; ut_sweep := ut_sweep t; ut_signals := ut_signals t |}.
Definition set_sweep (l : list sweep_row) (t : upload_tables) : upload_tables :=
  {| ut_intents := ut_intents t; ut_intent_jobs := ut_intent_jobs t; ut_receipts := ut_receipts t; ut_blocks := ut_blocks t;
     ut_inventories := ut_inventories t; ut_remediations := ut_remediations t; ut_originals := ut_originals t; ut_remediation_jobs := ut_remediation_jobs t;
     ut_discovery := ut_discovery t; ut_facts := ut_facts t; ut_proofs := ut_proofs t; ut_pending := ut_pending t; ut_sweep := l; ut_signals := ut_signals t |}.
Definition set_signals (l : list (Z * timestamp)) (t : upload_tables) : upload_tables :=
  {| ut_intents := ut_intents t; ut_intent_jobs := ut_intent_jobs t; ut_receipts := ut_receipts t; ut_blocks := ut_blocks t;
     ut_inventories := ut_inventories t; ut_remediations := ut_remediations t; ut_originals := ut_originals t; ut_remediation_jobs := ut_remediation_jobs t;
     ut_discovery := ut_discovery t; ut_facts := ut_facts t; ut_proofs := ut_proofs t; ut_pending := ut_pending t; ut_sweep := ut_sweep t; ut_signals := l |}.

#[global] Instance pinned_target_eq_dec : EqDecision pinned_target.
Proof. solve_decision. Defined.
#[global] Instance key_inventory_eq_dec : EqDecision key_inventory.
Proof. solve_decision. Defined.
