(* ===== verification/Effects.v ===== *)
(** * Effects: code that acts on the world between its exceptions

    The worker calls the storage provider, commits several transactions and
    reads the clock; an exception then undoes the open transaction but nothing
    that was done outside it.  Such code is an [eff W A]: a function from the
    world to the world it leaves and a returned value or a raised exception.
    [W] is left open; [S3Client] instantiates it with the tables, the provider
    and the record of the calls made.

    The model of a loop whose length the provider decides takes fuel, and
    raises [StillRunning] when it is used up; no handler of the program sees
    that exception ([catchable]). *)
From S2P Require Import Prelude.

Definition eff (W A : Type) : Type := W → W * result A.

Section effects.
Context {W : Type}.

Definition eret {A} (a : A) : eff W A := fun w => (w, Ok a).
Definition ebind {A B} (m : eff W A) (f : A → eff W B) : eff W B :=
  fun w => match m w with (w', Ok a) => f a w' | (w', Raise e) => (w', Raise e) end.
Definition throw {A} (e : exn) : eff W A := fun w => (w, Raise e).
Definition lift {A} (r : result A) : eff W A := fun w => (w, r).
Definition gets {A} (f : W → A) : eff W A := fun w => (w, Ok (f w)).
Definition modify (f : W → W) : eff W unit := fun w => (f w, Ok tt).

(** [if b: raise e]. *)
Definition throw_if (b : bool) (e : exn) : eff W unit := if b then throw e else eret tt.

(** What [except Exception] catches. *)
Definition catchable (e : exn) : bool := e <>b StillRunning.

(** [try: m except Exception as exc: h exc]. *)
Definition catch {A} (m : eff W A) (h : exn → eff W A) : eff W A :=
  fun w => match m w with
           | (w', Raise e) => if catchable e then h e w' else (w', Raise e)
           | (w', Ok a) => (w', Ok a)
           end.

(** [try: m except (some classes) as exc: h exc]. *)
Definition catch_if {A} (p : exn → bool) (m : eff W A) (h : exn → eff W A) : eff W A :=
  catch m (fun e => if p e then h e else throw e).

(** [try: m finally: f]; an exception of [f] replaces that of [m]. *)
Definition finally {A} (m : eff W A) (f : eff W unit) : eff W A :=
  fun w => match m w with (w', r) => ebind f (fun _ => lift r) w' end.

(** [try: m except BaseException as exc: h exc]. *)
Definition catch_all {A} (m : eff W A) (h : exn → eff W A) : eff W A :=
  fun w => match m w with (w', Raise e) => h e w' | (w', Ok a) => (w', Ok a) end.

(** [for x in l: f x]. *)
Fixpoint each {A} (f : A → eff W unit) (l : list A) : eff W unit :=
  match l with
  | [] => eret tt
  | x :: l => ebind (f x) (fun _ => each f l)
  end.

(** [for x in l], with the variables the loop assigns as the state [s]. *)
Fixpoint efold {S A} (f : S → A → eff W S) (s : S) (l : list A) : eff W S :=
  match l with
  | [] => eret s
  | x :: l => ebind (f s x) (fun s' => efold f s' l)
  end.
End effects.

Declare Scope eff_scope.
Delimit Scope eff_scope with eff.
Notation "x '<~' m ';;' k" := (ebind m (fun x => k))
  (at level 100, m at next level, k at level 200, right associativity) : eff_scope.
Notation "'pat!' p '<~' m ';;' k" := (ebind m (fun x => match x with p => k end))
  (at level 100, p pattern, m at next level, k at level 200, right associativity) : eff_scope.
Notation "m ';;;' k" := (ebind m (fun _ => k)) (at level 100, k at level 200, right associativity) : eff_scope.
Notation "'throw!' e 'when' b ';;' k" := (ebind (throw_if b e) (fun _ => k))
  (at level 100, e at level 99, b at level 99, k at level 200, right associativity) : eff_scope.
Open Scope eff_scope.

(** ** Reasoning about runs *)
Section runs.
Context {W : Type}.

Lemma ebind_ok {A B} (m : eff W A) (f : A → eff W B) w w' b :
  ebind m f w = (w', Ok b) ↔ ∃ w1 a, m w = (w1, Ok a) ∧ f a w1 = (w', Ok b).
Proof. unfold ebind. destruct (m w) as [w1 [a|e]]; naive_solver. Qed.

(** A sequence ended in its first part or went on to its second. *)
Lemma ebind_cases {A B} (m : eff W A) (f : A → eff W B) w w' r :
  ebind m f w = (w', r) →
  (∃ e, m w = (w', Raise e) ∧ r = Raise e) ∨ ∃ w1 a, m w = (w1, Ok a) ∧ f a w1 = (w', r).
Proof. unfold ebind. destruct (m w) as [w1 [a|e]]; [eauto|]. intros [= <- <-]. eauto. Qed.

Lemma throw_if_ok b e (w w' : W) u : throw_if b e w = (w', Ok u) ↔ b = false ∧ w' = w.
Proof. destruct b, u; cbn; unfold throw, eret; split; intros ?; intuition congruence. Qed.

Lemma throw_bind_ok {B} b e (f : unit → eff W B) w w' x :
  ebind (throw_if b e) f w = (w', Ok x) ↔ b = false ∧ f tt w = (w', Ok x).
Proof. destruct b; unfold ebind; cbn; [split; [done | by intros [? _]] | split; [done | by intros [_ ?]]]. Qed.

Lemma lift_ok {A} (r : result A) (w w' : W) a : lift r w = (w', Ok a) ↔ r = Ok a ∧ w' = w.
Proof. unfold lift. naive_solver. Qed.

Lemma ebind_assoc {A B C} (m : eff W A) (f : A → eff W B) (g : B → eff W C) w :
  ebind (ebind m f) g w = ebind m (fun a => ebind (f a) g) w.
Proof. unfold ebind. by destruct (m w) as [w1 [a|e]]. Qed.

(** [keeps R m]: however [m] ends, it relates the worlds before and after by
    the preorder [R]. *)
Definition keeps (R : relation W) {A} (m : eff W A) : Prop := ∀ w, R w (m w).1.

Context (R : relation W) `{!PreOrder R}.

Lemma keeps_ret {A} (a : A) : keeps R (eret a).
Proof. intros w. cbn. done. Qed.
Lemma keeps_throw {A} e : keeps R (throw (A := A) e).
Proof. intros w. cbn. done. Qed.
Lemma keeps_lift {A} (r : result A) : keeps R (lift r).
Proof. intros w. cbn. done. Qed.
Lemma keeps_gets {A} (f : W → A) : keeps R (gets f).
Proof. intros w. cbn. done. Qed.
Lemma keeps_throw_if b e : keeps R (throw_if b e).
Proof. destruct b; intros w; cbn; done. Qed.

Lemma keeps_bind {A B} (m : eff W A) (f : A → eff W B) :
  keeps R m → (∀ a, keeps R (f a)) → keeps R (ebind m f).
Proof.
  intros Hm Hf w. unfold ebind. specialize (Hm w). destruct (m w) as [w1 [a|e]]; cbn in *; [|done].
  etrans; [exact Hm | apply Hf].
Qed.

Lemma keeps_catch {A} (m : eff W A) h : keeps R m → (∀ e, keeps R (h e)) → keeps R (catch m h).
Proof.
  intros Hm Hh w. unfold catch. specialize (Hm w). destruct (m w) as [w1 [a|e]]; cbn in *; [done|].
  destruct (catchable e); [etrans; [exact Hm | apply Hh] | done].
Qed.

Lemma keeps_catch_all {A} (m : eff W A) h : keeps R m → (∀ e, keeps R (h e)) → keeps R (catch_all m h).
Proof.
  intros Hm Hh w. unfold catch_all. specialize (Hm w). destruct (m w) as [w1 [a|e]]; cbn in *; [done|].
  etrans; [exact Hm | apply Hh].
Qed.

Lemma keeps_catch_if {A} p (m : eff W A) h : keeps R m → (∀ e, keeps R (h e)) → keeps R (catch_if p m h).
Proof. intros Hm Hh. apply keeps_catch; [done|]. intros e. destruct (p e); [apply Hh | apply keeps_throw]. Qed.

Lemma keeps_finally {A} (m : eff W A) f : keeps R m → keeps R f → keeps R (finally m f).
Proof.
  intros Hm Hf w. unfold finally. specialize (Hm w). destruct (m w) as [w1 r]; cbn in *.
  etrans; [exact Hm|]. apply keeps_bind; [done|]. intros _. apply keeps_lift.
Qed.

Lemma keeps_each {A} (f : A → eff W unit) l : (∀ x, keeps R (f x)) → keeps R (each f l).
Proof. intros Hf. induction l as [|x l IH]; cbn; [apply keeps_ret | apply keeps_bind; auto]. Qed.

Lemma keeps_fold {S A} (f : S → A → eff W S) s l : (∀ s x, keeps R (f s x)) → keeps R (efold f s l).
Proof.
  intros Hf. revert s. induction l as [|x l IH]; intros s; cbn; [apply keeps_ret | apply keeps_bind; auto].
Qed.

Lemma keeps_if {A} (b : bool) (m n : eff W A) : keeps R m → keeps R n → keeps R (if b then m else n).
Proof. by destruct b. Qed.

End runs.

Create HintDb eff.
#[export] Hint Resolve keeps_ret keeps_throw keeps_lift keeps_gets keeps_throw_if keeps_if : eff.

#[export] Hint Extern 1 (PreOrder _) => apply _ : eff.

(** Split a computation along its binds, handlers and case distinctions. *)
Ltac keeps_step :=
  match goal with
  | |- keeps _ (ebind _ _) => apply keeps_bind; [apply _ | | intros ?]
  | |- keeps _ (catch _ _) => apply keeps_catch; [apply _ | | intros ?]
  | |- keeps _ (catch_if _ _ _) => apply keeps_catch_if; [apply _ | | intros ?]
  | |- keeps _ (finally _ _) => apply keeps_finally; [apply _ | |]
  | |- keeps _ (catch_all _ _) => apply keeps_catch_all; [apply _ | | intros ?]
  | |- keeps _ (each _ _) => apply keeps_each; [apply _ | intros ?]
  | |- keeps _ (efold _ _ _) => apply keeps_fold; [apply _ | intros ? ?]
  | |- keeps _ (match ?x with _ => _ end) => destruct x
  | |- keeps _ (let '(_, _) := ?x in _) => destruct x
  end.
Ltac keeps_all := repeat (first [progress eauto with eff | keeps_step]).

(** Read a successful run backwards. *)
Ltac run_step H :=
  match type of H with
  | ebind (throw_if _ _) _ _ = _ => let Hb := fresh "Hb" in apply throw_bind_ok in H as [Hb H]
  | ebind _ _ _ = _ =>
      let w := fresh "w" in let a := fresh "a" in let Hm := fresh "Hm" in
      apply ebind_ok in H as (w & a & Hm & H)
  end.
Ltac run_ok H := repeat run_step H.
