(* ===== verification/S3Client.v ===== *)
(** * S3Client: the world of the worker

    The boto3 client of the storage provider is a parameter ([Provider]): each
    request of the source is one operation that changes the provider's state as
    it likes and answers or raises.  What other threads and processes do between
    two steps of the worker is a parameter too ([Environment]): they may change
    the tables before every transaction, cancel the Job, take over its lease,
    stop the process; the clock and the uuids are read from it.

    A [world] holds the tables, the provider's state and the requests made so
    far with their answers, in order.  [transaction] is [with db() as connection]:
    it starts from tables the others may have changed and, when its body raises,
    leaves the tables as they were at its start. *)
From S2P Require Import Prelude Schema Effects.
From Stdlib Require Import Strings.Byte.

Definition bytes := list byte.

(** ** Requests and answers *)
Record list_request := {
  lr_bucket : string;
  lr_prefix : string;
  lr_key_marker : option string;
  lr_version_marker : option string;
}.

(** An entry of [Versions] or [DeleteMarkers]. *)
Record listed := {
  li_key : option string;
  li_version_id : option string;
  li_size : option Z;
  li_storage_class : option string;
}.

(** [pg_truncated] is [None] when [IsTruncated] is missing or no boolean. *)
Record page := {
  pg_truncated : option bool;
  pg_versions : list listed;
  pg_markers : list listed;
  pg_next_key : option string;
  pg_next_version : option string;
}.

Record head_request := {
  hr_bucket : string;
  hr_key : string;
  hr_version : option string;
  hr_checksum_mode : bool;
}.

(** The answer of HEAD; [hd_headers] are the content headers the source copies
    ([CacheControl], [ContentType] and the like). *)
Record head_answer := {
  hd_version_id : option string;
  hd_delete_marker : bool;
  hd_content_length : option Z;
  hd_storage_class : option string;
  hd_restore : option string;
  hd_metadata : option (gmap string string);
  hd_headers : list (string * string);
  hd_checksum_sha256 : option string;
  hd_checksum_type : option string;
  hd_checksum_crc32 : option string;
  hd_etag : option string;
}.

Record object_ref := { or_bucket : string; or_key : string; or_version : string }.

Record copy_request := {
  cr_source : object_ref;
  cr_storage_class : string;
  cr_replace_metadata : bool;   (* MetadataDirective *)
  cr_checksum_algorithm : string;
  cr_metadata : option (gmap string string);
  cr_headers : list (string * string);
}.

Record create_request := {
  mu_bucket : string;
  mu_key : string;
  mu_storage_class : string;
  mu_checksum_algorithm : string;
  mu_checksum_type : string;
  mu_metadata : option (gmap string string);
  mu_tagging : list (string * string);
  mu_headers : list (string * string);
}.

Record part_request := {
  pt_upload : string;
  pt_number : Z;
  pt_source : object_ref;
  pt_first : Z;   (* CopySourceRange: first and last byte *)
  pt_last : Z;
}.

Record copied_part := { cp_number : Z; cp_etag : string; cp_checksums : list (string * string) }.

(** What UploadPartCopy answers: an ETag, when there is one, and checksums. *)
Record part_answer := { pa_etag : option string; pa_checksums : list (string * string) }.

Record complete_request := {
  cm_bucket : string;
  cm_key : string;
  cm_upload : string;
  cm_parts : list copied_part;
  cm_checksum_type : string;
}.

Record delete_request := { dr_bucket : string; dr_targets : list (string * string) }.   (* key and version *)
Record delete_error := { de_key : option string; de_version : option string; de_code : option string; de_message : option string }.
Record restore_request := { rr_object : object_ref; rr_days : Z; rr_tier : string }.

(** The requests of an upload; a body is the bytes that are sent. *)
Record upload_args := {
  ua_checksum_algorithm : option string;
  ua_checksum_type : option string;
  ua_checksum_sha256 : option string;
  ua_checksum_crc32 : option string;
  ua_metadata : option (gmap string string);
}.
Record put_request := { pu_bucket : string; pu_key : string; pu_args : upload_args; pu_body : bytes }.
Record start_request := { st_bucket : string; st_key : string; st_args : upload_args }.
Record send_request := { se_bucket : string; se_key : string; se_upload : string; se_number : Z; se_args : upload_args; se_body : bytes }.
Record sent_part := { sn_number : Z; sn_etag : option string; sn_checksum_sha256 : option string }.
Record finish_request := {
  fi_bucket : string;
  fi_key : string;
  fi_upload : string;
  fi_parts : list sent_part;
  fi_checksum_type : option string;
  fi_checksum_sha256 : option string;
  fi_object_size : option Z;   (* MpuObjectSize *)
}.

(** What PutObject and CompleteMultipartUpload answer. *)
Record write_answer := {
  wa_version_id : option string;
  wa_etag : option string;
  wa_checksum_sha256 : option string;
  wa_checksum_type : option string;
  wa_checksum_crc32 : option string;
  wa_content_length : option Z;
  wa_storage_class : option string;
}.
Record send_answer := { sa_etag : option string; sa_checksum_sha256 : option string }.

(** ListMultipartUploads: key and upload id of each entry. *)
Record uploads_request := {
  lu_bucket : string;
  lu_prefix : string;
  lu_key_marker : option string;
  lu_upload_marker : option string;
}.
Record uploads_page := {
  up_truncated : option bool;
  up_uploads : list (option string * option string);
  up_next_key : option string;
  up_next_upload : option string;
}.

(** A body is the chunks it will yield; reading one of them may raise. *)
Definition body := list (result bytes).

Class Provider (P : Type) := {
  p_list : list_request → P → P * result page;
  p_head : head_request → P → P * result head_answer;
  p_get : object_ref → P → P * result (option body);
  p_tags : object_ref → P → P * result (list (option string * option string));
  p_delete : object_ref → P → P * result unit;
  p_copy : copy_request → P → P * result (option string);
  p_create : create_request → P → P * result (option string);
  p_part : part_request → P → P * result part_answer;
  p_complete : complete_request → P → P * result (option string);
  p_abort : string → P → P * result unit;
  p_delete_batch : delete_request → P → P * result (list delete_error);
  p_restore : restore_request → P → P * result unit;
}.

(** The write client of an upload, which never repeats a request, and the listing
    of unfinished uploads. *)
Class UploadProvider (P : Type) := {
  u_put : put_request → P → P * result write_answer;
  u_start : start_request → P → P * result (option string);
  u_send : send_request → P → P * result send_answer;
  u_finish : finish_request → P → P * result write_answer;
  u_list : uploads_request → P → P * result uploads_page;
}.

(** GetObject with what it says beside the body. *)
Record get_answer := {
  ga_version_id : option string;
  ga_delete_marker : bool;
  ga_content_length : option Z;
  ga_metadata : option (gmap string string);
  ga_body : option body;
}.

Class ObjectReader (P : Type) := u_get : object_ref → P → P * result get_answer.

(** ** The disk of the server *)
Inductive file_kind := KRegular | KSymlink | KDirectory | KOther.

(** [os.stat_result]. *)
Record file_stat := {
  sx_kind : file_kind;   (* of [st_mode] *)
  sx_dev : Z;
  sx_ino : Z;
  sx_size : Z;
  sx_mtime_ns : Z;
  sx_ctime_ns : Z;
}.

#[global] Instance file_kind_eq_dec : EqDecision file_kind.
Proof. solve_decision. Defined.
#[global] Instance file_stat_eq_dec : EqDecision file_stat.
Proof. solve_decision. Defined.

(** An absolute path, by its components. *)
Definition path := list string.

(** The system calls the worker makes, each of which may raise.  What other
    processes do to the disk is part of how its state changes. *)
Class Disk (P : Type) := {
  k_lstat : path → P → P * result file_stat;
  k_stat : path → P → P * result file_stat;   (* follows symbolic links *)
  k_open : path → P → P * result Z;   (* O_RDONLY | O_NOFOLLOW *)
  k_fstat : Z → P → P * result file_stat;
  k_read : Z → P → P * result body;   (* to the end of the file *)
  k_read_byte : Z → P → P * result unit;   (* [os.read(fd, 1)] *)
  k_read_some : Z * Z → P → P * result bytes;   (* [stream.read(n)] of a descriptor *)
  k_read_path : path → P → P * result body;   (* [open(p, rb)], following links, to the end *)
  k_rename : path * path → P → P * result unit;
  k_link : path * path → P → P * result unit;
  k_unlink : path → P → P * result unit;
  k_mkdirs : path → P → P * result unit;
  k_iterdir : path → P → P * result (list string);
  (* [download_file]: the amounts reported to its callback, and how it ended *)
  k_download : object_ref * path → P → P * result (list Z * result unit);
}.

(** What others do, by the number of steps taken so far. *)
Class Environment (D : Type) := {
  others : nat → D → D;
  clock : nat → timestamp;
  uuid : nat → string;
  cancelled : nat → Z → bool;
  heartbeat_lost : nat → bool;
  stopping : nat → bool;
  lock_free : nat → bool;   (* an advisory lock can be taken *)
}.

(** A request with its answer. *)
Inductive call :=
  | CList (q : list_request) (r : result page)
  | CHead (q : head_request) (r : result head_answer)
  | CGet (q : object_ref) (r : result (option body))
  | CTags (q : object_ref) (r : result (list (option string * option string)))
  | CDelete (q : object_ref) (r : result unit)
  | CCopy (q : copy_request) (r : result (option string))
  | CCreate (q : create_request) (r : result (option string))
  | CPart (q : part_request) (r : result part_answer)
  | CComplete (q : complete_request) (r : result (option string))
  | CAbort (q : string) (r : result unit)
  | CDeleteBatch (q : delete_request) (r : result (list delete_error))
  | CRestore (q : restore_request) (r : result unit)
  | CLstat (q : path) (r : result file_stat)
  | CStat (q : path) (r : result file_stat)
  | COpen (q : path) (r : result Z)
  | CFstat (q : Z) (r : result file_stat)
  | CRead (q : Z) (r : result body)
  | CReadByte (q : Z) (r : result unit)
  | CRename (q : path * path) (r : result unit)
  | CLink (q : path * path) (r : result unit)
  | CUnlink (q : path) (r : result unit)
  | CMkdirs (q : path) (r : result unit)
  | CIterdir (q : path) (r : result (list string))
  | CDownload (q : object_ref * path) (r : result (list Z * result unit))
  | CReadSome (q : Z * Z) (r : result bytes)
  | CReadPath (q : path) (r : result body)
  | CPut (q : put_request) (r : result write_answer)
  | CStart (q : start_request) (r : result (option string))
  | CSend (q : send_request) (r : result send_answer)
  | CFinish (q : finish_request) (r : result write_answer)
  | CListUploads (q : uploads_request) (r : result uploads_page)
  | CFetch (q : object_ref) (r : result get_answer).

Definition is_delete (c : call) : Prop := match c with CDelete _ _ | CDeleteBatch _ _ => True | _ => False end.
Definition is_copy (c : call) : Prop := match c with CCopy _ _ | CCreate _ _ => True | _ => False end.
(** The system calls that take a name away from the disk. *)
Definition is_unlink (c : call) : Prop := match c with CUnlink _ _ => True | _ => False end.

Record world (D P : Type) := {
  w_db : D;
  w_cloud : P;
  w_calls : list call;
  w_tables : list D;   (* the tables as they stood at each call *)
  w_steps : nat;
  w_lost : bool;    (* the worker saw itself that its lease is lost *)
  w_ready : bool;   (* this process has probed the provider with success *)
  w_echoes : list (Z * string * (file_stat * string));   (* [local_observation._echoes], oldest first *)
}.
Arguments w_db {D P} _.
Arguments w_cloud {D P} _.
Arguments w_calls {D P} _.
Arguments w_tables {D P} _.
Arguments w_steps {D P} _.
Arguments w_lost {D P} _.
Arguments w_ready {D P} _.
Arguments w_echoes {D P} _.

Section client.
Context {D P : Type} `{!Provider P} `{!Environment D}.
Notation W := (world D P).

(** One request: the provider acts and the call is recorded. *)
Definition request {Q A} (op : Q → P → P * result A) (record : Q → result A → call) (q : Q) : eff W A :=
  fun w =>
    let (p, r) := op q (w_cloud w) in
    ({| w_db := w_db w; w_cloud := p; w_calls := w_calls w ++ [record q r]; w_tables := w_tables w ++ [w_db w]; w_steps := w_steps w;
        w_lost := w_lost w; w_ready := w_ready w; w_echoes := w_echoes w |}, r).

Definition list_object_versions : list_request → eff W page := request p_list CList.
Definition head_object : head_request → eff W head_answer := request p_head CHead.
Definition get_object : object_ref → eff W (option body) := request p_get CGet.
Definition get_object_tagging : object_ref → eff W (list (option string * option string)) := request p_tags CTags.
Definition delete_object : object_ref → eff W unit := request p_delete CDelete.
Definition copy_object : copy_request → eff W (option string) := request p_copy CCopy.
Definition create_multipart_upload : create_request → eff W (option string) := request p_create CCreate.
Definition upload_part_copy : part_request → eff W part_answer := request p_part CPart.
Definition complete_multipart_upload : complete_request → eff W (option string) := request p_complete CComplete.
Definition abort_multipart_upload : string → eff W unit := request p_abort CAbort.
Definition delete_objects : delete_request → eff W (list delete_error) := request p_delete_batch CDeleteBatch.
Definition restore_object : restore_request → eff W unit := request p_restore CRestore.

Section disk.
Context `{!Disk P}.
Definition lstat : path → eff W file_stat := request k_lstat CLstat.
Definition os_stat_follow : path → eff W file_stat := request k_stat CStat.
Definition os_open : path → eff W Z := request k_open COpen.
Definition fstat : Z → eff W file_stat := request k_fstat CFstat.
Definition read_all : Z → eff W body := request k_read CRead.
Definition read_byte : Z → eff W unit := request k_read_byte CReadByte.
Definition read_some (fd n : Z) : eff W bytes := request k_read_some CReadSome (fd, n).
Definition read_path : path → eff W body := request k_read_path CReadPath.
Definition rename (a b : path) : eff W unit := request k_rename CRename (a, b).
Definition os_link (a b : path) : eff W unit := request k_link CLink (a, b).
Definition unlink : path → eff W unit := request k_unlink CUnlink.
Definition mkdirs : path → eff W unit := request k_mkdirs CMkdirs.
Definition iterdir : path → eff W (list string) := request k_iterdir CIterdir.
Definition download_file (o : object_ref) (to : path) : eff W (list Z * result unit) := request k_download CDownload (o, to).
End disk.

Section uploads.
Context `{!UploadProvider P}.
Definition put_object : put_request → eff W write_answer := request u_put CPut.
Definition start_upload : start_request → eff W (option string) := request u_start CStart.
Definition upload_part : send_request → eff W send_answer := request u_send CSend.
Definition finish_upload : finish_request → eff W write_answer := request u_finish CFinish.
Definition list_multipart_uploads : uploads_request → eff W uploads_page := request u_list CListUploads.
End uploads.

(** [client.get_object] where the code looks at the whole answer. *)
Definition fetch_object `{!ObjectReader P} : object_ref → eff W get_answer := request u_get CFetch.

(** ** The environment *)
Definition with_db (db : D) (w : W) : W :=
  {| w_db := db; w_cloud := w_cloud w; w_calls := w_calls w; w_tables := w_tables w; w_steps := w_steps w; w_lost := w_lost w; w_ready := w_ready w; w_echoes := w_echoes w |}.

(** Read something the environment decides; the next reading may differ. *)
Definition observe {A} (read : nat → A) : eff W A :=
  fun w => ({| w_db := w_db w; w_cloud := w_cloud w; w_calls := w_calls w; w_tables := w_tables w; w_steps := S (w_steps w);
               w_lost := w_lost w; w_ready := w_ready w; w_echoes := w_echoes w |}, Ok (read (w_steps w))).

Definition transaction {A} (m : eff W A) : eff W A :=
  fun w =>
    let db0 := others (w_steps w) (w_db w) in
    match m {| w_db := db0; w_cloud := w_cloud w; w_calls := w_calls w; w_tables := w_tables w; w_steps := S (w_steps w);
               w_lost := w_lost w; w_ready := w_ready w; w_echoes := w_echoes w |} with
    | (w', Ok a) => (w', Ok a)
    | (w', Raise e) => (with_db db0 w', Raise e)
    end.

Definition read_db {A} (f : D → A) : eff W A := gets (fun w => f (w_db w)).
Definition update_db (f : D → D) : eff W unit := modify (fun w => with_db (f (w_db w)) w).
(** A function of the tables that may raise, run inside the transaction. *)
Definition in_db {A} (f : D → result (D * A)) : eff W A :=
  fun w => match f (w_db w) with
           | Ok (db, a) => (with_db db w, Ok a)
           | Raise e => (w, Raise e)
           end.

(** ** The record of calls only grows *)

(** [emits p m]: however [m] ends, the calls it made all satisfy [p]. *)
Definition grows (p : call → Prop) : relation W :=
  fun w w' => ∃ new tables, w_calls w' = w_calls w ++ new ∧ w_tables w' = w_tables w ++ tables
                            ∧ length tables = length new ∧ Forall p new.

#[global] Instance grows_preorder p : PreOrder (grows p).
Proof.
  split.
  - intros w. exists [], []. by rewrite !app_nil_r.
  - intros w1 w2 w3 (n1 & t1 & E1 & T1 & L1 & F1) (n2 & t2 & E2 & T2 & L2 & F2). exists (n1 ++ n2), (t1 ++ t2).
    rewrite E2, E1, T2, T1, !app_assoc, !length_app, L1, L2. repeat split; [done..|]. by apply Forall_app.
Qed.

Definition emits (p : call → Prop) {A} (m : eff W A) : Prop := keeps (grows p) m.

Lemma emits_mono (p q : call → Prop) {A} (m : eff W A) : (∀ c, p c → q c) → emits p m → emits q m.
Proof. intros Hpq Hm w. destruct (Hm w) as (n & t & E & T & L & F). exists n, t. repeat split; [done..|]. by eapply Forall_impl. Qed.

Lemma emits_request (p : call → Prop) {Q A} (op : Q → P → P * result A) (record : Q → result A → call) q :
  (∀ r, p (record q r)) → keeps (grows p) (request op record q).
Proof.
  intros Hp w. unfold request. destruct (op q (w_cloud w)) as [c r]. exists [record q r], [w_db w]. repeat split.
  by repeat constructor.
Qed.

Lemma emits_silent (p : call → Prop) {A} (m : eff W A) :
  (∀ w, w_calls (m w).1 = w_calls w ∧ w_tables (m w).1 = w_tables w) → keeps (grows p) m.
Proof. intros Hm w. exists [], []. destruct (Hm w) as [-> ->]. by rewrite !app_nil_r. Qed.

Lemma emits_observe p {A} (read : nat → A) : keeps (grows p) (observe read).
Proof. by apply emits_silent. Qed.
Lemma emits_read_db p {A} (f : D → A) : keeps (grows p) (read_db f).
Proof. by apply emits_silent. Qed.
Lemma emits_update_db p (f : D → D) : keeps (grows p) (update_db f).
Proof. by apply emits_silent. Qed.
Lemma emits_in_db p {A} (f : D → result (D * A)) : keeps (grows p) (in_db f).
Proof. apply emits_silent. intros w. unfold in_db. by destruct (f (w_db w)) as [[db a]|e]. Qed.

Lemma emits_transaction p {A} (m : eff W A) : keeps (grows p) m → keeps (grows p) (transaction m).
Proof.
  intros Hm w. unfold transaction. match goal with |- context [m ?w0] => specialize (Hm w0); destruct (m w0) as [w1 [a|e]] end;
  exact Hm.
Qed.

(** A request that succeeded is in the record, last. *)
Lemma request_ok {Q A} (op : Q → P → P * result A) (record : Q → result A → call) q w w' a :
  request op record q w = (w', Ok a) → w_calls w' = w_calls w ++ [record q (Ok a)] ∧ w_db w' = w_db w.
Proof. unfold request. destruct (op q (w_cloud w)) as [c r]. by intros [= <- ->]. Qed.

Lemma request_run {Q A} (op : Q → P → P * result A) (record : Q → result A → call) q w w' r :
  request op record q w = (w', r) → w_calls w' = w_calls w ++ [record q r] ∧ w_db w' = w_db w.
Proof. unfold request. destruct (op q (w_cloud w)) as [c r']. by intros [= <- <-]. Qed.

Lemma emits_calls (p : call → Prop) {A} (m : eff W A) w w' r :
  emits p m → m w = (w', r) → ∃ new, w_calls w' = w_calls w ++ new ∧ Forall p new.
Proof. intros Hm E. destruct (Hm w) as (n & t & En & _ & _ & Fn). rewrite E in En. eauto. Qed.

(** The same with the tables at each call. *)
Lemma request_tables {Q A} (op : Q → P → P * result A) (record : Q → result A → call) q w w' r :
  request op record q w = (w', r) → w_tables w' = w_tables w ++ [w_db w].
Proof. unfold request. destruct (op q (w_cloud w)) as [c r']. by intros [= <- <-]. Qed.

(** A transaction, whether committed or not, is a run of its body for the record. *)
Lemma transaction_run {A} (m : eff W A) w w' r :
  transaction m w = (w', r) →
  ∃ w0 w1, w_calls w0 = w_calls w ∧ w_tables w0 = w_tables w ∧ m w0 = (w1, r)
           ∧ w_calls w' = w_calls w1 ∧ w_tables w' = w_tables w1.
Proof.
  unfold transaction. intros H. match type of H with context [m ?w0] => exists w0; destruct (m w0) as [w1 [b|e]] eqn:E end;
  exists w1; injection H as <- <-; by rewrite ?E.
Qed.

Lemma grows_tables {A} (p : call → Prop) (m : eff W A) w w' r :
  keeps (grows p) m → m w = (w', r) →
  ∃ new tables, w_calls w' = w_calls w ++ new ∧ w_tables w' = w_tables w ++ tables ∧ length tables = length new ∧ Forall p new.
Proof. intros Hm E. specialize (Hm w). by rewrite E in Hm. Qed.

(** [abides ok]: every call made is allowed by the calls before it and by the
    tables at that moment. *)
Definition abides (ok : list call → call → D → Prop) : relation W :=
  fun w w' => ∃ new tables, w_calls w' = w_calls w ++ new ∧ w_tables w' = w_tables w ++ tables
    ∧ length tables = length new
    ∧ ∀ i c d, new !! i = Some c → tables !! i = Some d → ok (w_calls w ++ take i new) c d.

#[global] Instance abides_preorder ok : PreOrder (abides ok).
Proof.
  split.
  - intros w. exists [], []. by rewrite !app_nil_r.
  - intros w1 w2 w3 (n1 & t1 & E1 & T1 & L1 & H1) (n2 & t2 & E2 & T2 & L2 & H2). exists (n1 ++ n2), (t1 ++ t2).
    rewrite E2, E1, T2, T1, !app_assoc, !length_app, L1, L2. do 3 (split; [done|]). intros i c d Hc Hd.
    destruct (decide (i < length n1)%nat).
    + rewrite lookup_app_l in Hc by lia. rewrite lookup_app_l in Hd by lia. rewrite take_app_le by lia. eauto.
    + rewrite lookup_app_r in Hc by lia. rewrite lookup_app_r in Hd by lia. rewrite L1 in Hd. rewrite take_app_ge by lia.
      specialize (H2 _ _ _ Hc Hd). by rewrite E1, <- app_assoc in H2.
Qed.

Lemma abides_grows (p : call → Prop) (ok : list call → call → D → Prop) {A} (m : eff W A) :
  (∀ h c d, p c → ok h c d) → keeps (grows p) m → keeps (abides ok) m.
Proof.
  intros Hp Hm w. destruct (Hm w) as (n & t & En & Et & El & Fn). exists n, t. do 3 (split; [done|]).
  intros i c d Hc _. apply Hp. by eapply Forall_lookup in Fn.
Qed.

Lemma abides_step ok {A} (m : eff W A) w w' r : keeps (abides ok) m → m w = (w', r) → abides ok w w'.
Proof. intros Hm E. specialize (Hm w). by rewrite E in Hm. Qed.

Lemma abides_bind ok {A B} (m : eff W A) (f : A → eff W B) w w' r :
  keeps (abides ok) m → (∀ w1 a, m w = (w1, Ok a) → f a w1 = (w', r) → abides ok w1 w') →
  ebind m f w = (w', r) → abides ok w w'.
Proof.
  intros Hm Hf [(e & E & _)|(w1 & a & E1 & E)]%ebind_cases; [by eapply abides_step|].
  etrans; [by eapply abides_step | by eapply Hf].
Qed.

(** For the record a transaction is its body, run on tables others may have changed. *)
Lemma abides_transaction ok {A} (m : eff W A) w w' r :
  (∀ w0 w1, w_calls w0 = w_calls w → m w0 = (w1, r) → abides ok w0 w1) → transaction m w = (w', r) → abides ok w w'.
Proof.
  intros Hm (w0 & w1 & Ec & Et & E & Ec' & Et')%transaction_run. destruct (Hm w0 w1 Ec E) as (n & t & H1 & H2 & H3).
  exists n, t. rewrite Ec', Et', H1, H2, Ec, Et. rewrite Ec in H3. done.
Qed.

(** A committed transaction is a run of its body on some tables. *)
Lemma transaction_ok {A} (m : eff W A) w w' a :
  transaction m w = (w', Ok a) →
  ∃ w0, w_calls w0 = w_calls w ∧ w_cloud w0 = w_cloud w ∧ w_ready w0 = w_ready w ∧ m w0 = (w', Ok a).
Proof.
  unfold transaction. intros H. match type of H with context [m ?w0] => exists w0 end.
  do 3 (split; [done|]).
  match type of H with context [m ?w0] => destruct (m w0) as [w1 [b|e]] end; done.
Qed.
End client.

#[export] Hint Resolve emits_observe emits_read_db emits_update_db emits_in_db : eff.
#[export] Hint Extern 2 (keeps (grows _) (request _ _ _)) => apply emits_request; intros ?; solve [exact I | intros []] : eff.
#[export] Hint Extern 2 (keeps (grows _) (modify _)) => apply emits_silent; intros ?; split; reflexivity : eff.

(** Show what a computation may request, by its structure. *)
Ltac emits_all := repeat (first [progress eauto with eff | apply emits_transaction | keeps_step]).
