(* ===== verification/S3Copy.v ===== *)
(** * S3Copy: exact-version helpers of the storage provider

    Models [src/app/services/s3_copy.py] over the client of [S3Client]: the
    paginated listing of one key, deletion and HEAD of one version, the checksum
    proofs, the single and the multipart copy to another storage class and the
    read-back that must succeed before a copy is believed.

    [hashlib.sha256] is the parameter [sha256]; a hash object is the bytes it was
    fed.  base64 and [bytes.fromhex] are written out.  A streamed body is the
    chunks it yields.  Tags stay a list of pairs (the source sends them URL
    encoded) and the byte range of a part stays a pair of numbers. *)
From S2P Require Import Prelude PyString Schema Effects S3Client.
From stdpp Require Import pretty.
From Stdlib Require Import Strings.Byte Strings.Ascii.
Open Scope Z_scope.

(** ** base64 and hexadecimal text *)
Definition base64_alphabet : string :=
  "ABCDEFGHIJKLMNOPQRSTUVWXYZabcdefghijklmnopqrstuvwxyz0123456789+/".

Definition bit (b : bool) (weight : nat) : nat := if b then weight else 0%nat.

Definition base64_char (a b c d e f : bool) : Ascii.ascii :=
  or_default (String.get (bit a 32 + bit b 16 + bit c 8 + bit d 4 + bit e 2 + bit f 1) base64_alphabet) "="%char.

(** Bits in groups of six; a last group of two or four is padded. *)
Fixpoint base64_bits (l : list bool) : string :=
  match l with
  | a :: b :: c :: d :: e :: f :: l => String (base64_char a b c d e f) (base64_bits l)
  | [a; b; c; d] => String (base64_char a b c d false false) "="
  | [a; b] => String (base64_char a b false false false false) "=="
  | _ => EmptyString
  end.

(** The bits of a byte, the most significant first. *)
Definition byte_bits (x : byte) : list bool :=
  let '(b0, (b1, (b2, (b3, (b4, (b5, (b6, b7))))))) := Byte.to_bits x in [b7; b6; b5; b4; b3; b2; b1; b0].

Definition b64encode (l : bytes) : string := base64_bits (concat (map byte_bits l)).

Definition hex_value (a : Ascii.ascii) : option N :=
  let n := Ascii.N_of_ascii a in
  if ((48 <=? n) && (n <=? 57))%N then Some (n - 48)%N
  else if ((65 <=? n) && (n <=? 70))%N then Some (n - 55)%N
  else if ((97 <=? n) && (n <=? 102))%N then Some (n - 87)%N
  else None.

(** [bytes.fromhex]: pairs of hex digits, white space between them ignored. *)
Fixpoint fromhex (s : string) : result bytes :=
  match s with
  | EmptyString => Ok []
  | String a s1 =>
      if is_space a then fromhex s1
      else match s1 with
           | String b s2 =>
               match hex_value a, hex_value b with
               | Some x, Some y =>
                   rest ← fromhex s2;
                   Ok (or_default (Byte.of_N (16 * x + y)) x00 :: rest)
               | _, _ => Raise (ValueError "non-hexadecimal number found in fromhex() arg")
               end
           | EmptyString => Raise (ValueError "non-hexadecimal number found in fromhex() arg")
           end
  end.

(** ** Constants *)
Definition S3_SINGLE_COPY_MAX_BYTES : Z := 5 * 1024 ^ 3.
Definition S3_MULTIPART_COPY_MIN_PART_BYTES : Z := 5 * 1024 ^ 2.
Definition S3_MULTIPART_COPY_PART_BYTES : Z := 128 * 1024 ^ 2.
Definition S3_MULTIPART_COPY_MAX_PARTS : Z := 10000.
Definition S3_COPY_CHECKSUM_ALGORITHM : string := "SHA256".
Definition S3_COPY_CHECKSUM_TYPE : string := "FULL_OBJECT".
Definition ARCHIVE_RESTORE_REQUIRED : list string := ["GLACIER"; "DEEP_ARCHIVE"].
Definition TOKEN_KEY : string := "frostvault-move".

Definition storage_class_requires_restore (storage_class : option string) : bool :=
  upper (or_default storage_class "") ∈b ARCHIVE_RESTORE_REQUIRED.

(** ** Headers *)
Definition quote : Ascii.ascii := Ascii.ascii_of_nat 34.
Definition quoted (s : string) : string := String quote (String.append s (String quote EmptyString)).

(** The text up to the next quote, when it is not empty and there is a quote. *)
Fixpoint until_quote (s : string) : option string :=
  match s with
  | EmptyString => None
  | String a s => if bool_decide (a = quote) then Some EmptyString else String a <$> until_quote s
  end.

(** [re.search] of [expiry-date=] with a quoted, non-empty value. *)
Fixpoint search_expiry (s : string) : option string :=
  let prefix := String.append "expiry-date=" (String quote EmptyString) in
  let here := if starts_with prefix s
              then match until_quote (drop_chars (String.length prefix) s) with
                   | Some EmptyString | None => None
                   | Some t => Some t
                   end
              else None in
  match here, s with
  | Some t, _ => Some t
  | None, EmptyString => None
  | None, String _ s => search_expiry s
  end.

Definition restore_header_state (value : option string) : string * option string :=
  if negb (truthy value) then ("not_requested", None)
  else let v := or_default value "" in
       if contains (String.append "ongoing-request=" (quoted "true")) v then ("restoring", None)
       else ("available", search_expiry v).

Definition full_object_sha256_checksum (h : head_answer) : option string :=
  if negb (truthy (hd_checksum_sha256 h)) then None
  else if upper (if truthy (hd_checksum_type h) then or_default (hd_checksum_type h) "" else "FULL_OBJECT")
          =b S3_COPY_CHECKSUM_TYPE
  then hd_checksum_sha256 h else None.

(** [str(value)] of an optional text. *)
Definition py_str (o : option string) : string := or_default o "None".

(** The parts a copy is cut into. *)
Definition part_size (size : Z) : Z :=
  Z.max (Z.max S3_MULTIPART_COPY_MIN_PART_BYTES S3_MULTIPART_COPY_PART_BYTES)
        ((size + S3_MULTIPART_COPY_MAX_PARTS - 1) / S3_MULTIPART_COPY_MAX_PARTS).
Definition part_count (size : Z) : Z := (size + part_size size - 1) / part_size size.
Definition part_numbers (size : Z) : list Z := map Z.of_nat (seq 1 (Z.to_nat (part_count size))).
(** First and last byte of a part. *)
Definition part_range (size number : Z) : Z * Z :=
  let start := (number - 1) * part_size size in
  (start, Z.min size (start + part_size size) - 1).

Definition CHECKSUM_NAMES : list string :=
  ["ChecksumCRC32"; "ChecksumCRC32C"; "ChecksumSHA1"; "ChecksumSHA256"; "ChecksumCRC64NVME"].

Definition checksum_of (l : list (string * string)) (name : string) : option (string * string) :=
  List.find (fun c => (c.1 =b name) && (c.2 <>b "")) l.

Section copy.
Context {D P : Type} `{!Provider P} `{!Environment D}.
Context (sha256 : bytes → bytes).
Notation W := (world D P).

(** [check_active("Storage class change stopped")], when there is one. *)
Definition check (check_active : option (string → eff W unit)) : eff W unit :=
  match check_active with Some f => f "Storage class change stopped" | None => eret tt end.

(** ** The listing of one key *)
Definition entries := list (string * listed).
Definition has_version (v : string) (l : entries) : bool := existsb (fun e => e.1 =b v) l.

Definition add_entry (key : string) (other : entries) (l : entries) (item : listed) : result entries :=
  if negb (bool_decide (li_key item = Some key)) then Ok l
  else
    let version := or_default (li_version_id item) "" in
    raise! RuntimeError "S3 version listing has ambiguous exact identities" when
      (version =b "") || (version =b "null") || has_version version l || has_version version other;
    Ok (l ++ [(version, item)]).

Definition add_page (key : string) (st : entries * entries) (pg : page) : result (entries * entries) :=
  versions ← foldM_r (add_entry key st.2) st.1 (pg_versions pg);
  markers ← foldM_r (add_entry key versions) st.2 (pg_markers pg);
  Ok (versions, markers).

Fixpoint list_pages (fuel : nat) (q : list_request) (st : entries * entries)
    (continuations : list (string * string)) : eff W (entries * entries) :=
  match fuel with
  | O => throw StillRunning
  | S fuel =>
      pg <~ list_object_versions q ;;
      match pg_truncated pg with
      | None => throw (RuntimeError "S3 version listing did not confirm complete pagination")
      | Some truncated =>
          st <~ lift (add_page (lr_prefix q) st pg) ;;
          if negb truncated then eret st
          else
            throw! RuntimeError "S3 version listing omitted its continuation marker" when
              negb (truthy (pg_next_key pg)) ;;
            let continuation := (py_str (pg_next_key pg), or_default (pg_next_version pg) "") in
            throw! RuntimeError "S3 version listing repeated its continuation marker" when
              continuation ∈b continuations ;;
            list_pages fuel {| lr_bucket := lr_bucket q; lr_prefix := lr_prefix q; lr_key_marker := pg_next_key pg;
                               lr_version_marker := if truthy (pg_next_version pg) then pg_next_version pg else None |}
              st (continuation :: continuations)
      end
  end.

Definition object_version_entries (fuel : nat) (bucket object_key : string) : eff W (entries * entries) :=
  list_pages fuel {| lr_bucket := bucket; lr_prefix := object_key; lr_key_marker := None; lr_version_marker := None |}
    ([], []) [].

(** ** Deletion and HEAD of one version *)
Definition s3_version_already_gone (e : exn) : bool :=
  match e with
  | ClientError code _ => code ∈b ["NoSuchVersion"; "NoSuchKey"; "NotFound"; "404"]
  | _ => false
  end.

Definition delete_s3_version (o : object_ref) : eff W unit :=
  catch (delete_object o) (fun e => if s3_version_already_gone e then eret tt else throw e).

Definition head_object_with_checksum (bucket key : string) (version : option string) : eff W head_answer :=
  catch (head_object {| hr_bucket := bucket; hr_key := key; hr_version := version; hr_checksum_mode := true |})
    (fun _ => head_object {| hr_bucket := bucket; hr_key := key; hr_version := version; hr_checksum_mode := false |}).

(** [target]: the key, the version and the recorded size of an upload. *)
Definition verification_version_head (bucket : string) (key version : option string) (cloud_size : option Z)
  : eff W head_answer :=
  throw! RuntimeError "Upload verification target has no exact S3 VersionId" when
    negb (truthy key) || negb (truthy version) ;;
  h <~ head_object {| hr_bucket := bucket; hr_key := or_default key ""; hr_version := version;
                      hr_checksum_mode := false |} ;;
  throw! RuntimeError "Upload verification found no S3 VersionId" when negb (truthy (hd_version_id h)) ;;
  throw! RuntimeError "Archive Version changed during upload verification" when
    negb (bool_decide (hd_version_id h = version)) ;;
  throw! RuntimeError "Archive Version size changed during upload verification" when
    match cloud_size, hd_content_length h with Some a, Some b => negb (b =? a) | _, _ => false end ;;
  eret h.

(** ** Content proofs *)
Definition read_chunk (check_active : option (string → eff W unit)) (read : bytes) (c : result bytes) : eff W bytes :=
  chunk <~ lift c ;; check check_active ;;; eret (read ++ chunk).

Definition sha256_s3_version (check_active : option (string → eff W unit)) (o : object_ref) : eff W string :=
  answer <~ get_object o ;;
  match answer with
  | None => throw (RuntimeError "S3 did not return a body for integrity verification")
  | Some chunks =>
      read <~ efold (read_chunk check_active) [] chunks ;;
      eret (b64encode (sha256 read))
  end.

(** The state of the composite digest: the part that is being filled, the
    digests of the full ones, and their number. *)
Record composite := { co_part : bytes; co_in_part : Z; co_digests : bytes; co_count : Z }.

(** [while view: ...], with the bytes left as fuel. *)
Fixpoint feed_view (fuel : nat) (psize : Z) (st : composite) (view : bytes) : composite :=
  match fuel, view with
  | S fuel, _ :: _ =>
      let length_ := Z.to_nat (Z.min (Z.of_nat (length view)) (psize - co_in_part st)) in
      let part := co_part st ++ take length_ view in
      let in_part := co_in_part st + Z.of_nat length_ in
      let st' := if in_part =? psize
                 then {| co_part := []; co_in_part := 0; co_digests := co_digests st ++ sha256 part;
                         co_count := co_count st + 1 |}
                 else {| co_part := part; co_in_part := in_part; co_digests := co_digests st;
                         co_count := co_count st |} in
      feed_view fuel psize st' (drop length_ view)
  | _, _ => st
  end.

Definition no_composite : composite := {| co_part := []; co_in_part := 0; co_digests := []; co_count := 0 |}.

Definition finish_composite (st : composite) : bytes * Z :=
  if co_in_part st =? 0 then (co_digests st, co_count st)
  else (co_digests st ++ sha256 (co_part st), co_count st + 1).

(** [while chunk := body.read(...)] ends at the first empty chunk. *)
Fixpoint until_empty (l : body) : body :=
  match l with
  | Ok [] :: _ | [] => []
  | c :: l => c :: until_empty l
  end.

Definition feed_chunk (check_active : string → eff W unit) (psize : Z) (st : bytes * composite) (c : result bytes)
  : eff W (bytes * composite) :=
  chunk <~ lift c ;;
  check_active "Storage class change stopped" ;;;
  eret (st.1 ++ chunk, feed_view (length chunk) psize st.2 chunk).

Definition multipart_source_checksum (check_active : string → eff W unit) (o : object_ref) (size : Z)
    (expected_sha256 : string) : eff W string :=
  answer <~ get_object o ;;
  match answer with
  | None => throw (KeyError "Body")
  | Some chunks =>
      st <~ efold (feed_chunk check_active (part_size size)) ([], no_composite) (until_empty chunks) ;;
      let (digests, count) := finish_composite st.2 in
      throw! RuntimeError "Multipart source does not match the verified plaintext digest" when
        negb (Z.of_nat (length st.1) =? size) || negb (b64encode (sha256 st.1) =b expected_sha256) ;;
      eret (String.append (b64encode (sha256 digests)) (String.append "-" (pretty count)))
  end.

(** ** Copies to another storage class *)
Definition source_object_tagging (o : object_ref) : eff W (list (string * string)) :=
  tags <~ get_object_tagging o ;;
  lift (mapM_r (fun t => match t with
                         | (Some k, Some v) => Ok (k, v)
                         | _ => Raise (RuntimeError "S3 returned an invalid object tag")
                         end) tags).

(** The source's metadata with the token of the move. *)
Definition token_metadata (h : head_answer) (token : string) : gmap string string :=
  <[TOKEN_KEY := token]> (or_default (hd_metadata h) ∅).

Definition checksum_type_for (intent_token : option string) : string :=
  if truthy intent_token then "COMPOSITE" else S3_COPY_CHECKSUM_TYPE.

Definition copy_part (check_active : option (string → eff W unit)) (upload_id : string) (source : object_ref) (size : Z)
    (parts : list copied_part) (number : Z) : eff W (list copied_part) :=
  check check_active ;;;
  let (first_, last_) := part_range size number in
  answer <~ upload_part_copy {| pt_upload := upload_id; pt_number := number; pt_source := source;
                                pt_first := first_; pt_last := last_ |} ;;
  throw! RuntimeError "S3 did not return an ETag for multipart part" when negb (truthy (pa_etag answer)) ;;
  eret (parts ++ [{| cp_number := number; cp_etag := or_default (pa_etag answer) "";
                     cp_checksums := omap (checksum_of (pa_checksums answer)) CHECKSUM_NAMES |}]).

(** The parts and the completion, between initiation and abort. *)
Definition fill_upload (check_active : option (string → eff W unit)) (upload_id : string) (source : object_ref) (size : Z)
    (intent_token : option string) : eff W (option string) :=
  parts <~ efold (copy_part check_active upload_id source size) [] (part_numbers size) ;;
  check check_active ;;;
  complete_multipart_upload {| cm_bucket := or_bucket source; cm_key := or_key source; cm_upload := upload_id;
                               cm_parts := parts; cm_checksum_type := checksum_type_for intent_token |}.

Definition multipart_copy_storage_class (check_active : option (string → eff W unit)) (source : object_ref)
    (target_class : string) (size : Z) (source_head : head_answer) (intent_token : option string) : eff W (option string) :=
  throw! ValueError "Multipart storage-class copy requires an oversized object" when size <=? S3_SINGLE_COPY_MAX_BYTES ;;
  throw! RuntimeError "S3 multipart copy would exceed the part limit" when
    S3_MULTIPART_COPY_MAX_PARTS <? part_count size ;;
  tagging <~ source_object_tagging source ;;
  upload <~ create_multipart_upload
    {| mu_bucket := or_bucket source; mu_key := or_key source; mu_storage_class := target_class;
       mu_checksum_algorithm := S3_COPY_CHECKSUM_ALGORITHM; mu_checksum_type := checksum_type_for intent_token;
       mu_metadata := if truthy intent_token then Some (token_metadata source_head (or_default intent_token ""))
                      else hd_metadata source_head;
       mu_tagging := tagging; mu_headers := hd_headers source_head |} ;;
  throw! RuntimeError "S3 did not return a multipart UploadId" when negb (truthy upload) ;;
  let upload_id := or_default upload "" in
  catch_all (fill_upload check_active upload_id source size intent_token)
    (fun e =>
       catch (abort_multipart_upload upload_id)
         (fun _ => throw (RuntimeError "Multipart storage-class copy failed and its upload could not be aborted")) ;;;
       throw e).

Definition copy_storage_class_version (check_active : option (string → eff W unit)) (source : object_ref)
    (target_class : string) (source_size : Z) (source_head : head_answer) (intent_token : option string)
  : eff W (option string) :=
  if S3_SINGLE_COPY_MAX_BYTES <? source_size
  then multipart_copy_storage_class check_active source target_class source_size source_head intent_token
  else
    check check_active ;;;
    copy_object
      {| cr_source := source; cr_storage_class := target_class; cr_replace_metadata := truthy intent_token;
         cr_checksum_algorithm := S3_COPY_CHECKSUM_ALGORITHM;
         cr_metadata := if truthy intent_token then Some (token_metadata source_head (or_default intent_token ""))
                        else None;
         cr_headers := if truthy intent_token then hd_headers source_head else [] |}.

(** The proof of a destination: its own checksum when it may be believed, the
    hash of its bytes otherwise. *)
Definition destination_checksum (check_active : option (string → eff W unit)) (bucket key version : string) (h : head_answer)
    (expected : string) (expected_composite : option string) : eff W string :=
  let believed :=
    if truthy expected_composite && bool_decide (hd_checksum_type h = Some "COMPOSITE")
    then if bool_decide (hd_checksum_sha256 h = expected_composite) then Some expected else None
    else full_object_sha256_checksum h in
  match believed with
  | Some checksum => eret checksum
  | None => sha256_s3_version check_active {| or_bucket := bucket; or_key := key; or_version := version |}
  end.

Definition strip_quotes : string → string := strip (fun a => bool_decide (a = quote)).

Definition verify_storage_class_destination (check_active : option (string → eff W unit)) (bucket key source_version_id : string)
    (candidate : option string) (target_class : string) (expected_size : Z) (expected_sha256 : option string)
    (expected_composite : option string) : eff W (string * option string) :=
  throw! RuntimeError "Storage class copy lacks a source integrity proof" when negb (truthy expected_sha256) ;;
  h <~ head_object_with_checksum bucket key (if truthy candidate then candidate else None) ;;
  let observed := if truthy (hd_version_id h) then hd_version_id h else candidate in
  throw! RuntimeError "Storage class copy did not produce a verifiable S3 VersionId" when negb (truthy observed) ;;
  let version := or_default observed "" in
  throw! RuntimeError "Storage class copy read-back returned a different S3 VersionId" when
    truthy candidate && negb (bool_decide (Some version = candidate)) ;;
  throw! RuntimeError "Storage class copy read-back still points at the source S3 VersionId" when
    version =b source_version_id ;;
  throw! RuntimeError "Storage class copy read-back returned a Delete Marker" when hd_delete_marker h ;;
  throw! RuntimeError "Storage class copy read-back returned the wrong storage class" when
    upper (if truthy (hd_storage_class h) then or_default (hd_storage_class h) "" else "STANDARD") <>b target_class ;;
  throw! RuntimeError "Storage class copy read-back returned the wrong object size" when
    negb (bool_decide (hd_content_length h = Some expected_size)) ;;
  checksum <~ destination_checksum check_active bucket key version h (or_default expected_sha256 "") expected_composite ;;
  throw! RuntimeError "Storage class copy read-back failed its content-integrity check" when
    negb (bool_decide (Some checksum = expected_sha256)) ;;
  eret (version, if truthy (hd_etag h) then strip_quotes <$> hd_etag h else None).
End copy.

(** ** base64 loses nothing *)
Definition base64_decode (x : Ascii.ascii) : option (bool * bool * bool * bool * bool * bool) :=
  List.find (fun '(a, b, c, d, e, f) => bool_decide (base64_char a b c d e f = x))
    (a ← [false; true]; b ← [false; true]; c ← [false; true]; d ← [false; true]; e ← [false; true]; f ← [false; true];
     [(a, b, c, d, e, f)]).

Lemma base64_decode_char a b c d e f : base64_decode (base64_char a b c d e f) = Some (a, b, c, d, e, f).
Proof. by destruct a, b, c, d, e, f. Qed.

Lemma base64_char_inj a b c d e f a' b' c' d' e' f' :
  base64_char a b c d e f = base64_char a' b' c' d' e' f' → [a; b; c; d; e; f] = [a'; b'; c'; d'; e'; f'].
Proof. intros E. apply (f_equal base64_decode) in E. rewrite !base64_decode_char in E. by simplify_eq. Qed.

Lemma base64_char_not_pad a b c d e f : base64_char a b c d e f ≠ "="%char.
Proof. by destruct a, b, c, d, e, f. Qed.

Ltac base64_chars :=
  repeat match goal with
    | H : base64_char _ _ _ _ _ _ = "="%char |- _ => by apply base64_char_not_pad in H
    | H : "="%char = base64_char _ _ _ _ _ _ |- _ => symmetry in H; by apply base64_char_not_pad in H
    | H : base64_char _ _ _ _ _ _ = base64_char _ _ _ _ _ _ |- _ => apply base64_char_inj in H; simplify_eq/=
    end; try done.

(** Groups of six bits, then nothing, two or four bits. *)
Inductive sextets : list bool → Prop :=
  | sextets_0 : sextets []
  | sextets_2 a b : sextets [a; b]
  | sextets_4 a b c d : sextets [a; b; c; d]
  | sextets_6 a b c d e f l : sextets l → sextets (a :: b :: c :: d :: e :: f :: l).

Lemma base64_bits_inj l k : sextets l → sextets k → base64_bits l = base64_bits k → l = k.
Proof.
  intros Hl. revert k. induction Hl as [|a b|a b c d|a b c d e f l Hl IH]; intros k [|a' b'|a' b' c' d'|a' b' c' d' e' f' k' Hk];
    cbn; intros E; try discriminate E; try done; injection E; clear E; intros.
  all: try match goal with
           | IH : ∀ k, _, Hk : sextets ?k, H : base64_bits _ = base64_bits ?k |- _ => apply (IH _ Hk) in H; subst; base64_chars
           end.
  all: try (destruct Hk; cbn in *; simplify_eq).
  all: try (destruct Hl; cbn in *; simplify_eq).
  all: base64_chars.
Qed.

Lemma byte_bits_inj x y : byte_bits x = byte_bits y → x = y.
Proof.
  unfold byte_bits. rewrite <- (Byte.of_bits_to_bits x), <- (Byte.of_bits_to_bits y).
  rewrite !Byte.to_bits_of_bits.
  destruct (Byte.to_bits x) as (?&?&?&?&?&?&?&?), (Byte.to_bits y) as (?&?&?&?&?&?&?&?). by intros [= -> -> -> -> -> -> -> ->].
Qed.

Lemma length_byte_bits x : length (byte_bits x) = 8%nat.
Proof. unfold byte_bits. by destruct (Byte.to_bits x) as (?&?&?&?&?&?&?&?). Qed.

Lemma byte_bits_sextets l : sextets (concat (map byte_bits l)).
Proof.
  revert l. fix IH 1. intros [|x [|y [|z l]]]; cbn; unfold byte_bits;
    repeat match goal with |- context [Byte.to_bits ?b] => destruct (Byte.to_bits b) as (?&?&?&?&?&?&?&?) end;
    cbn; repeat constructor.
  exact (IH l).
Qed.

(** Two byte strings with the same base64 text are equal. *)
Lemma b64encode_inj l k : b64encode l = b64encode k → l = k.
Proof.
  intros E%base64_bits_inj; [|apply byte_bits_sextets..]. revert k E.
  induction l as [|x l IH]; intros [|y k] E; cbn in E; [done| | |].
  - apply (f_equal length) in E. rewrite length_app, length_byte_bits in E. cbn in E. lia.
  - apply (f_equal length) in E. rewrite length_app, length_byte_bits in E. cbn in E. lia.
  - apply app_inj_1 in E as [E1 E2]; [|by rewrite !length_byte_bits].
    f_equal; [by apply byte_bits_inj | by apply IH].
Qed.

(** ** The parts of a copy *)

(** Consecutive non-empty ranges from [from] to the last byte before [size]. *)
Fixpoint tiles (from size : Z) (l : list (Z * Z)) : Prop :=
  match l with
  | [] => from = size
  | (a, b) :: l => a = from ∧ a ≤ b ∧ tiles (b + 1) size l
  end.

Lemma part_size_bounds size : S3_MULTIPART_COPY_PART_BYTES ≤ part_size size.
Proof. unfold part_size, S3_MULTIPART_COPY_MIN_PART_BYTES, S3_MULTIPART_COPY_PART_BYTES. lia. Qed.

(** The guard of the source against too many parts never fires. *)
Lemma part_count_bounded size : part_count size ≤ S3_MULTIPART_COPY_MAX_PARTS.
Proof.
  pose proof (part_size_bounds size) as Hp. unfold part_count, S3_MULTIPART_COPY_PART_BYTES in *.
  apply Z.lt_succ_r, Z.div_lt_upper_bound; [lia|].
  assert (size ≤ S3_MULTIPART_COPY_MAX_PARTS * part_size size); [|unfold S3_MULTIPART_COPY_MAX_PARTS in *; nia].
  transitivity (S3_MULTIPART_COPY_MAX_PARTS * ((size + S3_MULTIPART_COPY_MAX_PARTS - 1) / S3_MULTIPART_COPY_MAX_PARTS)).
  - unfold S3_MULTIPART_COPY_MAX_PARTS. pose proof (Z.div_mod (size + 10000 - 1) 10000 ltac:(lia)).
    pose proof (Z.mod_pos_bound (size + 10000 - 1) 10000 ltac:(lia)). lia.
  - apply Z.mul_le_mono_nonneg_l; [unfold S3_MULTIPART_COPY_MAX_PARTS; lia | unfold part_size; lia].
Qed.

Lemma part_ranges_tile_from size n k :
  0 < size → (n + k)%nat = Z.to_nat (part_count size) →
  tiles (Z.min size (Z.of_nat n * part_size size)) size
    (map (fun i => part_range size (Z.of_nat i)) (seq (S n) k)).
Proof.
  intros Hs. pose proof (part_size_bounds size) as Hp. unfold S3_MULTIPART_COPY_PART_BYTES in Hp.
  assert (Hc : (part_count size - 1) * part_size size < size ≤ part_count size * part_size size).
  { unfold part_count. pose proof (Z.div_mod (size + part_size size - 1) (part_size size) ltac:(lia)).
    pose proof (Z.mod_pos_bound (size + part_size size - 1) (part_size size) ltac:(lia)). nia. }
  assert (0 < part_count size) by nia.
  revert n. induction k as [|k IH]; intros n Hn; cbn.
  - assert (Z.of_nat n = part_count size) as -> by lia. lia.
  - assert (Z.of_nat n ≤ part_count size - 1) by lia.
    assert (Z.of_nat n * part_size size ≤ (part_count size - 1) * part_size size) by (apply Z.mul_le_mono_nonneg_r; lia).
    replace (Z.of_nat (S n) - 1) with (Z.of_nat n) by lia. split; [lia|]. split; [lia|].
    specialize (IH (S n) ltac:(lia)).
    replace (Z.of_nat (S n) * part_size size) with (Z.of_nat n * part_size size + part_size size) in IH by lia.
    by replace (Z.min size (Z.of_nat n * part_size size + part_size size) - 1 + 1)
      with (Z.min size (Z.of_nat n * part_size size + part_size size)) by lia.
Qed.

(** The ranges of the parts cover every byte once, in order. *)
Lemma part_ranges_tile size : 0 < size → tiles 0 size (map (part_range size) (part_numbers size)).
Proof.
  intros Hs. unfold part_numbers. rewrite map_map.
  pose proof (part_ranges_tile_from size 0 (Z.to_nat (part_count size)) Hs eq_refl) as H.
  rewrite Z.mul_0_l, Z.min_r in H by lia. exact H.
Qed.

(** ** The composite digest *)

(** The reference: cut the whole content into parts of [n] bytes. *)
Fixpoint cut (fuel n : nat) (l : bytes) : list bytes :=
  match fuel, l with
  | S fuel, _ :: _ => take n l :: cut fuel n (drop n l)
  | _, _ => []
  end.
Definition cut_parts (n : nat) (l : bytes) : list bytes := cut (length l) n l.

Definition composite_of (sha256 : bytes → bytes) (psize : Z) (content : bytes) : string :=
  let parts := cut_parts (Z.to_nat psize) content in
  String.append (b64encode (sha256 (concat (map sha256 parts))))
    (String.append "-" (pretty (Z.of_nat (length parts)))).

Lemma cut_fuel fuel n l : (0 < n)%nat → (length l ≤ fuel)%nat → cut fuel n l = cut_parts n l.
Proof.
  intros Hn. unfold cut_parts. revert l. induction fuel as [fuel IH] using lt_wf_ind. intros l Hl.
  destruct fuel as [|fuel]; [by destruct l; cbn in *; [|lia]|].
  destruct l as [|x l]; [done|]. cbn in *.
  assert (length (drop n (x :: l)) ≤ length l)%nat by (rewrite length_drop; cbn; lia).
  f_equal. rewrite (IH fuel) by lia. symmetry. by rewrite (IH (length l)) by lia.
Qed.

Lemma cut_parts_cons n l : (0 < n)%nat → l ≠ [] → cut_parts n l = take n l :: cut_parts n (drop n l).
Proof.
  intros Hn Hl. destruct l as [|x l]; [done|]. unfold cut_parts at 1. cbn. f_equal. apply cut_fuel; [done|].
  rewrite length_drop. cbn. lia.
Qed.

Lemma cut_parts_full n full rest :
  (0 < n)%nat → Forall (fun p => length p = n) full → (length rest < n)%nat →
  cut_parts n (concat full ++ rest) = full ++ match rest with [] => [] | _ => [rest] end.
Proof.
  intros Hn. induction 1 as [|p full Hp _ IH]; intros Hr; cbn [concat app].
  - destruct rest as [|x rest]; [done|]. rewrite cut_parts_cons by done.
    rewrite take_ge, drop_ge by lia. done.
  - assert (p ≠ []) by (intros ->; cbn in Hp; lia).
    rewrite cut_parts_cons by (done || by destruct p).
    rewrite <- app_assoc, take_app_length', drop_app_length' by done. f_equal. by apply IH.
Qed.

Section composite_facts.
Context {D P : Type} `{!Provider P} `{!Environment D} (sha256 : bytes → bytes).
Notation W := (world D P).

(** The state after the bytes [l] were fed. *)
Record fed (psize : Z) (st : composite) (l : bytes) (full : list bytes) : Prop := {
  fed_bytes : l = concat full ++ co_part st;
  fed_full : Forall (fun p => length p = Z.to_nat psize) full;
  fed_in_part : co_in_part st = Z.of_nat (length (co_part st));
  fed_room : co_in_part st < psize;
  fed_digests : co_digests st = concat (map sha256 full);
  fed_count : co_count st = Z.of_nat (length full);
}.

Lemma feed_view_fed fuel psize st l view full :
  fed psize st l full → (length view ≤ fuel)%nat →
  ∃ full', fed psize (feed_view sha256 fuel psize st view) (l ++ view) full'.
Proof.
  revert st l view full. induction fuel as [|fuel IH]; intros st l view full F Hv.
  { destruct view; [|cbn in Hv; lia]. exists full. by rewrite app_nil_r. }
  destruct view as [|x view]; [exists full; by rewrite app_nil_r|].
  cbn [feed_view]. set (v := x :: view) in *.
  set (n := Z.to_nat (Z.min (Z.of_nat (length v)) (psize - co_in_part st))).
  destruct F as [Fb Ff Fi Fr Fd Fc].
  assert (Hn : (0 < n ≤ length v)%nat) by (unfold n; cbn; lia).
  assert (Ht : length (take n v) = n) by (rewrite length_take; lia).
  replace (l ++ v) with ((l ++ take n v) ++ drop n v) by (by rewrite <- app_assoc, take_drop).
  assert (Hd : (length (drop n v) ≤ fuel)%nat) by (rewrite length_drop; cbn in *; lia).
  destruct (Z.eqb_spec (co_in_part st + Z.of_nat n) psize) as [Hfull|Hpart].
  - eapply (IH _ _ _ (full ++ [co_part st ++ take n v])); [|done]. split; cbn.
    + rewrite concat_app, app_nil_r. cbn. by rewrite app_nil_r, Fb, !app_assoc.
    + apply Forall_app. split; [done|]. repeat constructor. rewrite length_app, Ht. lia.
    + done.
    + lia.
    + rewrite map_app, concat_app, Fd. cbn. by rewrite app_nil_r.
    + rewrite length_app, Fc. cbn. lia.
  - eapply (IH _ _ _ full); [|done]. split; cbn; try done.
    + by rewrite Fb, app_assoc.
    + rewrite length_app, Ht. lia.
    + unfold n in *. lia.
Qed.

Lemma finish_fed psize st l full :
  0 < psize → fed psize st l full →
  finish_composite sha256 st = (concat (map sha256 (cut_parts (Z.to_nat psize) l)),
                                Z.of_nat (length (cut_parts (Z.to_nat psize) l))).
Proof.
  intros Hp [Fb Ff Fi Fr Fd Fc]. unfold finish_composite.
  rewrite Fb, cut_parts_full by (done || lia).
  destruct (co_part st) as [|x part] eqn:E; cbn in Fi.
  - rewrite Fi. cbn. by rewrite app_nil_r, Fd, Fc.
  - destruct (Z.eqb_spec (co_in_part st) 0); [lia|].
    rewrite map_app, concat_app, length_app, Fd, Fc. cbn. rewrite app_nil_r. f_equal. by rewrite Nat2Z.inj_add.
Qed.
End composite_facts.

Section copy_facts.
Context {D P : Type} `{!Provider P} `{!Environment D} (sha256 : bytes → bytes).
Notation W := (world D P).

(** A callback that makes no request. *)
Definition silent {A} (m : eff W A) : Prop := emits (fun _ => False) m.

Lemma silent_calls {A} (m : eff W A) w w' r : silent m → m w = (w', r) → w_calls w' = w_calls w.
Proof.
  intros Hm E. destruct (Hm w) as (n & t & En & _ & _ & Fn). rewrite E in En. cbn in En.
  destruct n as [|c n]; [by rewrite app_nil_r in En | by inversion Fn].
Qed.

Lemma until_empty_nonempty chunks :
  Forall (fun c : bytes => c ≠ []) chunks → until_empty (map Ok chunks) = map Ok chunks.
Proof. induction 1 as [|c chunks Hc _ IH]; [done|]. cbn. destruct c; [done|]. by rewrite IH. Qed.

Lemma feed_chunks_fed (check_active : string → eff W unit) psize chunks st w full :
  (∀ m w, ∃ w', check_active m w = (w', Ok tt)) → fed sha256 psize st.2 st.1 full →
  ∃ w' st' full', efold (feed_chunk sha256 check_active psize) st (map Ok chunks) w = (w', Ok st')
                  ∧ fed sha256 psize st'.2 st'.1 full' ∧ st'.1 = st.1 ++ concat chunks.
Proof.
  intros Hc. revert st w full. induction chunks as [|c chunks IH]; intros st w full F; cbn.
  { exists w, st, full. by rewrite app_nil_r. }
  unfold ebind at 1. unfold feed_chunk at 1. cbn. unfold ebind at 1.
  destruct (Hc "Storage class change stopped" w) as (w1 & ->). cbn.
  destruct (feed_view_fed sha256 (length c) psize st.2 st.1 c full F ltac:(lia)) as (full1 & F1).
  destruct (IH (st.1 ++ c, feed_view sha256 (length c) psize st.2 c) w1 full1 F1) as (w2 & st2 & full2 & E & F2 & E2).
  exists w2, st2, full2. split; [exact E|]. split; [done|]. rewrite E2. cbn. by rewrite <- app_assoc.
Qed.

(** The composite checksum that a multipart copy is compared with does not
    depend on how the body was streamed.  For a body of any non-empty chunks,
    and as long as the Job stays active, the incremental computation answers the
    digest of the digests of the parts [part_size] cuts the whole content into,
    followed by their number, when the content has the recorded size and the
    verified digest, and refuses any other content. *)
Theorem composite_ignores_chunk_boundaries (check_active : string → eff W unit) o size expected w p chunks :
  (∀ m w, ∃ w', check_active m w = (w', Ok tt)) →
  p_get o (w_cloud w) = (p, Ok (Some (map Ok chunks))) →
  Forall (fun c => c ≠ []) chunks →
  (multipart_source_checksum sha256 check_active o size expected w).2 =
    (if (Z.of_nat (length (concat chunks)) =? size) && (b64encode (sha256 (concat chunks)) =b expected)
     then Ok (composite_of sha256 (part_size size) (concat chunks))
     else Raise (RuntimeError "Multipart source does not match the verified plaintext digest")).
Proof.
  intros Hc Hg Hne. unfold multipart_source_checksum, get_object, request, ebind at 1. rewrite Hg. cbn.
  rewrite until_empty_nonempty by done. pose proof (part_size_bounds size) as Hp.
  unfold S3_MULTIPART_COPY_PART_BYTES in Hp.
  assert (F0 : fed sha256 (part_size size) no_composite [] []) by (split; cbn; auto; lia).
  match goal with |- context [ebind _ _ ?w0] =>
    destruct (feed_chunks_fed check_active (part_size size) chunks ([], no_composite) w0 [] Hc F0)
      as (w1 & st & full & E & F & E2) end.
  unfold ebind at 1. rewrite E. cbn in E2. rewrite (finish_fed sha256 (part_size size) st.2 st.1 full) by (done || lia).
  rewrite E2. destruct (Z.of_nat (length (concat chunks)) =? size); cbn; [|done].
  by destruct (b64encode (sha256 (concat chunks)) =b expected).
Qed.

(** ** Every multipart upload ends *)
Definition nth_part_request (upload_id : string) (source : object_ref) (size number : Z) : part_request :=
  {| pt_upload := upload_id; pt_number := number; pt_source := source;
     pt_first := (part_range size number).1; pt_last := (part_range size number).2 |}.

Definition copied_calls (upload_id : string) (source : object_ref) (size : Z) (l : list (Z * part_answer)) : list call :=
  map (fun na => CPart (nth_part_request upload_id source size na.1) (Ok na.2)) l.

Context (check_active : option (string → eff W unit)).

Lemma copy_parts_ok upload_id source size numbers parts0 w w' parts :
  silent (check check_active) →
  efold (copy_part check_active upload_id source size) parts0 numbers w = (w', Ok parts) →
  ∃ answers, w_calls w' = w_calls w ++ copied_calls upload_id source size answers ∧ map fst answers = numbers
             ∧ map cp_number parts = map cp_number parts0 ++ numbers.
Proof.
  intros Hs. revert parts0 w. induction numbers as [|n numbers IH]; intros parts0 w; cbn.
  { intros [= <- <-]. exists []. by rewrite !app_nil_r. }
  intros E. apply ebind_ok in E as (w1 & parts1 & E1 & E).
  unfold copy_part, part_range in E1. run_ok E1. injection E1 as <- <-.
  apply (silent_calls _ _ _ _ Hs) in Hm. apply request_ok in Hm0 as [Ec _].
  destruct (IH _ _ E) as (answers & Ec' & Em & Ep).
  exists ((n, a0) :: answers). rewrite Ec', Ec, Hm, <- app_assoc. cbn.
  split; [done|]. split; [by f_equal|]. rewrite Ep, map_app. cbn. by rewrite <- app_assoc.
Qed.

Definition not_completed (c : call) : Prop := match c with CComplete _ (Ok _) | CCreate _ _ => False | _ => True end.

Lemma check_emits (p : call → Prop) : silent (check check_active) → emits p (check check_active).
Proof. apply emits_mono. done. Qed.

Lemma copy_parts_not_completed upload_id source size parts numbers :
  silent (check check_active) →
  emits not_completed (efold (copy_part check_active upload_id source size) parts numbers).
Proof.
  intros Hs. apply keeps_fold; [apply _|]. intros st n. apply keeps_bind; [apply _ | by apply check_emits |].
  intros []. unfold part_range. apply keeps_bind; [apply _| |intros a; keeps_all].
  by apply emits_request.
Qed.

(** What filling an upload asked of the provider. *)
Lemma fill_upload_calls upload_id source size token w w' r :
  silent (check check_active) →
  fill_upload check_active upload_id source size token w = (w', r) →
  ∃ new, w_calls w' = w_calls w ++ new ∧
    match r with
    | Ok v => ∃ answers c, new = copied_calls upload_id source size answers ++ [CComplete c (Ok v)]
                           ∧ map fst answers = part_numbers size ∧ cm_upload c = upload_id
                           ∧ map cp_number (cm_parts c) = part_numbers size
    | Raise _ => Forall not_completed new
    end.
Proof.
  intros Hs E. unfold fill_upload in E. apply ebind_cases in E as [(e & E & ->)|(w1 & parts & E1 & E)].
  { by apply (emits_calls not_completed) in E; [|apply copy_parts_not_completed]. }
  apply ebind_cases in E as [(e & E & ->)|(w2 & [] & E2 & E)].
  - apply (silent_calls _ _ _ _ Hs) in E. rewrite E.
    by apply (emits_calls not_completed) in E1; [|apply copy_parts_not_completed].
  - apply (silent_calls _ _ _ _ Hs) in E2. apply request_run in E as [E _].
    rewrite E, E2. destruct r as [v|e].
    + apply copy_parts_ok in E1 as (answers & -> & Em & Ep); [|done].
      eexists. rewrite <- app_assoc. split; [done|]. exists answers. eexists. by split.
    + apply (emits_calls not_completed) in E1 as (n & -> & Fn); [|by apply copy_parts_not_completed].
      exists (n ++ [CComplete {| cm_bucket := or_bucket source; cm_key := or_key source; cm_upload := upload_id;
                                 cm_parts := parts; cm_checksum_type := checksum_type_for token |} (Raise e)]).
      rewrite <- app_assoc. split; [done|]. apply Forall_app. split; [done|]. by repeat constructor.
Qed.

Lemma tagging_calls source (w : W) w' r :
  source_object_tagging source w = (w', r) → ∃ t, w_calls w' = w_calls w ++ [CTags source t].
Proof.
  unfold source_object_tagging. intros E. apply ebind_cases in E as [(e & E & ->)|(w1 & a & E1 & E)].
  - apply request_run in E as [-> _]. eauto.
  - injection E as <- _. apply request_run in E1 as [-> _]. eauto.
Qed.

(** The handler of a failed upload aborts it and raises. *)
Definition abort_and_raise (upload_id : string) (e : exn) : eff W (option string) :=
  catch (abort_multipart_upload upload_id)
    (fun _ => throw (RuntimeError "Multipart storage-class copy failed and its upload could not be aborted")) ;;;
  throw e.

Lemma abort_calls upload_id e w w' r :
  abort_and_raise upload_id e w = (w', r) →
  (∃ a, w_calls w' = w_calls w ++ [CAbort upload_id a]) ∧ ∃ e', r = Raise e'.
Proof.
  unfold abort_and_raise, ebind, catch, abort_multipart_upload, request.
  destruct (p_abort upload_id (w_cloud w)) as [c [[]|e1]]; cbn.
  - intros [= <- <-]. eauto.
  - destruct (catchable e1); intros [= <- <-]; eauto.
Qed.

Lemma truthy_cases o : truthy o = false → ∀ u, o = Some u → u = "".
Proof. intros H u ->. by destruct u. Qed.

(** A multipart copy to another storage class covers the object exactly and
    leaves no upload open.  When it returns, the parts it copied tile the bytes
    [0 .. size-1] of the exact source version once and in order, and the
    completed upload lists exactly them; when it raises, nothing was completed
    and an upload that was initiated is aborted by the last request made. *)
Theorem multipart_copy_covers_or_aborts source target size h token w w' r :
  silent (check check_active) →
  multipart_copy_storage_class check_active source target size h token w = (w', r) →
  ∃ new, w_calls w' = w_calls w ++ new ∧
    match r with
    | Ok v => ∃ t q u answers c,
        new = CTags source t :: CCreate q (Ok (Some u)) :: copied_calls u source size answers ++ [CComplete c (Ok v)]
        ∧ tiles 0 size (map (fun na => part_range size na.1) answers)
        ∧ cm_upload c = u ∧ map cp_number (cm_parts c) = map fst answers
    | Raise _ => (∀ q v, CComplete q (Ok v) ∉ new)
                 ∧ ∀ q u, CCreate q (Ok (Some u)) ∈ new → u ≠ "" → ∃ a, last new = Some (CAbort u a)
    end.
Proof.
  intros Hs E. unfold multipart_copy_storage_class in E.
  apply ebind_cases in E as [(e & E & ->)|(w1 & [] & [Hsize ->]%throw_if_ok & E)].
  { exists []. destruct (_ <=? _); [|done]. injection E as <- _. rewrite app_nil_r. by repeat split; intros ? ? ?%elem_of_nil. }
  apply ebind_cases in E as [(e & E & ->)|(w1 & [] & [_ ->]%throw_if_ok & E)].
  { exists []. destruct (_ <? _); [|done]. injection E as <- _. rewrite app_nil_r. by repeat split; intros ? ? ?%elem_of_nil. }
  apply ebind_cases in E as [(e & E & ->)|(w1 & tags & [t E1]%tagging_calls & E)].
  { apply tagging_calls in E as [t ->]. exists [CTags source t]. split; [done|]. split; intros q u; set_solver. }
  apply ebind_cases in E as [(e & E & ->)|(w2 & upload & E2 & E)].
  { apply request_run in E as [-> _]. rewrite E1, <- app_assoc. eexists. split; [done|]. split; intros q u; set_solver. }
  apply request_run in E2 as [E2 _]. rewrite E1, <- app_assoc in E2. cbn in E2.
  apply ebind_cases in E as [(e & E & ->)|(w3 & [] & [Ht ->]%throw_if_ok & E)].
  { destruct (truthy upload) eqn:Et; [done|]. injection E as <- _. eexists. split; [done|].
    split; [intros q v; set_solver|]. intros q u Hin Hu. exfalso. apply Hu.
    rewrite !elem_of_cons in Hin. destruct Hin as [?|[[= _ Hup]|?%elem_of_nil]]; [done | | done]. by eapply truthy_cases. }
  apply negb_false_iff in Ht. destruct upload as [u|]; [|done]. cbn in E.
  unfold catch_all in E. destruct (fill_upload _ _ _ _ _ _) as [w4 [v|e]] eqn:Ef.
  - injection E as <- <-. apply fill_upload_calls in Ef as (new & -> & answers & c & -> & Em & Eu & Ep); [|done].
    rewrite E2, <- app_assoc. eexists. split; [done|]. do 5 eexists. split; [done|].
    split; [|split; [done | congruence]]. rewrite <- map_map with (g := part_range size), Em.
    apply part_ranges_tile. unfold S3_SINGLE_COPY_MAX_BYTES in Hsize. lia.
  - apply fill_upload_calls in Ef as (new & Ec & Fn); [|done]. apply abort_calls in E as [[a Ea] [e' ->]].
    rewrite Ea, Ec, E2, <- !app_assoc. eexists. split; [done|]. rewrite Forall_forall in Fn. split.
    + intros q v Hin. rewrite !elem_of_app, !elem_of_cons in Hin.
      destruct Hin as [[?|[?|?%elem_of_nil]]|[Hin|[?|?%elem_of_nil]]]; try done. by apply (Fn _ Hin).
    + intros q u' Hin Hu. rewrite !elem_of_app, !elem_of_cons in Hin.
      destruct Hin as [[?|[[= _ <-]|?%elem_of_nil]]|[Hin|[?|?%elem_of_nil]]]; try done.
      * exists a. by rewrite app_assoc, last_snoc.
      * destruct (Fn _ Hin).
Qed.

(** ** The listing *)

(** The entries of one key in a page, under their version ids. *)
Definition exact_items (key : string) (l : list listed) : entries :=
  map (fun i => (or_default (li_version_id i) "", i)) (List.filter (fun i => bool_decide (li_key i = Some key)) l).

Definition clean (vs ms : entries) : Prop :=
  NoDup (map fst vs ++ map fst ms) ∧ Forall (fun v => v ≠ "" ∧ v ≠ "null") (map fst vs ++ map fst ms).

Lemma clean_swap vs ms : clean vs ms → clean ms vs.
Proof.
  intros [N F]. split; [by rewrite (Permutation_app_comm (map fst ms))|].
  rewrite Forall_app in *. tauto.
Qed.

Lemma has_version_false v (l : entries) : has_version v l = false → v ∉ map fst l.
Proof.
  unfold has_version. intros H Hin. rewrite map_fmap in Hin. apply list_elem_of_fmap in Hin as (e & -> & He).
  apply not_true_iff_false in H. apply H, existsb_exists. exists e. split; [by apply list_elem_of_In|].
  by apply bool_decide_eq_true.
Qed.

Lemma add_entry_exact key other l i l' :
  clean l other → add_entry key other l i = Ok l' → l' = l ++ exact_items key [i] ∧ clean l' other.
Proof.
  intros C. unfold add_entry, exact_items. cbn.
  destruct (bool_decide_reflect (li_key i = Some key)) as [Hk|Hk]; cbn.
  2: { intros [= <-]. by rewrite app_nil_r. }
  set (v := or_default (li_version_id i) ""). rewrite raise_if_bind_ok.
  rewrite !orb_false_iff, !bool_decide_eq_false.
  intros [[[[H1 H2] H3%has_version_false] H4%has_version_false] [= <-]]. split; [done|].
  destruct C as [N F]. split.
  - rewrite map_app, <- app_assoc. cbn. rewrite <- (Permutation_middle (map fst l)). apply NoDup_cons.
    split; [|done]. rewrite elem_of_app. tauto.
  - rewrite map_app, !Forall_app in *. cbn. rewrite Forall_singleton. tauto.
Qed.

Lemma add_entries_exact key other items l l' :
  clean l other → foldM_r (add_entry key other) l items = Ok l' →
  l' = l ++ exact_items key items ∧ clean l' other.
Proof.
  revert l. induction items as [|i items IH]; intros l C; cbn.
  { intros [= <-]. by rewrite app_nil_r. }
  intros E. apply bind_ok in E as (l1 & E1 & E). apply add_entry_exact in E1 as [-> C1]; [|done].
  apply IH in E as [-> C2]; [|done]. split; [|done]. rewrite <- app_assoc. f_equal.
  unfold exact_items. cbn. by destruct (bool_decide (li_key i = Some key)).
Qed.

Lemma add_entries_raise key other items l e :
  foldM_r (add_entry key other) l items = Raise e → e ≠ StillRunning.
Proof.
  revert l. induction items as [|i items IH]; intros l; [done|]. cbn. rewrite bind_raise.
  intros [E|(l1 & _ & E)]; [|by eapply IH]. unfold add_entry in E. destruct (negb _); [done|].
  apply bind_raise in E as [[_ ->]%raise_if_raise|(? & _ & E)]; done.
Qed.

Lemma add_page_exact key st pg st' :
  clean st.1 st.2 → add_page key st pg = Ok st' →
  st' = (st.1 ++ exact_items key (pg_versions pg), st.2 ++ exact_items key (pg_markers pg)) ∧ clean st'.1 st'.2.
Proof.
  intros C. unfold add_page. rewrite bind_ok. intros (vs & Ev & E). apply bind_ok in E as (ms & Em & [= <-]).
  apply add_entries_exact in Ev as [-> C1]; [|done].
  apply add_entries_exact in Em as [-> C2]; [|by apply clean_swap]. split; [done|]. by apply clean_swap.
Qed.

(** Every page but the last says that there are more. *)
Fixpoint paginated (l : list (list_request * page)) : Prop :=
  match l with
  | [] => False
  | [(_, pg)] => pg_truncated pg = Some false
  | (_, pg) :: (((q, _) :: _) as l) =>
      pg_truncated pg = Some true ∧ lr_key_marker q = pg_next_key pg ∧ paginated l
  end.

Definition listed_calls (pages : list (list_request * page)) : list call := map (fun x => CList x.1 (Ok x.2)) pages.

Lemma list_pages_exact fuel q st seen (w : W) w' st' :
  clean st.1 st.2 → list_pages fuel q st seen w = (w', Ok st') →
  ∃ pages, w_calls w' = w_calls w ++ listed_calls pages ∧ paginated pages ∧ head (map fst pages) = Some q
    ∧ Forall (fun x => lr_bucket x.1 = lr_bucket q ∧ lr_prefix x.1 = lr_prefix q) pages
    ∧ st' = (st.1 ++ concat (map (fun x => exact_items (lr_prefix q) (pg_versions x.2)) pages),
             st.2 ++ concat (map (fun x => exact_items (lr_prefix q) (pg_markers x.2)) pages))
    ∧ clean st'.1 st'.2.
Proof.
  revert q st seen w. induction fuel as [|fuel IH]; intros q st seen w C E; [done|]. cbn [list_pages] in E.
  apply ebind_ok in E as (w1 & pg & E1 & E). apply request_ok in E1 as [E1 _].
  destruct (pg_truncated pg) as [truncated|] eqn:Ht; [|done].
  apply ebind_ok in E as (w2 & st2 & [Ea ->]%lift_ok & E). apply add_page_exact in Ea as [-> C2]; [|done].
  destruct truncated; cbn [negb] in E.
  - run_ok E. apply IH in E as (pages & E & Hp & Hq & Hf & -> & C'); [|done]. cbn in *.
    exists ((q, pg) :: pages). rewrite E, E1, <- app_assoc. split; [done|].
    destruct pages as [|[q1 pg1] pages]; [done|]. injection Hq as Hq. split; [|split; [done|split]].
    + split; [done|]. split; [by rewrite Hq|done].
    + constructor; [done|]. exact Hf.
    + split; [cbn; by rewrite <- !app_assoc | exact C'].
  - injection E as <- <-. exists [(q, pg)]. rewrite E1. split; [done|]. split; [done|]. split; [done|].
    split; [by repeat constructor|]. split; [cbn; by rewrite !app_nil_r|done].
Qed.

(** What a listing that succeeded says: the pages were followed to the end and
    the entries of the key, in order, are what is returned; every id is proper
    and appears once among versions and delete markers. *)
Lemma object_version_entries_exact fuel bucket key (w : W) w' vs ms :
  object_version_entries fuel bucket key w = (w', Ok (vs, ms)) →
  ∃ pages, w_calls w' = w_calls w ++ listed_calls pages ∧ paginated pages
    ∧ Forall (fun x => lr_bucket x.1 = bucket ∧ lr_prefix x.1 = key) pages
    ∧ vs = concat (map (fun x => exact_items key (pg_versions x.2)) pages)
    ∧ ms = concat (map (fun x => exact_items key (pg_markers x.2)) pages)
    ∧ clean vs ms.
Proof.
  intros E. apply list_pages_exact in E as (pages & Ec & Hp & _ & Hf & [= -> ->] & C).
  - by exists pages.
  - split; constructor.
Qed.

(** A provider with finitely many continuation markers is listed in bounded time. *)
Lemma list_pages_terminates (markers : list (string * string)) fuel q st seen (w : W) :
  (∀ q p p' r, p_list q p = (p', r) →
     match r with
     | Ok pg => (py_str (pg_next_key pg), or_default (pg_next_version pg) "") ∈ markers
     | Raise e => e ≠ StillRunning
     end) →
  NoDup seen → seen ⊆ markers → (length markers < fuel + length seen)%nat →
  (list_pages fuel q st seen w).2 ≠ Raise StillRunning.
Proof.
  intros Hm. revert q st seen w. induction fuel as [|fuel IH]; intros q st seen w N Hs Hf.
  { exfalso. pose proof (submseteq_length _ _ (NoDup_submseteq _ _ N Hs)). lia. }
  cbn [list_pages]. unfold ebind at 1, list_object_versions, request.
  destruct (p_list q (w_cloud w)) as [p' [pg|e]] eqn:El; pose proof (Hm _ _ _ _ El) as Hl; cbn in Hl; [|cbn; congruence].
  destruct (pg_truncated pg) as [truncated|]; [|done].
  unfold ebind at 1, lift. destruct (add_page _ _ _) as [st2|e] eqn:Ea.
  - destruct truncated; [|done]. cbn [negb].
    destruct (negb (truthy (pg_next_key pg))); [done|]. unfold ebind at 1. cbn.
    destruct (bool_decide_reflect ((py_str (pg_next_key pg), or_default (pg_next_version pg) "") ∈ seen)); [done|].
    unfold ebind. cbn. apply IH; [by constructor | set_solver | cbn; lia].
  - cbn. intros [= ->]. unfold add_page in Ea. apply bind_raise in Ea as [Ea|(? & _ & Ea)].
    + by apply add_entries_raise in Ea.
    + apply bind_raise in Ea as [Ea|(? & _ & Ea)]; [by apply add_entries_raise in Ea | done].
Qed.

(** ** A destination that was believed *)

(** What the read-back of a destination has seen among the calls [seen]: a HEAD
    of that very version with the class and the size, and a proof of content,
    which is the provider's own full-object checksum, the composite checksum
    computed from the verified source, or the bytes themselves. *)
Record destination_proof (bucket key source version target : string) (size : Z) (expected : string)
    (expected_composite : option string) (seen : list call) : Prop := {
  dp_other : version ≠ source;
  dp_head : ∃ mode h, CHead {| hr_bucket := bucket; hr_key := key; hr_version := Some version; hr_checksum_mode := mode |} (Ok h) ∈ seen
      ∧ hd_delete_marker h = false ∧ hd_content_length h = Some size
      ∧ upper (if truthy (hd_storage_class h) then or_default (hd_storage_class h) "" else "STANDARD") = target
      ∧ (full_object_sha256_checksum h = Some expected
         ∨ hd_checksum_sha256 h = expected_composite ∧ truthy expected_composite = true
           ∧ hd_checksum_type h = Some "COMPOSITE"
         ∨ ∃ chunks, CGet {| or_bucket := bucket; or_key := key; or_version := version |} (Ok (Some (map Ok chunks))) ∈ seen
             ∧ b64encode (sha256 (concat chunks)) = expected);
}.

Lemma destination_proof_weaken bucket key source version target size expected composite seen seen' :
  seen ⊆ seen' → destination_proof bucket key source version target size expected composite seen →
  destination_proof bucket key source version target size expected composite seen'.
Proof.
  intros Hs [Ho (mode & h & Hh & Hm & Hl & Hc & Hp)]. split; [done|]. exists mode, h.
  repeat (split; [by auto|]). destruct Hp as [?|[?|(chunks & Hg & ?)]]; eauto 10.
Qed.

Lemma head_with_checksum_ok bucket key version (w : W) w' h :
  head_object_with_checksum bucket key version w = (w', Ok h) →
  ∃ mode new, w_calls w' = w_calls w ++ new
    ∧ CHead {| hr_bucket := bucket; hr_key := key; hr_version := version; hr_checksum_mode := mode |} (Ok h) ∈ new.
Proof.
  unfold head_object_with_checksum, catch. destruct (head_object _ w) as [w1 [h1|e]] eqn:E1; apply request_run in E1 as [E1 _].
  - intros [= <- <-]. rewrite E1. exists true. eexists. split; [done|]. set_solver.
  - destruct (catchable e); [|done]. intros E. apply request_ok in E as [-> _]. rewrite E1, <- app_assoc.
    exists false. eexists. split; [done|]. set_solver.
Qed.

Lemma read_chunks_ok chunks read (w : W) w' read' :
  silent (check check_active) → efold (read_chunk check_active) read chunks w = (w', Ok read') →
  w_calls w' = w_calls w ∧ ∃ cs, chunks = map Ok cs ∧ read' = read ++ concat cs.
Proof.
  intros Hs. revert read w. induction chunks as [|c chunks IH]; intros read w; cbn.
  { intros [= <- <-]. split; [done|]. exists []. by rewrite app_nil_r. }
  intros E. apply ebind_ok in E as (w1 & r1 & E1 & E). unfold read_chunk in E1.
  apply ebind_ok in E1 as (w2 & chunk & [-> ->]%lift_ok & E1). apply ebind_ok in E1 as (w3 & [] & E2 & E1).
  injection E1 as <- <-. apply (silent_calls _ _ _ _ Hs) in E2. apply IH in E as [Ec (cs & -> & ->)].
  rewrite Ec, E2. split; [done|]. exists (chunk :: cs). cbn. by rewrite app_assoc.
Qed.

Lemma sha256_version_ok o (w : W) w' text :
  silent (check check_active) → sha256_s3_version sha256 check_active o w = (w', Ok text) →
  ∃ cs, w_calls w' = w_calls w ++ [CGet o (Ok (Some (map Ok cs)))] ∧ text = b64encode (sha256 (concat cs)).
Proof.
  intros Hs E. apply ebind_ok in E as (w1 & answer & E1 & E). apply request_ok in E1 as [E1 _].
  destruct answer as [chunks|]; [|done]. apply ebind_ok in E as (w2 & read & E2 & [= <- <-]).
  apply read_chunks_ok in E2 as [-> (cs & -> & ->)]; [|done]. eauto.
Qed.

Lemma verify_destination_ok bucket key source candidate target size expected composite (w : W) w' version etag :
  silent (check check_active) → candidate ≠ "" →
  verify_storage_class_destination sha256 check_active bucket key source (Some candidate) target size
    (Some expected) composite w = (w', Ok (version, etag)) →
  version = candidate ∧ ∃ new, w_calls w' = w_calls w ++ new
    ∧ destination_proof bucket key source candidate target size expected composite new.
Proof.
  intros Hs Hc E. unfold verify_storage_class_destination in E.
  assert (Ht : truthy (Some candidate) = true) by (by destruct candidate).
  rewrite !Ht in E. run_ok E. injection E as <- <- <-.
  apply bool_decide_eq_false in Hb2. apply negb_false_iff, bool_decide_eq_true in Hb1. injection Hb1 as Hv.
  rewrite Hv in *. split; [done|]. apply head_with_checksum_ok in Hm as (mode & new & Ec & Hh).
  apply negb_false_iff, bool_decide_eq_true in Hb4, Hb5, Hb6. injection Hb6 as Hx.
  assert (Hd : ∃ more, w_calls w1 = w_calls w0 ++ more
    ∧ (full_object_sha256_checksum a = Some expected
         ∨ hd_checksum_sha256 a = composite ∧ truthy composite = true ∧ hd_checksum_type a = Some "COMPOSITE"
         ∨ ∃ chunks, CGet {| or_bucket := bucket; or_key := key; or_version := candidate |} (Ok (Some (map Ok chunks))) ∈ more
             ∧ b64encode (sha256 (concat chunks)) = expected)).
  { unfold destination_checksum in Hm0. cbn in Hm0. rewrite Hx in Hm0.
    match type of Hm0 with match ?b with _ => _ end _ = _ => destruct b as [text|] eqn:Eb end.
    - injection Hm0 as <- <-. exists []. rewrite app_nil_r. split; [done|].
      destruct (truthy composite && _) eqn:Et; [|left; congruence].
      apply andb_true_iff in Et as [Et1 Et2%bool_decide_eq_true]. right; left.
      destruct (bool_decide_reflect (hd_checksum_sha256 a = composite)); [done|discriminate Eb].
    - apply sha256_version_ok in Hm0 as (cs & -> & Hcs); [|done]. eexists. split; [done|]. right; right.
      exists cs. split; [set_solver | done]. }
  destruct Hd as (more & -> & Hd). exists (new ++ more). rewrite Ec, <- app_assoc. split; [done|].
  split; [done|]. exists mode, a. split; [set_solver|]. repeat (split; [done|]).
  destruct Hd as [?|[?|(chunks & Hg & ?)]]; [by left | by right; left | right; right; exists chunks; set_solver].
Qed.
End copy_facts.

(** ** Witnesses *)
Definition w_head : head_answer :=
  {| hd_version_id := None; hd_delete_marker := false; hd_content_length := None; hd_storage_class := None;
     hd_restore := None; hd_metadata := None; hd_headers := []; hd_checksum_sha256 := None;
     hd_checksum_type := None; hd_checksum_crc32 := None; hd_etag := None |}.

(** A provider whose only state is the chunks of the object it serves. *)
Definition w_provider : Provider (list bytes) := {|
  p_list q p := (p, Raise (RuntimeError "no listing"));
  p_head q p := (p, Ok w_head);
  p_get o p := (p, Ok (Some (map Ok p)));
  p_tags o p := (p, Ok []);
  p_delete o p := (p, Ok tt);
  p_copy q p := (p, Ok (Some "v2"));
  p_create q p := (p, Ok (Some "upload-1"));
  p_part q p := (p, if pt_number q =? 7 then Raise (ClientError "SlowDown" 503) else
                      Ok {| pa_etag := Some "e"; pa_checksums := [] |});
  p_complete q p := (p, Ok (Some "v2"));
  p_abort u p := (p, Ok tt);
  p_delete_batch q p := (p, Ok []);
  p_restore q p := (p, Ok tt);
|}.
Definition w_environment {D} : Environment D := {|
  others _ db := db; clock n := Z.of_nat n; uuid _ := "uuid"; cancelled _ _ := false;
  heartbeat_lost _ := false; stopping _ := false; lock_free _ := true;
|}.
Definition w_world (p : list bytes) : world unit (list bytes) :=
  {| w_db := tt; w_cloud := p; w_calls := []; w_tables := []; w_steps := 0; w_lost := false; w_ready := false; w_echoes := [] |}.
Definition w_source : object_ref := {| or_bucket := "bucket"; or_key := "files/a"; or_version := "v1" |}.

(** [abc] streamed as [a] and [bc], with the first byte as its digest. *)
Lemma composite_ignores_chunk_boundaries_witness :
  (multipart_source_checksum (D := unit) (P := list bytes) (Provider0 := w_provider)
     (take 1) (fun _ => eret tt) w_source 3 "YQ==" (w_world [[x61]; [x62; x63]])).2 = Ok "YQ==-1".
Proof.
  rewrite (composite_ignores_chunk_boundaries (take 1) (fun _ => eret tt) w_source 3 "YQ=="
             (w_world [[x61]; [x62; x63]]) [[x61]; [x62; x63]] [[x61]; [x62; x63]]).
  - vm_compute. reflexivity.
  - intros m w. exists w. reflexivity.
  - reflexivity.
  - by repeat constructor.
Defined.

(** Six gibibytes; the seventh part fails, and the upload is aborted. *)
Definition w_copy : eff (world unit (list bytes)) (option string) :=
  multipart_copy_storage_class (Provider0 := w_provider) None w_source "GLACIER" (6 * 1024 ^ 3) w_head (Some "token").

Lemma multipart_copy_covers_or_aborts_witness :
  (w_copy (w_world [])).2 = Raise (ClientError "SlowDown" 503)
  ∧ ∃ a, last (w_calls (w_copy (w_world [])).1) = Some (CAbort "upload-1" a).
Proof.
  split; [vm_compute; reflexivity|].
  destruct (multipart_copy_covers_or_aborts (Provider0 := w_provider)
              None w_source "GLACIER" (6 * 1024 ^ 3) w_head (Some "token") (w_world [])
              (w_copy (w_world [])).1 (Raise (ClientError "SlowDown" 503))) as (new & Ec & _ & Ha).
  - by apply emits_silent.
  - vm_compute. reflexivity.
  - rewrite Ec. cbn. eapply (Ha _ "upload-1"); [|done].
    change new with ([] ++ new). change ([] : list call) with (w_calls (w_world [])). rewrite <- Ec.
    vm_compute. right. left.
Defined.
