(* ===== verification/WorkerJobs.v ===== *)
(** * WorkerJobs: the seams between the worker and the Job rows

    Models the first part of [src/app/storage.py]: the claim context of a Job,
    the checkpoints that stop work when the process stops, the Job is cancelled
    or its lease is lost ([ensure_job_active],
    [ensure_job_claim_owned_in_transaction]), and the two writes of a running Job
    ([set_job], [set_job_progress]), which are compare-and-swap on the lease.

    [worker_db] are all tables the worker touches.  The texts of messages and
    what [upload_remediation.transition] does for uploads come from [Messages]
    and [UploadTransitions].  Counters of metrics are left out. *)
From S2P Require Import Prelude Sql Schema DirtyMarks JobScheduler JobClaims Json Lifecycle Notifications UploadTables Effects S3Client.

(** ** Tables *)

(** A row of [vault_class_moves]. *)
Record class_move := {
  cm_job_id : Z;
  cm_token : string;
  cm_source_archive_id : string;
  cm_source_version_id : string;
  cm_object_key : string;
  cm_size : Z;
  cm_sha256 : string;
  cm_destination_version_id : option string;
  cm_composite_checksum : option string;
  cm_destination_archive_id : option string;
  cm_copy_started : bool;
  cm_source_deleted : bool;
}.

(** The row of [cloud_preflight_state]. *)
Record gate_row := {
  gr_status : string;
  gr_remediation : option string;
  gr_failure_count : Z;
  gr_next_probe_at : option timestamp;
}.

Record worker_db := {
  d_catalog : catalog;
  d_inbox : inbox;
  d_plans : list vault_plan_row;
  d_uploads : upload_tables;
  d_moves : list class_move;
  d_gate : option gate_row;
}.

Definition set_catalog (c : catalog) (d : worker_db) : worker_db :=
  {| d_catalog := c; d_inbox := d_inbox d; d_plans := d_plans d; d_uploads := d_uploads d;
     d_moves := d_moves d; d_gate := d_gate d |}.
Definition set_inbox (b : inbox) (d : worker_db) : worker_db :=
  {| d_catalog := d_catalog d; d_inbox := b; d_plans := d_plans d; d_uploads := d_uploads d;
     d_moves := d_moves d; d_gate := d_gate d |}.
Definition set_moves (l : list class_move) (d : worker_db) : worker_db :=
  {| d_catalog := d_catalog d; d_inbox := d_inbox d; d_plans := d_plans d; d_uploads := d_uploads d;
     d_moves := l; d_gate := d_gate d |}.
Definition set_gate (g : gate_row) (d : worker_db) : worker_db :=
  {| d_catalog := d_catalog d; d_inbox := d_inbox d; d_plans := d_plans d; d_uploads := d_uploads d;
     d_moves := d_moves d; d_gate := Some g |}.
Definition set_uploads (t : upload_tables) (d : worker_db) : worker_db :=
  {| d_catalog := d_catalog d; d_inbox := d_inbox d; d_plans := d_plans d; d_uploads := t;
     d_moves := d_moves d; d_gate := d_gate d |}.
Definition on_catalog (f : catalog → catalog) (d : worker_db) : worker_db := set_catalog (f (d_catalog d)) d.

Definition claims_of (d : worker_db) : claim_db :=
  {| c_jobs := t_jobs (d_catalog d); c_vaults := t_vaults (d_catalog d); c_policies := t_policies (d_catalog d) |}.

(** A claimed Job as the worker holds it, with the bucket, the root and the prefix of
    its Vault. *)
Record claimed_job := { cj_row : job; cj_bucket : string; cj_source_root : string; cj_s3_prefix : string }.

(** [_worker_claim.active]: a context exists when the Job has a token. *)
Definition job_claim_context (job : claimed_job) : option (Z * string) :=
  if truthy (j_claim_token (cj_row job)) then Some (j_id (cj_row job), or_default (j_claim_token (cj_row job)) "") else None.

(** ** Interfaces *)
Class Messages := {
  message_text : string → message_params → string;   (* i18n.translate in the default locale *)
  format_message_params : message_params → string;
  notification_text : string → message_params → string;
  weekly_summary_text : message_params → string;
  resolved_upload : job → bool;   (* [RESOLUTION_SQL] *)
  smtp_configured : bool;
}.

(** [upload_remediation.transition]: what an upload's change of state means for
    its target; it may refuse. *)
Class UploadTransitions := {
  upload_transition : worker_db → Z → string → timestamp → option string → result worker_db;
}.

Definition JOB_CLAIM_LEASE_SECONDS : Z := 5 * 60.
Definition JOB_LEASE_HELD_STATUSES : list string := ["downloading"; "uploading"; "verifying"; "cleaning"].

Definition claim_expiry_at (at_ : timestamp) : timestamp := at_ + seconds JOB_CLAIM_LEASE_SECONDS.

Section worker.
Context {P : Type} `{!Provider P} `{!Environment worker_db} `{!Messages} `{!UploadTransitions}.
Notation W := (world worker_db P).
Context (active : option (Z * string)).

Definition claim_token_for (job_id : Z) : option string :=
  match active with
  | Some (i, token) => if i =b job_id then Some token else None
  | None => None
  end.

Definition now_iso : eff W timestamp := observe clock.
Definition job_cancelled (job_id : Z) : eff W bool := observe (fun n => cancelled n job_id).

(** The event exists only inside the context of this Job. *)
Definition claim_is_lost (job_id : Z) : eff W bool :=
  own <~ gets w_lost ;;
  beat <~ observe heartbeat_lost ;;
  eret (is_some (claim_token_for job_id) && (own || beat)).

Definition mark_claim_lost (job_id : Z) : eff W unit :=
  modify (fun w => {| w_db := w_db w; w_cloud := w_cloud w; w_calls := w_calls w; w_tables := w_tables w; w_steps := w_steps w;
                      w_lost := w_lost w || is_some (claim_token_for job_id); w_ready := w_ready w; w_echoes := w_echoes w |}).

Definition shutdown_checkpoint : eff W unit :=
  stop <~ observe stopping ;; throw_if stop (WorkerStopping "Process shutdown requested").

(** [ArchiveCatalog.renew_job_claim] inside the current transaction. *)
Definition renew_in_transaction (job_id : Z) (token : string) : eff W (option job) :=
  stamp <~ now_iso ;;
  in_db (fun d =>
    let (c, row) := renew_job_claim (claims_of d) job_id token stamp (claim_expiry_at stamp) in
    Ok (on_catalog (set_jobs (c_jobs c)) d, row)).

Definition renew_claim_if_owned (job_id : Z) (token : string) : eff W (option job) :=
  transaction (renew_in_transaction job_id token).

(** Both checkpoints raise the two signals first. *)
Definition raise_signals (job_id : Z) (message : string) : eff W unit :=
  shutdown_checkpoint ;;;
  gone <~ job_cancelled job_id ;;
  throw! OperationCancelled message when gone ;;
  lost <~ claim_is_lost job_id ;;
  throw_if lost (JobLeaseLost message).

Definition require_renewed (job_id : Z) (message : string) (row : option job) : eff W unit :=
  match row with
  | Some _ => eret tt
  | None => mark_claim_lost job_id ;;; throw (JobLeaseLost message)
  end.

Definition ensure_job_active (job_id : Z) (message : string) : eff W unit :=
  raise_signals job_id message ;;;
  match claim_token_for job_id with
  | Some token =>
      if truthy (Some token)
      then row <~ renew_claim_if_owned job_id token ;; require_renewed job_id message row
      else eret tt
  | None => eret tt
  end.

Definition ensure_job_claim_owned_in_transaction (job : claimed_job) (message : string) : eff W unit :=
  let job_id := j_id (cj_row job) in
  raise_signals job_id message ;;;
  if truthy (j_claim_token (cj_row job))
  then row <~ renew_in_transaction job_id (or_default (j_claim_token (cj_row job)) "") ;; require_renewed job_id message row
  else eret tt.

(** ** Writing the Job row *)
Definition set_job_row (status : string) (message : string) (message_key params : option string) (at_ : timestamp)
    (j : job) : job :=
  let j' := Schema.set_status status (Some message) message_key at_ j in
  {| j_id := j_id j'; j_vault_id := j_vault_id j'; j_vault_file_id := j_vault_file_id j';
     j_archive_version_id := j_archive_version_id j'; j_path := j_path j'; j_action := j_action j';
     j_status := j_status j'; j_origin := j_origin j'; j_message := j_message j';
     j_message_key := j_message_key j'; j_message_params := params;
     j_requested_by := j_requested_by j'; j_requested_at := j_requested_at j';
     j_updated_at := j_updated_at j'; j_group_id := j_group_id j'; j_group_path := j_group_path j';
     j_total_bytes := j_total_bytes j'; j_transferred_bytes := j_transferred_bytes j';
     j_reason := j_reason j'; j_confirmation_phrase := j_confirmation_phrase j';
     j_restore_tier := j_restore_tier j'; j_restore_days := j_restore_days j';
     j_target_storage_class := j_target_storage_class j';
     j_upload_verification_requested := j_upload_verification_requested j';
     j_pending_until := j_pending_until j'; j_retry_after := j_retry_after j';
     j_claim_token := j_claim_token j'; j_claimed_at := j_claimed_at j';
     j_claim_expires_at := j_claim_expires_at j'; j_upload := j_upload j' |}.

(** A held status keeps the lease and extends it, any other gives it back. *)
Definition set_lease (held : bool) (at_ : timestamp) (j : job) : job :=
  if held then extend_claim (claim_expiry_at at_) j else set_claim None None None j.

Definition is_terminal (status : string) : bool := status ∈b ["completed"; "failed"].

(** [terminal_notification_status='pending']. *)
Definition terminal_pending (job_id : Z) (d : worker_db) : worker_db :=
  let b := d_inbox d in
  if job_id ∈b ib_terminal_pending b then d
  else set_inbox {| ib_users := ib_users b; ib_notifications := ib_notifications b; ib_deliveries := ib_deliveries b;
                    ib_next_notification := ib_next_notification b; ib_next_delivery := ib_next_delivery b;
                    ib_terminal_pending := ib_terminal_pending b ++ [job_id] |} d.

(** The UPDATE of [jobs]: the lease and, for a terminal status, the pending
    notification are part of it. *)
Definition job_write (job_id : Z) (token : option string) (status message : string) (message_key params : option string)
    (at_ : timestamp) (d : worker_db) : worker_db * bool :=
  let held := status ∈b JOB_LEASE_HELD_STATUSES in
  let p := match token with
           | Some t => renew_where job_id t at_
           | None => fun j => j_id j =b job_id
           end in
  let f j := let j := set_job_row status message message_key params at_ j in
             if is_some token then set_lease held at_ j else j in
  let jobs := t_jobs (d_catalog d) in
  let updated := exists_row p jobs in
  let d := on_catalog (set_jobs (update_where p f jobs)) d in
  (if updated && is_terminal status then terminal_pending job_id d else d, updated).

Definition dirty_job_protection (job_id : Z) (d : worker_db) : worker_db :=
  match fetchone (fun j => (j_id j =b job_id) && (j_action j =b "upload")) (t_jobs (d_catalog d)) with
  | Some j => on_catalog (mark_path_dirty (j_vault_id j) (Some (j_path j))) d
  | None => d
  end.

Definition set_job_in_transaction (job_id : Z) (status message : string) (message_key : option string)
    (params : message_params) (suspension : option string) (at_ : timestamp) (d : worker_db) : result (worker_db * bool) :=
  let action := j_action <$> fetchone (fun j => j_id j =b job_id) (t_jobs (d_catalog d)) in
  let token := if truthy (claim_token_for job_id) then claim_token_for job_id else None in
  let '(d, updated) := job_write job_id token status message message_key
                         (if truthy message_key then Some (format_message_params params) else None) at_ d in
  d ← (if updated && bool_decide (action = Some "upload")
       then d ← upload_transition d job_id status at_ suspension; Ok (dirty_job_protection job_id d)
       else Ok d);
  Ok (if updated && is_terminal status
      then set_inbox (enqueue_job_terminal_notification_best_effort notification_text weekly_summary_text resolved_upload
                        smtp_configured (d_catalog d) (d_inbox d) job_id at_).1 d
      else d, updated).

Definition set_job (job_id : Z) (status message : string) (message_key : option string) (params : message_params)
    (suspension : option string) : eff W bool :=
  let message := if truthy message_key && (message =b "") then message_text (or_default message_key "") params else message in
  stamp <~ now_iso ;;
  lost <~ claim_is_lost job_id ;;
  if lost : bool then eret false
  else transaction (in_db (set_job_in_transaction job_id status message message_key params suspension stamp)).

Definition progress_row (bytes : Z) (at_ : timestamp) (j : job) : job :=
  {| j_id := j_id j; j_vault_id := j_vault_id j; j_vault_file_id := j_vault_file_id j;
     j_archive_version_id := j_archive_version_id j; j_path := j_path j; j_action := j_action j;
     j_status := j_status j; j_origin := j_origin j; j_message := j_message j;
     j_message_key := j_message_key j; j_message_params := j_message_params j;
     j_requested_by := j_requested_by j; j_requested_at := j_requested_at j;
     j_updated_at := at_; j_group_id := j_group_id j; j_group_path := j_group_path j;
     j_total_bytes := j_total_bytes j; j_transferred_bytes := Z.max 0 bytes;
     j_reason := j_reason j; j_confirmation_phrase := j_confirmation_phrase j;
     j_restore_tier := j_restore_tier j; j_restore_days := j_restore_days j;
     j_target_storage_class := j_target_storage_class j;
     j_upload_verification_requested := j_upload_verification_requested j;
     j_pending_until := j_pending_until j; j_retry_after := j_retry_after j;
     j_claim_token := j_claim_token j; j_claimed_at := j_claimed_at j;
     j_claim_expires_at := j_claim_expires_at j; j_upload := j_upload j |}.

Definition set_job_progress (job_id : Z) (transferred_bytes : Z) (claim_token : option string) : eff W bool :=
  stamp <~ now_iso ;;
  lost <~ claim_is_lost job_id ;;
  if lost : bool then eret false
  else
    let token := if truthy claim_token then claim_token else claim_token_for job_id in
    transaction (in_db (fun d =>
      let p := if truthy token then renew_where job_id (or_default token "") stamp else fun j => j_id j =b job_id in
      let f j := if truthy token then extend_claim (claim_expiry_at stamp) (progress_row transferred_bytes stamp j)
                 else progress_row transferred_bytes stamp j in
      let jobs := t_jobs (d_catalog d) in
      Ok (on_catalog (set_jobs (update_where p f jobs)) d, exists_row p jobs))).

(** ** The seams make no request *)
Context (p : call → Prop).

Lemma renew_in_transaction_silent job_id token : keeps (grows p) (renew_in_transaction job_id token).
Proof. unfold renew_in_transaction, now_iso. emits_all. Qed.

Lemma raise_signals_silent job_id message : keeps (grows p) (raise_signals job_id message).
Proof. unfold raise_signals, shutdown_checkpoint, job_cancelled, claim_is_lost. emits_all. Qed.

Lemma require_renewed_silent job_id message row : keeps (grows p) (require_renewed job_id message row).
Proof. unfold require_renewed, mark_claim_lost. emits_all. Qed.

#[local] Hint Resolve renew_in_transaction_silent raise_signals_silent require_renewed_silent : eff.

Lemma ensure_job_active_silent job_id message : keeps (grows p) (ensure_job_active job_id message).
Proof. unfold ensure_job_active, renew_claim_if_owned. emits_all. Qed.

Lemma claim_owned_silent job message : keeps (grows p) (ensure_job_claim_owned_in_transaction job message).
Proof. unfold ensure_job_claim_owned_in_transaction. emits_all. Qed.

Lemma set_job_silent job_id status message key params suspension :
  keeps (grows p) (set_job job_id status message key params suspension).
Proof. unfold set_job, now_iso, claim_is_lost. emits_all. Qed.

Lemma set_job_progress_silent job_id bytes token : keeps (grows p) (set_job_progress job_id bytes token).
Proof. unfold set_job_progress, now_iso, claim_is_lost. emits_all. Qed.
End worker.

#[export] Hint Resolve ensure_job_active_silent claim_owned_silent set_job_silent set_job_progress_silent : eff.

(** ** What the fences establish *)
Section fences.
Context {P : Type} `{!Provider P} `{!Environment worker_db} `{!Messages} `{!UploadTransitions}.
Notation W := (world worker_db P).

Lemma renew_ok i token (w : W) w' row :
  renew_in_transaction i token w = (w', Ok row) →
  (∃ jobs, w_db w' = on_catalog (set_jobs jobs) (w_db w))
  ∧ ∀ j, row = Some j → ∃ j', j' ∈ t_jobs (d_catalog (w_db w')) ∧ j_id j' = i ∧ j_claim_token j' = Some token ∧ job_is_active j' = true.
Proof.
  unfold renew_in_transaction, now_iso. intros E. apply ebind_ok in E as (w1 & at_ & [= <- <-] & E).
  unfold in_db in E. cbn in E. injection E as <- <-. split; [eauto|]. intros j Hj. cbn in *.
  destruct (List.find _ _) as [j0|] eqn:Ef; [|done]. apply (fetchone_some (renew_where i token _)) in Ef as [Hin Hp].
  unfold renew_where in Hp. rewrite !andb_true_iff, !bool_decide_eq_true in Hp. destruct Hp as [[[Hi Ht] Hl] Ha].
  exists (extend_claim (claim_expiry_at (clock (w_steps w))) j0). split; [|by repeat split].
  apply elem_of_update_where. exists j0. split; [done|]. unfold renew_where.
  by rewrite Hi, Ht, Hl, Ha, !bool_decide_eq_true_2.
Qed.

#[local] Instance same_db : PreOrder (fun w w' : W => w_db w' = w_db w).
Proof. split; [done | congruence]. Qed.

Lemma raise_signals_db active_ i message (w : W) w' :
  raise_signals active_ i message w = (w', Ok tt) → w_db w' = w_db w.
Proof.
  assert (Hk : keeps (fun w w' : W => w_db w' = w_db w) (raise_signals active_ i message)).
  { unfold raise_signals, shutdown_checkpoint, job_cancelled, claim_is_lost.
    repeat first [keeps_step | apply keeps_throw_if; apply _ | by intros ?]. }
  intros E. specialize (Hk w). by rewrite E in Hk.
Qed.

Lemma claim_owned_ok context job message (w : W) w' :
  ensure_job_claim_owned_in_transaction context job message w = (w', Ok tt) →
  (w_db w' = w_db w ∨ ∃ jobs, w_db w' = on_catalog (set_jobs jobs) (w_db w))
  ∧ (truthy (j_claim_token (cj_row job)) = true →
     ∃ j, j ∈ t_jobs (d_catalog (w_db w')) ∧ j_id j = j_id (cj_row job) ∧ j_claim_token j = j_claim_token (cj_row job) ∧ job_is_active j = true).
Proof.
  unfold ensure_job_claim_owned_in_transaction. intros E. apply ebind_ok in E as (w1 & [] & E1 & E).
  apply raise_signals_db in E1. destruct (truthy (j_claim_token (cj_row job))) eqn:Ht.
  - apply ebind_ok in E as (w2 & row & E2 & E). apply renew_ok in E2 as [Hj Hr]. destruct row as [j|]; [|by run_ok E].
    injection E as <-. rewrite <- E1. split; [by right|]. intros _. destruct (Hr j eq_refl) as (j' & Hin & Hi & Htk & Ha).
    exists j'. split; [done|]. split; [done|]. split; [|done]. rewrite Htk. by destruct (j_claim_token (cj_row job)).
  - injection E as <-. split; [by left | done].
Qed.
End fences.

(** ** Concrete instances for witnesses *)
Definition w_messages : Messages := {|
  message_text key _ := key; format_message_params _ := "{}"; notification_text key _ := key;
  weekly_summary_text _ := "summary"; resolved_upload _ := false; smtp_configured := false;
|}.
Definition w_transitions : UploadTransitions := {| upload_transition d _ _ _ _ := Ok d |}.
Definition w_inbox : inbox :=
  {| ib_users := [1]; ib_notifications := []; ib_deliveries := []; ib_next_notification := 1; ib_next_delivery := 1;
     ib_terminal_pending := [] |}.
Definition w_worker_db (c : catalog) : worker_db :=
  {| d_catalog := c; d_inbox := w_inbox; d_plans := []; d_uploads := no_uploads; d_moves := []; d_gate := None |}.
