(* ===== verification/LocalFiles.v ===== *)
(** * LocalFiles: careful reading and moving of Local Copies

    Models [src/app/services/local_files.py] (hashing with change detection, the
    way back of a claimed file), [inspect_entry] of [fs_preflight.py],
    [local_observation.py] (the cache of the application's own changes), the
    directory identities of [vault_relocation.py] and the fences of
    [src/app/storage.py] built on them.  The disk is a parameter ([Disk]); closing
    a descriptor and the locks of the process are left out.  [Host] is what the
    operating system says about paths and mounts at a step.  Exceptions that quote
    another one keep only their own text. *)
From S2P Require Import Prelude Sql PyString VaultPaths Schema CloudDeletion Fnmatch Effects S3Client S3Copy WorkerJobs.
From stdpp Require Import pretty.
From Stdlib Require Import Strings.Byte.
Open Scope Z_scope.

(** [VaultLocalAccess]. *)
Record volume_access := { ac_allowed : bool; ac_health : string }.

Class Host := {
  abspath : string → path;   (* [os.path.abspath], lexical *)
  host_view : nat → fs_view;
  vault_local_access : nat → string → volume_access;
}.

(** [hexdigest()]. *)
Definition hex_digit (n : N) : Ascii.ascii := Ascii.ascii_of_N (if (n <? 10)%N then 48 + n else 87 + n)%N.
Fixpoint hexdigest (l : bytes) : string :=
  match l with
  | [] => ""
  | b :: l => String (hex_digit (Byte.to_N b / 16)) (String (hex_digit (Byte.to_N b mod 16)) (hexdigest l))
  end.

Definition is_missing (e : exn) : bool := bool_decide (e = OSError "ENOENT").

(** [(st_dev, st_ino, st_size, st_mtime_ns)]. *)
Definition same_content_stat (a b : file_stat) : bool :=
  (sx_dev a =? sx_dev b) && (sx_ino a =? sx_ino b) && (sx_size a =? sx_size b) && (sx_mtime_ns a =? sx_mtime_ns b).

Definition with_name (p : path) (name : string) : path := removelast p ++ [name].
Definition name_of (p : path) : string := or_default (last p) "".
Definition parent_of (p : path) : path := removelast p.

Definition MAX_ECHOES : nat := 4096.

(** [json.dumps] of the identity, with sorted keys and no spaces. *)
Definition quoted_text (s : string) : string := quoted s.
Definition identity_payload (s : file_stat) : string :=
  "{" +:+ quoted_text "dev" +:+ ":" +:+ pretty (sx_dev s) +:+ "," +:+ quoted_text "ino" +:+ ":" +:+ pretty (sx_ino s)
  +:+ "," +:+ quoted_text "version" +:+ ":" +:+ quoted_text ROOT_IDENTITY_VERSION +:+ "}".

Definition text_bytes (s : string) : bytes := map Ascii.byte_of_ascii (String.list_ascii_of_string s).

Definition identity_from_stat (sha256 : bytes → bytes) (s : file_stat) : result string :=
  raise! VaultRelocationError "not_directory" when sx_kind s <>b KDirectory;
  raise! VaultRelocationError "identity_ambiguous" when (sx_ino s =? 0) || (sx_dev s <? 0);
  Ok (hexdigest (sha256 (text_bytes (identity_payload s)))).

(** The entry of the echo cache of a path. *)
Definition echo_of (echoes : list (Z * string * (file_stat * string))) (key : Z * string) : option (file_stat * string) :=
  snd <$> List.find (fun e => bool_decide (e.1 = key)) echoes.

Definition without_echo (key : Z * string) (echoes : list (Z * string * (file_stat * string))) :=
  List.filter (fun e => negb (bool_decide (e.1 = key))) echoes.

Section files.
Context {P D : Type} `{!Disk P} `{!Environment D} `{!Host}.
Context (sha256 : bytes → bytes).
Notation W := (world D P).

(** [os.path.lexists]. *)
Definition lexists (p : path) : eff W bool :=
  catch_if is_os_error (lstat p ;;; eret true) (fun _ => eret false).

(** [p.lstat()] where only a missing entry is an answer. *)
Definition entry_exists (p : path) : eff W bool :=
  catch_if is_missing (lstat p ;;; eret true) (fun _ => eret false).

Definition append_chunk (read : bytes) (c : result bytes) : eff W bytes := chunk <~ lift c ;; eret (read ++ chunk).

Definition hash_stable_regular_file (p : path) : eff W (string * file_stat) :=
  before <~ lstat p ;;
  throw! RuntimeError "Local file is not a regular file" when sx_kind before <>b KRegular ;;
  fd <~ os_open p ;;
  opened <~ fstat fd ;;
  throw! RuntimeError "Local file changed since fingerprinting" when
    (sx_kind opened <>b KRegular) || negb (same_content_stat opened before) ;;
  chunks <~ read_all fd ;;
  content <~ efold append_chunk [] (until_empty chunks) ;;
  after <~ fstat fd ;;
  throw! RuntimeError "Local file changed since fingerprinting" when negb (same_content_stat after before) ;;
  eret (hexdigest (sha256 content), after).

(** The link that puts a claimed file back, never over another one. *)
Definition link_back (claimed target : path) : eff W bool :=
  catch_if is_os_error (os_link claimed target ;;; eret true)
    (fun e => if bool_decide (e = OSError "EEXIST") then eret false
              else there <~ entry_exists claimed ;;
                   if there : bool then eret false
                   else throw (RuntimeError "Cleanup claim disappeared while restoring local content")).

Definition restore_claimed_local_copy (claimed target : path) : eff W bool :=
  there <~ entry_exists claimed ;;
  if negb there then eret true
  else
    linked <~ link_back claimed target ;;
    if linked : bool then unlink claimed ;;; eret true else eret false.

Definition local_stat_unchanged (p : path) (previous : file_stat) : eff W bool :=
  catch_if is_os_error
    (current <~ lstat p ;; eret (same_content_stat current previous && (sx_ctime_ns current =? sx_ctime_ns previous)))
    (fun _ => eret false).

(** [None] for a directory. *)
Definition inspect_entry (p : path) : eff W (option (file_type * file_stat)) :=
  info <~ lstat p ;;
  match sx_kind info with
  | KSymlink => eret (Some (Symlink, info))
  | KDirectory => eret None
  | KRegular =>
      fd <~ os_open p ;;
      opened <~ fstat fd ;;
      throw! OSError "Local file changed during readability check" when
        (sx_kind opened <>b KRegular) || negb ((sx_dev opened =? sx_dev info) && (sx_ino opened =? sx_ino info)) ;;
      read_byte fd ;;;
      eret (Some (Regular, info))
  | KOther => eret (Some (OtherType, info))
  end.

(** ** The cache of own changes *)
Definition set_echoes (l : list (Z * string * (file_stat * string))) : eff W unit :=
  modify (fun w => {| w_db := w_db w; w_cloud := w_cloud w; w_calls := w_calls w; w_tables := w_tables w; w_steps := w_steps w;
                      w_lost := w_lost w; w_ready := w_ready w; w_echoes := l |}).

Definition remember (vault_id : Z) (relative : string) (info : file_stat) (digest : string) : eff W unit :=
  echoes <~ gets w_echoes ;;
  let l := without_echo (vault_id, relative) echoes ++ [(vault_id, relative, (info, digest))] in
  set_echoes (drop (length l - MAX_ECHOES) l).

(** Whether the file still is what the cache remembers. *)
Definition echo_matches (expected : file_stat * string) (p : path) : eff W bool :=
  catch_if (fun e => is_os_error e || is_runtime_error e)
    (now <~ lstat p ;;
     if bool_decide (now = expected.1)
     then pat! (digest, info) <~ hash_stable_regular_file p ;; eret ((digest =b expected.2) && bool_decide (info = expected.1))
     else eret false)
    (fun _ => eret false).

Definition consume (vault_id : Z) (relative : string) (p : path) : eff W bool :=
  echoes <~ gets w_echoes ;;
  match echo_of echoes (vault_id, relative) with
  | None => eret false
  | Some expected =>
      matches <~ echo_matches expected p ;;
      echoes <~ gets w_echoes ;;
      if bool_decide (echo_of echoes (vault_id, relative) = Some expected)
      then
        set_echoes (if matches : bool then without_echo (vault_id, relative) echoes ++ [(vault_id, relative, expected)]
                    else without_echo (vault_id, relative) echoes) ;;;
        eret matches
      else eret false
  end.

(** ** The identity of a root *)
Definition walk_component (st : path * file_stat) (component : string) : eff W (path * file_stat) :=
  let current := st.1 ++ [component] in
  info <~ lstat current ;;
  throw! VaultRelocationError "symlink" when sx_kind info =b KSymlink ;;
  eret (current, info).

Definition root_identity (root : string) : eff W string :=
  info <~ catch_if is_os_error
    (anchor <~ lstat [] ;;
     st <~ efold walk_component ([], anchor) (abspath root) ;;
     eret st.2)
    (fun _ => throw (VaultRelocationError "inaccessible")) ;;
  lift (identity_from_stat sha256 info).

Definition validate_enrolled_scan_root (v : vault) : eff W unit :=
  throw! RuntimeError "Vault root identity is ambiguous; local scan blocked" when
    negb (bool_decide (va_root_identity_version v = Some ROOT_IDENTITY_VERSION)) || negb (truthy (va_root_identity v)) ;;
  observed <~ catch (root_identity (va_source_root v))
    (fun e => match e with
              | VaultRelocationError reason =>
                  throw (if reason =b "inaccessible" then ScanRootUnreadable "Vault root identity is unavailable"
                         else RuntimeError "Vault root identity is unavailable")
              | _ => throw e
              end) ;;
  throw_if (negb (bool_decide (Some observed = va_root_identity v)))
    (RuntimeError "Vault root identity mismatch; local scan blocked").

(** The Vault of the tables still has the root the caller works on. *)
Definition current_verified_scan_row (vaults : D → list vault) (v : vault) : eff W vault :=
  current <~ read_db (fun d => fetchone (fun u => va_id u =b va_id v) (vaults d)) ;;
  match current with
  | None => throw (ScanRootMismatch "Vault root changed during local scan")
  | Some current =>
      throw! ScanRootMismatch "Vault root changed during local scan" when va_source_root current <>b va_source_root v ;;
      throw! ScanRootMismatch "Vault was quiesced during local scan" when
        negb (bool_decide (va_decommission_state current = Some "active")) ;;
      catch (validate_enrolled_scan_root current ;;;
             access <~ observe (fun n => vault_local_access n (va_source_root current)) ;;
             throw_if (negb (ac_allowed access) && (ac_health access <>b "scan_required"))
               (RuntimeError "Source Volume identity/health changed during scan"))
        (fun e => throw (ScanRootMismatch "Vault root changed during local scan")) ;;;
      eret current
  end.

(** ** Files of the application left behind *)
Definition is_restore_residue (name : string) : bool :=
  temporary_name "restore" (fun s => transfer_suffix s || partial_suffix s) name.

Definition remove_residue (parent : path) (name : string) : eff W unit :=
  if is_restore_residue name then catch_if is_os_error (unlink (parent ++ [name])) (fun _ => eret tt) else eret tt.

Definition remove_abandoned_restore_files (target : path) : eff W unit :=
  catch_if is_os_error
    (names <~ iterdir (parent_of target) ;; each (remove_residue (parent_of target)) names)
    (fun _ => eret tt).
End files.

(** ** Facts *)
Section file_facts.
Context {P D : Type} `{!Disk P} `{!Environment D} `{!Host}.
Context (sha256 : bytes → bytes).
Notation W := (world D P).

(** What a digest of a file rests on: the name led to a regular file, the bytes
    were read from a descriptor opened on it, and the descriptor had the same
    file, size and modification time before and after. *)
Record hashed (p : path) (digest : string) (info : file_stat) (seen : list call) : Prop := {
  ha_calls : ∃ before fd opened chunks content,
    seen = [CLstat p (Ok before); COpen p (Ok fd); CFstat fd (Ok opened); CRead fd (Ok chunks); CFstat fd (Ok info)]
    ∧ sx_kind before = KRegular ∧ sx_kind opened = KRegular
    ∧ same_content_stat opened before = true ∧ same_content_stat info before = true
    ∧ until_empty chunks = map Ok content ∧ digest = hexdigest (sha256 (concat content));
}.

Lemma append_chunks_ok chunks read (w : W) w' read' :
  efold append_chunk read chunks w = (w', Ok read') → w' = w ∧ ∃ cs, chunks = map Ok cs ∧ read' = read ++ concat cs.
Proof.
  revert read w. induction chunks as [|c chunks IH]; intros read w; cbn.
  { intros [= <- <-]. split; [done|]. exists []. by rewrite app_nil_r. }
  intros E. apply ebind_ok in E as (w1 & r1 & E1 & E). unfold append_chunk in E1.
  apply ebind_ok in E1 as (w2 & chunk & [-> ->]%lift_ok & E1). injection E1 as <- <-.
  apply IH in E as [-> (cs & -> & ->)]. split; [done|]. exists (chunk :: cs). cbn. by rewrite app_assoc.
Qed.

Lemma hash_stable_ok p (w : W) w' digest info :
  hash_stable_regular_file sha256 p w = (w', Ok (digest, info)) →
  w_db w' = w_db w ∧ ∃ new, w_calls w' = w_calls w ++ new ∧ hashed p digest info new.
Proof.
  unfold hash_stable_regular_file. intros E. run_ok E. injection E as <- <- <-. bsimpl.
  apply append_chunks_ok in Hm3 as [-> (cs & Hc & ->)].
  apply request_ok in Hm as [C1 D1]. apply request_ok in Hm0 as [C2 D2]. apply request_ok in Hm1 as [C3 D3].
  apply request_ok in Hm2 as [C4 D4]. apply request_ok in Hm4 as [C5 D5].
  split; [congruence|]. eexists. split; [rewrite C5, C4, C3, C2, C1, <- !app_assoc; done|]. split.
  do 5 eexists. split; [done|]. repeat (split; [done|]). done.
Qed.

(** Putting a claim back never takes bytes away: the only name it removes is
    the claim's, and only right after the file was linked under its own name. *)
Definition putting_back (claimed target : path) (new : list call) : Prop :=
  (∀ c, c ∈ new → ¬ is_unlink c)
  ∨ ∃ before r, new = before ++ [CLink (claimed, target) (Ok tt); CUnlink claimed r] ∧ ∀ c, c ∈ before → ¬ is_unlink c.

Lemma entry_exists_quiet p : keeps (grows (fun c => ¬ is_unlink c)) (entry_exists (P := P) (D := D) p).
Proof. unfold entry_exists, lstat. emits_all. Qed.

Lemma link_back_true claimed target (w : W) w' :
  link_back claimed target w = (w', Ok true) → w_calls w' = w_calls w ++ [CLink (claimed, target) (Ok tt)].
Proof.
  unfold link_back, catch_if, catch. destruct (ebind _ _ w) as [w1 [b|e]] eqn:E.
  - intros [= <- ->]. apply ebind_ok in E as (w2 & [] & E & [= <-]). by apply request_ok in E as [-> _].
  - destruct (catchable e); [|done]. destruct (is_os_error e); [|done]. destruct (bool_decide _); [done|].
    intros E'. apply ebind_ok in E' as (w2 & [] & _ & E'); done.
Qed.

Lemma link_back_quiet claimed target : keeps (grows (fun c => ¬ is_unlink c)) (link_back (P := P) (D := D) claimed target).
Proof. pose proof entry_exists_quiet. unfold link_back, os_link. emits_all. Qed.

Lemma restore_claimed_calls claimed target (w : W) w' r :
  restore_claimed_local_copy claimed target w = (w', r) →
  ∃ new, w_calls w' = w_calls w ++ new ∧ putting_back claimed target new.
Proof.
  assert (Hq : ∀ new, Forall (fun c => ¬ is_unlink c) new → ∀ c, c ∈ new → ¬ is_unlink c) by (intros n F; by apply Forall_forall).
  unfold restore_claimed_local_copy. intros E. apply ebind_cases in E as [(e & E & ->)|(w1 & there & E1 & E)].
  { eapply emits_calls in E as (new & Ec & F); [|apply entry_exists_quiet]. exists new. split; [done|]. left. eauto. }
  eapply emits_calls in E1 as (n1 & C1 & F1); [|apply entry_exists_quiet]. destruct (negb there).
  { injection E as <- <-. exists n1. split; [done|]. left. eauto. }
  apply ebind_cases in E as [(e & E & ->)|(w2 & [] & E2 & E)].
  - eapply emits_calls in E as (n2 & C2 & F2); [|apply link_back_quiet]. exists (n1 ++ n2). rewrite C2, C1, app_assoc.
    split; [done|]. left. apply Hq. by apply Forall_app.
  - apply link_back_true in E2 as C2. apply ebind_cases in E as [(e & E & ->)|(w3 & [] & E3 & [= <- <-])].
    + apply request_run in E as [C3 _]. eexists. rewrite C3, C2, C1, <- !app_assoc. split; [done|]. right. eauto.
    + apply request_run in E3 as [C3 _]. eexists. rewrite C3, C2, C1, <- !app_assoc. split; [done|]. right. eauto.
  - injection E as <- <-. eapply emits_calls in E2 as (n2 & C2 & F2); [|apply link_back_quiet].
    exists (n1 ++ n2). rewrite C2, C1, app_assoc. split; [done|]. left. apply Hq. by apply Forall_app.
Qed.

(** An echo is believed only for the very bytes that were remembered. *)
Lemma consume_true vault_id relative p (w : W) w' :
  consume sha256 vault_id relative p w = (w', Ok true) →
  ∃ info digest, echo_of (w_echoes w) (vault_id, relative) = Some (info, digest)
    ∧ ∃ before new, w_calls w' = w_calls w ++ before ++ new ∧ hashed p digest info new.
Proof.
  unfold consume. intros E. apply ebind_ok in E as (w0 & echoes & [= <- <-] & E).
  destruct (echo_of _ _) as [[info digest]|]; [|done]. exists info, digest. split; [done|].
  apply ebind_ok in E as (w1 & m & E1 & E). apply ebind_ok in E as (w2 & echoes & [= <- <-] & E).
  destruct (bool_decide _); [|done]. apply ebind_ok in E as (w3 & [] & [= <-] & [= <- ->]). cbn.
  unfold echo_matches, catch_if, catch in E1. destruct (ebind _ _ w) as [w4 [b|e]] eqn:E.
  - injection E1 as -> ->. apply ebind_ok in E as (w5 & now & E2 & E). apply request_ok in E2 as [C2 _]. cbn in E.
    destruct (bool_decide_reflect (now = info)) as [->|]; [|done]. apply ebind_ok in E as (w6 & [dg i] & E3 & E).
    injection E as <- E. bsimpl. subst. apply hash_stable_ok in E3 as (_ & new & C3 & Hh). eexists _, new.
    rewrite C3, C2, <- app_assoc. done.
  - destruct (catchable e); [|done]. by destruct (_ || _).
Qed.

(** The cache stays bounded. *)
Lemma remember_bounded vault_id relative info digest (w : W) :
  (length (w_echoes (remember vault_id relative info digest w).1) ≤ MAX_ECHOES)%nat.
Proof. cbn. rewrite length_drop. lia. Qed.
End file_facts.
