(* ===== verification/UploadSnapshot.v ===== *)
(** * UploadSnapshot: the independent evidence of an upload

    Models [src/app/services/upload_snapshot.py]: one stable pass over the Local
    Copy fixes the digest of the bytes and of every part, the text form of that
    evidence is checked when it is read back, and what the provider says about a
    version is compared with it.

    [hashlib.sha256] is the parameter [sha256] and a hash object the bytes it was
    fed; [ChunksizeAdjuster] of s3transfer is the parameter [adjust_chunksize].
    [base64.b64decode(validate=True)] is written out; its error is a [ValueError].
    A number of the evidence with a fraction or an exponent is refused, where
    Python takes 1.0 for 1; [as_json] writes none. *)
From S2P Require Import Prelude Sql PyString Json JsonText Schema CatalogVersions Effects S3Client S3Copy LocalFiles.
From stdpp Require Import pretty.
From Stdlib Require Import Strings.Byte Strings.Ascii.
Open Scope Z_scope.

#[export] Instance byte_eq_dec : EqDecision byte := Byte.byte_eq_dec.

(** ** Strict base64 *)
Fixpoint index_in (a : ascii) (s : string) : option nat :=
  match s with
  | EmptyString => None
  | String b s => if bool_decide (a = b) then Some 0%nat else S <$> index_in a s
  end.

Definition sextet (a : ascii) : option (list bool) :=
  (fun i => map (Nat.testbit i) [5; 4; 3; 2; 1; 0]%nat) <$> index_in a base64_alphabet.

Definition is_pad (a : ascii) : bool := bool_decide (a = "="%char).

(** Characters in fours; only the last four may end in padding. *)
Fixpoint base64_quads (l : list ascii) : option (list bool) :=
  match l with
  | [] => Some []
  | a :: b :: c :: d :: l =>
      x ← sextet a; y ← sextet b;
      if is_pad d && bool_decide (l = [])
      then if is_pad c then Some (take 8 (x ++ y)) else z ← sextet c; Some (take 16 (x ++ y ++ z))
      else z ← sextet c; u ← sextet d; rest ← base64_quads l; Some (x ++ y ++ z ++ u ++ rest)
  | _ => None
  end.

Fixpoint bits_bytes (l : list bool) : bytes :=
  match l with
  | b7 :: b6 :: b5 :: b4 :: b3 :: b2 :: b1 :: b0 :: l =>
      Byte.of_bits (b0, (b1, (b2, (b3, (b4, (b5, (b6, b7))))))) :: bits_bytes l
  | _ => []
  end.

Definition b64decode (s : string) : result bytes :=
  match base64_quads (String.list_ascii_of_string s) with
  | Some bits => Ok (bits_bytes bits)
  | None => Raise (ValueError "Incorrect padding")
  end.

(** ** Constants and the record *)
Definition CHUNK_SIZE : Z := 1024 * 1024.
Definition MULTIPART_THRESHOLD : Z := 8 * CHUNK_SIZE.
Definition DEFAULT_PART_SIZE : Z := 8 * CHUNK_SIZE.
Definition MAX_PART_SIZE : Z := 1024 * CHUNK_SIZE.
Definition MAX_OBJECT_SIZE : Z := 5 * 1024 ^ 4.
Definition MODES : list string := ["s3_checksum"; "read_back"].

Record upload_snapshot := {
  us_size : Z;
  us_plaintext_sha256 : string;
  us_checksum_type : string;
  us_checksum_sha256 : string;
  us_part_size : Z;
  us_part_checksums : list string;
}.

(** [(st_dev, st_ino, st_size, st_mtime_ns, st_ctime_ns)]. *)
Definition fingerprint (s : file_stat) : Z * Z * Z * Z * Z :=
  (sx_dev s, sx_ino s, sx_size s, sx_mtime_ns s, sx_ctime_ns s).

(** ** The text form *)
Definition snapshot_fields (s : upload_snapshot) : list (string * json) :=
  [("format", JInt 1); ("size", JInt (us_size s)); ("plaintext_sha256", JStr (us_plaintext_sha256 s));
   ("algorithm", JStr "SHA256"); ("checksum_type", JStr (us_checksum_type s));
   ("checksum_sha256", JStr (us_checksum_sha256 s)); ("part_size", JInt (us_part_size s));
   ("part_checksums", JList (map JStr (us_part_checksums s)))].

Definition as_json (s : upload_snapshot) : string := dumps (JDict (snapshot_fields s)).

Definition dict_item (d : list (string * json)) (k : string) : result json :=
  match dict_get d k with Some v => Ok v | None => Raise (KeyError k) end.

(** A value in a comparison with numbers. *)
Definition number_value (v : json) : result Z :=
  match v with
  | JInt z => Ok z
  | JBool b => Ok (Z.b2z b)
  | _ => Raise (TypeError "unsupported operand type(s)")
  end.

(** [tuple(v)]. *)
Definition items_of (v : json) : result (list json) :=
  match v with
  | JList l => Ok l
  | JStr s => Ok (map (fun a => JStr (String a EmptyString)) (String.list_ascii_of_string s))
  | JDict d => Ok (map (fun kv => JStr kv.1) d)
  | _ => Raise (TypeError "object is not iterable")
  end.

(** The text of an argument of [bytes.fromhex] and of [base64.b64decode]. *)
Definition text_value (v : json) : result string :=
  match v with JStr s => Ok s | _ => Raise (TypeError "a text is required") end.

Definition is_multipart (size : Z) : bool := MULTIPART_THRESHOLD <=? size.
Definition checksum_kind (size : Z) : string := if is_multipart size then "COMPOSITE" else "FULL_OBJECT".
Definition expected_parts (size part_size : Z) : Z :=
  if is_multipart size then Z.max 1 ((size + part_size - 1) / part_size) else 1.

Section snapshot.
Context (sha256 : bytes → bytes).

Definition sha256_b64 (l : bytes) : string := b64encode (sha256 l).

Definition composite_checksum (parts : list string) : result string :=
  digests ← mapM_r b64decode parts;
  Ok (b64encode (sha256 (concat digests)) +:+ "-" +:+ pretty (length parts)).

Definition from_json (raw : string) : result upload_snapshot :=
  data ← loads raw;
  match data with
  | JDict d =>
      raise! ValueError "Unsupported Upload Snapshot evidence" when
        negb (match dict_get d "format" with Some (JInt z) => z =? 1 | Some (JBool b) => b | _ => false end)
        || negb (match dict_get d "algorithm" with Some v => json_is_str v "SHA256" | None => false end);
      size ← dict_item d "size";
      plaintext ← dict_item d "plaintext_sha256";
      kind ← dict_item d "checksum_type";
      checksum ← dict_item d "checksum_sha256";
      part_size ← dict_item d "part_size";
      part_checksums ← dict_item d "part_checksums";
      part_checksums ← items_of part_checksums;
      size ← number_value size;
      raise! ValueError "Invalid Upload Snapshot layout" when negb ((0 <=? size) && (size <=? MAX_OBJECT_SIZE));
      part_size ← number_value part_size;
      raise! ValueError "Invalid Upload Snapshot layout" when
        negb ((DEFAULT_PART_SIZE <=? part_size) && (part_size <=? MAX_PART_SIZE));
      plaintext ← text_value plaintext;
      digest ← fromhex plaintext;
      parts ← mapM_r (fun v => s ← text_value v; b64decode s) part_checksums;
      part_checksums ← mapM_r text_value part_checksums;
      raise! ValueError "Invalid Upload Snapshot digest" when
        negb (length digest =? 32)%nat || bool_decide (parts = []) || existsb (fun p => negb (length p =? 32)%nat) parts;
      let multipart := is_multipart size in
      let count := expected_parts size part_size in
      expected ← (if multipart then composite_checksum part_checksums else Ok (b64encode digest));
      raise! ValueError "Invalid Upload Snapshot proof" when
        negb (Z.of_nat (length parts) =? count) || (10000 <? count) || negb (json_is_str kind (checksum_kind size))
        || negb (json_is_str checksum expected)
        || (negb multipart && negb (bool_decide (head parts = Some digest)));
      Ok {| us_size := size; us_plaintext_sha256 := plaintext; us_checksum_type := checksum_kind size;
            us_checksum_sha256 := expected; us_part_size := part_size; us_part_checksums := part_checksums |}
  | _ => Raise (AttributeError "get")
  end.

Definition part_length (s : upload_snapshot) (number : Z) : result Z :=
  raise! RuntimeError "Upload Snapshot part number mismatch" when
    negb ((1 <=? number) && (number <=? Z.of_nat (length (us_part_checksums s))));
  Ok (Z.min (us_part_size s) (us_size s - (number - 1) * us_part_size s)).

(** ** The pass over the Local Copy *)
Section prepare.
Context {P D : Type} `{!Disk P} `{!Environment D}.
Notation W := (world D P).
Context (adjust_chunksize : Z → Z → Z) (check_active : eff W unit).

Definition source_changed : exn := RuntimeError "Local file changed since fingerprinting".

(** The chunks of one part: [left] bytes are still to come. *)
Fixpoint read_part (fuel : nat) (fd left : Z) (part : bytes) : eff W bytes :=
  if left =? 0 then eret part
  else match fuel with
       | O => throw StillRunning
       | S fuel =>
           check_active ;;;
           chunk <~ read_some fd (Z.min CHUNK_SIZE left) ;;
           throw! source_changed when bool_decide (chunk = []) ;;
           read_part fuel fd (left - Z.of_nat (length chunk)) (part ++ chunk)
       end.

(** The parts: the bytes read so far and the text of the digests. *)
Fixpoint read_parts (fuel : nat) (fd part_size total : Z) (plaintext : bytes) (parts : list string)
    : eff W (bytes * list string) :=
  let size := Z.of_nat (length plaintext) in
  if (size <? total) || bool_decide (parts = [])
  then match fuel with
       | O => throw StillRunning
       | S fuel =>
           let left := Z.min part_size (total - size) in
           part <~ read_part (Z.to_nat left) fd left [] ;;
           read_parts fuel fd part_size total (plaintext ++ part) (parts ++ [sha256_b64 part])
       end
  else eret (plaintext, parts).

Definition prepare_upload_snapshot (source : path) : eff W (upload_snapshot * file_stat) :=
  check_active ;;;
  before <~ lstat source ;;
  throw! RuntimeError "Upload Snapshot requires a regular file" when sx_kind before <>b KRegular ;;
  throw! RuntimeError "Upload Snapshot exceeds S3 object size limit" when MAX_OBJECT_SIZE <? sx_size before ;;
  let part_size := adjust_chunksize DEFAULT_PART_SIZE (sx_size before) in
  throw! RuntimeError "Upload Snapshot exceeds bounded part size" when MAX_PART_SIZE <? part_size ;;
  fd <~ os_open source ;;
  opened <~ fstat fd ;;
  throw! source_changed when negb (bool_decide (fingerprint opened = fingerprint before)) ;;
  pat! (plaintext, parts) <~ read_parts (S (Z.to_nat (sx_size before))) fd part_size (sx_size before) [] [] ;;
  check_active ;;;
  extra <~ read_some fd 1 ;;
  throw! source_changed when negb (bool_decide (extra = [])) ;;
  after <~ fstat fd ;;
  throw! source_changed when negb (bool_decide (fingerprint after = fingerprint before)) ;;
  named <~ lstat source ;;
  throw! source_changed when negb (bool_decide (fingerprint named = fingerprint before)) ;;
  let size := Z.of_nat (length plaintext) in
  checksum <~ lift (if is_multipart size then composite_checksum parts else Ok (b64encode (sha256 plaintext))) ;;
  eret ({| us_size := size; us_plaintext_sha256 := hexdigest (sha256 plaintext); us_checksum_type := checksum_kind size;
           us_checksum_sha256 := checksum; us_part_size := part_size; us_part_checksums := parts |}, before).
End prepare.
End snapshot.

(** ** What the provider says about a version *)

(** The fields of an answer that are looked at. *)
Record provider_proof := {
  pp_version_id : option string;
  pp_delete_marker : bool;
  pp_content_length : option Z;
  pp_checksum_type : option string;
  pp_checksum_sha256 : option string;
}.

Definition proof_of_head (h : head_answer) : provider_proof :=
  {| pp_version_id := hd_version_id h; pp_delete_marker := hd_delete_marker h; pp_content_length := hd_content_length h;
     pp_checksum_type := hd_checksum_type h; pp_checksum_sha256 := hd_checksum_sha256 h |}.
Definition proof_of_write (a : write_answer) : provider_proof :=
  {| pp_version_id := wa_version_id a; pp_delete_marker := false; pp_content_length := wa_content_length a;
     pp_checksum_type := wa_checksum_type a; pp_checksum_sha256 := wa_checksum_sha256 a |}.

Definition contradicts {A} `{EqDecision A} (claimed : option A) (expected : A) : bool :=
  match claimed with Some c => negb (bool_decide (c = expected)) | None => false end.

Definition check_s3_proof (proof : provider_proof) (version_id : string) (s : upload_snapshot) (completion : bool) : result bool :=
  raise! UploadProofMismatch "S3 checksum proof returned a different VersionId" when
    (or_default (pp_version_id proof) "" <>b version_id) || pp_delete_marker proof;
  raise! UploadProofMismatch "S3 checksum proof size mismatch" when contradicts (pp_content_length proof) (us_size s);
  raise! UploadProofMismatch "S3 checksum proof type mismatch" when contradicts (pp_checksum_type proof) (us_checksum_type s);
  raise! UploadProofMismatch "S3 checksum proof digest mismatch" when contradicts (pp_checksum_sha256 proof) (us_checksum_sha256 s);
  Ok (truthy (pp_checksum_sha256 proof)
      && (bool_decide (pp_checksum_type proof = Some (us_checksum_type s))
          || (completion && (us_checksum_type s =b "FULL_OBJECT")))).

Record upload_evidence := {
  ue_algorithm : string;
  ue_checksum_type : string;
  ue_checksum : string;
  ue_version_id : string;
  ue_source : string;
}.

Definition validated_s3_proof (proof : provider_proof) (version_id : string) (s : upload_snapshot) (source : string)
    (completion : bool) : result (option upload_evidence) :=
  proven ← check_s3_proof proof version_id s completion;
  Ok (if proven : bool
      then Some {| ue_algorithm := "SHA256"; ue_checksum_type := us_checksum_type s;
                   ue_checksum := or_default (pp_checksum_sha256 proof) ""; ue_version_id := version_id; ue_source := source |}
      else None).

(** For an error raised by HEAD; [names_checksum_mode]: its [ArgumentName] is the
    checksum mode. *)
Definition unsupported_checksum_api (names_checksum_mode : exn → bool) (e : exn) : bool :=
  match e with
  | ClientError code _ =>
      (code ∈b ["NotImplemented"; "UnsupportedOperation"; "XNotImplemented"; "501"])
      || ((code ∈b ["InvalidRequest"; "InvalidArgument"]) && names_checksum_mode e)
  | _ => false
  end.

(** What the catalog asks of the evidence of a Job. *)
#[export] Instance upload_snapshot_format (sha256 : bytes → bytes) : SnapshotFormat :=
  {| snapshot_digest raw := us_plaintext_sha256 <$> from_json sha256 raw |}.

(** ** base64 and hexadecimal text are read back *)
Lemma sextet_char a b c d e f : sextet (base64_char a b c d e f) = Some [a; b; c; d; e; f].
Proof. by destruct a, b, c, d, e, f. Qed.
Lemma pad_char a b c d e f : is_pad (base64_char a b c d e f) = false.
Proof. by destruct a, b, c, d, e, f. Qed.

Lemma quads_of_bits (l : bytes) :
  base64_quads (String.list_ascii_of_string (base64_bits (concat (map byte_bits l)))) = Some (concat (map byte_bits l)).
Proof.
  revert l. fix IH 1. intros [|x [|y [|z l]]]; [done|..]; cbn [map concat]; unfold byte_bits;
    repeat match goal with |- context [Byte.to_bits ?b] => destruct (Byte.to_bits b) as (?&?&?&?&?&?&?&?) end;
    cbn -[base64_char sextet is_pad]; rewrite ?sextet_char; cbn -[base64_char sextet is_pad]; rewrite ?pad_char, ?sextet_char;
    try reflexivity.
  cbn -[base64_char sextet is_pad]. by rewrite IH.
Qed.

Lemma bits_bytes_of (l : bytes) : bits_bytes (concat (map byte_bits l)) = l.
Proof.
  induction l as [|x l IH]; [done|]. cbn [map concat]. unfold byte_bits at 1.
  pose proof (Byte.of_bits_to_bits x) as Hx. destruct (Byte.to_bits x) as (?&?&?&?&?&?&?&?). cbn -[Byte.of_bits].
  by rewrite Hx, IH.
Qed.

Lemma b64decode_encode l : b64decode (b64encode l) = Ok l.
Proof. unfold b64decode, b64encode. by rewrite quads_of_bits, bits_bytes_of. Qed.

Lemma fromhex_byte x s : fromhex (hexdigest [x] +:+ s) = (rest ← fromhex s; Ok (x :: rest)).
Proof. destruct x; reflexivity. Qed.

Lemma fromhex_hexdigest l : fromhex (hexdigest l) = Ok l.
Proof.
  induction l as [|x l IH]; [done|]. change (hexdigest (x :: l)) with (hexdigest [x] +:+ hexdigest l).
  by rewrite fromhex_byte, IH.
Qed.

Lemma mapM_r_map {A B C} (f : B → result C) (g : A → B) (h : A → C) l :
  (∀ x, f (g x) = Ok (h x)) → mapM_r f (map g l) = Ok (map h l).
Proof. intros H. induction l as [|x l IH]; cbn; [done|]. by rewrite H, IH. Qed.

Lemma decode_ends l : mapM_r b64decode l ≠ Raise StillRunning.
Proof.
  induction l as [|t l IH]; cbn; [done|]. intros E. apply bind_raise in E as [E|(x & _ & E)].
  - unfold b64decode in E. by destruct (base64_quads _).
  - apply bind_raise in E as [E|(y & _ & E)]; done.
Qed.

Lemma mapM_r_app {A B} (f : A → result B) l k :
  mapM_r f (l ++ k) = (x ← mapM_r f l; y ← mapM_r f k; Ok (x ++ y)).
Proof.
  induction l as [|a l IH]; cbn; [by destruct (mapM_r f k)|]. destruct (f a); cbn; [|done]. rewrite IH.
  destruct (mapM_r f l); cbn; [|done]. by destruct (mapM_r f k).
Qed.

Lemma foldr_add_init (l : list Z) n : foldr Z.add n l = foldr Z.add 0 l + n.
Proof. induction l; cbn; lia. Qed.

Lemma base64_bits_length l k : length l = length k → String.length (base64_bits l) = String.length (base64_bits k).
Proof.
  revert l k. fix IH 1. intros l k. destruct l as [|a [|b [|c [|d [|e [|f l]]]]]], k as [|a' [|b' [|c' [|d' [|e' [|f' k]]]]]];
    cbn [length]; try (intros; lia); try reflexivity.
  intros [= H]. cbn. f_equal. by apply IH.
Qed.

Lemma b64encode_length l k : length l = length k → String.length (b64encode l) = String.length (b64encode k).
Proof.
  intros H. apply base64_bits_length. revert k H. induction l as [|x l IH]; intros [|y k] H; try done.
  cbn. rewrite !length_app, !length_byte_bits. f_equal. apply IH. cbn in H. lia.
Qed.

(** ** What the pass establishes *)
Section evidence.
Context (sha256 : bytes → bytes).

(** The evidence of an object of these parts, of [us_part_size s] bytes except the
    last. *)
Record evidence_of (s : upload_snapshot) (pieces : list bytes) : Prop := {
  ev_size : us_size s = Z.of_nat (length (concat pieces));
  ev_plaintext : us_plaintext_sha256 s = hexdigest (sha256 (concat pieces));
  ev_parts : us_part_checksums s = map (sha256_b64 sha256) pieces;
  ev_lengths : ∀ i piece, pieces !! i = Some piece → part_length s (Z.of_nat i + 1) = Ok (Z.of_nat (length piece));
  ev_type : us_checksum_type s = checksum_kind (us_size s);
  ev_checksum : if is_multipart (us_size s) then composite_checksum sha256 (us_part_checksums s) = Ok (us_checksum_sha256 s)
                else us_checksum_sha256 s = sha256_b64 sha256 (concat pieces);
}.

(** Parts of [part_size] bytes from [from] to [total], the last one shorter. *)
Record cut_at (part_size total from : Z) (pieces : list bytes) : Prop := {
  cu_length : Z.of_nat (length (concat pieces)) = total - from;
  cu_piece : ∀ i piece, pieces !! i = Some piece →
    Z.of_nat (length piece) = Z.min part_size (total - from - Z.of_nat i * part_size);
  cu_start : ∀ i piece, pieces !! i = Some piece → i ≠ 0%nat → from + Z.of_nat i * part_size < total;
}.

(** The bytes the calls read from a descriptor. *)
Definition taken_by (fd : Z) (c : call) : bytes :=
  match c with CReadSome (f, _) (Ok b) => if f =? fd then b else [] | _ => [] end.
Definition taken (fd : Z) (cs : list call) : bytes := concat (map (taken_by fd) cs).

Lemma taken_app fd a b : taken fd (a ++ b) = taken fd a ++ taken fd b.
Proof. unfold taken. by rewrite map_app, concat_app. Qed.

Section prepare.
Context {P D : Type} `{!Disk P} `{!Environment D}.
Notation W := (world D P).
Context (adjust_chunksize : Z → Z → Z) (check_active : eff W unit).
(** The check of the lease talks to the tables, not to the provider or the disk. *)
Context (Hactive : emits (fun _ => False) check_active).

Lemma check_active_silent w w' r : check_active w = (w', r) → w_calls w' = w_calls w.
Proof. by apply silent_calls. Qed.

Lemma read_part_ok fuel fd left part (w : W) w' res :
  0 ≤ left → read_part check_active fuel fd left part w = (w', Ok res) →
  ∃ piece new, res = part ++ piece ∧ Z.of_nat (length piece) = left ∧ w_calls w' = w_calls w ++ new ∧ taken fd new = piece.
Proof.
  revert left part w. induction fuel as [|fuel IH]; intros left part w Hl E; cbn in E.
  { destruct (left =? 0) eqn:E0; [|done]. injection E as <- <-. exists [], []. rewrite !app_nil_r. repeat split; cbn; lia. }
  destruct (left =? 0) eqn:E0.
  { injection E as <- <-. exists [], []. rewrite !app_nil_r. repeat split; cbn; lia. }
  run_ok E. rename a into u, a0 into chunk. apply check_active_silent in Hm. apply request_ok in Hm0 as [Hc _].
  apply bool_decide_eq_false in Hb. apply Z.eqb_neq in E0.
  destruct (decide (Z.of_nat (length chunk) ≤ left)) as [Hle|Hgt].
  - apply IH in E as (piece & new & -> & Hp & Ec & Ht); [|lia]. exists (chunk ++ piece), (CReadSome (fd, Z.min CHUNK_SIZE left) (Ok chunk) :: new).
    rewrite length_app. split; [by rewrite app_assoc|]. split; [lia|]. split; [rewrite Ec, Hc, Hm, <- app_assoc; done|].
    unfold taken in *. cbn. by rewrite Z.eqb_refl, Ht.
  - exfalso. assert (Hn : left - Z.of_nat (length chunk) < 0) by lia. clear -E Hn. revert E Hn.
    generalize (left - Z.of_nat (length chunk)) (part ++ chunk) w1. induction fuel as [|fuel IH]; intros rest p w2 E Hn; cbn in E.
    + destruct (rest =? 0) eqn:E0; [lia|done].
    + destruct (rest =? 0) eqn:E0; [lia|]. run_ok E. eapply IH in E; [done|lia].
Qed.

Lemma read_parts_ok fuel fd part_size total plaintext parts (w : W) w' res :
  0 < part_size → Z.of_nat (length plaintext) ≤ total →
  read_parts sha256 check_active fuel fd part_size total plaintext parts w = (w', Ok res) →
  ∃ pieces new, res = (plaintext ++ concat pieces, parts ++ map (sha256_b64 sha256) pieces)
    ∧ w_calls w' = w_calls w ++ new ∧ taken fd new = concat pieces
    ∧ cut_at part_size total (Z.of_nat (length plaintext)) pieces ∧ (parts = [] → pieces ≠ [])
    ∧ (parts ≠ [] → total ≤ Z.of_nat (length plaintext) → pieces = []).
Proof.
  intros Hp. revert plaintext parts w. induction fuel as [|fuel IH]; intros plaintext parts w Hle E; cbn in E;
    destruct (_ || _) eqn:Hgo; try done.
  1, 3: injection E as <- <-; apply orb_false_iff in Hgo as [Hlt Hnil%bool_decide_eq_false]; apply Z.ltb_ge in Hlt;
    exists [], []; rewrite !app_nil_r; repeat split; [cbn; lia | done..].
  run_ok E. apply read_part_ok in Hm as (piece & n1 & -> & Hpl & C1 & T1); [|lia]. cbn [app] in E.
  apply IH in E as (pieces & n2 & -> & C2 & T2 & [Hl Hi Hs] & _ & Hend); [|rewrite length_app; lia].
  exists (piece :: pieces), (n1 ++ n2). rewrite length_app in Hl, Hi, Hs. cbn [concat map]. split; [by rewrite <- !app_assoc|].
  split; [by rewrite C2, C1, app_assoc|]. split; [by rewrite taken_app, T1, T2|].
  split; [|split; [done | intros Hne Hge; exfalso; rewrite bool_decide_eq_false_2, orb_false_r in Hgo by done; lia]].
  assert (Hfull : ∀ i p, pieces !! i = Some p →
            Z.of_nat (length piece) = part_size ∧ Z.of_nat (length plaintext) + part_size < total).
  { intros i p Hlk. destruct (decide (total ≤ Z.of_nat (length (plaintext ++ piece)))) as [He|He]; rewrite length_app in He; [|lia].
    rewrite Hend in Hlk; [done | by destruct parts | rewrite length_app; lia]. }
  split; [cbn [concat]; rewrite length_app; lia|..]; intros [|i] p Hlk; cbn in Hlk; try done; [injection Hlk as <-; lia|..].
  - specialize (Hi _ _ Hlk). apply Hfull in Hlk. lia.
  - intros _. pose proof (Hfull _ _ Hlk). destruct (decide (i = 0%nat)) as [->|Hne]; [lia|]. specialize (Hs _ _ Hlk Hne). lia.
Qed.

(** What a pass that returns has seen. *)
Lemma prepare_ok source (w : W) w' s before :
  prepare_upload_snapshot sha256 adjust_chunksize check_active source w = (w', Ok (s, before)) →
  0 < us_part_size s → 0 ≤ sx_size before →
  ∃ pieces fd opened reads after named,
    evidence_of s pieces ∧ cut_at (us_part_size s) (us_size s) 0 pieces ∧ pieces ≠ []
    ∧ us_part_size s = adjust_chunksize DEFAULT_PART_SIZE (us_size s) ∧ us_size s = sx_size before
    ∧ us_part_size s ≤ MAX_PART_SIZE ∧ us_size s ≤ MAX_OBJECT_SIZE ∧ sx_kind before = KRegular
    ∧ w_calls w' = w_calls w ++ [CLstat source (Ok before); COpen source (Ok fd); CFstat fd (Ok opened)] ++ reads
                   ++ [CReadSome (fd, 1) (Ok []); CFstat fd (Ok after); CLstat source (Ok named)]
    ∧ taken fd reads = concat pieces
    ∧ fingerprint opened = fingerprint before ∧ fingerprint after = fingerprint before ∧ fingerprint named = fingerprint before.
Proof.
  unfold prepare_upload_snapshot. intros E. run_ok E. destruct a3 as [plaintext parts]. run_ok E. injection E as <- <- <-.
  cbn [us_part_size us_size] in *. intros Hp Hz. bsimpl.
  apply check_active_silent in Hm, Hm4.
  apply request_ok in Hm0 as [C1 _]. apply request_ok in Hm1 as [C2 _]. apply request_ok in Hm2 as [C3 _].
  apply read_parts_ok in Hm3 as (pieces & reads & [= -> ->] & C4 & Ht & Hcut & Hne & _); [|done|cbn; lia].
  cbn [app length] in *. apply request_ok in Hm5 as [C5 _]. apply request_ok in Hm6 as [C6 _]. apply request_ok in Hm7 as [C7 _].
  apply lift_ok in Hm8 as [Hk ->]. specialize (Hne eq_refl). pose proof (cu_length _ _ _ _ Hcut) as Hlen.
  rewrite Z.sub_0_r in Hlen. exists pieces, a1, a2, reads, a5, a6.
  split.
  { split; cbn; [done|done|done| |done|].
    - intros i piece Hi. unfold part_length. cbn. rewrite length_map. pose proof (lookup_lt_Some _ _ _ Hi).
      unfold bytes in *.
      rewrite (proj2 (Z.leb_le _ _)), (proj2 (Z.leb_le _ _)) by lia. cbn. pose proof (cu_piece _ _ _ _ Hcut _ _ Hi). f_equal. lia.
    - destruct (is_multipart _); [done|]. by injection Hk as <-. }
  rewrite Hlen. split; [exact Hcut|]. split; [done|]. split; [done|]. split; [done|].
  bsimpl. do 2 (split; [lia|]). split; [by destruct (sx_kind a0)|].
  split; [|done]. rewrite C7, C6, C5, Hm4, C4, C3, C2, C1, Hm, <- !app_assoc. cbn. by subst.
Qed.
(** *** The pass ends *)
Section ends.
Context (Hactive_ends : ∀ w, (check_active w).2 ≠ Raise StillRunning).
Context (Hpart : ∀ size, 0 < adjust_chunksize DEFAULT_PART_SIZE size).

(** A disk that answers, with sizes that are not negative and no more bytes than
    asked for. *)
Record answers : Prop := {
  an_lstat : ∀ q p, match (k_lstat q p).2 with Ok st => 0 ≤ sx_size st | Raise e => e ≠ StillRunning end;
  an_open : ∀ q p, (k_open q p).2 ≠ Raise StillRunning;
  an_fstat : ∀ q p, (k_fstat q p).2 ≠ Raise StillRunning;
  an_read : ∀ fd n p, 0 < n → match (k_read_some (fd, n) p).2 with Ok b => Z.of_nat (length b) ≤ n | Raise e => e ≠ StillRunning end;
}.
Context (Hdisk : answers).

Lemma ends_bind {A B} (m : eff W A) (f : A → eff W B) w :
  (m w).2 ≠ Raise StillRunning → (∀ w1 a, m w = (w1, Ok a) → (f a w1).2 ≠ Raise StillRunning) →
  (ebind m f w).2 ≠ Raise StillRunning.
Proof. intros Hm Hf. unfold ebind. destruct (m w) as [w1 [a|e]]; [by apply Hf | cbn in *; congruence]. Qed.

Lemma ends_guard {B} b e (f : unit → eff W B) w :
  e ≠ StillRunning → (b = false → (f tt w).2 ≠ Raise StillRunning) → (ebind (throw_if b e) f w).2 ≠ Raise StillRunning.
Proof. intros He Hf. destruct b; unfold ebind; cbn; [congruence | by apply Hf]. Qed.

Lemma request_snd {Q A} (op : Q → P → P * result A) record q (w : W) : (request op record q w).2 = (op q (w_cloud w)).2.
Proof. unfold request. by destruct (op q (w_cloud w)). Qed.

Lemma read_part_ends fuel fd left part w :
  0 ≤ left ≤ Z.of_nat fuel → (read_part check_active fuel fd left part w).2 ≠ Raise StillRunning.
Proof.
  revert left part w. induction fuel as [|fuel IH]; intros left part w Hl; cbn; destruct (left =? 0) eqn:E0; try done; [lia|].
  apply ends_bind; [apply Hactive_ends|]. intros w1 [] _. pose proof (an_read Hdisk fd (Z.min CHUNK_SIZE left) (w_cloud w1)) as Hr.
  specialize (Hr ltac:(unfold CHUNK_SIZE; lia)). rewrite <- (request_snd k_read_some CReadSome _ w1) in Hr.
  fold (read_some (D := D) fd (Z.min CHUNK_SIZE left)) in Hr.
  apply ends_bind; [intros E; by rewrite E in Hr|]. intros w2 chunk E. rewrite E in Hr. cbn in Hr.
  apply ends_guard; [done|]. intros Hne%bool_decide_eq_false. apply IH. destruct chunk; [done|]. cbn [length] in *. lia.
Qed.

Lemma read_parts_ends fuel fd part_size total plaintext parts w :
  0 < part_size → Z.of_nat (length plaintext) ≤ total →
  total - Z.of_nat (length plaintext) + (if decide (parts = []) then 1 else 0) ≤ Z.of_nat fuel →
  (read_parts sha256 check_active fuel fd part_size total plaintext parts w).2 ≠ Raise StillRunning.
Proof.
  intros Hp. revert plaintext parts w. induction fuel as [|fuel IH]; intros plaintext parts w Hle Hf; cbn;
    destruct (_ || _) eqn:Hgo; try done.
  { destruct (decide (parts = [])) as [->|Hne]; [lia|]. rewrite bool_decide_eq_false_2, orb_false_r in Hgo by done. lia. }
  apply ends_bind; [apply read_part_ends; lia|]. intros w1 part E.
  apply read_part_ok in E as (piece & new & -> & Hl & _); [|lia]. cbn [app].
  apply IH; [rewrite length_app; lia|]. rewrite length_app, decide_False by (by destruct parts).
  destruct (decide (parts = [])) as [->|Hne]; [lia|]. rewrite bool_decide_eq_false_2, orb_false_r in Hgo by done. lia.
Qed.

Lemma prepare_ends source w :
  (prepare_upload_snapshot sha256 adjust_chunksize check_active source w).2 ≠ Raise StillRunning.
Proof.
  assert (Hlift : ∀ A (r : result A) (w : W), r ≠ Raise StillRunning → (lift r w).2 ≠ Raise StillRunning) by done.
  assert (Hl : ∀ q (w : W), (lstat q w).2 ≠ Raise StillRunning).
  { intros q w1. unfold lstat. rewrite request_snd. intros E. pose proof (an_lstat Hdisk q (w_cloud w1)) as H. by rewrite E in H. }
  assert (Hs : ∀ q (w : W), (fstat q w).2 ≠ Raise StillRunning) by (intros; unfold fstat; rewrite request_snd; apply Hdisk).
  unfold prepare_upload_snapshot. apply ends_bind; [apply Hactive_ends|]. intros w1 [] _. apply ends_bind; [apply Hl|].
  intros w2 before E. assert (Hz : 0 ≤ sx_size before).
  { pose proof (an_lstat Hdisk source (w_cloud w1)) as H. rewrite <- (request_snd k_lstat CLstat _ w1) in H.
    unfold lstat in E. by rewrite E in H. }
  do 3 (apply ends_guard; [done|]; intros _). apply ends_bind; [unfold os_open; rewrite request_snd; apply Hdisk|]. intros w3 fd _.
  apply ends_bind; [apply Hs|]. intros w4 opened _. apply ends_guard; [done|]. intros _.
  apply ends_bind; [apply read_parts_ends; [done | cbn; lia | rewrite decide_True by done; cbn [length]; lia]|]. intros w5 [plaintext parts] _.
  apply ends_bind; [apply Hactive_ends|]. intros w6 [] _.
  apply ends_bind.
  { pose proof (an_read Hdisk fd 1 (w_cloud w6) ltac:(lia)) as Hr. rewrite <- (request_snd k_read_some CReadSome _ w6) in Hr.
    intros E'. unfold read_some in E'. by rewrite E' in Hr. }
  intros w7 extra _. apply ends_guard; [done|]. intros _. apply ends_bind; [apply Hs|]. intros w8 after _.
  apply ends_guard; [done|]. intros _. apply ends_bind; [apply Hl|]. intros w9 named _. apply ends_guard; [done|]. intros _.
  apply ends_bind; [|by intros]. apply Hlift. destruct (is_multipart _); [|done]. unfold composite_checksum.
  intros E'. apply bind_raise in E' as [E'|(? & _ & ?)]; [|done]. by apply (decode_ends _ E').
Qed.
End ends.
End prepare.

(** ** The evidence survives its text form *)
Lemma concat_bound (n : Z) (pieces : list bytes) :
  (∀ i piece, pieces !! i = Some piece → Z.of_nat (length piece) ≤ n) → 
  Z.of_nat (length (concat pieces)) ≤ Z.of_nat (length pieces) * n.
Proof.
  induction pieces as [|p pieces IH]; intros H; cbn [concat length]; [done|]. rewrite length_app.
  pose proof (H 0%nat p eq_refl). assert (∀ i q, pieces !! i = Some q → Z.of_nat (length q) ≤ n) as H' by (intros i q; exact (H (S i) q)).
  specialize (IH H'). lia.
Qed.

(** The number of the parts is the one the layout prescribes. *)
Lemma cut_count part_size total pieces :
  0 < part_size → 0 ≤ total → pieces ≠ [] → cut_at part_size total 0 pieces →
  Z.of_nat (length pieces) = Z.max 1 ((total + part_size - 1) / part_size).
Proof.
  intros Hp Ht Hne [Hl Hi Hs]. rewrite Z.sub_0_r in Hl.
  assert (Hup : total ≤ Z.of_nat (length pieces) * part_size).
  { rewrite <- Hl. apply concat_bound. intros i q Hq. specialize (Hi _ _ Hq). lia. }
  destruct (decide (length pieces = 1%nat)) as [E1|E1].
  - rewrite E1 in *. enough ((total + part_size - 1) / part_size ≤ 1) by lia. apply Z.lt_succ_r, Z.div_lt_upper_bound; lia.
  - assert (Hlen : (length pieces ≠ 0)%nat) by (by destruct pieces).
    destruct (lookup_lt_is_Some_2 pieces (length pieces - 1)) as [q Hq]; [lia|]. specialize (Hs _ _ Hq ltac:(lia)).
    enough ((total + part_size - 1) / part_size = Z.of_nat (length pieces)) by lia.
    symmetry. apply Z.div_unique with (total + part_size - 1 - part_size * Z.of_nat (length pieces)); lia.
Qed.

Lemma cut_expected part_size total pieces :
  DEFAULT_PART_SIZE ≤ part_size → 0 ≤ total → pieces ≠ [] → cut_at part_size total 0 pieces →
  Z.of_nat (length pieces) = expected_parts total part_size.
Proof.
  intros Hp Ht Hne Hc. unfold expected_parts, is_multipart. unfold DEFAULT_PART_SIZE, MULTIPART_THRESHOLD, CHUNK_SIZE in *.
  pose proof (cut_count part_size total pieces ltac:(lia) Ht Hne Hc) as ->. destruct (_ <=? _) eqn:E; [done|].
  apply Z.leb_gt in E. enough ((total + part_size - 1) / part_size ≤ 1) by lia. apply Z.lt_succ_r, Z.div_lt_upper_bound; lia.
Qed.

Lemma snapshot_fields_plain s : plain (JDict (snapshot_fields s)) = true.
Proof.
  cbn [plain snapshot_fields]. apply andb_true_iff. split; [vm_compute; reflexivity|]. cbn. rewrite andb_true_r.
  by induction (us_part_checksums s).
Qed.

Lemma json_is_str_refl t : json_is_str (JStr t) t = true.
Proof. cbn. by apply bool_decide_eq_true_2. Qed.

(** What reading the evidence checks. *)
Record accepted (s : upload_snapshot) : Prop := {
  ac_size : 0 ≤ us_size s ≤ MAX_OBJECT_SIZE;
  ac_part_size : DEFAULT_PART_SIZE ≤ us_part_size s ≤ MAX_PART_SIZE;
  ac_count : Z.of_nat (length (us_part_checksums s)) = expected_parts (us_size s) (us_part_size s);
  ac_few : expected_parts (us_size s) (us_part_size s) ≤ 10000;
  ac_type : us_checksum_type s = checksum_kind (us_size s);
  ac_digests : ∃ digest parts,
    fromhex (us_plaintext_sha256 s) = Ok digest ∧ length digest = 32%nat
    ∧ mapM_r b64decode (us_part_checksums s) = Ok parts ∧ Forall (fun p => length p = 32%nat) parts
    ∧ (if is_multipart (us_size s) then composite_checksum sha256 (us_part_checksums s) else Ok (b64encode digest))
      = Ok (us_checksum_sha256 s)
    ∧ (is_multipart (us_size s) = false → head parts = Some digest);
}.

Lemma digests_sized (parts : list bytes) :
  existsb (fun p => negb (length p =? 32)%nat) parts = false ↔ Forall (fun p => length p = 32%nat) parts.
Proof.
  induction parts as [|p parts IH]; cbn; [by split|]. rewrite orb_false_iff, IH, Forall_cons, negb_false_iff, Nat.eqb_eq. done.
Qed.

Lemma mapM_r_length {A B} (f : A → result B) l l' : mapM_r f l = Ok l' → length l' = length l.
Proof.
  revert l'. induction l as [|x l IH]; intros l' E; cbn in E; [by injection E as <-|].
  inv_ok. subst. cbn. f_equal. by apply IH.
Qed.

Lemma expected_parts_pos size part_size : 1 ≤ expected_parts size part_size.
Proof. unfold expected_parts. destruct (is_multipart size); lia. Qed.

Lemma text_items l ts : mapM_r text_value l = Ok ts → l = map JStr ts.
Proof.
  revert ts. induction l as [|v l IH]; intros ts E; cbn in E; [by injection E as <-|]. inv_ok.
  destruct v; try done. cbn in *. simplify_eq. cbn. f_equal. by apply IH.
Qed.

Lemma decode_texts ts : mapM_r (fun v => t ← text_value v; b64decode t) (map JStr ts) = mapM_r b64decode ts.
Proof. induction ts as [|t ts IH]; cbn; [done|]. by rewrite IH. Qed.

Lemma read_texts ts : mapM_r text_value (map JStr ts) = Ok ts.
Proof. rewrite (mapM_r_map text_value JStr id) by done. by rewrite map_id. Qed.

Lemma from_json_as_json s : accepted s → from_json sha256 (as_json s) = Ok s.
Proof.
  intros [Hs Hp Hc Hf Ht (digest & parts & Hx & Hl & Hd & H32 & Hk & Hh)].
  unfold from_json, as_json. rewrite loads_dumps by apply snapshot_fields_plain. cbn [mbind result_bind].
  assert (Hi : ∀ k v, dict_get (snapshot_fields s) k = Some v → dict_item (snapshot_fields s) k = Ok v)
    by (intros k v Hv; unfold dict_item; by rewrite Hv).
  rewrite (Hi "size" _ eq_refl), (Hi "plaintext_sha256" _ eq_refl), (Hi "checksum_type" _ eq_refl),
    (Hi "checksum_sha256" _ eq_refl), (Hi "part_size" _ eq_refl), (Hi "part_checksums" _ eq_refl).
  cbn [mbind result_bind items_of number_value text_value snd]. apply raise_if_bind_ok. split; [vm_compute; reflexivity|].
  apply raise_if_bind_ok. split; [apply negb_false_iff, andb_true_iff; split; lia|].
  apply raise_if_bind_ok. split; [apply negb_false_iff, andb_true_iff; split; lia|].
  rewrite Hx, decode_texts, Hd, read_texts. cbn [mbind result_bind].
  pose proof (mapM_r_length _ _ _ Hd) as Hlen. pose proof (expected_parts_pos (us_size s) (us_part_size s)).
  apply raise_if_bind_ok. split.
  { rewrite Hl, (proj2 (digests_sized parts)) by done. rewrite bool_decide_eq_false_2; [done|]. intros ->. cbn in Hlen. lia. }
  rewrite Hk. cbn [mbind result_bind]. apply raise_if_bind_ok. split.
  - rewrite Hlen, Hc, Z.eqb_refl, <- Ht, !json_is_str_refl. cbn [negb orb]. rewrite !orb_false_r.
    apply orb_false_iff. split; [by apply Z.ltb_ge|]. destruct (is_multipart (us_size s)) eqn:Em; [done|]. cbn.
    by rewrite bool_decide_eq_true_2 by (by apply Hh).
  - rewrite <- Ht. by destruct s.
Qed.

Lemma from_json_accepted raw s : from_json sha256 raw = Ok s → accepted s.
Proof.
  unfold from_json. intros E. inv_ok. destruct r as [| | | | | |d]; try done. inv_ok. bsimpl. subst s.
  pose proof (text_items _ _ E13) as ->. rewrite decode_texts in E12. pose proof (mapM_r_length _ _ _ E12) as Hlen.
  split; cbn; [lia | lia | by rewrite <- Hlen | done | done |]. exists r9, r10. do 2 (split; [done || by apply Nat.eqb_eq|]).
  split; [done|]. split; [by apply digests_sized|]. split; [done|]. intros Hm. rewrite Hm in *. cbn in *. by bsimpl.
Qed.

Lemma evidence_accepted s pieces :
  (∀ b, length (sha256 b) = 32%nat) → evidence_of s pieces → cut_at (us_part_size s) (us_size s) 0 pieces → pieces ≠ [] →
  us_size s ≤ MAX_OBJECT_SIZE → DEFAULT_PART_SIZE ≤ us_part_size s ≤ MAX_PART_SIZE → us_size s ≤ 10000 * us_part_size s →
  accepted s.
Proof.
  intros Hsha [Hsz Hpl Hpa _ Hty Hck] Hcut Hne Hmax Hps Hten. assert (H0 : 0 ≤ us_size s) by lia.
  pose proof (cut_expected (us_part_size s) (us_size s) pieces ltac:(lia) H0 Hne Hcut) as Hcount.
  assert (Hone : is_multipart (us_size s) = false → ∃ p, pieces = [p]).
  { intros Em. unfold expected_parts in Hcount. rewrite Em in Hcount. destruct pieces as [|p [|q ps]]; [done|eauto|cbn in Hcount; lia]. }
  split; [lia | lia | by rewrite Hpa, length_map | | done |].
  - unfold expected_parts. destruct (is_multipart (us_size s)); [|lia]. unfold DEFAULT_PART_SIZE, CHUNK_SIZE in Hps.
    enough ((us_size s + us_part_size s - 1) / us_part_size s ≤ 10000) by lia. apply Z.lt_succ_r, Z.div_lt_upper_bound; lia.
  - exists (sha256 (concat pieces)), (map sha256 pieces). rewrite Hpl, fromhex_hexdigest. split; [done|]. split; [done|].
    rewrite Hpa. split; [apply mapM_r_map; intros; apply b64decode_encode|]. split; [apply Forall_map, Forall_forall; eauto|].
    destruct (is_multipart (us_size s)); [by rewrite <- Hpa | split; [by rewrite Hck|]]. intros _.
    destruct (Hone eq_refl) as [p ->]. cbn. by rewrite app_nil_r.
Qed.

(** The parts of accepted evidence, by number. *)
Definition numbers_of (s : upload_snapshot) : list Z := map (fun i => Z.of_nat i + 1) (seq 0 (length (us_part_checksums s))).

Lemma part_lengths_sum s n :
  0 < us_part_size s → 0 ≤ us_size s → (n ≤ length (us_part_checksums s))%nat →
  (Z.of_nat n - 1) * us_part_size s ≤ us_size s →
  ∃ ls, mapM_r (part_length s) (map (fun i => Z.of_nat i + 1) (seq 0 n)) = Ok ls
        ∧ foldr Z.add 0 ls = Z.min (us_size s) (Z.of_nat n * us_part_size s)
        ∧ Forall (fun l => 0 ≤ l ≤ us_part_size s) ls.
Proof.
  intros Hp Hs. induction n as [|n IH]; intros Hn Hle; [exists []; cbn; split; [done|]; split; [lia|done]|].
  destruct IH as (ls & E & Hsum & F); [lia|nia|]. exists (ls ++ [Z.min (us_part_size s) (us_size s - Z.of_nat n * us_part_size s)]).
  rewrite seq_S, map_app, mapM_r_app, E. cbn. unfold part_length.
  rewrite (proj2 (Z.leb_le 1 _)), (proj2 (Z.leb_le _ _)) by lia. cbn. replace (Z.of_nat n + 1 - 1) with (Z.of_nat n) by lia.
  split; [done|]. rewrite foldr_app. cbn. split; [|apply Forall_app; split; [done|]; repeat constructor; nia].
  rewrite foldr_add_init, Hsum. nia.
Qed.
End evidence.

(** ** What reading the evidence can raise *)

(** The errors the callers of [from_json] take for evidence that does not hold. *)
Definition evidence_error (e : exn) : bool :=
  match e with ValueError _ | TypeError _ | KeyError _ | AttributeError _ => true | _ => false end.

Definition reads {A} (r : result A) : Prop := ∀ e, r = Raise e → evidence_error e = true.

Lemma reads_bind {A B} (r : result A) (f : A → result B) : reads r → (∀ a, reads (f a)) → reads (r ≫= f).
Proof. intros Hr Hf. destruct r as [a|e]; [apply Hf|]. intros e' [= <-]. by apply Hr. Qed.
Lemma reads_guard b e : evidence_error e = true → reads (raise_if b e).
Proof. intros He e'. destruct b; cbn; congruence. Qed.
Lemma reads_mapM {A B} (f : A → result B) l : (∀ a, reads (f a)) → reads (mapM_r f l).
Proof. intros Hf. induction l as [|a l IH]; cbn; [done|]. apply reads_bind; [apply Hf|]. intros b. by apply reads_bind. Qed.
Lemma loads_reads raw : reads (loads raw).
Proof. unfold loads, reads. destruct (load_value _ _) as [[v rest]|]; [destruct (skip_blanks rest)|]; intros; by simplify_eq. Qed.
Lemma fromhex_reads s : reads (fromhex s).
Proof.
  assert (H : ∀ n s, (String.length s ≤ n)%nat → reads (fromhex s)); [|by eapply H].
  induction n as [|n IH]; intros [|a s'] Hl; cbn in Hl; try (intros ? ?; done); try lia. cbn.
  destruct (is_space a); [apply IH; lia|]. destruct s' as [|b s']; [intros ? ?; by simplify_eq|].
  destruct (hex_value a), (hex_value b); try (intros ? ?; by simplify_eq). cbn in Hl.
  apply reads_bind; [apply IH; lia | done].
Qed.
Lemma b64decode_reads s : reads (b64decode s).
Proof. unfold b64decode, reads. destruct (base64_quads _); intros; by simplify_eq. Qed.
Lemma dict_item_reads d k : reads (dict_item d k).
Proof. unfold dict_item, reads. destruct (dict_get d k); intros; by simplify_eq. Qed.

Lemma from_json_reads sha256 raw : reads (from_json sha256 raw).
Proof.
  unfold from_json. apply reads_bind; [apply loads_reads|]. intros v. destruct v; try (intros ? [= <-]; done).
  assert (Hn : ∀ v, reads (number_value v)) by (intros []; intros ? E; cbn in E; by simplify_eq).
  assert (Ht : ∀ v, reads (text_value v)) by (intros []; intros ? E; cbn in E; by simplify_eq).
  assert (Hi : ∀ v, reads (items_of v)) by (intros []; intros ? E; cbn in E; by simplify_eq).
  unfold composite_checksum.
  repeat first [apply reads_guard; done | apply dict_item_reads | apply Hn | apply Ht | apply Hi | apply fromhex_reads
    | apply reads_mapM | apply b64decode_reads | done
    | apply reads_bind; [|intros ?] | match goal with |- reads (if ?b then _ else _) => destruct b end | intros ?].
Qed.

(** ** Claims *)
Section claims.
Context (sha256 : bytes → bytes) (Hsha : ∀ b, length (sha256 b) = 32%nat).

(** Two byte strings that [sha256] does not tell apart. *)
Definition collision : Prop := ∃ a b, a ≠ b ∧ sha256 a = sha256 b.

Lemma equal_digest a b : sha256 a = sha256 b → a = b ∨ collision.
Proof. intros E. destruct (decide (a = b)); [by left | right; by exists a, b]. Qed.

Lemma same_digests a b : map sha256 a = map sha256 b → a = b ∨ collision.
Proof.
  revert b. induction a as [|x a IH]; intros [|y b] E; try done; [by left|]. injection E as E1 E2.
  destruct (equal_digest _ _ E1) as [->|]; [|by right]. destruct (IH _ E2) as [->|]; [by left | by right].
Qed.

Lemma concat_digests a b : concat (map sha256 a) = concat (map sha256 b) → map sha256 a = map sha256 b.
Proof.
  revert b. induction a as [|x a IH]; intros [|y b] E; cbn in *; [done| | |].
  - apply (f_equal length) in E. rewrite length_app, Hsha in E. done.
  - apply (f_equal length) in E. rewrite length_app, Hsha in E. done.
  - apply app_inj_1 in E as [-> E]; [|by rewrite !Hsha]. f_equal. by apply IH.
Qed.

Lemma string_prefix_inj a b c d : String.length a = String.length b → a +:+ c = b +:+ d → a = b.
Proof.
  revert b. induction a as [|x a IH]; intros [|y b] Hl E; try done. cbn in *. injection E as -> E. f_equal. apply IH; [lia|done].
Qed.

Lemma composite_text pieces :
  composite_checksum sha256 (map (sha256_b64 sha256) pieces)
  = Ok (b64encode (sha256 (concat (map sha256 pieces))) +:+ "-" +:+ pretty (length pieces)).
Proof.
  unfold composite_checksum. rewrite (mapM_r_map _ _ sha256) by (intros; apply b64decode_encode). cbn. by rewrite length_map.
Qed.

(** What S3 documents of [ChecksumSHA256]: over the object, or over the digests of
    the parts with their number. *)
Definition provider_checksum (kind : string) (stored : list bytes) : result string :=
  if kind =b "COMPOSITE" then composite_checksum sha256 (map (sha256_b64 sha256) stored) else Ok (sha256_b64 sha256 (concat stored)).

Lemma kind_composite size : (checksum_kind size =b "COMPOSITE") = is_multipart size.
Proof. unfold checksum_kind. by destruct (is_multipart size). Qed.

(** C23: evidence taken by one pass is evidence of the bytes that were read: the
    name led to a regular file, the same file with the same size and times before,
    during and after the reading and under its name; the bytes read up to the end
    of the file have the recorded size and digest, the recorded parts are cut from
    them at the part lengths, and the text of the evidence is read back as the
    same evidence. *)
Theorem prepared_snapshot_describes_bytes_read {P D} `{!Disk P} `{!Environment D} (adjust_chunksize : Z → Z → Z)
    (check_active : eff (world D P) unit) source (w w' : world D P) s before :
  (∀ size, 0 ≤ size ≤ MAX_OBJECT_SIZE → DEFAULT_PART_SIZE ≤ adjust_chunksize DEFAULT_PART_SIZE size
                                        ∧ size ≤ 10000 * adjust_chunksize DEFAULT_PART_SIZE size) →
  emits (fun _ => False) check_active → 0 ≤ sx_size before →
  prepare_upload_snapshot sha256 adjust_chunksize check_active source w = (w', Ok (s, before)) →
  ∃ pieces fd opened reads after named,
    evidence_of sha256 s pieces ∧ us_size s = sx_size before ∧ sx_kind before = KRegular
    ∧ w_calls w' = w_calls w ++ [CLstat source (Ok before); COpen source (Ok fd); CFstat fd (Ok opened)] ++ reads
                   ++ [CReadSome (fd, 1) (Ok []); CFstat fd (Ok after); CLstat source (Ok named)]
    ∧ taken fd reads = concat pieces
    ∧ fingerprint opened = fingerprint before ∧ fingerprint after = fingerprint before ∧ fingerprint named = fingerprint before
    ∧ from_json sha256 (as_json s) = Ok s.
Proof.
  intros Hadj Hactive Hz E. assert (us_part_size s = adjust_chunksize DEFAULT_PART_SIZE (sx_size before)
    ∧ sx_size before ≤ MAX_OBJECT_SIZE) as [Hps Hmax].
  { pose proof E as E'. unfold prepare_upload_snapshot in E'. run_ok E'. destruct a3. run_ok E'. injection E' as <- <- <-.
    bsimpl. done. }
  destruct (Hadj (sx_size before)) as [Hd Hten]; [done|]. assert (Hpos : 0 < DEFAULT_PART_SIZE) by done.
  apply prepare_ok in E as (pieces & fd & opened & reads & after & named & Hev & Hcut & Hne & _ & Hs & Hm & _ & Hk & Hc & Ht & F1 & F2 & F3);
    [|done|rewrite Hps; lia|done].
  exists pieces, fd, opened, reads, after, named. do 8 (split; [done|]). apply from_json_as_json.
  eapply evidence_accepted; try done; rewrite ?Hs, ?Hps; rewrite ?Hps in Hm; lia.
Qed.

(** The pass over the Local Copy ends: with a disk that answers and returns no
    more bytes than asked for, and a check of the lease that returns or raises, it
    returns the evidence or raises, whatever the size. *)
Theorem snapshot_pass_ends {P D} `{!Disk P} `{!Environment D} (adjust_chunksize : Z → Z → Z)
    (check_active : eff (world D P) unit) source (w : world D P) :
  (∀ size, 0 < adjust_chunksize DEFAULT_PART_SIZE size) → emits (fun _ => False) check_active →
  (∀ w, (check_active w).2 ≠ Raise StillRunning) → answers (P := P) →
  (prepare_upload_snapshot sha256 adjust_chunksize check_active source w).2 ≠ Raise StillRunning.
Proof. intros Hp Ha He Hd. by apply prepare_ends. Qed.

(** C30: evidence that is read back lays the object out completely: between one and
    ten thousand parts, none longer than the part size or 1 GiB, whose lengths add
    up to the size; written and read once more it is the same evidence. *)
Theorem accepted_evidence_lays_out_object raw s :
  from_json sha256 raw = Ok s →
  (∃ ls, mapM_r (part_length s) (numbers_of s) = Ok ls ∧ foldr Z.add 0 ls = us_size s
         ∧ Forall (fun l => 0 ≤ l ≤ us_part_size s) ls ∧ 1 ≤ Z.of_nat (length ls) ≤ 10000)
  ∧ us_part_size s ≤ MAX_PART_SIZE ∧ from_json sha256 (as_json s) = Ok s.
Proof.
  intros Ha%from_json_accepted. split; [|split; [apply Ha | by apply from_json_as_json]].
  destruct Ha as [Hs [Hp _] Hc Hf _ _]. pose proof (expected_parts_pos (us_size s) (us_part_size s)) as H1.
  unfold DEFAULT_PART_SIZE, CHUNK_SIZE in Hp.
  assert (Hb : (expected_parts (us_size s) (us_part_size s) - 1) * us_part_size s ≤ us_size s
               ∧ us_size s ≤ expected_parts (us_size s) (us_part_size s) * us_part_size s).
  { unfold expected_parts, is_multipart, MULTIPART_THRESHOLD, CHUNK_SIZE. destruct (_ <=? _) eqn:E; [|lia].
    pose proof (Z.div_mod (us_size s + us_part_size s - 1) (us_part_size s) ltac:(lia)) as Hdm.
    pose proof (Z.mod_pos_bound (us_size s + us_part_size s - 1) (us_part_size s) ltac:(lia)).
    assert (1 ≤ (us_size s + us_part_size s - 1) / us_part_size s) by (apply Z.div_le_lower_bound; lia). nia. }
  destruct (part_lengths_sum s (length (us_part_checksums s))) as (ls & E & Hsum & F); [lia|lia|lia|rewrite Hc; lia|].
  exists ls. split; [done|]. rewrite Hsum, Hc. split; [lia|]. split; [done|].
  apply mapM_r_length in E. rewrite length_map, length_seq in E. rewrite E, Hc. lia.
Qed.

(** Whatever text is stored as evidence, reading it gives evidence or one of the
    four errors its readers catch and take for a contradiction: malformed evidence
    never escapes as another failure, nor keeps a reader running. *)
Theorem malformed_evidence_is_caught raw :
  (∃ s, from_json sha256 raw = Ok s) ∨ ∃ e, from_json sha256 raw = Raise e ∧ evidence_error e = true.
Proof.
  destruct (from_json sha256 raw) as [s|e] eqn:E; [left; by exists s | right]. exists e. split; [done|]. by apply (from_json_reads sha256 raw).
Qed.

End claims.

(** ** A concrete pass *)

(** A hash that keeps the first bytes, and a disk with one file of three bytes, of
    which the state is what is left to read. *)
Definition w_prefix_hash (b : bytes) : bytes := take 32 (b ++ replicate 32 x00).
Definition w_content : bytes := [x61; x62; x63].
Definition w_file_stat : file_stat :=
  {| sx_kind := KRegular; sx_dev := 1; sx_ino := 7; sx_size := 3; sx_mtime_ns := 5; sx_ctime_ns := 6 |}.
Definition w_file_disk : Disk bytes := {|
  k_lstat q p := (p, Ok w_file_stat);
  k_stat q p := (p, Ok w_file_stat);
  k_open q p := (p, Ok 3);
  k_fstat fd p := (p, Ok w_file_stat);
  k_read fd p := ([], Ok [Ok p]);
  k_read_byte fd p := (p, Ok tt);
  k_read_some q p := (drop (Z.to_nat q.2) p, Ok (take (Z.to_nat q.2) p));
  k_read_path q p := ([], Ok [Ok p]);
  k_rename q p := (p, Ok tt);
  k_link q p := (p, Ok tt);
  k_unlink q p := (p, Ok tt);
  k_mkdirs q p := (p, Ok tt);
  k_iterdir q p := (p, Ok []);
  k_download q p := (p, Ok ([], Ok tt));
|}.
Definition w_alone : Environment unit := {|
  others _ d := d; clock _ := 0; uuid _ := "u"; cancelled _ _ := false; heartbeat_lost _ := false; stopping _ := false;
  lock_free _ := true;
|}.
Definition w_file_world : world unit bytes :=
  {| w_db := tt; w_cloud := w_content; w_calls := []; w_tables := []; w_steps := 0; w_lost := false; w_ready := true; w_echoes := [] |}.
Definition w_adjust (chunk size : Z) : Z := Z.max chunk ((size + 9999) / 10000).
Definition w_pass : world unit bytes * result (upload_snapshot * file_stat) :=
  prepare_upload_snapshot (Disk0 := w_file_disk) w_prefix_hash w_adjust (eret tt) ["data"; "a.txt"] w_file_world.
Definition w_snapshot : upload_snapshot :=
  {| us_size := 3; us_plaintext_sha256 := hexdigest (w_prefix_hash w_content); us_checksum_type := "FULL_OBJECT";
     us_checksum_sha256 := b64encode (w_prefix_hash w_content); us_part_size := DEFAULT_PART_SIZE;
     us_part_checksums := [b64encode (w_prefix_hash w_content)] |}.

Lemma w_prefix_hash_length b : length (w_prefix_hash b) = 32%nat.
Proof. unfold w_prefix_hash. rewrite length_take, length_app, length_replicate. lia. Qed.

Lemma prepared_snapshot_describes_bytes_read_witness :
  w_pass.2 = Ok (w_snapshot, w_file_stat)
  ∧ ∃ pieces, evidence_of w_prefix_hash w_snapshot pieces ∧ from_json w_prefix_hash (as_json w_snapshot) = Ok w_snapshot.
Proof.
  split; [vm_compute; reflexivity|].
  destruct (prepared_snapshot_describes_bytes_read w_prefix_hash w_prefix_hash_length (Disk0 := w_file_disk) (Environment0 := w_alone)
              w_adjust (eret tt) ["data"; "a.txt"] w_file_world w_pass.1 w_snapshot w_file_stat)
    as (pieces & fd & opened & reads & after & named & Hev & _ & _ & _ & _ & _ & _ & _ & Hr).
  - intros size Hs. unfold w_adjust. pose proof (Z.div_mod (size + 9999) 10000 ltac:(lia)).
    pose proof (Z.mod_pos_bound (size + 9999) 10000 ltac:(lia)). lia.
  - by apply emits_silent.
  - done.
  - vm_compute. reflexivity.
  - exists pieces. by split.
Defined.

Lemma snapshot_pass_ends_witness : w_pass.2 ≠ Raise StillRunning.
Proof.
  apply (snapshot_pass_ends w_prefix_hash (Disk0 := w_file_disk) (Environment0 := w_alone)).
  - intros size. unfold w_adjust, DEFAULT_PART_SIZE, CHUNK_SIZE. lia.
  - by apply emits_silent.
  - intros w. cbn. unfold eret. cbn. discriminate.
  - split; cbn; try discriminate.
    intros fd n p Hn. rewrite length_take. lia.
Defined.

Lemma accepted_evidence_lays_out_object_witness :
  from_json w_prefix_hash (as_json w_snapshot) = Ok w_snapshot
  ∧ ∃ ls, mapM_r (part_length w_snapshot) (numbers_of w_snapshot) = Ok ls ∧ foldr Z.add 0 ls = 3.
Proof.
  assert (E : from_json w_prefix_hash (as_json w_snapshot) = Ok w_snapshot) by (vm_compute; reflexivity). split; [exact E|].
  destruct (accepted_evidence_lays_out_object w_prefix_hash _ _ E) as [(ls & H1 & H2 & _) _]. by exists ls.
Defined.

Definition w_proof : provider_proof :=
  {| pp_version_id := Some "p1"; pp_delete_marker := false; pp_content_length := Some 3; pp_checksum_type := Some "FULL_OBJECT";
     pp_checksum_sha256 := Some (us_checksum_sha256 w_snapshot) |}.

