(* ===== verification/CloudPreflight.v ===== *)
(** * CloudPreflight: the installation-wide readiness of the provider

    Models [src/app/services/cloud_preflight_gate.py] and [validate_cloud_vault]
    of [src/app/storage.py].  One row remembers the outcome of the last probe,
    why it was refused and when to probe again; [w_ready] is [_ready_pid ==
    os.getpid()], whether this process has itself probed with success.  The probe
    (the bucket checks of [_validate_cloud_vault]) is a parameter.  A failed
    commit of the gate ([psycopg.Error]) is not modelled. *)
From S2P Require Import Prelude Sql PyString Schema Json Notifications Effects S3Client S3Copy WorkerJobs.

Definition MAX_REPROBE_SECONDS : Z := 60.
Definition AUTH_REMEDIATION : string :=
  "S3 access was refused. Check AWS credentials and required bucket permissions; Jobs remain queued".

Definition reprobe_seconds (failures : Z) : Z :=
  Z.min MAX_REPROBE_SECONDS (5 * 2 ^ Z.min (Z.max (failures - 1) 0) 4).

Definition no_gate : gate_row :=
  {| gr_status := "unknown"; gr_remediation := None; gr_failure_count := 0; gr_next_probe_at := None |}.

Definition snapshot (d : worker_db) : gate_row := or_default (d_gate d) no_gate.

Definition probe_due (state : gate_row) (now : timestamp) : bool :=
  match gr_next_probe_at state with
  | Some t => negb ((0 <? t - now) && (t - now <=? seconds MAX_REPROBE_SECONDS))
  | None => true
  end.

(** [ready_here]: [_ready_pid == os.getpid()]. *)
Definition dispatch_ready (ready_here : bool) (state : gate_row) (now : timestamp) : bool :=
  ready_here && (gr_status state =b "ready") && negb (probe_due state now).

(** The chain of an exception is the list of its causes, itself first. *)
Definition is_readiness_error (chain : list exn) : bool :=
  existsb (fun e => match e with
                    | ClientError code status =>
                        (code ∈b ["InvalidAccessKeyId"; "SignatureDoesNotMatch"; "AccessDenied"; "AccessDeniedException";
                                  "ExpiredToken"; "InvalidToken"; "TokenRefreshRequired"; "InvalidClientTokenId";
                                  "UnrecognizedClientException"])
                        || (status ∈b [401; 403])
                    | _ => false
                    end) chain.

Definition GATE_KEY : string := "blocked:installation:preflight".

(** Notifications of the per-Vault episodes of earlier releases. *)
Definition old_episode (n : notification) : bool :=
  (no_problem_status n =b Some "open")
  && match no_dedupe_key n with
     | Some k => like "blocked:%:preflight" k && (k <>b GATE_KEY)
     | None => false
     end.

Definition supersede (stamp : timestamp) (n : notification) : notification :=
  set_read (coalesce_at (no_read_at n) stamp) (set_status (Some "resolved") (Some stamp) n).

Section gate.
Context {P : Type} `{!Provider P} `{!Environment worker_db} `{!Messages}.
Notation W := (world worker_db P).

Definition set_ready (b : bool) : eff W unit :=
  modify (fun w => {| w_db := w_db w; w_cloud := w_cloud w; w_calls := w_calls w; w_tables := w_tables w; w_steps := w_steps w;
                      w_lost := w_lost w; w_ready := b; w_echoes := w_echoes w |}).

Definition gate_problem (active : bool) (remediation : string) (at_ : timestamp) (d : worker_db) : result worker_db :=
  '(b, _) ← set_problem notification_text weekly_summary_text smtp_configured (d_inbox d) GATE_KEY
              "cloud_preflight_blocked" None active [("remediation", JStr remediation)] true at_;
  Ok (set_inbox b d).

Definition publish_row (remediation : option string) (failures : Z) (due : timestamp) : gate_row :=
  {| gr_status := if truthy remediation then "blocked" else "ready"; gr_remediation := remediation;
     gr_failure_count := failures; gr_next_probe_at := Some due |}.

Definition publish (remediation : option string) (failures : Z) (due stamp : timestamp) : eff W gate_row :=
  transaction (
    at_ <~ observe clock ;;
    in_db (fun d =>
      let d := set_gate (publish_row remediation failures due) d in
      d ← gate_problem (truthy remediation) (or_default remediation "") at_ d;
      let d := set_inbox (update_notifications old_episode (supersede stamp) (d_inbox d)) d in
      Ok (d, snapshot d))).

Definition invalidate : eff W unit :=
  set_ready false ;;;
  stamp <~ observe clock ;;
  transaction (
    at_ <~ observe clock ;;
    in_db (fun d =>
      let row := {| gr_status := "blocked"; gr_remediation := Some AUTH_REMEDIATION;
                    gr_failure_count := match d_gate d with Some g => gr_failure_count g | None => 0 end;
                    gr_next_probe_at := Some stamp |} in
      if gr_status (snapshot d) =b "blocked" then Ok (d, tt)
      else d ← gate_problem true AUTH_REMEDIATION at_ (set_gate row d); Ok (d, tt))).

(** Probe when the row asks for it, or when it says ready to a process that has
    not probed yet. *)
Definition needs_startup (ready_here : bool) (state : gate_row) : bool := negb ready_here && (gr_status state =b "ready").

Definition reuse_state : eff W (option gate_row) :=
  state <~ read_db snapshot ;;
  ready <~ gets w_ready ;;
  at_ <~ observe clock ;;
  eret (if negb (needs_startup ready state) && negb (probe_due state at_) then Some state else None).

(** The remediation of a failed probe. *)
Definition run_probe (probe : eff W unit) : eff W (option string) :=
  catch (probe ;;; eret None)
    (fun e => eret (Some match e with
                         | ReadinessFailure m => m
                         | _ => "S3 readiness could not be confirmed. Check AWS credentials, bucket configuration and connectivity"
                         end)).

(** The outcome, and the remediation of the probe when one was run. *)
Definition check_in_transaction (probe : eff W unit) (stamp : timestamp) : eff W (gate_row * option (option string)) :=
  reuse <~ reuse_state ;;
  match reuse with
  | Some state => eret (state, None)
  | None =>
      acquired <~ observe lock_free ;;
      state <~ read_db snapshot ;;
      if negb acquired then
        eret ({| gr_status := "blocked";
                 gr_remediation := if truthy (gr_remediation state) then gr_remediation state
                                   else Some "S3 readiness check in progress; Jobs remain queued";
                 gr_failure_count := gr_failure_count state; gr_next_probe_at := gr_next_probe_at state |}, None)
      else
        reuse <~ reuse_state ;;
        match reuse with
        | Some state => eret (state, None)
        | None =>
            remediation <~ run_probe probe ;;
            let failures := if truthy remediation then gr_failure_count state + 1 else 0 in
            completed <~ observe clock ;;
            let due := completed + seconds (if truthy remediation then reprobe_seconds failures else MAX_REPROBE_SECONDS) in
            result <~ publish remediation failures due stamp ;;
            eret (result, Some remediation)
        end
  end.

Definition check (probe : eff W unit) : eff W gate_row :=
  stamp <~ observe clock ;;
  pat! (state, probed) <~ transaction (check_in_transaction probe stamp) ;;
  match probed with
  | Some remediation => set_ready (negb (truthy remediation)) ;;; eret state
  | None => eret state
  end.

Definition validate_cloud_vault (probe : eff W unit) : eff W unit :=
  state <~ check probe ;;
  throw_if (gr_status state <>b "ready")
    (CloudPreflightBlocked (if truthy (gr_remediation state) then or_default (gr_remediation state) ""
                            else "S3 readiness check pending")).
End gate.

(** ** Theorems *)

(** Whatever the row says, and whatever happened to the clock, the queue is
    suspended for a minute at most before the provider is probed again. *)
Lemma suspension_is_bounded state now :
  probe_due state now = true ∨ probe_due state (now + seconds MAX_REPROBE_SECONDS) = true.
Proof.
  unfold probe_due, MAX_REPROBE_SECONDS, seconds. destruct (gr_next_probe_at state) as [t|]; [|by left].
  rewrite !negb_true_iff, !andb_false_iff. lia.
Qed.

Lemma reprobe_seconds_bounds failures : 5 ≤ reprobe_seconds failures ≤ MAX_REPROBE_SECONDS.
Proof.
  unfold reprobe_seconds, MAX_REPROBE_SECONDS. set (n := Z.min (Z.max (failures - 1) 0) 4).
  assert (2 ^ 0 ≤ 2 ^ n) by (apply Z.pow_le_mono_r; lia). lia.
Qed.

Section gate_facts.
Context {P : Type} `{!Provider P} `{!Environment worker_db} `{!Messages}.
Notation W := (world worker_db P).
Context (probe : eff W unit).

(** The probe does not touch the flag of the process and explains its refusals. *)
Class ProbeLaws : Prop := {
  probe_keeps_ready : keeps (fun w w' => w_ready w' = w_ready w) probe;
  probe_explains : ∀ w w', probe w ≠ (w', Raise (ReadinessFailure ""));
}.

#[local] Instance same_ready : PreOrder (fun w w' : W => w_ready w' = w_ready w).
Proof. split; [done | congruence]. Qed.

Lemma transaction_keeps_ready {A} (m : eff W A) :
  keeps (fun w w' => w_ready w' = w_ready w) m → keeps (fun w w' => w_ready w' = w_ready w) (transaction m).
Proof.
  intros Hm w. unfold transaction.
  match goal with |- context [m ?w0] => specialize (Hm w0); destruct (m w0) as [w1 [a|e]] end; exact Hm.
Qed.

Lemma in_db_keeps_ready {A} (f : worker_db → result (worker_db * A)) :
  keeps (fun w w' : W => w_ready w' = w_ready w) (in_db f).
Proof. intros w. unfold in_db. by destruct (f (w_db w)) as [[d a]|e]. Qed.

Lemma reuse_state_ok (w : W) w' state :
  reuse_state w = (w', Ok state) →
  w_ready w' = w_ready w ∧ ∀ s, state = Some s → gr_status s = "ready" → w_ready w = true.
Proof.
  unfold reuse_state, needs_startup. cbn. intros [= <- <-]. split; [done|]. intros s Hs Hr.
  destruct (w_ready w); [done|]. cbn in Hs. case_bool_decide as Hb; [done|]. cbn in Hs.
  destruct (probe_due _ _); [done|]. injection Hs as <-. congruence.
Qed.

Lemma run_probe_ok `{!ProbeLaws} w w' remediation :
  run_probe probe w = (w', Ok remediation) →
  w_ready w' = w_ready w ∧ (truthy remediation = false → ∃ w1, probe w = (w1, Ok tt)).
Proof.
  unfold run_probe, catch, ebind. pose proof (probe_keeps_ready w) as Hk.
  destruct (probe w) as [w1 [[]|e]] eqn:E; cbn in *.
  - intros [= <- <-]. eauto.
  - destruct (catchable e); [|done]. intros [= <- <-]. split; [done|]. intros Ht. exfalso.
    destruct e; try done. cbn in Ht. destruct msg; [|done]. by apply probe_explains in E.
Qed.

Definition probed_well (w : W) : Prop := w_ready w = true ∨ ∃ w1 w2, probe w1 = (w2, Ok tt).

Lemma check_in_transaction_ok `{!ProbeLaws} stamp w w' state probed :
  check_in_transaction probe stamp w = (w', Ok (state, probed)) →
  w_ready w' = w_ready w ∧ (gr_status state = "ready" →
    match probed with
    | None => w_ready w = true
    | Some remediation => truthy remediation = false ∧ ∃ w1 w2, probe w1 = (w2, Ok tt)
    end).
Proof.
  unfold check_in_transaction. intros E. apply ebind_ok in E as (w1 & reuse & [Hr1 Hu1]%reuse_state_ok & E).
  destruct reuse as [s|]; [injection E as <- <- <-; eauto|].
  apply ebind_ok in E as (w2 & acquired & [= <- <-] & E). apply ebind_ok in E as (w3 & s3 & [= <- <-] & E).
  destruct (lock_free _); cbn [negb] in E; [|injection E as <- <- <-; cbn; done].
  apply ebind_ok in E as (w4 & reuse & [Hr2 Hu2]%reuse_state_ok & E). cbn in *.
  destruct reuse as [s|]; [injection E as <- <- <-; split; [congruence | intros ?; rewrite <- Hr1; eauto]|].
  apply ebind_ok in E as (w5 & remediation & [Hr3 Hp]%run_probe_ok & E).
  apply ebind_ok in E as (w6 & at_ & [= <- <-] & E). apply ebind_ok in E as (w7 & row & E1 & [= <- <- <-]).
  split.
  - pose proof (transaction_keeps_ready (A := gate_row)) as Hk.
    match type of E1 with publish ?r ?f ?du ?st ?wx = _ =>
      assert (w_ready (publish r f du st wx).1 = w_ready wx) as Hpub end.
    { apply Hk. apply keeps_bind; [apply _ | by intros ?|]. intros ?. apply in_db_keeps_ready. }
    rewrite E1 in Hpub. cbn in Hpub. congruence.
  - intros Hs. unfold publish in E1. apply transaction_ok in E1 as (w0 & _ & _ & _ & E1).
    apply ebind_ok in E1 as (w8 & at2 & [= <- <-] & E1). unfold in_db in E1. cbn in E1.
    destruct (gate_problem _ _ _ _) as [d|e] eqn:Eg; [|done]. cbn in E1. injection E1 as _ Hrow.
    assert (Hd : d_gate d = Some (publish_row remediation (if truthy remediation then gr_failure_count (snapshot (w_db w1)) + 1 else 0)
              (clock (w_steps w5) + seconds (if truthy remediation then reprobe_seconds (if truthy remediation then gr_failure_count (snapshot (w_db w1)) + 1 else 0) else MAX_REPROBE_SECONDS)))).
    { unfold gate_problem in Eg. destruct (set_problem _ _ _ _ _ _ _ _ _ _ _) as [[b ?]|]; [|done].
      cbn in Eg. injection Eg as <-. reflexivity. }
    unfold snapshot in Hrow. cbn in Hrow. rewrite Hd in Hrow. cbn in Hrow. rewrite <- Hrow in Hs. cbn in Hs.
    destruct (truthy remediation); [done|]. eauto.
Qed.

(** The gate makes the requests of its probe and no other. *)
Lemma validate_emits (p : call → Prop) : keeps (grows p) probe → keeps (grows p) (validate_cloud_vault probe).
Proof.
  intros Hp. unfold validate_cloud_vault, check, check_in_transaction, reuse_state, run_probe, publish, set_ready.
  emits_all.
Qed.

(** The gate opens only on a probe this process made itself.  When
    [validate_cloud_vault] lets work through, the process has its flag set
    afterwards, and it either had it before or has just run the probe with
    success: a row that says ready is never inherited from another process or
    from before a restart. *)
Theorem gate_opens_on_own_probe `{!ProbeLaws} w w' :
  validate_cloud_vault probe w = (w', Ok tt) → w_ready w' = true ∧ probed_well w.
Proof.
  unfold validate_cloud_vault, probed_well. intros E. apply ebind_ok in E as (w1 & state & E & [Hs <-]%throw_if_ok).
  apply negb_false_iff, bool_decide_eq_true in Hs.
  unfold check in E. apply ebind_ok in E as (w2 & stamp & [= <- <-] & E).
  apply ebind_ok in E as (w3 & [st probed] & E1 & E).
  apply transaction_ok in E1 as (w0 & _ & _ & Hr0 & E1). apply check_in_transaction_ok in E1 as [Hr Hp].
  cbn in Hr0. destruct probed as [remediation|].
  - apply ebind_ok in E as (w4 & [] & [= <-] & [= <- ->]). destruct (Hp Hs) as [-> Hw]. split; [done|]. by right.
  - injection E as <- ->. specialize (Hp Hs). split; [congruence|]. left. congruence.
Qed.
End gate_facts.

(** A first start: no row, the probe succeeds, the gate opens. *)
Definition w_no_catalog : catalog :=
  {| t_vaults := []; t_files := []; t_paths := []; t_versions := []; t_markers := []; t_copies := []; t_jobs := [];
     t_items := []; t_stops := []; t_policies := []; t_health := []; t_audit := []; t_dirty := []; t_rebuilds := [];
     t_incidents := []; t_outbox := [] |}.
Definition w_start : world worker_db (list bytes) :=
  {| w_db := w_worker_db w_no_catalog; w_cloud := []; w_calls := []; w_tables := []; w_steps := 0; w_lost := false; w_ready := false; w_echoes := [] |}.
Definition w_validate : world worker_db (list bytes) * result unit :=
  validate_cloud_vault (Environment0 := w_environment) (H := w_messages) (eret tt) w_start.

Lemma gate_opens_on_own_probe_witness :
  w_validate.2 = Ok tt ∧ w_ready w_validate.1 = true ∧ w_ready w_start = false.
Proof.
  assert (L : ProbeLaws (P := list bytes) (eret tt)) by (split; [intros w; reflexivity | intros w w'; discriminate]).
  split; [vm_compute; reflexivity|]. split; [|reflexivity].
  refine (proj1 (gate_opens_on_own_probe (Environment0 := w_environment) (H := w_messages) (eret tt) w_start w_validate.1 _)).
  vm_compute. reflexivity.
Defined.
