(* ===== verification/S3Upload.v ===== *)
(** * S3Upload: sending a file under its evidence

    Models [src/app/services/s3_upload.py].  The transfer manager of s3transfer is
    a parameter: a [manager] is a program that calls the facade ([_UploadClient]) in
    any order, with any bodies, and is told how each call ended.  Its threads are
    interleaved in one sequence, in which [MPoll] is a round of the waiting loop of
    [upload_file] in the worker's thread; once a poll has raised, the waiting thread
    is gone and the manager goes on until its shutdown has joined its requests.

    A body is its length and the chunks its reads yield.  The bandwidth budget, the
    subscribers' plumbing and closing of buffers are left out.  [zlib.crc32] is the
    parameter [crc32], with the four bytes of its value.  The attributes that
    [upload_file] attaches to an exception are fields of its outcome. *)
From S2P Require Import Prelude Sql PyString Schema Effects S3Client S3Copy WorkerJobs LocalFiles CloudPreflight UploadSnapshot.
From Stdlib Require Import Strings.Byte.
Open Scope Z_scope.

Record source_body := { sb_length : Z; sb_reads : body }.

(** ** The manager *)
Record put_call := { pc_bucket : string; pc_key : string; pc_args : upload_args; pc_body : source_body }.
Record part_call := {
  rc_bucket : string;
  rc_key : string;
  rc_upload : string;
  rc_number : Z;
  rc_args : upload_args;
  rc_body : source_body;
}.

Inductive manager :=
  | MDone (future shutdown : result unit)   (* [future.result()] and [manager.shutdown()] *)
  | MPut (q : put_call) (k : result write_answer → manager)
  | MCreate (q : start_request) (k : result string → manager)
  | MPart (q : part_call) (k : result send_answer → manager)
  | MComplete (q : finish_request) (k : result write_answer → manager)
  | MAbort (upload : string) (k : result unit → manager)
  | MProgress (bytes_transferred : Z) (k : result unit → manager)
  | MPoll (k : bool → manager).

(** [_UploadClient]: the answer to the last write that succeeded, and the upload
    that is neither completed nor aborted. *)
Record facade := { fa_response : option write_answer; fa_pending : option string }.

Record transfer_outcome := {
  to_result : result write_answer;
  to_response : option write_answer;   (* [exc.upload_response] *)
  to_no_write : option string;         (* [exc.upload_no_write_operation] *)
}.

Definition set_checksum (checksum : string) (a : upload_args) : upload_args :=
  {| ua_checksum_algorithm := Some "SHA256"; ua_checksum_type := ua_checksum_type a; ua_checksum_sha256 := Some checksum;
     ua_checksum_crc32 := ua_checksum_crc32 a; ua_metadata := ua_metadata a |}.
Definition set_composite (a : upload_args) : upload_args :=
  {| ua_checksum_algorithm := Some "SHA256"; ua_checksum_type := Some "COMPOSITE"; ua_checksum_sha256 := ua_checksum_sha256 a;
     ua_checksum_crc32 := ua_checksum_crc32 a; ua_metadata := ua_metadata a |}.

(** [l[i]], negative indices counting from the end. *)
Definition list_index (l : list string) (i : Z) : result string :=
  let i := if i <? 0 then i + Z.of_nat (length l) else i in
  match (if i <? 0 then None else l !! Z.to_nat i) with
  | Some x => Ok x
  | None => Raise (LookupError "list index out of range")
  end.

Definition number_parts (s : upload_snapshot) (parts : list sent_part) : list sent_part :=
  zip_with (fun p checksum => {| sn_number := sn_number p; sn_etag := sn_etag p; sn_checksum_sha256 := Some checksum |})
    parts (us_part_checksums s).

Section upload.
Context {P D : Type} `{!Provider P} `{!UploadProvider P} `{!Disk P}.
Notation W := (world D P).
Context (sha256 : bytes → bytes) (crc32 : bytes → bytes).
Context (snapshot : option upload_snapshot) (check_active : eff W unit).
Context (on_acknowledged : option (write_answer → eff W unit)) (on_progress : Z → eff W unit).

(** ** The facade *)

(** The body is read into a buffer, [left] bytes are still to come. *)
Fixpoint read_body (left : Z) (reads : body) (buffer : bytes) : eff W bytes :=
  if left =? 0 then eret buffer
  else
    check_active ;;;
    match reads with
    | [] => throw source_changed
    | c :: reads =>
        chunk <~ lift c ;;
        throw! source_changed when bool_decide (chunk = []) ;;
        read_body (left - Z.of_nat (length chunk)) reads (buffer ++ chunk)
    end.

Definition validated_body (s : upload_snapshot) (b : source_body) (number : Z) : eff W bytes :=
  length_ <~ lift (part_length s number) ;;
  throw! source_changed when negb (sb_length b =? length_) ;;
  buffer <~ read_body length_ (sb_reads b) [] ;;
  expected <~ lift (list_index (us_part_checksums s) (number - 1)) ;;
  throw! source_changed when sha256_b64 sha256 buffer <>b expected ;;
  check_active ;;;
  eret buffer.

(** Without evidence the body goes out as it is read. *)
Fixpoint plain_body (reads : body) (buffer : bytes) : result bytes :=
  match reads with
  | [] => Ok buffer
  | c :: reads => chunk ← c; plain_body reads (buffer ++ chunk)
  end.

Definition set_response (a : write_answer) (f : facade) : facade := {| fa_response := Some a; fa_pending := fa_pending f |}.
Definition set_pending (u : option string) (f : facade) : facade := {| fa_response := fa_response f; fa_pending := u |}.

(** The response is kept before anything can raise. *)
Definition acknowledge (a : write_answer) (f : facade) : eff W (facade * result write_answer) :=
  fun w =>
    let f := set_response a f in
    match on_acknowledged with
    | Some hook => match hook a w with
                   | (w', Ok _) => (w', Ok (f, Ok a))
                   | (w', Raise e) => (w', Ok (f, Raise e))
                   end
    | None => (w, Ok (f, Ok a))
    end.

(** A call of the manager: what it raises goes to the manager. *)
Definition told {A} (f : facade) (m : eff W (facade * result A)) : eff W (facade * result A) :=
  catch_all m (fun e => eret (f, Raise e)).

Definition facade_put (q : put_call) (f : facade) : eff W (facade * result write_answer) :=
  told f (
    r <~ match snapshot with
         | Some s =>
             b <~ validated_body s (pc_body q) 1 ;;
             eret {| pu_bucket := pc_bucket q; pu_key := pc_key q; pu_args := set_checksum (us_checksum_sha256 s) (pc_args q); pu_body := b |}
         | None =>
             b <~ lift (plain_body (sb_reads (pc_body q)) []) ;;
             eret {| pu_bucket := pc_bucket q; pu_key := pc_key q; pu_args := pc_args q; pu_body := b |}
         end ;;
    a <~ put_object r ;;
    acknowledge a f).

Definition facade_part (q : part_call) (f : facade) : eff W (facade * result send_answer) :=
  told f (
    match snapshot with
    | Some s =>
        expected <~ lift (list_index (us_part_checksums s) (rc_number q - 1)) ;;
        b <~ validated_body s (rc_body q) (rc_number q) ;;
        a <~ upload_part {| se_bucket := rc_bucket q; se_key := rc_key q; se_upload := rc_upload q; se_number := rc_number q;
                            se_args := set_checksum expected (rc_args q); se_body := b |} ;;
        throw! RuntimeError "S3 upload part checksum mismatch" when
          match sa_checksum_sha256 a with Some c => c <>b expected | None => false end ;;
        eret (f, Ok {| sa_etag := sa_etag a; sa_checksum_sha256 := Some expected |})
    | None =>
        b <~ lift (plain_body (sb_reads (rc_body q)) []) ;;
        a <~ upload_part {| se_bucket := rc_bucket q; se_key := rc_key q; se_upload := rc_upload q; se_number := rc_number q;
                            se_args := rc_args q; se_body := b |} ;;
        eret (f, Ok a)
    end).

Definition facade_create (q : start_request) (f : facade) : eff W (facade * result string) :=
  told f (
    let args := if snapshot then set_composite (st_args q) else st_args q in
    a <~ start_upload {| st_bucket := st_bucket q; st_key := st_key q; st_args := args |} ;;
    match a with
    | Some upload => eret (set_pending (Some upload) f, Ok upload)
    | None => throw (KeyError "UploadId")
    end).

Definition facade_complete (q : finish_request) (f : facade) : eff W (facade * result write_answer) :=
  told f (
    match snapshot with
    | Some s =>
        throw! RuntimeError "Upload Snapshot completion layout mismatch" when
          negb (bool_decide (map sn_number (fi_parts q) = numbers_of s)) ;;
        a <~ finish_upload {| fi_bucket := fi_bucket q; fi_key := fi_key q; fi_upload := fi_upload q; fi_parts := number_parts s (fi_parts q);
                              fi_checksum_type := Some "COMPOSITE"; fi_checksum_sha256 := Some (us_checksum_sha256 s);
                              fi_object_size := Some (us_size s) |} ;;
        acknowledge a (set_pending None f)
    | None =>
        a <~ finish_upload q ;;
        acknowledge a (set_pending None f)
    end).

Definition no_such_upload (e : exn) : bool := match e with ClientError code _ => code =b "NoSuchUpload" | _ => false end.

Definition facade_abort (upload : string) (f : facade) : eff W (facade * result unit) :=
  told f (
    catch_if no_such_upload (abort_multipart_upload upload) (fun _ => eret tt) ;;;
    eret (set_pending None f, Ok tt)).

(** ** A run of the manager *)

(** [failure]: the exception of the worker's thread; the value is the facade, that
    exception, the future and the shutdown. *)
Fixpoint run_manager (m : manager) (f : facade) (failure : option exn)
    : eff W (facade * option exn * result unit * result unit) :=
  match m with
  | MDone future shutdown => eret (f, failure, future, shutdown)
  | MPut q k => pat! (f, r) <~ facade_put q f ;; run_manager (k r) f failure
  | MCreate q k => pat! (f, r) <~ facade_create q f ;; run_manager (k r) f failure
  | MPart q k => pat! (f, r) <~ facade_part q f ;; run_manager (k r) f failure
  | MComplete q k => pat! (f, r) <~ facade_complete q f ;; run_manager (k r) f failure
  | MAbort upload k => pat! (f, r) <~ facade_abort upload f ;; run_manager (k r) f failure
  | MProgress n k =>
      r <~ catch_all (on_progress n ;;; eret (Ok tt)) (fun e => eret (Raise e)) ;; run_manager (k r) f failure
  | MPoll k =>
      match failure with
      | Some _ => run_manager (k false) f failure
      | None =>
          raised <~ catch_all (check_active ;;; eret None) (fun e => eret (Some e)) ;;
          run_manager (k (is_none raised)) f raised
      end
  end.

(** ** The whole transfer *)
Section file.
Context (single_attempt : bool).   (* the write client never repeats a request *)
Context (operation_name : exn → option string).   (* of a [ClientError] *)
Context (program : path → string → string → option Z → upload_args → manager).

Definition WRITE_OPERATIONS : list string := ["PutObject"; "CreateMultipartUpload"; "UploadPart"; "CompleteMultipartUpload"].

Fixpoint check_chunks (reads : body) (content : bytes) : eff W bytes :=
  match reads with
  | [] => eret content
  | c :: reads => chunk <~ lift c ;; check_active ;;; check_chunks reads (content ++ chunk)
  end.

(** The checksum of a file sent without evidence. *)
Definition crc_of_file (source : path) : eff W string :=
  before <~ os_stat_follow source ;;
  reads <~ read_path source ;;
  content <~ check_chunks (until_empty reads) [] ;;
  after <~ os_stat_follow source ;;
  throw! source_changed when negb (same_content_stat before after) ;;
  eret (b64encode (crc32 content)).

Definition extra_args (checksum : option string) (metadata : option (gmap string string)) : upload_args :=
  match snapshot with
  | Some s => {| ua_checksum_algorithm := Some "SHA256"; ua_checksum_type := Some (us_checksum_type s);
                 ua_checksum_sha256 := None; ua_checksum_crc32 := None; ua_metadata := metadata |}
  | None => {| ua_checksum_algorithm := Some "CRC32"; ua_checksum_type := Some "FULL_OBJECT";
               ua_checksum_sha256 := None; ua_checksum_crc32 := checksum; ua_metadata := metadata |}
  end.

Definition before_transfer (source : path) : eff W (option string) :=
  check_active ;;;
  match snapshot with
  | None => c <~ crc_of_file source ;; eret (Some c)
  | Some s =>
      lift (from_json sha256 (as_json s)) ;;;
      info <~ lstat source ;;
      throw! source_changed when negb (sx_size info =? us_size s) ;;
      eret None
  end.

(** The future has a result and nothing has raised so far. *)
Definition conclude (bucket key : string) (checksum : option string) (f : facade) : eff W write_answer :=
  check_active ;;;
  match fa_response f with
  | Some a =>
      throw! RuntimeError "Upload stored without an S3 VersionId; bucket Versioning is required" when
        negb (truthy (wa_version_id a)) || bool_decide (wa_version_id a = Some "null") ;;
      match snapshot with
      | Some _ => eret a
      | None =>
          pat! (claimed, kind) <~
            (if truthy (wa_checksum_crc32 a) then eret (wa_checksum_crc32 a, or_default (wa_checksum_type a) "FULL_OBJECT")
             else
               h <~ head_object {| hr_bucket := bucket; hr_key := key; hr_version := wa_version_id a; hr_checksum_mode := true |} ;;
               throw! RuntimeError "S3 checksum proof returned a different VersionId" when
                 or_default (hd_version_id h) "" <>b or_default (wa_version_id a) "" ;;
               throw! RuntimeError "S3 did not confirm the FULL_OBJECT upload checksum" when
                 negb (bool_decide (hd_checksum_type h = Some "FULL_OBJECT")) ;;
               eret (hd_checksum_crc32 h, or_default (hd_checksum_type h) "FULL_OBJECT")) ;;
          throw! RuntimeError "S3 did not confirm the FULL_OBJECT upload checksum" when
            negb (bool_decide (claimed = checksum)) || (kind <>b "FULL_OBJECT") ;;
          eret a
      end
  | None => throw (RuntimeError "Upload stored without an S3 VersionId; bucket Versioning is required")
  end.

(** The explicit abort; its failure is only logged. *)
Definition abort_pending (f : facade) : eff W facade :=
  match fa_pending f with
  | Some upload => pat! (f, _) <~ facade_abort upload f ;; eret f
  | None => eret f
  end.

(** What the exception carries, after the shutdown. *)
Definition attach (f : facade) (e : exn) : transfer_outcome :=
  {| to_result := Raise e; to_response := fa_response f;
     to_no_write :=
       if is_some (fa_response f) || negb (is_some snapshot) then None
       else match e, operation_name e with
            | ClientError _ _, Some op => if (op ∈b WRITE_OPERATIONS) && is_readiness_error [e] then Some op else None
            | _, _ => None
            end |}.

Definition upload_file (source : path) (bucket key : string) (metadata : option (gmap string string)) : eff W transfer_outcome :=
  checksum <~ before_transfer source ;;
  throw! RuntimeError "Non-idempotent S3 writes require total_max_attempts=1" when negb single_attempt ;;
  pat! (f, failure, future, shutdown) <~
    run_manager (program source bucket key (us_part_size <$> snapshot) (extra_args checksum metadata))
      {| fa_response := None; fa_pending := None |} None ;;
  r <~ match failure with
       | Some e => eret (Raise e)
       | None => catch_all (lift future ;;; a <~ conclude bucket key checksum f ;; eret (Ok a)) (fun e => eret (Raise e))
       end ;;
  f <~ abort_pending f ;;
  match r, shutdown with
  | Raise e, _ => eret (attach f e)
  | Ok a, Raise e => eret (attach f e)
  | Ok a, Ok _ => eret {| to_result := Ok a; to_response := None; to_no_write := None |}
  end.
End file.
End upload.

(** ** What the calls of a transfer show *)

(** The last write that was acknowledged. *)
Definition note_write (acc : option write_answer) (c : call) : option write_answer :=
  match c with CPut _ (Ok a) | CFinish _ (Ok a) => Some a | _ => acc end.
Definition last_write (cs : list call) : option write_answer := foldl note_write None cs.

(** The last multipart upload, unless it was completed or aborted. *)
Definition note_pending (acc : option string) (c : call) : option string :=
  match c with
  | CStart _ (Ok (Some upload)) => Some upload
  | CFinish _ (Ok _) => None
  | CAbort _ (Ok _) => None
  | CAbort _ (Raise e) => if catchable e && no_such_upload e then None else acc
  | _ => acc
  end.
Definition unfinished_upload (cs : list call) : option string := foldl note_pending None cs.

Section facts.
Context {P D : Type} `{!Provider P} `{!UploadProvider P} `{!Disk P}.
Notation W := (world D P).
Context (sha256 : bytes → bytes) (crc32 : bytes → bytes).
Context (snapshot : option upload_snapshot) (check_active : eff W unit).
Context (on_acknowledged : option (write_answer → eff W unit)) (on_progress : Z → eff W unit).
(** The callbacks talk to the tables, not to the provider or the disk. *)
Context (Hactive : emits (fun _ => False) check_active).
Context (Hack : ∀ hook a, on_acknowledged = Some hook → emits (fun _ => False) (hook a)).
Context (Hprogress : ∀ n, emits (fun _ => False) (on_progress n)).

(** Bytes of a part of the evidence, with the checksum of that part. *)
Definition is_part (s : upload_snapshot) (number : Z) (b : bytes) (checksum : string) : Prop :=
  list_index (us_part_checksums s) (number - 1) = Ok checksum ∧ sha256_b64 sha256 b = checksum
  ∧ part_length s number = Ok (Z.of_nat (length b)).

Definition evidenced (c : call) : Prop :=
  match snapshot, c with
  | Some s, CPut q _ => ∃ checksum, is_part s 1 (pu_body q) checksum ∧ ua_checksum_sha256 (pu_args q) = Some (us_checksum_sha256 s)
  | Some s, CSend q _ => ∃ checksum, is_part s (se_number q) (se_body q) checksum ∧ ua_checksum_sha256 (se_args q) = Some checksum
  | Some s, CFinish q _ =>
      map sn_number (fi_parts q) = numbers_of s ∧ map sn_checksum_sha256 (fi_parts q) = map Some (us_part_checksums s)
      ∧ fi_checksum_sha256 q = Some (us_checksum_sha256 s) ∧ fi_object_size q = Some (us_size s)
  | _, _ => True
  end.

(** The facade against the calls since [h]. *)
Record tracks (h : list call) (f : facade) (w : W) : Prop := {
  tr_calls : ∃ new, w_calls w = h ++ new ∧ fa_response f = last_write new ∧ fa_pending f = unfinished_upload new ∧ Forall evidenced new;
}.

Lemma tracks_silent h f (w w' : W) : w_calls w' = w_calls w → tracks h f w → tracks h f w'.
Proof. intros E [H]. split. by rewrite E. Qed.

Lemma tracks_call h f (w w' : W) c f' :
  tracks h f w → w_calls w' = w_calls w ++ [c] → evidenced c →
  fa_response f' = note_write (fa_response f) c → fa_pending f' = note_pending (fa_pending f) c → tracks h f' w'.
Proof.
  intros [(new & E & Hr & Hp & F)] E' Hc Hr' Hp'. split. exists (new ++ [c]). rewrite E', E, app_assoc. split; [done|].
  unfold last_write, unfinished_upload. rewrite !foldl_app. cbn. rewrite Hr', Hp', Hr, Hp. do 2 (split; [done|]).
  apply Forall_app. split; [done|]. by repeat constructor.
Qed.

Lemma active_calls w w' r : check_active w = (w', r) → w_calls w' = w_calls w.
Proof. by apply silent_calls. Qed.

Lemma read_body_quiet left reads buffer : emits (fun _ => False) (read_body check_active left reads buffer).
Proof.
  revert left buffer. induction reads as [|c reads IH]; intros left buffer; cbn; destruct (left =? 0); unfold emits in *; emits_all.
Qed.

Lemma read_body_ok left reads buffer (w w' : W) b :
  read_body check_active left reads buffer w = (w', Ok b) → Z.of_nat (length b) = Z.of_nat (length buffer) + left.
Proof.
  revert left buffer w. induction reads as [|c reads IH]; intros left buffer w E; cbn in E; destruct (left =? 0) eqn:E0.
  1, 3: injection E as <- <-; lia.
  - apply ebind_ok in E as (w1 & [] & _ & E). done.
  - run_ok E. apply IH in E. rewrite length_app in E. lia.
Qed.

Lemma validated_body_quiet s b number : emits (fun _ => False) (validated_body sha256 check_active s b number).
Proof. unfold validated_body. pose proof read_body_quiet. unfold emits in *. emits_all. Qed.

Lemma validated_body_ok s b number (w w' : W) buffer :
  validated_body sha256 check_active s b number w = (w', Ok buffer) →
  ∃ checksum, is_part s number buffer checksum.
Proof.
  unfold validated_body. intros E. run_ok E. injection E as <- <-. apply lift_ok in Hm as [Hp ->], Hm1 as [Hi ->].
  apply read_body_ok in Hm0. bsimpl. exists a1. split; [done|]. split; [done|]. rewrite Hp. f_equal. cbn in Hm0. lia.
Qed.

Lemma part_of_index s number b checksum : is_part s number b checksum → list_index (us_part_checksums s) (number - 1) = Ok checksum.
Proof. by intros [? _]. Qed.

(** However an operation of the facade ends, the facade it leaves is the one the
    calls show. *)
Definition after {A} (f : facade) (res : result (facade * A)) : facade :=
  match res with Ok (f', _) => f' | Raise _ => f end.
Definition leaves (h : list call) (f : facade) (w : W) {A} (m : eff W (facade * A)) : Prop :=
  ∀ w' res, m w = (w', res) → tracks h (after f res) w'.

Lemma leaves_quiet {A B} h f (w : W) (m : eff W A) (k : A → eff W (facade * B)) :
  tracks h f w → emits (fun _ => False) m → (∀ w1 a, m w = (w1, Ok a) → tracks h f w1 → leaves h f w1 (k a)) →
  leaves h f w (ebind m k).
Proof.
  intros Ht Hm Hk w' res E. apply ebind_cases in E as [(e & E & ->)|(w1 & a & E1 & E)].
  - eapply tracks_silent; [by eapply silent_calls | done].
  - eapply Hk; [done | | done]. eapply tracks_silent; [by eapply silent_calls | done].
Qed.

Lemma leaves_told {A} h f (w : W) (m : eff W (facade * result A)) : leaves h f w m → leaves h f w (told f m).
Proof.
  intros Hm w' res. unfold told, catch_all. destruct (m w) as [w1 [[f1 r]|e]] eqn:E; intros [= <- <-]; by apply Hm in E.
Qed.

Lemma leaves_value {A} h f (w : W) f' (a : A) : tracks h f' w → leaves h f w (eret (f', a)).
Proof. by intros Ht w' res [= <- <-]. Qed.

Lemma leaves_throw {A} h f (w : W) e : tracks h f w → leaves h f w (throw (A := facade * A) e).
Proof. by intros Ht w' res [= <- <-]. Qed.

(** A request whose answer the facade does not look at. *)
Lemma leaves_request {Q A B} h f (w : W) (op : Q → P → P * result A) record q (k : A → eff W (facade * B)) :
  tracks h f w → (∀ r, evidenced (record q r)) → (∀ e, note_write (fa_response f) (record q (Raise e)) = fa_response f) →
  (∀ e, note_pending (fa_pending f) (record q (Raise e)) = fa_pending f) →
  (∀ w1 a, w_calls w1 = w_calls w ++ [record q (Ok a)] → leaves h f w1 (k a)) → leaves h f w (ebind (request op record q) k).
Proof.
  intros Ht Hev Hw Hp Hk w' res E. apply ebind_cases in E as [(e & E & ->)|(w1 & a & E1 & E)].
  - apply request_run in E as [E _]. by eapply tracks_call.
  - apply request_run in E1 as [E1 _]. by eapply Hk.
Qed.

Lemma leaves_acknowledge h f f1 (w : W) a :
  tracks h (set_response a f1) w → leaves h f w (acknowledge on_acknowledged a f1).
Proof.
  intros Ht w' res. unfold acknowledge. destruct on_acknowledged as [hook|] eqn:Eh; [|by intros [= <- <-]].
  destruct (hook a w) as [w1 [[]|e]] eqn:E; intros [= <- <-]; (eapply tracks_silent; [|exact Ht]);
    eapply silent_calls; [by apply Hack | exact E | by apply Hack | exact E].
Qed.

Lemma facade_put_leaves h f w q : tracks h f w → leaves h f w (facade_put sha256 snapshot check_active on_acknowledged q f).
Proof.
  intros Ht. apply leaves_told. apply leaves_quiet; [done| |].
  { pose proof validated_body_quiet. unfold emits in *. destruct snapshot; emits_all. }
  intros w1 r E Ht1.
  assert (Hev : ∀ x, evidenced (CPut r x)).
  { intros x. unfold evidenced. destruct snapshot as [s|]; [|done]. run_ok E. injection E as <- <-.
    apply validated_body_ok in Hm as (c & Hc). exists c. by split. }
  apply leaves_request; [done|done|done|done|]. intros w2 a E2. apply leaves_acknowledge. by eapply tracks_call.
Qed.

Lemma facade_part_leaves h f w q : tracks h f w → leaves h f w (facade_part sha256 snapshot check_active q f).
Proof.
  intros Ht. apply leaves_told. destruct snapshot as [s|] eqn:Es.
  - apply leaves_quiet; [done | unfold emits; emits_all|]. intros w1 expected E1 Ht1. apply lift_ok in E1 as [E1 ->].
    apply leaves_quiet; [done | apply validated_body_quiet|]. intros w2 b E2 Ht2.
    apply validated_body_ok in E2 as (c & Hc). pose proof (part_of_index _ _ _ _ Hc) as Hi. rewrite Hi in E1. injection E1 as ->.
    apply leaves_request; [done|by intros r; unfold evidenced; rewrite Es; cbn; eauto|done|done|]. intros w3 a E3.
    assert (Ht3 : tracks h f w3) by (eapply tracks_call; eauto; unfold evidenced; rewrite Es; cbn; eauto).
    apply leaves_quiet; [done | unfold emits; emits_all|]. intros w4 [] E4 Ht4. by apply leaves_value.
  - apply leaves_quiet; [done | unfold emits; emits_all|]. intros w1 b E1 Ht1.
    apply leaves_request; [done|by intros r; unfold evidenced; rewrite Es|done|done|]. intros w3 a E3.
    apply leaves_value. eapply tracks_call; eauto. unfold evidenced. by rewrite Es.
Qed.

Lemma not_evidence c : match c with CPut _ _ | CSend _ _ | CFinish _ _ => False | _ => True end → evidenced c.
Proof. unfold evidenced. by destruct snapshot, c. Qed.

Lemma facade_create_leaves h f w q : tracks h f w → leaves h f w (facade_create snapshot q f).
Proof.
  intros Ht. apply leaves_told. apply leaves_request; [done|by intros; apply not_evidence|done|done|]. intros w1 a E.
  destruct a as [upload|]; [apply leaves_value | apply leaves_throw]; (eapply tracks_call; [done|done|by apply not_evidence|done|done]).
Qed.

Lemma number_parts_ok s parts :
  map sn_number parts = numbers_of s →
  map sn_number (number_parts s parts) = numbers_of s
  ∧ map sn_checksum_sha256 (number_parts s parts) = map Some (us_part_checksums s).
Proof.
  intros Hn. assert (Hl : length parts = length (us_part_checksums s)).
  { apply (f_equal length) in Hn. unfold numbers_of in Hn. by rewrite !length_map, length_seq in Hn. }
  rewrite <- Hn. clear Hn. unfold number_parts. revert Hl. generalize (us_part_checksums s).
  induction parts as [|p parts IH]; intros [|c cs] Hl; try done. cbn in *. destruct (IH cs) as [H1 H2]; [lia|]. by rewrite H1, H2.
Qed.

Lemma facade_complete_leaves h f w q : tracks h f w → leaves h f w (facade_complete snapshot on_acknowledged q f).
Proof.
  intros Ht. apply leaves_told. destruct snapshot as [s|] eqn:Es.
  - apply leaves_quiet; [done | unfold emits; emits_all|]. intros w1 [] E1 Ht1. apply throw_if_ok in E1 as [Hb ->]. bsimpl.
    assert (Hev : ∀ x, evidenced (CFinish {| fi_bucket := fi_bucket q; fi_key := fi_key q; fi_upload := fi_upload q;
      fi_parts := number_parts s (fi_parts q); fi_checksum_type := Some "COMPOSITE"; fi_checksum_sha256 := Some (us_checksum_sha256 s);
      fi_object_size := Some (us_size s) |} x)).
    { intros x. unfold evidenced. rewrite Es. cbn. destruct (number_parts_ok s (fi_parts q)) as [H1 H2]; done. }
    apply leaves_request; [done|done|done|done|]. intros w2 a E2. apply leaves_acknowledge. by eapply tracks_call.
  - apply leaves_request; [done|by intros; unfold evidenced; rewrite Es|done|done|]. intros w2 a E2. apply leaves_acknowledge.
    eapply tracks_call; eauto. unfold evidenced. by rewrite Es.
Qed.

Lemma facade_abort_leaves h f w upload : tracks h f w → leaves h f w (facade_abort upload f).
Proof.
  intros Ht. apply leaves_told. intros w' res E. apply ebind_cases in E as [(e & E & ->)|(w1 & [] & E1 & E)].
  - unfold catch_if, catch in E. destruct (abort_multipart_upload upload w) as [w1 [[]|e1]] eqn:Ea; [done|].
    apply request_run in Ea as [Ea _]. destruct (catchable e1) eqn:Ec.
    + destruct (no_such_upload e1) eqn:En; [done|]. injection E as <- <-. eapply tracks_call; [done|done|by apply not_evidence|done|].
      cbn. by rewrite Ec, En.
    + injection E as <- <-. eapply tracks_call; [done|done|by apply not_evidence|done|]. cbn. by rewrite Ec.
  - injection E as <- <-. cbn. unfold catch_if, catch in E1. destruct (abort_multipart_upload upload w) as [w2 [[]|e1]] eqn:Ea.
    + injection E1 as <-. apply request_run in Ea as [Ea _]. by eapply tracks_call; [done|done|apply not_evidence|..].
    + apply request_run in Ea as [Ea _]. destruct (catchable e1) eqn:Ec; [|done]. destruct (no_such_upload e1) eqn:En; [|done].
      injection E1 as <-. eapply tracks_call; [done|done|by apply not_evidence|done|]. cbn. by rewrite Ec, En.
Qed.

Lemma told_value {A} f (m : eff W (facade * result A)) w : ∃ w' f' r, told f m w = (w', Ok (f', r)).
Proof. unfold told, catch_all. destruct (m w) as [w' [[f' r]|e]]; eauto. Qed.

Lemma run_manager_value m f failure w w' e :
  run_manager sha256 snapshot check_active on_acknowledged on_progress m f failure w = (w', Raise e) → False.
Proof.
  assert (Hb : ∀ A B C (m : eff W (A * B)) (k : A → B → eff W C) w, (∃ w1 a b, m w = (w1, Ok (a, b))) →
    (∀ a b w1, k a b w1 ≠ (w', Raise e)) → (pat! (a, b) <~ m ;; k a b) w ≠ (w', Raise e)).
  { intros A B C m' k w0 (w1 & a & b & E) Hk. unfold ebind. by rewrite E. }
  assert (Hc : ∀ A (m : eff W A) h w0 w1 x, (∀ e w, ∃ a, h e w = (w, Ok a)) → catch_all m h w0 = (w1, Raise x) → False).
  { intros A m' h w0 w1 x Hh. unfold catch_all. destruct (m' w0) as [w2 [a|e']]; [done|]. by destruct (Hh e' w2) as [a ->]. }
  revert f failure w. induction m as [? ?|q k IH|q k IH|q k IH|q k IH|q k IH|n k IH|k IH]; intros f failure w; cbn; [done|..].
  1-5: by apply Hb; [apply told_value | intros a b w1 E; apply IH in E].
  - intros E. apply ebind_cases in E as [(e' & E & _)|(w1 & r & _ & E)]; [|by apply IH in E]. apply Hc in E; [done|eauto].
  - destruct failure; [apply IH|]. intros E. apply ebind_cases in E as [(e' & E & _)|(w1 & r & _ & E)]; [|by apply IH in E].
    apply Hc in E; [done|eauto].
Qed.

(** Every operation of the manager, in any order. *)
Lemma run_manager_tracks m h f failure w w' f' failure' future shutdown :
  tracks h f w →
  run_manager sha256 snapshot check_active on_acknowledged on_progress m f failure w = (w', Ok (f', failure', future, shutdown)) →
  tracks h f' w'.
Proof.
  revert f failure w. induction m as [? ?|q k IH|q k IH|q k IH|q k IH|q k IH|n k IH|k IH]; intros f failure w Ht E; cbn in E.
  - by injection E as <- <- <- <- <-.
  - apply ebind_ok in E as (w1 & [f1 r1] & E1 & E). eapply (facade_put_leaves h) in E1; [|exact Ht]. by eapply IH.
  - apply ebind_ok in E as (w1 & [f1 r1] & E1 & E). eapply (facade_create_leaves h) in E1; [|exact Ht]. by eapply IH.
  - apply ebind_ok in E as (w1 & [f1 r1] & E1 & E). eapply (facade_part_leaves h) in E1; [|exact Ht]. by eapply IH.
  - apply ebind_ok in E as (w1 & [f1 r1] & E1 & E). eapply (facade_complete_leaves h) in E1; [|exact Ht]. by eapply IH.
  - apply ebind_ok in E as (w1 & [f1 r1] & E1 & E). eapply (facade_abort_leaves h) in E1; [|exact Ht]. by eapply IH.
  - apply ebind_ok in E as (w1 & r1 & E1 & E). eapply IH; [|exact E]. eapply tracks_silent; [|done].
    eapply silent_calls; [|exact E1]. pose proof Hprogress. unfold silent, emits in *. emits_all.
  - destruct failure as [e|]; [by eapply IH|]. apply ebind_ok in E as (w1 & r1 & E1 & E). eapply IH; [|exact E].
    eapply tracks_silent; [|done]. eapply silent_calls; [|exact E1]. unfold silent, emits in *. emits_all.
Qed.

(** Calls that write nothing. *)
Definition neutral (c : call) : Prop :=
  match c with CPut _ _ | CStart _ _ | CSend _ _ | CFinish _ _ | CAbort _ _ => False | _ => True end.

Lemma tracks_neutral {A} h f (m : eff W A) w w' r : emits neutral m → tracks h f w → m w = (w', r) → tracks h f w'.
Proof.
  intros Hm [(new & E & Hr & Hp & F)] Em. eapply emits_calls in Em as (more & Ec & Fm); [|exact Hm]. split. exists (new ++ more).
  rewrite Ec, E, app_assoc. split; [done|]. unfold last_write, unfinished_upload in *. rewrite !foldl_app, <- Hr, <- Hp.
  assert (∀ a b, foldl note_write a more = a ∧ foldl note_pending b more = b) as Hn.
  { clear Ec. induction Fm as [|c more Hc _ IH]; [done|]. intros a b. destruct c; try done; cbn; apply IH. }
  destruct (Hn (fa_response f) (fa_pending f)) as [-> ->]. do 2 (split; [done|]). apply Forall_app. split; [done|].
  eapply Forall_impl; [exact Fm|]. intros c Hc. apply not_evidence. by destruct c.
Qed.

Lemma quiet_neutral {A} (m : eff W A) : emits (fun _ => False) m → emits neutral m.
Proof. by apply emits_mono. Qed.

Lemma check_chunks_neutral reads content : emits neutral (check_chunks check_active reads content).
Proof.
  pose proof (quiet_neutral _ Hactive). unfold emits in *. revert content. induction reads as [|c reads IH]; intros content; cbn; emits_all.
Qed.

Lemma before_transfer_neutral source : emits neutral (before_transfer sha256 crc32 snapshot check_active source).
Proof.
  pose proof (quiet_neutral _ Hactive). pose proof check_chunks_neutral.
  unfold before_transfer, crc_of_file, lstat, os_stat_follow, read_path, emits in *. emits_all.
Qed.

Lemma conclude_neutral bucket key checksum f : emits neutral (conclude snapshot check_active bucket key checksum f).
Proof. pose proof (quiet_neutral _ Hactive). unfold conclude, head_object, emits in *. emits_all. Qed.

(** The response of a transfer that is concluded has an exact version. *)
Lemma conclude_ok bucket key checksum f (w w' : W) a :
  conclude snapshot check_active bucket key checksum f w = (w', Ok a) →
  fa_response f = Some a ∧ truthy (wa_version_id a) = true ∧ wa_version_id a ≠ Some "null".
Proof.
  unfold conclude. intros E. run_ok E. destruct (fa_response f) as [b|]; [|done]. run_ok E.
  apply orb_false_iff in Hb as [Ht%negb_false_iff Hn%bool_decide_eq_false].
  enough (b = a) as -> by done. destruct snapshot; [by injection E|]. run_ok E. destruct a1 as [c k]. run_ok E. by injection E.
Qed.

Lemma abort_pending_tracks h f (w w' : W) f' :
  tracks h f w → abort_pending f w = (w', Ok f') →
  tracks h f' w' ∧ (fa_pending f' = None ∨ ∃ u e, fa_pending f' = Some u ∧ last (w_calls w') = Some (CAbort u (Raise e)))
  ∧ fa_response f' = fa_response f.
Proof.
  intros Ht. unfold abort_pending. destruct (fa_pending f) as [u|] eqn:Ep.
  2:{ intros [= <- <-]. split; [done|]. split; [by left|done]. }
  intros E. apply ebind_ok in E as (w1 & [f1 r1] & E1 & E). injection E as <- <-. split; [by eapply (facade_abort_leaves h) in E1|].
  unfold facade_abort, told, catch_all, catch_if, catch, ebind in E1.
  destruct (abort_multipart_upload u w) as [w2 [[]|e]] eqn:Ea; [injection E1 as <- <- <-; cbn; auto|].
  apply request_run in Ea as [Ea _]. destruct (catchable e); [destruct (no_such_upload e)|]; injection E1 as <- <- <-; cbn; auto.
  all: split; [|done]; right; exists u, e; split; [done|]; by rewrite Ea, last_snoc.
Qed.

Context (single_attempt : bool) (operation_name : exn → option string).
Context (program : path → string → string → option Z → upload_args → manager).

(** What a transfer left behind, in the words of its calls. *)
Definition reported (new : list call) (res : result transfer_outcome) : Prop :=
  match res with
  | Ok o =>
      match to_result o with
      | Ok a => last_write new = Some a ∧ truthy (wa_version_id a) = true ∧ wa_version_id a ≠ Some "null"
      | Raise _ => to_response o = last_write new ∧ (is_some (to_no_write o) = true → last_write new = None)
      end
  | Raise _ => last_write new = None
  end.

Lemma upload_file_tracks source bucket key metadata (w w' : W) res :
  upload_file sha256 crc32 snapshot check_active on_acknowledged on_progress single_attempt operation_name program
    source bucket key metadata w = (w', res) →
  ∃ new, w_calls w' = w_calls w ++ new ∧ Forall evidenced new ∧ reported new res
    ∧ (unfinished_upload new = None ∨ ∃ u e, unfinished_upload new = Some u ∧ last new = Some (CAbort u (Raise e))).
Proof.
  assert (H0 : tracks (w_calls w) {| fa_response := None; fa_pending := None |} w) by (split; exists []; by rewrite app_nil_r).
  assert (Hearly : ∀ w1 e, tracks (w_calls w) {| fa_response := None; fa_pending := None |} w1 →
    ∃ new, w_calls w1 = w_calls w ++ new ∧ Forall evidenced new ∧ reported new (Raise e)
      ∧ (unfinished_upload new = None ∨ ∃ u e, unfinished_upload new = Some u ∧ last new = Some (CAbort u (Raise e)))).
  { intros w1 e [(new & E & Hr & Hp & F)]. exists new. do 2 (split; [done|]). split; [done | by left]. }
  unfold upload_file. intros E. apply ebind_cases in E as [(e & E & ->)|(w1 & checksum & E1 & E)].
  { eapply Hearly, tracks_neutral; [apply before_transfer_neutral | done | done]. }
  eapply tracks_neutral in H0; [|apply before_transfer_neutral | exact E1]. clear E1.
  apply ebind_cases in E as [(e & E & ->)|(w2 & [] & E2 & E)].
  { destruct single_attempt; cbn in E; [done|]. injection E as <- <-. by eapply Hearly. }
  apply throw_if_ok in E2 as [_ ->]. apply ebind_cases in E as [(e & E & ->)|(w3 & [[[f failure] future] shutdown] & E3 & E)].
  { exfalso. by eapply run_manager_value in E. }
  eapply run_manager_tracks in E3; [|exact H0]. apply ebind_cases in E as [(e & E & _)|(w4 & r & E4 & E)].
  { exfalso. destruct failure; [done|]. unfold catch_all in E. by destruct (ebind _ _ _) as [? [?|?]]. }
  assert (Ht4 : tracks (w_calls w) f w4 ∧ ∀ a, r = Ok a → fa_response f = Some a ∧ truthy (wa_version_id a) = true ∧ wa_version_id a ≠ Some "null").
  { destruct failure as [e|]; [by injection E4 as <- <-|]. split.
    - eapply tracks_neutral; [|exact E3|exact E4]. pose proof conclude_neutral. unfold emits in *. emits_all.
    - intros a ->. unfold catch_all in E4. destruct (ebind _ _ w3) as [w5 [x|e]] eqn:E5; [|by injection E4].
      injection E4 as <- ->. run_ok E5. injection E5 as <- <-. by eapply conclude_ok. }
  destruct Ht4 as [Ht4 Hok]. apply ebind_cases in E as [(e & E & _)|(w5 & f5 & E5 & E)].
  { exfalso. unfold abort_pending, facade_abort in E. destruct (fa_pending f); [|done]. unfold ebind at 1 in E.
    match type of E with context [told ?f ?m ?x] => destruct (told_value f m x) as (? & ? & ? & Et) end. by rewrite Et in E. }
  apply (abort_pending_tracks (w_calls w)) in E5 as ([(new & Ec & Hr & Hp & F)] & Hpend & Hresp); [|done].
  assert (Hend : (unfinished_upload new = None ∨ ∃ u e, unfinished_upload new = Some u ∧ last new = Some (CAbort u (Raise e)))).
  { rewrite <- Hp. destruct Hpend as [Hn|(u & e & Hu & Hl)]; [by left|]. right. exists u, e. split; [done|].
    destruct (decide (new = [])) as [->|Hne]; [cbn in Hp; congruence|]. rewrite Ec, last_app in Hl. by destruct (last new) eqn:En; [|apply last_None in En]. }
  exists new. assert (w_calls w' = w_calls w5 ∧ reported new res) as [-> Hrep]; [|done].
  destruct r as [a|e]; [destruct shutdown as [u|e]|]; injection E as <- <-; (split; [done|]); cbn; rewrite <- Hr, Hresp.
  - destruct (Hok a eq_refl) as (H1 & H2 & H3). done.
  - split; [done|]. by destruct (fa_response f).
  - split; [done|]. by destruct (fa_response f).
Qed.
End facts.

(** ** Claims *)
Section claims.
Context {P D : Type} `{!Provider P} `{!UploadProvider P} `{!Disk P}.
Notation W := (world D P).
Context (sha256 : bytes → bytes) (crc32 : bytes → bytes).

Lemma part_piece s pieces number b checksum :
  evidence_of sha256 s pieces → is_part sha256 s number b checksum →
  ∃ piece, pieces !! Z.to_nat (number - 1) = Some piece ∧ checksum = sha256_b64 sha256 piece ∧ (b = piece ∨ collision sha256).
Proof.
  intros [_ _ Hpa _ _ _] (Hi & Hs & Hl). unfold part_length in Hl. inv_ok. bsimpl.
  unfold list_index in Hi. replace (number - 1 <? 0) with false in Hi by lia. cbn in Hi.
  replace (number - 1 <? 0) with false in Hi by lia. rewrite Hpa in Hi.
  change (map (sha256_b64 sha256) pieces) with (sha256_b64 sha256 <$> pieces) in Hi. rewrite list_lookup_fmap in Hi.
  destruct (pieces !! Z.to_nat (number - 1)) as [piece|]; [|done]. cbn in Hi. injection Hi as <-. exists piece.
  do 2 (split; [done|]). apply b64encode_inj in Hs. by apply equal_digest.
Qed.

(** The bytes of a request are those of the evidence, its checksums the recorded ones. *)
Definition sends_evidence (s : upload_snapshot) (pieces : list bytes) (c : call) : Prop :=
  match c with
  | CPut q _ => ∃ piece, pieces !! 0%nat = Some piece ∧ (pu_body q = piece ∨ collision sha256)
                         ∧ ua_checksum_sha256 (pu_args q) = Some (us_checksum_sha256 s)
  | CSend q _ => ∃ piece, pieces !! Z.to_nat (se_number q - 1) = Some piece ∧ (se_body q = piece ∨ collision sha256)
                          ∧ ua_checksum_sha256 (se_args q) = Some (sha256_b64 sha256 piece)
  | CFinish q _ => map sn_number (fi_parts q) = numbers_of s
                   ∧ map sn_checksum_sha256 (fi_parts q) = map (fun piece => Some (sha256_b64 sha256 piece)) pieces
                   ∧ fi_checksum_sha256 q = Some (us_checksum_sha256 s) ∧ fi_object_size q = Some (us_size s)
  | _ => True
  end.

(** C15: whatever the transfer manager does and however its requests are interleaved
    with cancellation, a file sent under evidence goes out only as that evidence: a
    body is the part of the bytes the evidence was taken from (or SHA-256 is
    broken), it carries the recorded checksum, and an upload is completed only with
    all parts in order, their recorded checksums and the recorded size. *)
Theorem only_evidenced_bytes_are_sent (check_active : eff W unit) on_acknowledged on_progress single_attempt operation_name program
    s pieces source bucket key metadata (w w' : W) res :
  emits (fun _ => False) check_active → (∀ hook a, on_acknowledged = Some hook → emits (fun _ => False) (hook a)) →
  (∀ n, emits (fun _ => False) (on_progress n)) → evidence_of sha256 s pieces →
  upload_file sha256 crc32 (Some s) check_active on_acknowledged on_progress single_attempt operation_name program
    source bucket key metadata w = (w', res) →
  ∃ new, w_calls w' = w_calls w ++ new ∧ ∀ c, c ∈ new → sends_evidence s pieces c.
Proof.
  intros Ha Hk Hp Hev E. apply upload_file_tracks in E as (new & Ec & F & _); [|done..]. exists new. split; [done|].
  intros c Hc. rewrite Forall_forall in F. specialize (F _ Hc). destruct c; try done; cbn in *.
  - destruct F as (t & Hpart & Hx). destruct (part_piece _ _ _ _ _ Hev Hpart) as (piece & H1 & _ & H3). by exists piece.
  - destruct F as (t & Hpart & Hx). destruct (part_piece _ _ _ _ _ Hev Hpart) as (piece & H1 & H2 & H3). exists piece.
    split; [done|]. split; [done|]. by rewrite Hx, H2.
  - destruct F as (H1 & H2 & H3 & H4). rewrite H2, (ev_parts _ _ _ Hev), map_map. done.
Qed.

(** C28: no acknowledged write is lost and no multipart upload is left behind: a
    transfer that succeeds returns the answer to its last write, with an exact
    version; one that fails, also after cancellation, carries the answer to the last
    write that was acknowledged, and the mark that nothing was written only when
    none was; and the last multipart upload was completed or aborted, unless the
    abort, the last request made, failed itself. *)
Theorem acknowledged_writes_are_reported (snapshot : option upload_snapshot) (check_active : eff W unit) on_acknowledged on_progress
    single_attempt operation_name program source bucket key metadata (w w' : W) res :
  emits (fun _ => False) check_active → (∀ hook a, on_acknowledged = Some hook → emits (fun _ => False) (hook a)) →
  (∀ n, emits (fun _ => False) (on_progress n)) →
  upload_file sha256 crc32 snapshot check_active on_acknowledged on_progress single_attempt operation_name program
    source bucket key metadata w = (w', res) →
  ∃ new, w_calls w' = w_calls w ++ new ∧ reported new res
    ∧ (unfinished_upload new = None ∨ ∃ u e, unfinished_upload new = Some u ∧ last new = Some (CAbort u (Raise e))).
Proof.
  intros Ha Hk Hp E. apply upload_file_tracks in E as (new & Ec & _ & Hr & Hend); [|done..]. by exists new.
Qed.
End claims.

(** ** A concrete transfer *)

(** A provider that stores what it is sent, and two managers: one sends the file
    with a single request, one starts a multipart upload and gives it up. *)
Definition w_refuses {A} (p : bytes) : bytes * result A := (p, Raise (ClientError "AccessDenied" 403)).
Definition w_reads : Provider bytes := {|
  p_list _ := w_refuses; p_head _ := w_refuses; p_get _ := w_refuses; p_tags _ := w_refuses; p_delete _ := w_refuses;
  p_copy _ := w_refuses; p_create _ := w_refuses; p_part _ := w_refuses; p_complete _ := w_refuses;
  p_abort _ p := (p, Ok tt); p_delete_batch _ := w_refuses; p_restore _ := w_refuses;
|}.
Definition w_answer : write_answer :=
  {| wa_version_id := Some "p1"; wa_etag := None; wa_checksum_sha256 := None; wa_checksum_type := None; wa_checksum_crc32 := None;
     wa_content_length := None; wa_storage_class := None |}.
Definition w_writes : UploadProvider bytes := {|
  u_put q p := (pu_body q, Ok w_answer);
  u_start q p := (p, Ok (Some "u1"));
  u_send q p := (p, Ok {| sa_etag := Some "e"; sa_checksum_sha256 := None |});
  u_finish q p := (p, Raise (ClientError "InternalError" 500));
  u_list q := w_refuses;
|}.
Definition w_body : source_body := {| sb_length := 3; sb_reads := [Ok w_content] |}.
Definition w_put_program (source : path) (bucket key : string) (part_size : option Z) (args : upload_args) : manager :=
  MPoll (fun _ => MPut {| pc_bucket := bucket; pc_key := key; pc_args := args; pc_body := w_body |}
                    (fun r => MDone (_ ← r; Ok tt) (Ok tt))).
Definition w_multipart_program (source : path) (bucket key : string) (part_size : option Z) (args : upload_args) : manager :=
  MCreate {| st_bucket := bucket; st_key := key; st_args := args |}
    (fun _ => MPoll (fun _ => MDone (Raise (ClientError "InternalError" 500)) (Ok tt))).
Definition w_upload program : world unit bytes * result transfer_outcome :=
  upload_file (Provider0 := w_reads) (UploadProvider0 := w_writes) (Disk0 := w_file_disk) w_prefix_hash w_prefix_hash
    (Some w_snapshot) (eret tt) None (fun _ => eret tt) true (fun _ => None) program ["data"; "a.txt"] "bucket" "key" None w_file_world.

Lemma only_evidenced_bytes_are_sent_witness :
  w_cloud (w_upload w_put_program).1 = w_content
  ∧ ∃ new, w_calls (w_upload w_put_program).1 = new ∧ ∀ c, c ∈ new → sends_evidence w_prefix_hash w_snapshot [w_content] c.
Proof.
  split; [vm_compute; reflexivity|].
  destruct (only_evidenced_bytes_are_sent (Provider0 := w_reads) (UploadProvider0 := w_writes) (Disk0 := w_file_disk)
              w_prefix_hash w_prefix_hash (eret tt) None (fun _ => eret tt) true (fun _ => None) w_put_program w_snapshot [w_content]
              ["data"; "a.txt"] "bucket" "key" None w_file_world (w_upload w_put_program).1 (w_upload w_put_program).2) as (new & Ec & Hn).
  - by apply emits_silent.
  - done.
  - intros n. by apply emits_silent.
  - split; try (vm_compute; reflexivity). intros [|i] piece Hi; [|done]. injection Hi as <-. vm_compute. reflexivity.
  - vm_compute. reflexivity.
  - exists new. by split.
Defined.

Lemma acknowledged_writes_are_reported_witness :
  reported (w_calls (w_upload w_put_program).1) (w_upload w_put_program).2
  ∧ last (w_calls (w_upload w_multipart_program).1) = Some (CAbort "u1" (Ok tt)).
Proof.
  split; [|vm_compute; reflexivity].
  destruct (acknowledged_writes_are_reported (Provider0 := w_reads) (UploadProvider0 := w_writes) (Disk0 := w_file_disk)
              w_prefix_hash w_prefix_hash (Some w_snapshot) (eret tt) None (fun _ => eret tt) true (fun _ => None) w_put_program
              ["data"; "a.txt"] "bucket" "key" None w_file_world (w_upload w_put_program).1 (w_upload w_put_program).2) as (new & Ec & Hr & _).
  - by apply emits_silent.
  - done.
  - intros n. by apply emits_silent.
  - vm_compute. reflexivity.
  - rewrite Ec. exact Hr.
Defined.
