(* ===== verification/UploadReconcile.v ===== *)
(** * UploadReconcile: finding out what became of a send

    Models the provider side of [src/app/services/upload_provenance.py]: the
    inventory of a key, what a refused listing means, and [reconcile], which for a
    send that may have happened adopts the one version that carries its token,
    proves that nothing was written, or refuses.

    [provider_identity] (the endpoint and region of the client), the readiness probe
    of the bucket and the classification of network errors of botocore are
    parameters.  A chain of causes is the exception itself.  The fields of an answer
    are the items of a dictionary; only the ones the source looks at are kept. *)
From S2P Require Import Prelude Sql PyString Json JsonText Schema UploadTables Effects S3Client S3Copy WorkerJobs LocalFiles UploadSnapshot CloudPreflight.
From Stdlib Require Import Strings.Byte.
Open Scope Z_scope.

Definition UPLOAD_TOKEN_KEY : string := "frostvault-upload".
Definition CREDENTIAL_CODES : list string :=
  ["InvalidAccessKeyId"; "SignatureDoesNotMatch"; "ExpiredToken"; "InvalidToken"; "TokenRefreshRequired"; "InvalidClientTokenId";
   "UnrecognizedClientException"].

(** ** Answers as dictionaries *)
Definition fields := list (string * json).

Definition text_field (k : string) (v : option string) : fields := match v with Some t => [(k, JStr t)] | None => [] end.
Definition number_field (k : string) (v : option Z) : fields := match v with Some n => [(k, JInt n)] | None => [] end.

(** [append_receipt] keeps these and no others. *)
Definition RECEIPT_FIELDS : list string :=
  ["VersionId"; "ETag"; "ChecksumSHA256"; "ChecksumType"; "ContentLength"; "StorageClass"].

Definition write_fields (a : write_answer) : fields :=
  text_field "VersionId" (wa_version_id a) ++ text_field "ETag" (wa_etag a) ++ text_field "ChecksumSHA256" (wa_checksum_sha256 a)
  ++ text_field "ChecksumType" (wa_checksum_type a) ++ number_field "ContentLength" (wa_content_length a)
  ++ text_field "StorageClass" (wa_storage_class a).
Definition head_fields (h : head_answer) : fields :=
  text_field "VersionId" (hd_version_id h) ++ text_field "ETag" (hd_etag h) ++ text_field "ChecksumSHA256" (hd_checksum_sha256 h)
  ++ text_field "ChecksumType" (hd_checksum_type h) ++ number_field "ContentLength" (hd_content_length h)
  ++ text_field "StorageClass" (hd_storage_class h).

(** [{**a, **b}]. *)
Definition merge_fields (a b : fields) : fields := foldl (fun d kv => dict_put d kv.1 kv.2) a b.

Definition get_text (d : fields) (k : string) : option string :=
  match dict_get d k with Some (JStr t) => Some t | _ => None end.
Definition get_number (d : fields) (k : string) : option Z :=
  match dict_get d k with Some (JInt n) => Some n | _ => None end.

Definition proof_of_fields (d : fields) : provider_proof :=
  {| pp_version_id := get_text d "VersionId"; pp_delete_marker := false; pp_content_length := get_number d "ContentLength";
     pp_checksum_type := get_text d "ChecksumType"; pp_checksum_sha256 := get_text d "ChecksumSHA256" |}.

Definition version_set (l : list string) : gset string := list_to_set l.

Definition carries (token : string) (h : head_answer) : bool :=
  bool_decide ((hd_metadata h ≫= lookup UPLOAD_TOKEN_KEY) = Some token).

Section reconcile.
Context {P D : Type} `{!Provider P} `{!UploadProvider P}.
Notation W := (world D P).
Context (sha256 : bytes → bytes) (provider_identity : string) (fuel : nat).
Context (network_error names_checksum_mode : exn → bool) (bucket_still_ready : eff W bool) (check_active : eff W unit).

(** ** Listings that may be refused *)
Definition is_provider_unreachable (e : exn) : bool :=
  is_readiness_error [e] || network_error e
  || match e with ClientError _ status => (500 <=? status) && (status <? 600) | _ => false end.

Definition listing_block_reason (e : exn) : eff W (option string) :=
  match e with
  | ClientError code status =>
      if (code ∈b ["AccessDenied"; "AccessDeniedException"]) || (status =? 403) then
        if code ∈b CREDENTIAL_CODES then eret None
        else ready <~ bucket_still_ready ;; eret (if ready : bool then Some "list_permission_denied" else None)
      else eret (if is_provider_unreachable e then None else Some "inventory_changed")
  | _ => eret (if is_provider_unreachable e then None else Some "inventory_changed")
  end.

Definition guarded_listing {A} (call : eff W A) : eff W A :=
  catch call (fun e =>
    match e with
    | UploadBlocked _ | ProvenAbsent => throw e
    | _ => reason <~ listing_block_reason e ;;
           match reason with None => throw e | Some r => throw (UploadBlocked r) end
    end).

Definition inventory (bucket key : string) : eff W key_inventory :=
  pat! (versions, markers) <~ guarded_listing (object_version_entries fuel bucket key) ;;
  eret {| ki_versions := sort_by String.leb (map fst versions); ki_markers := sort_by String.leb (map fst markers) |}.

(** ** Unfinished multipart uploads *)
Fixpoint upload_pages (fuel : nat) (q : uploads_request) (found : list string) (seen : list (string * string)) : eff W (list string) :=
  match fuel with
  | O => throw StillRunning
  | S fuel =>
      pg <~ guarded_listing (list_multipart_uploads q) ;;
      match up_truncated pg with
      | None => throw (UploadBlocked "ambiguous_send")
      | Some truncated =>
          let found := found ++ omap (fun u => if bool_decide (u.1 = Some (lu_prefix q))
                                               then Some (if truthy u.2 then or_default u.2 "" else "?") else None) (up_uploads pg) in
          if negb truncated then eret found
          else
            let marker := (or_default (up_next_key pg) "", or_default (up_next_upload pg) "") in
            throw! UploadBlocked "ambiguous_send" when (marker.1 =b "") || (marker ∈b seen) ;;
            upload_pages fuel {| lu_bucket := lu_bucket q; lu_prefix := lu_prefix q; lu_key_marker := Some marker.1;
                                 lu_upload_marker := if marker.2 =b "" then None else Some marker.2 |} found (marker :: seen)
      end
  end.

Definition incomplete_uploads (bucket key : string) : eff W (list string) :=
  upload_pages fuel {| lu_bucket := bucket; lu_prefix := key; lu_key_marker := None; lu_upload_marker := None |} [] [].

Definition prove_absent (pinned : pinned_target) (before : key_inventory) : eff W fields :=
  check_active ;;;
  found <~ incomplete_uploads (tg_bucket pinned) (tg_key pinned) ;;
  throw! UploadBlocked "ambiguous_send" when negb (bool_decide (found = [])) ;;
  check_active ;;;
  now <~ inventory (tg_bucket pinned) (tg_key pinned) ;;
  throw! UploadBlocked "inventory_changed" when negb (bool_decide (now = before)) ;;
  throw ProvenAbsent.

(** ** One observation of the key *)
Definition version_request (pinned : pinned_target) (version : string) (checksum : bool) : head_request :=
  {| hr_bucket := tg_bucket pinned; hr_key := tg_key pinned; hr_version := Some version; hr_checksum_mode := checksum |}.

Definition wrong_head (version : string) (h : head_answer) : bool :=
  (or_default (hd_version_id h) "" <>b version) || hd_delete_marker h.

Definition match_version (intent : upload_intent) (matches : list (string * head_answer)) (version : string)
    : eff W (list (string * head_answer)) :=
  check_active ;;;
  h <~ head_object (version_request (ui_target intent) version false) ;;
  throw! UploadBlocked "ambiguous_receipt" when wrong_head version h ;;
  eret (if carries (ui_token intent) h then matches ++ [(version, h)] else matches).

Definition observe_key (intent : upload_intent) : eff W (key_inventory * list (string * head_answer) * key_inventory) :=
  let pinned := ui_target intent in
  first <~ inventory (tg_bucket pinned) (tg_key pinned) ;;
  matches <~ efold (match_version intent) [] (ki_versions first) ;;
  second <~ inventory (tg_bucket pinned) (tg_key pinned) ;;
  eret (first, matches, second).

(** The validations of one version against the evidence; a contradiction blocks. *)
Definition blocked_mismatch {A} (r : result A) : result A :=
  match r with Raise (UploadProofMismatch _) => Raise (UploadBlocked "proof_mismatch") | r => r end.

Definition validate_version (intent : upload_intent) (saved : option fields) (version : string) (h : head_answer)
    : result (option upload_evidence) :=
  blocked_mismatch (
    expected ← from_json sha256 (ui_snapshot intent);
    proof ← validated_s3_proof (proof_of_head h) version expected "exact_head" false;
    _ ← match saved with
        | Some d => validated_s3_proof (proof_of_fields d) version expected "upload_response" true
        | None => Ok None
        end;
    Ok proof).

Definition other_version (saved : option fields) (version : string) : bool :=
  match saved with Some d => negb (bool_decide (get_text d "VersionId" = Some version)) | None => false end.

Definition own_write_arrived (intent : upload_intent) (saved : option fields) (before first second : key_inventory) : eff W bool :=
  let added := version_set (ki_versions second) ∖ version_set (ki_versions first) in
  if negb (bool_decide (first = before)) || negb (bool_decide (ki_markers second = ki_markers before))
     || negb (size added =? 1)%nat
     || negb (bool_decide (version_set (ki_versions second) = version_set (ki_versions before) ∪ added))
  then eret false
  else
    let version := or_default (head (elements added)) "" in
    throw! UploadBlocked "ambiguous_receipt" when other_version saved version ;;
    check_active ;;;
    answer <~ catch (h <~ head_object (version_request (ui_target intent) version true) ;; eret (Some h))
                (fun e => if unsupported_checksum_api names_checksum_mode e then eret None else throw e) ;;
    match answer with
    | None => eret false
    | Some h =>
        throw! UploadBlocked "ambiguous_receipt" when wrong_head version h ;;
        if negb (carries (ui_token intent) h) then eret false
        else proof <~ lift (validate_version intent saved version h) ;; eret (is_some proof)
    end.

(** The observation is repeated once, for the very write of this intent. *)
Definition settled_observation (intent : upload_intent) (saved : option fields)
    : eff W (key_inventory * list (string * head_answer)) :=
  pat! (first, matches, second) <~ observe_key intent ;;
  if bool_decide (first = second) then eret (first, matches)
  else
    arrived <~ own_write_arrived intent saved (ui_inventory intent) first second ;;
    throw! UploadBlocked "inventory_changed" when negb arrived ;;
    pat! (first, matches, second) <~ observe_key intent ;;
    throw! UploadBlocked "inventory_changed" when negb (bool_decide (first = second)) ;;
    eret (first, matches).

Definition reconcile (intent : upload_intent) (saved : option fields) : eff W fields :=
  let pinned := ui_target intent in
  let before := ui_inventory intent in
  throw! UploadBlocked "identity_changed" when negb (bool_decide (Some provider_identity = tg_provider pinned)) ;;
  pat! (first, matches) <~ settled_observation intent saved ;;
  match matches with
  | [] =>
      (if is_none saved && bool_decide (first = before) then prove_absent pinned before else eret []) ;;;
      throw (UploadBlocked "ambiguous_send")
  | [(version, h)] =>
      throw! UploadBlocked "inventory_changed" when
        (version ∈b ki_versions before) || negb (bool_decide (ki_markers first = ki_markers before))
        || negb (bool_decide (version_set (ki_versions first) = version_set (ki_versions before) ∪ {[ version ]})) ;;
      throw! UploadBlocked "ambiguous_receipt" when other_version saved version ;;
      lift (validate_version intent saved version h) ;;;
      eret (dict_put (merge_fields (head_fields h) (or_default saved [])) "VersionId" (JStr version))
  | _ => throw (UploadBlocked "ambiguous_receipt")
  end.
End reconcile.

(** ** What an observation has seen *)
Section observed.
Context (pinned : pinned_target).

(** Pages that list the key to the end, and show this inventory. *)
Record complete_listing (inv : key_inventory) (pages : list (list_request * page)) : Prop := {
  cl_pages : paginated pages;
  cl_key : Forall (fun x => lr_bucket x.1 = tg_bucket pinned ∧ lr_prefix x.1 = tg_key pinned) pages;
  cl_versions : ki_versions inv = sort_by String.leb (map fst (concat (map (fun x => exact_items (tg_key pinned) (pg_versions x.2)) pages)));
  cl_markers : ki_markers inv = sort_by String.leb (map fst (concat (map (fun x => exact_items (tg_key pinned) (pg_markers x.2)) pages)));
}.

Definition head_calls (versions : list string) (heads : list head_answer) : list call :=
  zip_with (fun v h => CHead (version_request pinned v false) (Ok h)) versions heads.

(** Two complete listings with the same inventory, and between them a HEAD of every
    version listed, of which [matches] carry the token. *)
Record observed (token : string) (inv : key_inventory) (matches : list (string * head_answer)) (calls : list call) : Prop := {
  ob_calls : ∃ pages1 heads pages2,
    calls = listed_calls pages1 ++ head_calls (ki_versions inv) heads ++ listed_calls pages2
    ∧ complete_listing inv pages1 ∧ complete_listing inv pages2
    ∧ Forall2 (fun v h => wrong_head v h = false) (ki_versions inv) heads
    ∧ matches = List.filter (fun vh => carries token vh.2) (zip (ki_versions inv) heads);
}.

(** Pages of unfinished uploads, to the end, without one of this key. *)
Fixpoint uploads_paginated (l : list (uploads_request * uploads_page)) : Prop :=
  match l with
  | [] => False
  | [(_, pg)] => up_truncated pg = Some false
  | (_, pg) :: ((q, _) :: _) as l => up_truncated pg = Some true ∧ lu_key_marker q = up_next_key pg ∧ uploads_paginated l
  end.
Record no_unfinished (pages : list (uploads_request * uploads_page)) : Prop := {
  nu_pages : uploads_paginated pages;
  nu_key : Forall (fun x => lu_bucket x.1 = tg_bucket pinned ∧ lu_prefix x.1 = tg_key pinned) pages;
  nu_none : Forall (fun x => ∀ u, u ∈ up_uploads x.2 → u.1 ≠ Some (tg_key pinned)) pages;
}.
Definition uploads_calls (pages : list (uploads_request * uploads_page)) : list call := map (fun x => CListUploads x.1 (Ok x.2)) pages.
End observed.

Section facts.
Context {P D : Type} `{!Provider P} `{!UploadProvider P}.
Notation W := (world D P).
Context (sha256 : bytes → bytes) (provider_identity : string) (fuel : nat).
Context (network_error names_checksum_mode : exn → bool) (bucket_still_ready : eff W bool) (check_active : eff W unit).
Context (Hactive : silent check_active).

Lemma guarded_listing_ok {A} (call : eff W A) w w' a :
  guarded_listing network_error bucket_still_ready call w = (w', Ok a) → call w = (w', Ok a).
Proof.
  unfold guarded_listing, catch. destruct (call w) as [w1 [b|e]]; [done|]. destruct (catchable e); [|done].
  destruct e; try done; intros E; run_ok E; destruct a0; done.
Qed.

Lemma inventory_ok pinned (w w' : W) inv :
  inventory fuel network_error bucket_still_ready (tg_bucket pinned) (tg_key pinned) w = (w', Ok inv) →
  ∃ pages, w_calls w' = w_calls w ++ listed_calls pages ∧ complete_listing pinned inv pages.
Proof.
  unfold inventory. intros E. apply ebind_ok in E as (w1 & [vs ms] & E1 & E). injection E as <- <-.
  apply guarded_listing_ok in E1. apply object_version_entries_exact in E1 as (pages & Ec & Hp & Hf & -> & -> & _).
  exists pages. split; [done|]. by split.
Qed.

Lemma match_versions_ok intent versions matches (w w' : W) matches' :
  efold (match_version check_active intent) matches versions w = (w', Ok matches') →
  ∃ heads, w_calls w' = w_calls w ++ head_calls (ui_target intent) versions heads
    ∧ Forall2 (fun v h => wrong_head v h = false) versions heads
    ∧ matches' = matches ++ List.filter (fun vh => carries (ui_token intent) vh.2) (zip versions heads).
Proof.
  revert matches w. induction versions as [|v versions IH]; intros matches w E; cbn in E.
  { injection E as <- <-. exists []. cbn. rewrite !app_nil_r. by repeat constructor. }
  apply ebind_ok in E as (w1 & m1 & E1 & E). unfold match_version in E1. run_ok E1. rename a0 into h.
  eapply silent_calls in Hm; [|done]. apply request_ok in Hm0 as [Hc _]. injection E1 as <- <-.
  apply IH in E as (heads & Ec & F & ->). exists (h :: heads). rewrite Ec, Hc, Hm, <- app_assoc. split; [done|].
  split; [by constructor|]. cbn. destruct (carries _ h); [by rewrite <- app_assoc | done].
Qed.

Lemma observe_key_ok intent (w w' : W) first matches second :
  observe_key fuel network_error bucket_still_ready check_active intent w = (w', Ok (first, matches, second)) → first = second →
  ∃ new, w_calls w' = w_calls w ++ new ∧ observed (ui_target intent) (ui_token intent) first matches new.
Proof.
  unfold observe_key. intros E ->. run_ok E. injection E as <- -> -> ->.
  apply inventory_ok in Hm as (pages1 & C1 & L1). apply match_versions_ok in Hm0 as (heads & C2 & F & Hf).
  apply inventory_ok in Hm1 as (pages2 & C3 & L2). eexists. split; [rewrite C3, C2, C1, <- !app_assoc; done|].
  split. exists pages1, heads, pages2. done.
Qed.

(** Everything before the decision only lists and looks. *)
Definition looking (c : call) : Prop := match c with CList _ _ | CHead _ _ | CListUploads _ _ => True | _ => False end.
Context (Hready : emits looking bucket_still_ready).

Lemma active_looking : keeps (grows looking) check_active.
Proof. by eapply emits_mono; [|exact Hactive]. Qed.
#[local] Hint Resolve active_looking : eff.

Lemma guarded_looking {A} (call : eff W A) :
  keeps (grows looking) call → keeps (grows looking) (guarded_listing network_error bucket_still_ready call).
Proof.
  intros Hc. pose proof Hready. unfold guarded_listing, listing_block_reason, emits in *.
  apply keeps_catch; [apply _|done|]. intros e. destruct e; emits_all.
Qed.

Lemma list_pages_looking n q st seen : keeps (grows looking) (list_pages (D := D) (P := P) n q st seen).
Proof.
  revert q st seen. induction n as [|n IH]; intros q st seen; cbn; [emits_all|]. unfold list_object_versions. emits_all.
Qed.

Lemma inventory_looking bucket key : keeps (grows looking) (inventory fuel network_error bucket_still_ready bucket key).
Proof.
  unfold inventory. apply keeps_bind; [apply _| |intros [vs ms]; emits_all]. apply guarded_looking, list_pages_looking.
Qed.
#[local] Hint Resolve inventory_looking : eff.

Lemma observe_key_looking intent : keeps (grows looking) (observe_key fuel network_error bucket_still_ready check_active intent).
Proof. unfold observe_key, match_version, head_object. emits_all. Qed.
#[local] Hint Resolve observe_key_looking : eff.

Lemma own_write_looking intent saved before first second :
  keeps (grows looking) (own_write_arrived sha256 names_checksum_mode check_active intent saved before first second).
Proof. unfold own_write_arrived, head_object. emits_all. Qed.
#[local] Hint Resolve own_write_looking : eff.

Lemma settled_observation_ok intent saved (w w' : W) first matches :
  settled_observation sha256 fuel network_error names_checksum_mode bucket_still_ready check_active intent saved w
    = (w', Ok (first, matches)) →
  ∃ pre new, w_calls w' = w_calls w ++ pre ++ new ∧ Forall looking pre
    ∧ observed (ui_target intent) (ui_token intent) first matches new.
Proof.
  unfold settled_observation. intros E. apply ebind_ok in E as (w1 & [[f1 m1] s1] & E1 & E).
  destruct (bool_decide_reflect (f1 = s1)) as [He|_].
  - injection E as <- <- <-. apply observe_key_ok in E1 as (new & Ec & Ho); [|done]. exists [], new. by rewrite Ec.
  - apply ebind_ok in E as (w2 & arrived & E2 & E). apply throw_bind_ok in E as [_ E].
    apply ebind_ok in E as (w3 & [[f2 m2] s2] & E3 & E). apply throw_bind_ok in E as [Hb E]. injection E as <- <- <-.
    apply negb_false_iff, bool_decide_eq_true in Hb. apply observe_key_ok in E3 as (new & Ec & Ho); [|done].
    eapply emits_calls in E1 as (p1 & C1 & F1); [|apply observe_key_looking].
    eapply emits_calls in E2 as (p2 & C2 & F2); [|apply own_write_looking].
    exists (p1 ++ p2), new. rewrite Ec, C2, C1, <- !app_assoc. split; [done|]. split; [by apply Forall_app|done].
Qed.

Lemma upload_pages_ok n q found seen (w w' : W) res :
  upload_pages network_error bucket_still_ready n q found seen w = (w', Ok res) →
  ∃ pages, w_calls w' = w_calls w ++ uploads_calls pages ∧ uploads_paginated pages ∧ fst <$> head pages = Some q
    ∧ Forall (fun x => lu_bucket x.1 = lu_bucket q ∧ lu_prefix x.1 = lu_prefix q) pages
    ∧ ∃ mine, res = found ++ mine ∧ (mine = [] → Forall (fun x => ∀ u, u ∈ up_uploads x.2 → u.1 ≠ Some (lu_prefix q)) pages).
Proof.
  revert q found seen w. induction n as [|n IH]; intros q found seen w E; [done|]. cbn in E.
  apply ebind_ok in E as (w1 & pg & E1 & E). apply guarded_listing_ok in E1. apply request_ok in E1 as [C1 _].
  destruct (up_truncated pg) as [truncated|] eqn:Ht; [|done].
  set (own := omap _ (up_uploads pg)) in E.
  assert (Hown : own = [] → ∀ u, u ∈ up_uploads pg → u.1 ≠ Some (lu_prefix q)).
  { intros Hn u Hu Hk. assert (Hx : (if truthy u.2 then or_default u.2 "" else "?") ∈ own).
    { apply list_elem_of_omap. exists u. split; [done|]. by rewrite bool_decide_eq_true_2. }
    rewrite Hn in Hx. by apply elem_of_nil in Hx. }
  destruct truncated; cbn [negb] in E.
  - run_ok E. apply orb_false_iff in Hb as [Hk _].
    apply IH in E as (pages & Ec & Hp & Hq & Hf & rest & -> & Hn). cbn in *.
    exists ((q, pg) :: pages). rewrite Ec, C1, <- app_assoc. split; [done|].
    destruct pages as [|[q1 pg1] pages]; [done|]. injection Hq as Hq. split; [|split; [done|split; [by constructor|]]].
    + split; [done|]. split; [|done]. rewrite Hq. cbn. apply bool_decide_eq_false in Hk. by destruct (up_next_key pg).
    + exists (own ++ rest). split; [by rewrite app_assoc|]. intros [Ho Hr]%app_nil. constructor; [by apply Hown | by apply Hn].
  - injection E as <- <-. exists [(q, pg)]. rewrite C1. split; [done|]. split; [done|]. split; [done|].
    split; [by repeat constructor|]. exists own. split; [done|]. intros Hn. constructor; [by apply Hown | constructor].
Qed.

(** *** Only the proof itself raises [ProvenAbsent] *)
Definition sound {A} (r : result A) : Prop := r ≠ Raise ProvenAbsent.
Definition never {A} (m : eff W A) : Prop := ∀ w, sound (m w).2.

Lemma sound_bind {A B} (r : result A) (f : A → result B) : sound r → (∀ a, sound (f a)) → sound (r ≫= f).
Proof. intros Hr Hf. destruct r; [apply Hf | unfold sound in *; cbn; congruence]. Qed.
Lemma sound_guard b e : e ≠ ProvenAbsent → sound (raise_if b e).
Proof. intros He. destruct b; unfold sound; cbn; congruence. Qed.
Lemma sound_foldM {A B} (f : A → B → result A) l a : (∀ a b, sound (f a b)) → sound (foldM_r f a l).
Proof. intros Hf. revert a. induction l as [|b l IH]; intros a; cbn; [done|]. apply sound_bind; [apply Hf | apply IH]. Qed.

Lemma never_bind {A B} (m : eff W A) (f : A → eff W B) : never m → (∀ a, never (f a)) → never (ebind m f).
Proof. intros Hm Hf w. specialize (Hm w). unfold ebind. destruct (m w) as [w1 [a|e]]; [apply Hf | unfold sound in *; cbn in *; congruence]. Qed.
Lemma never_ret {A} (a : A) : never (eret a).
Proof. done. Qed.
Lemma never_throw {A} e : e ≠ ProvenAbsent → never (throw (A := A) e).
Proof. intros He w. unfold sound. cbn. congruence. Qed.
Lemma never_guard b e : e ≠ ProvenAbsent → never (throw_if b e).
Proof. intros He. destruct b; [by apply never_throw | done]. Qed.
Lemma never_lift {A} (r : result A) : sound r → never (lift r).
Proof. by intros Hr w. Qed.
Lemma never_catch {A} (m : eff W A) h : never m → (∀ e, e ≠ ProvenAbsent → never (h e)) → never (catch m h).
Proof.
  intros Hm Hh w. specialize (Hm w). unfold catch. destruct (m w) as [w1 [a|e]]; [done|]. cbn in Hm.
  destruct (catchable e); [apply Hh; unfold sound in Hm; congruence | done].
Qed.
Lemma never_request {Q A} (op : Q → P → P * result A) record q : (∀ q p, sound (op q p).2) → never (request op record q).
Proof. intros Ho w. specialize (Ho q (w_cloud w)). unfold request. by destruct (op q (w_cloud w)). Qed.
Lemma never_fold {S A} (f : S → A → eff W S) s l : (∀ s a, never (f s a)) → never (efold f s l).
Proof. intros Hf. revert s. induction l as [|a l IH]; intros s; cbn; [apply never_ret | by apply never_bind]. Qed.

Lemma from_json_sound raw : sound (from_json sha256 raw).
Proof. intros E. by apply from_json_reads in E. Qed.

Lemma check_sound proof version s completion : sound (check_s3_proof proof version s completion).
Proof. unfold check_s3_proof. repeat first [apply sound_guard; done | apply sound_bind; [|intros ?] | done]. Qed.

Lemma validate_sound intent saved version h : sound (validate_version sha256 intent saved version h).
Proof.
  assert (Hb : ∀ A (r : result A), sound r → sound (blocked_mismatch r)) by (intros A [a|[]]; done).
  apply Hb. apply sound_bind; [apply from_json_sound|]. intros s. unfold validated_s3_proof.
  repeat first [apply check_sound | apply sound_bind; [|intros ?] | done | destruct saved].
Qed.

Context (Hlist : ∀ q p, sound (p_list q p).2) (Hhead : ∀ q p, sound (p_head q p).2) (Huploads : ∀ q p, sound (u_list q p).2).
Context (Hactive_never : never check_active) (Hready_never : never bucket_still_ready).

Ltac never_all :=
  repeat first
    [ solve [auto 2] | apply never_ret | apply never_throw; done | apply never_guard; done | apply never_request; assumption
    | apply never_bind; [|intros ?] | apply never_catch; [|intros ? ?] | apply never_fold; intros ? ? | apply never_lift
    | apply validate_sound
    | match goal with
      | |- never (match ?x with _ => _ end) => destruct x
      | |- never (let '(_, _) := ?x in _) => destruct x
      end
    | congruence ].

Lemma guarded_never {A} (call : eff W A) : never call → never (guarded_listing network_error bucket_still_ready call).
Proof.
  intros Hc. unfold guarded_listing. apply never_catch; [done|]. intros e He. unfold listing_block_reason. destruct e; never_all.
Qed.

Lemma add_page_sound key st pg : sound (add_page key st pg).
Proof.
  assert (Ha : ∀ other l i, sound (add_entry key other l i)).
  { intros other l i. unfold add_entry. destruct (negb _); [done|]. apply sound_bind; [by apply sound_guard | done]. }
  unfold add_page. apply sound_bind; [by apply sound_foldM|]. intros vs. apply sound_bind; [by apply sound_foldM | done].
Qed.

Lemma list_pages_never n q st seen : never (list_pages (D := D) (P := P) n q st seen).
Proof.
  revert q st seen. induction n as [|n IH]; intros q st seen; cbn; [never_all|]. unfold list_object_versions.
  never_all; auto. apply add_page_sound.
Qed.

Lemma inventory_never bucket key : never (inventory fuel network_error bucket_still_ready bucket key).
Proof. unfold inventory. apply never_bind; [apply guarded_never, list_pages_never|]. intros [vs ms]. apply never_ret. Qed.

Lemma uploads_never n q found seen : never (upload_pages network_error bucket_still_ready n q found seen).
Proof.
  revert q found seen. induction n as [|n IH]; intros q found seen; cbn; [never_all|].
  apply never_bind; [apply guarded_never; unfold list_multipart_uploads; never_all|]. intros pg. never_all.
Qed.

Lemma observe_never intent : never (observe_key fuel network_error bucket_still_ready check_active intent).
Proof.
  pose proof inventory_never. unfold observe_key, match_version, head_object. never_all; auto.
Qed.

Lemma own_write_never intent saved before first second :
  never (own_write_arrived sha256 names_checksum_mode check_active intent saved before first second).
Proof. unfold own_write_arrived, head_object. never_all. Qed.

Lemma settled_never intent saved :
  never (settled_observation sha256 fuel network_error names_checksum_mode bucket_still_ready check_active intent saved).
Proof. pose proof observe_never. pose proof own_write_never. unfold settled_observation. never_all; auto. Qed.
End facts.

(** ** Claims *)
Lemma dict_get_put d k v : dict_get (dict_put d k v) k = Some v.
Proof.
  unfold dict_get, dict_put. destruct (bool_decide_reflect (k ∈ map fst d)) as [Hin|Hout].
  - induction d as [|[k' v'] d IH]; [by apply elem_of_nil in Hin|]. cbn in *. destruct (bool_decide_reflect (k' = k)) as [->|Hne]; cbn.
    + by rewrite bool_decide_eq_true_2.
    + rewrite bool_decide_eq_false_2 by done. apply IH. by apply elem_of_cons in Hin as [->|?].
  - induction d as [|[k' v'] d IH]; cbn; [by rewrite bool_decide_eq_true_2|]. cbn in Hout. apply not_elem_of_cons in Hout as [Hne Hout].
    rewrite bool_decide_eq_false_2 by done. by apply IH.
Qed.

Section claims.
Context {P D : Type} `{!Provider P} `{!UploadProvider P}.
Notation W := (world D P).
Context (sha256 : bytes → bytes) (provider_identity : string) (fuel : nat).
Context (network_error names_checksum_mode : exn → bool) (bucket_still_ready : eff W bool) (check_active : eff W unit).
Context (Hactive : silent check_active) (Hready : emits looking bucket_still_ready).

Definition reconcile_run : upload_intent → option fields → eff W fields :=
  reconcile sha256 provider_identity fuel network_error names_checksum_mode bucket_still_ready check_active.

(** What the evidence of the intent says of a version: nothing contradicts it. *)
Definition agrees (intent : upload_intent) (saved : option fields) (version : string) (h : head_answer) : Prop :=
  ∃ s, from_json sha256 (ui_snapshot intent) = Ok s
    ∧ (∃ b, check_s3_proof (proof_of_head h) version s false = Ok b)
    ∧ ∀ d, saved = Some d → ∃ b, check_s3_proof (proof_of_fields d) version s true = Ok b.

Lemma validate_agrees intent saved version h e :
  validate_version sha256 intent saved version h = Ok e → agrees intent saved version h.
Proof.
  unfold validate_version, blocked_mismatch, validated_s3_proof. intros E.
  destruct (from_json sha256 (ui_snapshot intent)) as [s|x] eqn:Es; cbn in E; [|by destruct x].
  destruct (check_s3_proof (proof_of_head h) version s false) as [b|x] eqn:Eh; cbn in E; [|by destruct x].
  exists s. split; [done|]. split; [by exists b|]. intros d ->. cbn in E.
  destruct (check_s3_proof (proof_of_fields d) version s true) as [b'|x] eqn:Ed; cbn in E; [by exists b' | by destruct x].
Qed.


Lemma reconcile_absence intent saved (w w' : W) :
  (∀ q p, (p_list q p).2 ≠ Raise ProvenAbsent) → (∀ q p, (p_head q p).2 ≠ Raise ProvenAbsent) →
  (∀ q p, (u_list q p).2 ≠ Raise ProvenAbsent) →
  (∀ w, (check_active w).2 ≠ Raise ProvenAbsent) → (∀ w, (bucket_still_ready w).2 ≠ Raise ProvenAbsent) →
  reconcile_run intent saved w = (w', Raise ProvenAbsent) →
  saved = None ∧ ∃ pre seen uploads pages,
    w_calls w' = w_calls w ++ pre ++ seen ++ uploads_calls uploads ++ listed_calls pages ∧ Forall looking pre
    ∧ observed (ui_target intent) (ui_token intent) (ui_inventory intent) [] seen
    ∧ no_unfinished (ui_target intent) uploads ∧ complete_listing (ui_target intent) (ui_inventory intent) pages.
Proof.
  intros Hlist Hhead Huploads Ha Hr E. unfold reconcile_run, reconcile in E.
  apply ebind_cases in E as [(e & E & Ee)|(w0 & [] & E0 & E)].
  { unfold throw_if in E. destruct (negb _); [injection E as <- <-; done | done]. }
  apply throw_if_ok in E0 as [_ ->].
  apply ebind_cases in E as [(e & E & [= <-])|(w1 & [first matches] & E1 & E)].
  { exfalso. eapply (settled_never sha256 fuel network_error names_checksum_mode bucket_still_ready check_active
      Hlist Hhead Ha Hr intent saved w). by rewrite E. }
  apply settled_observation_ok in E1 as (pre & seen & Ec & Hl & Ho); [|done..].
  destruct matches as [|[version h] [|? ?]]; [| |by injection E].
  2:{ exfalso. apply ebind_cases in E as [(e & E & Ee)|(w2 & [] & E2 & E)];
        [unfold throw_if in E; destruct (_ || _); [injection E as <- <-; done | done]|].
      apply ebind_cases in E as [(e & E & Ee)|(w3 & [] & E3 & E)];
        [unfold throw_if in E; destruct (other_version _ _); [injection E as <- <-; done | done]|].
      apply ebind_cases in E as [(e & E & [= <-])|(w4 & x & E4 & E)]; [|done].
      injection E as _ E. by apply (validate_sound sha256 intent saved version h). }
  apply ebind_cases in E as [(e & E & [= <-])|(w2 & x & _ & E)]; [|by injection E].
  destruct (is_none saved && bool_decide (first = ui_inventory intent)) eqn:Hc; [|done].
  apply andb_true_iff in Hc as [Hn ->%bool_decide_eq_true]. destruct saved; [done|]. split; [done|].
  unfold prove_absent in E. apply ebind_cases in E as [(e & E & [= <-])|(w3 & [] & E3 & E)].
  { exfalso. apply (Ha w1). by rewrite E. }
  eapply silent_calls in E3; [|done].
  apply ebind_cases in E as [(e & E & [= <-])|(w4 & found & E4 & E)].
  { exfalso. unfold incomplete_uploads in E.
    eapply (uploads_never network_error bucket_still_ready Huploads Hr fuel _ [] [] w3). by rewrite E. }
  apply upload_pages_ok in E4 as (uploads & C4 & Hp & _ & Hf & mine & -> & Hm).
  apply ebind_cases in E as [(e & E & Ee)|(w5 & [] & E5 & E)].
  { unfold throw_if in E. destruct (negb _); [injection E as <- <-; done | done]. }
  apply throw_if_ok in E5 as [Hb ->]. apply negb_false_iff, bool_decide_eq_true in Hb. cbn in Hb. subst mine.
  apply ebind_cases in E as [(e & E & [= <-])|(w6 & [] & E6 & E)].
  { exfalso. apply (Ha w4). by rewrite E. }
  eapply silent_calls in E6; [|done].
  apply ebind_cases in E as [(e & E & [= <-])|(w7 & now & E7 & E)].
  { exfalso. eapply (inventory_never fuel network_error bucket_still_ready Hlist Hr _ _ w6). by rewrite E. }
  apply inventory_ok in E7 as (pages & C7 & L7).
  apply ebind_cases in E as [(e & E & Ee)|(w8 & [] & E8 & E)].
  { unfold throw_if in E. destruct (negb _); [injection E as <- <-; done | done]. }
  apply throw_if_ok in E8 as [Hb ->]. apply negb_false_iff, bool_decide_eq_true in Hb. subst now. injection E as <-.
  exists pre, seen, uploads, pages. rewrite C7, E6, C4, E3, Ec, <- !app_assoc. split; [done|]. split; [done|]. split; [done|].
  split; [|done]. split; [done|done|]. by apply Hm.
Qed.

End claims.

(** ** A concrete key *)

(** A provider that holds one key, whose versions it lists with their tokens. *)
Definition w_object := (string * option string)%type.
Definition w_version_head (o : w_object) : head_answer :=
  {| hd_version_id := Some o.1; hd_delete_marker := false; hd_content_length := Some 3; hd_storage_class := None; hd_restore := None;
     hd_metadata := (fun token => {[ UPLOAD_TOKEN_KEY := token ]}) <$> o.2; hd_headers := []; hd_checksum_sha256 := None;
     hd_checksum_type := None; hd_checksum_crc32 := None; hd_etag := None |}.
Definition w_refused {A} (p : list w_object) : list w_object * result A := (p, Raise (ClientError "NotImplemented" 501)).
Definition w_key_store : Provider (list w_object) := {|
  p_list q p := (p, Ok {| pg_truncated := Some false; pg_markers := []; pg_next_key := None; pg_next_version := None;
                          pg_versions := map (fun o => {| li_key := Some (lr_prefix q); li_version_id := Some o.1; li_size := Some 3;
                                                          li_storage_class := None |}) p |});
  p_head q p := (p, match List.find (fun o => bool_decide (Some o.1 = hr_version q)) p with
                    | Some o => Ok (w_version_head o) | None => Raise (ClientError "NoSuchVersion" 404) end);
  p_get _ := w_refused; p_tags _ := w_refused; p_delete _ := w_refused; p_copy _ := w_refused; p_create _ := w_refused;
  p_part _ := w_refused; p_complete _ := w_refused; p_abort _ := w_refused; p_delete_batch _ := w_refused; p_restore _ := w_refused;
|}.
Definition w_no_uploads : UploadProvider (list w_object) := {|
  u_put _ := w_refused; u_start _ := w_refused; u_send _ := w_refused; u_finish _ := w_refused;
  u_list q p := (p, Ok {| up_truncated := Some false; up_uploads := [(Some "other", Some "u9")]; up_next_key := None; up_next_upload := None |});
|}.
Definition w_target : pinned_target :=
  {| tg_vault_id := 1; tg_vault_file_id := "f"; tg_bucket := "bucket"; tg_prefix := "vaults/photos"; tg_key := "vaults/photos/a/b.txt";
     tg_provider := Some "s3"; tg_path := "a/b.txt"; tg_path_since := Some 0; tg_source_root := "/data/vault"; tg_root_identity := None;
     tg_root_identity_version := None |}.
Definition w_intent : upload_intent :=
  {| ui_id := "i1"; ui_token := "tok"; ui_vault_id := 1; ui_vault_file_id := "f"; ui_original_job_id := 1; ui_target := w_target;
     ui_snapshot := as_json w_snapshot; ui_requested := "read_back"; ui_inventory := {| ki_versions := ["v0"]; ki_markers := [] |};
     ui_send_started := true; ui_archive_version_id := None; ui_settled := false; ui_blocked_reason := None; ui_created_at := 0 |}.
Definition w_store_world (p : list w_object) : world unit (list w_object) :=
  {| w_db := tt; w_cloud := p; w_calls := []; w_tables := []; w_steps := 0; w_lost := false; w_ready := true; w_echoes := [] |}.
Definition w_reconciled (p : list w_object) : world unit (list w_object) * result fields :=
  reconcile_run (Provider0 := w_key_store) (UploadProvider0 := w_no_uploads) w_prefix_hash "s3" 2 (fun _ => false) (fun _ => false)
    (eret true) (eret tt) w_intent None (w_store_world p).


