(* ===== verification/VaultMoves.v ===== *)
(** * VaultMoves: moving a Vault to a colder storage class

    Models [src/app/services/vault_moves.py]: which files may be moved, the
    admission of one Job and one ledger row per file, and the processing of a
    Job.  The ledger row pins the exact source version and a random token; the
    copy carries the token in its metadata, so that a copy whose answer was lost
    is recognised later; the source is deleted last, and only the exact source.

    [process] runs in the world of [S3Client]: others may change the tables
    before each of its transactions.  The amounts of the cost estimate are left
    out (they are advisory); its counts and skipped reasons are modelled.
    [s3_client()] either answers a client or raises for missing credentials, and
    is the parameter [credentials].  [fuel] bounds the pages of a listing. *)
From S2P Require Import Prelude Sql PyString Json Schema DirtyMarks JobScheduler JobClaims Lifecycle CloudDeletion Catalog CatalogVersions Notifications Effects S3Client S3Copy UploadTables WorkerJobs CloudPreflight.
From Stdlib Require Import Strings.Byte.
Open Scope Z_scope.

Definition MINIMUM_DAYS (storage_class : string) : Z :=
  if storage_class ∈b ["STANDARD_IA"; "ONEZONE_IA"] then 30
  else if storage_class ∈b ["GLACIER_IR"; "GLACIER"] then 90
  else if storage_class =b "DEEP_ARCHIVE" then 180 else 0.

Definition require_ready (v : vault) : result unit :=
  raise_if (negb (va_enabled v) || negb (bool_decide (va_decommission_state v = Some "active"))
            || (va_relocation_state v <>b "ready") || is_some (va_root_released_at v))
    (MoveBlocked "Vault must be protected and reconnect must be complete").

(** ** Which files may be moved *)
Record move_row := {
  mr_file : string;
  mr_path : string;
  mr_version : option archive_version;   (* the newest that is not purged *)
  mr_busy : bool;
  mr_check_failed : bool;                (* [cloud_check_failed] *)
}.

(** [(storage_class or "STANDARD").upper()]. *)
Definition class_of (c : option string) : string := upper (if truthy c then or_default c "" else "STANDARD").

Definition movable (v : archive_version) : bool :=
  (av_integrity v =b Verified) && (av_availability v =b Available) && truthy (av_plaintext_sha256 v)
  && is_some (av_size v) && truthy (av_provider_version_id v) && negb (bool_decide (av_provider_version_id v = Some "null")).

Definition eligibility (row : move_row) (target : string) : option string :=
  let current := class_of (mr_version row ≫= av_storage_class) in
  if mr_busy row then Some "pending_work"
  else if mr_check_failed row then Some "cloud_check_unavailable"
  else if negb match mr_version row with Some v => movable v | None => false end then Some "unverified_or_unavailable"
  else if negb (target ∈b ALLOWED_TARGETS current) then Some "already_equal_or_colder"
  else if (current ∈b ["GLACIER"; "DEEP_ARCHIVE"])
          && negb (bool_decide ((mr_version row ≫= av_restore_state) = Some "available"))
  then Some "explicit_restore_required"
  else None.

(** [ORDER BY a.version_number DESC LIMIT 1] of what is not purged. *)
Definition newest_version (db : catalog) (file : string) : option archive_version :=
  latest av_version_number
    (select (fun v => (av_vault_file_id v =b file) && (av_availability v <>b Purged)) (t_versions db)).

Definition pending_upload (d : worker_db) (file : string) : bool :=
  exists_row (fun i => (ui_vault_file_id i =b file) && ui_send_started i && negb (ui_settled i)) (ut_intents (d_uploads d)).

Definition path_before (a b : move_row) : bool := String.leb (mr_path a) (mr_path b).

Definition candidates (d : worker_db) (vault_id : Z) : list move_row :=
  let db := d_catalog d in
  sort_by path_before
    (f ← select (fun f => (vf_vault_id f =b vault_id) && (vf_status f =b Active)) (t_files db);
     p ← select (fun p => (fp_vault_file_id p =b vf_id f) && is_none (fp_valid_to p)) (t_paths db);
     [{| mr_file := vf_id f; mr_path := fp_path p; mr_version := newest_version db (vf_id f);
         mr_busy := exists_row (fun j => (j_vault_file_id j =b vf_id f) && job_is_active j) (t_jobs db)
                    || pending_upload d (vf_id f);
         mr_check_failed := false |}]).

Definition in_prefix (v : vault) (key : option string) : bool :=
  starts_with (String.append (rstrip_slash (va_s3_prefix v)) "/") (or_default key "").

Definition set_row_class (c restore : option string) (row : move_row) : move_row :=
  {| mr_file := mr_file row; mr_path := mr_path row;
     mr_version := (fun v => set_storage (av_provider_version_id v) c restore (av_placement v) v) <$> mr_version row;
     mr_busy := mr_busy row; mr_check_failed := mr_check_failed row |}.
Definition fail_check (row : move_row) : move_row :=
  {| mr_file := mr_file row; mr_path := mr_path row; mr_version := mr_version row; mr_busy := mr_busy row;
     mr_check_failed := true |}.

(** The counts of an estimate. *)
Record move_estimate := {
  me_target : string;
  me_eligible_count : Z;
  me_total_bytes : Z;
  me_skipped : list string;
  me_minimum_days : Z;
}.

Definition row_size (row : move_row) : Z := or_default (mr_version row ≫= av_size) 0.

Definition estimate (rows : list move_row) (target : string) : move_estimate :=
  let eligible := List.filter (fun r => is_none (eligibility r target)) rows in
  {| me_target := target; me_eligible_count := Z.of_nat (length eligible); me_total_bytes := sumZ (map row_size eligible);
     me_skipped := omap (fun r => eligibility r target) rows; me_minimum_days := MINIMUM_DAYS target |}.

(** [target in {step.storage_class for step in plan.transitions}]. *)
Definition plan_has (plan : LifecycleProfile) (target : string) : bool :=
  existsb (fun t => match tr_storage_class t with JStr c => c =b target | _ => false end) plan.

Definition new_move_job (id vault_id : Z) (row : move_row) (v : archive_version) (target : string) (user_id : Z)
    (at_ : timestamp) (group_id : string) : job :=
  {| j_id := id; j_vault_id := vault_id; j_vault_file_id := mr_file row; j_archive_version_id := Some (av_id v);
     j_path := mr_path row; j_action := "storage-class"; j_status := "queued"; j_origin := "manual";
     j_message := None; j_message_key := None; j_message_params := None; j_requested_by := Some user_id;
     j_requested_at := at_; j_updated_at := at_; j_group_id := Some group_id; j_group_path := Some "";
     j_total_bytes := row_size row; j_transferred_bytes := 0; j_reason := None; j_confirmation_phrase := None;
     j_restore_tier := None; j_restore_days := None; j_target_storage_class := Some target;
     j_upload_verification_requested := None; j_pending_until := None; j_retry_after := None;
     j_claim_token := None; j_claimed_at := None; j_claim_expires_at := None; j_upload := no_upload |}.

Definition new_move (job_id : Z) (token : string) (v : archive_version) : class_move :=
  {| cm_job_id := job_id; cm_token := token; cm_source_archive_id := av_id v;
     cm_source_version_id := or_default (av_provider_version_id v) ""; cm_object_key := or_default (av_object_key v) "";
     cm_size := or_default (av_size v) 0; cm_sha256 := or_default (av_plaintext_sha256 v) "";
     cm_destination_version_id := None; cm_composite_checksum := None; cm_destination_archive_id := None;
     cm_copy_started := false; cm_source_deleted := false |}.

Definition load (d : worker_db) (job_id : Z) : option class_move := fetchone (fun m => cm_job_id m =b job_id) (d_moves d).

(** The columns [process] assigns, in the ledger and in its own copy of the row. *)
Definition set_move (dest composite archive : option string) (started deleted : bool) (m : class_move) : class_move :=
  {| cm_job_id := cm_job_id m; cm_token := cm_token m; cm_source_archive_id := cm_source_archive_id m;
     cm_source_version_id := cm_source_version_id m; cm_object_key := cm_object_key m; cm_size := cm_size m;
     cm_sha256 := cm_sha256 m; cm_destination_version_id := dest; cm_composite_checksum := composite;
     cm_destination_archive_id := archive; cm_copy_started := started; cm_source_deleted := deleted |}.
Definition with_destination (dest : option string) (m : class_move) : class_move :=
  set_move dest (cm_composite_checksum m) (cm_destination_archive_id m) (cm_copy_started m) (cm_source_deleted m) m.
Definition with_composite (c : option string) (m : class_move) : class_move :=
  set_move (cm_destination_version_id m) c (cm_destination_archive_id m) (cm_copy_started m) (cm_source_deleted m) m.
Definition with_archive (a : option string) (m : class_move) : class_move :=
  set_move (cm_destination_version_id m) (cm_composite_checksum m) a (cm_copy_started m) (cm_source_deleted m) m.
Definition started (m : class_move) : class_move :=
  set_move (cm_destination_version_id m) (cm_composite_checksum m) (cm_destination_archive_id m) true (cm_source_deleted m) m.
Definition source_gone (m : class_move) : class_move :=
  set_move (cm_destination_version_id m) (cm_composite_checksum m) (cm_destination_archive_id m) (cm_copy_started m) true m.

(** [UPDATE vault_class_moves SET ... WHERE job_id=...]. *)
Definition update_move (job_id : Z) (f : class_move → class_move) (d : worker_db) : worker_db :=
  set_moves (update_where (fun m => cm_job_id m =b job_id) f (d_moves d)) d.

Section moves.
Context {P : Type} `{!Provider P} `{!Environment worker_db} `{!Messages} `{!UploadTransitions}.
Context (sha256 : bytes → bytes).
Context (str_of : json → string).   (* str() of a decoded JSON value, for messages *)
Context (credentials : result unit).
Context (fuel : nat).
Notation W := (world worker_db P).

(** ** Preview and admission *)

(** One row of [refresh_cold_sources], before its [except]. *)
Definition observe_restore (v : vault) (bucket : string) (row : move_row) : eff W move_row :=
  let version := mr_version row in
  let provider_id := version ≫= av_provider_version_id in
  throw! MoveBlocked "Source key is outside this Vault" when negb (in_prefix v (version ≫= av_object_key)) ;;
  lift credentials ;;;
  h <~ head_object {| hr_bucket := bucket; hr_key := or_default (version ≫= av_object_key) ""; hr_version := provider_id;
                      hr_checksum_mode := false |} ;;
  throw! MoveBlocked "Exact cold source identity changed" when
    negb (bool_decide (Some (py_str (hd_version_id h)) = provider_id)) || hd_delete_marker h
    || negb (bool_decide (hd_content_length h = version ≫= av_size)) ;;
  eret (set_row_class (Some (if truthy (hd_storage_class h) then or_default (hd_storage_class h) "" else "STANDARD"))
          (Some (restore_header_state (hd_restore h)).1) row).

Definition refresh_row (v : vault) (bucket : string) (rows : list move_row) (row : move_row) : eff W (list move_row) :=
  let cold := bool_decide ((mr_version row ≫= av_storage_class) = Some "GLACIER") in
  let as_if := set_row_class (mr_version row ≫= av_storage_class) (Some "available") row in
  if negb cold || is_some (eligibility as_if "DEEP_ARCHIVE") then eret (rows ++ [row])
  else row <~ catch (observe_restore v bucket row) (fun _ => eret (fail_check row)) ;; eret (rows ++ [row]).

Definition refresh_cold_sources (v : vault) (bucket : string) (rows : list move_row) : eff W (list move_row) :=
  efold (refresh_row v bucket) [] rows.

Definition preview (vault_id : Z) (bucket : string) : eff W (list move_estimate) :=
  v <~ in_db (fun d => v ← lock_vault (d_catalog d) vault_id; Ok (d, v)) ;;
  lift (require_ready v) ;;;
  plan <~ in_db (fun d => p ← load_vault_plan str_of (d_plans d) vault_id; Ok (d, p)) ;;
  rows <~ read_db (fun d => candidates d vault_id) ;;
  rows <~ (if plan_has plan "DEEP_ARCHIVE" then refresh_cold_sources v bucket rows else eret rows) ;;
  eret (omap (fun t => match tr_storage_class t with JStr c => Some (estimate rows c) | _ => None end) plan).

Definition admit_move (v : vault) (target : string) (user_id : Z) (at_ : timestamp) (group_id : string)
    (ids : list Z) (row : move_row) : eff W (list Z) :=
  match eligibility row target, mr_version row with
  | None, Some version =>
      throw! MoveBlocked "Source key is outside this Vault" when negb (in_prefix v (av_object_key version)) ;;
      token <~ observe uuid ;;
      in_db (fun d =>
        let db := d_catalog d in
        let id := next_id (map j_id (t_jobs db)) in
        if has_active_job db (mr_file row) then Ok (d, ids)
        else
          let d := set_catalog (set_jobs (t_jobs db ++ [new_move_job id (va_id v) row version target user_id at_ group_id]) db) d in
          Ok (set_moves (d_moves d ++ [new_move id token version]) d, ids ++ [id]))
  | _, _ => eret ids
  end.

Definition schedule (vault_id : Z) (bucket target : string) (user_id : Z) (acknowledged : bool) (at_ : timestamp)
  : eff W (move_estimate * string * list Z) :=
  v <~ in_db (fun d => v ← lock_vault (d_catalog d) vault_id; Ok (d, v)) ;;
  lift (require_ready v) ;;;
  throw! MoveBlocked "Acknowledge minimum-duration and early-deletion charges" when negb acknowledged ;;
  plan <~ in_db (fun d => p ← load_vault_plan str_of (d_plans d) vault_id; Ok (d, p)) ;;
  throw! MoveBlocked "Choose a colder class on this Vault's saved Storage Plan" when negb (plan_has plan target) ;;
  rows <~ read_db (fun d => candidates d vault_id) ;;
  rows <~ (if target =b "DEEP_ARCHIVE" then refresh_cold_sources v bucket rows else eret rows) ;;
  group_id <~ observe uuid ;;
  ids <~ efold (admit_move v target user_id at_ group_id) [] rows ;;
  throw! MoveBlocked "No eligible files: already colder, unverified, unrestored or pending work" when bool_decide (ids = []) ;;
  eret (estimate rows target, group_id, ids).

(** ** Processing one Job *)
Context (job : claimed_job).

Definition job_id : Z := j_id (cj_row job).
Definition file_id : string := j_vault_file_id (cj_row job).
Definition context : option (Z * string) := job_claim_context job.

Definition active (message : string) : eff W unit := ensure_job_active context job_id message.

Definition exact_head (m : class_move) (version : string) : eff W head_answer :=
  h <~ head_object_with_checksum (cj_bucket job) (cm_object_key m) (Some version) ;;
  throw! MoveBlocked "Exact cloud version or size changed; every copy retained" when
    (py_str (hd_version_id h) <>b version) || hd_delete_marker h
    || negb (bool_decide (hd_content_length h = Some (cm_size m))) ;;
  eret h.

(** [head.get("Metadata", {}).get(TOKEN_KEY) == move["token"]]. *)
Definition has_token (m : class_move) (h : head_answer) : bool :=
  bool_decide ((hd_metadata h ≫= fun md => md !! TOKEN_KEY) = Some (cm_token m)).

Definition match_token (m : class_move) (matches : list string) (entry : string * listed) : eff W (list string) :=
  if entry.1 =b cm_source_version_id m then eret matches
  else h <~ exact_head m entry.1 ;; eret (if has_token m h then matches ++ [entry.1] else matches).

Definition discover_destination (m : class_move) : eff W (option string) :=
  pat! (versions, markers) <~ object_version_entries fuel (cj_bucket job) (cm_object_key m) ;;
  matches <~ efold (match_token m) [] versions ;;
  throw! MoveBlocked "Ambiguous copy outcome; copies retained for reconciliation" when
    (1 <? Z.of_nat (length matches)) || negb (bool_decide (map fst markers = [])) ;;
  eret (head matches).

Definition require_current (m : class_move) (version : string) : eff W unit :=
  h <~ head_object {| hr_bucket := cj_bucket job; hr_key := cm_object_key m; hr_version := None; hr_checksum_mode := false |} ;;
  throw_if ((py_str (hd_version_id h) <>b version) || hd_delete_marker h)
    (MoveBlocked "Cloud current version changed; no copy or deletion allowed").

(** The row still is the version that was captured. *)
Definition keeps_identity (m : class_move) (version : option string) (v : archive_version) : bool :=
  bool_decide (av_provider_version_id v = version) && bool_decide (av_object_key v = Some (cm_object_key m))
  && (av_integrity v =b Verified) && (av_availability v =b Available)
  && bool_decide (av_plaintext_sha256 v = Some (cm_sha256 m)).

Definition check_current (m : class_move) (current : option archive_version) : result unit :=
  match current with
  | None => Raise (MoveBlocked "Current Snapshot changed; every copy retained")
  | Some v =>
      let is_source := av_id v =b cm_source_archive_id m in
      let is_destination := bool_decide (Some (av_id v) = cm_destination_archive_id m) in
      raise! MoveBlocked "Captured source identity or verification changed; every copy retained" when
        is_source && negb (keeps_identity m (Some (cm_source_version_id m)) v);
      raise! MoveBlocked "Verified keeper changed; every copy retained" when
        is_destination && negb (keeps_identity m (cm_destination_version_id m) v);
      raise_if (negb is_source && negb is_destination
                && (negb (truthy (cm_destination_version_id m))
                    || negb (bool_decide (av_provider_version_id v = cm_destination_version_id m))
                    || negb (bool_decide (av_object_key v = Some (cm_object_key m)))))
        (MoveBlocked "Current Snapshot changed; every copy retained")
  end.

(** [fence(connection)]: the authority to touch the cloud, checked inside the
    transaction that is about to use it. *)
Definition fence_checks (m : class_move) (d : worker_db) : result unit :=
  raise! MoveBlocked "Vault File path changed; every copy retained" when
    match fetchone (fun p => (fp_vault_id p =b j_vault_id (cj_row job)) && (fp_path p =b j_path (cj_row job))
                             && is_none (fp_valid_to p)) (t_paths (d_catalog d)) with
    | Some p => fp_vault_file_id p <>b file_id
    | None => true
    end;
  check_current m (newest_version (d_catalog d) file_id).

Definition fence (m : class_move) : eff W unit :=
  in_db (fun d =>
    v ← lock_vault (d_catalog d) (j_vault_id (cj_row job));
    _ ← require_ready v;
    raise! MoveBlocked "Reconcile the pending upload before another cloud mutation" when pending_upload d file_id;
    Ok (d, tt)) ;;;
  ensure_job_claim_owned_in_transaction context job "Vault move claim lost" ;;;
  gone <~ job_cancelled job_id ;;
  throw! OperationCancelled "Vault move stopped" when gone ;;
  in_db (fun d => _ ← fence_checks m d; Ok (d, tt)).

(** [with worker.db() as connection: fence(connection); UPDATE ...]. *)
Definition fenced (m : class_move) (f : worker_db → worker_db) : eff W unit :=
  transaction (fence m ;;; update_db f).

(** The target class, a column of the Job. *)
Definition target : string := or_default (j_target_storage_class (cj_row job)) "".

Definition source_ref (m : class_move) : object_ref :=
  {| or_bucket := cj_bucket job; or_key := cm_object_key m; or_version := cm_source_version_id m |}.

(** A copy larger than one request needs the composite checksum first. *)
Definition ensure_composite (m : class_move) (checksum : string) : eff W class_move :=
  if (S3_SINGLE_COPY_MAX_BYTES <? cm_size m) && negb (truthy (cm_composite_checksum m)) then
    c <~ multipart_source_checksum sha256 active (source_ref m) (cm_size m) checksum ;;
    let m := with_composite (Some c) m in
    fenced m (update_move job_id (with_composite (Some c))) ;;;
    eret m
  else eret m.

(** The copy and its exact destination. *)
Definition copy_source (m : class_move) (checksum : string) : eff W (class_move * string) :=
  h <~ exact_head m (cm_source_version_id m) ;;
  let current_class := if truthy (hd_storage_class h) then or_default (hd_storage_class h) "" else "STANDARD" in
  throw! MoveBlocked "Source is already equal or colder; warming is forbidden" when
    negb (target ∈b ALLOWED_TARGETS current_class) ;;
  throw! MoveBlocked "Explicit restore of this exact source VersionId is required" when
    (current_class ∈b ["GLACIER"; "DEEP_ARCHIVE"]) && ((restore_header_state (hd_restore h)).1 <>b "available") ;;
  require_current m (cm_source_version_id m) ;;;
  fenced m (update_move job_id started) ;;;
  m <~ ensure_composite m checksum ;;
  answer <~ copy_storage_class_version (Some active) (source_ref m) target (cm_size m) h (Some (cm_token m)) ;;
  destination <~ (if truthy answer then eret answer else discover_destination m) ;;
  throw! MoveBlocked "Copy response lacks an exact destination; source retained" when negb (truthy destination) ;;
  let m := with_destination destination m in
  fenced m (update_move job_id (with_destination destination)) ;;;
  eret (m, or_default destination "").

(** The catalog side of a verified copy. *)
Definition keep_release_clock (source copy : string) (db : catalog) : catalog :=
  let at_ := match fetchone (fun v => av_id v =b source) (t_versions db) with Some v => av_verified_at v | None => None end in
  update_version copy (fun v =>
    {| av_id := av_id v; av_vault_file_id := av_vault_file_id v; av_vault_id := av_vault_id v;
       av_version_number := av_version_number v; av_object_key := av_object_key v;
       av_provider_version_id := av_provider_version_id v; av_size := av_size v;
       av_storage_class := av_storage_class v; av_plaintext_sha256 := av_plaintext_sha256 v;
       av_origin := av_origin v; av_integrity := av_integrity v; av_verified_at := at_;
       av_availability := av_availability v; av_availability_checked_at := av_availability_checked_at v;
       av_restore_state := av_restore_state v; av_placement := av_placement v; av_evidence := av_evidence v |}) db.

Definition rename_id (source copy : string) (o : option string) : option string :=
  if bool_decide (o = Some source) then Some copy else o.

Definition follow_copies (source copy : string) (db : catalog) : catalog :=
  set_copies (update_where (fun c => lc_vault_file_id c =b file_id)
    (fun c => {| lc_vault_file_id := lc_vault_file_id c; lc_presence := lc_presence c; lc_file_type := lc_file_type c;
                 lc_size := lc_size c; lc_mtime_ns := lc_mtime_ns c; lc_plaintext_sha256 := lc_plaintext_sha256 c;
                 lc_matched_archive_version_id := rename_id source copy (lc_matched_archive_version_id c);
                 lc_cloud_only_version_id := rename_id source copy (lc_cloud_only_version_id c);
                 lc_last_seen_at := lc_last_seen_at c; lc_observed_at := lc_observed_at c;
                 lc_content_observed_at := lc_content_observed_at c; lc_recovered_at := lc_recovered_at c |})
    (t_copies db)) db.

Definition follow_incidents (source copy : string) (db : catalog) : catalog :=
  set_incidents (update_where (fun i => (ci_vault_file_id i =b file_id) && (ci_archive_version_id i =b source)
                                        && (ci_kind i =b "cloud_only_conflict") && (ci_status i =b "open"))
    (fun i => {| ci_id := ci_id i; ci_vault_id := ci_vault_id i; ci_vault_file_id := ci_vault_file_id i;
                 ci_archive_version_id := copy; ci_kind := ci_kind i; ci_status := ci_status i; ci_reason := ci_reason i;
                 ci_path := ci_path i; ci_object_key := ci_object_key i; ci_provider_version_id := ci_provider_version_id i;
                 ci_opened_at := ci_opened_at i; ci_last_seen_at := ci_last_seen_at i; ci_resolved_at := ci_resolved_at i |})
    (t_incidents db)) db.

Definition move_publication (m : class_move) (destination : string) (etag : option string) (stamp : timestamp) : publication :=
  {| pb_vault_id := j_vault_id (cj_row job); pb_path := j_path (cj_row job); pb_object_key := cm_object_key m;
     pb_provider_version_id := destination; pb_size := Some (cm_size m); pb_storage_class := Some target; pb_etag := etag;
     pb_uploaded_at := stamp; pb_observed_at := stamp; pb_scan_id := stamp; pb_origin := Upload; pb_vault_file_id := None |}.

Definition publish_copy (m : class_move) (destination : string) (etag : option string) (stamp : timestamp)
    (file_uuid version_uuid : string) (d : worker_db) : result (worker_db * string) :=
  '(db, new_id) ← record_archive_version (d_catalog d) (move_publication m destination etag stamp) file_uuid version_uuid;
  raise! MoveBlocked "Destination belongs to another Vault File; source retained" when
    match fetchone (fun v => av_id v =b new_id) (t_versions db) with Some v => av_vault_file_id v <>b file_id | None => true end;
  db ← mark_version_verified new_id (cm_sha256 m) stamp db;
  let source := cm_source_archive_id m in
  let db := keep_release_clock source new_id db in
  let db := follow_copies source new_id db in
  let db := follow_incidents source new_id db in
  let db := link_job_version job_id new_id db in
  Ok (update_move job_id (fun m => with_archive (Some new_id) (with_destination (Some destination) m)) (set_catalog db d), new_id).

Definition publish_destination (m : class_move) (destination : string) (etag : option string) : eff W class_move :=
  transaction (
    fence m ;;;
    stamp <~ now_iso ;;
    if truthy (cm_destination_archive_id m) then eret m
    else
      file_uuid <~ observe uuid ;;
      version_uuid <~ observe uuid ;;
      new_id <~ in_db (publish_copy m destination etag stamp file_uuid version_uuid) ;;
      eret (with_archive (Some new_id) m)).

(** The only irreversible step. *)
Definition delete_source (m : class_move) (destination : string) : eff W unit :=
  transaction (
    fence m ;;;
    pat! (versions, markers) <~ object_version_entries fuel (cj_bucket job) (cm_object_key m) ;;
    throw! MoveBlocked "Unknown cloud content or missing keeper; source retained" when
      negb (has_version destination versions) || negb (bool_decide (map fst markers = []))
      || existsb (fun e => (e.1 <>b cm_source_version_id m) && (e.1 <>b destination)) versions ;;
    require_current m destination ;;;
    fence m ;;;
    (if has_version (cm_source_version_id m) versions then delete_s3_version (source_ref m) else eret tt) ;;;
    stamp <~ now_iso ;;
    update_db (fun d => update_move job_id source_gone
                          (on_catalog (mark_versions_purged [cm_source_archive_id m] stamp) d))).

(** Everything before the deletion: the move with its destination. *)
Definition establish_destination (probe : eff W unit) (m : class_move) : eff W (class_move * string) :=
  active "Vault move stopped" ;;;
  validate_cloud_vault probe ;;;
  lift credentials ;;;
  digest <~ lift (fromhex (cm_sha256 m)) ;;
  let checksum := b64encode digest in
  found <~ (if negb (truthy (cm_destination_version_id m)) && cm_copy_started m then discover_destination m
            else eret (cm_destination_version_id m)) ;;
  let m := if negb (truthy (cm_destination_version_id m)) && cm_copy_started m then with_destination found m else m in
  transaction (
    fence m ;;;
    if negb (cm_copy_started m) then
      plan <~ in_db (fun d => p ← load_vault_plan str_of (d_plans d) (j_vault_id (cj_row job)); Ok (d, p)) ;;
      throw_if (negb (plan_has plan target)) (MoveBlocked "Target is no longer on the saved Storage Plan")
    else eret tt) ;;;
  set_job context job_id "uploading" "" (Some "job.storage_class_changing") [("storage_class", JStr target)] None ;;;
  pat! (m, destination) <~ (if truthy found then eret (m, or_default found "") else copy_source m checksum) ;;
  active "Vault move stopped" ;;;
  h <~ exact_head m destination ;;
  throw! MoveBlocked "Destination has no matching move provenance" when negb (has_token m h) ;;
  pat! (destination, etag) <~ verify_storage_class_destination sha256 (Some active) (cj_bucket job) (cm_object_key m)
      (cm_source_version_id m) (Some destination) target (cm_size m) (Some checksum) (cm_composite_checksum m) ;;
  require_current m destination ;;;
  m <~ publish_destination m destination etag ;;
  eret (m, destination).

Definition process (probe : eff W unit) (m : class_move) : eff W unit :=
  pat! (m, destination) <~ establish_destination probe m ;;
  delete_source m destination ;;;
  set_job_progress context job_id (cm_size m) None ;;;
  set_job context job_id "completed" "" (Some "job.storage_class_completed") [("storage_class", JStr target)] None ;;;
  eret tt.
End moves.

(** ** What the steps request *)
Section requests.
Context {P : Type} `{!Provider P} `{!Environment worker_db} `{!Messages} `{!UploadTransitions}.
Context (sha256 : bytes → bytes) (str_of : json → string) (credentials : result unit) (fuel : nat) (job : claimed_job).
Notation W := (world worker_db P).

Definition not_delete (c : call) : Prop := ¬ is_delete c.

Lemma active_silent (p : call → Prop) message : keeps (grows p) (active (P := P) job message).
Proof. apply ensure_job_active_silent. Qed.

Lemma fence_silent (p : call → Prop) m : keeps (grows p) (fence (P := P) job m).
Proof. unfold fence, job_cancelled. emits_all. Qed.

Lemma fenced_silent (p : call → Prop) m f : keeps (grows p) (fenced (P := P) job m f).
Proof. unfold fenced. apply emits_transaction. apply keeps_bind; [apply _ | apply fence_silent | intros ?]. emits_all. Qed.

Lemma head_with_checksum_not_delete bucket key version :
  keeps (grows not_delete) (head_object_with_checksum (D := worker_db) (P := P) bucket key version).
Proof. unfold head_object_with_checksum, head_object. emits_all. Qed.

Lemma exact_head_not_delete m v : keeps (grows not_delete) (exact_head (P := P) job m v).
Proof. unfold exact_head. apply keeps_bind; [apply _ | apply head_with_checksum_not_delete | intros ?]. emits_all. Qed.

Lemma list_pages_not_delete n q st seen : keeps (grows not_delete) (list_pages (D := worker_db) (P := P) n q st seen).
Proof.
  revert q st seen. induction n as [|n IH]; intros q st seen; cbn; [emits_all|].
  unfold list_object_versions. apply keeps_bind; [apply _ | emits_all | intros pg]. destruct (pg_truncated pg); emits_all.
Qed.

Lemma discover_not_delete m : keeps (grows not_delete) (discover_destination (P := P) fuel job m).
Proof.
  unfold discover_destination, object_version_entries, match_token.
  apply keeps_bind; [apply _ | apply list_pages_not_delete | intros [vs ms]].
  apply keeps_bind; [apply _ | | intros ?; emits_all].
  apply keeps_fold; [apply _|]. intros l e. pose proof exact_head_not_delete. emits_all.
Qed.

Lemma require_current_not_delete m v : keeps (grows not_delete) (require_current (P := P) job m v).
Proof. unfold require_current, head_object. emits_all. Qed.

Lemma sha256_version_not_delete o :
  keeps (grows not_delete) (sha256_s3_version (D := worker_db) (P := P) sha256 (Some (active job)) o).
Proof.
  unfold sha256_s3_version, read_chunk, get_object, S3Copy.check. pose proof (active_silent not_delete). emits_all.
Qed.

Lemma verify_not_delete bucket key source candidate class size expected composite :
  keeps (grows not_delete)
    (verify_storage_class_destination (D := worker_db) (P := P) sha256 (Some (active job)) bucket key source candidate class size expected composite).
Proof.
  unfold verify_storage_class_destination, destination_checksum.
  pose proof sha256_version_not_delete. pose proof head_with_checksum_not_delete. emits_all.
Qed.

Lemma copy_not_delete source class size h token :
  keeps (grows not_delete) (copy_storage_class_version (D := worker_db) (P := P) (Some (active job)) source class size h token).
Proof.
  unfold copy_storage_class_version, multipart_copy_storage_class, fill_upload, copy_part, source_object_tagging, S3Copy.check,
    get_object_tagging, create_multipart_upload, upload_part_copy, complete_multipart_upload, abort_multipart_upload, copy_object.
  pose proof (active_silent not_delete). emits_all.
Qed.

Lemma composite_not_delete m checksum : keeps (grows not_delete) (ensure_composite (P := P) sha256 job m checksum).
Proof.
  unfold ensure_composite, multipart_source_checksum, feed_chunk, get_object.
  pose proof (active_silent not_delete). pose proof (fenced_silent not_delete). emits_all.
Qed.

Lemma copy_source_not_delete m checksum : keeps (grows not_delete) (copy_source (P := P) sha256 fuel job m checksum).
Proof.
  unfold copy_source. pose proof exact_head_not_delete. pose proof require_current_not_delete.
  pose proof (fenced_silent not_delete). pose proof composite_not_delete. pose proof copy_not_delete.
  pose proof discover_not_delete. emits_all.
Qed.

Lemma publish_not_delete m destination etag : keeps (grows not_delete) (publish_destination (P := P) job m destination etag).
Proof. unfold publish_destination, now_iso. pose proof (fence_silent not_delete). emits_all. Qed.

Lemma establish_not_delete probe m :
  keeps (grows not_delete) probe →
  keeps (grows not_delete) (establish_destination (P := P) sha256 str_of credentials fuel job probe m).
Proof.
  intros Hp. unfold establish_destination.
  pose proof (active_silent not_delete). pose proof (validate_emits probe not_delete Hp).
  pose proof (fence_silent not_delete). pose proof discover_not_delete. pose proof copy_source_not_delete.
  pose proof exact_head_not_delete. pose proof verify_not_delete. pose proof require_current_not_delete.
  pose proof publish_not_delete. emits_all.
Qed.

(** ** What a run has established *)

(** The columns that pin the source and the intent never change. *)
Definition same_source (m m' : class_move) : Prop :=
  cm_job_id m' = cm_job_id m ∧ cm_token m' = cm_token m ∧ cm_source_archive_id m' = cm_source_archive_id m
  ∧ cm_source_version_id m' = cm_source_version_id m ∧ cm_object_key m' = cm_object_key m ∧ cm_size m' = cm_size m
  ∧ cm_sha256 m' = cm_sha256 m.

#[local] Instance same_source_preorder : PreOrder same_source.
Proof. split; [by repeat split|]. intros m1 m2 m3 H1 H2. unfold same_source in *. naive_solver congruence. Qed.

Lemma ensure_composite_same m checksum (w : W) w' m' :
  ensure_composite sha256 job m checksum w = (w', Ok m') → same_source m m'.
Proof.
  unfold ensure_composite. destruct (_ && _).
  - intros E. run_ok E. injection E as <- <-. by repeat split.
  - by intros [= <- <-].
Qed.

Lemma copy_source_same m checksum (w : W) w' m' destination :
  copy_source sha256 fuel job m checksum w = (w', Ok (m', destination)) → same_source m m' ∧ destination ≠ "".
Proof.
  unfold copy_source. intros E. run_ok E. injection E as <- <- <-.
  match goal with H : ensure_composite _ _ _ _ _ = (_, Ok ?m1) |- _ => apply ensure_composite_same in H as Hs end.
  match goal with H : negb (truthy ?o) = false |- _ => apply negb_false_iff in H; destruct o as [d|]; [|done]; destruct d; [done|] end.
  split; [|done]. etrans; [exact Hs|]. by repeat split.
Qed.

Lemma publish_same m destination etag (w : W) w' m' :
  publish_destination job m destination etag w = (w', Ok m') → same_source m m'.
Proof.
  unfold publish_destination. intros E. apply transaction_ok in E as (w0 & _ & _ & _ & E). run_ok E.
  destruct (truthy (cm_destination_archive_id m)); [by injection E as <- <-|]. run_ok E. injection E as <- <-. by repeat split.
Qed.

(** The token was read from the destination itself. *)
Definition token_seen (m : class_move) (destination : string) (seen : list call) : Prop :=
  ∃ mode h, CHead {| hr_bucket := cj_bucket job; hr_key := cm_object_key m; hr_version := Some destination;
                     hr_checksum_mode := mode |} (Ok h) ∈ seen
            ∧ hd_metadata h ≫= (fun md => md !! TOKEN_KEY) = Some (cm_token m).

Lemma exact_head_ok m v (w : W) w' h :
  exact_head job m v w = (w', Ok h) →
  ∃ mode new, w_calls w' = w_calls w ++ new
    ∧ CHead {| hr_bucket := cj_bucket job; hr_key := cm_object_key m; hr_version := Some v; hr_checksum_mode := mode |} (Ok h) ∈ new.
Proof. unfold exact_head. intros E. run_ok E. injection E as <- <-. by apply head_with_checksum_ok in Hm. Qed.

Lemma silent_active : silent (S3Copy.check (Some (active (P := P) job))).
Proof. apply active_silent. Qed.

Lemma keeps_calls {A} (p : call → Prop) (m : eff W A) w w' r :
  keeps (grows p) m → m w = (w', r) → ∃ new, w_calls w' = w_calls w ++ new.
Proof. intros Hm E. apply (emits_calls p) in E as (new & E & _); eauto. Qed.

(** Everything from the read-back on. *)
Definition read_back (m : class_move) (destination checksum : string) : eff W (class_move * string) :=
  active job "Vault move stopped" ;;;
  h <~ exact_head job m destination ;;
  throw! MoveBlocked "Destination has no matching move provenance" when negb (has_token m h) ;;
  pat! (destination, etag) <~ verify_storage_class_destination sha256 (Some (active job)) (cj_bucket job) (cm_object_key m)
      (cm_source_version_id m) (Some destination) (target job) (cm_size m) (Some checksum) (cm_composite_checksum m) ;;
  require_current job m destination ;;;
  m <~ publish_destination job m destination etag ;;
  eret (m, destination).

Lemma read_back_ok m destination checksum (w : W) w' m' d :
  destination ≠ "" → read_back m destination checksum w = (w', Ok (m', d)) →
  d = destination ∧ same_source m m' ∧ ∃ new, w_calls w' = w_calls w ++ new
    ∧ destination_proof sha256 (cj_bucket job) (cm_object_key m) (cm_source_version_id m) d (target job) (cm_size m) checksum
        (cm_composite_checksum m) new
    ∧ token_seen m d new.
Proof.
  intros Hd. unfold read_back. intros E. apply ebind_ok in E as (w1 & [] & E1 & E).
  apply (silent_calls _ _ _ _ (active_silent _ _)) in E1.
  apply ebind_ok in E as (w2 & h & E2 & E). apply exact_head_ok in E2 as (mode & new2 & E2 & Hh).
  apply throw_bind_ok in E as [Ht E]. apply negb_false_iff, bool_decide_eq_true in Ht.
  apply ebind_ok in E as (w3 & [d3 etag] & E3 & E).
  apply verify_destination_ok in E3 as [-> (new3 & E3 & Hp)]; [|apply silent_active | done].
  apply ebind_ok in E as (w4 & [] & E4 & E). apply (keeps_calls _ _ _ _ _ (require_current_not_delete _ _)) in E4 as [new4 E4].
  apply ebind_ok in E as (w5 & m5 & E5 & [= <- <- <-]). pose proof (publish_same _ _ _ _ _ _ E5) as Hs.
  apply (keeps_calls _ _ _ _ _ (publish_not_delete _ _ _)) in E5 as [new5 E5].
  split; [done|]. split; [done|]. exists (new2 ++ new3 ++ new4 ++ new5).
  rewrite E5, E4, E3, E2, E1, <- !app_assoc. split; [done|]. split.
  - eapply destination_proof_weaken; [|exact Hp]. set_solver.
  - exists mode, h. split; [set_solver | done].
Qed.

(** The evidence a successful [establish_destination] leaves among the calls. *)
Lemma establish_ok probe m (w : W) w' m' d :
  keeps (grows not_delete) probe →
  establish_destination sha256 str_of credentials fuel job probe m w = (w', Ok (m', d)) →
  same_source m m' ∧ ∃ digest new composite, fromhex (cm_sha256 m) = Ok digest ∧ w_calls w' = w_calls w ++ new
    ∧ destination_proof sha256 (cj_bucket job) (cm_object_key m) (cm_source_version_id m) d (target job) (cm_size m)
        (b64encode digest) composite new
    ∧ token_seen m d new.
Proof.
  intros Hp E. unfold establish_destination in E.
  apply ebind_ok in E as (w1 & [] & E1 & E). apply (keeps_calls _ _ _ _ _ (active_silent not_delete _)) in E1 as [n1 E1].
  apply ebind_ok in E as (w2 & [] & E2 & E). apply (keeps_calls _ _ _ _ _ (validate_emits _ _ Hp)) in E2 as [n2 E2].
  apply ebind_ok in E as (w3 & [] & [_ ->]%lift_ok & E).
  apply ebind_ok in E as (w4 & digest & [Hd ->]%lift_ok & E).
  apply ebind_ok in E as (w5 & found & E5 & E).
  match type of E5 with ?c _ = _ => assert (keeps (grows not_delete) c) as H5 end.
  { pose proof (discover_not_delete m). emits_all. }
  apply (keeps_calls _ _ _ _ _ H5) in E5 as [n5 E5].
  set (m1 := if negb (truthy (cm_destination_version_id m)) && cm_copy_started m then with_destination found m else m) in E.
  assert (S1 : same_source m m1) by (unfold m1; destruct (_ && _); by repeat split).
  cbn zeta in E. apply ebind_ok in E as (w6 & [] & E6 & E).
  match type of E6 with ?c _ = _ => assert (keeps (grows not_delete) c) as H6 end.
  { pose proof (fence_silent not_delete). emits_all. }
  apply (keeps_calls _ _ _ _ _ H6) in E6 as [n6 E6].
  apply ebind_ok in E as (w7 & u7 & E7 & E). apply (keeps_calls _ _ _ _ _ (set_job_silent _ not_delete _ _ _ _ _ _)) in E7 as [n7 E7].
  apply ebind_ok in E as (w8 & [m2 d2] & E8 & E).
  assert (S2 : same_source m1 m2 ∧ d2 ≠ "" ∧ ∃ n8, w_calls w8 = w_calls w7 ++ n8).
  { destruct (truthy found) eqn:Ef.
    - injection E8 as <- <- <-. split; [done|]. split; [by destruct found as [[]|]|]. exists []. by rewrite app_nil_r.
    - destruct (copy_source_same _ _ _ _ _ _ E8) as [? ?]. split; [done|]. split; [done|].
      by apply (keeps_calls _ _ _ _ _ (copy_source_not_delete _ _)) in E8. }
  destruct S2 as (S2 & Hd2 & n8 & E8').
  apply (read_back_ok m2 d2 (b64encode digest)) in E as (-> & S3 & n9 & E9 & Hproof & Htoken); [|done].
  assert (S : same_source m m2) by (etrans; eassumption).
  split; [by etrans|]. exists digest, (n1 ++ n2 ++ n5 ++ n6 ++ n7 ++ n8 ++ n9), (cm_composite_checksum m2).
  split; [done|]. split; [by rewrite E9, E8', E7, E6, E5, E2, E1, <- !app_assoc|].
  destruct S as (_ & St & _ & Sv & Sk & Sz & _). rewrite Sv, Sk, Sz in Hproof.
  split; [eapply destination_proof_weaken; [|exact Hproof]; set_solver|].
  destruct Htoken as (mode & h & Hh & Hm). rewrite Sk in Hh. rewrite St in Hm. exists mode, h. split; [set_solver|done].
Qed.

(** ** The authority of the fence *)
Record authority (m : class_move) (d : worker_db) : Prop := {
  au_vault : ∃ v, lock_vault (d_catalog d) (j_vault_id (cj_row job)) = Ok v ∧ require_ready v = Ok tt;
  au_uploads : pending_upload d (file_id job) = false;
  au_snapshot : fence_checks job m d = Ok tt;
  au_lease : truthy (j_claim_token (cj_row job)) = true →
    ∃ j, j ∈ t_jobs (d_catalog d) ∧ j_id j = job_id job ∧ j_claim_token j = j_claim_token (cj_row job) ∧ job_is_active j = true;
}.

Lemma fence_ok m (w : W) w' : fence job m w = (w', Ok tt) → authority m (w_db w').
Proof.
  unfold fence. intros E. apply ebind_ok in E as (w1 & [] & E1 & E). unfold in_db in E1.
  destruct (lock_vault _ _) as [v|] eqn:Ev; [|done]. cbn in E1. destruct (require_ready v) as [[]|] eqn:Er; [|done]. cbn in E1.
  destruct (pending_upload (w_db w) (file_id job)) eqn:Eu; [done|]. cbn in E1. injection E1 as <-.
  apply ebind_ok in E as (w2 & [] & E2 & E). apply claim_owned_ok in E2 as [Hdb Hlease]. cbn in Hdb.
  apply ebind_ok in E as (w3 & gone & [= <- <-] & E). apply throw_bind_ok in E as [_ E]. unfold in_db in E. cbn in E.
  destruct (fence_checks job m (w_db w2)) as [[]|] eqn:Ec; [|done]. cbn in E. injection E as <-. cbn.
  split; [exists v | | |]; [|destruct Hdb as [->|[jobs ->]]; done | done | done].
  destruct Hdb as [->|[jobs ->]]; done.
Qed.

(** ** The deletion *)

(** The listing that precedes a deletion shows the source and the destination
    and nothing else under the key. *)
Definition only_source_and_destination (m : class_move) (destination : string) (seen : list call) : Prop :=
  ∃ pages before after, seen = before ++ listed_calls pages ++ after ∧ paginated pages
    ∧ Forall (fun x => lr_bucket x.1 = cj_bucket job ∧ lr_prefix x.1 = cm_object_key m) pages
    ∧ let versions := concat (map (fun x => exact_items (cm_object_key m) (pg_versions x.2)) pages) in
      destination ∈ map fst versions ∧ cm_source_version_id m ∈ map fst versions
      ∧ Forall (fun e => e = cm_source_version_id m ∨ e = destination) (map fst versions)
      ∧ concat (map (fun x => exact_items (cm_object_key m) (pg_markers x.2)) pages) = [].

Definition destination_current (m : class_move) (destination : string) (seen : list call) : Prop :=
  ∃ h, CHead {| hr_bucket := cj_bucket job; hr_key := cm_object_key m; hr_version := None; hr_checksum_mode := false |} (Ok h) ∈ seen
       ∧ py_str (hd_version_id h) = destination ∧ hd_delete_marker h = false.

Lemma has_version_true v (l : entries) : has_version v l = true → v ∈ map fst l.
Proof.
  unfold has_version. intros (e & Hin & He%bool_decide_eq_true)%existsb_exists. rewrite map_fmap.
  apply list_elem_of_fmap. exists e. split; [done | by apply list_elem_of_In].
Qed.

Lemma require_current_ok m v (w : W) w' :
  require_current job m v w = (w', Ok tt) →
  ∃ new, w_calls w' = w_calls w ++ new ∧ destination_current m v new.
Proof.
  unfold require_current. intros E. apply ebind_ok in E as (w1 & h & E1 & [Hb ->]%throw_if_ok).
  apply request_ok in E1 as [-> _]. apply orb_false_iff in Hb as [Hb Hd]. apply negb_false_iff, bool_decide_eq_true in Hb.
  eexists. split; [done|]. exists h. split; [set_solver | done].
Qed.

(** The deletion proper, after the second fence. *)
Definition finish_deletion (m : class_move) (versions : entries) : eff W unit :=
  (if has_version (cm_source_version_id m) versions then delete_s3_version (source_ref job m) else eret tt) ;;;
  stamp <~ now_iso ;;
  update_db (fun d => update_move (job_id job) source_gone
                        (on_catalog (mark_versions_purged [cm_source_archive_id m] stamp) d)).

Lemma finish_deletion_calls m versions (w : W) w' r :
  finish_deletion m versions w = (w', r) →
  (w_calls w' = w_calls w ∧ w_tables w' = w_tables w)
  ∨ has_version (cm_source_version_id m) versions = true
    ∧ ∃ a, w_calls w' = w_calls w ++ [CDelete (source_ref job m) a] ∧ w_tables w' = w_tables w ++ [w_db w].
Proof.
  unfold finish_deletion, now_iso. destruct (has_version _ _).
  - intros E. right. split; [done|]. unfold ebind at 1, delete_s3_version, catch, delete_object, request in E.
    destruct (p_delete (source_ref job m) (w_cloud w)) as [c [[]|e]]; cbn in E.
    + injection E as <- _. exists (Ok tt). by repeat split.
    + exists (Raise e). destruct (catchable e); [|by injection E as <- _; repeat split].
      destruct (s3_version_already_gone e); cbn in E; injection E as <- _; by repeat split.
  - intros E. left. cbn in E. injection E as <- _. done.
Qed.

(** Everything that is checked before, inside the same transaction. *)
Definition check_deletion (m : class_move) (destination : string) : eff W entries :=
  fence job m ;;;
  pat! (versions, markers) <~ object_version_entries fuel (cj_bucket job) (cm_object_key m) ;;
  throw! MoveBlocked "Unknown cloud content or missing keeper; source retained" when
    negb (has_version destination versions) || negb (bool_decide (map fst markers = []))
    || existsb (fun e => (e.1 <>b cm_source_version_id m) && (e.1 <>b destination)) versions ;;
  require_current job m destination ;;;
  fence job m ;;;
  eret versions.

Lemma delete_source_split m destination (w : W) w' r :
  delete_source fuel job m destination w = (w', r) →
  ∃ w0 w1, w_calls w0 = w_calls w ∧ w_tables w0 = w_tables w
    ∧ ebind (check_deletion m destination) (finish_deletion m) w0 = (w1, r)
    ∧ w_calls w' = w_calls w1 ∧ w_tables w' = w_tables w1.
Proof.
  intros E. apply transaction_run in E as (w0 & w1 & Hc & Ht & E & Hc' & Ht'). exists w0, w1.
  do 2 (split; [done|]). split; [|done]. rewrite <- E. unfold check_deletion, finish_deletion. unfold ebind.
  destruct (fence job m w0) as [w2 [[]|e]]; [|done].
  destruct (object_version_entries _ _ _ w2) as [w3 [[vs ms]|e]]; [|done].
  destruct (throw_if _ _ w3) as [w4 [[]|e]]; [|done].
  destruct (require_current job m destination w4) as [w5 [[]|e]]; [|done].
  by destruct (fence job m w5) as [w6 [[]|e]].
Qed.

Lemma check_deletion_not_delete m destination : keeps (grows not_delete) (check_deletion m destination).
Proof.
  unfold check_deletion, object_version_entries. pose proof (fence_silent not_delete).
  pose proof (list_pages_not_delete fuel). pose proof require_current_not_delete. emits_all.
Qed.

Lemma check_deletion_ok m destination (w : W) w' versions :
  check_deletion m destination w = (w', Ok versions) →
  authority m (w_db w') ∧ ∃ new, w_calls w' = w_calls w ++ new ∧ destination_current m destination new
    ∧ (has_version (cm_source_version_id m) versions = true → only_source_and_destination m destination new).
Proof.
  unfold check_deletion. intros E. apply ebind_ok in E as (w1 & [] & E1 & E).
  apply (silent_calls _ _ _ _ (fence_silent _ _)) in E1.
  apply ebind_ok in E as (w2 & [vs ms] & E2 & E). apply object_version_entries_exact in E2 as (pages & E2 & Hp & Hf & Ev & Em & _).
  apply throw_bind_ok in E as [Hb E]. rewrite !orb_false_iff, !negb_false_iff in Hb. destruct Hb as [[Hd Hm] Hx].
  apply ebind_ok in E as (w3 & [] & E3 & E). apply require_current_ok in E3 as (n3 & E3 & Hcur).
  apply ebind_ok in E as (w4 & [] & E4 & [= <- <-]). pose proof (fence_ok _ _ _ E4) as Ha.
  apply (silent_calls _ _ _ _ (fence_silent _ _)) in E4. split; [done|].
  exists (listed_calls pages ++ n3). split; [by rewrite E4, E3, E2, E1, <- app_assoc|]. split.
  { destruct Hcur as (h & Hh & Hv). exists h. split; [set_solver | done]. }
  intros Hs. exists pages, [], n3. do 3 (split; [done|]). cbn zeta. rewrite <- Ev, <- Em.
  split; [by apply has_version_true|]. split; [by apply has_version_true|]. split.
  - apply Forall_forall. intros v Hv. rewrite map_fmap in Hv. apply list_elem_of_fmap in Hv as (e & -> & He).
    apply not_true_iff_false in Hx. destruct (decide (e.1 = cm_source_version_id m)) as [|H1]; [by left|].
    destruct (decide (e.1 = destination)) as [|H2]; [by right|]. exfalso. apply Hx, existsb_exists. exists e.
    split; [by apply list_elem_of_In|]. by rewrite !bool_decide_eq_false_2.
  - apply bool_decide_eq_true in Hm. by destruct ms.
Qed.

Lemma delete_source_calls m destination (w : W) w' r :
  delete_source fuel job m destination w = (w', r) →
  ∃ new tables, w_calls w' = w_calls w ++ new ∧ w_tables w' = w_tables w ++ tables ∧ length tables = length new ∧
    (Forall not_delete new
     ∨ ∃ pre before a d, new = pre ++ [CDelete (source_ref job m) a] ∧ tables = before ++ [d] ∧ Forall not_delete pre
         ∧ only_source_and_destination m destination pre ∧ destination_current m destination pre ∧ authority m d).
Proof.
  intros E. apply delete_source_split in E as (w0 & w1 & <- & <- & E & -> & ->).
  apply ebind_cases in E as [(e & E & ->)|(w2 & versions & E1 & E)].
  { apply (grows_tables not_delete) in E as (new & tables & ? & ? & ? & ?); [|apply check_deletion_not_delete].
    exists new, tables. eauto. }
  pose proof (check_deletion_ok _ _ _ _ _ E1) as (Ha & new' & Ec & Hcur & Honly).
  apply (grows_tables not_delete) in E1 as (new & tables & En & Et & El & Fn); [|apply check_deletion_not_delete].
  assert (new' = new) as -> by (rewrite En in Ec; by apply app_inv_head in Ec).
  apply finish_deletion_calls in E as [[-> ->]|[Hs (a & -> & ->)]]; [exists new, tables; eauto|].
  exists (new ++ [CDelete (source_ref job m) a]), (tables ++ [w_db w2]).
  rewrite En, Et, !app_assoc, !length_app, El. repeat (split; [done|]). right.
  exists new, tables, a, (w_db w2). repeat (split; [by auto|]). done.
Qed.
End requests.

(** ** The safety of a move *)
Section safety.
Context {P : Type} `{!Provider P} `{!Environment worker_db} `{!Messages} `{!UploadTransitions}.
Context (sha256 : bytes → bytes) (str_of : json → string) (credentials : result unit) (fuel : nat) (job : claimed_job).
Notation W := (world worker_db P).

(** What is known, from the calls [seen] before a deletion and the tables [d] at
    the deletion, about the object that replaces the source. *)
Record replaced (m : class_move) (seen : list call) (d : worker_db) : Prop := {
  re_destination : ∃ destination digest composite,
    fromhex (cm_sha256 m) = Ok digest
    ∧ destination_proof sha256 (cj_bucket job) (cm_object_key m) (cm_source_version_id m) destination (target job) (cm_size m)
        (b64encode digest) composite seen
    ∧ token_seen job m destination seen
    ∧ only_source_and_destination job m destination seen
    ∧ destination_current job m destination seen;
  re_authority : ∃ m', same_source m m' ∧ authority job m' d;
}.

Lemma only_last_delete l c i x :
  Forall not_delete l → (l ++ [c]) !! i = Some x → is_delete x → i = length l ∧ c = x.
Proof.
  intros F. rewrite lookup_app. destruct (l !! i) as [y|] eqn:E.
  - intros [= ->] Hx. rewrite Forall_lookup in F. by destruct (F _ _ E).
  - apply lookup_ge_None in E. intros Hl _. pose proof (lookup_lt_Some _ _ _ Hl). cbn in *.
    assert (i = length l) as -> by lia. rewrite Nat.sub_diag in Hl. by injection Hl.
Qed.

Lemma no_delete_at l i x : Forall not_delete l → l !! i = Some x → is_delete x → False.
Proof. intros F E. rewrite Forall_lookup in F. exact (F _ _ E). Qed.

(** The rest of [process] after the deletion makes no request. *)
Lemma after_deletion_silent m (p : call → Prop) :
  keeps (grows p) (set_job_progress (P := P) (context job) (job_id job) (cm_size m) None ;;;
                   set_job (context job) (job_id job) "completed" "" (Some "job.storage_class_completed")
                     [("storage_class", JStr (target job))] None ;;; eret tt).
Proof. emits_all. Qed.

Lemma process_calls probe m w w' r :
  keeps (grows not_delete) probe →
  process (P := P) sha256 str_of credentials fuel job probe m w = (w', r) →
  (∃ w1 e, establish_destination sha256 str_of credentials fuel job probe m w = (w1, Raise e) ∧ w1 = w')
  ∨ ∃ w1 m1 destination w2 r2, establish_destination sha256 str_of credentials fuel job probe m w = (w1, Ok (m1, destination))
      ∧ delete_source fuel job m1 destination w1 = (w2, r2) ∧ w_calls w' = w_calls w2 ∧ w_tables w' = w_tables w2.
Proof.
  intros Hp. unfold process. intros E. apply ebind_cases in E as [(e & E & _)|(w1 & [m1 d] & E1 & E)]; [left; eauto|].
  right. exists w1, m1, d. apply ebind_cases in E as [(e & E & _)|(w2 & [] & E2 & E)]; [eauto 10|].
  exists w2, (Ok tt). split; [done|]. split; [done|].
  destruct (after_deletion_silent m1 (fun _ => False) w2) as (n & t & En & Et & El & Fn). rewrite E in En, Et. cbn in En, Et.
  destruct n; [|by inversion Fn]. destruct t; [|done]. by rewrite !app_nil_r in *.
Qed.

Lemma replaced_intro m m1 destination digest composite n1 pre d :
  same_source m m1 → fromhex (cm_sha256 m) = Ok digest →
  destination_proof sha256 (cj_bucket job) (cm_object_key m) (cm_source_version_id m) destination (target job) (cm_size m)
    (b64encode digest) composite n1 →
  token_seen job m destination n1 → only_source_and_destination job m1 destination pre →
  destination_current job m1 destination pre → authority job m1 d → replaced m (n1 ++ pre) d.
Proof.
  intros Hs Hd Hp (mode & h & Hh & Ht) Ho Hc Ha. split; [|eauto]. exists destination, digest, composite.
  pose proof Hs as (_ & _ & _ & Sv & Sk & _ & _). split; [done|]. split.
  { eapply destination_proof_weaken; [|exact Hp]. set_solver. }
  split; [exists mode, h; split; [set_solver | done]|]. split.
  - destruct Ho as (pages & before & after & -> & Hpg & Hf & Hv). rewrite Sk, ?Sv in *.
    exists pages, (n1 ++ before), after. rewrite <- app_assoc. repeat (split; [by auto|]). exact Hv.
  - destruct Hc as (h' & Hh' & Hv). rewrite Sk in Hh'. exists h'. split; [set_solver | done].
Qed.

End safety.

(** ** The admission of moves *)
Section admission.
Context {P : Type} `{!Provider P} `{!Environment worker_db}.
Context (str_of : json → string) (credentials : result unit).
Notation W := (world worker_db P).

(** A refreshed row is the candidate with another class and restore state. *)
Definition refreshed (row row' : move_row) : Prop :=
  mr_file row' = mr_file row ∧ mr_path row' = mr_path row ∧ mr_busy row' = mr_busy row
  ∧ (mr_check_failed row' = false → mr_check_failed row = false)
  ∧ (mr_version row' = mr_version row
     ∨ ∃ c r, mr_version row' = (fun v => set_storage (av_provider_version_id v) c r (av_placement v) v) <$> mr_version row).

Lemma refreshed_refl row : refreshed row row.
Proof. repeat split; auto. Qed.

Lemma refresh_row_ok v bucket rows row (w : W) w' rows' :
  refresh_row credentials v bucket rows row w = (w', Ok rows') →
  w_db w' = w_db w ∧ ∃ row', rows' = rows ++ [row'] ∧ refreshed row row'.
Proof.
  unfold refresh_row. destruct (_ || _); [intros [= <- <-]; eauto using refreshed_refl|].
  intros E. apply ebind_ok in E as (w1 & row' & E1 & [= <- <-]). unfold catch in E1.
  destruct (observe_restore credentials v bucket row w) as [w2 r2] eqn:E2.
  assert (Hdb : w_db w2 = w_db w).
  { assert (Hk : keeps (fun w w' : W => w_db w' = w_db w) (observe_restore credentials v bucket row)).
    { unfold observe_restore. pose proof (same_db (P := P)).
      repeat first [keeps_step | apply keeps_throw_if; apply _ | by intros ?].
      intros w0. unfold head_object, request. by destruct (p_head _ _). }
    specialize (Hk w). by rewrite E2 in Hk. }
  destruct r2 as [row2|e].
  - injection E1 as <- <-. split; [done|]. exists row2. split; [done|].
    unfold observe_restore in E2. run_ok E2. injection E2 as _ <-. repeat split; [done|]. right. eauto.
  - destruct (catchable e); [|done]. injection E1 as <- <-. split; [done|]. exists (fail_check row). split; [done|].
    repeat split; [done|]. by left.
Qed.

Lemma refresh_rows_ok v bucket rows0 rows (w : W) w' rows' :
  efold (refresh_row credentials v bucket) rows0 rows w = (w', Ok rows') →
  w_db w' = w_db w ∧ ∃ tail, rows' = rows0 ++ tail ∧ Forall2 refreshed rows tail.
Proof.
  revert rows0 w. induction rows as [|row rows IH]; intros rows0 w; cbn.
  { intros [= <- <-]. split; [done|]. exists []. by rewrite app_nil_r. }
  intros E. apply ebind_ok in E as (w1 & rows1 & [Hdb (row' & -> & Hr)]%refresh_row_ok & E).
  apply IH in E as [Hdb' (tail & -> & Hf)]. split; [congruence|]. exists (row' :: tail). rewrite <- app_assoc. eauto.
Qed.

(** One admitted Job with its ledger row. *)
Definition admitted (target : string) (v : vault) (user_id : Z) (at_ : timestamp) (group_id : string) (rows : list move_row)
    (d : worker_db) (id : Z) : Prop :=
  ∃ row version token, row ∈ rows ∧ eligibility row target = None ∧ mr_version row = Some version
    ∧ in_prefix v (av_object_key version) = true
    ∧ new_move_job id (va_id v) row version target user_id at_ group_id ∈ t_jobs (d_catalog d)
    ∧ new_move id token version ∈ d_moves d.

Lemma admit_moves_ok v target user_id at_ group_id all rows ids (w : W) w' ids' :
  (∀ row, row ∈ rows → row ∈ all) →
  (∀ id, id ∈ ids → admitted target v user_id at_ group_id all (w_db w) id) →
  efold (admit_move v target user_id at_ group_id) ids rows w = (w', Ok ids') →
  ∀ id, id ∈ ids' → admitted target v user_id at_ group_id all (w_db w') id.
Proof.
  revert ids w. induction rows as [|row rows IH]; intros ids w Hin Hi; cbn.
  { by intros [= <- <-]. }
  intros E. apply ebind_ok in E as (w1 & ids1 & E1 & E).
  apply (IH ids1 w1); [set_solver | | done]. intros id Hid. unfold admit_move in E1.
  destruct (eligibility row target) as [|] eqn:Ee; [injection E1 as <- <-; by apply Hi|].
  destruct (mr_version row) as [version|] eqn:Ev; [|injection E1 as <- <-; by apply Hi].
  apply throw_bind_ok in E1 as [Hp E1]. apply negb_false_iff in Hp.
  apply ebind_ok in E1 as (w2 & token & [= <- <-] & E1). unfold in_db in E1. cbn in E1.
  destruct (has_active_job _ _); injection E1 as <- <-; [by apply Hi|]. cbn.
  apply elem_of_app in Hid as [Hid|Hid].
  - destruct (Hi id Hid) as (row0 & v0 & t0 & Hr & He & Hv & Hx & Hj & Hm). exists row0, v0, t0. cbn. set_solver.
  - apply list_elem_of_singleton in Hid as ->. exists row, version, (uuid (w_steps w)). cbn. set_solver.
Qed.

Lemma eligible row target :
  eligibility row target = None →
  mr_busy row = false ∧ target ∈ ALLOWED_TARGETS (class_of (mr_version row ≫= av_storage_class))
  ∧ ∃ v, mr_version row = Some v ∧ movable v = true.
Proof.
  unfold eligibility. destruct (mr_busy row), (mr_check_failed row); try done.
  destruct (mr_version row) as [v|]; cbn; [|done]. destruct (movable v) eqn:Em; cbn; [|done].
  case_bool_decide as Ht; cbn; [|done]. eauto 10.
Qed.

Lemma elem_of_candidates d vault_id row :
  row ∈ candidates d vault_id →
  ∃ f p, f ∈ t_files (d_catalog d) ∧ vf_vault_id f = vault_id ∧ vf_status f = Active
    ∧ p ∈ t_paths (d_catalog d) ∧ fp_vault_file_id p = vf_id f ∧ fp_valid_to p = None
    ∧ mr_file row = vf_id f ∧ mr_path row = fp_path p ∧ mr_version row = newest_version (d_catalog d) (vf_id f)
    ∧ mr_busy row = has_active_job (d_catalog d) (vf_id f) || pending_upload d (vf_id f).
Proof.
  unfold candidates. rewrite sort_by_perm. intros (f & Hrow & [Hf Hp]%elem_of_select)%list_elem_of_bind.
  apply list_elem_of_bind in Hrow as (p & Hrow & [Hin Hq]%elem_of_select). apply list_elem_of_singleton in Hrow as ->.
  rewrite andb_true_iff, !bool_decide_eq_true in *. rewrite is_none_true in Hq. exists f, p. naive_solver.
Qed.

(** A move is only admitted for the newest version of a file, when that
    version is verified, available and has an exact identity.  Every Job
    [schedule] returns is for an active file of the Vault without active Job or
    unsettled upload, pins the newest version that is not purged, and its ledger
    row names the provider version, the key, the size and the digest of that
    very version; for a target that needs no HEAD of cold sources the target is
    strictly colder than the recorded class. *)
Theorem schedule_pins_newest_version vault_id bucket target user_id at_ (w : W) w' est group_id ids :
  schedule str_of credentials vault_id bucket target user_id true at_ w = (w', Ok (est, group_id, ids)) →
  ids ≠ [] ∧ ∀ id, id ∈ ids → ∃ f p v token j,
    f ∈ t_files (d_catalog (w_db w)) ∧ vf_vault_id f = vault_id ∧ vf_status f = Active
    ∧ p ∈ t_paths (d_catalog (w_db w)) ∧ fp_vault_file_id p = vf_id f ∧ fp_valid_to p = None
    ∧ newest_version (d_catalog (w_db w)) (vf_id f) = Some v ∧ movable v = true
    ∧ has_active_job (d_catalog (w_db w)) (vf_id f) = false ∧ pending_upload (w_db w) (vf_id f) = false
    ∧ (target ≠ "DEEP_ARCHIVE" → target ∈ ALLOWED_TARGETS (class_of (av_storage_class v)))
    ∧ j ∈ t_jobs (d_catalog (w_db w')) ∧ j_id j = id ∧ j_vault_file_id j = vf_id f ∧ j_path j = fp_path p
    ∧ j_archive_version_id j = Some (av_id v) ∧ j_target_storage_class j = Some target
    ∧ new_move id token v ∈ d_moves (w_db w').
Proof.
  unfold schedule. intros E. apply ebind_ok in E as (w1 & v & E1 & E).
  assert (w1 = w) as -> by (unfold in_db in E1; destruct (lock_vault _ _); [|done]; cbn in E1; injection E1 as <- <-; by destruct w).
  apply ebind_ok in E as (w2 & [] & [_ ->]%lift_ok & E). apply throw_bind_ok in E as [_ E].
  apply ebind_ok in E as (w3 & plan & E3 & E).
  assert (w3 = w) as -> by (unfold in_db in E3; destruct (load_vault_plan _ _ _); [|done]; cbn in E3; injection E3 as <- <-; by destruct w).
  apply throw_bind_ok in E as [_ E]. apply ebind_ok in E as (w4 & rows0 & [= <- <-] & E).
  apply ebind_ok in E as (w5 & rows & E5 & E).
  assert (H5 : w_db w5 = w_db w ∧ Forall2 refreshed (candidates (w_db w) vault_id) rows
               ∧ (target ≠ "DEEP_ARCHIVE" → rows = candidates (w_db w) vault_id)).
  { case_bool_decide.
    - apply refresh_rows_ok in E5 as [? (tail & -> & ?)]. done.
    - injection E5 as <- <-. split; [done|]. split; [|done]. apply Forall2_same_length_lookup_2; [done|].
      intros i x y Hx Hy. simplify_eq. apply refreshed_refl. }
  destruct H5 as (Hdb5 & Hr & Hsame).
  apply ebind_ok in E as (w6 & g & [= <- <-] & E). apply ebind_ok in E as (w7 & ids7 & E7 & E).
  apply throw_bind_ok in E as [Hids [= <- <- <- <-]]. apply bool_decide_eq_false in Hids. split; [done|].
  intros id Hid. eapply (admit_moves_ok _ _ _ _ _ rows) in E7 as (row' & v' & token & Hrow & He & Hv & _ & Hj & Hm);
    [|done|by intros ? ?%elem_of_nil|exact Hid].
  apply list_elem_of_lookup in Hrow as [i Hi]. pose proof (Forall2_lookup_r _ _ _ _ _ Hr Hi) as (row & Hi0 & Hrf).
  pose proof Hi0 as Hc. apply list_elem_of_lookup_2, elem_of_candidates in Hc.
  destruct Hc as (f & p & Hf & Hfv & Hfs & Hp & Hpf & Hpv & Hmf & Hmp & Hmv & Hmb).
  destruct Hrf as (Rf & Rp & Rb & _ & Rv). destruct (eligible _ _ He) as (Hb & Ht & v1 & Hv1 & Hmov).
  rewrite Hv in Hv1. injection Hv1 as <-.
  assert (Hv0 : ∃ v0, newest_version (d_catalog (w_db w)) (vf_id f) = Some v0 ∧ movable v0 = true ∧ av_id v' = av_id v0
                      ∧ new_move id token v' = new_move id token v0).
  { rewrite Hv in Rv. destruct Rv as [Rv|(c & rs & Rv)].
    - exists v'. by rewrite <- Hmv, <- Rv.
    - destruct (mr_version row) as [v0|] eqn:E0; [|done]. injection Rv as ->. exists v0. by rewrite <- Hmv. }
  destruct Hv0 as (v0 & Hn & Hm0 & Hid0 & Hnm). rewrite Rb, Hmb, orb_false_iff in Hb. destruct Hb as [Hb1 Hb2].
  exists f, p, v0, token, (new_move_job id (va_id v) row' v' target user_id at_ (uuid (w_steps w5))). cbn.
  rewrite <- Hnm, <- Hid0, <- Rf, <- Rp in *. repeat (split; [by auto|]).
  split; [|by repeat split; try congruence].
  intros Hd. rewrite (Hsame Hd) in Hi. rewrite Hi in Hi0. injection Hi0 as ->. rewrite Hmv, Hn in Ht. exact Ht.
Qed.
End admission.

(** ** Witnesses: one file, moved from STANDARD to GLACIER *)

(** A bucket with one key: its versions, the current one first. *)
Record w_object := { wo_version : string; wo_class : option string; wo_metadata : gmap string string; wo_content : bytes }.

Definition w_object_head (o : w_object) : head_answer :=
  {| hd_version_id := Some (wo_version o); hd_delete_marker := false; hd_content_length := Some (Z.of_nat (length (wo_content o)));
     hd_storage_class := wo_class o; hd_restore := None; hd_metadata := Some (wo_metadata o); hd_headers := [];
     hd_checksum_sha256 := None; hd_checksum_type := None; hd_checksum_crc32 := None; hd_etag := None |}.

Definition w_find (v : option string) (l : list w_object) : option w_object :=
  match v with Some v => List.find (fun o => wo_version o =b v) l | None => head l end.

Definition w_missing {A} : result A := Raise (ClientError "NoSuchVersion" 404).

Definition w_bucket : Provider (list w_object) := {|
  p_list q p := (p, Ok {| pg_truncated := Some false;
                          pg_versions := map (fun o => {| li_key := Some (lr_prefix q); li_version_id := Some (wo_version o);
                                                          li_size := None; li_storage_class := wo_class o |}) p;
                          pg_markers := []; pg_next_key := None; pg_next_version := None |});
  p_head q p := (p, match w_find (hr_version q) p with Some o => Ok (w_object_head o) | None => w_missing end);
  p_get o p := (p, match w_find (Some (or_version o)) p with Some x => Ok (Some [Ok (wo_content x)]) | None => w_missing end);
  p_tags o p := (p, Ok []);
  p_delete o p := (List.filter (fun x => wo_version x <>b or_version o) p, Ok tt);
  p_copy q p := match w_find (Some (or_version (cr_source q))) p with
                | Some x => ({| wo_version := "p2"; wo_class := Some (cr_storage_class q);
                                wo_metadata := or_default (cr_metadata q) ∅; wo_content := wo_content x |} :: p, Ok (Some "p2"))
                | None => (p, w_missing)
                end;
  p_create q p := (p, Ok None);
  p_part q p := (p, w_missing);
  p_complete q p := (p, Ok None);
  p_abort u p := (p, Ok tt);
  p_delete_batch q p := (p, Ok []);
  p_restore q p := (p, Ok tt);
|}.

Definition w_content : bytes := replicate 32 x61.
Definition w_sha256 : string := "6161616161616161616161616161616161616161616161616161616161616161".

Definition w_move_version : archive_version :=
  {| av_id := "v1"; av_vault_file_id := "f"; av_vault_id := 1; av_version_number := 1;
     av_object_key := Some "vaults/photos/a/b.txt"; av_provider_version_id := Some "p1";
     av_size := Some 32; av_storage_class := None; av_plaintext_sha256 := Some w_sha256;
     av_origin := Upload; av_integrity := Verified; av_verified_at := Some 0; av_availability := Available;
     av_availability_checked_at := None; av_restore_state := None; av_placement := new_placement 0; av_evidence := no_evidence |}.

Definition w_plan : vault_plan_row :=
  {| v_id := 1; v_uuid := "u"; v_bucket := "bucket"; v_prefix := "vaults/photos";
     v_plan := Some (JDict [("transitions", JList [JDict [("days", JInt 30); ("storage_class", JStr "GLACIER")]])]) |}.

Definition w_move_db : worker_db :=
  {| d_catalog := set_versions [w_move_version] w_catalog; d_inbox := w_inbox; d_plans := [w_plan]; d_uploads := no_uploads;
     d_moves := []; d_gate := None |}.

Definition w_move_world (d : worker_db) : world worker_db (list w_object) :=
  {| w_db := d; w_cloud := [{| wo_version := "p1"; wo_class := None; wo_metadata := ∅; wo_content := w_content |}];
     w_calls := []; w_tables := []; w_steps := 0; w_lost := false; w_ready := false; w_echoes := [] |}.

Definition w_schedule : world worker_db (list w_object) * result (move_estimate * string * list Z) :=
  schedule (Provider0 := w_bucket) (Environment0 := w_environment) (fun _ => "") (Ok tt) 1 "bucket" "GLACIER" 7 true 5 (w_move_world w_move_db).

Lemma schedule_pins_newest_version_witness :
  w_schedule.2 = Ok ({| me_target := "GLACIER"; me_eligible_count := 1; me_total_bytes := 32; me_skipped := [];
                        me_minimum_days := 90 |}, "uuid", [1])
  ∧ ∃ token v, new_move 1 token v ∈ d_moves (w_db w_schedule.1) ∧ movable v = true.
Proof.
  split; [vm_compute; reflexivity|].
  destruct (schedule_pins_newest_version (Provider0 := w_bucket) (Environment0 := w_environment) (fun _ => "") (Ok tt) 1 "bucket"
              "GLACIER" 7 5 (w_move_world w_move_db) w_schedule.1
              {| me_target := "GLACIER"; me_eligible_count := 1; me_total_bytes := 32; me_skipped := []; me_minimum_days := 90 |}
              "uuid" [1]) as [_ Hall]; [vm_compute; reflexivity|].
  destruct (Hall 1) as (f & p & v & token & j & H); [left|]. exists token, v. naive_solver.
Defined.

(** The Job of that move, claimed. *)
Definition w_claimed : job :=
  set_claim (Some "lease") (Some 0) (Some 1000000)
    (new_move_job 1 1 {| mr_file := "f"; mr_path := "a/b.txt"; mr_version := Some w_move_version; mr_busy := false;
                         mr_check_failed := false |} w_move_version "GLACIER" 7 5 "g").
Definition w_move_job : claimed_job := {| cj_row := w_claimed; cj_bucket := "bucket"; cj_source_root := "/data/vault"; cj_s3_prefix := "vaults/photos" |}.
Definition w_move : class_move := new_move 1 "token" w_move_version.
Definition w_claimed_db : worker_db :=
  set_moves [w_move] (set_catalog (set_jobs [w_claimed] (d_catalog w_move_db)) w_move_db).

Definition w_process : world worker_db (list w_object) * result unit :=
  process (Provider0 := w_bucket) (Environment0 := w_environment) (H := w_messages) (H0 := w_transitions)
    (fun b => b) (fun _ => "") (Ok tt) 3 w_move_job (eret tt) w_move (w_move_world w_claimed_db).

