(* ===== verification/UploadProvenance.v ===== *)
(** * UploadProvenance: intents and receipts

    Models the tables side of [src/app/services/upload_provenance.py]: the target an
    upload is pinned to and its re-check ([target], [require_target], with
    [require_job] of [upload_remediation.py]), the life of an intent ([prepare],
    [mark_send_started], [record_no_write], [settle_unstarted], [bind_for_resume])
    and the receipts of writes.  Operations are functions of all tables of the worker that may
    raise; the caller runs them in one transaction.  New ids come as arguments.  Row
    locks are left out.  The texts of [REMEDIES] are left out, their keys kept. *)
From S2P Require Import Prelude Sql PyString Json JsonText Schema DirtyMarks JobScheduler Lifecycle CloudDeletion Catalog UploadTables Effects S3Client S3Copy WorkerJobs LocalFiles UploadSnapshot UploadReconcile VaultMoves.
From Stdlib Require Import Strings.Byte.
Open Scope Z_scope.

Definition ABSENT_OPERATION : string := "ProvenAbsent".
Definition NO_WRITE_OPERATIONS : list string :=
  ["PutObject"; "CreateMultipartUpload"; "UploadPart"; "CompleteMultipartUpload"; ABSENT_OPERATION].
Definition REMEDIES : list string :=
  ["ambiguous_send"; "list_permission_denied"; "ambiguous_receipt"; "inventory_changed"; "cleanup_unavailable"; "identity_changed";
   "proof_mismatch"; "proof_unavailable"; "orphan_different"; "keeper_missing"; "markers_present"; "active_operation";
   "source_volume_unavailable"; "vault_suspended"; "pending_deletion"; "protection_paused"; "cloud_only_conflict"; "already_resolved";
   "expected_evidence_missing"; "target_superseded"; "target_unavailable"; "owner_cancelled"].

Definition blocked {A} (reason : string) : result A := Raise (UploadBlocked reason).

(** ** Receipts *)
Definition is_no_write (d : fields) : bool :=
  keys_are d ["NoWriteOperation"]
  && match dict_get d "NoWriteOperation" with Some v => json_in v NO_WRITE_OPERATIONS | None => false end.

(** Values are compared by their text. *)
Definition same_json (a b : json) : bool := canonical a =b canonical b.

Definition add_item (combined : fields) (kv : string * json) : result fields :=
  raise! UploadBlocked "ambiguous_receipt" when
    match dict_get combined kv.1 with Some v => negb (same_json v kv.2) | None => false end;
  Ok (dict_put combined kv.1 kv.2).

Definition add_response (combined response : fields) : result fields := foldM_r add_item combined response.

Definition receipt (t : upload_tables) (intent_id : string) : result (option fields) :=
  let rows := select (fun r => rc_intent_id r =b intent_id) (ut_receipts t) in
  match List.filter (fun r => negb (is_no_write r)) (map rc_response rows) with
  | [] => Ok None
  | responses =>
      combined ← foldM_r add_response [] responses;
      raise! UploadBlocked "ambiguous_receipt" when
        negb (truthy (get_text combined "VersionId")) || bool_decide (get_text combined "VersionId" = Some "null");
      Ok (Some combined)
  end.

Definition no_write_fact (operation : string) : fields := [("NoWriteOperation", JStr operation)].

Definition proven_absent (t : upload_tables) (intent_id : option string) : bool :=
  match intent_id with
  | Some i => (i <>b "") && exists_row (fun r => (rc_intent_id r =b i)
                                                 && (canonical (JDict (rc_response r)) =b canonical (JDict (no_write_fact ABSENT_OPERATION))))
                              (ut_receipts t)
  | None => false
  end.

Definition unsent (t : upload_tables) (intent_id : option string) : bool :=
  match intent_id with
  | Some i => (i <>b "") && exists_row (fun u => (ui_id u =b i) && negb (ui_send_started u) && is_none (ui_archive_version_id u)) (ut_intents t)
  | None => false
  end.

Section receipts.
Context (sha256 : bytes → bytes).

(** The row of a response; the same text is kept once per intent. *)
Definition receipt_row (intent_id : string) (response : fields) (at_ : timestamp) : upload_receipt :=
  {| rc_intent_id := intent_id; rc_hash := hexdigest (sha256 (text_bytes (canonical (JDict response)))); rc_response := response;
     rc_received_at := at_ |}.

Definition insert_receipt (r : upload_receipt) (t : upload_tables) : upload_tables :=
  if exists_row (fun x => (rc_intent_id x =b rc_intent_id r) && (rc_hash x =b rc_hash r)) (ut_receipts t) then t
  else set_receipts (ut_receipts t ++ [r]) t.

Definition allowed (response : fields) : fields :=
  omap (fun k => (fun v => (k, v)) <$> dict_get response k) RECEIPT_FIELDS.

Definition append_receipt {P} `{!Environment worker_db} (intent_id : string) (response : fields) (at_ : timestamp)
    : eff (world worker_db P) unit :=
  transaction (update_db (fun d => set_uploads (insert_receipt (receipt_row intent_id (allowed response) at_) (d_uploads d)) d)).
End receipts.

(** ** The target of an upload *)
Definition terminal_job (j : job) : bool := j_status j ∈b ["failed"; "cancelled"; "completed"].

Definition vault_bucket (d : worker_db) (v : vault) : string :=
  or_default (v_bucket <$> fetchone (fun p => v_id p =b va_id v) (d_plans d)) "".

Definition vault_row (d : worker_db) (vault_id : Z) : option vault :=
  fetchone (fun v => va_id v =b vault_id) (t_vaults (d_catalog d)).
Definition job_by_id (d : worker_db) (job_id : Z) : option job :=
  fetchone (fun j => j_id j =b job_id) (t_jobs (d_catalog d)).

(** [vault_files] joined with the current path. *)
Definition file_and_path (d : worker_db) (file : string) (vault_id : Z) : option (vault_file * file_path) :=
  f ← fetchone (fun f => (vf_id f =b file) && (vf_vault_id f =b vault_id)) (t_files (d_catalog d));
  p ← current_path_of (t_paths (d_catalog d)) (vf_id f);
  Some (f, p).

Definition remediation_of_job (t : upload_tables) (job_id : Z) : option remediation :=
  fetchone (fun r => exists_row (fun b => (rl_job_id b =b job_id) && (rl_remediation_id b =b rm_id r)) (ut_remediation_jobs t))
    (ut_remediations t).

Definition original_cancelled (d : worker_db) (remediation_id : string) : bool :=
  exists_row (fun o => (rl_remediation_id o =b remediation_id)
                       && exists_row (fun j => (j_id j =b rl_job_id o) && (j_status j =b "cancelled")) (t_jobs (d_catalog d)))
    (ut_originals (d_uploads d)).

Definition named_reason (reason : option string) : string :=
  match reason with Some r => if r ∈b REMEDIES then r else "proof_unavailable" | None => "proof_unavailable" end.

Definition root_changed (v : vault) (pinned : pinned_target) : bool :=
  (va_source_root v <>b tg_source_root pinned) || negb (bool_decide (va_root_identity v = tg_root_identity pinned))
  || negb (bool_decide (va_root_identity_version v = tg_root_identity_version pinned)).

Definition require_job (d : worker_db) (job : claimed_job) : result unit :=
  let t := d_uploads d in
  let id := j_id (cj_row job) in
  match remediation_of_job t id with
  | None => Ok tt
  | Some r =>
      raise! UploadBlocked "owner_cancelled" when original_cancelled d (rm_id r) || (rm_state r =b "cancelled");
      raise! UploadBlocked "already_resolved" when rm_state r =b "resolved";
      raise! UploadBlocked "active_operation" when negb (bool_decide (rm_current_job_id r = Some id));
      raise! UploadBlocked (named_reason (rm_reason r)) when rm_state r =b "blocked";
      match job_by_id d id, vault_row d (rm_vault_id r) with
      | Some current, Some v =>
          let pinned := rm_target r in
          raise_if (negb (ju_reconcile_only (j_upload current) || proven_absent t (rm_intent_id r))
                    || (j_vault_file_id current <>b rm_vault_file_id r)
                    || negb (bool_decide (ju_plaintext_sha256 (j_upload current) = rm_expected_sha256 r))
                    || negb (bool_decide (ju_snapshot (j_upload current) = rm_snapshot r))
                    || negb (bool_decide (j_upload_verification_requested current = Some (rm_requested_mode r)))
                    || (truthy (rm_archive_version_id r) && negb (bool_decide (j_archive_version_id current = rm_archive_version_id r)))
                    || (vault_bucket d v <>b tg_bucket pinned) || (va_s3_prefix v <>b tg_prefix pinned) || root_changed v pinned)
            (UploadBlocked "identity_changed")
      | _, _ => Raise (TypeError "'NoneType' object is not subscriptable")
      end
  end.

Definition suspended (v : vault) : bool :=
  negb (va_enabled v) || negb (bool_decide (va_decommission_state v = Some "active")) || (va_relocation_state v <>b "ready")
  || is_some (va_root_released_at v).

Definition other_active_job (d : worker_db) (file : string) (job_id : Z) : bool :=
  exists_row (fun j => (j_vault_file_id j =b file) && (j_id j <>b job_id) && negb (terminal_job j)) (t_jobs (d_catalog d)).

Definition target (d : worker_db) (job : claimed_job) (key provider : string) : result pinned_target :=
  let row := cj_row job in
  _ ← require_job d job;
  let current := job_by_id d (j_id row) in
  raise! UploadBlocked "owner_cancelled" when bool_decide ((j_status <$> current) = Some "cancelled");
  raise! UploadBlocked "already_resolved" when
    match current with Some c => j_status c ∈b ["failed"; "completed"] | None => false end;
  match vault_row d (j_vault_id row), file_and_path d (j_vault_file_id row) (j_vault_id row), current with
  | Some v, Some (f, p), Some c =>
      raise! UploadBlocked "identity_changed" when
        (vf_status f <>b Active) || (j_vault_file_id c <>b j_vault_file_id row) || (j_path c <>b j_path row)
        || (fp_path p <>b j_path row) || (va_source_root v <>b cj_source_root job) || (vault_bucket d v <>b cj_bucket job)
        || (va_s3_prefix v <>b cj_s3_prefix job);
      raise! UploadBlocked "vault_suspended" when suspended v;
      raise! UploadBlocked "active_operation" when other_active_job d (j_vault_file_id row) (j_id row);
      raise! UploadBlocked "cloud_only_conflict" when
        truthy (local_copy_of (t_copies (d_catalog d)) (j_vault_file_id row) ≫= lc_cloud_only_version_id);
      Ok {| tg_vault_id := j_vault_id row; tg_vault_file_id := j_vault_file_id row; tg_bucket := vault_bucket d v;
            tg_prefix := va_s3_prefix v; tg_key := key; tg_provider := Some provider; tg_path := fp_path p;
            tg_path_since := Some (fp_valid_from p); tg_source_root := va_source_root v; tg_root_identity := va_root_identity v;
            tg_root_identity_version := va_root_identity_version v |}
  | _, _, _ => blocked "identity_changed"
  end.

Definition require_target (d : worker_db) (job : claimed_job) (pinned : pinned_target) : result unit :=
  match tg_provider pinned with
  | None => Raise (KeyError "provider")
  | Some provider =>
      now ← target d job (tg_key pinned) provider;
      raise_if (negb (bool_decide (now = pinned))) (UploadBlocked "identity_changed")
  end.

(** ** Intents *)
Definition load_for_job (t : upload_tables) (job_id : Z) : option upload_intent :=
  fetchone (fun i => exists_row (fun b => (ij_job_id b =b job_id) && (ij_intent_id b =b ui_id i)) (ut_intent_jobs t)) (ut_intents t).

Definition oldest_first (a b : upload_intent) : bool :=
  (ui_created_at a <? ui_created_at b) || ((ui_created_at a =? ui_created_at b) && String.leb (ui_id a) (ui_id b)).

Definition outstanding_rows (t : upload_tables) (file : string) : list upload_intent :=
  take 2 (sort_by oldest_first (select (fun i => (ui_vault_file_id i =b file) && negb (ui_settled i) && ui_send_started i) (ut_intents t))).

Definition outstanding (t : upload_tables) (file : string) : result (option upload_intent) :=
  match outstanding_rows t file with
  | [] => Ok None
  | [i] => Ok (Some i)
  | _ => blocked "ambiguous_send"
  end.

(** The assignments of the statements on [upload_intents]. *)
Definition set_settled (i : upload_intent) : upload_intent :=
  {| ui_id := ui_id i; ui_token := ui_token i; ui_vault_id := ui_vault_id i; ui_vault_file_id := ui_vault_file_id i;
     ui_original_job_id := ui_original_job_id i; ui_target := ui_target i; ui_snapshot := ui_snapshot i; ui_requested := ui_requested i;
     ui_inventory := ui_inventory i; ui_send_started := ui_send_started i; ui_archive_version_id := ui_archive_version_id i;
     ui_settled := true; ui_blocked_reason := None; ui_created_at := ui_created_at i |}.
Definition set_send_started (b : bool) (i : upload_intent) : upload_intent :=
  {| ui_id := ui_id i; ui_token := ui_token i; ui_vault_id := ui_vault_id i; ui_vault_file_id := ui_vault_file_id i;
     ui_original_job_id := ui_original_job_id i; ui_target := ui_target i; ui_snapshot := ui_snapshot i; ui_requested := ui_requested i;
     ui_inventory := ui_inventory i; ui_send_started := b; ui_archive_version_id := ui_archive_version_id i;
     ui_settled := ui_settled i; ui_blocked_reason := ui_blocked_reason i; ui_created_at := ui_created_at i |}.
Definition repin (token : string) (pinned : pinned_target) (snapshot requested : string) (before : key_inventory) (at_ : timestamp)
    (i : upload_intent) : upload_intent :=
  {| ui_id := ui_id i; ui_token := token; ui_vault_id := ui_vault_id i; ui_vault_file_id := ui_vault_file_id i;
     ui_original_job_id := ui_original_job_id i; ui_target := pinned; ui_snapshot := snapshot; ui_requested := requested;
     ui_inventory := before; ui_send_started := ui_send_started i; ui_archive_version_id := ui_archive_version_id i;
     ui_settled := ui_settled i; ui_blocked_reason := None; ui_created_at := at_ |}.

Definition update_intents (p : upload_intent → bool) (f : upload_intent → upload_intent) (t : upload_tables) : upload_tables :=
  set_intents (update_where p f (ut_intents t)) t.

Definition settle_one (t : upload_tables) (id : string) : result upload_tables :=
  saved ← receipt t id;
  raise! UploadBlocked "ambiguous_receipt" when is_some saved;
  Ok (update_intents (fun i => (ui_id i =b id) && negb (ui_send_started i)) set_settled t).

Definition unstarted (t : upload_tables) (file : string) (keep : option string) : list upload_intent :=
  select (fun i => (ui_vault_file_id i =b file) && negb (ui_settled i) && negb (ui_send_started i) && is_none (ui_archive_version_id i)
                   && negb (bool_decide (Some (ui_id i) = keep))) (ut_intents t).

Definition settle_unstarted (t : upload_tables) (file : string) (keep : option string) : result upload_tables :=
  foldM_r settle_one t (map ui_id (unstarted t file keep)).

Definition bind_for_resume (d : worker_db) (job_id : Z) (intent : upload_intent) : result worker_db :=
  let t := d_uploads d in
  let cancelled := exists_row (fun b => (ij_intent_id b =b ui_id intent)
                                        && exists_row (fun j => (j_id j =b ij_job_id b) && (j_status j =b "cancelled")) (t_jobs (d_catalog d)))
                     (ut_intent_jobs t) in
  raise! UploadBlocked "identity_changed" when
    match job_by_id d (ui_original_job_id intent) with Some o => j_status o =b "cancelled" | None => true end || cancelled;
  Ok (if exists_row (fun b => ij_job_id b =b job_id) (ut_intent_jobs t) then d
      else set_uploads (set_intent_jobs (ut_intent_jobs t ++ [{| ij_job_id := job_id; ij_intent_id := ui_id intent |}]) t) d).

(** The intent of this attempt: the one of the Job, re-pinned when it never sent, or
    a new one.  [fresh]: a new id and a new token. *)
Definition prepare (d : worker_db) (job : claimed_job) (pinned : pinned_target) (snapshot : upload_snapshot) (requested : string)
    (before : key_inventory) (at_ : timestamp) (fresh : string * string) : result (worker_db * upload_intent) :=
  let row := cj_row job in
  let t := d_uploads d in
  _ ← require_target d job pinned;
  match load_for_job t (j_id row) with
  | Some existing =>
      if ui_send_started existing || ui_settled existing || truthy (ui_archive_version_id existing)
         || (bool_decide (pinned = ui_target existing) && (as_json snapshot =b ui_snapshot existing) && (requested =b ui_requested existing)
             && bool_decide (before = ui_inventory existing))
      then Ok (d, existing)
      else
        saved ← receipt t (ui_id existing);
        raise! UploadBlocked "ambiguous_receipt" when is_some saved;
        let open_ := fun i => (ui_id i =b ui_id existing) && negb (ui_send_started i) && negb (ui_settled i) && is_none (ui_archive_version_id i) in
        match fetchone open_ (ut_intents t) with
        | Some i =>
            let refreshed := repin fresh.2 pinned (as_json snapshot) requested before at_ i in
            t ← settle_unstarted (update_intents open_ (repin fresh.2 pinned (as_json snapshot) requested before at_) t)
                  (j_vault_file_id row) (Some (ui_id refreshed));
            Ok (set_uploads t d, refreshed)
        | None => blocked "ambiguous_send"
        end
  | None =>
      t ← settle_unstarted t (j_vault_file_id row) None;
      previous ← outstanding t (j_vault_file_id row);
      raise! UploadBlocked "ambiguous_send" when is_some previous;
      raise! IntegrityError "upload_intents" when
        exists_row (fun i => (ui_id i =b fresh.1) || (ui_token i =b fresh.2) || (ui_original_job_id i =b j_id row)) (ut_intents t);
      let intent := {| ui_id := fresh.1; ui_token := fresh.2; ui_vault_id := j_vault_id row; ui_vault_file_id := j_vault_file_id row;
                       ui_original_job_id := j_id row; ui_target := pinned; ui_snapshot := as_json snapshot; ui_requested := requested;
                       ui_inventory := before; ui_send_started := false; ui_archive_version_id := None; ui_settled := false;
                       ui_blocked_reason := None; ui_created_at := at_ |} in
      Ok (set_uploads (set_intent_jobs (ut_intent_jobs t ++ [{| ij_job_id := j_id row; ij_intent_id := fresh.1 |}])
                         (set_intents (ut_intents t ++ [intent]) t)) d, intent)
  end.

(** [upload_remediation_discovery.capture] for an intent. *)
Definition capture_intent (d : worker_db) (at_ : timestamp) (intent_id : string) : worker_db :=
  let t := d_uploads d in
  match fetchone (fun i => (ui_id i =b intent_id) && ui_send_started i
                           && exists_row (fun f => (vf_id f =b ui_vault_file_id i) && (vf_vault_id f =b ui_vault_id i)) (t_files (d_catalog d)))
          (ut_intents t) with
  | None => d
  | Some i =>
      let key := "intent:" +:+ ui_id i in
      if exists_row (fun f => fc_target_key f =b key) (ut_facts t) then d
      else set_uploads (set_facts (ut_facts t ++ [{| fc_target_key := key; fc_vault_id := ui_vault_id i; fc_vault_file_id := ui_vault_file_id i;
             fc_intent_id := Some (ui_id i); fc_archive_version_id := ui_archive_version_id i; fc_discovered_at := at_; fc_due_at := at_ |}]) t) d
  end.

Definition mark_send_started (d : worker_db) (job : claimed_job) (intent : upload_intent) (at_ : timestamp) : result worker_db :=
  let t := d_uploads d in
  _ ← require_target d job (ui_target intent);
  saved ← receipt t (ui_id intent);
  raise! UploadBlocked "ambiguous_receipt" when is_some saved;
  let p := fun i => (ui_id i =b ui_id intent) && negb (ui_send_started i) in
  raise! UploadBlocked "ambiguous_send" when negb (exists_row p (ut_intents t));
  Ok (capture_intent (set_uploads (update_intents p (set_send_started true) t) d) at_ (ui_id intent)).

Definition record_no_write (sha256 : bytes → bytes) (d : worker_db) (job : claimed_job) (intent : upload_intent) (operation : string)
    (at_ : timestamp) : result worker_db :=
  let t := d_uploads d in
  raise! UploadBlocked "ambiguous_send" when negb (operation ∈b NO_WRITE_OPERATIONS);
  _ ← require_target d job (ui_target intent);
  saved ← receipt t (ui_id intent);
  raise! UploadBlocked "ambiguous_receipt" when is_some saved;
  let p := fun i => (ui_id i =b ui_id intent) && ui_send_started i && negb (ui_settled i) && is_none (ui_archive_version_id i) in
  raise! UploadBlocked "ambiguous_receipt" when negb (exists_row p (ut_intents t));
  Ok (set_uploads (insert_receipt (receipt_row sha256 (ui_id intent) (no_write_fact operation) at_)
                     (update_intents p (set_send_started false) t)) d).

(** ** What the life of an intent keeps *)
Section life.
Context (sha256 : bytes → bytes).

(** The steps of this module, in any order, on any Jobs. *)
Inductive intent_step : worker_db → worker_db → Prop :=
  | step_prepare d job pinned s requested before at_ fresh d' i :
      prepare d job pinned s requested before at_ fresh = Ok (d', i) → intent_step d d'
  | step_start d job i at_ d' : mark_send_started d job i at_ = Ok d' → intent_step d d'
  | step_no_write d job i operation at_ d' : record_no_write sha256 d job i operation at_ = Ok d' → intent_step d d'
  | step_bind d job_id i d' : bind_for_resume d job_id i = Ok d' → intent_step d d'
  | step_receipt d intent_id response at_ :
      intent_step d (set_uploads (insert_receipt (receipt_row sha256 intent_id (allowed response) at_) (d_uploads d)) d)
  | step_elsewhere d d' : d_uploads d' = d_uploads d → intent_step d d'.

(** What was sent under an intent: its identity, token, target and evidence. *)
Definition same_send (i i' : upload_intent) : Prop :=
  ui_id i' = ui_id i ∧ ui_token i' = ui_token i ∧ ui_vault_file_id i' = ui_vault_file_id i ∧ ui_original_job_id i' = ui_original_job_id i
  ∧ ui_target i' = ui_target i ∧ ui_snapshot i' = ui_snapshot i ∧ ui_requested i' = ui_requested i ∧ ui_inventory i' = ui_inventory i
  ∧ ui_archive_version_id i' = ui_archive_version_id i ∧ ui_settled i' = ui_settled i.

(** A definitive answer that nothing was written is on record. *)
Definition no_write_recorded (d : worker_db) (id : string) : Prop :=
  ∃ r operation at_, r ∈ ut_receipts (d_uploads d) ∧ rc_intent_id r = id ∧ operation ∈ NO_WRITE_OPERATIONS
    ∧ rc_hash r = rc_hash (receipt_row sha256 id (no_write_fact operation) at_).

(** Rows of intents that were sent stay, and receipts are only added. *)
Definition keeps_started (t t' : upload_tables) : Prop :=
  (∀ i, i ∈ ut_intents t → ui_send_started i = true → i ∈ ut_intents t') ∧ (∀ r, r ∈ ut_receipts t → r ∈ ut_receipts t').

Lemma keeps_started_trans t1 t2 t3 : keeps_started t1 t2 → keeps_started t2 t3 → keeps_started t1 t3.
Proof. intros [H1 R1] [H2 R2]. split; intros; [apply H2; [by apply H1|done] | by apply R2, R1]. Qed.

Lemma update_keeps_started p f t :
  (∀ i, p i = true → ui_send_started i = false) → keeps_started t (update_intents p f t).
Proof.
  intros Hp. split; [|done]. intros i Hi Hs. apply elem_of_update_where. exists i. split; [done|].
  destruct (p i) eqn:E; [|done]. apply Hp in E. congruence.
Qed.

Lemma settle_one_keeps_started t id t' : settle_one t id = Ok t' → keeps_started t t'.
Proof.
  unfold settle_one. intros E. inv_ok. subst. apply update_keeps_started. intros i [_ Hi]%andb_true_iff. by apply negb_true_iff in Hi.
Qed.

Lemma settle_unstarted_keeps t file keep t' : settle_unstarted t file keep = Ok t' → keeps_started t t'.
Proof.
  unfold settle_unstarted. generalize (map ui_id (unstarted t file keep)). intros l. revert t. induction l as [|id l IH]; intros t E; cbn in E.
  - injection E as <-. by split.
  - inv_ok. eapply keeps_started_trans; [by eapply settle_one_keeps_started | by apply IH].
Qed.

Lemma prepare_keeps d job pinned s requested before at_ fresh d' i :
  prepare d job pinned s requested before at_ fresh = Ok (d', i) → keeps_started (d_uploads d) (d_uploads d').
Proof.
  unfold prepare. intros E. inv_ok. destruct (load_for_job _ _) as [existing|].
  - destruct (_ || _); [simplify_eq; by split|]. inv_ok. destruct (fetchone _ _) as [row|]; [|done]. inv_ok.
    simplify_eq. cbn. eapply keeps_started_trans; [|by eapply settle_unstarted_keeps].
    apply update_keeps_started. intros x Hx. bsimpl. done.
  - inv_ok. simplify_eq. cbn. eapply keeps_started_trans; [by eapply settle_unstarted_keeps|].
    split; cbn; [|done]. intros x Hx _. apply elem_of_app. by left.
Qed.

Lemma capture_intent_uploads d at_ id :
  ut_intents (d_uploads (capture_intent d at_ id)) = ut_intents (d_uploads d)
  ∧ ut_receipts (d_uploads (capture_intent d at_ id)) = ut_receipts (d_uploads d).
Proof. unfold capture_intent. destruct (fetchone _ _); [|done]. by destruct (exists_row _ _). Qed.

Lemma insert_receipt_keeps r t : keeps_started t (insert_receipt r t).
Proof. unfold insert_receipt. destruct (exists_row _ _); split; try done. intros x Hx. apply elem_of_app. by left. Qed.

Lemma insert_receipt_has r t :
  ∃ x, x ∈ ut_receipts (insert_receipt r t) ∧ rc_intent_id x = rc_intent_id r ∧ rc_hash x = rc_hash r.
Proof.
  unfold insert_receipt. destruct (exists_row _ _) eqn:E.
  - apply exists_row_true in E as (x & Hx & Hb). bsimpl. by exists x.
  - exists r. split; [|done]. cbn. apply elem_of_app. right. by left.
Qed.

Lemma step_receipts d d' r : intent_step d d' → r ∈ ut_receipts (d_uploads d) → r ∈ ut_receipts (d_uploads d').
Proof.
  intros Hs Hr. destruct Hs as [d job pinned s requested before at_ fresh d' i' E|d job i' at_ d' E|d job i' op at_ d' E|d job_id i' d' E
    |d id response at_|d d' E].
  - by apply (proj2 (prepare_keeps _ _ _ _ _ _ _ _ _ _ E)).
  - unfold mark_send_started in E. inv_ok. subst d'.
    match goal with |- _ ∈ ut_receipts (d_uploads (capture_intent ?d ?a ?id)) => by rewrite (proj2 (capture_intent_uploads d a id)) end.
  - unfold record_no_write in E. inv_ok. subst d'. cbn. apply (proj2 (insert_receipt_keeps _ _)). exact Hr.
  - unfold bind_for_resume in E. inv_ok. subst d'. match goal with |- context [if ?b then d else _] => destruct b end; exact Hr.
  - cbn. by apply (proj2 (insert_receipt_keeps _ _)).
  - by rewrite E.
Qed.

(** One step: what was sent is unchanged, or the send is known not to have happened. *)
Lemma step_keeps d d' i :
  intent_step d d' → i ∈ ut_intents (d_uploads d) → ui_send_started i = true →
  (∀ r, r ∈ ut_receipts (d_uploads d) → r ∈ ut_receipts (d_uploads d'))
  ∧ ((∃ i', i' ∈ ut_intents (d_uploads d') ∧ same_send i i' ∧ ui_send_started i' = true) ∨ no_write_recorded d' (ui_id i)).
Proof.
  assert (Hk : ∀ d', keeps_started (d_uploads d) (d_uploads d') → i ∈ ut_intents (d_uploads d) → ui_send_started i = true →
    (∀ r, r ∈ ut_receipts (d_uploads d) → r ∈ ut_receipts (d_uploads d'))
    ∧ ((∃ i', i' ∈ ut_intents (d_uploads d') ∧ same_send i i' ∧ ui_send_started i' = true) ∨ no_write_recorded d' (ui_id i))).
  { intros d1 [H1 H2] Hi Hs. split; [done|]. left. exists i. by split; [apply H1|]. }
  intros Hstep. destruct Hstep as [d job pinned s requested before at_ fresh d' i' E|d job i' at_ d' E|d job i' op at_ d' E|d job_id i' d' E
    |d id response at_|d d' E]; intros Hi Hs.
  - apply Hk; [by eapply prepare_keeps|done|done].
  - unfold mark_send_started in E. inv_ok. subst d'. apply Hk; [|done|done].
    match goal with |- keeps_started _ (d_uploads (capture_intent ?d ?a ?id)) => destruct (capture_intent_uploads d a id) as [H1 H2] end.
    split; [rewrite H1 | rewrite H2; done]. apply update_keeps_started. intros x [_ Hx]%andb_true_iff. by apply negb_true_iff in Hx.
  - unfold record_no_write in E. inv_ok. subst d'. bsimpl. cbn.
    set (p := fun i => _) in *.
    destruct (insert_receipt_keeps (receipt_row sha256 (ui_id i') (no_write_fact op) at_) (update_intents p (set_send_started false) (d_uploads d))) as [K1 K2].
    split; [intros x Hx; by apply K2|]. destruct (p i) eqn:Ep.
    + right. unfold p in Ep. bsimpl. destruct (insert_receipt_has (receipt_row sha256 (ui_id i') (no_write_fact op) at_)
        (update_intents p (set_send_started false) (d_uploads d))) as (x & Hx & Hid & Hh).
      exists x, op, at_. cbn. split; [done|]. cbn in *. split; [congruence|]. split; [done|]. rewrite Hh. cbn. congruence.
    + left. exists i. split; [|done]. cbn. apply K1; [|done]. apply elem_of_update_where. exists i. by rewrite Ep.
  - unfold bind_for_resume in E. inv_ok. subst d'. match goal with |- context [if ?b then d else _] => destruct b end;
      (apply Hk; [split; intros x Hx; [intros _|]; exact Hx | exact Hi | exact Hs]).
  - apply Hk; [apply insert_receipt_keeps | done | done].
  - apply Hk; [by rewrite E | done | done].
Qed.

End life.

(** ** What a send may rely on when it starts *)

(** The target is what the catalog says now, and the Job is the only one at work on
    the file. *)
Definition live_target (d : worker_db) (job : claimed_job) (pinned : pinned_target) : Prop :=
  ∃ v f p c,
    vault_row d (j_vault_id (cj_row job)) = Some v ∧ suspended v = false
    ∧ va_source_root v = tg_source_root pinned ∧ va_root_identity v = tg_root_identity pinned
    ∧ vault_bucket d v = tg_bucket pinned ∧ va_s3_prefix v = tg_prefix pinned
    ∧ file_and_path d (j_vault_file_id (cj_row job)) (j_vault_id (cj_row job)) = Some (f, p) ∧ vf_status f = Active
    ∧ fp_path p = tg_path pinned ∧ Some (fp_valid_from p) = tg_path_since pinned
    ∧ job_by_id d (j_id (cj_row job)) = Some c ∧ terminal_job c = false
    ∧ ∀ j, j ∈ t_jobs (d_catalog d) → j_vault_file_id j = j_vault_file_id (cj_row job) → j_id j ≠ j_id (cj_row job) → terminal_job j = true.

Lemma other_jobs_over d file id :
  other_active_job d file id = false →
  ∀ j, j ∈ t_jobs (d_catalog d) → j_vault_file_id j = file → j_id j ≠ id → terminal_job j = true.
Proof.
  intros H j Hj Hf Hi. apply (proj1 (exists_row_false _ _)) with (r := j) in H; [|done]. destruct (terminal_job j); [done|].
  rewrite (bool_decide_eq_true_2 _ Hf), (bool_decide_eq_false_2 _ Hi) in H. done.
Qed.

Lemma require_target_ok d job pinned : require_target d job pinned = Ok tt → live_target d job pinned.
Proof.
  unfold require_target. destruct (tg_provider pinned) as [provider|]; [|done]. intros E. inv_ok. bsimpl. subst.
  unfold target in E0. inv_ok.
  destruct (vault_row _ _) as [v|] eqn:Ev; [|done]. destruct (file_and_path _ _ _) as [[f p]|] eqn:Ef; [|done].
  destruct (job_by_id _ _) as [c|] eqn:Ec; [|done]. inv_ok. bsimpl. exists v, f, p, c. rewrite <- E0. cbn.
  split_and!; try done; [|by apply other_jobs_over].
  unfold terminal_job. cbn in *. apply not_true_iff_false. intros Hc. bsimpl. clear - H H0 Hc. rewrite !elem_of_cons, elem_of_nil in *.
  intuition congruence.
Qed.

Lemma no_receipt t id : receipt t id = Ok None → ∀ r, r ∈ ut_receipts t → rc_intent_id r = id → is_no_write (rc_response r) = true.
Proof.
  unfold receipt. destruct (List.filter _ _) as [|x l] eqn:E; [|intros; inv_ok; by simplify_eq]. intros _ r Hr Hid.
  destruct (is_no_write (rc_response r)) eqn:Hn; [done|]. exfalso.
  assert (Hin : In (rc_response r) (map rc_response (select (fun r => rc_intent_id r =b id) (ut_receipts t)))).
  { apply in_map, list_elem_of_In, elem_of_select. split; [done | by apply bool_decide_eq_true]. }
  apply negb_true_iff in Hn. pose proof (proj2 (filter_In (fun r => negb (is_no_write r)) _ _) (conj Hin Hn)) as Hf. by rewrite E in Hf.
Qed.

(** Starting changes nothing that the fences look at. *)
Lemma start_keeps_fences d at_ id p f job pinned :
  let d' := capture_intent (set_uploads (update_intents p f (d_uploads d)) d) at_ id in
  require_target d' job pinned = require_target d job pinned ∧ (∀ i, receipt (d_uploads d') i = receipt (d_uploads d) i)
  ∧ ut_intents (d_uploads d') = update_where p f (ut_intents (d_uploads d)).
Proof. cbn zeta. unfold capture_intent. destruct (fetchone _ _); [destruct (exists_row _ _)|]; done. Qed.


(** ** Witness *)
Definition w_sending_job : claimed_job :=
  {| cj_row := {| j_id := 1; j_vault_id := 1; j_vault_file_id := "f"; j_archive_version_id := None; j_path := "a/b.txt"; j_action := "upload";
       j_status := "uploading"; j_origin := "manual"; j_message := None; j_message_key := None; j_message_params := None;
       j_requested_by := Some 7; j_requested_at := 0; j_updated_at := 0; j_group_id := Some "g"; j_group_path := Some "a/b.txt";
       j_total_bytes := 3; j_transferred_bytes := 0; j_reason := None; j_confirmation_phrase := None; j_restore_tier := None;
       j_restore_days := None; j_target_storage_class := None; j_upload_verification_requested := Some "read_back";
       j_pending_until := None; j_retry_after := None; j_claim_token := Some "claim"; j_claimed_at := Some 0; j_claim_expires_at := Some 9;
       j_upload := no_upload |};
     cj_bucket := "bucket"; cj_source_root := "/src"; cj_s3_prefix := "vaults/photos" |}.
Definition w_sending_db : worker_db :=
  {| d_catalog := set_jobs [cj_row w_sending_job] w_catalog; d_inbox := w_inbox; d_plans := [w_plan]; d_uploads := no_uploads;
     d_moves := []; d_gate := None |}.
Definition w_sending_target : result pinned_target := target w_sending_db w_sending_job "vaults/photos/a/b.txt" "s3".
Definition w_pinned : pinned_target := or_default (match w_sending_target with Ok t => Some t | _ => None end) w_target.
Definition w_prepared : result (worker_db * upload_intent) :=
  prepare w_sending_db w_sending_job w_pinned w_snapshot "read_back" {| ki_versions := ["v0"]; ki_markers := [] |} 5 ("i1", "tok").
Definition w_prepared_db : worker_db := match w_prepared with Ok (d, _) => d | _ => w_sending_db end.
Definition w_prepared_intent : upload_intent := match w_prepared with Ok (_, i) => i | _ => w_intent end.
Definition w_started : result worker_db := mark_send_started w_prepared_db w_sending_job w_prepared_intent 6.
Definition w_started_db : worker_db := match w_started with Ok d => d | _ => w_sending_db end.


(** After a refusal is on record the same intent is re-pinned with a new token. *)
Definition w_refused_db : worker_db :=
  match record_no_write w_prefix_hash w_started_db w_sending_job w_prepared_intent "PutObject" 8 with Ok d => d | _ => w_started_db end.

