(* ===== verification/SnapshotCleanup.v ===== *)
(** * SnapshotCleanup: replaced versions are deleted beside their keeper

    Models [src/app/services/snapshot_cleanup.py] and [_require_upload_source_identity]
    of [src/app/storage.py].  After an upload or a rename the other versions of a file
    are deleted, one exact version at a time.  The deletion of a version needs a row of
    [snapshot_cleanup_proofs], which is written when the version is an upload of this
    program ([has_lineage]) or when its bytes were fetched and are those of the keeper
    ([exact_duplicate]).

    [provider] is the identity of the client, as in [UploadReconcile].  A set of keys is
    a sorted list; dictionaries over it are lists in its order.  The closing of a body is
    left out. *)
From S2P Require Import Prelude Sql PyString Json JsonText VaultPaths Schema JobClaims Lifecycle CloudDeletion Catalog CatalogVersions UploadTables Effects S3Client S3Copy WorkerJobs LocalFiles UploadSnapshot CloudPreflight VaultMoves UploadReconcile UploadProvenance.
From Stdlib Require Import Strings.Byte.
Open Scope Z_scope.

Definition is_cancellation (e : exn) : bool :=
  match e with OperationCancelled _ | JobLeaseLost _ | WorkerStopping _ => true | _ => false end.

(** [any(f(x) for x in l)]. *)
Fixpoint any_r {A} (f : A → result bool) (l : list A) : result bool :=
  match l with
  | [] => Ok false
  | x :: l => b ← f x; if b : bool then Ok true else any_r f l
  end.

Definition key_order : list string → list string := fun l => sort_by String.leb (remove_dups l).
Definition pair_le (a b : string * string) : bool := (a.1 <>b b.1) && String.leb a.1 b.1 || (a.1 =b b.1) && String.leb a.2 b.2.

(** ** What the tables say about a version *)
Section lineage.
Context (sha256 : bytes → bytes).

(** [json.loads(...)["provider"] != provider], where a provider was given. *)
Definition provider_differs (t : pinned_target) (provider : option string) : result bool :=
  match provider with
  | None => Ok false
  | Some p => match tg_provider t with None => Raise (KeyError "provider") | Some q => Ok (q <>b p) end
  end.

Definition scope_differs (bucket provider : option string) (t : pinned_target) : result bool :=
  if match bucket with Some b => tg_bucket t <>b b | None => false end then Ok true else provider_differs t provider.

(** The digests Jobs expected of this version. *)
Definition expected_digests (d : worker_db) (version file : string) (vault : option Z) : list string :=
  remove_dups (omap (fun j => ju_plaintext_sha256 (j_upload j))
    (select (fun j => bool_decide (j_archive_version_id j = Some version) && (j_vault_file_id j =b file)
                      && match vault with Some v => j_vault_id j =b v | None => true end
                      && (j_action j ∈b ["upload"; "rename"])) (t_jobs (d_catalog d)))).

Definition other_digest (row : archive_version) (digests : list string) : bool :=
  existsb (fun s => negb (bool_decide (av_plaintext_sha256 row = Some s))) digests.

Definition names_version (saved : fields) (row : archive_version) : result bool :=
  v ← dict_item saved "VersionId";
  Ok match v, av_provider_version_id row with
     | JStr a, Some b => a =b b
     | JNull, None => true
     | _, _ => false
     end.

(** One intent of the version: it wrote this object, and its receipt agrees. *)
Definition intent_lineage (t : upload_tables) (row : archive_version) (bucket provider : option string) (i : upload_intent) : result bool :=
  _ ← (if av_integrity row =b Verified
       then s ← from_json sha256 (ui_snapshot i);
            raise_if (negb (bool_decide (av_plaintext_sha256 row = Some (us_plaintext_sha256 s)))) (UploadBlocked "proof_mismatch")
       else Ok tt);
  differs ← scope_differs bucket provider (ui_target i);
  if differs || negb (bool_decide (av_object_key row = Some (tg_key (ui_target i))))
     || negb (bool_decide (ve_upload_snapshot (av_evidence row) = Some (ui_snapshot i)))
     || match av_provider_version_id row with Some v => v ∈b ki_versions (ui_inventory i) | None => false end
  then Ok false
  else
    saved ← receipt t (ui_id i);
    match saved with
    | None | Some [] => Ok false
    | Some saved =>
        named ← names_version saved row;
        if named : bool
        then proof ← blocked_mismatch (s ← from_json sha256 (ui_snapshot i);
                       validated_s3_proof (proof_of_fields saved) (or_default (av_provider_version_id row) "") s "upload_response" true);
             Ok (is_some proof || (av_integrity row =b Verified))
        else Ok false
    end.

(** A copy the ledger of Vault moves made of a verified version of this file. *)
Definition moved_here (d : worker_db) (row : archive_version) (file : string) : bool :=
  exists_row (fun m =>
    bool_decide (cm_destination_archive_id m = Some (av_id row)) && is_some (cm_destination_version_id m)
    && bool_decide (cm_destination_version_id m = av_provider_version_id row) && bool_decide (av_object_key row = Some (cm_object_key m))
    && cm_copy_started m && bool_decide (av_size row = Some (cm_size m)) && bool_decide (av_plaintext_sha256 row = Some (cm_sha256 m))
    && exists_row (fun s => (av_id s =b cm_source_archive_id m) && (av_integrity s =b Verified)
                            && bool_decide (av_plaintext_sha256 s = Some (cm_sha256 m)) && (av_vault_file_id s =b file)) (t_versions (d_catalog d))
    && exists_row (fun j => (j_id j =b cm_job_id m) && (j_vault_file_id j =b file) && (j_vault_id j =b av_vault_id row)
                            && (j_action j =b "storage-class")) (t_jobs (d_catalog d))) (d_moves d).

Definition legacy_lineage (d : worker_db) (row : archive_version) (file : string) (bucket provider : option string) : result bool :=
  if (av_integrity row <>b Verified) || negb (truthy (av_plaintext_sha256 row)) then Ok false
  else
    differs ← any_r (fun c => scope_differs bucket provider (cv_target c))
                (select (fun c => bool_decide (cv_keeper_id c = Some (av_id row))) (ut_inventories (d_uploads d)));
    if differs : bool then Ok false
    else
      let digests := expected_digests d (av_id row) file (Some (av_vault_id row)) in
      raise! UploadBlocked "proof_mismatch" when other_digest row digests;
      Ok ((av_origin row =b Upload) && negb (bool_decide (digests = [])) || moved_here d row file).

Definition has_lineage (d : worker_db) (row : option archive_version) (file : string) (bucket provider : option string) : result bool :=
  match row with
  | None => Ok false
  | Some row =>
      if av_vault_file_id row <>b file then Ok false
      else
        match select (fun i => bool_decide (ui_archive_version_id i = Some (av_id row)) && (ui_vault_file_id i =b file)) (ut_intents (d_uploads d)) with
        | [] => legacy_lineage d row file bucket provider
        | intents =>
            raise! UploadBlocked "proof_mismatch" when av_integrity row =b Mismatch;
            any_r (intent_lineage (d_uploads d) row bucket provider) intents
        end
  end.

(** ** The keeper *)
Definition sound_keeper (v : archive_version) : bool :=
  (av_integrity v =b Verified) && (av_availability v =b Available) && truthy (av_provider_version_id v)
  && negb (bool_decide (av_provider_version_id v = Some "null")) && truthy (av_object_key v) && is_some (av_size v)
  && truthy (av_plaintext_sha256 v).

Definition is_digest (s : string) : bool := match fromhex s with Ok l => (length l =? 32)%nat | Raise _ => false end.

Definition check_evidence (v : archive_version) : result unit :=
  match ve_upload_snapshot (av_evidence v) with
  | None => Ok tt
  | Some raw =>
      if raw =b "" then Ok tt
      else match from_json sha256 raw with
           | Ok s => raise_if (negb (bool_decide (av_plaintext_sha256 v = Some (us_plaintext_sha256 s)))) (UploadBlocked "proof_mismatch")
           | Raise (ValueError _) | Raise (TypeError _) | Raise (KeyError _) | Raise (AttributeError _) => Raise (UploadBlocked "proof_mismatch")
           | Raise e => Raise e
           end
  end.

Definition keeper_scopes (t : upload_tables) (keeper_id : string) : list pinned_target :=
  map ui_target (select (fun i => bool_decide (ui_archive_version_id i = Some keeper_id)) (ut_intents t))
  ++ map cv_target (select (fun c => bool_decide (cv_keeper_id c = Some keeper_id)) (ut_inventories t)).

Definition newer_versions (d : worker_db) (file : string) (v : archive_version) : list archive_version :=
  select (fun n => (av_vault_file_id n =b file) && (av_version_number v <? av_version_number n) && (av_availability n =b Available))
    (t_versions (d_catalog d)).

Definition latest_verified (d : worker_db) (file : string) : option archive_version :=
  latest av_version_number
    (select (fun v => (av_vault_file_id v =b file) && (av_integrity v =b Verified) && (av_availability v =b Available)) (t_versions (d_catalog d))).

Definition keeper (d : worker_db) (job : claimed_job) (keeper_id : string) (provider : option string) : result archive_version :=
  let file := j_vault_file_id (cj_row job) in
  match fetchone (fun v => (av_id v =b keeper_id) && (av_vault_file_id v =b file) && (av_vault_id v =b j_vault_id (cj_row job)))
          (t_versions (d_catalog d)) with
  | None => blocked "keeper_missing"
  | Some row =>
      raise! UploadBlocked "keeper_missing" when negb (sound_keeper row);
      key ← expected_cloud_key (j_path (cj_row job)) (cj_s3_prefix job);
      raise! UploadBlocked "identity_changed" when negb (bool_decide (av_object_key row = Some key));
      raise! UploadBlocked "proof_unavailable" when negb (is_digest (or_default (av_plaintext_sha256 row) ""));
      _ ← check_evidence row;
      raise! UploadBlocked "proof_mismatch" when other_digest row (expected_digests d keeper_id file None);
      differs ← any_r (scope_differs (Some (cj_bucket job)) provider) (keeper_scopes (d_uploads d) keeper_id);
      raise! UploadBlocked "identity_changed" when differs;
      superseded ← any_r (fun n => has_lineage d (Some n) file (Some (cj_bucket job)) provider) (newer_versions d file row);
      raise! UploadBlocked "target_superseded" when superseded;
      raise! UploadBlocked "target_superseded" when negb (bool_decide ((av_id <$> latest_verified d file) = Some keeper_id));
      Ok row
  end.
End lineage.

(** ** Whose names these are *)
Definition foreign_path (d : worker_db) (job : claimed_job) (key : string) : bool :=
  let prefix := rstrip_slash (cj_s3_prefix job) +:+ "/" in
  let path := drop_chars (String.length prefix) key in
  exists_row (fun p => (fp_vault_id p =b j_vault_id (cj_row job)) && (fp_path p =b path) && is_none (fp_valid_to p)
                       && (fp_vault_file_id p <>b j_vault_file_id (cj_row job))
                       && exists_row (fun f => vf_id f =b fp_vault_file_id p) (t_files (d_catalog d))) (t_paths (d_catalog d)).

Definition require_namespace_owner (d : worker_db) (job : claimed_job) (keys : list string) : result unit :=
  raise_if (existsb (fun key => negb (starts_with (rstrip_slash (cj_s3_prefix job) +:+ "/") key) || foreign_path d job key) keys)
    (UploadBlocked "identity_changed").

Definition require_version_owner (d : worker_db) (job : claimed_job) (key version : string) : result unit :=
  raise_if (exists_row (fun v => (av_vault_id v =b j_vault_id (cj_row job)) && bool_decide (av_object_key v = Some key)
                                 && bool_decide (av_provider_version_id v = Some version)
                                 && (av_vault_file_id v <>b j_vault_file_id (cj_row job))) (t_versions (d_catalog d)))
    (UploadBlocked "identity_changed").

(** ** The statements on the tables of the clean-up *)
Definition set_keeper_id (keeper_id : string) (c : cleanup_inventory) : cleanup_inventory :=
  {| cv_job_id := cv_job_id c; cv_keeper_id := Some keeper_id; cv_target := cv_target c; cv_inventory := cv_inventory c;
     cv_created_at := cv_created_at c; cv_completed_at := cv_completed_at c |}.
Definition set_completed (at_ : timestamp) (c : cleanup_inventory) : cleanup_inventory :=
  {| cv_job_id := cv_job_id c; cv_keeper_id := cv_keeper_id c; cv_target := cv_target c; cv_inventory := cv_inventory c;
     cv_created_at := cv_created_at c; cv_completed_at := match cv_completed_at c with None => Some at_ | old => old end |}.

Definition same_proof_key (p q : cleanup_proof) : bool :=
  (cp_vault_file_id p =b cp_vault_file_id q) && (cp_bucket p =b cp_bucket q) && (cp_provider p =b cp_provider q)
  && (cp_object_key p =b cp_object_key q) && (cp_version_id p =b cp_version_id q).

(** [ON CONFLICT ... DO UPDATE ... WHERE deleted_at IS NULL]. *)
Definition renew_proof (n old : cleanup_proof) : cleanup_proof :=
  {| cp_vault_file_id := cp_vault_file_id old; cp_bucket := cp_bucket old; cp_provider := cp_provider old; cp_object_key := cp_object_key old;
     cp_version_id := cp_version_id old; cp_keeper_id := cp_keeper_id n; cp_sha256 := cp_sha256 n; cp_size := cp_size n;
     cp_method := cp_method n; cp_proved_at := cp_proved_at n; cp_deleted_at := cp_deleted_at old |}.
Definition upsert_proof (n : cleanup_proof) (t : upload_tables) : upload_tables :=
  if exists_row (same_proof_key n) (ut_proofs t)
  then set_proofs (update_where (fun p => same_proof_key n p && is_none (cp_deleted_at p)) (renew_proof n) (ut_proofs t)) t
  else set_proofs (ut_proofs t ++ [n]) t.
Definition set_deleted (at_ : timestamp) (p : cleanup_proof) : cleanup_proof :=
  {| cp_vault_file_id := cp_vault_file_id p; cp_bucket := cp_bucket p; cp_provider := cp_provider p; cp_object_key := cp_object_key p;
     cp_version_id := cp_version_id p; cp_keeper_id := cp_keeper_id p; cp_sha256 := cp_sha256 p; cp_size := cp_size p;
     cp_method := cp_method p; cp_proved_at := cp_proved_at p;
     cp_deleted_at := match cp_deleted_at p with None => Some at_ | old => old end |}.

Section cleanup.
Context {P : Type} `{!Provider P} `{!UploadProvider P} `{!ObjectReader P} `{!Disk P} `{!Environment worker_db} `{!Host}.
Notation W := (world worker_db P).
Context (sha256 : bytes → bytes) (provider : string) (fuel : nat).
Context (network_error : exn → bool) (bucket_still_ready : eff W bool).
Context (job : claimed_job).

Definition file : string := j_vault_file_id (cj_row job).
Definition active (message : string) : eff W unit := ensure_job_active (job_claim_context job) (j_id (cj_row job)) message.
Definition claim_owned (message : string) : eff W unit := ensure_job_claim_owned_in_transaction (job_claim_context job) job message.

(** A read in a transaction of its own, and one inside the current transaction. *)
Definition ask {A} (f : worker_db → result A) : eff W A := d <~ read_db (fun d => d) ;; lift (f d).
Definition query {A} (f : worker_db → result A) : eff W A := transaction (ask f).

(** ** The source must be the enrolled one *)
Definition require_upload_source_identity : eff W unit :=
  active "Upload source claim lost" ;;;
  v <~ query (fun d => Ok (vault_row d (j_vault_id (cj_row job)))) ;;
  match v with
  | None => throw (UploadBlocked "identity_changed")
  | Some v =>
      throw! UploadBlocked "identity_changed" when va_source_root v <>b cj_source_root job ;;
      access <~ observe (fun n => vault_local_access n (va_source_root v)) ;;
      throw! SourceVolumeUnavailable "Source Volume is unavailable" when negb (ac_allowed access) ;;
      catch (validate_enrolled_scan_root sha256 v)
        (fun e => match e with
                  | ScanRootUnreadable m => throw (SourceVolumeUnavailable m)
                  | _ => throw (UploadBlocked "identity_changed")
                  end)
  end.

(** ** The bytes of one version *)
Fixpoint read_chunks (size : Z) (b : body) (content : bytes) : eff W bytes :=
  active "Snapshot cleanup stopped" ;;;
  match b with
  | [] => eret content
  | c :: b =>
      chunk <~ lift c ;;
      if bool_decide (chunk = []) then eret content
      else throw! UploadBlocked "orphan_different" when size <? Z.of_nat (length (content ++ chunk)) ;;
           read_chunks size b (content ++ chunk)
  end.

Definition foreign_token (m : option (gmap string string)) : bool :=
  truthy (m ≫= lookup "frostvault-upload") || truthy (m ≫= lookup "frostvault-move").

Definition exact_duplicate (o : object_ref) (digest : string) (size : Z) : eff W unit :=
  answer <~ fetch_object o ;;
  match ga_body answer with
  | None => throw (UploadBlocked "proof_unavailable")
  | Some b =>
      throw! UploadBlocked "proof_unavailable" when
        (or_default (ga_version_id answer) "" <>b or_version o) || ga_delete_marker answer
        || negb (bool_decide (ga_content_length answer = Some size)) ;;
      throw! UploadBlocked "ambiguous_receipt" when foreign_token (ga_metadata answer) ;;
      content <~ read_chunks size b [] ;;
      throw! UploadBlocked "proof_unavailable" when negb (Z.of_nat (length content) =? size) ;;
      throw_if (hexdigest (sha256 content) <>b digest) (UploadBlocked "orphan_different")
  end.

(** ** The inventory of all keys of the file *)
Definition key_inventories := list (string * key_inventory).

Fixpoint inventories (keys : list string) : eff W key_inventories :=
  match keys with
  | [] => eret []
  | k :: keys =>
      inv <~ inventory fuel network_error bucket_still_ready (cj_bucket job) k ;;
      rest <~ inventories keys ;;
      eret ((k, inv) :: rest)
  end.

Definition inventory_of (l : key_inventories) (k : string) : key_inventory :=
  or_default (snd <$> List.find (fun e => e.1 =b k) l) {| ki_versions := []; ki_markers := [] |}.

Definition job_key : result string := expected_cloud_key (j_path (cj_row job)) (cj_s3_prefix job).

(** The keys of versions that are not purged and of all paths the file ever had. *)
Definition all_keys (d : worker_db) (first : string) (rows : list archive_version) : result (list string) :=
  paths ← mapM_r (fun p => expected_cloud_key (fp_path p) (cj_s3_prefix job))
            (select (fun p => fp_vault_file_id p =b file) (t_paths (d_catalog d)));
  Ok (key_order ((first :: List.filter (fun k => k <>b "") (omap av_object_key rows)) ++ paths)).

Definition unbound_send (t : upload_tables) : bool :=
  exists_row (fun i => (ui_vault_file_id i =b file) && ui_send_started i && negb (ui_settled i)
                       && negb (exists_row (fun b => (ij_intent_id b =b ui_id i) && (ij_job_id b =b j_id (cj_row job))) (ut_intent_jobs t)))
    (ut_intents t).

Definition inventory_job (t : upload_tables) : Z :=
  match load_for_job t (j_id (cj_row job)) with Some i => ui_original_job_id i | None => j_id (cj_row job) end.

Definition prior_inventories (d : worker_db) (linked : string) : list cleanup_inventory :=
  select (fun c => is_none (cv_completed_at c)
                   && exists_row (fun j => (j_id j =b cv_job_id c)
                        && (bool_decide (cv_keeper_id c = Some linked)
                            || (is_none (cv_keeper_id c) && bool_decide (j_archive_version_id j = Some linked) && (j_vault_file_id j =b file))))
                        (t_jobs (d_catalog d)))
    (ut_inventories (d_uploads d)).

Inductive pinning :=
  | Already (c : cleanup_inventory)
  | Fresh (inventory_job : Z) (pinned : pinned_target) (keys : list string).

Definition choose_inventory (keeper_id : option string) (d : worker_db) : result pinning :=
  let t := d_uploads d in
  raise! UploadBlocked "ambiguous_send" when unbound_send t;
  let id := inventory_job t in
  let linked := if truthy keeper_id then keeper_id else j_archive_version_id (cj_row job) in
  match fetchone (fun c => cv_job_id c =b id) (ut_inventories t), (if truthy linked then prior_inventories d (or_default linked "") else []) with
  | Some old, _ => Ok (Already old)
  | None, first :: prior =>
      raise! UploadBlocked "inventory_changed" when
        existsb (fun c => negb (bool_decide (cv_target c = cv_target first)) || negb (bool_decide (cv_inventory c = cv_inventory first))) prior;
      Ok (Already first)
  | None, [] =>
      key ← job_key;
      pinned ← target d job key provider;
      keys ← all_keys d key (select (fun v => (av_vault_file_id v =b file) && (av_availability v <>b Purged)) (t_versions (d_catalog d)));
      Ok (Fresh id pinned keys)
  end.

Definition insert_inventory (id : Z) (pinned : pinned_target) (baseline : key_inventories) (at_ : timestamp) (d : worker_db)
    : result (worker_db * cleanup_inventory) :=
  let row := {| cv_job_id := id; cv_keeper_id := None; cv_target := pinned; cv_inventory := baseline; cv_created_at := at_; cv_completed_at := None |} in
  match fetchone (fun c => cv_job_id c =b id) (ut_inventories (d_uploads d)) with
  | Some old => Ok (d, old)
  | None => Ok (set_uploads (set_inventories (ut_inventories (d_uploads d) ++ [row]) (d_uploads d)) d, row)
  end.

Definition pin_inventory (keeper_id : option string) : eff W cleanup_inventory :=
  choice <~ query (choose_inventory keeper_id) ;;
  match choice with
  | Already c => eret c
  | Fresh id pinned keys =>
      query (fun d => require_namespace_owner d job keys) ;;;
      baseline <~ inventories keys ;;
      again <~ inventories keys ;;
      throw! UploadBlocked "inventory_changed" when negb (bool_decide (baseline = again)) ;;
      transaction (
        ask (fun d => require_target d job pinned) ;;;
        claim_owned "Snapshot inventory claim lost" ;;;
        at_ <~ now_iso ;;
        in_db (insert_inventory id pinned baseline at_))
  end.

(** ** The clean-up *)

(** What the first transaction reads. *)
Record scope := {
  sc_keeper : archive_version;
  sc_pinned : pinned_target;
  sc_rows : list archive_version;
  sc_keys : list string;
  sc_markers : list delete_marker;
}.
Definition keep_key (s : scope) : string := or_default (av_object_key (sc_keeper s)) "".
Definition keep_version (s : scope) : string := or_default (av_provider_version_id (sc_keeper s)) "".
Definition keep_sha256 (s : scope) : string := or_default (av_plaintext_sha256 (sc_keeper s)) "".
Definition keep_size (s : scope) : Z := or_default (av_size (sc_keeper s)) 0.

Definition markers_of (d : worker_db) : list delete_marker :=
  sort_by (fun a b => String.leb (dm_id a) (dm_id b)) (select (fun m => dm_vault_file_id m =b file) (t_markers (d_catalog d))).

Definition read_scope (keeper_id : string) (d : worker_db) : result scope :=
  row ← keeper sha256 d job keeper_id (Some provider);
  pinned ← target d job (or_default (av_object_key row) "") provider;
  let rows := select (fun v => (av_vault_file_id v =b file) && (av_id v <>b keeper_id) && (av_availability v <>b Purged)) (t_versions (d_catalog d)) in
  keys ← all_keys d (or_default (av_object_key row) "") rows;
  Ok {| sc_keeper := row; sc_pinned := pinned; sc_rows := rows; sc_keys := keys; sc_markers := markers_of d |}.

Definition bind_keeper (keeper_id : string) (id : Z) (d : worker_db) : result (worker_db * unit) :=
  let p := fun c => (cv_job_id c =b id) && (is_none (cv_keeper_id c) || bool_decide (cv_keeper_id c = Some keeper_id)) in
  raise! UploadBlocked "identity_changed" when negb (exists_row p (ut_inventories (d_uploads d)));
  Ok (set_uploads (set_inventories (update_where p (set_keeper_id keeper_id) (ut_inventories (d_uploads d))) (d_uploads d)) d, tt).

(** The rows of [snapshot_cleanup_proofs] of one version, and the one for this keeper. *)
Definition proof_at (key version : string) (p : cleanup_proof) : bool :=
  (cp_vault_file_id p =b file) && (cp_bucket p =b cj_bucket job) && (cp_provider p =b provider) && (cp_object_key p =b key)
  && (cp_version_id p =b version).
Definition proof_for (s : scope) (keeper_id key version : string) (p : cleanup_proof) : bool :=
  proof_at key version p && (cp_keeper_id p =b keeper_id) && (cp_sha256 p =b keep_sha256 s).

(** A key may only have lost versions the clean-up had proved, and gained the keeper. *)
Definition check_key (s : scope) (keeper_id : string) (baseline : key_inventories) (e : string * key_inventory) : eff W unit :=
  let before := inventory_of baseline e.1 in
  let admitted := version_set (ki_versions before) ∪ (if e.1 =b keep_key s then {[ keep_version s ]} else ∅) in
  throw! UploadBlocked "inventory_changed" when
    negb (bool_decide (version_set (ki_versions e.2) ∖ admitted = ∅)) || negb (bool_decide (ki_markers e.2 = ki_markers before)) ;;
  let missing := elements (version_set (ki_versions before) ∖ version_set (ki_versions e.2)) in
  query (fun d => raise_if (existsb (fun v => negb (exists_row (proof_for s keeper_id e.1 v) (ut_proofs (d_uploads d)))) missing)
                    (UploadBlocked "inventory_changed")).

Definition known_row (s : scope) (key version : string) : option archive_version :=
  List.find (fun r => bool_decide (av_object_key r = Some key) && bool_decide (av_provider_version_id r = Some version)) (rev (sc_rows s)).

Definition candidates (s : scope) (expected : key_inventories) : list (string * string) :=
  sort_by pair_le (remove_dups
    (List.filter (fun c => negb (bool_decide (c = (keep_key s, keep_version s))))
       (concat (map (fun e => map (fun v => (e.1, v)) (ki_versions e.2)) expected)))).

(** The fences of every step: target, names, lease, and the keeper as it was read. *)
Definition same_keeper (s : scope) (keeper_id : string) (d : worker_db) : result unit :=
  row ← keeper sha256 d job keeper_id (Some provider);
  raise_if (negb (bool_decide (row = sc_keeper s))) (UploadBlocked "identity_changed").

Definition version_fences (s : scope) (key version : string) (d : worker_db) : result unit :=
  _ ← require_target d job (sc_pinned s);
  _ ← require_namespace_owner d job (sc_keys s);
  require_version_owner d job key version.

Definition fetch_duplicate (s : scope) (key version : string) : eff W unit :=
  catch (exact_duplicate {| or_bucket := cj_bucket job; or_key := key; or_version := version |} (keep_sha256 s) (keep_size s))
    (fun e => match e with
              | UploadBlocked _ | ProvenAbsent => throw e
              | _ => if is_cancellation e then throw e else throw (UploadBlocked "proof_unavailable")
              end).

Definition new_proof (s : scope) (keeper_id key version method : string) (at_ : timestamp) : cleanup_proof :=
  {| cp_vault_file_id := file; cp_bucket := cj_bucket job; cp_provider := provider; cp_object_key := key; cp_version_id := version;
     cp_keeper_id := keeper_id; cp_sha256 := keep_sha256 s; cp_size := keep_size s; cp_method := method; cp_proved_at := at_;
     cp_deleted_at := None |}.

Definition persist_proof (s : scope) (keeper_id key version method : string) : eff W unit :=
  transaction (
    ask (version_fences s key version) ;;;
    claim_owned "Snapshot cleanup claim lost" ;;;
    ask (same_keeper s keeper_id) ;;;
    at_ <~ now_iso ;;
    update_db (fun d => set_uploads (upsert_proof (new_proof s keeper_id key version method at_) (d_uploads d)) d)).

(** The proof this version already has and its lineage. *)
Definition look_at (s : scope) (c : string * string) (d : worker_db) : result (option cleanup_proof * bool) :=
  _ ← require_namespace_owner d job (sc_keys s);
  _ ← require_version_owner d job c.1 c.2;
  lineage ← has_lineage sha256 d (known_row s c.1 c.2) file (Some (cj_bucket job)) (Some provider);
  Ok (fetchone (proof_at c.1 c.2) (ut_proofs (d_uploads d)), lineage).

Definition prove_candidate (s : scope) (keeper_id : string) (c : string * string) : eff W unit :=
  active "Snapshot cleanup stopped" ;;;
  pat! (proof, lineage) <~ query (look_at s c) ;;
  if match proof with
     | Some p => (cp_keeper_id p =b keeper_id) && (cp_sha256 p =b keep_sha256 s) && (cp_size p =b keep_size s)
     | None => false
     end
  then eret tt
  else
    (if lineage then eret tt else fetch_duplicate s c.1 c.2) ;;;
    persist_proof s keeper_id c.1 c.2 (if lineage then "independent_lineage" else "exact_get_duplicate").

(** [expected[key]["versions"].remove(version)]. *)
Fixpoint remove_first (v : string) (l : list string) : list string :=
  match l with
  | [] => []
  | x :: l => if x =b v then l else x :: remove_first v l
  end.
Definition without_version (c : string * string) (l : key_inventories) : key_inventories :=
  map (fun e => if e.1 =b c.1 then (e.1, {| ki_versions := remove_first c.2 (ki_versions e.2); ki_markers := ki_markers e.2 |}) else e) l.

(** The volume is there and its root is the enrolled one. *)
Definition source_in_place (v : option vault) : eff W unit :=
  match v with
  | None => throw (TypeError "'NoneType' object is not subscriptable")
  | Some v =>
      access <~ observe (fun n => vault_local_access n (va_source_root v)) ;;
      throw! SourceVolumeUnavailable "Source Volume is unavailable" when negb (ac_allowed access) ;;
      catch (validate_enrolled_scan_root sha256 v)
        (fun e => match e with
                  | ScanRootUnreadable m => throw (SourceVolumeUnavailable m)
                  | _ => if is_runtime_error e then throw (UploadBlocked "identity_changed") else throw e
                  end)
  end.

Definition delete_under_fences (s : scope) (keeper_id : string) (c : string * string) : eff W unit :=
  ask (version_fences s c.1 c.2) ;;;
  claim_owned "Snapshot cleanup claim lost" ;;;
  ask (same_keeper s keeper_id) ;;;
  v <~ ask (fun d => Ok (vault_row d (j_vault_id (cj_row job)))) ;;
  source_in_place v ;;;
  stop <~ job_cancelled (j_id (cj_row job)) ;;
  throw! OperationCancelled "Snapshot cleanup stopped" when stop ;;
  proved <~ ask (fun d => Ok (exists_row (proof_for s keeper_id c.1 c.2) (ut_proofs (d_uploads d)))) ;;
  throw! UploadBlocked "ambiguous_receipt" when negb proved || bool_decide (c = (keep_key s, keep_version s)) ;;
  delete_s3_version {| or_bucket := cj_bucket job; or_key := c.1; or_version := c.2 |}.

Definition delete_candidate (s : scope) (keeper_id : string) (expected : key_inventories) (c : string * string) : eff W key_inventories :=
  active "Snapshot cleanup stopped" ;;;
  observed <~ inventories (sc_keys s) ;;
  throw! UploadBlocked "inventory_changed" when negb (bool_decide (observed = expected)) ;;
  transaction (delete_under_fences s keeper_id c) ;;;
  eret (without_version c expected).

(** ** The end of a clean-up *)
Definition drop_marker (final : key_inventories) (d : worker_db) (m : delete_marker) : worker_db :=
  if (dm_object_key m ∈b map fst final) && bool_decide (ki_markers (inventory_of final (dm_object_key m)) = [])
  then on_catalog (fun c => set_markers (delete_where (fun x => (dm_id x =b dm_id m) && (dm_vault_file_id x =b file)) (t_markers c)) c) d
  else d.

(** The proved versions the provider no longer lists. *)
Definition absent_versions (s : scope) (keeper_id : string) (final : key_inventories) (d : worker_db) : list (string * string) :=
  remove_dups (map (fun p => (cp_object_key p, cp_version_id p))
    (select (fun p => (cp_vault_file_id p =b file) && (cp_bucket p =b cj_bucket job) && (cp_provider p =b provider)
                      && (cp_keeper_id p =b keeper_id) && (cp_sha256 p =b keep_sha256 s)
                      && (cp_object_key p ∈b map fst final)
                      && negb (cp_version_id p ∈b ki_versions (inventory_of final (cp_object_key p)))) (ut_proofs (d_uploads d)))).

Definition purge_rows (s : scope) (absent : list (string * string)) (at_ : timestamp) (d : worker_db) : worker_db :=
  on_catalog (mark_versions_purged
    (map av_id (List.filter (fun r => match av_object_key r, av_provider_version_id r with
                                      | Some k, Some v => (k, v) ∈b absent
                                      | _, _ => false
                                      end) (sc_rows s))) at_) d.

Definition note_deleted (c : string * string) : eff W unit :=
  at_ <~ now_iso ;;
  update_db (fun d => set_uploads (set_proofs (update_where (proof_at c.1 c.2) (set_deleted at_) (ut_proofs (d_uploads d))) (d_uploads d)) d).

Definition settle_keeper (keeper_id : string) (t : upload_tables) : upload_tables :=
  update_intents (fun i => bool_decide (ui_archive_version_id i = Some keeper_id) && (ui_vault_file_id i =b file)) set_settled t.

Definition persist_purge (s : scope) (keeper_id : string) (id : Z) (final : key_inventories) : eff W unit :=
  transaction (
    ask (fun d => _ ← require_target d job (sc_pinned s); require_namespace_owner d job (sc_keys s)) ;;;
    claim_owned "Snapshot cleanup claim lost" ;;;
    ask (same_keeper s keeper_id) ;;;
    markers <~ read_db markers_of ;;
    throw! UploadBlocked "inventory_changed" when negb (bool_decide (markers = sc_markers s)) ;;
    update_db (fun d => foldl (drop_marker final) d (sc_markers s)) ;;;
    absent <~ read_db (absent_versions s keeper_id final) ;;
    purged_at <~ now_iso ;;
    update_db (purge_rows s absent purged_at) ;;;
    each note_deleted absent ;;;
    at_ <~ now_iso ;;
    update_db (fun d =>
      let t := d_uploads d in
      let t := set_inventories (update_where (fun c => cv_job_id c =b id) (set_completed at_) (ut_inventories t)) t in
      let t := settle_keeper keeper_id t in
      set_uploads (set_blocks (delete_where (fun b => rb_vault_file_id b =b file) (ut_blocks t)) t) d)).

(** Only the keeper is left. *)
Definition only_keeper (s : scope) (final : key_inventories) : bool :=
  forallb (fun e => (e.1 =b keep_key s) || bool_decide (ki_versions e.2 = [])) final
  && bool_decide (ki_versions (inventory_of final (keep_key s)) = [keep_version s]).

(** Up to the last deletion: the scope, the number of the inventory and what is left. *)
Definition clear_versions (keeper_id : string) : eff W (scope * Z * key_inventories) :=
  require_upload_source_identity ;;;
  s <~ query (read_scope keeper_id) ;;
  batch <~ pin_inventory (Some keeper_id) ;;
  transaction (
    ask (fun d => require_target d job (sc_pinned s)) ;;;
    claim_owned "Snapshot inventory claim lost" ;;;
    in_db (bind_keeper keeper_id (cv_job_id batch))) ;;;
  query (fun d => require_target d job (cv_target batch)) ;;;
  throw! UploadBlocked "identity_changed" when
    negb (bool_decide (tg_provider (cv_target batch) = Some provider))
    || negb (bool_decide (version_set (map fst (cv_inventory batch)) = version_set (sc_keys s))) ;;
  expected <~ inventories (sc_keys s) ;;
  throw! UploadBlocked "keeper_missing" when negb (keep_version s ∈b ki_versions (inventory_of expected (keep_key s))) ;;
  each (check_key s keeper_id (cv_inventory batch)) expected ;;;
  throw! UploadBlocked "markers_present" when existsb (fun e => negb (bool_decide (ki_markers e.2 = []))) expected ;;
  again <~ inventories (sc_keys s) ;;
  throw! UploadBlocked "inventory_changed" when negb (bool_decide (expected = again)) ;;
  let todo := candidates s expected in
  each (prove_candidate s keeper_id) todo ;;;
  expected <~ efold (delete_candidate s keeper_id) expected todo ;;
  eret (s, cv_job_id batch, expected).

Definition cleanup (keeper_id : string) : eff W Z :=
  pat! (s, id, expected) <~ clear_versions keeper_id ;;
  active "Snapshot cleanup stopped" ;;;
  final <~ inventories (sc_keys s) ;;
  throw! UploadBlocked "inventory_changed" when negb (bool_decide (final = expected)) || negb (only_keeper s final) ;;
  require_upload_source_identity ;;;
  persist_purge s keeper_id id final ;;;
  eret id.
End cleanup.

(** ** The renewal of a lease changes no fence *)
Definition leased (d d' : worker_db) : Prop :=
  d' = d ∨ ∃ q e, d' = on_catalog (set_jobs (update_where q (extend_claim e) (t_jobs (d_catalog d)))) d.

Lemma exists_leased (p q : Schema.job → bool) e jobs :
  (∀ j, p (extend_claim e j) = p j) → exists_row p (update_where q (extend_claim e) jobs) = exists_row p jobs.
Proof.
  intros Hp. induction jobs as [|j jobs IH]; [done|]. change (p (if q j then extend_claim e j else j) || exists_row p (update_where q (extend_claim e) jobs)
    = p j || exists_row p jobs). rewrite IH. by destruct (q j); rewrite ?Hp.
Qed.

Lemma exists_row_ext {A} (p q : A → bool) t : (∀ x, p x = q x) → exists_row p t = exists_row q t.
Proof. intros H. induction t as [|x t IH]; [done|]. unfold exists_row in *. cbn. by rewrite H, IH. Qed.

Lemma cancelled_leased d q e id :
  original_cancelled (on_catalog (set_jobs (update_where q (extend_claim e) (t_jobs (d_catalog d)))) d) id = original_cancelled d id.
Proof. apply exists_row_ext. intros o. cbn. by rewrite exists_leased. Qed.

Lemma require_job_leased d d' job : leased d d' → require_job d' job = require_job d job.
Proof.
  intros [->|(q & e & ->)]; [done|]. unfold require_job. cbn [d_uploads on_catalog set_catalog].
  destruct (remediation_of_job _ _) as [r|]; [|done]. rewrite cancelled_leased. unfold job_by_id. cbn. rewrite fetchone_update by done.
  destruct (fetchone _ _) as [j|]; [|done]. cbn. by destruct (q j).
Qed.

Lemma target_leased d d' job key provider : leased d d' → target d' job key provider = target d job key provider.
Proof.
  intros Hl. unfold target. rewrite (require_job_leased d d') by done. destruct Hl as [->|(q & e & ->)]; [done|].
  unfold job_by_id, other_active_job. cbn. rewrite fetchone_update, exists_leased by done.
  destruct (fetchone _ _) as [j|]; [|done]. cbn. by destruct (q j).
Qed.

Lemma fences_leased d d' job (s : scope) key version :
  leased d d' → version_fences job s key version d' = version_fences job s key version d.
Proof.
  intros Hl. unfold version_fences, require_target. destruct (tg_provider (sc_pinned s)); [|done]. rewrite (target_leased d d') by done.
  by destruct Hl as [->|(q & e & ->)].
Qed.

(** ** The keeper and its inventory *)
Lemma keeper_ok sha256 d job id provider row :
  keeper sha256 d job id provider = Ok row →
  row ∈ t_versions (d_catalog d) ∧ av_id row = id ∧ av_vault_file_id row = j_vault_file_id (cj_row job) ∧ sound_keeper row = true
  ∧ expected_cloud_key (j_path (cj_row job)) (cj_s3_prefix job) = Ok (or_default (av_object_key row) "")
  ∧ (av_id <$> latest_verified d (j_vault_file_id (cj_row job))) = Some id.
Proof.
  unfold keeper. destruct (fetchone _ _) as [r|] eqn:Ef; [|done]. apply fetchone_some in Ef as [Hin Hp]. intros E. inv_ok. bsimpl.
  subst. split_and!; try done. match goal with H : av_object_key _ = Some _ |- _ => rewrite H end. done.
Qed.

Lemma keeper_key s : sound_keeper (sc_keeper s) = true → av_object_key (sc_keeper s) = Some (keep_key s).
Proof. unfold sound_keeper, keep_key. intros H. bsimpl. by destruct (av_object_key _). Qed.

(** The answer of a listing is found in the record of calls. *)
Definition key_target (bucket key : string) : pinned_target :=
  {| tg_vault_id := 0; tg_vault_file_id := ""; tg_bucket := bucket; tg_prefix := ""; tg_key := key; tg_provider := None; tg_path := "";
     tg_path_since := None; tg_source_root := ""; tg_root_identity := None; tg_root_identity_version := None |}.

(** These calls list the key to its end and show this inventory. *)
Definition listed_in (bucket key : string) (inv : key_inventory) (h : list call) : Prop :=
  ∃ before pages after, h = before ++ listed_calls pages ++ after ∧ complete_listing (key_target bucket key) inv pages.

Lemma listed_more bucket key inv h h' : listed_in bucket key inv h → listed_in bucket key inv (h ++ h').
Proof. intros (b & p & a & -> & Hc). exists b, p, (a ++ h'). by rewrite <- !app_assoc. Qed.
Lemma listed_after bucket key inv h h' : listed_in bucket key inv h → listed_in bucket key inv (h' ++ h).
Proof. intros (b & p & a & -> & Hc). exists (h' ++ b), p, a. by rewrite <- !app_assoc. Qed.

Lemma inventory_of_in l k v : v ∈ ki_versions (inventory_of l k) → (k, inventory_of l k) ∈ l.
Proof.
  unfold inventory_of. destruct (List.find _ l) as [[k' inv]|] eqn:E; cbn; [|set_solver]. apply find_some in E as [Hin Hk]. cbn in Hk. bsimpl.
  subst. intros _. by apply list_elem_of_In.
Qed.

Lemma remove_first_keeps v x l : x ≠ v → x ∈ l → x ∈ remove_first v l.
Proof.
  intros Hx. induction l as [|y l IH]; cbn; [done|]. rewrite elem_of_cons.
  destruct (y =b v) eqn:Hy; bsimpl; intros [->|Hin]; try done; rewrite ?elem_of_cons; auto.
Qed.

Lemma without_version_keeps c l k v :
  c ≠ (k, v) → v ∈ ki_versions (inventory_of l k) → v ∈ ki_versions (inventory_of (without_version c l) k).
Proof.
  intros Hc. unfold inventory_of, without_version. induction l as [|[k' inv] l IH]; cbn; [done|].
  destruct (k' =b c.1) eqn:E1; cbn; destruct (k' =b k) eqn:E2; cbn; try done. bsimpl. subst. apply remove_first_keeps.
  intros ->. destruct c; cbn in *. done.
Qed.

Section cleanup_facts.
Context {P : Type} `{!Provider P} `{!UploadProvider P} `{!ObjectReader P} `{!Disk P} `{!Environment worker_db} `{!Host}.
Notation W := (world worker_db P).
Context (sha256 : bytes → bytes) (provider : string) (fuel : nat).
Context (network_error : exn → bool) (bucket_still_ready : eff W bool).
Context (Hready : emits looking bucket_still_ready).
Context (job : claimed_job).
Notation inventories := (inventories fuel network_error bucket_still_ready job).
Notation no_delete := (fun c => ¬ is_delete c).

Lemma inventory_quiet key : keeps (grows no_delete) (inventory fuel network_error bucket_still_ready (cj_bucket job) key).
Proof.
  eapply emits_mono, inventory_looking; [|exact Hready]. intros c Hl Hd. by destruct c.
Qed.

Lemma inventories_quiet keys : keeps (grows no_delete) (inventories keys).
Proof. induction keys as [|k keys IH]; cbn; [emits_all|]. pose proof inventory_quiet. emits_all. Qed.

Lemma inventories_ok keys (w w' : W) l :
  inventories keys w = (w', Ok l) →
  map fst l = keys ∧ ∃ new, w_calls w' = w_calls w ++ new ∧ ∀ k inv, (k, inv) ∈ l → listed_in (cj_bucket job) k inv new.
Proof.
  revert w w' l. induction keys as [|k keys IH]; intros w w' l; cbn.
  { intros [= <- <-]. split; [done|]. exists []. split; [by rewrite app_nil_r | set_solver]. }
  intros E. run_ok E. injection E as <- <-. apply (inventory_ok _ _ _ (key_target (cj_bucket job) k)) in Hm as (pages & Ec & Hl).
  apply IH in Hm0 as (Hk & new & Ec' & Hn). split; [cbn; by rewrite Hk|]. exists (listed_calls pages ++ new).
  split; [by rewrite Ec', Ec, <- app_assoc|]. intros k' inv. rewrite elem_of_cons. intros [[= -> ->]|Hin].
  - by exists [], pages, new.
  - by apply listed_after, Hn.
Qed.

Lemma active_quiet message : keeps (grows no_delete) (active (P := P) job message).
Proof. unfold active. emits_all. Qed.
Lemma claim_owned_quiet message : keeps (grows no_delete) (claim_owned (P := P) job message).
Proof. unfold claim_owned. emits_all. Qed.
Lemma ask_quiet {A} p (f : worker_db → result A) : keeps (grows p) (ask (P := P) f).
Proof. unfold ask. emits_all. Qed.
Lemma query_quiet {A} p (f : worker_db → result A) : keeps (grows p) (query (P := P) f).
Proof. unfold query, ask. emits_all. Qed.
#[local] Hint Resolve inventories_quiet active_quiet claim_owned_quiet ask_quiet query_quiet : eff.

Lemma root_quiet v : keeps (grows no_delete) (validate_enrolled_scan_root (P := P) (D := worker_db) sha256 v).
Proof. unfold validate_enrolled_scan_root, root_identity, walk_component, lstat. emits_all. Qed.
#[local] Hint Resolve root_quiet : eff.

Lemma source_identity_quiet : keeps (grows no_delete) (require_upload_source_identity (P := P) sha256 job).
Proof. unfold require_upload_source_identity. emits_all. Qed.
Lemma source_in_place_quiet v : keeps (grows no_delete) (source_in_place (P := P) sha256 v).
Proof. unfold source_in_place. emits_all. Qed.
#[local] Hint Resolve source_identity_quiet source_in_place_quiet : eff.

Lemma pin_inventory_quiet id : keeps (grows no_delete) (pin_inventory provider fuel network_error bucket_still_ready job id).
Proof. unfold pin_inventory, now_iso. emits_all. Qed.

Lemma read_chunks_quiet size b content : keeps (grows no_delete) (read_chunks (P := P) job size b content).
Proof. revert content. induction b as [|c b IH]; intros content; cbn; emits_all. Qed.
#[local] Hint Resolve pin_inventory_quiet read_chunks_quiet : eff.

Lemma prove_candidate_quiet s id c : keeps (grows no_delete) (prove_candidate (P := P) sha256 provider job s id c).
Proof. unfold prove_candidate, fetch_duplicate, exact_duplicate, fetch_object, persist_proof, now_iso. emits_all. Qed.
Lemma check_key_quiet s id baseline e : keeps (grows no_delete) (check_key (P := P) provider job s id baseline e).
Proof. unfold check_key. emits_all. Qed.
Lemma persist_purge_quiet s id n final : keeps (grows no_delete) (persist_purge (P := P) sha256 provider job s id n final).
Proof. unfold persist_purge, note_deleted, now_iso. emits_all. Qed.
#[local] Hint Resolve prove_candidate_quiet check_key_quiet persist_purge_quiet : eff.

(** ** The tables between the fences and the deletion *)
Definition frozen : relation W := fun w w' => w_db w' = w_db w.
#[local] Instance frozen_preorder : PreOrder frozen.
Proof. split; [done | unfold frozen; congruence]. Qed.

Lemma frozen_request {Q A} (op : Q → P → P * result A) record q : keeps frozen (request op record q).
Proof. intros w. unfold request. by destruct (op q (w_cloud w)). Qed.

Lemma source_in_place_frozen v : keeps frozen (source_in_place (P := P) sha256 v).
Proof.
  unfold source_in_place, validate_enrolled_scan_root, root_identity, walk_component, lstat.
  repeat first [progress eauto with eff | apply frozen_request | keeps_step | by intros ?].
Qed.

Lemma ask_ok {A} (f : worker_db → result A) (w w' : W) a : ask f w = (w', Ok a) → w' = w ∧ f (w_db w) = Ok a.
Proof. unfold ask. intros E. apply ebind_ok in E as (w1 & d & [= <- <-] & E). by apply lift_ok in E as [? ->]. Qed.

Lemma claim_owned_leased message (w w' : W) : claim_owned job message w = (w', Ok tt) → leased (w_db w) (w_db w').
Proof.
  unfold claim_owned, ensure_job_claim_owned_in_transaction. intros E. apply ebind_ok in E as (w1 & [] & E1 & E).
  apply raise_signals_db in E1. destruct (truthy _).
  - apply ebind_ok in E as (w2 & row & E2 & E). unfold renew_in_transaction, now_iso in E2. apply ebind_ok in E2 as (w3 & at_ & [= <- <-] & E2).
    cbn in E2. injection E2 as <- <-. unfold require_renewed in E. case_match; [|by run_ok E]. injection E as <-. right. cbn.
    rewrite <- E1. by eexists _, _.
  - injection E as <-. by left.
Qed.

(** What a deletion may rely on, in the tables at its moment. *)
Definition proved_delete (keeper_id : string) (h : list call) (c : call) (d : worker_db) : Prop :=
  match c with
  | CDelete o _ => ∃ s p inv,
      or_bucket o = cj_bucket job ∧ (or_key o, or_version o) ≠ (keep_key s, keep_version s)
      ∧ keeper sha256 d job keeper_id (Some provider) = Ok (sc_keeper s)
      ∧ version_fences job s (or_key o) (or_version o) d = Ok tt
      ∧ p ∈ ut_proofs (d_uploads d) ∧ proof_for provider job s keeper_id (or_key o) (or_version o) p = true
      ∧ (truthy (j_claim_token (cj_row job)) = true → ∃ j, j ∈ t_jobs (d_catalog d) ∧ j_id j = j_id (cj_row job)
           ∧ j_claim_token j = j_claim_token (cj_row job) ∧ job_is_active j = true)
      ∧ listed_in (cj_bucket job) (keep_key s) inv h ∧ keep_version s ∈ ki_versions inv
  | CDeleteBatch _ _ => False
  | _ => True
  end.

Lemma quiet_abides id {A} (m : eff W A) : keeps (grows no_delete) m → keeps (abides (proved_delete id)) m.
Proof. apply abides_grows. intros h c d Hc. destruct c; cbn in *; tauto. Qed.

Lemma delete_abides id o (w w' : W) r :
  (∀ a, proved_delete id (w_calls w) (CDelete o a) (w_db w)) → delete_s3_version o w = (w', r) → abides (proved_delete id) w w'.
Proof.
  intros Ho E. unfold delete_s3_version, catch, delete_object, request in E. destruct (p_delete o (w_cloud w)) as [c res].
  assert (∃ a, w_calls w' = w_calls w ++ [CDelete o a] ∧ w_tables w' = w_tables w ++ [w_db w]) as (a & Ec & Et).
  { exists res. destruct res as [[]|e]; cbn in E; [by injection E as <- _|]. destruct (catchable e); [|by injection E as <- _].
    by destruct (s3_version_already_gone e); injection E as <- _. }
  exists [CDelete o a], [w_db w]. do 3 (split; [done|]). intros [|i] x y; cbn; [|done]. intros [= <-] [= <-]. by rewrite app_nil_r.
Qed.

Lemma delete_under_fences_abides s id c inv (w w' : W) r :
  listed_in (cj_bucket job) (keep_key s) inv (w_calls w) → keep_version s ∈ ki_versions inv →
  delete_under_fences sha256 provider job s id c w = (w', r) → abides (proved_delete id) w w'.
Proof.
  intros Hl Hk. unfold delete_under_fences.
  apply abides_bind; [apply quiet_abides; eauto with eff|]. intros w1 [] E1. apply ask_ok in E1 as [-> Hf].
  apply abides_bind; [apply quiet_abides; eauto with eff|]. intros w2 [] E2. pose proof (claim_owned_leased _ _ _ E2) as Hd2.
  apply claim_owned_ok in E2 as Hc. destruct Hc as [_ Hc].
  assert (Hl2 : listed_in (cj_bucket job) (keep_key s) inv (w_calls w2)).
  { destruct (emits_calls _ _ _ _ _ (claim_owned_quiet _) E2) as (n & -> & _). by apply listed_more. }
  apply abides_bind; [apply quiet_abides; eauto with eff|]. intros w3 [] E3. apply ask_ok in E3 as [-> Hs].
  unfold same_keeper in Hs. inv_ok. bsimpl. subst.
  apply abides_bind; [apply quiet_abides; eauto with eff|]. intros w3 v E3. apply ask_ok in E3 as [-> _].
  apply abides_bind; [apply quiet_abides; eauto with eff|]. intros w4 [] E4.
  assert (Hd4 : w_db w4 = w_db w2) by (pose proof (source_in_place_frozen v w2) as H4; by rewrite E4 in H4).
  assert (Hl4 : listed_in (cj_bucket job) (keep_key s) inv (w_calls w4)).
  { destruct (emits_calls _ _ _ _ _ (source_in_place_quiet _) E4) as (n & -> & _). by apply listed_more. }
  apply abides_bind; [apply quiet_abides; unfold job_cancelled; eauto with eff|]. intros w5 stop [= <- <-].
  apply abides_bind; [apply quiet_abides; eauto with eff|]. intros w6 [] [_ ->]%throw_if_ok.
  apply abides_bind; [apply quiet_abides; eauto with eff|]. intros w7 proved E7. apply ask_ok in E7 as [-> [= <-]].
  apply abides_bind; [apply quiet_abides; eauto with eff|]. intros w8 [] [Hb ->]%throw_if_ok. bsimpl.
  cbn [w_db w_calls] in *. rewrite Hd4 in *. match goal with Hx : exists_row _ _ = true |- _ => apply exists_row_true in Hx as (p & Hp & Hpf) end.
  apply delete_abides. intros a. cbn. exists s, p, inv. destruct c as [k v']; cbn in *. split_and!; try done.
  by rewrite (fences_leased (w_db w)).
Qed.

(** The keeper stays in what a clean-up expects to be listed. *)
Definition keeps_keeper (s : scope) (expected : key_inventories) : Prop :=
  keep_version s ∈ ki_versions (inventory_of expected (keep_key s)).

Lemma delete_candidate_abides s id expected c (w w' : W) r :
  keeps_keeper s expected →
  delete_candidate sha256 provider fuel network_error bucket_still_ready job s id expected c w = (w', r) → abides (proved_delete id) w w'.
Proof.
  intros Hk. unfold delete_candidate.
  apply abides_bind; [apply quiet_abides; eauto with eff|]. intros w1 [] E1.
  apply abides_bind; [apply quiet_abides; eauto with eff|]. intros w2 l E2. apply inventories_ok in E2 as (_ & new & Ec & Hn).
  apply abides_bind; [apply quiet_abides; eauto with eff|]. intros w3 [] [Hb ->]%throw_if_ok. bsimpl. subst l.
  intros E. apply ebind_cases in E as [(e & E & _)|(w4 & [] & E & [= <- _])].
  all: revert E; apply abides_transaction; intros w5 w6 Hc5 E6; eapply delete_under_fences_abides; [|exact Hk|exact E6].
  all: rewrite Hc5, Ec; apply listed_after, Hn; by eapply inventory_of_in.
Qed.

Lemma delete_candidate_ok s id expected c (w w' : W) expected' :
  keeps_keeper s expected →
  delete_candidate sha256 provider fuel network_error bucket_still_ready job s id expected c w = (w', Ok expected') → keeps_keeper s expected'.
Proof.
  intros Hk E. unfold delete_candidate in E. run_ok E. injection E as <- <-. apply transaction_ok in Hm1 as (wt & _ & _ & _ & E0).
  unfold delete_under_fences in E0. run_ok E0. bsimpl. by apply without_version_keeps.
Qed.

Lemma delete_all_abides s id todo expected (w w' : W) r :
  keeps_keeper s expected →
  efold (delete_candidate sha256 provider fuel network_error bucket_still_ready job s id) expected todo w = (w', r) →
  abides (proved_delete id) w w'.
Proof.
  revert expected w. induction todo as [|c todo IH]; intros expected w Hk; cbn; [by intros [= <- _]|].
  intros E. apply ebind_cases in E as [(e & E & _)|(w1 & l & E1 & E)]; [by eapply delete_candidate_abides|].
  etrans; [by eapply delete_candidate_abides|]. eapply IH; [by eapply delete_candidate_ok | done].
Qed.
End cleanup_facts.

(** What a body yields to its end, when no read fails. *)
Fixpoint body_bytes (b : body) : option bytes :=
  match b with
  | [] => Some []
  | Raise _ :: _ => None
  | Ok chunk :: b => if bool_decide (chunk = []) then Some [] else app chunk <$> body_bytes b
  end.

Section claims.
Context {P : Type} `{!Provider P} `{!UploadProvider P} `{!ObjectReader P} `{!Disk P} `{!Environment worker_db} `{!Host}.
Notation W := (world worker_db P).
Context (sha256 : bytes → bytes) (provider : string) (fuel : nat) (network_error : exn → bool) (bucket_still_ready : eff W bool).
Context (job : claimed_job).

Lemma clear_versions_abides keeper_id (w w' : W) r :
  emits looking bucket_still_ready →
  clear_versions sha256 provider fuel network_error bucket_still_ready job keeper_id w = (w', r) →
  abides (proved_delete sha256 provider job keeper_id) w w'.
Proof.
  intros Hready. unfold clear_versions.
  pose proof (inventories_quiet fuel network_error _ Hready job) as Hi. pose proof (pin_inventory_quiet provider fuel network_error _ Hready job) as Hpin.
  pose proof (source_identity_quiet sha256 job) as Hsi. pose proof @query_quiet as Hq. pose proof @ask_quiet as Ha.
  pose proof (claim_owned_quiet (P := P) job) as Hc. pose proof (prove_candidate_quiet (P := P) sha256 provider job) as Hp.
  pose proof (check_key_quiet (P := P) provider job) as Hck. pose proof (persist_purge_quiet (P := P) sha256 provider job) as Hpp.
  pose proof (active_quiet (P := P) job) as Hac.
  do 5 (apply abides_bind; [apply quiet_abides; emits_all|]; intros ? ? _).
  apply abides_bind; [apply quiet_abides; emits_all|]. intros ? [] _.
  apply abides_bind; [apply quiet_abides; emits_all|]. intros ? expected _.
  apply abides_bind; [apply quiet_abides; emits_all|]. intros ? [] [Hk _]%throw_if_ok. bsimpl.
  do 5 (apply abides_bind; [apply quiet_abides; emits_all|]; intros ? ? _).
  intros E. apply ebind_cases in E as [(e & E & _)|(wd & l & E1 & E)]; [by eapply delete_all_abides|].
  injection E as <- _. by eapply delete_all_abides.
Qed.

Lemma cleanup_abides keeper_id (w w' : W) r :
  emits looking bucket_still_ready →
  cleanup sha256 provider fuel network_error bucket_still_ready job keeper_id w = (w', r) →
  abides (proved_delete sha256 provider job keeper_id) w w'.
Proof.
  intros Hready E. apply ebind_cases in E as [(e & E & _)|(w1 & [[s n] l] & E1 & E)]; [by eapply clear_versions_abides|].
  etrans; [by eapply clear_versions_abides|]. eapply abides_step, E. apply quiet_abides.
  pose proof (inventories_quiet fuel network_error _ Hready job). pose proof (source_identity_quiet sha256 job).
  pose proof (persist_purge_quiet (P := P) sha256 provider job). pose proof (active_quiet (P := P) job). emits_all.
Qed.


Lemma duplicate_chunks_ok size b content (w w' : W) content' :
  read_chunks job size b content w = (w', Ok content') → ∃ rest, body_bytes b = Some rest ∧ content' = content ++ rest.
Proof.
  revert content w. induction b as [|c b IH]; intros content w; cbn; intros E; run_ok E.
  { injection E as <- <-. exists []. by rewrite app_nil_r. }
  apply lift_ok in Hm0 as [-> ->]. destruct (bool_decide (a0 = [])).
  { injection E as <- <-. exists []. by rewrite app_nil_r. }
  run_ok E. apply IH in E as (rest & Hr & ->). exists (a0 ++ rest). rewrite Hr. by rewrite <- app_assoc.
Qed.

(** The object was fetched by its version, is no upload or move of this program in
    flight, and its bytes are those of the keeper. *)
Definition fetched_duplicate (o : object_ref) (digest : string) (size : Z) (calls : list call) : Prop :=
  ∃ answer b content, CFetch o (Ok answer) ∈ calls ∧ ga_version_id answer = Some (or_version o) ∧ ga_delete_marker answer = false
    ∧ foreign_token (ga_metadata answer) = false ∧ ga_body answer = Some b ∧ body_bytes b = Some content
    ∧ Z.of_nat (length content) = size ∧ hexdigest (sha256 content) = digest.

Lemma exact_duplicate_ok o digest size (w w' : W) :
  or_version o ≠ "" → exact_duplicate sha256 job o digest size w = (w', Ok tt) →
  ∃ new, w_calls w' = w_calls w ++ new ∧ fetched_duplicate o digest size new.
Proof.
  intros Hv. unfold exact_duplicate. intros E. apply ebind_ok in E as (w1 & answer & E1 & E). apply request_ok in E1 as [Ec _].
  destruct (ga_body answer) as [b|] eqn:Eb; [|done]. run_ok E. apply throw_if_ok in E as [Hd ->]. bsimpl.
  pose proof (emits_calls _ _ _ _ _ (read_chunks_quiet job size b []) Hm) as (n & En & _).
  apply duplicate_chunks_ok in Hm as (rest & Hr & Ha). cbn in Ha. subst. eexists. split; [by rewrite En, Ec, <- app_assoc|].
  exists answer, b, rest. split; [set_solver|]. split_and!; try done.
  destruct (ga_version_id answer); cbn in *; congruence.
Qed.

(** A handler that always raises leaves a success of the body. *)
Lemma catch_quiet_ok {A} (m : eff W A) (h : exn → eff W A) w w' a :
  (∀ e w1 w2 b, h e w1 ≠ (w2, Ok b)) → catch m h w = (w', Ok a) → m w = (w', Ok a).
Proof. intros Hh. unfold catch. destruct (m w) as [w1 [b|e]]; [done|]. destruct (catchable e); [|done]. intros E. by apply Hh in E. Qed.

Lemma persist_proof_quiet s id key version method :
  keeps (grows (fun c => ¬ is_delete c)) (persist_proof (P := P) sha256 provider job s id key version method).
Proof.
  unfold persist_proof, now_iso. pose proof @ask_quiet. pose proof (claim_owned_quiet (P := P) job). emits_all.
Qed.

Lemma persist_proof_ok s id key version method (w w' : W) :
  persist_proof sha256 provider job s id key version method w = (w', Ok tt) →
  ∃ d at_, version_fences job s key version d = Ok tt ∧ keeper sha256 d job id (Some provider) = Ok (sc_keeper s)
    ∧ w_db w' = set_uploads (upsert_proof (new_proof provider job s id key version method at_) (d_uploads d)) d.
Proof.
  intros E. apply transaction_ok in E as (w0 & _ & _ & _ & E). apply ebind_ok in E as (w1 & [] & E1 & E). apply ask_ok in E1 as [-> Hf].
  apply ebind_ok in E as (w2 & [] & E2 & E). apply claim_owned_leased in E2. apply ebind_ok in E as (w3 & [] & E3 & E).
  apply ask_ok in E3 as [-> Hs]. unfold same_keeper in Hs. inv_ok. bsimpl. subst.
  apply ebind_ok in E as (w4 & at_ & [= <- <-] & [= <-]). exists (w_db w2), (clock (w_steps w2)). split_and!; try done.
  by rewrite (fences_leased (w_db w0)).
Qed.

(** Nothing is deleted on hearsay: a new row of [snapshot_cleanup_proofs] is written
    only for a version that the tables prove to be a write of this program for this
    very file ([has_lineage]), or whose exact bytes were just fetched by their version
    and have the size and the digest of the keeper; and only while the Job keeps its
    target, the names belong to the file and the keeper is unchanged.  Otherwise the
    version already had a proof for this keeper, digest and size. *)
Theorem new_proofs_are_evidenced s keeper_id key version (w w' : W) :
  version ≠ "" → prove_candidate sha256 provider job s keeper_id (key, version) w = (w', Ok tt) →
  ∃ new, w_calls w' = w_calls w ++ new
  ∧ ((∃ d p, p ∈ ut_proofs (d_uploads d) ∧ proof_for provider job s keeper_id key version p = true ∧ cp_size p = keep_size s)
     ∨ ∃ d method at_,
         (method = "independent_lineage"
            ∧ (∃ d0 row, known_row s key version = Some row ∧ has_lineage sha256 d0 (Some row) (file job) (Some (cj_bucket job)) (Some provider) = Ok true)
          ∨ method = "exact_get_duplicate"
            ∧ fetched_duplicate {| or_bucket := cj_bucket job; or_key := key; or_version := version |} (keep_sha256 s) (keep_size s) new)
         ∧ version_fences job s key version d = Ok tt ∧ keeper sha256 d job keeper_id (Some provider) = Ok (sc_keeper s)
         ∧ w_db w' = set_uploads (upsert_proof (new_proof provider job s keeper_id key version method at_) (d_uploads d)) d).
Proof.
  intros Hv. unfold prove_candidate. intros E. apply ebind_ok in E as (w1 & [] & E1 & E).
  destruct (emits_calls _ _ _ _ _ (active_quiet job _) E1) as (n1 & C1 & _).
  apply ebind_ok in E as (w2 & [proof lineage] & E2 & E). apply transaction_ok in E2 as (w0 & C0 & _ & _ & E2). apply ask_ok in E2 as [-> Hl].
  unfold look_at in Hl. inv_ok. subst r. cbn [fst snd] in *.
  destruct (match proof with Some p => _ | None => false end) eqn:Ep.
  { injection E as <-. exists n1. split; [by rewrite C0|]. left. destruct proof as [p|]; [|done]. apply fetchone_some in Hl as [Hin Hp].
    unfold proof_for. bsimpl. exists (w_db w0), p. split_and!; try done. rewrite Hp. cbn. by rewrite !bool_decide_eq_true_2. }
  apply ebind_ok in E as (w3 & [] & E3 & E). destruct (emits_calls _ _ _ _ _ (persist_proof_quiet _ _ _ _ _) E) as (n4 & C4 & _).
  apply persist_proof_ok in E as (d & at_ & Hf & Hk & Hd). destruct lineage.
  - injection E3 as <-. exists (n1 ++ n4). split; [by rewrite C4, C0, C1, <- app_assoc|]. right. eexists d, _, at_. split; [left|done].
    split; [done|]. destruct (known_row s key version) as [row|]; [by exists (w_db w0), row | done].
  - unfold fetch_duplicate in E3. apply catch_quiet_ok in E3; [|intros []; done].
    apply exact_duplicate_ok in E3 as (n3 & C3 & Hdup); [|done]. exists (n1 ++ n3 ++ n4). split; [by rewrite C4, C3, C0, C1, <- !app_assoc|].
    right. eexists d, _, at_. split; [right; split; [done|]|done]. destruct Hdup as (a & b & c & Hin & Hrest). exists a, b, c.
    split; [set_solver | done].
Qed.

(** What the last transaction leaves behind. *)
Record closed (keeper_id : string) (n : Z) (t : upload_tables) : Prop := {
  cl_settled : ∀ i, i ∈ ut_intents t → ui_archive_version_id i = Some keeper_id → ui_vault_file_id i = file job → ui_settled i = true;
  cl_unblocked : ∀ b, b ∈ ut_blocks t → rb_vault_file_id b ≠ file job;
  cl_completed : ∀ c, c ∈ ut_inventories t → cv_job_id c = n → is_some (cv_completed_at c) = true;
}.

Lemma persist_purge_ok s id n final (w w' : W) :
  persist_purge sha256 provider job s id n final w = (w', Ok tt) →
  (∃ d, keeper sha256 d job id (Some provider) = Ok (sc_keeper s)) ∧ closed id n (d_uploads (w_db w')).
Proof.
  intros E. apply transaction_ok in E as (w0 & _ & _ & _ & E). unfold now_iso in E. run_ok E.
  apply ask_ok in Hm1 as [-> Hs]. unfold same_keeper in Hs. inv_ok. bsimpl. subst. injection E as <-. split; [eauto|].
  cbn. split.
  - intros i Hi. cbn in Hi. apply elem_of_update_where in Hi as (i0 & _ & ->). match goal with |- context [if ?b then _ else _] => destruct b eqn:Eb end; [done|].
    intros Ha Hf. by rewrite Ha, Hf, !bool_decide_eq_true_2 in Eb.
  - intros b Hb. cbn in Hb. apply elem_of_delete_where in Hb as [_ Hb]. by bsimpl.
  - intros c Hc. cbn in Hc. apply elem_of_update_where in Hc as (c0 & _ & ->). match goal with |- context [if ?b then _ else _] => destruct b eqn:Eb end.
    + intros _. cbn. by destruct (cv_completed_at c0).
    + intros Hn. by rewrite Hn, bool_decide_eq_true_2 in Eb.
Qed.

End claims.

(** ** A key with a keeper and a copy nobody knows *)

(** A provider that lists the versions of the one key it holds; all have the same bytes. *)
Definition w_unsupported {A} (p : list string) : list string * result A := (p, Raise (ClientError "NotImplemented" 501)).
Definition w_versions : Provider (list string) := {|
  p_list q p := (p, Ok {| pg_truncated := Some false; pg_markers := []; pg_next_key := None; pg_next_version := None;
                          pg_versions := map (fun v => {| li_key := Some (lr_prefix q); li_version_id := Some v; li_size := Some 3;
                                                          li_storage_class := None |}) p |});
  p_delete o p := (List.filter (fun v => v <>b or_version o) p, Ok tt);
  p_head _ := w_unsupported; p_get _ := w_unsupported; p_tags _ := w_unsupported; p_copy _ := w_unsupported; p_create _ := w_unsupported;
  p_part _ := w_unsupported; p_complete _ := w_unsupported; p_abort _ := w_unsupported; p_delete_batch _ := w_unsupported;
  p_restore _ := w_unsupported;
|}.
Definition w_reader : ObjectReader (list string) := fun o p =>
  (p, Ok {| ga_version_id := Some (or_version o); ga_delete_marker := false; ga_content_length := Some 3; ga_metadata := None;
            ga_body := Some [Ok UploadSnapshot.w_content] |}).

Definition w_directory : file_stat :=
  {| sx_kind := KDirectory; sx_dev := 1; sx_ino := 7; sx_size := 0; sx_mtime_ns := 5; sx_ctime_ns := 6 |}.
Definition w_root_disk : Disk (list string) := {|
  k_lstat _ p := (p, Ok w_directory); k_stat _ := w_unsupported; k_open _ := w_unsupported; k_fstat _ := w_unsupported; k_read _ := w_unsupported;
  k_read_byte _ := w_unsupported; k_read_some _ := w_unsupported; k_read_path _ := w_unsupported; k_rename _ := w_unsupported;
  k_link _ := w_unsupported; k_unlink _ := w_unsupported; k_mkdirs _ := w_unsupported; k_iterdir _ := w_unsupported; k_download _ := w_unsupported;
|}.
Definition w_root_host : Host := {|
  abspath _ := ["src"]; host_view _ := {| fs_absolute _ := ["src"]; fs_resolve l := l; fs_is_symlink _ := false |};
  vault_local_access _ _ := {| ac_allowed := true; ac_health := "ok" |};
|}.
Definition w_quiet_hour : Environment worker_db := {|
  others _ db := db; clock _ := 5; uuid _ := "uuid"; cancelled _ _ := false; heartbeat_lost _ := false; stopping _ := false; lock_free _ := true;
|}.

Definition w_digest : string := hexdigest (w_prefix_hash UploadSnapshot.w_content).
Definition w_keeper : archive_version :=
  {| av_id := "v2"; av_vault_file_id := "f"; av_vault_id := 1; av_version_number := 2; av_object_key := Some "vaults/photos/a/b.txt";
     av_provider_version_id := Some "p1"; av_size := Some 3; av_storage_class := None; av_plaintext_sha256 := Some w_digest;
     av_origin := Upload; av_integrity := Verified; av_verified_at := Some 0; av_availability := Available; av_availability_checked_at := None;
     av_restore_state := None; av_placement := new_placement 0; av_evidence := no_evidence |}.
Definition w_rooted_vault : vault :=
  {| va_id := 1; va_enabled := true; va_decommission_state := Some "active"; va_relocation_state := "ready"; va_source_root := "/src";
     va_name := "Photos"; va_s3_prefix := "vaults/photos"; va_root_released_at := None; va_decommissioned_at := None;
     va_root_identity := match identity_from_stat w_prefix_hash w_directory with Ok i => Some i | _ => None end;
     va_root_identity_version := Some ROOT_IDENTITY_VERSION |}.
Definition w_kept_db : worker_db :=
  {| d_catalog := set_vaults [w_rooted_vault] (set_versions [w_keeper] (set_jobs [cj_row w_sending_job] w_catalog)); d_inbox := w_inbox;
     d_plans := [w_plan]; d_uploads := no_uploads; d_moves := []; d_gate := None |}.
Definition w_two_versions : world worker_db (list string) :=
  {| w_db := w_kept_db; w_cloud := ["p0"; "p1"]; w_calls := []; w_tables := []; w_steps := 0; w_lost := false; w_ready := true; w_echoes := [] |}.
Definition w_cleanup : world worker_db (list string) * result Z :=
  cleanup (Provider0 := w_versions) (ObjectReader0 := w_reader) (Disk0 := w_root_disk) (Environment0 := w_quiet_hour) (H := w_root_host)
    w_prefix_hash "s3" 2 (fun _ => false) (eret true) w_sending_job "v2" w_two_versions.



Definition w_scope : scope :=
  {| sc_keeper := w_keeper; sc_pinned := or_default (match target w_kept_db w_sending_job "vaults/photos/a/b.txt" "s3" with Ok t => Some t | _ => None end) w_target;
     sc_rows := []; sc_keys := ["vaults/photos/a/b.txt"]; sc_markers := [] |}.
Definition w_proving : world worker_db (list string) * result unit :=
  prove_candidate (ObjectReader0 := w_reader) (Environment0 := w_quiet_hour) w_prefix_hash "s3" w_sending_job w_scope "v2"
    ("vaults/photos/a/b.txt", "p0") w_two_versions.

Lemma new_proofs_are_evidenced_witness :
  cp_method <$> ut_proofs (d_uploads (w_db w_proving.1)) = ["exact_get_duplicate"] ∧ ∃ new, w_calls w_proving.1 = [] ++ new.
Proof.
  split; [vm_compute; reflexivity|].
  destruct (new_proofs_are_evidenced (ObjectReader0 := w_reader) (Environment0 := w_quiet_hour) w_prefix_hash "s3" w_sending_job w_scope "v2"
              "vaults/photos/a/b.txt" "p0" w_two_versions w_proving.1) as (new & Hc & _).
  - done.
  - vm_compute. reflexivity.
  - by exists new.
Defined.
