(* ===== verification/UploadResume.v ===== *)
(** * UploadResume: what the Owner sees of an unresolved upload, and its resumption

    Models the rest of [src/app/services/upload_provenance.py]: the failed uploads
    of the time before intents ([_legacy_materialized]), the answer to the interface
    ([describe], [_unresumable_reason]) and [_schedule_resume_legacy], which queues a
    Job that may only reconcile.  A state carries the key of the text in [REMEDIES]
    rather than the text.  The group id of the new Job comes as an argument. *)
From S2P Require Import Prelude Sql PyString Json JsonText Schema DirtyMarks JobScheduler Lifecycle CloudDeletion Catalog UploadTables Effects S3Client S3Copy WorkerJobs LocalFiles UploadSnapshot UploadReconcile VaultMoves UploadProvenance.
From Stdlib Require Import Strings.Byte.
Open Scope Z_scope.

Section resume.
Context (sha256 : bytes → bytes).

(** [except (ValueError, TypeError, KeyError, AttributeError)]. *)
Definition or_mismatch {A} (r : result A) : result A :=
  match r with
  | Raise e => if evidence_error e then blocked "proof_mismatch" else Raise e
  | Ok a => Ok a
  end.

Definition is_sha256 (s : string) : bool := (String.length s =? 64)%nat && forallb (fun a => existsb (Ascii.eqb a) (chars "0123456789abcdef")) (chars s).

(** ** Failed uploads without an intent *)
Definition legacy_row (db : catalog) (file : string) (x : archive_version * job) : bool :=
  let '(av, j) := x in
  (av_vault_file_id av =b file) && (av_availability av =b Available) && (av_integrity av =b Unverified)
  && bool_decide (j_archive_version_id j = Some (av_id av)) && (j_action j =b "upload") && (j_status j =b "failed")
  && (j_vault_file_id j =b av_vault_file_id av) && (j_vault_id j =b av_vault_id av)
  && match current_path_of (t_paths db) (av_vault_file_id av) with Some p => j_path j =b fp_path p | None => false end
  && negb (exists_row (fun c => bool_decide (j_archive_version_id c = Some (av_id av)) && (j_status c =b "cancelled") && (j_action c =b "upload"))
             (t_jobs db)).

Definition legacy_rows (db : catalog) (file : string) : list (archive_version * job) :=
  sort_by (fun a b => j_id a.2 <=? j_id b.2) (select (legacy_row db file) (list_prod (t_versions db) (t_jobs db))).

Definition expected_sha (x : archive_version * job) : option string := ju_plaintext_sha256 (j_upload x.2).

Definition check_legacy (x : archive_version * job) : result unit :=
  let raw := ve_upload_snapshot (av_evidence x.1) in
  if truthy raw then
    snapshot ← or_mismatch (
      snapshot ← from_json sha256 (or_default raw "");
      _ ← (if truthy (ju_snapshot (j_upload x.2)) then
             own ← from_json sha256 (or_default (ju_snapshot (j_upload x.2)) "");
             raise_if (us_plaintext_sha256 own <>b us_plaintext_sha256 snapshot) (UploadBlocked "proof_mismatch")
           else Ok tt);
      Ok snapshot);
    raise_if (negb (bool_decide (expected_sha x = Some (us_plaintext_sha256 snapshot)))) (UploadBlocked "proof_mismatch")
  else raise_if (negb match expected_sha x with Some s => is_sha256 s | None => false end) (UploadBlocked "proof_unavailable").

Definition legacy_materialized (db : catalog) (file : string) : result (option (archive_version * job)) :=
  match legacy_rows db file with
  | [] => Ok None
  | (first :: _) as rows =>
      raise! UploadBlocked "ambiguous_receipt" when negb (forallb (fun x => av_id x.1 =b av_id first.1) rows);
      _ ← mapM_r check_legacy rows;
      raise! UploadBlocked "proof_mismatch" when negb (forallb (fun x => bool_decide (expected_sha x = expected_sha first)) rows);
      Ok (Some first)
  end.

(** ** The answer to the interface *)
Definition open_episode (r : remediation) : bool := negb (rm_state r ∈b ["resolved"; "cancelled"]).

Definition only_void_episodes (t : upload_tables) (file : string) : bool :=
  let rows := take 8 (select (fun r => (rm_vault_file_id r =b file) && open_episode r) (ut_remediations t)) in
  negb (bool_decide (map rm_id rows = [])) && forallb (fun r => proven_absent t (rm_intent_id r) && unsent t (rm_intent_id r)) rows.

Record upload_state := { st_pending : bool; st_can_resume : bool; st_reason : option string; st_remedy : option string }.

Definition nothing_pending : upload_state := {| st_pending := false; st_can_resume := false; st_reason := None; st_remedy := None |}.

Definition at_path (d : worker_db) (vault_id : Z) (path : string) (f : vault_file) : bool :=
  (vf_vault_id f =b vault_id)
  && match current_path_of (t_paths (d_catalog d)) (vf_id f) with Some p => fp_path p =b path | None => false end.

Definition file_busy (d : worker_db) (file : string) : bool :=
  exists_row (fun j => (j_vault_file_id j =b file) && negb (terminal_job j)) (t_jobs (d_catalog d)).

(** A cancelled attempt at reconciliation, or a cancelled Job that held an intent. *)
Definition attempt_cancelled (d : worker_db) (file : string) : bool :=
  exists_row (fun j => (j_vault_file_id j =b file) && (j_status j =b "cancelled")
                       && (ju_reconcile_only (j_upload j) || exists_row (fun b => ij_job_id b =b j_id j) (ut_intent_jobs (d_uploads d))))
    (t_jobs (d_catalog d)).

Definition sent_intents (t : upload_tables) (file : string) : list upload_intent :=
  take 2 (sort_by (fun a b => ui_created_at a <=? ui_created_at b)
            (select (fun i => (ui_vault_file_id i =b file) && negb (ui_settled i) && ui_send_started i) (ut_intents t))).

Definition block_of (t : upload_tables) (file : string) : option reconciliation_block :=
  fetchone (fun b => rb_vault_file_id b =b file) (ut_blocks t).

(** [a or b] on an optional text. *)
Definition or_text (a : option string) (b : string) : string := if truthy a then or_default a "" else b.

Definition shown_reason (block : option reconciliation_block) (intents : list upload_intent) (legacy_reason : option string) : string :=
  or_text (match block, intents with
           | Some b, _ => Some (rb_reason b)
           | None, i :: _ => ui_blocked_reason i
           | None, [] => Some (or_text legacy_reason "proof_unavailable")
           end) "ambiguous_send".

Definition describe (d : worker_db) (vault_id : Z) (path : string) : result upload_state :=
  match fetchone (at_path d vault_id path) (t_files (d_catalog d)) with
  | None => Ok nothing_pending
  | Some f =>
      let t := d_uploads d in
      let file := vf_id f in
      let block := block_of t file in
      let intents := sent_intents t file in
      '(legacy, legacy_reason) ←
        match intents with
        | [] => match legacy_materialized (d_catalog d) file with
                | Ok row => Ok (row, None)
                | Raise (UploadBlocked reason) => Ok (None, Some reason)
                | Raise e => Raise e
                end
        | _ => Ok (None, None)
        end;
      if is_none block && bool_decide (map ui_id intents = []) && is_none legacy && negb (truthy legacy_reason) then Ok nothing_pending
      else
        let reason := shown_reason block intents legacy_reason in
        let void_only := bool_decide (map ui_id intents = []) && only_void_episodes t file in
        Ok {| st_pending := true;
              st_can_resume := negb (file_busy d file) && negb (attempt_cancelled d file) && negb (truthy legacy_reason)
                               && (length intents <? 2)%nat && negb void_only;
              st_reason := Some reason; st_remedy := Some (named_reason (Some reason)) |}
  end.

Definition unresumable_reason (d : worker_db) (vault_id : Z) (path : string) (state : upload_state) : string :=
  if negb (st_pending state) then "already_resolved"
  else
    let named := named_reason (st_reason state) in
    match fetchone (fun p => (fp_vault_id p =b vault_id) && (fp_path p =b path) && is_none (fp_valid_to p)) (t_paths (d_catalog d)) with
    | Some p =>
        let file := fp_vault_file_id p in
        if file_busy d file then "active_operation"
        else if attempt_cancelled d file then "owner_cancelled"
        else if (1 <? length (take 2 (select (fun i => (ui_vault_file_id i =b file) && negb (ui_settled i)) (ut_intents (d_uploads d)))))%nat
        then "ambiguous_send"
        else named
    | None => named
    end.

(** ** Resumption *)

(** What the new Job is about: the intent, or a version with the digest expected of it. *)
Inductive resumed := FromIntent (i : upload_intent) | FromVersion (av : archive_version) (expected : option string).

Definition latest_verified (db : catalog) (file : string) : option archive_version :=
  latest av_version_number
    (select (fun v => (av_vault_file_id v =b file) && (av_availability v =b Available) && (av_integrity v =b Verified)) (t_versions db)).

Definition resumed_version (r : resumed) : option string :=
  match r with FromIntent i => ui_archive_version_id i | FromVersion av _ => Some (av_id av) end.

(** The size and the upload columns of the new Job. *)
Definition resumed_evidence (r : resumed) : result (Z * job_upload * option string) :=
  match r with
  | FromIntent i =>
      s ← from_json sha256 (ui_snapshot i);
      Ok (us_size s, {| ju_plaintext_sha256 := Some (us_plaintext_sha256 s); ju_snapshot := Some (ui_snapshot i); ju_reconcile_only := true;
                        ju_retry_count := 0 |}, Some (ui_requested i))
  | FromVersion av expected =>
      let sha := if truthy expected then expected else av_plaintext_sha256 av in
      match av_size av with
      | Some size =>
          Ok (size, {| ju_plaintext_sha256 := sha; ju_snapshot := ve_upload_snapshot (av_evidence av); ju_reconcile_only := true;
                       ju_retry_count := 0 |},
              Some (or_text (ve_verification_requested (av_evidence av)) "read_back"))
      | None => Raise (IntegrityError "total_bytes")
      end
  end.

Definition reconcile_job (id vault_id : Z) (file path : string) (version : option string) (user_id : option Z) (at_ : timestamp) (group origin : string)
    (size : Z) (u : job_upload) (requested : option string) : job :=
  {| j_id := id; j_vault_id := vault_id; j_vault_file_id := file; j_archive_version_id := version; j_path := path; j_action := "upload";
     j_status := "queued"; j_origin := origin; j_message := None; j_message_key := None; j_message_params := None;
     j_requested_by := user_id; j_requested_at := at_; j_updated_at := at_; j_group_id := Some group; j_group_path := Some path;
     j_total_bytes := size; j_transferred_bytes := 0; j_reason := None; j_confirmation_phrase := None; j_restore_tier := None;
     j_restore_days := None; j_target_storage_class := None; j_upload_verification_requested := requested; j_pending_until := None;
     j_retry_after := None; j_claim_token := None; j_claimed_at := None; j_claim_expires_at := None; j_upload := u |}.

Definition append_job (j : job) (d : worker_db) : worker_db :=
  set_catalog (set_jobs (t_jobs (d_catalog d) ++ [j]) (d_catalog d)) d.

Definition ready_or_suspended (v : vault) : result unit :=
  match require_ready v with
  | Raise (MoveBlocked _) => blocked "vault_suspended"
  | r => r
  end.

(** What is left of the file to reconcile: the sent intent, a failed upload of the
    time before intents, or the keeper. *)
Definition resumable (d : worker_db) (file : string) : result resumed :=
  intent ← outstanding (d_uploads d) file;
  match intent with
  | Some i => Ok (FromIntent i)
  | None =>
      legacy ← legacy_materialized (d_catalog d) file;
      match legacy, latest_verified (d_catalog d) file with
      | Some x, _ => Ok (FromVersion x.1 (expected_sha x))
      | None, Some v => Ok (FromVersion v None)
      | None, None => blocked "proof_unavailable"
      end
  end.

Definition schedule_resume_legacy (d : worker_db) (vault_id : Z) (path : string) (user_id : Z) (at_ : timestamp) (group : string)
    : result (worker_db * (Z * string)) :=
  v ← lock_vault (d_catalog d) vault_id;
  _ ← ready_or_suspended v;
  state ← describe d vault_id path;
  raise! UploadBlocked (unresumable_reason d vault_id path state) when negb (st_pending state) || negb (st_can_resume state);
  match fetchone (fun f => at_path d vault_id path f && (vf_status f =b Active)) (t_files (d_catalog d)) with
  | Some f =>
      let file := vf_id f in
      raise! UploadBlocked "cloud_only_conflict" when truthy (local_copy_of (t_copies (d_catalog d)) file ≫= lc_cloud_only_version_id);
      what ← resumable d file;
      '(size, u, requested) ← resumed_evidence what;
      raise! IntegrityError "jobs_one_active_file_uq" when exists_row (fun j => (j_vault_file_id j =b file) && job_is_active j) (t_jobs (d_catalog d));
      let id := next_id (map j_id (t_jobs (d_catalog d))) in
      let d := append_job (reconcile_job id vault_id file path (resumed_version what) (Some user_id) at_ group "manual" size u requested) d in
      d ← match what with FromIntent i => bind_for_resume d id i | FromVersion _ _ => Ok d end;
      Ok (d, (id, group))
  | None => blocked "identity_changed"
  end.
End resume.

(** ** Refusals *)
Definition refusals_named {A} (r : result A) : Prop := ∀ reason, r = Raise (UploadBlocked reason) → reason ∈ REMEDIES.

Lemma named_bind {A B} (r : result A) (f : A → result B) : refusals_named r → (∀ a, refusals_named (f a)) → refusals_named (r ≫= f).
Proof. intros Hr Hf. destruct r as [a|e]; [apply Hf|]. intros reason [= ->]. by apply Hr. Qed.
Lemma named_guard b reason : reason ∈ REMEDIES → refusals_named (raise_if b (UploadBlocked reason)).
Proof. intros H r. destruct b; cbn; [by intros [= <-] | done]. Qed.
Lemma named_other b e : (∀ reason, e ≠ UploadBlocked reason) → refusals_named (raise_if b e).
Proof. intros H r. destruct b; cbn; [|done]. intros [= E]. by apply H in E. Qed.
Lemma named_mapM {A B} (f : A → result B) l : (∀ a, refusals_named (f a)) → refusals_named (mapM_r f l).
Proof. intros Hf. induction l as [|a l IH]; cbn; [done|]. apply named_bind; [apply Hf|]. intros b. by apply named_bind. Qed.
Lemma named_reads {A} (r : result A) : reads r → refusals_named r.
Proof. intros H reason E. by apply H in E. Qed.
Lemma named_blocked {A} reason : reason ∈ REMEDIES → refusals_named (blocked (A := A) reason).
Proof. by intros H r [= <-]. Qed.
Lemma in_remedies reason : (reason ∈b REMEDIES) = true → reason ∈ REMEDIES.
Proof. apply bool_decide_eq_true_1. Qed.
Lemma named_reason_in reason : named_reason reason ∈ REMEDIES.
Proof.
  destruct reason as [r|]; cbn; [|by apply in_remedies]. destruct (bool_decide (r ∈ REMEDIES)) eqn:E; [by bsimpl|].
  by apply in_remedies.
Qed.

Create HintDb named.
#[local] Hint Extern 1 (_ ∈ REMEDIES) => (apply in_remedies; reflexivity) : named.
#[local] Hint Resolve named_bind named_guard named_mapM named_blocked named_reason_in : named.
#[local] Hint Extern 1 (refusals_named (Ok _)) => (intros ? ?; discriminate) : named.

Section named.
Context (sha256 : bytes → bytes).

Lemma legacy_named db file : refusals_named (legacy_materialized sha256 db file).
Proof.
  unfold legacy_materialized. destruct (legacy_rows db file); [done|]. apply named_bind; [auto with named|]. intros _.
  apply named_bind; [|intros; apply named_bind; auto with named]. apply named_mapM. intros x. unfold check_legacy.
  destruct (truthy _); [|auto with named]. apply named_bind; [|auto with named].
  match goal with |- refusals_named (or_mismatch ?r) => assert (Hr : refusals_named r) end.
  { apply named_bind; [apply named_reads, from_json_reads|]. intros s. apply named_bind; [|auto with named].
    destruct (truthy _); [|auto with named]. apply named_bind; [apply named_reads, from_json_reads | auto with named]. }
  intros reason E. unfold or_mismatch in E. destruct (_ ≫= _) as [|e]; [done|]. destruct (evidence_error e); [|by apply Hr].
  injection E as <-. auto with named.
Qed.

Lemma describe_named d vault_id path : refusals_named (describe sha256 d vault_id path).
Proof.
  unfold describe. destruct (fetchone _ _) as [f|]; [|done]. apply named_bind.
  - destruct (sent_intents _ _); [|done]. pose proof (legacy_named (d_catalog d) (vf_id f)) as H.
    destruct (legacy_materialized _ _ _) as [|[]]; intros ? E; try done; try (by apply H); by simplify_eq.
  - intros [legacy reason]. by destruct (_ && _).
Qed.

Lemma unresumable_named d vault_id path state : unresumable_reason d vault_id path state ∈ REMEDIES.
Proof.
  unfold unresumable_reason. destruct (negb _); [auto with named|]. destruct (fetchone _ _); [|auto with named].
  destruct (file_busy _ _); [auto with named|]. destruct (attempt_cancelled _ _); [auto with named|]. destruct (_ <? _)%nat; auto with named.
Qed.

Lemma resumable_named d file : refusals_named (resumable sha256 d file).
Proof.
  unfold resumable. apply named_bind.
  - unfold outstanding. destruct (outstanding_rows _ _) as [|? []]; [done | done | auto with named].
  - intros [i|]; [done|]. apply named_bind; [apply legacy_named|]. intros [x|]; [done|].
    destruct (latest_verified _ _); [done | auto with named].
Qed.

Lemma evidence_named what : refusals_named (resumed_evidence sha256 what).
Proof. destruct what; cbn; [apply named_bind; [apply named_reads, from_json_reads | done]|]. by destruct (av_size av). Qed.

Lemma bind_named d id i : refusals_named (bind_for_resume d id i).
Proof. unfold bind_for_resume. apply named_bind; auto with named. Qed.

(** A resumption that is refused says why with a reason the interface has a remedy
    for, whatever is stored for the file: evidence that cannot be read, several
    intents, a cancelled attempt or a reason of another version of the program
    included. *)
Theorem resume_refusals_are_named d vault_id path user_id at_ group reason :
  schedule_resume_legacy sha256 d vault_id path user_id at_ group = Raise (UploadBlocked reason) → reason ∈ REMEDIES.
Proof.
  revert reason. change (refusals_named (schedule_resume_legacy sha256 d vault_id path user_id at_ group)). unfold schedule_resume_legacy.
  apply named_bind; [unfold lock_vault; by destruct (fetchone _ _)|]. intros v.
  apply named_bind; [unfold ready_or_suspended, require_ready; destruct (_ || _); cbn; auto with named|]. intros _.
  apply named_bind; [apply describe_named|]. intros state. apply named_bind; [apply named_guard, unresumable_named|]. intros _.
  destruct (fetchone _ _) as [f|]; [|auto with named]. apply named_bind; [auto with named|]. intros _.
  apply named_bind; [apply resumable_named|]. intros what. apply named_bind; [apply evidence_named|]. intros [[size u] requested].
  apply named_bind; [by apply named_other|]. intros _. apply named_bind; [destruct what; [apply bind_named | done] | done].
Qed.
End named.

(** ** What a resumption queues *)
Section queued.
Context (sha256 : bytes → bytes).

Lemma file_idle d file : file_busy d file = false → ∀ j, j ∈ t_jobs (d_catalog d) → j_vault_file_id j = file → terminal_job j = true.
Proof.
  intros H j Hj Hf. apply (proj1 (exists_row_false _ _)) with (r := j) in H; [|done].
  rewrite (bool_decide_eq_true_2 _ Hf) in H. by apply negb_false_iff in H.
Qed.

Lemma describe_resumable d vault_id path state f :
  describe sha256 d vault_id path = Ok state → st_pending state = true → st_can_resume state = true →
  fetchone (at_path d vault_id path) (t_files (d_catalog d)) = Some f →
  file_busy d (vf_id f) = false ∧ attempt_cancelled d (vf_id f) = false.
Proof.
  unfold describe. intros E Hp Hc Hf. rewrite Hf in E. inv_ok. destruct r as [legacy reason].
  destruct (_ && _); simplify_eq. cbn in Hc. by bsimpl.
Qed.

Lemma outstanding_sent t file i :
  outstanding t file = Ok (Some i) →
  i ∈ ut_intents t ∧ ui_vault_file_id i = file ∧ ui_send_started i = true ∧ ui_settled i = false
  ∧ ∀ k, k ∈ ut_intents t → ui_vault_file_id k = file → ui_send_started k = true → ui_settled k = false → k = i.
Proof.
  unfold outstanding, outstanding_rows. set (p := fun i => _). destruct (take 2 _) as [|x [|]] eqn:E; intros H; simplify_eq.
  assert (Hs : sort_by oldest_first (select p (ut_intents t)) = [i]).
  { destruct (sort_by _ _) as [|y [|z l]]; cbn in E; by simplify_eq. }
  assert (Hin : ∀ k, k ∈ select p (ut_intents t) ↔ k = i).
  { intros k. rewrite <- (sort_by_perm oldest_first (select p (ut_intents t))), Hs, list_elem_of_singleton. done. }
  pose proof (proj2 (Hin i) eq_refl) as Hi. apply elem_of_select in Hi as [Hi Hpi]. unfold p in Hpi. bsimpl.
  split_and!; try done. intros k Hk Hf Hst Hse. apply Hin, elem_of_select. split; [done|]. unfold p.
  by rewrite (bool_decide_eq_true_2 _ Hf), Hst, Hse.
Qed.

Lemma legacy_unverified db file x :
  legacy_materialized sha256 db file = Ok (Some x) →
  x.1 ∈ t_versions db ∧ x.2 ∈ t_jobs db ∧ av_vault_file_id x.1 = file ∧ av_availability x.1 = Available ∧ av_integrity x.1 = Unverified
  ∧ j_status x.2 = "failed" ∧ j_archive_version_id x.2 = Some (av_id x.1).
Proof.
  unfold legacy_materialized. destruct (legacy_rows db file) as [|first rows] eqn:El; [done|]. intros E. inv_ok. simplify_eq.
  assert (Hx : x ∈ legacy_rows db file) by (rewrite El; left). unfold legacy_rows in Hx. rewrite sort_by_perm in Hx.
  apply elem_of_select in Hx as [Hp Hx].
  destruct x as [av j]. apply list_elem_of_In, in_prod_iff in Hp as [H1 H2]. cbn in *.
  unfold legacy_row in Hx. bsimpl. rewrite <- !list_elem_of_In in *. done.
Qed.

(** What a resumed Job rests on. *)
Definition rests_on (d : worker_db) (file : string) (u : job_upload) (version : option string) : Prop :=
  (∃ i s, i ∈ ut_intents (d_uploads d) ∧ ui_vault_file_id i = file ∧ ui_send_started i = true ∧ ui_settled i = false
     ∧ (∀ k, k ∈ ut_intents (d_uploads d) → ui_vault_file_id k = file → ui_send_started k = true → ui_settled k = false → k = i)
     ∧ from_json sha256 (ui_snapshot i) = Ok s ∧ ju_snapshot u = Some (ui_snapshot i) ∧ ju_plaintext_sha256 u = Some (us_plaintext_sha256 s)
     ∧ version = ui_archive_version_id i)
  ∨ (∃ av, av ∈ t_versions (d_catalog d) ∧ av_vault_file_id av = file ∧ av_availability av = Available ∧ version = Some (av_id av)
     ∧ ju_snapshot u = ve_upload_snapshot (av_evidence av)
     ∧ (av_integrity av = Verified
        ∨ av_integrity av = Unverified
          ∧ ∃ j, j ∈ t_jobs (d_catalog d) ∧ j_status j = "failed" ∧ j_archive_version_id j = Some (av_id av))).

Lemma resumable_rests d file what size u requested :
  resumable sha256 d file = Ok what → resumed_evidence sha256 what = Ok (size, u, requested) →
  ju_reconcile_only u = true ∧ rests_on d file u (resumed_version what).
Proof.
  unfold resumable. intros E Hu. inv_ok. destruct r as [i|].
  - simplify_eq. apply outstanding_sent in E0 as (H1 & H2 & H3 & H4 & H5). cbn in Hu. inv_ok. simplify_eq. split; [done|].
    left. exists i, r. by split_and!.
  - inv_ok. destruct r as [x|]; [|destruct (latest_verified _ _) as [v|] eqn:Ev; [|done]]; simplify_eq; cbn in Hu;
      destruct (av_size _); simplify_eq; (split; [done|]); right.
    + apply legacy_unverified in E1 as (H1 & H2 & H3 & H4 & H5 & H6 & H7). exists x.1. split_and!; try done. right. split; [done|]. by exists x.2.
    + apply latest_some in Ev as [Hv _]. apply elem_of_select in Hv as [Hv Hp]. bsimpl. exists v. split_and!; try done. by left.
Qed.

Lemma bind_for_resume_jobs d id i d' : bind_for_resume d id i = Ok d' → d_catalog d' = d_catalog d.
Proof.
  unfold bind_for_resume. intros E. inv_ok. subst d'. match goal with |- context [if ?b then d else _] => by destruct b end.
Qed.

Lemma ready_in_service v u : ready_or_suspended v = Ok u → suspended v = false.
Proof. unfold ready_or_suspended, require_ready. fold (suspended v). by destruct (suspended v). Qed.

(** Resuming an upload queues one Job that may only reconcile, for the active file
    at the path, when no other Job is at work on it, no attempt was cancelled and the
    Vault is in service; it carries the evidence of the only outstanding send of the
    file, or of an available version that is verified or that a failed upload left,
    and authorises no new send. *)
Theorem resume_queues_reconciliation_only d vault_id path user_id at_ group d' id g :
  (∀ f f', f ∈ t_files (d_catalog d) → f' ∈ t_files (d_catalog d) →
     at_path d vault_id path f = true → at_path d vault_id path f' = true → f = f') →
  schedule_resume_legacy sha256 d vault_id path user_id at_ group = Ok (d', (id, g)) →
  ∃ f v j, f ∈ t_files (d_catalog d) ∧ at_path d vault_id path f = true ∧ vf_status f = Active
    ∧ vault_row d vault_id = Some v ∧ suspended v = false
    ∧ t_jobs (d_catalog d') = t_jobs (d_catalog d) ++ [j] ∧ j_id j = id ∧ j_status j = "queued" ∧ ju_reconcile_only (j_upload j) = true
    ∧ j_vault_file_id j = vf_id f ∧ rests_on d (vf_id f) (j_upload j) (j_archive_version_id j)
    ∧ attempt_cancelled d (vf_id f) = false
    ∧ ∀ k, k ∈ t_jobs (d_catalog d) → j_vault_file_id k = vf_id f → terminal_job k = true.
Proof.
  intros Huniq. unfold schedule_resume_legacy. intros E. inv_ok. bsimpl.
  destruct (fetchone (fun f => _ && _) _) as [f|] eqn:Ef; [|done]. inv_ok. destruct r3 as [[size u] requested]. inv_ok. simplify_eq.
  apply fetchone_some in Ef as [Hf Hp]. bsimpl.
  destruct (fetchone (at_path d vault_id path) (t_files (d_catalog d))) as [f0|] eqn:Ef0; [|apply fetchone_none with (r := f) in Ef0; congruence].
  assert (f0 = f) as ->. { apply fetchone_some in Ef0 as [? ?]. by apply Huniq. }
  destruct (describe_resumable _ _ _ _ _ E2 H0 H Ef0) as [Hidle Hc]. destruct (resumable_rests _ _ _ _ _ _ E3 E4) as [Hro Hrest].
  unfold lock_vault in E0. destruct (fetchone _ (t_vaults _)) as [v|] eqn:Ev; simplify_eq.
  set (j := reconcile_job _ _ _ _ _ _ _ _ _ _ _ _) in *.
  assert (Hd : d_catalog d' = d_catalog (append_job j d)) by (destruct r2; [by eapply bind_for_resume_jobs | by simplify_eq]).
  exists f, r, j. rewrite Hd. split_and!; try done; [by eapply ready_in_service | by apply file_idle].
Qed.
End queued.

(** ** Witnesses *)

(** The send of the witness of [UploadProvenance] got lost and its Job failed. *)
Definition w_lost_db : worker_db :=
  set_catalog (set_jobs [set_status "failed" None None 9 (cj_row w_sending_job)] (d_catalog w_started_db)) w_started_db.
Definition w_resumed : result (worker_db * (Z * string)) :=
  schedule_resume_legacy w_prefix_hash w_lost_db 1 "a/b.txt" 7 10 "group".
Definition w_resumed_db : worker_db := match w_resumed with Ok (d, _) => d | _ => w_lost_db end.

Lemma resume_queues_reconciliation_only_witness :
  w_resumed = Ok (w_resumed_db, (2, "group"))
  ∧ ∃ j, t_jobs (d_catalog w_resumed_db) = t_jobs (d_catalog w_lost_db) ++ [j] ∧ ju_reconcile_only (j_upload j) = true.
Proof.
  split; [vm_compute; reflexivity|].
  destruct (resume_queues_reconciliation_only w_prefix_hash w_lost_db 1 "a/b.txt" 7 10 "group" w_resumed_db 2 "group")
    as (f & v & j & _ & _ & _ & _ & _ & Hj & _ & _ & Hr & _).
  - intros f f' Hf Hf' _ _. apply list_elem_of_singleton in Hf, Hf'. congruence.
  - vm_compute. reflexivity.
  - by exists j.
Defined.

Lemma resume_refusals_are_named_witness :
  schedule_resume_legacy w_prefix_hash w_resumed_db 1 "a/b.txt" 7 11 "other" = Raise (UploadBlocked "active_operation")
  ∧ "active_operation" ∈ REMEDIES.
Proof.
  split; [vm_compute; reflexivity|].
  apply (resume_refusals_are_named w_prefix_hash w_resumed_db 1 "a/b.txt" 7 11 "other"). vm_compute. reflexivity.
Defined.
