(* ===== verification/UploadDiscovery.v ===== *)
(** * UploadDiscovery: obligations that uploads left behind

    Models [src/app/services/upload_remediation_discovery.py]: facts about uploads
    that may need work ([capture], [drain]) and the episodes of remediation they
    become ([enroll]).  [capture] for one intent is [UploadProvenance.capture_intent].
    An episode pins the exact object, the digest expected of it and the mode of its
    verification.  A target that cannot be read, [{}] in the code, is [no_target].
    [new_id] stands for [uuid4] and [isoformat] for the text of a time; the event
    [_invalidate] appends is recorded in [ut_signals]; the clock of [drain] is the
    number of facts it leaves time for. *)
From S2P Require Import Prelude Sql PyString Json JsonText VaultPaths Schema DirtyMarks JobScheduler Lifecycle CloudDeletion Catalog UploadTables Effects S3Client S3Copy WorkerJobs LocalFiles UploadSnapshot UploadReconcile VaultMoves UploadProvenance UploadResume.
From stdpp Require Import pretty.
From Stdlib Require Import Strings.Byte.
Open Scope Z_scope.

Definition POLL_SECONDS : Z := 10.
Definition later (at_ : timestamp) : timestamp := at_ + seconds POLL_SECONDS.

(** [_sha]. *)
Definition is_sha (s : option string) : bool := match s with Some s => is_sha256 s | None => false end.

(** [_invalidate]. *)
Definition invalidate (vault_id : Z) (at_ : timestamp) (d : worker_db) : worker_db :=
  set_uploads (set_signals (ut_signals (d_uploads d) ++ [(vault_id, at_)]) (d_uploads d)) d.

(** ** Facts *)
Definition insert_fact (f : remediation_fact) (t : upload_tables) : upload_tables :=
  if exists_row (fun x => fc_target_key x =b fc_target_key f) (ut_facts t) then t else set_facts (ut_facts t ++ [f]) t.

(** The keeper of a file: the latest verified version that is available. *)
Definition keeper_of (db : catalog) (file : string) : option archive_version := latest_verified db file.

Definition captured (d : worker_db) (version_id file_id : option string) : list archive_version :=
  select (fun av => exists_row (fun f => (vf_id f =b av_vault_file_id av) && (vf_vault_id f =b av_vault_id av)) (t_files (d_catalog d))
                    && (bool_decide (Some (av_id av) = version_id)
                        || (bool_decide (Some (av_vault_file_id av) = file_id)
                            && match file_id with
                               | Some file => bool_decide (Some (av_id av) = (av_id <$> keeper_of (d_catalog d) file))
                               | None => false
                               end))) (t_versions (d_catalog d)).

(** [LEFT JOIN upload_intents]: the sent intents of a version that are not settled. *)
Definition intents_of_version (t : upload_tables) (av : archive_version) : list (option upload_intent) :=
  match select (fun i => bool_decide (ui_archive_version_id i = Some (av_id av)) && (ui_vault_id i =b av_vault_id av)
                         && (ui_vault_file_id i =b av_vault_file_id av) && ui_send_started i && negb (ui_settled i)) (ut_intents t) with
  | [] => [None]
  | l => map Some l
  end.

Definition version_fact (at_ : timestamp) (av : archive_version) (i : option upload_intent) : remediation_fact :=
  {| fc_target_key := match i with Some i => "intent:" +:+ ui_id i | None => "version:" +:+ av_id av end;
     fc_vault_id := av_vault_id av; fc_vault_file_id := av_vault_file_id av; fc_intent_id := ui_id <$> i;
     fc_archive_version_id := Some (av_id av); fc_discovered_at := at_; fc_due_at := at_ |}.

Definition capture (d : worker_db) (at_ : timestamp) (version_id file_id : option string) : worker_db :=
  let facts := flat_map (fun av => map (version_fact at_ av) (intents_of_version (d_uploads d) av)) (captured d version_id file_id) in
  set_uploads (foldl (fun t f => insert_fact f t) (d_uploads d) facts) d.

(** ** Rejections *)
Definition set_rejected (reason : string) (r : discovery_row) : discovery_row :=
  {| dc_job_id := dc_job_id r; dc_vault_id := dc_vault_id r; dc_discovered_at := dc_discovered_at r; dc_rejected_reason := Some reason |}.

Definition reject (d : worker_db) (original : option job) (at_ : timestamp) (reason : string) : worker_db :=
  match original with
  | None => d
  | Some j =>
      let t := d_uploads d in
      match fetchone (fun r => dc_job_id r =b j_id j) (ut_discovery t) with
      | None =>
          invalidate (j_vault_id j) at_
            (set_uploads (set_discovery (ut_discovery t ++ [{| dc_job_id := j_id j; dc_vault_id := j_vault_id j; dc_discovered_at := at_;
                                                               dc_rejected_reason := Some reason |}]) t) d)
      | Some r =>
          if bool_decide (dc_rejected_reason r = Some reason) then d
          else invalidate (j_vault_id j) at_
                 (set_uploads (set_discovery (update_where (fun r => dc_job_id r =b j_id j) (set_rejected reason) (ut_discovery t)) t) d)
      end
  end.

(** ** Episodes *)
Record obligation := {
  ob_file : string;
  ob_intent : option upload_intent;
  ob_version : option archive_version;
  ob_path : option file_path;
  ob_block : option reconciliation_block;
}.

Inductive looked_up := Nothing | Rejected (reason : string) | Linked (r : remediation) | Obliged (o : obligation).

Definition episode_of_original (t : upload_tables) (job_id : Z) : option remediation :=
  fetchone (fun r => exists_row (fun o => (rl_job_id o =b job_id) && (rl_remediation_id o =b rm_id r)) (ut_originals t)) (ut_remediations t).

Definition intent_row (t : upload_tables) (id : option string) (vault_id : Z) : option upload_intent :=
  if truthy id then fetchone (fun i => bool_decide (Some (ui_id i) = id) && (ui_vault_id i =b vault_id)) (ut_intents t) else None.

(** The latest sent intent of a version; a settled one only for a failed original. *)
Definition intent_of_version (t : upload_tables) (av : archive_version) (settled_too : bool) : option upload_intent :=
  latest ui_created_at
    (select (fun i => bool_decide (ui_archive_version_id i = Some (av_id av)) && (ui_vault_id i =b av_vault_id av)
                      && (ui_vault_file_id i =b av_vault_file_id av) && ui_send_started i && (settled_too || negb (ui_settled i)))
       (ut_intents t)).

Definition pick (a b : option string) : option string := if truthy a then a else b.

(** The file and what is known of it, once the intent and the version are found. *)
Definition obliged (d : worker_db) (original : option job) (v : vault) (intent : option upload_intent) (version : option archive_version)
    : looked_up :=
  let file := match intent, version with Some i, _ => ui_vault_file_id i | None, Some av => av_vault_file_id av | None, None => "" end in
  if is_none version && negb match intent with Some i => ui_send_started i | None => false end then Rejected "expected_evidence_missing"
  else if match intent with Some i => ui_vault_id i <>b va_id v | None => false end
          || match version with Some av => av_vault_file_id av <>b file | None => false end
          || match original with Some j => j_vault_file_id j <>b file | None => false end
          || negb (exists_row (fun f => (vf_id f =b file) && (vf_vault_id f =b va_id v)) (t_files (d_catalog d)))
  then Rejected "identity_changed"
  else
    let block := block_of (d_uploads d) file in
    if is_none original && negb match version with Some av => av_integrity av =b Unverified | None => false end
       && negb match intent with Some i => negb (ui_settled i) | None => false end && is_none block
    then Nothing
    else Obliged {| ob_file := file; ob_intent := intent; ob_version := version;
                    ob_path := fetchone (fun p => (fp_vault_file_id p =b file) && (fp_vault_id p =b va_id v) && is_none (fp_valid_to p))
                                 (t_paths (d_catalog d));
                    ob_block := block |}.

(** From the intent to the version, and back when only the version is known. *)
Definition with_version (d : worker_db) (original : option job) (v : vault) (intent : option upload_intent) (version_id : option string)
    : looked_up :=
  if match original, intent with
     | Some j, Some i => truthy (j_archive_version_id j) && truthy (ui_archive_version_id i)
                         && negb (bool_decide (j_archive_version_id j = ui_archive_version_id i))
     | _, _ => false
     end
  then Rejected "proof_mismatch"
  else
    let version_id := match intent with Some i => pick (ui_archive_version_id i) version_id | None => version_id end in
    let version := if truthy version_id
                   then fetchone (fun av => bool_decide (Some (av_id av) = version_id) && (av_vault_id av =b va_id v)) (t_versions (d_catalog d))
                   else None in
    let intent := match intent, version with
                  | None, Some av => intent_of_version (d_uploads d) av (is_some original)
                  | i, _ => i
                  end in
    obliged d original v intent version.

Definition look_up (d : worker_db) (original : option job) (v : vault) (intent_id version_id : option string) : looked_up :=
  let t := d_uploads d in
  match original with
  | Some j =>
      if ju_reconcile_only (j_upload j) || (j_status j <>b "failed") then Nothing
      else match episode_of_original t (j_id j) with
           | Some r => Linked r
           | None => with_version d original v (load_for_job t (j_id j)) (j_archive_version_id j)
           end
  | None =>
      match intent_row t intent_id (va_id v) with
      | Some i => if ui_settled i then with_version d None v None (pick (ui_archive_version_id i) version_id)
                  else with_version d None v (Some i) version_id
      | None => with_version d None v None version_id
      end
  end.

(** *** The evidence an episode pins *)
Record pinned_evidence := {
  pe_snapshot : option string;
  pe_expected : option string;
  pe_size : Z;
  pe_mode : string;
  pe_reason : option string;
}.

Definition or_reason (reason : option string) (other : string) : option string := if truthy reason then reason else Some other.

Section enroll.
Context (sha256 : bytes → bytes) (isoformat : timestamp → string) (new_id : upload_tables → string).

Definition original_requested (original : option job) : option string := original ≫= j_upload_verification_requested.

(** The Job that first recorded a digest for an upload of this version. *)
Definition upload_evidence_of (db : catalog) (file : string) (av : archive_version) : option job :=
  head (sort_by (fun a b => j_id a <=? j_id b)
          (select (fun j => (j_vault_file_id j =b file) && bool_decide (j_archive_version_id j = Some (av_id av)) && (j_action j =b "upload")
                            && negb (ju_reconcile_only (j_upload j)) && is_some (ju_plaintext_sha256 (j_upload j))) (t_jobs db))).

Definition read_snapshot (raw : string) (version : option archive_version) (e : pinned_evidence) : result pinned_evidence :=
  match from_json sha256 raw with
  | Ok s =>
      Ok {| pe_snapshot := pe_snapshot e; pe_expected := Some (us_plaintext_sha256 s); pe_size := us_size s; pe_mode := pe_mode e;
            pe_reason := match version with
                         | Some av => if negb (bool_decide (av_size av = Some (us_size s))) then Some "proof_mismatch" else pe_reason e
                         | None => pe_reason e
                         end |}
  | Raise x => if evidence_error x
               then Ok {| pe_snapshot := pe_snapshot e; pe_expected := pe_expected e; pe_size := pe_size e; pe_mode := pe_mode e;
                          pe_reason := Some "proof_mismatch" |}
               else Raise x
  end.

Definition gather_evidence (d : worker_db) (original : option job) (o : obligation) : result pinned_evidence :=
  let version := ob_version o in
  let snapshot := match ob_intent o, version with
                  | Some i, _ => Some (ui_snapshot i)
                  | None, Some av => pick (ve_upload_snapshot (av_evidence av)) (original ≫= (fun j => ju_snapshot (j_upload j)))
                  | None, None => None
                  end in
  let size := match version, original with
              | Some av, _ => or_default (av_size av) 0
              | None, Some j => j_total_bytes j
              | None, None => 0
              end in
  let mode := match ob_intent o, version with
              | Some i, _ => ui_requested i
              | None, Some av => or_text (pick (ve_verification_requested (av_evidence av)) (original_requested original)) "read_back"
              | None, None => "read_back"
              end in
  let e := {| pe_snapshot := snapshot; pe_expected := None; pe_size := size; pe_mode := mode; pe_reason := None |} in
  let with_expected x mode := {| pe_snapshot := snapshot; pe_expected := x; pe_size := size; pe_mode := mode; pe_reason := None |} in
  if truthy snapshot then read_snapshot (or_default snapshot "") version e
  else match original, version with
       | Some j, _ => Ok (with_expected (ju_plaintext_sha256 (j_upload j)) mode)
       | None, Some av =>
           if av_integrity av =b Verified then Ok (with_expected (av_plaintext_sha256 av) mode)
           else match upload_evidence_of (d_catalog d) (ob_file o) av with
                | Some j => if av_origin av =b Upload
                            then Ok (with_expected (ju_plaintext_sha256 (j_upload j)) (or_text (j_upload_verification_requested j) "read_back"))
                            else Ok e
                | None => Ok e
                end
       | None, None => Raise (TypeError "'NoneType' object is not subscriptable")
       end.

Definition check_expected (original : option job) (o : obligation) (e : pinned_evidence) : option string :=
  let reason := if is_sha (pe_expected e) then pe_reason e else or_reason (pe_reason e) "expected_evidence_missing" in
  let reason := match original with
                | Some j => if truthy (ju_plaintext_sha256 (j_upload j)) && negb (bool_decide (ju_plaintext_sha256 (j_upload j) = pe_expected e))
                            then Some "proof_mismatch" else reason
                | None => reason
                end in
  match ob_version o with
  | Some av => if (av_integrity av =b Verified) && negb (bool_decide (av_plaintext_sha256 av = pe_expected e)) then Some "proof_mismatch" else reason
  | None => reason
  end.

(** *** The target *)
Definition no_target : pinned_target :=
  {| tg_vault_id := 0; tg_vault_file_id := ""; tg_bucket := ""; tg_prefix := ""; tg_key := ""; tg_provider := None; tg_path := "";
     tg_path_since := None; tg_source_root := ""; tg_root_identity := None; tg_root_identity_version := None |}.

Definition pin_target (d : worker_db) (original : option job) (v : vault) (o : obligation) (reason : option string)
    : result (pinned_target * string * option string) :=
  match ob_intent o, ob_version o with
  | Some i, _ =>
      let p := ui_target i in
      if (tg_vault_id p <>b va_id v) || (tg_vault_file_id p <>b ob_file o) || (tg_path p =b "") || (tg_key p =b "")
      then Ok (no_target, "intent:" +:+ ui_id i, Some "proof_mismatch")
      else Ok (p, "intent:" +:+ ui_id i, reason)
  | None, Some av =>
      let admitted := match original with Some j => j_path j | None => or_default (fp_path <$> ob_path o) "" end in
      key ← expected_cloud_key admitted (va_s3_prefix v);
      Ok ({| tg_vault_id := va_id v; tg_vault_file_id := ob_file o; tg_bucket := vault_bucket d v; tg_prefix := va_s3_prefix v;
             tg_key := or_default (av_object_key av) ""; tg_provider := None; tg_path := admitted;
             tg_path_since := fp_valid_from <$> ob_path o; tg_source_root := va_source_root v; tg_root_identity := va_root_identity v;
             tg_root_identity_version := va_root_identity_version v |},
          "version:" +:+ av_id av,
          if negb (bool_decide (av_object_key av = Some key)) then Some "identity_changed" else reason)
  | None, None => Raise (TypeError "'NoneType' object is not subscriptable")
  end.

Definition path_reason (o : obligation) (p : pinned_target) (reason : option string) : option string :=
  match ob_path o with
  | Some path => if fp_path path =b tg_path p then reason else or_reason reason "identity_changed"
  | None => or_reason reason "identity_changed"
  end.

Definition version_reason (db : catalog) (o : obligation) (reason : option string) : option string :=
  match ob_version o with
  | Some av =>
      let newer := exists_row (fun k => (av_vault_file_id k =b ob_file o) && (av_integrity k =b Verified) && (av_availability k =b Available)
                                        && (av_version_number av <? av_version_number k)) (t_versions db) in
      if (av_availability av =b Purged) || newer then or_reason reason "target_superseded"
      else if av_integrity av =b Mismatch then Some "proof_mismatch"
      else reason
  | None => reason
  end.

Definition upload_cancelled (d : worker_db) (o : obligation) : bool :=
  exists_row (fun j => (j_vault_file_id j =b ob_file o) && (j_action j =b "upload") && (j_status j =b "cancelled")
                       && (match ob_version o with Some av => bool_decide (j_archive_version_id j = Some (av_id av)) | None => false end
                           || match ob_intent o with
                              | Some i => exists_row (fun b => (ij_job_id b =b j_id j) && (ij_intent_id b =b ui_id i)) (ut_intent_jobs (d_uploads d))
                              | None => false
                              end)) (t_jobs (d_catalog d)).

(** *** The row *)
Definition set_episode (state : string) (reason : option string) (at_ : timestamp) (r : remediation) : remediation :=
  {| rm_id := rm_id r; rm_target_key := rm_target_key r; rm_vault_id := rm_vault_id r; rm_vault_file_id := rm_vault_file_id r;
     rm_intent_id := rm_intent_id r; rm_archive_version_id := rm_archive_version_id r; rm_target := rm_target r;
     rm_expected_sha256 := rm_expected_sha256 r; rm_snapshot := rm_snapshot r; rm_requested_mode := rm_requested_mode r; rm_size := rm_size r;
     rm_state := state; rm_phase := rm_phase r; rm_reason := reason; rm_retry_count := rm_retry_count r; rm_due_at := rm_due_at r;
     rm_current_job_id := rm_current_job_id r; rm_resolved_by_job_id := rm_resolved_by_job_id r; rm_created_at := rm_created_at r;
     rm_updated_at := at_; rm_resolved_at := rm_resolved_at r; rm_cleanup_inventory_job_id := rm_cleanup_inventory_job_id r |}.

Definition update_episodes (p : remediation → bool) (f : remediation → remediation) (d : worker_db) : worker_db :=
  set_uploads (set_remediations (update_where p f (ut_remediations (d_uploads d))) (d_uploads d)) d.

Definition episode_by_id (d : worker_db) (id : string) : option remediation :=
  fetchone (fun r => rm_id r =b id) (ut_remediations (d_uploads d)).

(** [ORDER BY (state<>'resolved') DESC, created_at DESC, id DESC]. *)
Definition open_then_newest (a b : remediation) : bool :=
  let oa := rm_state a <>b "resolved" in
  let ob := rm_state b <>b "resolved" in
  (oa && negb ob)
  || (bool_decide (oa = ob)
      && ((rm_created_at b <? rm_created_at a) || ((rm_created_at a =? rm_created_at b) && String.leb (rm_id b) (rm_id a)))).

Definition episode_candidates (d : worker_db) (o : obligation) (key : string) : list remediation :=
  sort_by open_then_newest
    (select (fun r => (rm_vault_file_id r =b ob_file o)
                      && ((rm_target_key r =b key)
                          || match ob_intent o with Some i => bool_decide (rm_intent_id r = Some (ui_id i)) | None => false end
                          || match ob_version o with Some av => bool_decide (rm_archive_version_id r = Some (av_id av)) | None => false end))
       (ut_remediations (d_uploads d))).

Definition same_obligation (e : pinned_evidence) (p : pinned_target) (r : remediation) : bool :=
  bool_decide (rm_expected_sha256 r = pe_expected e) && bool_decide (rm_snapshot r = pe_snapshot e) && bool_decide (rm_target r = p)
  && (rm_requested_mode r =b pe_mode e) && (rm_size r =b pe_size e).

Inductive choice := Contradicts (r : remediation) | Continues (r : remediation) | Fresh.

Fixpoint choose_episode (original : option job) (block : option reconciliation_block) (e : pinned_evidence) (p : pinned_target)
    (reason : option string) (l : list remediation) : choice :=
  match l with
  | [] => Fresh
  | r :: l =>
      let same := same_obligation e p r in
      if rm_state r <>b "resolved" then
        if negb same || bool_decide (reason = Some "proof_mismatch") then Contradicts r else Continues r
      else if same && negb (truthy reason)
              && match original with
                 | Some j => match rm_resolved_at r with Some t => j_updated_at j <=? t | None => false end
                 | None => true
                 end
              && (is_some original || is_none block)
      then Continues r
      else choose_episode original block e p reason l
  end.

Definition new_key (original : option job) (block : option reconciliation_block) (at_ : timestamp) (key : string) : string :=
  key +:+ match block, original with
          | Some b, _ => ":cleanup:" +:+ isoformat (rb_updated_at b)
          | None, Some j => ":failure:" +:+ pretty (j_id j)
          | None, None => ":obligation:" +:+ isoformat at_
          end.

Definition new_episode (v : vault) (o : obligation) (e : pinned_evidence) (p : pinned_target) (id key state : string) (reason : option string)
    (budget : Z) (at_ : timestamp) : remediation :=
  {| rm_id := id; rm_target_key := key; rm_vault_id := va_id v; rm_vault_file_id := ob_file o; rm_intent_id := ui_id <$> ob_intent o;
     rm_archive_version_id := av_id <$> ob_version o; rm_target := p; rm_expected_sha256 := pe_expected e; rm_snapshot := pe_snapshot e;
     rm_requested_mode := pe_mode e; rm_size := pe_size e; rm_state := state;
     rm_phase := match ob_version o with Some av => if av_integrity av =b Verified then "cleanup" else "verification" | None => "verification" end;
     rm_reason := reason; rm_retry_count := budget; rm_due_at := at_; rm_current_job_id := None; rm_resolved_by_job_id := None;
     rm_created_at := at_; rm_updated_at := at_; rm_resolved_at := None; rm_cleanup_inventory_job_id := None |}.

(** The unique columns: the id, the key, and the exact target among open episodes. *)
Definition episode_conflict (r x : remediation) : bool :=
  (rm_id x =b rm_id r) || (rm_target_key x =b rm_target_key r)
  || ((rm_state x <>b "resolved")
      && ((is_some (rm_intent_id r) && bool_decide (rm_intent_id x = rm_intent_id r))
          || (is_some (rm_archive_version_id r) && bool_decide (rm_archive_version_id x = rm_archive_version_id r)))).

Definition insert_episode (r : remediation) (d : worker_db) : result worker_db :=
  raise! IntegrityError "upload_remediations" when exists_row (episode_conflict r) (ut_remediations (d_uploads d));
  Ok (set_uploads (set_remediations (ut_remediations (d_uploads d) ++ [r]) (d_uploads d)) d).

Definition link_original (original : option job) (r : remediation) (v : vault) (file : string) (d : worker_db) : worker_db :=
  match original with
  | Some j =>
      let t := d_uploads d in
      if exists_row (fun o => rl_job_id o =b j_id j) (ut_originals t) then d
      else set_uploads (set_originals (ut_originals t ++ [{| rl_job_id := j_id j; rl_remediation_id := rm_id r; rl_vault_file_id := file;
                                                             rl_vault_id := va_id v |}]) t) d
  | None => d
  end.

(** The end of [enroll]: the failed Job is linked, unless the evidence contradicts. *)
Definition conclude_enrolment (d : worker_db) (original : option job) (v : vault) (o : obligation) (reason : option string) (at_ : timestamp)
    (r : remediation) : worker_db :=
  invalidate (va_id v) at_
    (if is_some original && bool_decide (reason = Some "proof_mismatch") then reject d original at_ "proof_mismatch"
     else link_original original r v (ob_file o) d).

Definition enroll_obligation (d : worker_db) (original : option job) (v : vault) (at_ : timestamp) (o : obligation)
    : result (worker_db * option remediation) :=
  e ← gather_evidence d original o;
  '(p, key, reason) ← pin_target d original v o (check_expected original o e);
  let reason := version_reason (d_catalog d) o (path_reason o p reason) in
  let cancelled := upload_cancelled d o in
  let budget := match original with Some j => ju_retry_count (j_upload j) | None => 0 end in
  let state := if cancelled then "cancelled" else if truthy reason || (8 <=? budget) then "blocked" else "pending" in
  let reason := if (8 <=? budget) && negb (truthy reason) && negb cancelled then Some "retry_budget_exhausted" else reason in
  let candidates := episode_candidates d o key in
  match choose_episode original (ob_block o) e p reason candidates with
  | Contradicts r =>
      let d := update_episodes (fun x => (rm_id x =b rm_id r) && (rm_state x <>b "cancelled")) (set_episode "blocked" (Some "proof_mismatch") at_) d in
      let d := reject d original at_ "proof_mismatch" in
      Ok (d, episode_by_id d (rm_id r))
  | Continues r =>
      if (rm_state r <>b "resolved") && truthy reason && (rm_state r <>b "cancelled") then
        let d := update_episodes (fun x => rm_id x =b rm_id r) (set_episode "blocked" reason at_) d in
        Ok (conclude_enrolment d original v o reason at_ r, episode_by_id d (rm_id r))
      else Ok (conclude_enrolment d original v o reason at_ r, Some r)
  | Fresh =>
      let key := if bool_decide (map rm_id candidates = []) then key else new_key original (ob_block o) at_ key in
      let r := new_episode v o e p (new_id (d_uploads d)) key state reason budget at_ in
      d ← insert_episode r d;
      Ok (conclude_enrolment d original v o reason at_ r, Some r)
  end.

Definition enroll (d : worker_db) (original : option job) (v : vault) (at_ : timestamp) (intent_id version_id : option string)
    : result (worker_db * option remediation) :=
  match look_up d original v intent_id version_id with
  | Nothing => Ok (d, None)
  | Rejected reason => Ok (reject d original at_ reason, None)
  | Linked r => Ok (d, Some r)
  | Obliged o => enroll_obligation d original v at_ o
  end.

(** ** Draining the facts of a Vault *)
Definition fact_order (a b : remediation_fact) : bool :=
  (fc_due_at a <? fc_due_at b) || ((fc_due_at a =? fc_due_at b) && String.leb (fc_target_key a) (fc_target_key b)).

Definition set_fact_due (at_ : timestamp) (f : remediation_fact) : remediation_fact :=
  {| fc_target_key := fc_target_key f; fc_vault_id := fc_vault_id f; fc_vault_file_id := fc_vault_file_id f; fc_intent_id := fc_intent_id f;
     fc_archive_version_id := fc_archive_version_id f; fc_discovered_at := fc_discovered_at f; fc_due_at := at_ |}.

Definition due_facts (t : upload_tables) (vault_id : Z) (at_ : timestamp) (limit : nat) (file : option string) : list remediation_fact :=
  take limit (sort_by fact_order
    (select (fun f => (fc_vault_id f =b vault_id) && (fc_due_at f <=? at_)
                      && match file with Some file => fc_vault_file_id f =b file | None => true end) (ut_facts t))).

Definition drain_fact (v : vault) (at_ : timestamp) (d : worker_db) (f : remediation_fact) : result worker_db :=
  let t := d_uploads d in
  if file_busy d (fc_vault_file_id f)
  then Ok (set_uploads (set_facts (update_where (fun x => fc_target_key x =b fc_target_key f) (set_fact_due (later at_)) (ut_facts t)) t) d)
  else
    '(d, _) ← enroll d None v at_ (fc_intent_id f) (fc_archive_version_id f);
    Ok (set_uploads (set_facts (delete_where (fun x => fc_target_key x =b fc_target_key f) (ut_facts (d_uploads d))) (d_uploads d)) d).

(** [in_time]: how many facts are looked at before the deadline. *)
Definition drain (d : worker_db) (v : vault) (at_ : timestamp) (limit : nat) (file : option string) (in_time : nat) : result worker_db :=
  foldM_r (drain_fact v at_) d (take in_time (due_facts (d_uploads d) (va_id v) at_ limit file)).
End enroll.
