(* ===== verification/UploadRemediation.v ===== *)
(** * UploadRemediation: the life of an episode

    Models [src/app/services/upload_remediation.py]: admission of a Job that may only
    reconcile ([admit_episode], [intercept_upload], [schedule_resume], [retry_vault]), the
    transitions an episode follows with its Job ([transition], [release_for_rearm],
    [record_cleanup], [resolve_void]), the passes of the sweep, and what the interface
    is told.  An operation is a function of the tables that may raise; its caller runs
    it in one transaction.  Row locks are left out, except that a locked Vault is
    skipped by the sweep; the one-second clock of a pass is the number of Vaults and
    rows it leaves time for.  [observe] only sets gauges and is not modelled. *)
From S2P Require Import Prelude Sql PyString Json JsonText VaultPaths Schema DirtyMarks JobScheduler Notifications OperationPolicies Lifecycle CloudDeletion Catalog CatalogVersions UploadTables Effects S3Client S3Copy WorkerJobs LocalFiles UploadSnapshot UploadReconcile VaultMoves UploadProvenance UploadResume UploadDiscovery.
From Stdlib Require Import Strings.Byte.
Open Scope Z_scope.

Definition VAULT_BATCH : nat := 10.
Definition TARGET_BATCH : nat := 10.

(** [_void], and its twin in SQL. *)
Definition void (t : upload_tables) (r : remediation) : bool := proven_absent t (rm_intent_id r) && unsent t (rm_intent_id r).

Definition VOID_SQL (t : upload_tables) (r : remediation) : bool :=
  match rm_intent_id r with
  | Some i =>
      exists_row (fun p => (rc_intent_id p =b i)
                           && (canonical (JDict (rc_response p)) =b canonical (JDict [("NoWriteOperation", JStr "ProvenAbsent")]))) (ut_receipts t)
      && exists_row (fun u => (ui_id u =b i) && negb (ui_send_started u) && is_none (ui_archive_version_id u)) (ut_intents t)
  | None => false
  end.

Lemma VOID_SQL_void t r : rm_intent_id r ≠ Some "" → VOID_SQL t r = void t r.
Proof.
  unfold VOID_SQL, void, proven_absent, unsent. destruct (rm_intent_id r) as [i|]; [|done]. intros Hi.
  assert (Hb : bool_decide (i = "") = false) by (apply bool_decide_eq_false; congruence). rewrite Hb. done.
Qed.

(** [RESOLUTION_SQL]: an episode of this Job was resolved by a completed Job on the
    exact keeper, and nothing about this Job contradicts it. *)
Definition RESOLUTION_SQL (d : worker_db) (original : job) : bool :=
  let t := d_uploads d in
  exists_row (fun r =>
    exists_row (fun o => (rl_job_id o =b j_id original) && (rl_remediation_id o =b rm_id r)) (ut_originals t ++ ut_remediation_jobs t)
    && (rm_state r =b "resolved")
    && exists_row (fun b => (rl_remediation_id b =b rm_id r) && bool_decide (Some (rl_job_id b) = rm_resolved_by_job_id r)
         && exists_row (fun j => (j_id j =b rl_job_id b) && (j_status j =b "completed")
              && (ju_reconcile_only (j_upload j)
                  || match rm_intent_id r with
                     | Some i => exists_row (fun p => (rc_intent_id p =b i) && (canonical (JDict (rc_response p))
                                   =b canonical (JDict [("NoWriteOperation", JStr "ProvenAbsent")]))) (ut_receipts t)
                     | None => false
                     end)
              && is_some (rm_archive_version_id r) && bool_decide (j_archive_version_id j = rm_archive_version_id r)) (t_jobs (d_catalog d)))
         (ut_remediation_jobs t)
    && exists_row (fun c => bool_decide (Some (cv_job_id c) = rm_cleanup_inventory_job_id r) && bool_decide (cv_keeper_id c = rm_archive_version_id r)
                            && is_some (cv_completed_at c)) (ut_inventories t)
    && (is_none (j_archive_version_id original) || bool_decide (j_archive_version_id original = rm_archive_version_id r))
    && (is_none (ju_plaintext_sha256 (j_upload original)) || bool_decide (ju_plaintext_sha256 (j_upload original) = rm_expected_sha256 r)))
    (ut_remediations t).

Section remediation.
Context (sha256 : bytes → bytes) (isoformat : timestamp → string) (new_id : upload_tables → string).
Notation enroll := (enroll sha256 isoformat new_id).
Notation drain := (drain sha256 isoformat new_id).

(** ** Discovery *)
Definition capture_failure (d : worker_db) (job_id : Z) (at_ : timestamp) : worker_db :=
  let t := d_uploads d in
  match fetchone (fun j => (j_id j =b job_id) && (j_action j =b "upload") && (j_status j =b "failed") && negb (ju_reconcile_only (j_upload j))
                           && negb (exists_row (fun b => rl_job_id b =b j_id j) (ut_remediation_jobs t))
                           && (is_some (j_archive_version_id j)
                               || exists_row (fun i => ui_send_started i
                                                       && exists_row (fun b => (ij_intent_id b =b ui_id i) && (ij_job_id b =b j_id j)) (ut_intent_jobs t))
                                    (ut_intents t))) (t_jobs (d_catalog d)) with
  | Some j =>
      if exists_row (fun r => dc_job_id r =b j_id j) (ut_discovery t) then d
      else set_uploads (set_discovery (ut_discovery t ++ [{| dc_job_id := j_id j; dc_vault_id := j_vault_id j; dc_discovered_at := at_;
                                                             dc_rejected_reason := None |}]) t) d
  | None => d
  end.

Definition by_job_id (a b : job) : bool := j_id a <=? j_id b.

Definition undiscovered (d : worker_db) (file : string) : list job :=
  let t := d_uploads d in
  take TARGET_BATCH (sort_by by_job_id
    (select (fun j => (j_vault_file_id j =b file) && (j_action j =b "upload") && (j_status j =b "failed") && negb (ju_reconcile_only (j_upload j))
                      && negb (exists_row (fun o => rl_job_id o =b j_id j) (ut_originals t))
                      && negb (exists_row (fun q => (dc_job_id q =b j_id j) && is_some (dc_rejected_reason q)) (ut_discovery t))
                      && (is_some (j_archive_version_id j)
                          || exists_row (fun i => (ui_original_job_id i =b j_id j) && ui_send_started i) (ut_intents t)))
       (t_jobs (d_catalog d)))).

Definition enroll_original (v : vault) (at_ : timestamp) (d : worker_db) (original : job) : result worker_db :=
  '(d, _) ← enroll d (Some original) v at_ None None; Ok d.

Definition discover_file (d : worker_db) (v : vault) (file : string) (at_ : timestamp) : result worker_db :=
  d ← foldM_r (enroll_original v at_) d (undiscovered d file);
  let d := if is_some (block_of (d_uploads d) file) then capture d at_ None (Some file) else d in
  drain d v at_ TARGET_BATCH (Some file) TARGET_BATCH.

(** ** Admission *)
Definition source_failing (db : catalog) (vault_id : Z) : bool :=
  match fetchone (fun h => h.1 =b vault_id) (t_health db) with
  | Some (_, components) => match fetchone (fun c => c.1 =b "source") components with Some (_, error) => truthy error | None => false end
  | None => false
  end.

(** A sent intent of the file that is not settled, other than the one of the episode. *)
Definition unsettled_send (t : upload_tables) (r : remediation) : bool :=
  exists_row (fun i => (ui_vault_file_id i =b rm_vault_file_id r) && ui_send_started i && negb (ui_settled i)
                       && negb (bool_decide (Some (ui_id i) = rm_intent_id r))
                       && match rm_intent_id r with
                          | None => true
                          | Some own => exists_row (fun x => (ui_id x =b own) && ui_settled x) (ut_intents t)
                          end) (ut_intents t).

Definition suspension (d : worker_db) (r : remediation) (v : vault) (automatic : bool) : option string :=
  let pinned := rm_target r in
  if suspended v then Some "vault_suspended"
  else if root_changed v pinned then Some "identity_changed"
  else match file_and_path d (rm_vault_file_id r) (va_id v) with
       | Some (f, p) =>
           if (vf_status f <>b Active) || (fp_path p <>b tg_path pinned) || negb (bool_decide (Some (fp_valid_from p) = tg_path_since pinned))
           then Some "identity_changed"
           else if truthy (local_copy_of (t_copies (d_catalog d)) (rm_vault_file_id r) ≫= lc_cloud_only_version_id) then Some "cloud_only_conflict"
           else if unsettled_send (d_uploads d) r then Some "active_operation"
           else if file_busy d (rm_vault_file_id r) then Some "active_operation"
           else if exists_row (fun i => (cdi_vault_file_id i =b rm_vault_file_id r) && (cdi_status i =b "pending")) (t_items (d_catalog d))
           then Some "pending_deletion"
           else if source_failing (d_catalog d) (va_id v) then Some "source_volume_unavailable"
           else if automatic then
             let policy := get_policy (d_catalog d) (va_id v) in
             if negb (auto_upload policy) || negb (auto_upload_path_is_included (tg_path pinned) policy) then Some "protection_paused" else None
           else None
       | None => Some "identity_changed"
       end.

Definition set_suspended (reason : string) (at_ : timestamp) (r : remediation) : remediation :=
  let r := set_episode "suspended" (Some reason) at_ r in
  {| rm_id := rm_id r; rm_target_key := rm_target_key r; rm_vault_id := rm_vault_id r; rm_vault_file_id := rm_vault_file_id r;
     rm_intent_id := rm_intent_id r; rm_archive_version_id := rm_archive_version_id r; rm_target := rm_target r;
     rm_expected_sha256 := rm_expected_sha256 r; rm_snapshot := rm_snapshot r; rm_requested_mode := rm_requested_mode r; rm_size := rm_size r;
     rm_state := rm_state r; rm_phase := rm_phase r; rm_reason := rm_reason r; rm_retry_count := rm_retry_count r; rm_due_at := later at_;
     rm_current_job_id := rm_current_job_id r; rm_resolved_by_job_id := rm_resolved_by_job_id r; rm_created_at := rm_created_at r;
     rm_updated_at := rm_updated_at r; rm_resolved_at := rm_resolved_at r; rm_cleanup_inventory_job_id := rm_cleanup_inventory_job_id r |}.

Definition set_admitted (job_id : Z) (updated : option timestamp) (reason : option string) (r : remediation) : remediation :=
  {| rm_id := rm_id r; rm_target_key := rm_target_key r; rm_vault_id := rm_vault_id r; rm_vault_file_id := rm_vault_file_id r;
     rm_intent_id := rm_intent_id r; rm_archive_version_id := rm_archive_version_id r; rm_target := rm_target r;
     rm_expected_sha256 := rm_expected_sha256 r; rm_snapshot := rm_snapshot r; rm_requested_mode := rm_requested_mode r; rm_size := rm_size r;
     rm_state := "queued"; rm_phase := rm_phase r; rm_reason := reason; rm_retry_count := rm_retry_count r; rm_due_at := rm_due_at r;
     rm_current_job_id := Some job_id; rm_resolved_by_job_id := rm_resolved_by_job_id r; rm_created_at := rm_created_at r;
     rm_updated_at := or_default updated (rm_updated_at r); rm_resolved_at := rm_resolved_at r;
     rm_cleanup_inventory_job_id := rm_cleanup_inventory_job_id r |}.

Definition insert_link (job_id : Z) (episode_id file : string) (vault_id : Z) (d : worker_db) : result worker_db :=
  let t := d_uploads d in
  raise! IntegrityError "upload_remediation_jobs" when exists_row (fun b => rl_job_id b =b job_id) (ut_remediation_jobs t);
  Ok (set_uploads (set_remediation_jobs (ut_remediation_jobs t ++ [{| rl_job_id := job_id; rl_remediation_id := episode_id;
        rl_vault_file_id := file; rl_vault_id := vault_id |}]) t) d).

(** The row of an exact version that is gone or contradicts says why. *)
Definition version_block (db : catalog) (r : remediation) : result (option string) :=
  if truthy (rm_archive_version_id r) then
    match fetchone (fun av => bool_decide (Some (av_id av) = rm_archive_version_id r)) (t_versions db) with
    | Some av =>
        Ok (if (av_availability av <>b Available) || (av_integrity av =b Mismatch)
            then Some (if av_integrity av =b Mismatch then "proof_mismatch"
                       else if av_availability av =b Purged then "target_superseded" else "target_unavailable")
            else None)
    | None => Raise (TypeError "'NoneType' object is not subscriptable")
    end
  else Ok None.

Definition bind_intent (d : worker_db) (job_id : Z) (r : remediation) : result worker_db :=
  if truthy (rm_intent_id r) then
    match fetchone (fun i => bool_decide (Some (ui_id i) = rm_intent_id r)) (ut_intents (d_uploads d)) with
    | Some i => bind_for_resume d job_id i
    | None => Raise (TypeError "'NoneType' object is not subscriptable")
    end
  else Ok d.

Definition refused_at_once (t : upload_tables) (r : remediation) (explicit : bool) : bool :=
  (rm_state r ∈b ["cancelled"; "resolved"; "queued"; "retrying"]) || ((rm_state r =b "blocked") && negb explicit) || void t r
  || (explicit && match rm_reason r with Some reason => reason ∈b ["proof_mismatch"; "expected_evidence_missing"; "target_superseded"] | None => false end).

Definition attempt_running (d : worker_db) (r : remediation) : bool :=
  match rm_current_job_id r ≫= job_by_id d with Some j => negb (j_status j ∈b TERMINAL_JOB_STATUSES) | None => false end.

(** The Job of the episode, its links and its intent. *)
Definition queue_attempt (d : worker_db) (r : remediation) (v : vault) (user_id : Z) (at_ : timestamp) (automatic : bool) (group : string)
    : result (worker_db * option (Z * string)) :=
  if exists_row (fun j => (j_vault_file_id j =b rm_vault_file_id r) && job_is_active j) (t_jobs (d_catalog d)) then Ok (d, None)
  else
    let id := next_id (map j_id (t_jobs (d_catalog d))) in
    let job := reconcile_job id (va_id v) (rm_vault_file_id r) (tg_path (rm_target r)) (rm_archive_version_id r) (Some user_id) at_ group
                 (if automatic then "automatic" else "manual") (rm_size r)
                 {| ju_plaintext_sha256 := rm_expected_sha256 r; ju_snapshot := rm_snapshot r; ju_reconcile_only := true;
                    ju_retry_count := rm_retry_count r |} (Some (rm_requested_mode r)) in
    d ← bind_intent (append_job job d) id r;
    d ← insert_link id (rm_id r) (rm_vault_file_id r) (va_id v) d;
    let d := update_episodes (fun x => rm_id x =b rm_id r) (set_admitted id (Some at_) None) d in
    Ok (invalidate (va_id v) at_ d, Some (id, group)).

Definition admit_episode (d : worker_db) (episode_id : string) (v : vault) (user_id : Z) (at_ : timestamp) (automatic explicit : bool)
    (group_id : option string) : result (worker_db * option (Z * string)) :=
  match episode_by_id d episode_id with
  | None => Raise (TypeError "'NoneType' object is not subscriptable")
  | Some r =>
      let this := fun x => rm_id x =b rm_id r in
      if refused_at_once (d_uploads d) r explicit || attempt_running d r then Ok (d, None)
      else if original_cancelled d (rm_id r) then Ok (update_episodes this (fun x => set_episode "cancelled" (rm_reason x) at_ x) d, None)
      else match suspension d r v automatic with
           | Some reason => Ok (update_episodes this (set_suspended reason at_) d, None)
           | None =>
               blocked_by ← version_block (d_catalog d) r;
               match blocked_by with
               | Some reason => Ok (update_episodes this (set_episode "blocked" (Some reason) at_) d, None)
               | None => queue_attempt d r v user_id at_ automatic (or_text group_id (new_id (d_uploads d)))
               end
           end
  end.

Definition oldest_episode (a b : remediation) : bool :=
  (rm_created_at a <? rm_created_at b) || ((rm_created_at a =? rm_created_at b) && String.leb (rm_id a) (rm_id b)).

Definition open_of_file (t : upload_tables) (file : string) : list remediation :=
  take 8 (sort_by oldest_episode (select (fun r => (rm_vault_file_id r =b file) && (rm_state r <>b "resolved")) (ut_remediations t))).

Definition no_row {A} : result A := Raise (TypeError "'NoneType' object is not subscriptable").

Definition intercept_upload (d : worker_db) (vault_id : Z) (file : string) (user_id : Z) (at_ : timestamp) (automatic : bool)
    (group_id : option string) : result (worker_db * bool * option (Z * string)) :=
  match vault_row d vault_id with
  | None => no_row
  | Some v =>
      d ← discover_file d v file at_;
      match fetchone (fun r => negb (void (d_uploads d) r)) (open_of_file (d_uploads d) file) with
      | None => Ok (d, false, None)
      | Some r => '(d, admitted) ← admit_episode d (rm_id r) v user_id at_ automatic false group_id; Ok (d, true, admitted)
      end
  end.

Definition refusal_reason (d : worker_db) (episode_id : string) : result string :=
  match episode_by_id d episode_id with
  | None => no_row
  | Some r =>
      Ok (if rm_state r =b "cancelled" then "owner_cancelled"
          else if rm_state r =b "resolved" then "already_resolved"
          else if file_busy d (rm_vault_file_id r) || (rm_state r ∈b ["queued"; "retrying"]) then "active_operation"
          else named_reason (rm_reason r))
  end.

Definition set_job_evidence (r : remediation) (j : job) : job :=
  {| j_id := j_id j; j_vault_id := j_vault_id j; j_vault_file_id := j_vault_file_id j; j_archive_version_id := j_archive_version_id j;
     j_path := j_path j; j_action := j_action j; j_status := j_status j; j_origin := j_origin j; j_message := j_message j;
     j_message_key := j_message_key j; j_message_params := j_message_params j; j_requested_by := j_requested_by j;
     j_requested_at := j_requested_at j; j_updated_at := j_updated_at j; j_group_id := j_group_id j; j_group_path := j_group_path j;
     j_total_bytes := j_total_bytes j; j_transferred_bytes := j_transferred_bytes j; j_reason := j_reason j;
     j_confirmation_phrase := j_confirmation_phrase j; j_restore_tier := j_restore_tier j; j_restore_days := j_restore_days j;
     j_target_storage_class := j_target_storage_class j; j_upload_verification_requested := Some (rm_requested_mode r);
     j_pending_until := j_pending_until j; j_retry_after := j_retry_after j; j_claim_token := j_claim_token j; j_claimed_at := j_claimed_at j;
     j_claim_expires_at := j_claim_expires_at j;
     j_upload := {| ju_plaintext_sha256 := rm_expected_sha256 r; ju_snapshot := rm_snapshot r; ju_reconcile_only := ju_reconcile_only (j_upload j);
                    ju_retry_count := rm_retry_count r |} |}.

Definition update_jobs (p : job → bool) (f : job → job) (d : worker_db) : worker_db :=
  set_catalog (set_jobs (update_where p f (t_jobs (d_catalog d))) (d_catalog d)) d.

(** No episode yet: the explicit resumption of a block a scan found gets one. *)
Definition resume_block (d : worker_db) (v : vault) (path : string) (user_id : Z) (at_ : timestamp)
    : result (worker_db * (Z * string)) :=
  '(d, queued) ← schedule_resume_legacy sha256 d (va_id v) path user_id at_ (new_id (d_uploads d));
  match job_by_id d queued.1 with
  | None => no_row
  | Some j =>
      '(d, episode) ← enroll d None v at_ (ui_id <$> load_for_job (d_uploads d) (j_id j)) (j_archive_version_id j);
      match episode with
      | None => blocked "proof_unavailable"
      | Some r =>
          if rm_state r ∈b ["cancelled"; "blocked"; "resolved"] then reason ← refusal_reason d (rm_id r); blocked reason
          else
            let d := update_jobs (fun x => j_id x =b j_id j) (set_job_evidence r) d in
            let d := update_episodes (fun x => rm_id x =b rm_id r) (fun x => set_admitted (j_id j) None (rm_reason x) x) d in
            d ← insert_link (j_id j) (rm_id r) (j_vault_file_id j) (va_id v) d;
            Ok (d, queued)
      end
  end.

Definition schedule_resume (d : worker_db) (vault_id : Z) (path : string) (user_id : Z) (at_ : timestamp) (episode_id : option string)
    : result (worker_db * (Z * string)) :=
  match fetchone (fun p => (fp_vault_id p =b vault_id) && (fp_path p =b path) && is_none (fp_valid_to p)) (t_paths (d_catalog d)),
        vault_row d vault_id with
  | None, _ => blocked "identity_changed"
  | Some _, None => no_row
  | Some p, Some v =>
      let file := fp_vault_file_id p in
      d ← discover_file d v file at_;
      let rows := take 8 (sort_by oldest_episode (select (fun r => (rm_vault_file_id r =b file) && (rm_vault_id r =b vault_id)
                            && (rm_state r <>b "resolved") && match episode_id with Some id => rm_id r =b id | None => true end)
                            (ut_remediations (d_uploads d)))) in
      raise! UploadBlocked (if exists_row (fun r => bool_decide (Some (rm_id r) = episode_id) && (rm_vault_file_id r =b file)
                                                    && (rm_state r =b "resolved")) (ut_remediations (d_uploads d))
                            then "already_resolved" else "proof_unavailable") when truthy episode_id && bool_decide (map rm_id rows = []);
      let unsettled := List.filter (fun r => match rm_intent_id r with
                         | Some id => (id <>b "") && exists_row (fun i => (ui_id i =b id) && ui_send_started i && negb (ui_settled i))
                                                       (ut_intents (d_uploads d))
                         | None => false
                         end) rows in
      let chosen := if (1 <? length rows)%nat && negb (truthy episode_id) && (length unsettled =? 1)%nat then unsettled else rows in
      match rows, chosen with
      | [], _ => resume_block d v path user_id at_
      | _, [r] =>
          '(d, admitted) ← admit_episode d (rm_id r) v user_id at_ false true None;
          match admitted with
          | Some queued => Ok (d, queued)
          | None => reason ← refusal_reason d (rm_id r); blocked reason
          end
      | _, _ => blocked "ambiguous_receipt"
      end
  end.

(** ** The life of an episode *)
Definition set_reconcile_only (b : bool) (u : job_upload) : job_upload :=
  {| ju_plaintext_sha256 := ju_plaintext_sha256 u; ju_snapshot := ju_snapshot u; ju_reconcile_only := b; ju_retry_count := ju_retry_count u |}.

Definition set_phase (state phase : string) (reason : option string) (updated : timestamp) (cleanup : option Z) (r : remediation) : remediation :=
  {| rm_id := rm_id r; rm_target_key := rm_target_key r; rm_vault_id := rm_vault_id r; rm_vault_file_id := rm_vault_file_id r;
     rm_intent_id := rm_intent_id r; rm_archive_version_id := rm_archive_version_id r; rm_target := rm_target r;
     rm_expected_sha256 := rm_expected_sha256 r; rm_snapshot := rm_snapshot r; rm_requested_mode := rm_requested_mode r; rm_size := rm_size r;
     rm_state := state; rm_phase := phase; rm_reason := reason; rm_retry_count := rm_retry_count r; rm_due_at := rm_due_at r;
     rm_current_job_id := rm_current_job_id r; rm_resolved_by_job_id := rm_resolved_by_job_id r; rm_created_at := rm_created_at r;
     rm_updated_at := updated; rm_resolved_at := rm_resolved_at r; rm_cleanup_inventory_job_id := cleanup |}.

Definition episode_linked (t : upload_tables) (job_id : Z) (r : remediation) : bool :=
  exists_row (fun b => (rl_remediation_id b =b rm_id r) && (rl_job_id b =b job_id)) (ut_remediation_jobs t)
  && bool_decide (rm_current_job_id r = Some job_id).

(** [reconcile_only] is what the claim of the Job said. *)
Definition release_for_rearm (d : worker_db) (job_id : Z) (reconcile_only : bool) (at_ : timestamp) : worker_db :=
  let d := if reconcile_only
           then update_jobs (fun j => (j_id j =b job_id) && negb (terminal_job j)) (fun j => set_job_upload (j_archive_version_id j) (set_reconcile_only false (j_upload j)) j) d
           else d in
  let p := fun r => episode_linked (d_uploads d) job_id r && (rm_state r <>b "resolved") in
  let vaults := map rm_vault_id (select p (ut_remediations (d_uploads d))) in
  let d := update_episodes p (fun r => set_phase "queued" "upload" None at_ (rm_cleanup_inventory_job_id r) r) d in
  foldl (fun d v => invalidate v at_ d) d vaults.

(** [close] of the worker's [_rearm_after_proven_absence]: one transaction. *)
Definition clear_blocked_reason (i : upload_intent) : upload_intent :=
  {| ui_id := ui_id i; ui_token := ui_token i; ui_vault_id := ui_vault_id i; ui_vault_file_id := ui_vault_file_id i;
     ui_original_job_id := ui_original_job_id i; ui_target := ui_target i; ui_snapshot := ui_snapshot i; ui_requested := ui_requested i;
     ui_inventory := ui_inventory i; ui_send_started := ui_send_started i; ui_archive_version_id := ui_archive_version_id i;
     ui_settled := ui_settled i; ui_blocked_reason := None; ui_created_at := ui_created_at i |}.

Definition rearm_after_proven_absence (d : worker_db) (job : claimed_job) (intent : upload_intent) (at_ : timestamp) : result worker_db :=
  d ← record_no_write sha256 d job intent ABSENT_OPERATION at_;
  let t := update_intents (fun i => ui_id i =b ui_id intent) clear_blocked_reason (d_uploads d) in
  let t := set_blocks (delete_where (fun b => rb_vault_file_id b =b j_vault_file_id (cj_row job)) (ut_blocks t)) t in
  Ok (release_for_rearm (set_uploads t d) (j_id (cj_row job)) (ju_reconcile_only (j_upload (cj_row job))) at_).

Definition record_cleanup (d : worker_db) (job_id inventory_job_id : Z) : worker_db :=
  update_episodes (episode_linked (d_uploads d) job_id)
    (fun r => set_phase (rm_state r) "completion" (rm_reason r) (rm_updated_at r) (Some inventory_job_id) r) d.

Definition newest_cleanup (t : upload_tables) (keeper : option string) : option cleanup_inventory :=
  latest (fun c => or_default (cv_completed_at c) 0)
    (select (fun c => is_some keeper && bool_decide (cv_keeper_id c = keeper) && is_some (cv_completed_at c)) (ut_inventories t)).

Definition set_resolved (job_id : Z) (version : option string) (cleanup : Z) (at_ : timestamp) (r : remediation) : remediation :=
  {| rm_id := rm_id r; rm_target_key := rm_target_key r; rm_vault_id := rm_vault_id r; rm_vault_file_id := rm_vault_file_id r;
     rm_intent_id := rm_intent_id r; rm_archive_version_id := version; rm_target := rm_target r;
     rm_expected_sha256 := rm_expected_sha256 r; rm_snapshot := rm_snapshot r; rm_requested_mode := rm_requested_mode r; rm_size := rm_size r;
     rm_state := "resolved"; rm_phase := "completed"; rm_reason := None; rm_retry_count := rm_retry_count r; rm_due_at := rm_due_at r;
     rm_current_job_id := Some job_id; rm_resolved_by_job_id := Some job_id; rm_created_at := rm_created_at r;
     rm_updated_at := at_; rm_resolved_at := Some at_; rm_cleanup_inventory_job_id := Some cleanup |}.

Definition attempt_over (d : worker_db) (r : remediation) : bool :=
  match rm_current_job_id r with
  | None => true
  | Some id => exists_row (fun j => (j_id j =b id) && terminal_job j) (t_jobs (d_catalog d))
  end.

Definition void_episode (d : worker_db) (file : string) : option remediation :=
  head (sort_by oldest_episode
    (select (fun r => (rm_vault_file_id r =b file) && negb (rm_state r ∈b ["resolved"; "cancelled"]) && is_none (rm_archive_version_id r)
                      && is_none (rm_resolved_by_job_id r) && VOID_SQL (d_uploads d) r && attempt_over d r)
       (ut_remediations (d_uploads d)))).

Definition resolve_void (d : worker_db) (job_id : Z) (at_ : timestamp) : worker_db :=
  match job_by_id d job_id with
  | Some j =>
      if (j_action j =b "upload") && truthy (j_archive_version_id j) then
        let verified := exists_row (fun av => bool_decide (Some (av_id av) = j_archive_version_id j) && (av_integrity av =b Verified))
                          (t_versions (d_catalog d)) in
        match newest_cleanup (d_uploads d) (j_archive_version_id j), void_episode d (j_vault_file_id j) with
        | Some c, Some r =>
            if verified then
              let t := d_uploads d in
              let d := if exists_row (fun b => rl_job_id b =b job_id) (ut_remediation_jobs t) then d
                       else set_uploads (set_remediation_jobs (ut_remediation_jobs t ++ [{| rl_job_id := job_id; rl_remediation_id := rm_id r;
                              rl_vault_file_id := rm_vault_file_id r; rl_vault_id := rm_vault_id r |}]) t) d in
              invalidate (rm_vault_id r) at_
                (update_episodes (fun x => rm_id x =b rm_id r) (set_resolved job_id (j_archive_version_id j) (cv_job_id c) at_) d)
            else d
        | _, _ => d
        end
      else d
  | None => d
  end.

Definition inventory_by_id (t : upload_tables) (id : option Z) : option cleanup_inventory :=
  id ≫= fun i => fetchone (fun c => cv_job_id c =b i) (ut_inventories t).

(** The phase the tables show for the Job of the episode. *)
Definition observed_phase (d : worker_db) (r : remediation) (j : job) : result string :=
  if truthy (j_archive_version_id j) then
    match fetchone (fun av => bool_decide (Some (av_id av) = j_archive_version_id j)) (t_versions (d_catalog d)) with
    | Some av =>
        let cleaned := match inventory_by_id (d_uploads d) (rm_cleanup_inventory_job_id r) with
                       | Some c => bool_decide (cv_keeper_id c = j_archive_version_id j) && is_some (cv_completed_at c)
                       | None => false
                       end in
        Ok (if av_integrity av =b Verified then (if cleaned then "completion" else "cleanup") else "verification")
    | None => no_row
    end
  else Ok (rm_phase r).

(** What completion requires: the exact keeper, cleaned up, and the intent settled. *)
Definition completion_holds (d : worker_db) (r : remediation) (j : job) : bool :=
  (ju_reconcile_only (j_upload j) || proven_absent (d_uploads d) (rm_intent_id r)) && truthy (j_archive_version_id j)
  && match inventory_by_id (d_uploads d) (rm_cleanup_inventory_job_id r) with
     | Some c => bool_decide (cv_keeper_id c = j_archive_version_id j) && is_some (cv_completed_at c)
     | None => false
     end
  && match load_for_job (d_uploads d) (j_id j) with Some i => ui_settled i | None => true end.

Definition failure_reason (d : worker_db) (r : remediation) (j : job) : string :=
  match block_of (d_uploads d) (rm_vault_file_id r) with
  | Some b => rb_reason b
  | None => if 8 <=? ju_retry_count (j_upload j) then "retry_budget_exhausted" else "operation_failed"
  end.

Definition next_state (d : worker_db) (r : remediation) (j : job) (status : string) (why : option string) : string * option string :=
  if status =b "failed" then ("blocked", Some (failure_reason d r j))
  else if status =b "cancelled" then ("cancelled", Some "owner_cancelled")
  else if status =b "retrying" then ("retrying", Some "transient")
  else if truthy why then ("suspended", why)
  else if status ∈b ["uploading"; "verifying"] then ("queued", None)
  else (rm_state r, rm_reason r).

Definition moved (j : job) (state phase : string) (reason : option string) (at_ : timestamp) (r : remediation) : remediation :=
  {| rm_id := rm_id r; rm_target_key := rm_target_key r; rm_vault_id := rm_vault_id r; rm_vault_file_id := rm_vault_file_id r;
     rm_intent_id := rm_intent_id r;
     rm_archive_version_id := match rm_archive_version_id r with Some v => Some v | None => j_archive_version_id j end; rm_target := rm_target r;
     rm_expected_sha256 := rm_expected_sha256 r; rm_snapshot := rm_snapshot r; rm_requested_mode := rm_requested_mode r; rm_size := rm_size r;
     rm_state := state; rm_phase := phase; rm_reason := reason; rm_retry_count := Z.max (rm_retry_count r) (ju_retry_count (j_upload j));
     rm_due_at := or_default (j_retry_after j) at_; rm_current_job_id := rm_current_job_id r;
     rm_resolved_by_job_id := if state =b "resolved" then Some (or_default (rm_resolved_by_job_id r) (j_id j)) else rm_resolved_by_job_id r;
     rm_created_at := rm_created_at r; rm_updated_at := at_;
     rm_resolved_at := if state =b "resolved" then Some (or_default (rm_resolved_at r) at_) else rm_resolved_at r;
     rm_cleanup_inventory_job_id := rm_cleanup_inventory_job_id r |}.

Definition as_claimed (j : job) : claimed_job := {| cj_row := j; cj_bucket := ""; cj_source_root := ""; cj_s3_prefix := "" |}.

Definition transition (d : worker_db) (job_id : Z) (status : string) (at_ : timestamp) (why : option string) : result worker_db :=
  match remediation_of_job (d_uploads d) job_id with
  | None => Ok (if status =b "failed" then capture_failure d job_id at_ else if status =b "completed" then resolve_void d job_id at_ else d)
  | Some r =>
      match job_by_id d job_id with
      | None => raise! RuntimeError "Stale upload remediation attempt" when negb (bool_decide (rm_current_job_id r = Some job_id)); no_row
      | Some j =>
          raise! RuntimeError "Stale upload remediation attempt" when negb (bool_decide (rm_current_job_id r = Some job_id));
          phase ← observed_phase d r j;
          raise! RuntimeError "Completed remediation history cannot be rewritten" when
            (rm_state r =b "resolved") && ((status <>b "completed") || negb (bool_decide (rm_resolved_by_job_id r = Some job_id)));
          '(state, phase, reason) ←
            (if status =b "completed" then
               _ ← (if rm_state r <>b "resolved" then require_job d (as_claimed j) else Ok tt);
               raise! RuntimeError "Upload remediation completion requires exact cleanup postcondition" when negb (completion_holds d r j);
               Ok ("resolved", "completed", None)
             else let '(state, reason) := next_state d r j status why in Ok (state, phase, reason));
          let '(state, reason) := if (rm_state r =b "cancelled") && (status <>b "completed") then ("cancelled", Some "owner_cancelled")
                                  else (state, reason) in
          let d := update_episodes (fun x => rm_id x =b rm_id r) (moved j state phase reason at_) d in
          Ok (if (state =b rm_state r) && (phase =b rm_phase r) && bool_decide (reason = rm_reason r) then d
              else invalidate (rm_vault_id r) at_ d)
      end
  end.

(** ** The explicit retry and the sweep *)
Definition by_update (a b : remediation) : bool :=
  (rm_updated_at a <? rm_updated_at b) || ((rm_updated_at a =? rm_updated_at b) && String.leb (rm_id a) (rm_id b)).
Definition by_due (a b : remediation) : bool :=
  (rm_due_at a <? rm_due_at b) || ((rm_due_at a =? rm_due_at b) && String.leb (rm_id a) (rm_id b)).

Definition pending_discovery (d : worker_db) (vault_id : Z) : list job :=
  let rows := sort_by (fun a b => dc_job_id a <=? dc_job_id b)
                (select (fun q => (dc_vault_id q =b vault_id) && is_none (dc_rejected_reason q)) (ut_discovery (d_uploads d))) in
  take TARGET_BATCH (omap (fun q => job_by_id d (dc_job_id q)) rows).

Definition discover_original (v : vault) (at_ : timestamp) (d : worker_db) (original : job) : result worker_db :=
  '(d, _) ← enroll d (Some original) v at_ None None;
  Ok (set_uploads (set_discovery (delete_where (fun q => (dc_job_id q =b j_id original) && is_none (dc_rejected_reason q)) (ut_discovery (d_uploads d)))
                     (d_uploads d)) d).

Definition lasting (reason : option string) : bool :=
  or_default reason "" ∈b ["proof_mismatch"; "expected_evidence_missing"; "target_superseded"].

Definition admit_counted (v : vault) (user_id : Z) (at_ : timestamp) (explicit : bool) (st : worker_db * Z) (r : remediation)
    : result (worker_db * Z) :=
  r ← admit_episode st.1 (rm_id r) v user_id at_ true explicit None;
  Ok (r.1, st.2 + if is_some r.2 then 1 else 0).

Definition retry_vault (d : worker_db) (v : vault) (user_id : Z) (at_ : timestamp) : result (worker_db * Z) :=
  d ← foldM_r (discover_original v at_) d (pending_discovery d (va_id v));
  foldM_r (admit_counted v user_id at_ true) (d, 0)
    (take TARGET_BATCH (sort_by by_update
       (select (fun r => (rm_vault_id r =b va_id v) && (rm_state r ∈b ["pending"; "blocked"; "suspended"]) && negb (lasting (rm_reason r))
                         && negb (VOID_SQL (d_uploads d) r) && attempt_over d r) (ut_remediations (d_uploads d))))).

(** Due for admission, or to be closed with its cancelled Job. *)
Definition due_episode (d : worker_db) (at_ : timestamp) (r : remediation) : bool :=
  ((rm_state r ∈b ["pending"; "suspended"]) && negb (VOID_SQL (d_uploads d) r) && (rm_due_at r <=? at_) && attempt_over d r)
  || ((rm_state r ∈b ["queued"; "retrying"; "suspended"])
      && match rm_current_job_id r with
         | Some id => exists_row (fun j => (j_id j =b id) && (j_status j =b "cancelled")) (t_jobs (d_catalog d))
         | None => false
         end).

Definition has_work (d : worker_db) (name : string) (at_ : timestamp) (v : vault) : bool :=
  if name =b "discovery" then exists_row (fun q => (dc_vault_id q =b va_id v) && is_none (dc_rejected_reason q)) (ut_discovery (d_uploads d))
  else if name =b "facts" then exists_row (fun f => (fc_vault_id f =b va_id v) && (fc_due_at f <=? at_)) (ut_facts (d_uploads d))
  else exists_row (fun r => (rm_vault_id r =b va_id v) && due_episode d at_ r) (ut_remediations (d_uploads d)).

(** [ORDER BY (v.id > last) DESC, v.id]: the Vaults after the last one first. *)
Definition after_cursor (last : Z) (a b : vault) : bool :=
  let na := last <? va_id a in
  let nb := last <? va_id b in
  (na && negb nb) || (bool_decide (na = nb) && (va_id a <=? va_id b)).

Definition update_sweep (name : string) (f : sweep_row → sweep_row) (d : worker_db) : worker_db :=
  set_uploads (set_sweep (update_where (fun s => sw_name s =b name) f (ut_sweep (d_uploads d))) (d_uploads d)) d.

Definition fair_vaults (d : worker_db) (name : string) (at_ : timestamp) : worker_db * list vault :=
  match fetchone (fun s => sw_name s =b name) (ut_sweep (d_uploads d)) with
  | None => (d, [])
  | Some cursor =>
      (update_sweep name (fun s => {| sw_name := sw_name s; sw_last_vault_id := sw_last_vault_id s; sw_last_tick_at := Some at_ |}) d,
       take VAULT_BATCH (sort_by (after_cursor (sw_last_vault_id cursor)) (select (has_work d name at_) (t_vaults (d_catalog d)))))
  end.

Definition sweep_episode (v : vault) (owner : Z) (at_ : timestamp) (st : worker_db * Z) (r : remediation) : result (worker_db * Z) :=
  match rm_current_job_id r ≫= job_by_id st.1 with
  | Some j => if j_status j =b "cancelled" then d ← transition st.1 (j_id j) "cancelled" at_ None; Ok (d, st.2)
              else admit_counted v owner at_ false st r
  | None => admit_counted v owner at_ false st r
  end.

(** The work of one pass on one Vault, for as many rows as there is time. *)
Definition sweep_vault (name : string) (at_ : timestamp) (in_time : nat) (st : worker_db * Z) (v : vault) : result (worker_db * Z) :=
  let d := st.1 in
  if name =b "discovery" then d ← foldM_r (discover_original v at_) d (take in_time (pending_discovery d (va_id v))); Ok (d, st.2)
  else if name =b "facts" then d ← drain d v at_ TARGET_BATCH None in_time; Ok (d, st.2)
  else match owner_user_id (d_inbox d) with
       | None => Ok st
       | Some owner =>
           foldM_r (sweep_episode v owner at_) st
             (take in_time (take TARGET_BATCH (sort_by by_due (select (fun r => (rm_vault_id r =b va_id v) && due_episode d at_ r)
                                                                (ut_remediations (d_uploads d))))))
       end.

(** One turn: the cursor moves first, then the Vault is worked on unless it is locked. *)
Definition sweep_turn (locked : Z → bool) (name : string) (at_ : timestamp) (in_time : nat) (st : worker_db * Z) (candidate : vault)
    : result (worker_db * Z) :=
  let d := update_sweep name (fun s => {| sw_name := sw_name s; sw_last_vault_id := va_id candidate; sw_last_tick_at := sw_last_tick_at s |}) st.1 in
  match vault_row d (va_id candidate) with
  | Some v => if locked (va_id v) then Ok (d, st.2) else sweep_vault name at_ in_time (d, st.2) v
  | None => Ok (d, st.2)
  end.

Definition sweep_pass (locked : Z → bool) (at_ : timestamp) (vaults_in_time rows_in_time : nat) (st : worker_db * Z) (name : string)
    : result (worker_db * Z) :=
  let '(d, vaults) := fair_vaults st.1 name at_ in
  foldM_r (sweep_turn locked name at_ rows_in_time) (d, st.2) (take vaults_in_time vaults).

Definition sweep (locked : Z → bool) (d : worker_db) (at_ : timestamp) (vaults_in_time rows_in_time : nat) : result (worker_db * Z) :=
  foldM_r (sweep_pass locked at_ vaults_in_time rows_in_time) (d, 0) ["discovery"; "facts"; "admission"].

(** ** What the interface is told *)
Record projection := {
  pj_episode : remediation;   (* id, state, phase, reason, counters and links *)
  pj_can_resume : bool;
  pj_original_job_ids : list Z;
}.

Definition project (t : upload_tables) (r : remediation) : projection :=
  {| pj_episode := r;
     pj_can_resume := (rm_state r ∈b ["pending"; "blocked"; "suspended"])
       && negb match rm_reason r with
               | Some reason => reason ∈b ["proof_mismatch"; "expected_evidence_missing"; "target_superseded"; "source_volume_unavailable";
                                           "vault_suspended"]
               | None => false
               end && negb (void t r);
     pj_original_job_ids := take 50 (sort_by Z.leb (map rl_job_id (select (fun o => rl_remediation_id o =b rm_id r) (ut_originals t)))) |}.

Definition newest_episode (a b : remediation) : bool :=
  (rm_created_at b <? rm_created_at a) || ((rm_created_at a =? rm_created_at b) && String.leb (rm_id a) (rm_id b)).

Definition file_projection (d : worker_db) (vault_id : Z) (path : string) : list projection :=
  map (project (d_uploads d)) (take 50 (sort_by newest_episode
    (select (fun r => (rm_vault_id r =b vault_id)
                      && exists_row (fun p => (fp_vault_file_id p =b rm_vault_file_id r) && is_none (fp_valid_to p) && (fp_path p =b path))
                           (t_paths (d_catalog d))) (ut_remediations (d_uploads d))))).

(** The episode a Job belongs to, as an original or as an attempt, and why it has none. *)
Definition project_job (d : worker_db) (job_id : Z) : option projection * option string :=
  let t := d_uploads d in
  let link := match fetchone (fun o => rl_job_id o =b job_id) (ut_originals t) with
              | Some o => Some o
              | None => fetchone (fun b => rl_job_id b =b job_id) (ut_remediation_jobs t)
              end in
  (link ≫= (fun l => project t <$> episode_by_id d (rl_remediation_id l)),
   fetchone (fun q => (dc_job_id q =b job_id) && is_some (dc_rejected_reason q)) (ut_discovery t) ≫= dc_rejected_reason).

Definition project_jobs (d : worker_db) (jobs : list Z) : list (Z * (option projection * option string)) :=
  map (fun id => (id, project_job d id)) jobs.
End remediation.

(** The worker's interface to the episodes. *)
#[export] Instance remediation_transitions : UploadTransitions := {| upload_transition := transition |}.
