(* ===== verification/UploadEpisodes.v ===== *)
(** * UploadEpisodes: what the life of an episode keeps

    The theorems about [UploadDiscovery] and [UploadRemediation]: what every step
    keeps of an episode, what its resolution rests on, what an admission authorises,
    and that interception keeps the promises [Catalog.queue_jobs] relies on. *)
From S2P Require Import Prelude Sql PyString Json JsonText VaultPaths Schema DirtyMarks JobScheduler Notifications OperationPolicies Lifecycle CloudDeletion Catalog CatalogVersions UploadTables Effects S3Client S3Copy WorkerJobs LocalFiles UploadSnapshot UploadReconcile VaultMoves UploadProvenance UploadResume UploadDiscovery UploadRemediation.
From stdpp Require Import pretty.
From Stdlib Require Import Strings.Byte.
Open Scope Z_scope.

Notation episodes d := (ut_remediations (d_uploads d)).

(** ** One episode through one step *)
Record advances (r r' : remediation) : Prop := {
  ad_id : rm_id r' = rm_id r;
  ad_file : rm_vault_file_id r' = rm_vault_file_id r ∧ rm_vault_id r' = rm_vault_id r;
  ad_subject : rm_intent_id r' = rm_intent_id r ∧ rm_target r' = rm_target r ∧ rm_target_key r' = rm_target_key r;
  ad_evidence : rm_expected_sha256 r' = rm_expected_sha256 r ∧ rm_snapshot r' = rm_snapshot r
                ∧ rm_requested_mode r' = rm_requested_mode r ∧ rm_size r' = rm_size r;
  ad_version : ∀ v, rm_archive_version_id r = Some v → rm_archive_version_id r' = Some v;
  ad_budget : rm_retry_count r ≤ rm_retry_count r';
  ad_cancelled : rm_state r = "cancelled" → rm_state r' = "cancelled";
  ad_resolved : rm_state r = "resolved" →
    rm_state r' = "resolved" ∧ (∀ j, rm_resolved_by_job_id r = Some j → rm_resolved_by_job_id r' = Some j)
    ∧ (∀ t, rm_resolved_at r = Some t → rm_resolved_at r' = Some t);
}.

#[global] Instance advances_preorder : PreOrder advances.
Proof.
  split; [by split|]. intros r1 r2 r3 H1 H2. destruct H1, H2. split; try (intuition congruence); try lia; try (by eauto).
  intros H. destruct (ad_resolved0 H) as (E1 & A1 & B1). destruct (ad_resolved1 E1) as (E2 & A2 & B2). split_and!; eauto.
Qed.

Definition unique_ids (d : worker_db) : Prop := NoDup (map rm_id (episodes d)).

Definition advance (d d' : worker_db) : Prop := ∀ r, r ∈ episodes d → ∃ r', r' ∈ episodes d' ∧ advances r r'.

(** The ids stay unique and every episode advances. *)
Definition keeps (d d' : worker_db) : Prop := unique_ids d → unique_ids d' ∧ advance d d'.

#[global] Instance keeps_preorder : PreOrder keeps.
Proof.
  split.
  - intros d Hu. split; [done|]. intros r Hr. by exists r.
  - intros d1 d2 d3 H1 H2 Hu. destruct (H1 Hu) as [Hu2 A1]. destruct (H2 Hu2) as [Hu3 A2]. split; [done|].
    intros r Hr. destruct (A1 r Hr) as (r2 & Hr2 & Hx). destruct (A2 r2 Hr2) as (r3 & Hr3 & Hy). exists r3. split; [done|]. by etrans.
Qed.

Lemma keeps_same d d' : episodes d' = episodes d → keeps d d'.
Proof. intros E Hu. unfold unique_ids, advance. rewrite E. split; [done|]. intros r Hr. by exists r. Qed.

Lemma keeps_update p f d :
  (∀ r, rm_id (f r) = rm_id r) → (unique_ids d → ∀ r, r ∈ episodes d → p r = true → advances r (f r)) → keeps d (update_episodes p f d).
Proof.
  intros Hid Hf Hu. split.
  - unfold unique_ids, update_episodes. cbn. rewrite update_where_column; [done|]. intros r. done.
  - intros r Hr. exists (if p r then f r else r). split; [by apply elem_of_update_where; exists r|].
    destruct (p r) eqn:E; [by apply Hf | done].
Qed.

(** An update by id is an update of the row that was read. *)
Lemma keeps_update_one f d r :
  (∀ r, rm_id (f r) = rm_id r) → r ∈ episodes d → advances r (f r) → keeps d (update_episodes (fun x => rm_id x =b rm_id r) f d).
Proof.
  intros Hid Hr Ha. apply keeps_update; [done|]. intros Hu x Hx Hp. bsimpl. by rewrite (NoDup_key_inj _ _ _ _ Hu Hx Hr Hp).
Qed.

Lemma insert_episode_keeps r d d' : insert_episode r d = Ok d' → keeps d d' ∧ episodes d' = episodes d ++ [r].
Proof.
  unfold insert_episode. intros E. inv_ok. subst d'. cbn. split; [|done]. intros Hu. split.
  - unfold unique_ids. cbn. rewrite map_app. apply NoDup_app. split; [done|]. split; [|apply NoDup_singleton].
    intros id (x & Hid & Hx)%list_elem_of_fmap Hr%list_elem_of_singleton. apply (proj1 (exists_row_false _ _)) with (r := x) in H; [|done].
    unfold episode_conflict in H. bsimpl. congruence.
  - intros x Hx. exists x. split; [apply elem_of_app; by left | done].
Qed.

Lemma episode_by_id_in d id r : episode_by_id d id = Some r → r ∈ episodes d ∧ rm_id r = id.
Proof. intros [Hr Hp]%fetchone_some. by bsimpl. Qed.

(** The states an update may leave behind: those of an episode that is open. *)
Definition is_open (r : remediation) : Prop := rm_state r ≠ "cancelled" ∧ rm_state r ≠ "resolved".

Lemma open_of_states r (l : list string) : rm_state r ∉ l → ("cancelled" ∈b l) && ("resolved" ∈b l) = true → is_open r.
Proof. intros H Hl. bsimpl. split; intros E; rewrite E in H; done. Qed.

Lemma open_advances r r' :
  is_open r → rm_id r' = rm_id r → rm_vault_file_id r' = rm_vault_file_id r → rm_vault_id r' = rm_vault_id r → rm_intent_id r' = rm_intent_id r →
  rm_target r' = rm_target r → rm_target_key r' = rm_target_key r → rm_expected_sha256 r' = rm_expected_sha256 r →
  rm_snapshot r' = rm_snapshot r → rm_requested_mode r' = rm_requested_mode r → rm_size r' = rm_size r →
  (∀ v, rm_archive_version_id r = Some v → rm_archive_version_id r' = Some v) → rm_retry_count r ≤ rm_retry_count r' → advances r r'.
Proof. intros [Hc Hr] *. split; try done. Qed.

Create HintDb episodes.
#[export] Hint Resolve keeps_same : episodes.
#[export] Hint Extern 0 (keeps ?d ?d) => reflexivity : episodes.

(** Operations on other tables leave the episodes alone. *)
Lemma invalidate_episodes v at_ d : episodes (invalidate v at_ d) = episodes d.
Proof. done. Qed.
Lemma reject_episodes d original at_ reason : episodes (reject d original at_ reason) = episodes d.
Proof. unfold reject. destruct original; [|done]. destruct (fetchone _ _); [|done]. by case_bool_decide. Qed.
Lemma link_original_episodes original r v file d : episodes (link_original original r v file d) = episodes d.
Proof. unfold link_original. destruct original; [|done]. by destruct (exists_row _ _). Qed.
Lemma conclude_episodes d original v o reason at_ r : episodes (conclude_enrolment d original v o reason at_ r) = episodes d.
Proof.
  unfold conclude_enrolment. rewrite invalidate_episodes. destruct (_ && _); [apply reject_episodes | apply link_original_episodes].
Qed.
Lemma capture_episodes d at_ version file : episodes (capture d at_ version file) = episodes d.
Proof.
  unfold capture. cbn. generalize (flat_map (fun av => map (version_fact at_ av) (intents_of_version (d_uploads d) av)) (captured d version file)).
  intros l. generalize (d_uploads d). induction l as [|f l IH]; intros t; cbn; [done|]. rewrite IH. unfold insert_fact. by destruct (exists_row _ _).
Qed.
Lemma bind_for_resume_episodes d id i d' : bind_for_resume d id i = Ok d' → episodes d' = episodes d.
Proof. unfold bind_for_resume. intros E. inv_ok. subst d'. match goal with |- context [if ?b then d else _] => by destruct b end. Qed.
Lemma insert_link_episodes id e f v d d' : insert_link id e f v d = Ok d' → episodes d' = episodes d ∧ d_catalog d' = d_catalog d.
Proof. unfold insert_link. intros E. inv_ok. by subst d'. Qed.
Lemma record_no_write_episodes sha256 d job i op at_ d' : record_no_write sha256 d job i op at_ = Ok d' → episodes d' = episodes d.
Proof. unfold record_no_write. intros E. inv_ok. subst d'. cbn. unfold insert_receipt. match goal with |- context [if ?b then _ else _] => by destruct b end. Qed.

Section facts.
Context (sha256 : bytes → bytes) (isoformat : timestamp → string) (new_id : upload_tables → string).
Notation enroll := (enroll sha256 isoformat new_id).
Notation drain := (drain sha256 isoformat new_id).
Notation admit_episode := (admit_episode new_id).
Notation discover_file := (discover_file sha256 isoformat new_id).

Lemma blocked_keeps d r reason at_ :
  r ∈ episodes d → is_open r → keeps d (update_episodes (fun x => rm_id x =b rm_id r) (set_episode "blocked" reason at_) d).
Proof. intros Hr Ho. by apply keeps_update_one; [done|done|apply open_advances]. Qed.

Lemma choose_in original block e p reason l :
  match choose_episode original block e p reason l with
  | Contradicts r => r ∈ l ∧ rm_state r ≠ "resolved"
  | Continues r => r ∈ l
  | Fresh => True
  end.
Proof.
  induction l as [|r l IH]; cbn; [done|]. case_bool_decide; cbn.
  - destruct (_ && _); [by left|]. destruct (choose_episode _ _ _ _ _ l); [destruct IH; split; [by right|done] | by right | done].
  - destruct (_ || _); [split; [by left|done] | by left].
Qed.

Lemma candidates_in d o key r : r ∈ episode_candidates d o key → r ∈ episodes d.
Proof. unfold episode_candidates. rewrite sort_by_perm. by intros [? _]%elem_of_select. Qed.

Lemma keeps_then d d1 d2 : keeps d d1 → episodes d2 = episodes d1 → keeps d d2.
Proof. intros H E. etrans; [exact H | by apply keeps_same]. Qed.

(** Enrolment keeps every episode and returns one that is in the table. *)
Lemma enroll_obligation_keeps d original v at_ o d' r :
  enroll_obligation sha256 isoformat new_id d original v at_ o = Ok (d', r) →
  keeps d d' ∧ (∀ x, r = Some x → x ∈ episodes d').
Proof.
  unfold enroll_obligation. intros E. inv_ok. destruct r1 as [[p key] reason0]. inv_ok. cbn zeta in E.
  set (reason := if (8 <=? _) && _ && _ then _ else _) in E.
  pose proof (choose_in original (ob_block o) r0 p reason (episode_candidates d o key)) as Hin.
  destruct (choose_episode _ _ _ _ _ _) as [x|x|].
  - injection E as <- <-. destruct Hin as [Hx Hres]. rewrite reject_episodes. split.
    + eapply keeps_then; [|apply reject_episodes]. apply keeps_update; [done|]. intros Hu y Hy Hp. bsimpl.
      apply open_advances; try done. split; [done|]. by rewrite (NoDup_key_inj _ _ _ _ Hu Hy (candidates_in _ _ _ _ Hx) H).
    + intros y Hy. apply episode_by_id_in in Hy as [Hy _]. by rewrite reject_episodes in Hy.
  - apply candidates_in in Hin. destruct ((rm_state x <>b "resolved") && _ && _) eqn:Ec; injection E as <- <-; rewrite conclude_episodes.
    + bsimpl. split; [eapply keeps_then; [by apply blocked_keeps; [|split] | apply conclude_episodes]|].
      intros y Hy. by apply episode_by_id_in in Hy as [Hy _].
    + split; [apply keeps_same, conclude_episodes|]. by intros y [= <-].
  - inv_ok. simplify_eq. apply insert_episode_keeps in E2 as [Hk He]. split; [eapply keeps_then; [exact Hk | apply conclude_episodes]|].
    intros y [= <-]. rewrite conclude_episodes, He. apply elem_of_app. right. by left.
Qed.

Lemma enroll_keeps d original v at_ intent_id version_id d' r :
  enroll d original v at_ intent_id version_id = Ok (d', r) → keeps d d' ∧ (∀ x, r = Some x → x ∈ episodes d').
Proof.
  unfold UploadDiscovery.enroll. destruct (look_up _ _ _ _ _) as [|reason|x|o] eqn:El; intros E; simplify_eq/=.
  - split; [done|by intros].
  - split; [apply keeps_same, reject_episodes | by intros].
  - split; [done|]. intros y [= <-]. unfold look_up in El. destruct original as [j|].
    + destruct (_ || _); [done|]. destruct (episode_of_original _ _) eqn:Eo; simplify_eq; [by apply fetchone_some in Eo as [? _]|].
      exfalso. unfold with_version, obliged in El. repeat case_match; done.
    + exfalso. unfold with_version, obliged in El. repeat case_match; done.
  - by eapply enroll_obligation_keeps.
Qed.

Lemma drain_fact_keeps v at_ d f d' : drain_fact sha256 isoformat new_id v at_ d f = Ok d' → keeps d d'.
Proof.
  unfold drain_fact. intros E. destruct (file_busy _ _); [injection E as <-; by apply keeps_same|]. inv_ok. destruct r as [d1 x].
  inv_ok. subst d'. apply enroll_keeps in E0 as [Hk _]. by eapply keeps_then.
Qed.

Lemma fold_keeps {A} (f : worker_db → A → result worker_db) l d d' :
  (∀ d x d', f d x = Ok d' → keeps d d') → foldM_r f d l = Ok d' → keeps d d'.
Proof.
  intros Hf. apply (foldM_r_invariant (keeps d)); [|done]. intros s x s' _ H E. etrans; [exact H | by eapply Hf].
Qed.

Lemma fold_counted_keeps {A} (f : worker_db * Z → A → result (worker_db * Z)) l st st' :
  (∀ st x st', f st x = Ok st' → keeps st.1 st'.1) → foldM_r f st l = Ok st' → keeps st.1 st'.1.
Proof.
  intros Hf. apply (foldM_r_invariant (fun s => keeps st.1 s.1)); [|done]. intros s x s' _ H E. etrans; [exact H | by eapply Hf].
Qed.

Lemma drain_keeps d v at_ limit file n d' : drain d v at_ limit file n = Ok d' → keeps d d'.
Proof. apply fold_keeps. intros. by eapply drain_fact_keeps. Qed.

Lemma discover_file_keeps d v file at_ d' : discover_file d v file at_ = Ok d' → keeps d d'.
Proof.
  unfold UploadRemediation.discover_file. intros E. inv_ok. etrans; [eapply fold_keeps; [|exact E0]|].
  - intros s x s'. unfold enroll_original. intros E1. inv_ok. destruct r0 as [d1 y]. inv_ok. subst s'. by apply enroll_keeps in E2 as [H _].
  - destruct (is_some _); apply drain_keeps in E; [|exact E]. etrans; [|exact E]. apply keeps_same, capture_episodes.
Qed.

(** ** Admission *)
Lemma queue_attempt_keeps d r v u at_ automatic group d' res :
  r ∈ episodes d → is_open r → queue_attempt d r v u at_ automatic group = Ok (d', res) → keeps d d'.
Proof.
  intros Hr Ho. unfold queue_attempt. destruct (exists_row _ _); [by intros [= <- _]|]. intros E. inv_ok. simplify_eq.
  apply insert_link_episodes in E1 as [E1 _]. assert (Hb : episodes r0 = episodes d).
  { unfold bind_intent in E0. destruct (truthy _); [|by simplify_eq]. destruct (fetchone _ _); [|done].
    by apply bind_for_resume_episodes in E0. }
  apply (keeps_then _ (update_episodes (fun x => rm_id x =b rm_id r) (set_admitted (next_id (map j_id (t_jobs (d_catalog d)))) (Some at_) None) r1));
    [|done].
  etrans; [apply (keeps_same d r1); congruence|]. apply keeps_update_one; [done|congruence|by apply open_advances].
Qed.

Lemma refused_open t r explicit : refused_at_once t r explicit = false → is_open r.
Proof.
  unfold refused_at_once. intros H. bsimpl. by eapply open_of_states; [done|reflexivity].
Qed.

Lemma admit_keeps d id v u at_ automatic explicit group d' res :
  admit_episode d id v u at_ automatic explicit group = Ok (d', res) → keeps d d'.
Proof.
  unfold UploadRemediation.admit_episode. destruct (episode_by_id d id) as [r|] eqn:Er; [|done]. apply episode_by_id_in in Er as [Hr _].
  destruct (_ || _) eqn:Eo; [by intros [= <- _]|]. bsimpl. apply refused_open in H.
  destruct (original_cancelled _ _); [intros [= <- _]; by apply keeps_update_one; [done|done|apply open_advances]|].
  destruct (suspension _ _ _ _); [intros [= <- _]; by apply keeps_update_one; [done|done|apply open_advances]|].
  intros E. inv_ok. destruct r0 as [reason|]; [injection E as <- _; by apply blocked_keeps | by eapply queue_attempt_keeps].
Qed.

(** ** The transitions *)
Lemma resolve_void_keeps d job_id at_ : keeps d (resolve_void d job_id at_).
Proof.
  unfold resolve_void. destruct (job_by_id _ _) as [j|]; [|done]. destruct (_ && _); [|done].
  destruct (newest_cleanup _ _) as [c|]; [|done]. destruct (void_episode _ _) as [r|] eqn:Er; [|done].
  destruct (exists_row (fun av => _) _); [|done].
  unfold void_episode in Er. apply head_Some_elem_of in Er. rewrite sort_by_perm in Er. apply elem_of_select in Er as [Hr Hp]. bsimpl.
  set (d1 := if exists_row _ _ then d else _). assert (E1 : episodes d1 = episodes d) by (unfold d1; by destruct (exists_row _ _)).
  eapply keeps_then; [|apply invalidate_episodes]. etrans; [by apply (keeps_same d d1)|].
  apply keeps_update_one; [done | by rewrite E1|]. apply open_advances; try done; [by eapply open_of_states; [done|reflexivity]|].
  intros version Hv. by rewrite Hv in *.
Qed.

Lemma remediation_of_job_in t job_id r : remediation_of_job t job_id = Some r → r ∈ ut_remediations t.
Proof. by intros [? _]%fetchone_some. Qed.

Lemma require_job_open d j r :
  remediation_of_job (d_uploads d) (j_id (cj_row j)) = Some r → require_job d j = Ok tt → is_open r ∧ original_cancelled d (rm_id r) = false.
Proof. unfold require_job. intros ->. intros E. inv_ok. bsimpl. done. Qed.

Lemma job_by_id_id d id j : job_by_id d id = Some j → j ∈ t_jobs (d_catalog d) ∧ j_id j = id.
Proof. intros [? ?]%fetchone_some. by bsimpl. Qed.

(** What [transition] writes on an episode that has an attempt. *)
Definition writes (d : worker_db) (r : remediation) (j : job) (status : string) (why : option string)
    (state phase : string) (reason : option string) : Prop :=
  (status = "completed" ∧ state = "resolved" ∧ completion_holds d r j = true
   ∧ (rm_state r = "resolved" ∧ rm_resolved_by_job_id r = Some (j_id j) ∨ rm_state r ≠ "resolved" ∧ require_job d (as_claimed j) = Ok tt))
  ∨ (status ≠ "completed" ∧ rm_state r ≠ "resolved" ∧ (rm_state r = "cancelled" → state = "cancelled")
     ∧ (state = "resolved" → False)).

Lemma next_state_open d r j status why : (next_state d r j status why).1 = "resolved" → rm_state r = "resolved".
Proof. unfold next_state. repeat case_match; cbn; try done. Qed.

Lemma transition_writes d job_id status at_ why d' r :
  remediation_of_job (d_uploads d) job_id = Some r → transition d job_id status at_ why = Ok d' →
  ∃ j state phase reason, job_by_id d job_id = Some j ∧ rm_current_job_id r = Some job_id ∧ writes d r j status why state phase reason
    ∧ episodes d' = episodes (update_episodes (fun x => rm_id x =b rm_id r) (moved j state phase reason at_) d)
    ∧ d_catalog d' = d_catalog d ∧ ut_inventories (d_uploads d') = ut_inventories (d_uploads d).
Proof.
  unfold transition. intros -> E. destruct (job_by_id d job_id) as [j|] eqn:Ej; [|inv_ok; done]. inv_ok. destruct r1 as [[state phase] reason].
  destruct (if (rm_state r =b "cancelled") && _ then _ else _) as [state' reason'] eqn:Esr. inv_ok. bsimpl.
  apply job_by_id_id in Ej as Hid. destruct Hid as [_ Hid].
  exists j, state', phase, reason'. split; [done|]. split; [done|]. split;
    [|subst d'; match goal with |- context [if ?b then _ else _] => by destruct b end].
  destruct (decide (status = "completed")) as [->|Hs].
  - left. change ("completed" =b "completed") with true in *. cbn in *. rewrite andb_false_r in Esr. injection Esr as <- <-. inv_ok. simplify_eq. bsimpl. split_and!; try done.
    destruct (rm_state r <>b "resolved") eqn:Er; bsimpl; [right; split; [done|]; by destruct r1|]. left. split; [done|].
    rewrite (bool_decide_eq_true_2 _ Er) in H0. cbn in H0. by bsimpl.
  - right. rewrite !(bool_decide_eq_false_2 _ Hs) in *. cbn in *. rewrite andb_true_r in *. bsimpl.
    destruct (next_state d r j status why) as [s1 r1] eqn:En. injection E1 as <- <- <-.
    split_and!; try done; [intros Hc; rewrite (bool_decide_eq_true_2 _ Hc) in Esr; congruence|].
    intros ->. case_bool_decide; [congruence|]. apply H0. apply (next_state_open d r j status why). rewrite En. cbn. congruence.
Qed.

Lemma capture_failure_episodes d job_id at_ : episodes (capture_failure d job_id at_) = episodes d.
Proof. unfold capture_failure. destruct (fetchone _ _); [|done]. by destruct (exists_row _ _). Qed.

Lemma transition_keeps d job_id status at_ why d' : transition d job_id status at_ why = Ok d' → keeps d d'.
Proof.
  intros E. destruct (remediation_of_job (d_uploads d) job_id) as [r|] eqn:Er.
  - destruct (transition_writes _ _ _ _ _ _ _ Er E) as (j & state & phase & reason & Hj & _ & Hw & He & _).
    eapply keeps_then; [|exact He]. apply keeps_update_one; [done | by eapply remediation_of_job_in|].
    apply job_by_id_id in Hj as Hid. destruct Hid as [_ Hid].
    assert (Hv : ∀ v, rm_archive_version_id r = Some v → rm_archive_version_id (moved j state phase reason at_ r) = Some v) by (by intros v Hv; cbn; rewrite Hv).
    assert (Hb : rm_retry_count r ≤ rm_retry_count (moved j state phase reason at_ r)) by (cbn; lia).
    destruct Hw as [(-> & -> & _ & [[Hs Hby]|[Hs Hreq]])|(_ & Hs & Hc & Hres)].
    + split; try done; [by rewrite Hs|]. intros _. cbn. split; [done|]. split; [by intros x ->|by intros t ->].
    + rewrite <- Hid in Er. apply (require_job_open d (as_claimed j) r) in Er as [Ho _]; [|done]. by apply open_advances.
    + by split.
  - unfold transition in E. rewrite Er in E. injection E as <-. destruct (status =b "failed"); [apply keeps_same, capture_failure_episodes|].
    destruct (status =b "completed"); [apply resolve_void_keeps | done].
Qed.

Lemma fold_invalidate d at_ l : episodes (foldl (fun d v => invalidate v at_ d) d l) = episodes d.
Proof. revert d. induction l as [|v l IH]; intros d; cbn; [done|]. by rewrite IH. Qed.

(** Re-arming is fenced: the answer that nothing was written is recorded first, and
    that requires the episode of the Job to be open. *)
Lemma linked_is_job t job_id r :
  NoDup (map rl_job_id (ut_remediation_jobs t)) → NoDup (map rm_id (ut_remediations t)) → r ∈ ut_remediations t →
  episode_linked t job_id r = true → remediation_of_job t job_id = Some r.
Proof.
  intros Hl Hu Hr H. unfold episode_linked in H. bsimpl. apply exists_row_true in H0 as (b & Hb & Hp). bsimpl.
  unfold remediation_of_job. apply (fetchone_unique rm_id); [done| |done|].
  - intros x Hx. apply exists_row_true in Hx as (b' & Hb' & Hp'). bsimpl.
    assert (b' = b) as ->; [|congruence]. apply (NoDup_key_inj _ _ _ _ Hl Hb' Hb). congruence.
  - apply exists_row_true. exists b. split; [done|]. by rewrite !bool_decide_eq_true_2.
Qed.

Lemma no_write_uploads d job i op at_ d' :
  record_no_write sha256 d job i op at_ = Ok d' →
  require_target d job (ui_target i) = Ok tt ∧ d_catalog d' = d_catalog d
  ∧ ut_remediation_jobs (d_uploads d') = ut_remediation_jobs (d_uploads d).
Proof.
  unfold record_no_write. intros E. inv_ok. destruct r. subst d'. cbn. unfold insert_receipt.
  match goal with |- context [if ?b then _ else _] => by destruct b end.
Qed.

Lemma target_requires_job d job pinned : require_target d job pinned = Ok tt → require_job d job = Ok tt.
Proof.
  unfold require_target. destruct (tg_provider _); [|done]. intros E. inv_ok. unfold target in E0. inv_ok. by destruct r0.
Qed.

Lemma rearm_keeps d job i at_ d' :
  NoDup (map rl_job_id (ut_remediation_jobs (d_uploads d))) → rearm_after_proven_absence sha256 d job i at_ = Ok d' → keeps d d'.
Proof.
  unfold rearm_after_proven_absence. intros Hl E. inv_ok. subst d'. pose proof (record_no_write_episodes _ _ _ _ _ _ _ E0) as Ee.
  apply no_write_uploads in E0 as (Ht & Hc & Hj). apply target_requires_job in Ht. unfold release_for_rearm.
  match goal with |- keeps d (foldl _ (update_episodes ?p ?f ?x) _) => set (d1 := x) end.
  match goal with |- keeps d (foldl _ (update_episodes ?p ?f _) _) => set (q := p); set (g := f) end.
  assert (E1 : episodes d1 = episodes d) by (unfold d1; destruct (ju_reconcile_only _); exact Ee).
  assert (J1 : ut_remediation_jobs (d_uploads d1) = ut_remediation_jobs (d_uploads d)) by (unfold d1; destruct (ju_reconcile_only _); exact Hj).
  eapply keeps_then; [|apply fold_invalidate]. etrans; [by apply (keeps_same d d1)|]. apply keeps_update; [done|].
  intros Hu x Hx Hq. unfold q in Hq. bsimpl. apply open_advances; try done. unfold unique_ids in Hu. rewrite E1 in Hu, Hx.
  eapply (require_job_open d job x); [|done]. apply linked_is_job; [done|done|done|]. unfold episode_linked in *. by rewrite J1 in H.
Qed.

Lemma record_cleanup_keeps d job_id inv : keeps d (record_cleanup d job_id inv).
Proof. apply keeps_update; [done|]. intros _ r _ _. by split. Qed.

(** ** Resumption, retry and sweep *)
Lemma legacy_episodes d v path u at_ g d' q : schedule_resume_legacy sha256 d v path u at_ g = Ok (d', q) → episodes d' = episodes d.
Proof.
  unfold schedule_resume_legacy. intros E. inv_ok. destruct (fetchone _ _); [|done]. inv_ok. destruct r3 as [[size w] requested]. inv_ok.
  simplify_eq. destruct r2; [by apply bind_for_resume_episodes in E5 | by simplify_eq].
Qed.

Lemma resume_block_keeps d v path u at_ d' q : resume_block sha256 isoformat new_id d v path u at_ = Ok (d', q) → keeps d d'.
Proof.
  unfold resume_block. intros E. inv_ok. destruct r as [d1 q1]. apply legacy_episodes in E0. destruct (job_by_id _ _) as [j|]; [|done]. inv_ok.
  destruct r as [d2 episode]. apply enroll_keeps in E1 as [Hk Hin]. destruct episode as [r|]; [|done].
  destruct (rm_state r ∈b _) eqn:Eo; inv_ok; [done|]. simplify_eq. apply insert_link_episodes in E1 as [E1 _].
  assert (Hk2 : keeps d d2) by (etrans; [by apply keeps_same | exact Hk]). eapply keeps_then; [|exact E1]. etrans; [exact Hk2|].
  bsimpl. apply (keeps_update_one _ (update_jobs (fun x => j_id x =b j_id j) (set_job_evidence r) d2)); [done | by apply Hin|].
  apply open_advances; try done. by eapply open_of_states; [done|reflexivity].
Qed.

Lemma schedule_resume_keeps d v path u at_ id d' q : schedule_resume sha256 isoformat new_id d v path u at_ id = Ok (d', q) → keeps d d'.
Proof.
  unfold schedule_resume. destruct (fetchone _ _) as [p|]; [|done]. destruct (vault_row _ _) as [w|]; [|done]. intros E. inv_ok.
  apply discover_file_keeps in E0. etrans; [exact E0|].
  destruct (take 8 _) as [|r1 rows]; [by apply resume_block_keeps in E|].
  destruct (if _ && _ && _ then _ else _) as [|x []]; try done. inv_ok. destruct r0 as [d1 admitted]. apply admit_keeps in E1.
  destruct admitted; inv_ok; [by simplify_eq | done].
Qed.

Lemma intercept_keeps d v f u at_ automatic g d' h r : intercept_upload sha256 isoformat new_id d v f u at_ automatic g = Ok (d', h, r) → keeps d d'.
Proof.
  unfold UploadRemediation.intercept_upload. destruct (vault_row _ _); [|done]. intros E. inv_ok. apply discover_file_keeps in E0. etrans; [exact E0|].
  destruct (fetchone _ _); inv_ok; [|by simplify_eq]. destruct r2 as [d1 admitted]. inv_ok. simplify_eq. by apply admit_keeps in E1.
Qed.

Lemma discover_original_keeps v at_ d j d' : discover_original sha256 isoformat new_id v at_ d j = Ok d' → keeps d d'.
Proof.
  unfold discover_original. intros E. inv_ok. destruct r as [d1 x]. inv_ok. subst d'. apply enroll_keeps in E0 as [H _]. by eapply keeps_then.
Qed.

Lemma admit_counted_keeps v u at_ explicit st r st' : admit_counted new_id v u at_ explicit st r = Ok st' → keeps st.1 st'.1.
Proof. unfold admit_counted. intros E. inv_ok. subst st'. destruct r0. by apply admit_keeps in E0. Qed.

Lemma retry_vault_keeps d v u at_ st : retry_vault sha256 isoformat new_id d v u at_ = Ok st → keeps d st.1.
Proof.
  unfold retry_vault. intros E. inv_ok. apply fold_counted_keeps in E; [|intros; by eapply admit_counted_keeps].
  apply fold_keeps in E0; [|intros; by eapply discover_original_keeps]. by etrans.
Qed.

Lemma sweep_vault_keeps name at_ n st v st' : sweep_vault sha256 isoformat new_id name at_ n st v = Ok st' → keeps st.1 st'.1.
Proof.
  unfold sweep_vault. destruct (name =b "discovery"); [intros E; inv_ok; subst st'; eapply fold_keeps; [|exact E0]; intros; by eapply discover_original_keeps|].
  destruct (name =b "facts"); [intros E; inv_ok; subst st'; by eapply drain_keeps|].
  destruct (owner_user_id _); [|by intros [= <-]]. apply fold_counted_keeps. intros s r s'. unfold sweep_episode.
  destruct (_ ≫= _) as [j|]; [|apply admit_counted_keeps]. destruct (j_status j =b _); [|apply admit_counted_keeps].
  intros E. inv_ok. subst s'. by apply transition_keeps in E0.
Qed.

Lemma sweep_keeps locked d at_ n m st : sweep sha256 isoformat new_id locked d at_ n m = Ok st → keeps d st.1.
Proof.
  intros E. apply (fold_counted_keeps _ _ (d, 0)) in E; [done|]. intros s name s'. unfold sweep_pass.
  destruct (fair_vaults s.1 name at_) as [d1 vaults] eqn:Ef. intros E1.
  assert (H1 : keeps s.1 d1) by (apply keeps_same; unfold fair_vaults in Ef; destruct (fetchone _ _); by simplify_eq).
  apply fold_counted_keeps in E1; [by etrans; [exact H1|]|]. intros s1 v s2. unfold sweep_turn.
  destruct (vault_row _ _) as [w|]; [|intros [= <-]; by apply keeps_same]. destruct (locked _); [intros [= <-]; by apply keeps_same|].
  intros E2. apply sweep_vault_keeps in E2. etrans; [|exact E2]. by apply keeps_same.
Qed.

(** ** The claims *)

(** The steps of the remediation, in any order and for any file; [episode_elsewhere]: any
    change of the other tables.  A Job is linked to one episode, by the key of
    [upload_remediation_jobs]. *)
Inductive episode_step : worker_db → worker_db → Prop :=
  | step_enroll d original v at_ i av d' r : enroll d original v at_ i av = Ok (d', r) → episode_step d d'
  | step_drain d v at_ limit file n d' : drain d v at_ limit file n = Ok d' → episode_step d d'
  | step_admit d id v u at_ automatic explicit g d' r : admit_episode d id v u at_ automatic explicit g = Ok (d', r) → episode_step d d'
  | step_intercept d v f u at_ automatic g d' h r :
      intercept_upload sha256 isoformat new_id d v f u at_ automatic g = Ok (d', h, r) → episode_step d d'
  | step_resume d v path u at_ id d' q : schedule_resume sha256 isoformat new_id d v path u at_ id = Ok (d', q) → episode_step d d'
  | step_retry d v u at_ d' n : retry_vault sha256 isoformat new_id d v u at_ = Ok (d', n) → episode_step d d'
  | step_sweep locked d at_ n m d' k : sweep sha256 isoformat new_id locked d at_ n m = Ok (d', k) → episode_step d d'
  | step_transition d job_id status at_ why d' : transition d job_id status at_ why = Ok d' → episode_step d d'
  | step_rearm d job i at_ d' :
      NoDup (map rl_job_id (ut_remediation_jobs (d_uploads d))) → rearm_after_proven_absence sha256 d job i at_ = Ok d' → episode_step d d'
  | step_cleanup d job_id inv : episode_step d (record_cleanup d job_id inv)
  | episode_elsewhere d d' : episodes d' = episodes d → episode_step d d'.

Lemma episode_step_keeps d d' : episode_step d d' → keeps d d'.
Proof.
  intros []; eauto using drain_keeps, admit_keeps, intercept_keeps, schedule_resume_keeps, transition_keeps, rearm_keeps, record_cleanup_keeps,
    keeps_same.
  - by apply enroll_keeps in H as [? _].
  - by apply retry_vault_keeps in H.
  - by apply sweep_keeps in H.
Qed.

(** C20: an episode is about one exact target for good.  Whatever the remediation does
    afterwards, in any order and interleaved with any change of other tables, its
    row stays, with the same file, intent, pinned target, expected digest, evidence
    and mode; a version once named stays named, the retries used never fall, a
    cancelled episode is never armed again, and a resolved one stays resolved by the
    same Job at the same time. *)
Theorem episodes_only_advance d d' r :
  unique_ids d → rtc episode_step d d' → r ∈ episodes d → ∃ r', r' ∈ episodes d' ∧ advances r r'.
Proof.
  intros Hu Hr. assert (Hk : keeps d d') by (induction Hr as [|d1 d2 d3 Hs _ IH]; [done|]; etrans; [by apply episode_step_keeps|]; apply IH;
    by destruct (episode_step_keeps _ _ Hs Hu)). destruct (Hk Hu) as [_ H]. apply H.
Qed.

Lemma completion_cleaned d r j :
  completion_holds d r j = true →
  truthy (j_archive_version_id j) = true
  ∧ (∃ c, c ∈ ut_inventories (d_uploads d) ∧ rm_cleanup_inventory_job_id r = Some (cv_job_id c) ∧ cv_keeper_id c = j_archive_version_id j
          ∧ is_some (cv_completed_at c) = true)
  ∧ (∀ i, load_for_job (d_uploads d) (j_id j) = Some i → ui_settled i = true).
Proof.
  unfold completion_holds. intros H. bsimpl. destruct (inventory_by_id _ _) as [c|] eqn:Ec; [|done]. bsimpl. split; [done|]. split.
  - unfold inventory_by_id in Ec. destruct (rm_cleanup_inventory_job_id r) as [id|]; [|done]. cbn in Ec. apply fetchone_some in Ec as [Hc Hp].
    bsimpl. exists c. split_and!; try done. congruence.
  - intros i Hi. by rewrite Hi in H.
Qed.

Lemma require_job_version d j r :
  remediation_of_job (d_uploads d) (j_id j) = Some r → job_by_id d (j_id j) = Some j → require_job d (as_claimed j) = Ok tt →
  truthy (rm_archive_version_id r) = true → j_archive_version_id j = rm_archive_version_id r.
Proof.
  unfold require_job. cbn. intros -> ->. intros E Ht. inv_ok. destruct (vault_row _ _) as [v|]; [|done]. apply raise_if_ok in E. rewrite Ht in E.
  bsimpl. cbn in *. by bsimpl.
Qed.

(** The key of the table, ids that are not empty, and no resolver before the end. *)
Record sound_episodes (d : worker_db) : Prop := {
  se_ids : unique_ids d;
  se_versions : ∀ r, r ∈ episodes d → rm_archive_version_id r ≠ Some "";
  se_open : ∀ r, r ∈ episodes d → rm_state r ≠ "resolved" → rm_resolved_by_job_id r = None;
}.

(** The episode is resolved by this Job, on a version whose clean-up is completed. *)
Definition cleaned_by (d : worker_db) (job_id : Z) (j : job) (r' : remediation) : Prop :=
  job_by_id d job_id = Some j ∧ rm_resolved_by_job_id r' = Some job_id
  ∧ truthy (j_archive_version_id j) = true ∧ rm_archive_version_id r' = j_archive_version_id j
  ∧ ∃ c, c ∈ ut_inventories (d_uploads d) ∧ rm_cleanup_inventory_job_id r' = Some (cv_job_id c)
      ∧ cv_keeper_id c = j_archive_version_id j ∧ is_some (cv_completed_at c) = true.

Lemma resolve_void_resolves d job_id at_ r' :
  r' ∈ episodes (resolve_void d job_id at_) → r' ∈ episodes d
  ∨ ∃ r j, r ∈ episodes d ∧ rm_id r = rm_id r' ∧ is_open r ∧ cleaned_by d job_id j r' ∧ VOID_SQL (d_uploads d) r = true
      ∧ ∃ av, av ∈ t_versions (d_catalog d) ∧ Some (av_id av) = j_archive_version_id j ∧ av_integrity av = Verified.
Proof.
  unfold resolve_void. destruct (job_by_id d job_id) as [j|] eqn:Ej; [|by left]. destruct (_ && _) eqn:Ea; [|by left].
  destruct (newest_cleanup _ _) as [c|] eqn:Ec; [|by left]. destruct (void_episode _ _) as [r|] eqn:Er; [|by left].
  destruct (exists_row (fun av => _) _) eqn:Ev; [|by left]. apply exists_row_true in Ev as (av & Hav & Hv).
  unfold void_episode in Er. apply head_Some_elem_of in Er. rewrite sort_by_perm in Er. apply elem_of_select in Er as [Hr Hp].
  apply latest_some in Ec as [Hc _]. apply elem_of_select in Hc as [Hc Hk]. bsimpl.
  rewrite invalidate_episodes. intros Hx. unfold update_episodes in Hx. cbn in Hx. apply elem_of_update_where in Hx as (x & Hx & ->).
  assert (Hx' : x ∈ episodes d) by (destruct (exists_row (fun b => rl_job_id b =b job_id) _); exact Hx). clear Hx.
  destruct (rm_id x =b rm_id r) eqn:Eid; [|by left]. right. bsimpl. exists r, j. split_and!; try done.
  - by eapply open_of_states; [done|reflexivity].
  - split_and!; try done. by exists c.
  - by exists av.
Qed.

(** C21: an episode is resolved only by a Job that completes on the exact keeper: the
    version the Job ended with is the version of the episode, a clean-up that kept
    exactly this version has been completed, and either the Job is the attempt of
    the episode, which may only reconcile or whose send was proved absent, with its
    intent settled, no failed original cancelled and the episode open until then, or
    the send of the episode was proved absent, never started again, and the version
    the ordinary upload left is verified. *)
Theorem resolution_needs_cleaned_keeper d job_id status at_ why d' r' :
  sound_episodes d → transition d job_id status at_ why = Ok d' → r' ∈ episodes d' → rm_state r' = "resolved" →
  (∃ r, r ∈ episodes d ∧ rm_id r = rm_id r' ∧ rm_state r = "resolved")
  ∨ ∃ r j, r ∈ episodes d ∧ rm_id r = rm_id r' ∧ is_open r ∧ status = "completed" ∧ cleaned_by d job_id j r'
      ∧ ((rm_current_job_id r = Some job_id ∧ original_cancelled d (rm_id r) = false
          ∧ (ju_reconcile_only (j_upload j) = true ∨ proven_absent (d_uploads d) (rm_intent_id r) = true)
          ∧ ∀ i, load_for_job (d_uploads d) job_id = Some i → ui_settled i = true)
         ∨ (VOID_SQL (d_uploads d) r = true
            ∧ ∃ av, av ∈ t_versions (d_catalog d) ∧ Some (av_id av) = j_archive_version_id j ∧ av_integrity av = Verified)).
Proof.
  intros [Hu Hne Hnr] E Hr' Hres. destruct (remediation_of_job (d_uploads d) job_id) as [r|] eqn:Er.
  - destruct (transition_writes _ _ _ _ _ _ _ Er E) as (j & state & phase & reason & Hj & Hcur & Hw & He & _ & _).
    rewrite He in Hr'. unfold update_episodes in Hr'. cbn in Hr'. apply elem_of_update_where in Hr' as (x & Hx & ->).
    pose proof (remediation_of_job_in _ _ _ Er) as Hr.
    destruct (rm_id x =b rm_id r) eqn:Eid; [|by left; exists x]. bsimpl. assert (x = r) as -> by by apply (NoDup_key_inj _ _ _ _ Hu Hx Hr).
    cbn in Hres. destruct Hw as [(-> & -> & Hc & [[Hs _]|[Hs Hreq]])|(_ & _ & _ & Hn)]; [by left; exists r| |by apply Hn in Hres].
    apply job_by_id_id in Hj as Hid. destruct Hid as [_ Hid]. destruct (completion_cleaned _ _ _ Hc) as (Ht & (c & Hc1 & Hc2 & Hc3 & Hc4) & Hset).
    subst job_id. destruct (require_job_open d (as_claimed j) r Er Hreq) as [Ho Hoc].
    right. exists r, j. split_and!; try done.
    + split_and!; try done; [| |by exists c].
      * cbn. by rewrite (Hnr r Hr Hs).
      * cbn. destruct (rm_archive_version_id r) as [v|] eqn:Ev; [|done]. symmetry. rewrite <- Ev. apply (require_job_version d j r); try done.
        rewrite Ev. destruct v; [by apply (Hne r) in Ev | done].
    + left. unfold completion_holds in Hc. bsimpl. split_and!; try done. by destruct (ju_reconcile_only _); [left|right].
  - unfold transition in E. rewrite Er in E. injection E as <-. 
    destruct (status =b "failed"); [rewrite capture_failure_episodes in Hr'; by left; exists r'|].
    destruct (status =b "completed") eqn:Ec; [|by left; exists r']. bsimpl.
    destruct (resolve_void_resolves _ _ _ _ Hr') as [H|(r & j & H1 & H2 & H3 & H4 & H5 & H6)]; [by left; exists r'|].
    right. exists r, j. split_and!; try done. by right.
Qed.

(** ** What an admission authorises *)
Definition in_place (d : worker_db) (r : remediation) (v : vault) : Prop :=
  suspended v = false ∧ root_changed v (rm_target r) = false
  ∧ ∃ f p, file_and_path d (rm_vault_file_id r) (va_id v) = Some (f, p) ∧ vf_status f = Active
           ∧ fp_path p = tg_path (rm_target r) ∧ Some (fp_valid_from p) = tg_path_since (rm_target r).

Definition undisturbed (d : worker_db) (r : remediation) : Prop :=
  (∀ k, k ∈ t_jobs (d_catalog d) → j_vault_file_id k = rm_vault_file_id r → terminal_job k = true)
  ∧ (∀ i, i ∈ t_items (d_catalog d) → cdi_vault_file_id i = rm_vault_file_id r → cdi_status i ≠ "pending").

Lemma suspension_none d r v automatic :
  suspension d r v automatic = None →
  in_place d r v ∧ undisturbed d r
  ∧ (automatic = true → auto_upload (get_policy (d_catalog d) (va_id v)) = true
                        ∧ auto_upload_path_is_included (tg_path (rm_target r)) (get_policy (d_catalog d) (va_id v)) = true).
Proof.
  unfold suspension. destruct (suspended v) eqn:Es; [done|]. destruct (root_changed _ _) eqn:Er; [done|].
  destruct (file_and_path _ _ _) as [[f p]|] eqn:Ef; [|done]. destruct (_ || _) eqn:Eo; [done|]. destruct (truthy _); [done|].
  destruct (unsettled_send _ _); [done|]. destruct (file_busy _ _) eqn:Eb; [done|]. destruct (exists_row _ _) eqn:Ei; [done|].
  destruct (source_failing _ _); [done|]. intros H. bsimpl. split; [|split].
  - split_and!; try done. exists f, p. by split_and!.
  - split; [by apply file_idle|]. intros i Hi Hf Hs. apply (proj1 (exists_row_false _ _)) with (r := i) in Ei; [|done].
    by rewrite (bool_decide_eq_true_2 _ Hf), (bool_decide_eq_true_2 _ Hs) in Ei.
  - intros ->. destruct (_ || _) eqn:Ep; [done|]. by bsimpl.
Qed.

Lemma queue_attempt_job d r v u at_ automatic group d' res :
  queue_attempt d r v u at_ automatic group = Ok (d', res) →
  match res with
  | None => d' = d
  | Some (id, _) => ∃ j, t_jobs (d_catalog d') = t_jobs (d_catalog d) ++ [j] ∧ j_id j = id ∧ same_inventory (d_catalog d') (d_catalog d)
      ∧ j = reconcile_job id (va_id v) (rm_vault_file_id r) (tg_path (rm_target r)) (rm_archive_version_id r) (Some u) at_ group
              (if automatic then "automatic" else "manual") (rm_size r)
              {| ju_plaintext_sha256 := rm_expected_sha256 r; ju_snapshot := rm_snapshot r; ju_reconcile_only := true;
                 ju_retry_count := rm_retry_count r |} (Some (rm_requested_mode r))
      ∧ has_active_job (d_catalog d) (rm_vault_file_id r) = false
  end.
Proof.
  unfold queue_attempt. destruct (exists_row _ _) eqn:Ex; [by intros [= <- <-]|]. intros E. inv_ok. simplify_eq.
  apply insert_link_episodes in E1 as [_ E1].
  assert (Hb : d_catalog r0 = d_catalog (append_job (reconcile_job (next_id (map j_id (t_jobs (d_catalog d)))) (va_id v) (rm_vault_file_id r)
      (tg_path (rm_target r)) (rm_archive_version_id r) (Some u) at_ group (if automatic then "automatic" else "manual") (rm_size r)
      {| ju_plaintext_sha256 := rm_expected_sha256 r; ju_snapshot := rm_snapshot r; ju_reconcile_only := true;
         ju_retry_count := rm_retry_count r |} (Some (rm_requested_mode r))) d)).
  { unfold bind_intent in E0. destruct (truthy _); [|by simplify_eq]. destruct (fetchone _ _); [|done]. by apply bind_for_resume_jobs in E0. }
  eexists. change (d_catalog (invalidate _ _ (update_episodes _ _ r1))) with (d_catalog r1). rewrite E1, Hb. by split_and!.
Qed.

(** C22: admitting an episode authorises one attempt at reconciliation and no send: the
    one Job it queues may only reconcile and carries the digest, the evidence, the
    version, the path and the retries of the episode, which is open, not void and of
    no cancelled original; the Vault is in service on the pinned root, the file is
    active at the pinned path since the pinned time, no other Job is at work on it
    and no deletion is pending; an automatic admission also needs the policy.  When
    no Job is queued the catalog is unchanged. *)
Theorem admission_authorises_no_send d id v u at_ automatic explicit g d' res :
  admit_episode d id v u at_ automatic explicit g = Ok (d', res) →
  match res with
  | None => d_catalog d' = d_catalog d
  | Some (job_id, _) =>
      ∃ r j, episode_by_id d id = Some r ∧ is_open r ∧ void (d_uploads d) r = false ∧ original_cancelled d (rm_id r) = false
        ∧ in_place d r v ∧ undisturbed d r
        ∧ (automatic = true → auto_upload_path_is_included (tg_path (rm_target r)) (get_policy (d_catalog d) (va_id v)) = true)
        ∧ t_jobs (d_catalog d') = t_jobs (d_catalog d) ++ [j] ∧ j_id j = job_id ∧ j_status j = "queued"
        ∧ j_vault_file_id j = rm_vault_file_id r ∧ j_path j = tg_path (rm_target r) ∧ j_archive_version_id j = rm_archive_version_id r
        ∧ j_upload j = {| ju_plaintext_sha256 := rm_expected_sha256 r; ju_snapshot := rm_snapshot r; ju_reconcile_only := true;
                          ju_retry_count := rm_retry_count r |}
  end.
Proof.
  unfold UploadRemediation.admit_episode. destruct (episode_by_id d id) as [r|] eqn:Er; [|done].
  destruct (_ || _) eqn:Eo; [by intros [= <- <-]|]. bsimpl.
  destruct (original_cancelled _ _) eqn:Ec; [by intros [= <- <-]|]. destruct (suspension _ _ _ _) eqn:Es; [by intros [= <- <-]|].
  intros E. inv_ok. destruct r0 as [reason|]; [by injection E as <- <-|]. apply queue_attempt_job in E. destruct res as [[job_id group]|]; [|by subst].
  destruct E as (j & Hj & Hid & _ & -> & _). apply suspension_none in Es as (Hp & Hn & Ha). exists r. eexists.
  pose proof (refused_open _ _ _ H) as Ho. unfold refused_at_once in H. bsimpl. split_and!; try done. intros Hau. by apply Ha in Hau as [_ ?].
Qed.

(** ** Interception *)
Lemma reject_catalog d original at_ reason : d_catalog (reject d original at_ reason) = d_catalog d.
Proof. unfold reject. destruct original; [|done]. destruct (fetchone _ _); [|done]. by case_bool_decide. Qed.

Lemma conclude_catalog d original v o reason at_ r : d_catalog (conclude_enrolment d original v o reason at_ r) = d_catalog d.
Proof.
  unfold conclude_enrolment. cbn. destruct (_ && _); [apply reject_catalog|]. unfold link_original. destruct original; [|done]. by destruct (exists_row _ _).
Qed.

Lemma enroll_catalog d original v at_ i av d' r : enroll d original v at_ i av = Ok (d', r) → d_catalog d' = d_catalog d.
Proof.
  unfold UploadDiscovery.enroll. destruct (look_up _ _ _ _ _) as [|reason|x|o]; intros E; [by simplify_eq|injection E as <- _; apply reject_catalog|by simplify_eq|].
  unfold enroll_obligation in E. inv_ok. destruct r1 as [[p key] reason0]. inv_ok. cbn zeta in E.
  destruct (choose_episode _ _ _ _ _ _) as [x|x|].
  - injection E as <- _. by rewrite reject_catalog.
  - destruct ((rm_state x <>b "resolved") && _ && _); injection E as <- _; by rewrite conclude_catalog.
  - inv_ok. simplify_eq. rewrite conclude_catalog. unfold insert_episode in E2. inv_ok. by subst.
Qed.

Lemma discover_file_catalog d v file at_ d' : discover_file d v file at_ = Ok d' → d_catalog d' = d_catalog d.
Proof.
  unfold UploadRemediation.discover_file. intros E. inv_ok.
  apply (foldM_r_invariant (fun s => d_catalog s = d_catalog d)) in E0; [|intros s x s' _ Hs E1; unfold enroll_original in E1; inv_ok;
    destruct r0 as [d1 y]; inv_ok; subst s'; apply enroll_catalog in E2; congruence|done].
  rewrite <- E0. unfold UploadDiscovery.drain in E. revert E. set (d1 := if is_some _ then _ else _).
  assert (Hd1 : d_catalog d1 = d_catalog r) by (unfold d1; by destruct (is_some _)). rewrite <- Hd1. clearbody d1. clear - d1.
  apply (foldM_r_invariant (fun s => d_catalog s = d_catalog d1)); [|done]. intros s f s' _ Hs E. unfold drain_fact in E.
  destruct (file_busy _ _); [injection E as <-; exact Hs|]. inv_ok. destruct r as [d2 y]. inv_ok. subst s'. apply enroll_catalog in E0. cbn. congruence.
Qed.

(** The interface of [Catalog] over these tables: a call sees the upload tables of
    [d] and the catalog it is given. *)
Definition remediation_interceptor (d : worker_db) : UploadInterceptor := {|
  Catalog.intercept_upload db vault_id file user_id at_ automatic group :=
    match intercept_upload sha256 isoformat new_id (set_catalog db d) vault_id file user_id at_ automatic (Some group) with
    | Ok (d', handled, queued) => Ok (d_catalog d', handled, fst <$> queued)
    | Raise e => Raise e
    end;
|}.

(** C31: interception keeps what the admission of Jobs relies on: it changes no file,
    path, version, copy, policy or Vault; it queues at most one Job, for the file it
    was asked about, none when the file has an active Job and none when it lets the
    ordinary upload go ahead. *)
Theorem interception_keeps_admission_laws d : unique_ids d → @UploadInterceptorLaws (remediation_interceptor d).
Proof.
  intros Hu.
  assert (Hmain : ∀ db v f u at_ auto g db' h r, @Catalog.intercept_upload (remediation_interceptor d) db v f u at_ auto g = Ok (db', h, r) →
    same_inventory db' db ∧ ∃ new, t_jobs db' = t_jobs db ++ new ∧ Forall (fun j => j_vault_file_id j = f) new
      ∧ (h = false → new = []) ∧ (has_active_job db f = true → new = []) ∧ (length new ≤ 1)%nat);
    [|split; intros * E; apply Hmain in E as [? ?]; done].
  intros db v f u at_ auto g db' h r E. cbn in E.
  destruct (intercept_upload _ _ _ _ _ _ _ _ _ _) as [[[d1 h1] q1]|] eqn:E0; [|done]. simplify_eq.
  unfold UploadRemediation.intercept_upload in E0. destruct (vault_row _ _) as [w|]; [|done]. inv_ok.
  pose proof (discover_file_keeps _ _ _ _ _ E) as Hk. apply discover_file_catalog in E. cbn in E.
  assert (Hu0 : unique_ids r) by (apply Hk; exact Hu).
  assert (Hnone : ∀ x, d_catalog x = db → same_inventory (d_catalog x) db ∧ ∃ new, t_jobs (d_catalog x) = t_jobs db ++ new
    ∧ Forall (fun j => j_vault_file_id j = f) new ∧ (h = false → new = []) ∧ (has_active_job db f = true → new = []) ∧ (length new ≤ 1)%nat).
  { intros x ->. split; [done|]. exists []. rewrite app_nil_r. split_and!; try done. cbn. lia. }
  destruct (fetchone _ _) as [e|] eqn:Ee; [|simplify_eq; by apply Hnone]. inv_ok. destruct r0 as [d2 admitted]. inv_ok. simplify_eq.
  unfold UploadRemediation.admit_episode in E1. destruct (episode_by_id r (rm_id e)) as [x|] eqn:Ex; [|done].
  apply fetchone_some in Ee as [Hin _]. apply elem_of_take in Hin as (n & Hn & _). apply list_elem_of_lookup_2 in Hn. rewrite sort_by_perm in Hn.
  apply elem_of_select in Hn as [Hin Hp]. bsimpl. apply episode_by_id_in in Ex as [Hx Hid].
  assert (x = e) as -> by by apply (NoDup_key_inj _ _ _ _ Hu0 Hx Hin).
  destruct (_ || _); [simplify_eq; by apply Hnone|]. destruct (original_cancelled _ _); [simplify_eq; by apply Hnone|].
  destruct (suspension _ _ _ _); [simplify_eq; by apply Hnone|]. inv_ok. destruct r0; [simplify_eq; by apply Hnone|].
  apply queue_attempt_job in E1. destruct q1 as [[id g']|]; [|subst; by apply Hnone].
  destruct E1 as (j & Hj & _ & Hs & -> & Hna). split; [done|]. eexists. split; [exact Hj|].
  split_and!; try done; [by repeat constructor | congruence].
Qed.
End facts.

(** ** Witnesses *)
Definition w_isoformat (_ : timestamp) : string := "2024-01-01T00:00:00+00:00".
Definition w_new_id (t : upload_tables) : string := "episode-" +:+ pretty (length (ut_remediations t)).

(** The lost send of [UploadResume] becomes an episode, which is admitted. *)
Definition w_enrolled : worker_db :=
  match enroll w_prefix_hash w_isoformat w_new_id w_lost_db (head (t_jobs (d_catalog w_lost_db))) w_vault 10 None None with
  | Ok (d, _) => d
  | _ => w_lost_db
  end.
Definition w_admit : result (worker_db * option (Z * string)) := admit_episode w_new_id w_enrolled "episode-0" w_vault 7 11 false true (Some "group").
Definition w_admitted : worker_db := match w_admit with Ok (d, _) => d | _ => w_enrolled end.

Lemma admission_authorises_no_send_witness :
  w_admit = Ok (w_admitted, Some (2, "group"))
  ∧ ∃ j, t_jobs (d_catalog w_admitted) = t_jobs (d_catalog w_enrolled) ++ [j] ∧ ju_reconcile_only (j_upload j) = true.
Proof.
  split; [vm_compute; reflexivity|].
  destruct (admission_authorises_no_send w_new_id w_enrolled "episode-0" w_vault 7 11 false true (Some "group") w_admitted (Some (2, "group")))
    as (r & j & _ & _ & _ & _ & _ & _ & _ & Hj & _ & _ & _ & _ & _ & Hu); [vm_compute; reflexivity|].
  exists j. split; [exact Hj|]. by rewrite Hu.
Defined.

(** The attempt found the version, verified it and cleaned up after it. *)
Definition w_cleaned : worker_db :=
  let d := set_uploads (set_inventories [{| cv_job_id := 2; cv_keeper_id := Some "v1"; cv_target := w_pinned; cv_inventory := [];
             cv_created_at := 12; cv_completed_at := Some 13 |}] (update_intents (fun _ => true) set_settled (d_uploads w_admitted))) w_admitted in
  record_cleanup (update_jobs (fun j => j_id j =b 2) (fun j => set_job_upload (Some "v1") (j_upload j) j) d) 2 2.
Definition w_transition : result worker_db := transition w_cleaned 2 "completed" 14 None.
Definition w_resolved : worker_db := match w_transition with Ok d => d | _ => w_cleaned end.
Definition w_episode : remediation := or_default (head (episodes w_resolved)) (new_episode w_vault {| ob_file := ""; ob_intent := None;
  ob_version := None; ob_path := None; ob_block := None |} {| pe_snapshot := None; pe_expected := None; pe_size := 0; pe_mode := "";
  pe_reason := None |} w_pinned "" "" "" None 0 0).

Lemma resolution_needs_cleaned_keeper_witness :
  w_transition = Ok w_resolved ∧ rm_state w_episode = "resolved"
  ∧ ∃ j, cleaned_by w_cleaned 2 j w_episode.
Proof.
  split; [vm_compute; reflexivity|]. split; [vm_compute; reflexivity|].
  destruct (resolution_needs_cleaned_keeper w_cleaned 2 "completed" 14 None w_resolved w_episode) as [(r & Hr & _ & Hs)|(r & j & _ & _ & _ & _ & H & _)].
  - split.
    + vm_compute. apply NoDup_singleton.
    + intros r Hr. vm_compute in Hr. apply list_elem_of_singleton in Hr as ->. discriminate.
    + intros r Hr _. vm_compute in Hr. apply list_elem_of_singleton in Hr as ->. reflexivity.
  - vm_compute. reflexivity.
  - vm_compute. left.
  - vm_compute. reflexivity.
  - vm_compute in Hr. apply list_elem_of_singleton in Hr as ->. discriminate Hs.
  - exists j. exact H.
Defined.

Lemma episodes_only_advance_witness :
  ∃ r', r' ∈ episodes w_resolved ∧ advances (or_default (head (episodes w_enrolled)) w_episode) r' ∧ rm_state r' = "resolved".
Proof.
  destruct (episodes_only_advance w_prefix_hash w_isoformat w_new_id w_cleaned w_resolved (or_default (head (episodes w_cleaned)) w_episode))
    as (r' & Hr' & Ha).
  - vm_compute. apply NoDup_singleton.
  - apply rtc_once, (step_transition _ _ _ _ 2 "completed" 14 None). vm_compute. reflexivity.
  - vm_compute. left.
  - exists r'. split; [exact Hr'|]. vm_compute in Hr'. apply list_elem_of_singleton in Hr' as ->. split; [|reflexivity].
    clear Ha. split; try (vm_compute; split_and!; reflexivity); try (by vm_compute).
Defined.

Lemma interception_keeps_admission_laws_witness : @UploadInterceptorLaws (remediation_interceptor w_prefix_hash w_isoformat w_new_id w_enrolled).
Proof. apply (interception_keeps_admission_laws w_prefix_hash w_isoformat w_new_id w_enrolled). vm_compute. apply NoDup_singleton. Defined.
