(* ===== verification/WorkerPurge.v ===== *)
(** * WorkerPurge: the permanent deletion of a claimed group

    Models [process_cloud_purge], [_release_preflight_purge_claim],
    [_reconcile_job_transition] and [_reconcile_cloud_purge_group] of
    [src/app/storage.py].  Together with [VaultMoves.process] these are the only
    places of the worker modelled here that delete in the cloud.

    The deletion re-validates the consent ([CloudDeletion.validate_execution])
    and renews the lease of every member of the group in one transaction before
    each request of at most a thousand targets, and again renews all leases
    before each result is written.  The file system seen by a validation is read
    from [file_system]; [exn_text] is [str(exc)]. *)
From S2P Require Import Prelude Sql PyString Json Schema DirtyMarks JobScheduler JobClaims CloudDeletion Notifications Effects S3Client S3Copy WorkerJobs CloudPreflight.
Open Scope Z_scope.

Definition CLOUD_DELETE_BATCH_SIZE : Z := 1000.

(** The text of a delete error. *)
Definition error_text (e : delete_error) : string :=
  String.append (if truthy (de_code e) then or_default (de_code e) "" else "DeleteError")
    (String.append ": " (if truthy (de_message e) then or_default (de_message e) "" else "S3 rejected the deletion")).

(** [errors.get((key, version))]: a later error of the same target wins. *)
Definition error_for (errors : list delete_error) (i : cloud_deletion_item) : option string :=
  error_text <$> List.find (fun e => bool_decide (de_key e = Some (cdi_object_key i))
                                     && bool_decide (de_version e = Some (cdi_provider_version_id i))) (rev errors).

Definition unidentifiable (e : delete_error) : bool := negb (truthy (de_key e)) || negb (truthy (de_version e)).

(** What the answer of the provider says about the items of a batch: which are
    deleted and which failed, with their text. *)
Definition batch_outcome (exn_text : exn → string) (batch : list cloud_deletion_item) (answer : result (list delete_error))
  : list Z * list (Z * string) :=
  let all_failed text := ([], map (fun i => (cdi_id i, text)) batch) in
  match answer with
  | Raise e => all_failed (exn_text e)
  | Ok errors =>
      if existsb unidentifiable errors then all_failed "S3 returned an unidentifiable delete error"
      else (map cdi_id (List.filter (fun i => is_none (error_for errors i)) batch),
            omap (fun i => (fun t => (cdi_id i, t)) <$> error_for errors i) batch)
  end.

(** ** Decisions after a restart *)

(** The row [_reconcile_job_transition] writes. *)
Definition reconciled_row (status message : string) (at_ : timestamp) (reset complete : bool) (j : job) : job :=
  set_claim None None None
    {| j_id := j_id j; j_vault_id := j_vault_id j; j_vault_file_id := j_vault_file_id j;
       j_archive_version_id := j_archive_version_id j; j_path := j_path j; j_action := j_action j;
       j_status := status; j_origin := j_origin j; j_message := Some message;
       j_message_key := j_message_key j; j_message_params := j_message_params j;
       j_requested_by := j_requested_by j; j_requested_at := j_requested_at j;
       j_updated_at := at_; j_group_id := j_group_id j; j_group_path := j_group_path j;
       j_total_bytes := j_total_bytes j;
       j_transferred_bytes := if reset then 0 else if complete then j_total_bytes j else j_transferred_bytes j;
       j_reason := j_reason j; j_confirmation_phrase := j_confirmation_phrase j;
       j_restore_tier := j_restore_tier j; j_restore_days := j_restore_days j;
       j_target_storage_class := j_target_storage_class j;
       j_upload_verification_requested := j_upload_verification_requested j;
       j_pending_until := j_pending_until j; j_retry_after := j_retry_after j;
       j_claim_token := j_claim_token j; j_claimed_at := j_claimed_at j;
       j_claim_expires_at := j_claim_expires_at j; j_upload := j_upload j |}.

Definition reconcilable (job_id : Z) (at_ : timestamp) (j : job) : bool :=
  lease_free at_ j && (j_id j =b job_id) && job_is_active j.

Definition reconcile_job_transition (job_id : Z) (status message : string) (at_ : timestamp) (reset complete : bool)
    (d : worker_db) : worker_db * bool :=
  let jobs := t_jobs (d_catalog d) in
  let updated := exists_row (reconcilable job_id at_) jobs in
  let d := on_catalog (set_jobs (update_where (reconcilable job_id at_) (reconciled_row status message at_ reset complete) jobs)) d in
  let d := if updated && is_terminal status then terminal_pending job_id d else d in
  (if updated then dirty_job_protection job_id d else d, updated).

(** [enqueue_job_terminal_notification_best_effort] on the tables. *)
Definition notify_terminal `{!Messages} (job_id : Z) (at_ : timestamp) (d : worker_db) : worker_db :=
  set_inbox (enqueue_job_terminal_notification_best_effort notification_text weekly_summary_text resolved_upload
               smtp_configured (d_catalog d) (d_inbox d) job_id at_).1 d.

Section purge.
Context {P : Type} `{!Provider P} `{!Environment worker_db} `{!Messages}.
Context (file_system : nat → os_view) (exn_text : exn → string) (credentials : result unit) (probe : eff (world worker_db P) unit).
Context (job : claimed_job).
Notation W := (world worker_db P).

Definition lead_id : Z := j_id (cj_row job).
Definition group_id : string := or_default (j_group_id (cj_row job)) "".
Definition token : string := or_default (j_claim_token (cj_row job)) "".
Definition ctx : option (Z * string) := job_claim_context job.

Definition lost {A} : eff W A := mark_claim_lost ctx lead_id ;;; throw (JobLeaseLost "Cloud purge claim was lost").

(** [if _claim_is_lost(...): _mark_claim_lost(...); raise JobLeaseLost(...)]. *)
Definition stop_if_lost : eff W unit :=
  gone <~ claim_is_lost ctx lead_id ;; if gone : bool then lost else eret tt.

Definition validate (at_ : timestamp) : eff W bool :=
  fs <~ observe file_system ;;
  in_db (fun d => '(c, ok) ← validate_execution fs (d_catalog d) (j_vault_id (cj_row job)) group_id at_; Ok (set_catalog c d, ok)).

(** The conditional renewal of the whole group. *)
Definition renew_group (ids : list Z) (at_ : timestamp) : eff W unit :=
  ok <~ in_db (fun d =>
    let (c, ok) := renew_purge_group_claim (claims_of d) (j_vault_id (cj_row job)) group_id token ids at_ (claim_expiry_at at_) in
    Ok (on_catalog (set_jobs (c_jobs c)) d, ok)) ;;
  if ok : bool then eret tt else lost.

(** The first transaction: consent, then the members and their open items. *)
Definition load_group (at_ : timestamp) : eff W (list Schema.job * list cloud_deletion_item) :=
  transaction (
    ok <~ validate at_ ;;
    if negb ok then eret ([], [])
    else read_db (fun d => load_claimed_purge_group (claims_of d) (t_items (d_catalog d)) lead_id token at_)).

(** The authority for one request: [false] when the consent was withdrawn. *)
Definition authorise_batch (ids : list Z) : eff W bool :=
  at_ <~ now_iso ;;
  transaction (
    ok <~ validate at_ ;;
    if negb ok then eret false
    else stamp <~ now_iso ;; renew_group ids stamp ;;; eret true).

Definition target_of (i : cloud_deletion_item) : string * string := (cdi_object_key i, cdi_provider_version_id i).

Definition request_batch (batch : list cloud_deletion_item) : eff W (result (list delete_error)) :=
  catch (answer <~ delete_objects {| dr_bucket := cj_bucket job; dr_targets := map target_of batch |} ;; eret (Ok answer))
    (fun e => eret (Raise e)).

Definition record_batch (ids deleted : list Z) (failed : list (Z * string)) (returned_at : timestamp) : eff W unit :=
  at_ <~ now_iso ;;
  stop_if_lost ;;;
  transaction (
    renew_group ids at_ ;;;
    stop_if_lost ;;;
    update_db (on_catalog (fun c => mark_items_failed (mark_items_deleted c deleted returned_at) failed returned_at))).

(** One turn of the loop; [None] once the function has returned. *)
Definition purge_batch (ids : list Z) (failures : option Z) (batch : list cloud_deletion_item) : eff W (option Z) :=
  match failures with
  | None => eret None
  | Some failures =>
      ensure_job_active ctx lead_id "Cloud purge stopped" ;;;
      ok <~ authorise_batch ids ;;
      if negb ok then eret None
      else
        answer <~ request_batch batch ;;
        returned_at <~ now_iso ;;
        stop_if_lost ;;;
        let (deleted, failed) := batch_outcome exn_text batch answer in
        record_batch ids deleted failed returned_at ;;;
        eret (Some (failures + Z.of_nat (length failed)))
  end.

Definition finalize_row (at_ : timestamp) (c : catalog) (j : Schema.job) : result catalog :=
  '(c, _) ← finalize_purge_job c (j_id j) (j_vault_file_id j) (j_requested_by j) at_; Ok c.

Definition release_finished (ids : list Z) (c : catalog) : catalog :=
  set_jobs (update_where (fun j => (j_id j ∈b ids) && (j_status j ∈b TERMINAL_JOB_STATUSES)) (set_claim None None None) (t_jobs c)) c.

Definition finalize_group (jobs : list Schema.job) : eff W unit :=
  at_ <~ now_iso ;;
  stop_if_lost ;;;
  transaction (
    renew_group (map j_id jobs) at_ ;;;
    stop_if_lost ;;;
    in_db (fun d => c ← foldM_r (finalize_row at_) (d_catalog d) jobs;
                    Ok (set_catalog (release_finished (map j_id jobs) c) d, tt))).

Definition purge_claimed (jobs : list Schema.job) (items : list cloud_deletion_item) : eff W unit :=
  throw! RuntimeError "Permanent purge is missing its group identity" when negb (truthy (j_group_id (cj_row job))) ;;
  validate_cloud_vault probe ;;;
  lift credentials ;;;
  failures <~ efold (purge_batch (map j_id jobs)) (Some 0) (chunks (Z.to_nat CLOUD_DELETE_BATCH_SIZE) items) ;;
  match failures with
  | Some _ => finalize_group jobs
  | None => eret tt
  end.

Definition process_cloud_purge : eff W unit :=
  ensure_job_active ctx lead_id "Cloud purge stopped" ;;;
  if negb (truthy (j_claim_token (cj_row job))) then eret tt
  else
    at_ <~ now_iso ;;
    pat! (jobs, items) <~ load_group at_ ;;
    if bool_decide (jobs = []) then eret tt else purge_claimed jobs items.

(** ** Back to the queue and after a restart *)
Definition requeue_row (j : Schema.job) : Schema.job :=
  set_claim None None None
    {| j_id := j_id j; j_vault_id := j_vault_id j; j_vault_file_id := j_vault_file_id j;
       j_archive_version_id := j_archive_version_id j; j_path := j_path j; j_action := j_action j;
       j_status := "queued"; j_origin := j_origin j; j_message := j_message j;
       j_message_key := j_message_key j; j_message_params := j_message_params j;
       j_requested_by := j_requested_by j; j_requested_at := j_requested_at j;
       j_updated_at := j_updated_at j; j_group_id := j_group_id j; j_group_path := j_group_path j;
       j_total_bytes := j_total_bytes j; j_transferred_bytes := j_transferred_bytes j;
       j_reason := j_reason j; j_confirmation_phrase := j_confirmation_phrase j;
       j_restore_tier := j_restore_tier j; j_restore_days := j_restore_days j;
       j_target_storage_class := j_target_storage_class j;
       j_upload_verification_requested := j_upload_verification_requested j;
       j_pending_until := j_pending_until j; j_retry_after := j_retry_after j;
       j_claim_token := j_claim_token j; j_claimed_at := j_claimed_at j;
       j_claim_expires_at := j_claim_expires_at j; j_upload := j_upload j |}.

Definition release_preflight_purge_claim : eff W unit :=
  transaction (
    at_ <~ now_iso ;;
    update_db (on_catalog (fun c =>
      set_jobs (update_where (renew_group_where (j_vault_id (cj_row job)) group_id token at_) requeue_row (t_jobs c)) c))).

(** Nothing is reconciled around a live lease or an unexpected status. *)
Definition group_busy (at_ : timestamp) (active : list Schema.job) : bool :=
  bool_decide (active = [])
  || existsb (fun j => truthy (j_claim_token j) && lease_live at_ j) active
  || existsb (fun j => negb (j_status j ∈b ["cleaning"; "queued"])) active.

Context (fuel : nat).

(** The listing of a key, once per key. *)
Definition cached := list (string * (entries * entries)).

Definition listing_of (bucket key : string) (cache : cached) : eff W (cached * (entries * entries)) :=
  match List.find (fun c => c.1 =b key) cache with
  | Some c => eret (cache, c.2)
  | None =>
      lift credentials ;;;
      l <~ object_version_entries fuel bucket key ;;
      eret (cache ++ [(key, l)], l)
  end.

Definition observe_item (bucket : string) (st : cached * list Z) (i : cloud_deletion_item) : eff W (cached * list Z) :=
  pat! (cache, (versions, markers)) <~ listing_of bucket (cdi_object_key i) st.1 ;;
  let source := if cdi_is_version i then versions else markers in
  eret (cache, if has_version (cdi_provider_version_id i) source then st.2 else st.2 ++ [cdi_id i]).

Record reconciled := { rc_requeued : Z; rc_failed : Z }.

Definition reconcile_member (failed : bool) (message : string) (at_ : timestamp) (st : worker_db * reconciled) (j : Schema.job)
  : worker_db * reconciled :=
  let '(d, rc) := st in
  let (d, updated) := reconcile_job_transition (j_id j) (if failed then "failed" else "queued") message at_ false false d in
  if negb updated then (d, rc)
  else if failed then (notify_terminal (j_id j) at_ d, {| rc_requeued := rc_requeued rc; rc_failed := rc_failed rc + 1 |})
  else (d, {| rc_requeued := rc_requeued rc + 1; rc_failed := rc_failed rc |}).

(** [lead] is the claimed row with the bucket of its Vault. *)
Definition reconcile_cloud_purge_group (lead : claimed_job) (at_ : timestamp) : eff W reconciled :=
  let none := {| rc_requeued := 0; rc_failed := 0 |} in
  throw! RuntimeError "Cloud purge is missing its group identity" when negb (truthy (j_group_id (cj_row lead))) ;;
  active <~ read_db (fun d => List.filter job_is_active
                                (group_rows (d_catalog d) (j_vault_id (cj_row lead)) (or_default (j_group_id (cj_row lead)) ""))) ;;
  let jobs := List.filter (fun j => j_status j =b "cleaning") active in
  if group_busy at_ active || bool_decide (jobs = []) then eret none
  else
    items <~ read_db (fun d => sort_by (fun a b => cdi_id a <=? cdi_id b)
                                 (select (fun i => (cdi_job_id i ∈b map j_id jobs) && (cdi_status i ∈b ["pending"; "failed"]))
                                    (t_items (d_catalog d)))) ;;
    let failed := existsb (fun i => cdi_status i =b "failed") items in
    message <~ (if failed then eret "Permanent purge had recorded failures before restart"
                else
                  pat! (_, gone) <~ efold (observe_item (cj_bucket lead)) ([], []) items ;;
                  update_db (on_catalog (fun c => if bool_decide (gone = []) then c else mark_items_deleted c gone at_)) ;;;
                  eret (if (length items =? length gone)%nat
                        then "Permanent purge deletions reconciled after restart; finalizing"
                        else "Permanent purge interrupted before all exact versions were deleted; safely resumed")) ;;
    in_db (fun d => let (d, rc) := foldl (reconcile_member failed message at_) (d, none) jobs in Ok (d, rc)).
End purge.

(** ** Captured items stay what they are *)
Definition same_item (i i' : cloud_deletion_item) : Prop :=
  cdi_id i' = cdi_id i ∧ cdi_job_id i' = cdi_job_id i ∧ cdi_vault_id i' = cdi_vault_id i
  ∧ cdi_vault_file_id i' = cdi_vault_file_id i ∧ item_target i' = item_target i
  ∧ cdi_object_key i' = cdi_object_key i ∧ cdi_provider_version_id i' = cdi_provider_version_id i.

Definition items_kept (c c' : catalog) : Prop :=
  ∀ i, i ∈ t_items c → ∃ i', i' ∈ t_items c' ∧ same_item i i'.

#[global] Instance items_kept_preorder : PreOrder items_kept.
Proof.
  split.
  - intros c i Hi. exists i. by repeat split.
  - intros a b c Hab Hbc i Hi. destruct (Hab i Hi) as (i1 & Hi1 & S1). destruct (Hbc i1 Hi1) as (i2 & Hi2 & S2).
    exists i2. split; [done|]. unfold same_item in *. destruct_and!. repeat split; congruence.
Qed.

Lemma items_kept_eq c c' : t_items c' = t_items c → items_kept c c'.
Proof. intros E i Hi. exists i. rewrite E. by repeat split. Qed.

Lemma items_kept_update (p : cloud_deletion_item → bool) f c l :
  (∀ i, same_item i (f i)) → l = t_items c → items_kept c (set_items (update_where p f l) c).
Proof.
  intros Hf -> i Hi. exists (if p i then f i else i). split; [apply elem_of_update_where; eauto|].
  destruct (p i); [apply Hf | by repeat split].
Qed.

Lemma items_kept_foldl {A} (f : catalog → A → catalog) l c :
  (∀ c x, items_kept c (f c x)) → items_kept c (foldl f c l).
Proof. intros Hf. revert c. induction l as [|x l IH]; intros c; cbn; [done|]. etrans; [apply Hf | apply IH]. Qed.

Lemma cancel_rows_kept c rows at_ actor reason : items_kept c (cancel_rows c rows at_ actor reason).
Proof.
  apply items_kept_foldl. intros c0 j. unfold cancel_row. etrans; [|by apply items_kept_eq].
  etrans; [apply (items_kept_eq c0 (set_jobs (update_where (fun j0 => j_id j0 =b j_id j) (cancel_job_row reason at_) (t_jobs c0)) c0)); done|].
  apply items_kept_update; [by repeat split | done].
Qed.

Lemma mark_deleted_kept c ids at_ : items_kept c (mark_items_deleted c ids at_).
Proof.
  apply items_kept_foldl. intros c0 batch. unfold mark_deleted_batch.
  match goal with |- items_kept _ (foldl _ (invalidate_for_archive_version_ids _ ?c2) _) => set (c2' := c2) end.
  etrans; [|apply items_kept_eq; etrans; [apply same_items, foldl_same; intros; apply mark_file_same | apply same_items, invalidate_versions_same]].
  unfold c2'. match goal with |- items_kept _ (set_items _ ?c1) => etrans; [apply (items_kept_eq c0 c1); done|] end.
  apply items_kept_update; [by repeat split | done].
Qed.

Lemma mark_failed_kept c failures at_ : items_kept c (mark_items_failed c failures at_).
Proof. apply items_kept_foldl. intros c0 batch. apply items_kept_update; [by repeat split | done]. Qed.

Lemma validate_execution_kept fs c vault_id group at_ c' ok :
  validate_execution fs c vault_id group at_ = Ok (c', ok) → items_kept c c'.
Proof.
  destruct ok.
  - unfold validate_execution. rewrite bind_ok. intros (v & _ & H).
    destruct (check_execution _ _ _ _ _ _) as [[]|e]; [by injection H as <-|]. by destruct e.
  - intros (m & ->)%validate_execution_cancels. apply cancel_rows_kept.
Qed.

(** ** The items survive every step *)
Section persistence.
Context {P : Type} `{!Provider P} `{!Environment worker_db} `{!Messages}.
Notation W := (world worker_db P).

(** What the worker relies on from the other processes: the program never
    removes a captured item nor changes what it names. *)
Class ItemsPersist : Prop := others_keep n d : items_kept (d_catalog d) (d_catalog (others n d)).

Definition items_step : relation W := fun w w' => items_kept (d_catalog (w_db w)) (d_catalog (w_db w')).

#[global] Instance items_step_preorder : PreOrder items_step.
Proof. unfold items_step. split; [intros w; reflexivity | intros a b c ? ?; by etrans]. Qed.

Context `{!ItemsPersist}.

Lemma items_silent {A} (m : eff W A) : (∀ w, w_db (m w).1 = w_db w) → keeps items_step m.
Proof. intros Hm w. unfold items_step. by rewrite Hm. Qed.

Lemma items_observe {A} (read : nat → A) : keeps items_step (observe read).
Proof. by apply items_silent. Qed.
Lemma items_read_db {A} (f : worker_db → A) : keeps items_step (read_db f).
Proof. by apply items_silent. Qed.
Lemma items_request {Q A} (op : Q → P → P * result A) (record : Q → result A → call) q :
  keeps items_step (request op record q).
Proof. apply items_silent. intros w. unfold request. by destruct (op q (w_cloud w)). Qed.

Lemma items_update_db f : (∀ d, items_kept (d_catalog d) (d_catalog (f d))) → keeps items_step (update_db f).
Proof. intros Hf w. apply Hf. Qed.

Lemma items_in_db {A} (f : worker_db → result (worker_db * A)) :
  (∀ d d' a, f d = Ok (d', a) → items_kept (d_catalog d) (d_catalog d')) → keeps items_step (in_db f).
Proof.
  intros Hf w. unfold in_db, items_step. destruct (f (w_db w)) as [[d a]|e] eqn:E; [by apply (Hf _ _ a)|done].
Qed.

Lemma items_transaction {A} (m : eff W A) : keeps items_step m → keeps items_step (transaction m).
Proof.
  intros Hm w. unfold transaction, items_step.
  match goal with |- context [m ?w0] => specialize (Hm w0); destruct (m w0) as [w1 [a|e]] end; cbn in *.
  - etrans; [apply others_keep | exact Hm].
  - apply others_keep.
Qed.
End persistence.

#[export] Hint Resolve items_observe items_read_db items_request : eff.
#[export] Hint Extern 2 (keeps items_step (modify _)) => apply items_silent; reflexivity : eff.

Ltac items_all := repeat (first [progress eauto with eff | apply items_transaction | keeps_step]).

Section purge_facts.
Context {P : Type} `{!Provider P} `{!Environment worker_db} `{!Messages} `{!ItemsPersist}.
Context (file_system : nat → os_view) (exn_text : exn → string) (credentials : result unit) (probe : eff (world worker_db P) unit).
Context (job : claimed_job).
Notation W := (world worker_db P).

(** The probe of the bucket deletes nothing and leaves the items alone. *)
Class ReadOnlyProbe : Prop := {
  probe_requests : keeps (grows (fun c => ¬ is_delete c)) probe;
  probe_items : keeps items_step probe;
}.

Lemma active_items active_ i message : keeps items_step (ensure_job_active (P := P) active_ i message).
Proof.
  unfold ensure_job_active, raise_signals, shutdown_checkpoint, job_cancelled, claim_is_lost, renew_claim_if_owned,
    renew_in_transaction, require_renewed, mark_claim_lost, now_iso. items_all.
  all: apply items_in_db; intros d d' x E; cbn in E; injection E as <- <-; by apply items_kept_eq.
Qed.

Lemma gate_items : ReadOnlyProbe → keeps items_step (validate_cloud_vault probe).
Proof.
  intros [_ Hp]. unfold validate_cloud_vault, check, check_in_transaction, reuse_state, run_probe, publish, set_ready. items_all.
  apply items_in_db. intros d d' row E. unfold gate_problem in E.
  destruct (set_problem _ _ _ _ _ _ _ _ _ _ _) as [[b ?]|]; [|done]. cbn in E. injection E as <- _. by apply items_kept_eq.
Qed.

Lemma validate_items at_ : keeps items_step (validate (P := P) file_system job at_).
Proof.
  unfold validate. apply keeps_bind; [apply _ | eauto with eff | intros fs].
  apply items_in_db. intros d d' ok E. destruct (validate_execution _ _ _ _ _) as [[c b]|] eqn:Ev; [|done].
  cbn in E. injection E as <- _. by apply validate_execution_kept in Ev.
Qed.

Lemma lost_items {A} : keeps items_step (lost (P := P) (A := A) job).
Proof. unfold lost, mark_claim_lost. items_all. Qed.

Lemma stop_if_lost_items : keeps items_step (stop_if_lost (P := P) job).
Proof. unfold stop_if_lost, claim_is_lost. pose proof (@lost_items unit). items_all. Qed.

Lemma renew_group_items ids at_ : keeps items_step (renew_group (P := P) job ids at_).
Proof.
  unfold renew_group. pose proof (@lost_items unit). apply keeps_bind; [apply _ | | intros ok; items_all].
  apply items_in_db. intros d d' a E. cbn in E. injection E as <- <-. by apply items_kept_eq.
Qed.

Lemma authorise_items ids : keeps items_step (authorise_batch (P := P) file_system job ids).
Proof. unfold authorise_batch, now_iso. pose proof validate_items. pose proof renew_group_items. items_all. Qed.

Lemma record_items ids deleted failed at_ : keeps items_step (record_batch (P := P) job ids deleted failed at_).
Proof.
  unfold record_batch, now_iso. pose proof renew_group_items. pose proof stop_if_lost_items. items_all.
  apply items_update_db. intros d. etrans; [apply mark_deleted_kept | apply mark_failed_kept].
Qed.

Lemma purge_batch_items ids failures batch : keeps items_step (purge_batch (P := P) file_system exn_text job ids failures batch).
Proof.
  unfold purge_batch, request_batch, delete_objects, now_iso. pose proof active_items. pose proof authorise_items.
  pose proof stop_if_lost_items. pose proof record_items. items_all.
Qed.

(** ** What a request to delete was allowed by *)

(** The tables with the leases of the group renewed. *)
Definition renewed (at_ : timestamp) (d : worker_db) : worker_db :=
  on_catalog (set_jobs (update_where (renew_group_where (j_vault_id (cj_row job)) (group_id job) (token job) at_)
                          (extend_claim (claim_expiry_at at_)) (t_jobs (d_catalog d)))) d.

(** A request may name the targets of captured items only; their Jobs hold the
    lease of this worker and pass the re-validation of the consent. *)
Definition authorised (q : delete_request) (d : worker_db) : Prop :=
  Z.of_nat (length (dr_targets q)) ≤ CLOUD_DELETE_BATCH_SIZE ∧ dr_bucket q = cj_bucket job
  ∧ ∃ d0 stamp at_ fs v, d = renewed stamp d0 ∧ lock_vault (d_catalog d0) (j_vault_id (cj_row job)) = Ok v
    ∧ ∀ t, t ∈ dr_targets q → ∃ j i,
        j ∈ t_jobs (d_catalog d0)
        ∧ renew_group_where (j_vault_id (cj_row job)) (group_id job) (token job) stamp j = true
        ∧ i ∈ items_of (d_catalog d0) (j_id j) ∧ target_of i = t
        ∧ execution_authority fs (d_catalog d0) v (group_id job) at_ j.

Definition allowed (c : call) (d : worker_db) : Prop :=
  match c with CDeleteBatch q _ => authorised q d | CDelete _ _ => False | _ => True end.

(** The calls of a run, each with the tables at that moment, are allowed. *)
Definition tells : relation W :=
  fun w w' => ∃ new tables, w_calls w' = w_calls w ++ new ∧ w_tables w' = w_tables w ++ tables ∧ Forall2 allowed new tables.

#[local] Instance tells_preorder : PreOrder tells.
Proof.
  split.
  - intros w. exists [], []. by rewrite !app_nil_r.
  - intros w1 w2 w3 (n1 & t1 & E1 & T1 & F1) (n2 & t2 & E2 & T2 & F2). exists (n1 ++ n2), (t1 ++ t2).
    rewrite E2, E1, T2, T1, !app_assoc. repeat split; [done..|]. by apply Forall2_app.
Qed.

Lemma grows_tells {A} (m : eff W A) : keeps (grows (fun c => ¬ is_delete c)) m → keeps tells m.
Proof.
  intros Hm w. destruct (Hm w) as (n & t & En & Et & El & Fn). exists n, t. split; [done|]. split; [done|].
  clear En Et. revert t El. induction Fn as [|c n Hc _ IH]; intros [|d t] El; try done. constructor; [|by apply IH; injection El].
  by destruct c.
Qed.

Definition known (items : list cloud_deletion_item) (d : worker_db) : Prop :=
  ∀ i, i ∈ items → ∃ i', i' ∈ t_items (d_catalog d) ∧ same_item i i'.

Lemma known_step items (w w' : W) : known items (w_db w) → items_step w w' → known items (w_db w').
Proof.
  intros Hk Hs i Hi. destruct (Hk i Hi) as (i1 & H1 & S1). destruct (Hs i1 H1) as (i2 & H2 & S2).
  exists i2. split; [done|]. unfold same_item in *. destruct_and!. repeat split; congruence.
Qed.

Lemma quiet_steps (p : call → Prop) :
  (∀ A, keeps (grows p) (lost (P := P) (A := A) job)) ∧ keeps (grows p) (stop_if_lost (P := P) job)
  ∧ (∀ ids at_, keeps (grows p) (renew_group (P := P) job ids at_))
  ∧ (∀ at_, keeps (grows p) (validate (P := P) file_system job at_)).
Proof.
  assert (HL : ∀ A, keeps (grows p) (lost (P := P) (A := A) job)) by (intros A; unfold lost, mark_claim_lost; emits_all).
  split; [done|]. unfold stop_if_lost, claim_is_lost, renew_group, validate. repeat split; intros; emits_all.
Qed.

Lemma authorise_ok ids (w : W) w' :
  authorise_batch file_system job ids w = (w', Ok true) →
  w_calls w' = w_calls w ∧ w_tables w' = w_tables w
  ∧ ∃ d0 stamp at_ fs v, w_db w' = renewed stamp d0 ∧ items_kept (d_catalog (w_db w)) (d_catalog d0)
    ∧ lock_vault (d_catalog d0) (j_vault_id (cj_row job)) = Ok v
    ∧ (∀ j, j ∈ group_rows (d_catalog d0) (j_vault_id (cj_row job)) (group_id job) → job_is_active j = true →
         execution_authority fs (d_catalog d0) v (group_id job) at_ j)
    ∧ ∀ id, id ∈ ids → ∃ j, j ∈ t_jobs (d_catalog d0) ∧ j_id j = id
        ∧ renew_group_where (j_vault_id (cj_row job)) (group_id job) (token job) stamp j = true.
Proof.
  unfold authorise_batch, now_iso. intros E. apply ebind_ok in E as (w1 & at_ & [= <- <-] & E).
  unfold transaction in E. cbn in E.
  match type of E with context [ebind _ _ ?w0] => set (w0' := w0) in E; destruct (ebind _ _ w0') as [w2 [b|e]] eqn:E2; [|done] end.
  injection E as <- ->. apply ebind_ok in E2 as (w3 & ok & E3 & E2).
  unfold validate in E3. apply ebind_ok in E3 as (w4 & fs & [= <- <-] & E3). unfold in_db in E3. cbn in E3.
  destruct (validate_execution _ _ _ _ _) as [[c okb]|] eqn:Ev; [|done]. cbn in E3. injection E3 as <- <-.
  destruct okb; [|done]. cbn [negb] in E2.
  apply ebind_ok in E2 as (w5 & stamp & [= <- <-] & E2). apply ebind_ok in E2 as (w6 & [] & E6 & [= <-]).
  unfold renew_group in E6. apply ebind_ok in E6 as (w7 & okr & [= <- <-] & E6). cbn in E6.
  case_bool_decide as Hset; [|by apply ebind_ok in E6 as (? & ? & _ & ?)]. injection E6 as <-. cbn in *.
  unfold validate_execution in Ev. apply bind_ok in Ev as (v & Hl & Ev).
  destruct (check_execution _ _ _ _ _ _) as [[]|e] eqn:Ec; [|by destruct e]. injection Ev as <-.
  split; [done|]. split; [done|]. eexists (set_catalog (d_catalog (others (S (w_steps w)) (w_db w))) (others (S (w_steps w)) (w_db w))), _, _, _, v.
  split; [reflexivity|]. cbn. split; [apply others_keep|]. split; [exact Hl|]. split.
  - intros j Hj Ha. eapply check_execution_authority; [exact Ec|]. by apply elem_of_active.
  - intros id Hid. assert (Hin : id ∈ list_to_set (C := gset Z) ids) by (by apply elem_of_list_to_set).
    rewrite <- Hset in Hin. apply elem_of_list_to_set in Hin. rewrite map_fmap in Hin.
    apply list_elem_of_fmap in Hin as (j & -> & [Hj Hp]%elem_of_select). by exists j.
Qed.

Lemma step_tells {A} (m : eff W A) w w' r : keeps tells m → m w = (w', r) → tells w w'.
Proof. intros Hm E. specialize (Hm w). by rewrite E in Hm. Qed.

Lemma step_known {A} items (m : eff W A) w w' r :
  keeps items_step m → m w = (w', r) → known items (w_db w) → known items (w_db w').
Proof. intros Hm E Hk. specialize (Hm w). rewrite E in Hm. by eapply known_step. Qed.

Lemma request_batch_run batch (w : W) w' r :
  request_batch job batch w = (w', r) →
  ∃ a, w_calls w' = w_calls w ++ [CDeleteBatch {| dr_bucket := cj_bucket job; dr_targets := map target_of batch |} a]
       ∧ w_tables w' = w_tables w ++ [w_db w].
Proof.
  unfold request_batch, catch, ebind, delete_objects, request. destruct (p_delete_batch _ _) as [c [a|e]]; cbn.
  - intros [= <- _]. eauto.
  - destruct (catchable e); intros [= <- _]; eauto.
Qed.

Lemma after_request_quiet ids batch answer failures :
  keeps (grows (fun c => ¬ is_delete c))
    (returned_at <~ now_iso ;; stop_if_lost (P := P) job ;;;
     let (deleted, failed) := batch_outcome exn_text batch answer in
     record_batch job ids deleted failed returned_at ;;; eret (Some (failures + Z.of_nat (length failed)))).
Proof.
  destruct (quiet_steps (fun c => ¬ is_delete c)) as (_ & HS & HR & _). unfold record_batch, now_iso. emits_all.
Qed.

Lemma authorise_quiet ids p : keeps (grows p) (authorise_batch (P := P) file_system job ids).
Proof. destruct (quiet_steps p) as (_ & _ & HR & HV). unfold authorise_batch, now_iso. emits_all. Qed.

(** The targets of a batch are authorised in the tables [d] that authorising the
    request left, when its items were known in the tables [d1] before. *)
Lemma batch_authorised (ids : list Z) batch (d1 d : worker_db) :
  known batch d1 → (∀ i, i ∈ batch → cdi_job_id i ∈ ids) → Z.of_nat (length batch) ≤ CLOUD_DELETE_BATCH_SIZE →
  (∃ d0 stamp at_ fs v, d = renewed stamp d0 ∧ items_kept (d_catalog d1) (d_catalog d0)
    ∧ lock_vault (d_catalog d0) (j_vault_id (cj_row job)) = Ok v
    ∧ (∀ j, j ∈ group_rows (d_catalog d0) (j_vault_id (cj_row job)) (group_id job) → job_is_active j = true →
         execution_authority fs (d_catalog d0) v (group_id job) at_ j)
    ∧ ∀ id, id ∈ ids → ∃ j, j ∈ t_jobs (d_catalog d0) ∧ j_id j = id
        ∧ renew_group_where (j_vault_id (cj_row job)) (group_id job) (token job) stamp j = true) →
  authorised {| dr_bucket := cj_bucket job; dr_targets := map target_of batch |} d.
Proof.
  intros Hk Hj Hlen (d0 & stamp & at_ & fs & v & -> & Hitems & Hl & Hauth & Hids).
  split; [cbn; by rewrite length_map|]. split; [done|]. exists d0, stamp, at_, fs, v. split; [done|]. split; [done|].
  intros t Ht. cbn in Ht. rewrite map_fmap in Ht. apply list_elem_of_fmap in Ht as (i & -> & Hi).
  destruct (Hk i Hi) as (i1 & H1 & S1). destruct (Hitems i1 H1) as (i2 & H2 & S2).
  destruct (Hids _ (Hj i Hi)) as (j & Hin & Hjid & Hr). exists j, i2. unfold same_item in S1, S2. destruct_and!.
  split; [done|]. split; [done|]. split; [apply elem_of_select; split; [done|]; apply bool_decide_eq_true; congruence|].
  split; [unfold target_of; congruence|].
  unfold renew_group_where, in_purge_group in Hr. rewrite !andb_true_iff, !bool_decide_eq_true in Hr. destruct_and!.
  apply Hauth; [by apply elem_of_group_rows | unfold job_is_active; by replace (j_status j) with "cleaning"].
Qed.

Lemma request_tells batch (w1 w w' : W) r :
  w_calls w = w_calls w1 → w_tables w = w_tables w1 →
  authorised {| dr_bucket := cj_bucket job; dr_targets := map target_of batch |} (w_db w) →
  request_batch job batch w = (w', r) → tells w1 w'.
Proof.
  intros Ec Et Hq (a & Ec' & Et')%request_batch_run. rewrite Ec in Ec'. rewrite Et in Et'.
  eexists [_], [_]. split; [exact Ec'|]. split; [exact Et'|]. constructor; [exact Hq | constructor].
Qed.

Lemma purge_batch_tells ids failures batch (w : W) w' r :
  known batch (w_db w) → (∀ i, i ∈ batch → cdi_job_id i ∈ ids) → Z.of_nat (length batch) ≤ CLOUD_DELETE_BATCH_SIZE →
  purge_batch file_system exn_text job ids failures batch w = (w', r) → tells w w'.
Proof.
  intros Hk Hj Hlen. unfold purge_batch. destruct failures as [failures|]; [|intros [= <- _]; done].
  intros E. apply ebind_cases in E as [(e & E & _)|(w1 & [] & E1 & E)].
  { eapply step_tells; [apply grows_tells, ensure_job_active_silent | exact E]. }
  assert (Hk1 : known batch (w_db w1)) by (eapply step_known; [apply active_items | exact E1 | exact Hk]).
  eapply step_tells in E1 as T1; [|apply grows_tells, ensure_job_active_silent]. etrans; [exact T1|]. clear T1 E1 Hk w.
  apply ebind_cases in E as [(e & E & _)|(w2 & ok & E2 & E)].
  { eapply step_tells; [apply grows_tells, authorise_quiet | exact E]. }
  destruct ok; cbn [negb] in E.
  2: { injection E as <- _. eapply step_tells; [apply grows_tells, authorise_quiet | exact E2]. }
  apply authorise_ok in E2 as (Ec & Et & Ha). assert (Hq := batch_authorised _ _ _ _ Hk1 Hj Hlen Ha).
  apply ebind_cases in E as [(e & E & _)|(w3 & answer & E3 & E)].
  - by eapply request_tells.
  - etrans; [by eapply request_tells|]. eapply step_tells; [apply grows_tells, after_request_quiet | exact E].
Qed.

Lemma chunk_length {A} (n : nat) (l : list A) b : b ∈ chunks n l → (length b ≤ n)%nat.
Proof.
  unfold chunks. generalize (length l) as fuel. intros fuel. revert l.
  induction fuel as [|fuel IH]; intros [|x l]; cbn; [by intros ?%elem_of_nil..|].
  intros [->|Hb]%elem_of_cons; [rewrite length_take; lia | by eapply IH].
Qed.

Lemma batches_tell ids failures batches (w : W) w' r :
  (∀ b, b ∈ batches → known b (w_db w) ∧ (∀ i, i ∈ b → cdi_job_id i ∈ ids) ∧ Z.of_nat (length b) ≤ CLOUD_DELETE_BATCH_SIZE) →
  efold (purge_batch file_system exn_text job ids) failures batches w = (w', r) → tells w w'.
Proof.
  revert failures w. induction batches as [|b batches IH]; intros failures w Hb; cbn; [by intros [= <- _]|].
  intros E. destruct (Hb b) as (Hk & Hj & Hl); [left|].
  apply ebind_cases in E as [(e & E & _)|(w1 & f1 & E1 & E)]; [by eapply purge_batch_tells|].
  etrans; [by eapply purge_batch_tells|]. apply (IH f1 w1); [|done]. intros b' Hb'.
  destruct (Hb b') as (Hk' & Hj' & Hl'); [by right|]. split; [|done].
  eapply step_known; [apply purge_batch_items | exact E1 | exact Hk'].
Qed.

Lemma load_group_ok at_ (w : W) w' jobs items :
  load_group file_system job at_ w = (w', Ok (jobs, items)) →
  known items (w_db w') ∧ ∀ i, i ∈ items → cdi_job_id i ∈ map j_id jobs.
Proof.
  unfold load_group. intros E. apply transaction_ok in E as (w0 & _ & _ & _ & E).
  apply ebind_ok in E as (w1 & ok & _ & E). destruct ok; cbn [negb] in E.
  2: { injection E as <- <- <-. split; intros i Hi; by apply elem_of_nil in Hi. }
  injection E as <- E. unfold load_claimed_purge_group in E.
  destruct (purge_lead _ _) as [lead|]; [|injection E as <- <-; split; intros i Hi; by apply elem_of_nil in Hi].
  destruct (negb _); [injection E as <- <-; split; intros i Hi; by apply elem_of_nil in Hi|].
  destruct (_ || _); [injection E as <- <-; split; intros i Hi; by apply elem_of_nil in Hi|].
  injection E as <- <-. split; intros i Hi; rewrite sort_by_perm in Hi; apply elem_of_select in Hi as [Hin Hp].
  - exists i. by repeat split.
  - apply andb_true_iff in Hp as [Hp _]. by apply bool_decide_eq_true in Hp.
Qed.

Lemma purge_claimed_tells `{!ReadOnlyProbe} jobs items (w : W) w' r :
  known items (w_db w) → (∀ i, i ∈ items → cdi_job_id i ∈ map j_id jobs) →
  purge_claimed file_system exn_text credentials probe job jobs items w = (w', r) → tells w w'.
Proof.
  intros Hk Hj. unfold purge_claimed. intros E.
  apply ebind_cases in E as [(e & E & _)|(w1 & [] & [_ ->]%throw_if_ok & E)].
  { eapply step_tells; [apply keeps_throw_if; apply _ | exact E]. }
  pose proof (validate_emits probe _ probe_requests) as Hv.
  apply ebind_cases in E as [(e & E & _)|(w2 & [] & E2 & E)]; [eapply step_tells; [by apply grows_tells | exact E]|].
  assert (Hk2 : known items (w_db w2)) by (eapply step_known; [by apply gate_items | exact E2 | exact Hk]).
  etrans; [eapply step_tells; [by apply grows_tells | exact E2]|].
  apply ebind_cases in E as [(e & E & _)|(w3 & [] & [_ ->]%lift_ok & E)]; [by injection E as <- _|].
  assert (Hb : ∀ b, b ∈ chunks (Z.to_nat CLOUD_DELETE_BATCH_SIZE) items →
            known b (w_db w2) ∧ (∀ i, i ∈ b → cdi_job_id i ∈ map j_id jobs) ∧ Z.of_nat (length b) ≤ CLOUD_DELETE_BATCH_SIZE).
  { intros b Hb. split; [|split].
    - intros i Hi. apply Hk2. by eapply chunks_elem.
    - intros i Hi. apply Hj. by eapply chunks_elem.
    - apply chunk_length in Hb. unfold CLOUD_DELETE_BATCH_SIZE in *. lia. }
  apply ebind_cases in E as [(e & E & _)|(w4 & f4 & E4 & E)]; [by eapply batches_tell|].
  etrans; [by eapply batches_tell|]. destruct f4; [|by injection E as <- _].
  eapply step_tells; [apply grows_tells | exact E].
  destruct (quiet_steps (fun c => ¬ is_delete c)) as (_ & HS & HR & _). unfold finalize_group, now_iso. emits_all.
Qed.

End purge_facts.

(** ** Witness: the Cloud-only file of [CloudDeletion], a week after the request *)
Definition w_later : Environment worker_db := {|
  others _ db := db; clock n := w_week + Z.of_nat n; uuid _ := "uuid"; cancelled _ _ := false;
  heartbeat_lost _ := false; stopping _ := false; lock_free _ := true;
|}.
Definition w_lease (j : job) : job :=
  set_claim (Some "lease") (Some w_week) (Some (w_week + seconds 300)) (Schema.set_status "cleaning" None None w_week j).
Definition w_leased_catalog : catalog := set_jobs (map w_lease (t_jobs w_scheduled)) w_scheduled.
Definition w_purge_job : claimed_job :=
  {| cj_row := or_default (head (t_jobs w_leased_catalog)) (w_lease (purge_job 1)); cj_bucket := "bucket"; cj_source_root := "/data/vault"; cj_s3_prefix := "vaults/photos" |}.
Definition w_purge_world : world worker_db (list bytes) :=
  {| w_db := w_worker_db w_leased_catalog; w_cloud := []; w_calls := []; w_tables := []; w_steps := 0; w_lost := false;
     w_ready := false; w_echoes := [] |}.
Definition w_purged : world worker_db (list bytes) * result unit :=
  process_cloud_purge (Provider0 := w_provider) (Environment0 := w_later) (H := w_messages) (fun _ => w_os) (fun _ => "error") (Ok tt)
    (eret tt) w_purge_job w_purge_world.

