(* ===== verification/WorkerRelease.v ===== *)
(** * WorkerRelease: freeing the local space of a protected file

    Models [process_free_space], [_checked_local_release_target],
    [_repair_failed_local_release] and [record_automatic_cleanup_outcome] of
    [src/app/storage.py], with [ArchiveCatalog.get_job_target] of
    [src/app/catalog.py], the row every handler of the worker starts from.

    The release renames the file to a hidden name ("claim"), hashes it there,
    re-reads the authority to release in the transaction that ends with the
    unlink, and otherwise puts the file back.  The lock of the Vault's scans is a
    mutex of the process and left out; so are the metrics. *)
From S2P Require Import Prelude Sql PyString VaultPaths Schema ProtectionStates DirectoryAggregates JobScheduler JobClaims DirtyMarks Fnmatch OperationPolicies Catalog Automation Json CatalogIncidents CatalogVersions Notifications Effects S3Client S3Copy WorkerJobs LocalFiles CloudPreflight.
Open Scope Z_scope.

(** ** The target of a Job *)
Record job_target := {
  jt_job : job;
  jt_copy : option local_copy;
  jt_version : option archive_version;   (* of [jobs.archive_version_id] *)
  jt_latest : option string;             (* the newest version that is not purged *)
}.

Definition get_job_target (db : catalog) (job_id : Z) : option job_target :=
  (fun j =>
     {| jt_job := j;
        jt_copy := fetchone (fun c => lc_vault_file_id c =b j_vault_file_id j) (t_copies db);
        jt_version := fetchone (fun v => bool_decide (Some (av_id v) = j_archive_version_id j)) (t_versions db);
        jt_latest := av_id <$> latest_version (t_versions db) (j_vault_file_id j) |})
  <$> fetchone (fun j => j_id j =b job_id) (t_jobs db).

Definition jt_archive_version_id (t : job_target) : option string := j_archive_version_id (jt_job t).
Definition jt_object_key (t : job_target) : option string := jt_version t ≫= av_object_key.
Definition jt_provider_version_id (t : job_target) : option string := jt_version t ≫= av_provider_version_id.
Definition jt_cloud_size (t : job_target) : option Z := jt_version t ≫= av_size.
Definition jt_version_sha256 (t : job_target) : option string := jt_version t ≫= av_plaintext_sha256.
Definition jt_local_sha256 (t : job_target) : option string := jt_copy t ≫= lc_plaintext_sha256.
Definition jt_local_size (t : job_target) : option Z := jt_copy t ≫= lc_size.
Definition jt_local_mtime (t : job_target) : option Z := jt_copy t ≫= lc_mtime_ns.

(** The content still has a verified and available newest version, listed with
    an exact identity, and no hold. *)
Definition still_protected (t : job_target) : bool :=
  match jt_copy t, jt_version t with
  | Some c, Some v =>
      (lc_presence c =b Present) && (lc_file_type c =b Regular) && (av_integrity v =b Verified)
      && (av_availability v =b Available)
      && bool_decide (lc_matched_archive_version_id c = jt_archive_version_id t)
      && truthy (lc_plaintext_sha256 c) && bool_decide (lc_plaintext_sha256 c = av_plaintext_sha256 v)
      && is_none (lc_cloud_only_version_id c) && bool_decide (jt_archive_version_id t = jt_latest t)
      && truthy (av_object_key v) && truthy (av_provider_version_id v)
  | _, _ => false
  end.

(** The automatic release is still wanted and due. *)
Definition release_still_due (p : OperationPolicy) (now : timestamp) (t : job_target) : bool :=
  match local_release_after_days p, jt_version t ≫= av_verified_at with
  | Some retention, Some verified_at =>
      local_cleanup_is_due verified_at retention now (jt_local_mtime t) (jt_copy t ≫= lc_recovered_at)
        (content_observed <$> jt_copy t)
  | _, _ => false
  end.

(** [_checked_local_release_target] on the tables of the current transaction. *)
Definition checked_local_release_target (access : string → bool) (now : timestamp) (job_id vault_id : Z) (db : catalog)
  : result job_target :=
  let target := get_job_target db job_id in
  raise! RuntimeError "Cleanup blocked: local or cloud protection is not confirmed" when
    negb (local_release_is_confirmed access db vault_id);
  raise! OperationCancelled "Automatic local release is disabled or no longer due" when
    match target with
    | Some t => (j_origin (jt_job t) =b "automatic") && negb (release_still_due (get_policy db vault_id) now t)
    | None => false
    end;
  match target with
  | Some t => if still_protected t then Ok t
              else Raise (RuntimeError "The file no longer has verifiable local and cloud copies")
  | None => Raise (RuntimeError "The file no longer has verifiable local and cloud copies")
  end.

(** The exact version is in the cloud with its size. *)
Definition head_confirms (t : job_target) (h : head_answer) : result bool :=
  if hd_delete_marker h || negb (truthy (hd_version_id h))
     || negb (bool_decide (hd_version_id h = jt_provider_version_id t)) || is_none (hd_content_length h)
  then Ok false
  else match jt_cloud_size t with
       | None => Raise (TypeError "int() argument must be a number")
       | Some size => Ok (bool_decide (hd_content_length h = Some size))
       end.

(** The comparison before the unlink. *)
Definition same_protection (fresh target : job_target) (digest : string) (info : file_stat) : bool :=
  bool_decide (jt_archive_version_id fresh = jt_archive_version_id target)
  && bool_decide (jt_object_key fresh = jt_object_key target)
  && bool_decide (jt_provider_version_id fresh = jt_provider_version_id target)
  && bool_decide (jt_cloud_size fresh = Some (sx_size info))
  && bool_decide (jt_version_sha256 fresh = Some digest)
  && bool_decide (jt_local_size fresh = Some (sx_size info))
  && bool_decide (jt_local_mtime fresh = Some (sx_mtime_ns info)).

Definition file_type_of (k : file_kind) : file_type :=
  match k with KRegular => Regular | KSymlink => Symlink | _ => OtherType end.

(** [uuid4().hex] of the text of a uuid. *)
Definition uuid_hex (s : string) : string := String.string_of_list_ascii (List.filter (fun a => a <>b Ascii.ascii_of_nat 45) (String.list_ascii_of_string s)).
Definition claim_name (name token : string) : string := "." +:+ name +:+ ".cleanup-" +:+ token +:+ ".tmp".

Definition set_content_observed (at_ : timestamp) (c : local_copy) : local_copy :=
  {| lc_vault_file_id := lc_vault_file_id c; lc_presence := lc_presence c; lc_file_type := lc_file_type c;
     lc_size := lc_size c; lc_mtime_ns := lc_mtime_ns c; lc_plaintext_sha256 := lc_plaintext_sha256 c;
     lc_matched_archive_version_id := lc_matched_archive_version_id c; lc_cloud_only_version_id := lc_cloud_only_version_id c;
     lc_last_seen_at := lc_last_seen_at c; lc_observed_at := lc_observed_at c;
     lc_content_observed_at := Some at_; lc_recovered_at := lc_recovered_at c |}.

Section release.
Context {P : Type} `{!Provider P} `{!Disk P} `{!Environment worker_db} `{!Host} `{!Messages} `{!UploadTransitions}.
Context (sha256 : bytes → bytes).
Context (credentials : result unit).
Context (probe : eff (world worker_db P) unit).
Context (job : claimed_job).
Notation W := (world worker_db P).

Definition release_id : Z := j_id (cj_row job).
Definition release_vault : Z := j_vault_id (cj_row job).
Definition release_context : option (Z * string) := job_claim_context job.
Definition still_active (message : string) : eff W unit := ensure_job_active release_context release_id message.

Definition record_automatic_cleanup_outcome (event outcome : string) : eff W unit :=
  if j_origin (cj_row job) <>b "automatic" then eret tt
  else transaction (update_db (on_catalog
         (audit event (j_requested_by (cj_row job)) release_vault (Some release_id) outcome))).

Definition check_target : eff W job_target :=
  access <~ observe (fun n root => ac_allowed (vault_local_access n root)) ;;
  now <~ now_iso ;;
  in_db (fun d => t ← checked_local_release_target access now release_id release_vault (d_catalog d); Ok (d, t)).

(** The entry at the path of the file, with its digest when it is regular. *)
Definition look_again (local : path) : eff W (file_type * file_stat * option string) :=
  inspected <~ inspect_entry local ;;
  match inspected with
  | Some (Regular, _) => pat! (digest, info) <~ hash_stable_regular_file sha256 local ;; eret (Regular, info, Some digest)
  | Some (ft, info) => eret (ft, info, None)
  | None => info <~ lstat local ;; eret (OtherType, info, None)
  end.

(** Publish what was found, on the file of the Job or as a new observation. *)
Definition publish_found (target : job_target) (ft : file_type) (info : file_stat) (digest : option string)
    (replacement : bool) : eff W unit :=
  stamp <~ now_iso ;;
  file_uuid <~ observe uuid ;;
  file <~ (if replacement then
             update_db (on_catalog (observe_replaced_local_copy (j_vault_file_id (jt_job target)) ft (Some (sx_size info))
                                      (Some (sx_mtime_ns info)) stamp)) ;;;
             eret (j_vault_file_id (jt_job target))
           else
             in_db (fun d => '(c, id) ← observe_local_copy (d_catalog d) release_vault (j_path (cj_row job)) ft (Some (sx_size info))
                                          (Some (sx_mtime_ns info)) stamp None None file_uuid;
                             Ok (set_catalog c d, id))) ;;
  (if negb (bool_decide (digest = jt_local_sha256 target))
   then at_ <~ now_iso ;;
        update_db (on_catalog (fun c => set_copies (update_where (fun x => lc_vault_file_id x =b file) (set_content_observed at_)
                                                     (t_copies c)) c))
   else eret tt) ;;;
  match digest with
  | Some text =>
      at_ <~ now_iso ;;
      in_db (fun d => c ← set_local_fingerprint release_vault (j_path (cj_row job)) text
                            (if bool_decide (Some text = jt_version_sha256 target) then jt_archive_version_id target else None)
                            at_ (d_catalog d);
                      Ok (set_catalog c d, tt))
  | None => eret tt
  end.

Definition repair_failed_local_release (target : job_target) (local : path) (replacement : bool) : eff W unit :=
  found <~ transaction (read_db (fun d => fetchone (fun v => va_id v =b release_vault) (t_vaults (d_catalog d)))) ;;
  match found with
  | None => throw (ScanRootMismatch "Vault is unavailable during local release repair")
  | Some v =>
      throw! ScanRootMismatch "Vault root changed during local release repair" when va_source_root v <>b cj_source_root job ;;
      validate_enrolled_scan_root sha256 v ;;;
      access <~ observe (fun n => vault_local_access n (va_source_root v)) ;;
      throw! ScanRootMismatch "Source Volume changed during local release repair" when negb (ac_allowed access) ;;
      pat! (ft, info, digest) <~ look_again local ;;
      transaction (
        current_verified_scan_row sha256 (fun d => t_vaults (d_catalog d)) v ;;;
        publish_found target ft info digest replacement ;;;
        current_verified_scan_row sha256 (fun d => t_vaults (d_catalog d)) v) ;;;
      match digest with
      | Some text => remember release_vault (j_path (cj_row job)) info text
      | None => eret tt
      end
  end.

(** The HEAD of the exact version, before anything local is touched. *)
Definition confirm_in_cloud (target : job_target) : eff W unit :=
  h <~ catch_if (fun e => is_os_error e || is_runtime_error e)
         (lift credentials ;;;
          head_object {| hr_bucket := cj_bucket job; hr_key := or_default (jt_object_key target) "";
                         hr_version := jt_provider_version_id target; hr_checksum_mode := false |})
         (fun _ => throw (RuntimeError "Cleanup blocked: unable to verify the S3 copy")) ;;
  confirmed <~ lift (head_confirms target h) ;;
  throw_if (negb confirmed) (RuntimeError "Cleanup blocked: exact S3 version or size no longer matches").

(** The last checks and the unlink. *)
Definition verify_and_unlink (target : job_target) (claimed : path) : eff W unit :=
  pat! (digest, info) <~ hash_stable_regular_file sha256 claimed ;;
  throw! RuntimeError "Local file changed since fingerprinting" when
    negb (bool_decide (Some (sx_size info) = jt_local_size target))
    || negb (bool_decide (Some (sx_mtime_ns info) = jt_local_mtime target))
    || negb (bool_decide (Some digest = jt_version_sha256 target)) ;;
  still_active "Freeing local space stopped" ;;;
  transaction (
    ensure_job_claim_owned_in_transaction release_context job "Freeing local space claim was lost" ;;;
    fresh <~ check_target ;;
    throw! RuntimeError "Cleanup blocked: protection changed while claiming the file" when
      negb (same_protection fresh target digest info) ;;
    unlink claimed).

(** [except Exception]: the file goes back under its name. *)
Definition put_back (target : job_target) (local claimed : path) (e : exn) : eff W unit :=
  restored <~ restore_claimed_local_copy claimed local ;;
  if negb restored
  then finally (repair_failed_local_release target local true)
         (throw (RuntimeError "Cleanup stopped; original content was preserved"))
  else repair_failed_local_release target local false ;;; throw e.

(** What is at the path after the unlink goes to the catalog. *)
Definition publish_release (target : job_target) (local : path) : eff W unit :=
  still_active "Freeing local space claim was lost" ;;;
  found <~ catch_if is_missing (info <~ lstat local ;; eret (Some info)) (fun _ => eret None) ;;
  transaction (
    ensure_job_claim_owned_in_transaction release_context job "Freeing local space claim was lost" ;;;
    stamp <~ now_iso ;;
    update_db (on_catalog
      match found with
      | None => mark_local_copy_missing (j_vault_file_id (jt_job target)) stamp
      | Some info => observe_replaced_local_copy (j_vault_file_id (jt_job target)) (file_type_of (sx_kind info))
                       (Some (sx_size info)) (Some (sx_mtime_ns info)) stamp
      end)) ;;;
  set_job_progress release_context release_id (j_total_bytes (cj_row job)) None ;;;
  completed <~ set_job release_context release_id "completed" "" (Some "job.local_space_freed") [] None ;;
  if completed : bool then record_automatic_cleanup_outcome "local_cleanup.completed" "success" else eret tt.

Definition release_file (target : job_target) (local claimed : path) : eff W unit :=
  catch_if is_missing (rename local claimed) (fun _ => throw (RuntimeError "The local copy is no longer available")) ;;;
  catch (verify_and_unlink target claimed) (put_back target local claimed) ;;;
  publish_release target local.

Definition process_free_space_locked : eff W unit :=
  still_active "Freeing local space stopped" ;;;
  target <~ transaction check_target ;;
  set_job release_context release_id "cleaning" "" (Some "job.verifying_cloud_copy") [] None ;;;
  still_active "Freeing local space claim was lost" ;;;
  confirm_in_cloud target ;;;
  still_active "Freeing local space stopped" ;;;
  view <~ observe host_view ;;
  local <~ lift (safe_local_entry_path view (cj_source_root job) (j_path (cj_row job))) ;;
  token <~ observe uuid ;;
  release_file target local (with_name local (claim_name (name_of local) (uuid_hex token))).

Definition process_free_space : eff W unit :=
  still_active "Freeing local space stopped" ;;;
  validate_cloud_vault probe ;;;
  process_free_space_locked.
End release.

(** ** A file is only removed when it is proved to be safe in the cloud *)
Section safety.
Context {P : Type} `{!Provider P} `{!Disk P} `{!Environment worker_db} `{!Host} `{!Messages} `{!UploadTransitions}.
Context (sha256 : bytes → bytes).
Context (credentials : result unit).
Context (probe : eff (world worker_db P) unit).
Context (job : claimed_job).
Notation W := (world worker_db P).
Notation quiet := (fun c => ¬ is_unlink c).

(** The cloud has the version [v]: a HEAD of that very version says so. *)
Definition in_cloud (v : archive_version) (seen : list call) : Prop :=
  ∃ key id h, av_object_key v = Some key ∧ av_provider_version_id v = Some id
    ∧ CHead {| hr_bucket := cj_bucket job; hr_key := key; hr_version := Some id; hr_checksum_mode := false |} (Ok h) ∈ seen
    ∧ hd_version_id h = Some id ∧ hd_delete_marker h = false.

(** What the calls [seen] and the tables [d] say of a file about to be removed. *)
Record released (seen : list call) (claimed : path) (d : worker_db) : Prop := {
  rl_claim : ∃ local, CRename (local, claimed) (Ok tt) ∈ seen;
  rl_bytes : ∃ digest info before bytes_ after, seen = before ++ bytes_ ++ after ∧ hashed sha256 claimed digest info bytes_
    ∧ ∃ j c v, j ∈ t_jobs (d_catalog d) ∧ j_id j = release_id job
      ∧ c ∈ t_copies (d_catalog d) ∧ lc_vault_file_id c = j_vault_file_id j ∧ lc_presence c = Present
      ∧ lc_cloud_only_version_id c = None ∧ lc_size c = Some (sx_size info) ∧ lc_mtime_ns c = Some (sx_mtime_ns info)
      ∧ v ∈ t_versions (d_catalog d) ∧ Some (av_id v) = av_id <$> latest_version (t_versions (d_catalog d)) (j_vault_file_id j)
      ∧ av_integrity v = Verified ∧ av_availability v = Available ∧ av_plaintext_sha256 v = Some digest
      ∧ in_cloud v seen
      ∧ (j_origin j = "automatic" → ∃ now, release_still_due (get_policy (d_catalog d) (release_vault job)) now
           {| jt_job := j; jt_copy := Some c; jt_version := Some v;
              jt_latest := av_id <$> latest_version (t_versions (d_catalog d)) (j_vault_file_id j) |} = true);
  rl_lease : truthy (j_claim_token (cj_row job)) = true →
    ∃ j, j ∈ t_jobs (d_catalog d) ∧ j_id j = release_id job ∧ j_claim_token j = j_claim_token (cj_row job) ∧ job_is_active j = true;
}.

(** An unlink after the calls [base ++ seen] is the end of a way back or of a
    proved release. *)
Definition may_unlink (base history : list call) (c : call) (d : worker_db) : Prop :=
  ∀ seen p r, history = base ++ seen → c = CUnlink p r → (∃ q, last seen = Some (CLink (p, q) (Ok tt))) ∨ released seen p d.

Lemma quiet_may base {A} (m : eff W A) : keeps (grows quiet) m → keeps (abides (may_unlink base)) m.
Proof. apply abides_grows. intros h c d Hc seen p r _ ->. by destruct Hc. Qed.

(** *** The steps that remove nothing *)
Lemma still_active_quiet message : keeps (grows quiet) (still_active (P := P) job message).
Proof. unfold still_active. emits_all. Qed.

Lemma check_target_quiet : keeps (grows quiet) (check_target (P := P) job).
Proof. unfold check_target, now_iso. emits_all. Qed.

Lemma hash_quiet p : keeps (grows quiet) (hash_stable_regular_file (P := P) (D := worker_db) sha256 p).
Proof. unfold hash_stable_regular_file, lstat, os_open, fstat, read_all, append_chunk. emits_all. Qed.

Lemma validate_root_quiet v : keeps (grows quiet) (validate_enrolled_scan_root (P := P) (D := worker_db) sha256 v).
Proof. unfold validate_enrolled_scan_root, root_identity, walk_component, lstat. emits_all. Qed.

Lemma look_again_quiet local : keeps (grows quiet) (look_again (P := P) sha256 local).
Proof.
  pose proof hash_quiet. unfold look_again, inspect_entry, lstat, os_open, fstat, read_byte. emits_all.
Qed.

Lemma repair_quiet target local replacement :
  keeps (grows quiet) (repair_failed_local_release (P := P) sha256 job target local replacement).
Proof.
  pose proof validate_root_quiet. pose proof look_again_quiet.
  unfold repair_failed_local_release, current_verified_scan_row, publish_found, remember, set_echoes, now_iso. emits_all.
Qed.

Lemma publish_release_quiet target local : keeps (grows quiet) (publish_release (P := P) job target local).
Proof.
  pose proof still_active_quiet. unfold publish_release, record_automatic_cleanup_outcome, lstat, now_iso. emits_all.
Qed.

Lemma confirm_quiet target : keeps (grows quiet) (confirm_in_cloud (P := P) credentials job target).
Proof. unfold confirm_in_cloud, head_object. emits_all. Qed.

(** *** What the steps establish *)
Definition confirmed (target : job_target) (seen : list call) : Prop :=
  ∃ h, CHead {| hr_bucket := cj_bucket job; hr_key := or_default (jt_object_key target) "";
                hr_version := jt_provider_version_id target; hr_checksum_mode := false |} (Ok h) ∈ seen
       ∧ head_confirms target h = Ok true.

Lemma confirm_ok target (w : W) w' :
  confirm_in_cloud credentials job target w = (w', Ok tt) → ∃ new, w_calls w' = w_calls w ++ new ∧ confirmed target new.
Proof.
  unfold confirm_in_cloud. intros E. apply ebind_ok in E as (w1 & h & E1 & E).
  apply ebind_ok in E as (w2 & b & [Hh ->]%lift_ok & [Hb ->]%throw_if_ok). apply negb_false_iff in Hb as ->.
  unfold catch_if, catch in E1. destruct (ebind _ _ w) as [w3 [h1|e]] eqn:E2.
  - injection E1 as <- ->. apply ebind_ok in E2 as (w4 & [] & [_ ->]%lift_ok & E2). apply request_ok in E2 as [-> _].
    eexists. split; [done|]. exists h. split; [set_solver | done].
  - destruct (catchable e); [|done]. by destruct (_ || _).
Qed.

Lemma checked_target_ok access now id vault db fresh :
  checked_local_release_target access now id vault db = Ok fresh →
  ∃ j c v, fresh = {| jt_job := j; jt_copy := Some c; jt_version := Some v; jt_latest := av_id <$> latest_version (t_versions db) (j_vault_file_id j) |}
    ∧ j ∈ t_jobs db ∧ j_id j = id ∧ c ∈ t_copies db ∧ lc_vault_file_id c = j_vault_file_id j
    ∧ v ∈ t_versions db ∧ Some (av_id v) = j_archive_version_id j ∧ still_protected fresh = true
    ∧ (j_origin j = "automatic" → release_still_due (get_policy db vault) now fresh = true).
Proof.
  unfold checked_local_release_target, get_job_target. intros E. inv_ok. destruct (fetchone _ (t_jobs db)) as [j|] eqn:Ej; [|done].
  cbn in *. apply fetchone_some in Ej as [Hj Hi%bool_decide_eq_true].
  destruct (still_protected _) eqn:Es; [|done]. injection E as <-.
  pose proof Es as Es'. unfold still_protected in Es'. cbn in Es'.
  destruct (fetchone _ (t_copies db)) as [c|] eqn:Ec; [|done]. destruct (fetchone _ (t_versions db)) as [v|] eqn:Ev; [|done].
  apply fetchone_some in Ec as [Hc Hcf%bool_decide_eq_true]. apply fetchone_some in Ev as [Hv Hvi%bool_decide_eq_true].
  exists j, c, v. repeat (split; [done|]). intros Ha.
  match goal with H : _ && negb _ = false |- _ => rewrite Ha, bool_decide_eq_true_2 in H by done; by apply negb_false_iff in H end.
Qed.

Lemma check_target_ok (w : W) w' fresh :
  check_target job w = (w', Ok fresh) →
  w_db w' = w_db w ∧ w_calls w' = w_calls w
  ∧ ∃ access now, checked_local_release_target access now (release_id job) (release_vault job) (d_catalog (w_db w)) = Ok fresh.
Proof.
  unfold check_target, now_iso. intros E. run_ok E. injection Hm as <- <-. injection Hm0 as <- <-. unfold in_db in E. cbn in E.
  destruct (checked_local_release_target _ _ _ _ _) as [t|] eqn:Et; [|done]. injection E as <- <-. eauto 10.
Qed.

(** The evidence collected so far and the last re-reading make a release. *)
Lemma released_intro target fresh digest info seen bytes_ after local claimed d access now :
  checked_local_release_target access now (release_id job) (release_vault job) (d_catalog d) = Ok fresh →
  same_protection fresh target digest info = true → confirmed target seen → CRename (local, claimed) (Ok tt) ∈ seen →
  hashed sha256 claimed digest info bytes_ →
  (truthy (j_claim_token (cj_row job)) = true →
    ∃ j, j ∈ t_jobs (d_catalog d) ∧ j_id j = release_id job ∧ j_claim_token j = j_claim_token (cj_row job) ∧ job_is_active j = true) →
  released (seen ++ bytes_ ++ after) claimed d.
Proof.
  intros (j & c & v & -> & Hj & Hi & Hc & Hcf & Hv & Hvi & Hs & Hd)%checked_target_ok Hp (h & Hh & Hconf) Hren Hha Hl.
  unfold same_protection, still_protected in *. cbn in *. unfold jt_archive_version_id, jt_object_key, jt_provider_version_id,
    jt_cloud_size, jt_version_sha256, jt_local_size, jt_local_mtime in *. cbn in *. bsimpl.
  split; [exists local; set_solver | | done].
  exists digest, info, seen, bytes_, after. split; [done|]. split; [done|]. exists j, c, v.
  destruct (lc_cloud_only_version_id c) eqn:Eo; [done|]. destruct (av_object_key v) as [key|] eqn:Ek; [|done].
  destruct (av_provider_version_id v) as [pid|] eqn:Ep; [|done].
  repeat (split; [solve [done | congruence]|]). split; [|by intros Ha; exists now; rewrite <- (Hd Ha)].
  unfold head_confirms in Hconf. destruct (_ || _) eqn:Eb; [done|]. bsimpl. unfold jt_provider_version_id, jt_cloud_size in *.
  exists key, pid, h. split; [done|]. split; [done|]. split.
  { apply elem_of_app; left.
    replace key with (or_default (jt_version target ≫= av_object_key) "") by (match goal with H : Some key = _ |- _ => by rewrite <- H end).
    by match goal with H : Some pid = jt_version target ≫= _ |- _ => rewrite <- H in Hh end. }
  split; congruence.
Qed.

Lemma verify_and_unlink_may base seen target local claimed (w : W) w' r :
  w_calls w = base ++ seen → confirmed target seen → CRename (local, claimed) (Ok tt) ∈ seen →
  verify_and_unlink sha256 job target claimed w = (w', r) → abides (may_unlink base) w w'.
Proof.
  intros Ew Hconf Hren E. unfold verify_and_unlink in E.
  apply ebind_cases in E as [(e & E & _)|(w1 & [digest info] & E1 & E)].
  { eapply abides_step; [apply quiet_may, hash_quiet | exact E]. }
  etrans; [eapply abides_step; [apply quiet_may, hash_quiet | exact E1]|].
  apply hash_stable_ok in E1 as (_ & bytes_ & C1 & Hha).
  apply ebind_cases in E as [(e & E & _)|(w2 & [] & [_ ->]%throw_if_ok & E)].
  { eapply abides_step; [apply quiet_may, keeps_throw_if; apply _ | exact E]. }
  apply ebind_cases in E as [(e & E & _)|(w3 & [] & E3 & E)].
  { eapply abides_step; [apply quiet_may, still_active_quiet | exact E]. }
  etrans; [eapply abides_step; [apply quiet_may, still_active_quiet | exact E3]|].
  eapply emits_calls in E3 as (n3 & C3 & _); [|apply still_active_quiet].
  revert E. apply abides_transaction. intros w4 w5 C4 E.
  apply ebind_cases in E as [(e & E & _)|(w6 & [] & E6 & E)].
  { eapply abides_step; [apply quiet_may, claim_owned_silent | exact E]. }
  etrans; [eapply abides_step; [apply quiet_may, claim_owned_silent | exact E6]|].
  pose proof (emits_calls _ _ _ _ _ (claim_owned_silent _ quiet job _) E6) as (n6 & C6 & _).
  apply claim_owned_ok in E6 as [_ Hl].
  apply ebind_cases in E as [(e & E & _)|(w7 & fresh & E7 & E)].
  { eapply abides_step; [apply quiet_may, check_target_quiet | exact E]. }
  etrans; [eapply abides_step; [apply quiet_may, check_target_quiet | exact E7]|].
  apply check_target_ok in E7 as (D7 & C7 & access & now & Hf).
  apply ebind_cases in E as [(e & E & _)|(w8 & [] & [Hp ->]%throw_if_ok & E)].
  { eapply abides_step; [apply quiet_may, keeps_throw_if; apply _ | exact E]. }
  apply negb_false_iff in Hp. pose proof (request_tables _ _ _ _ _ _ E) as Et. apply request_run in E as [Ec _].
  exists [CUnlink claimed r], [w_db w7]. do 3 (split; [done|]). intros [|i] c d [= <-] [= <-]. cbn. intros seen' p r' Hs [= <- <-].
  rewrite app_nil_r, C7, C6, C4, C3, C1, Ew, <- !app_assoc in Hs. apply app_inv_head in Hs as <-. right. rewrite D7.
  eapply released_intro; done.
Qed.

Lemma last_link before p q a l i r :
  (∀ x, x ∈ before → ¬ is_unlink x) →
  (before ++ [CLink (p, q) (Ok tt); CUnlink p a]) !! i = Some (CUnlink l r) →
  l = p ∧ take i (before ++ [CLink (p, q) (Ok tt); CUnlink p a]) = before ++ [CLink (p, q) (Ok tt)].
Proof.
  intros Hq Hi. destruct (decide (i < length before)%nat).
  { rewrite lookup_app_l in Hi by done. by destruct (Hq _ (list_elem_of_lookup_2 _ _ _ Hi)). }
  rewrite lookup_app_r in Hi by lia. rewrite take_app_ge by lia.
  destruct (i - length before)%nat as [|[|k]]; [done| |by destruct k]. by injection Hi as -> ->.
Qed.

Lemma restore_may base seen local claimed (w : W) w' r :
  w_calls w = base ++ seen → restore_claimed_local_copy claimed local w = (w', r) → abides (may_unlink base) w w'.
Proof.
  intros Ew E.
  assert (keeps (grows (fun _ => True)) (restore_claimed_local_copy (P := P) (D := worker_db) claimed local)) as Hg.
  { unfold restore_claimed_local_copy, link_back, entry_exists, lstat, os_link, unlink. emits_all. }
  pose proof (grows_tables _ _ _ _ _ Hg E) as (new & tables & Ec & Et & El & _).
  apply restore_claimed_calls in E as (n & C & Hb). rewrite Ec in C. apply app_inv_head in C as <-.
  exists new, tables. do 3 (split; [done|]). intros i c d Hi _ seen' p r' Hs ->. left. exists local.
  destruct Hb as [Hq|(before & a & -> & Hq)]; [by destruct (Hq _ (list_elem_of_lookup_2 _ _ _ Hi))|].
  apply last_link in Hi as [-> Ht]; [|done].
  rewrite Ew, Ht, <- app_assoc in Hs. apply app_inv_head in Hs as <-. by rewrite app_assoc, last_snoc.
Qed.

Lemma put_back_may base seen target local claimed e (w : W) w' r :
  w_calls w = base ++ seen → put_back sha256 job target local claimed e w = (w', r) → abides (may_unlink base) w w'.
Proof.
  intros Ew E. unfold put_back in E. apply ebind_cases in E as [(x & E & _)|(w1 & restored & E1 & E)].
  { by eapply restore_may. }
  etrans; [by eapply restore_may|].
  assert (keeps (grows quiet) (if negb restored
    then finally (repair_failed_local_release (P := P) sha256 job target local true)
           (throw (RuntimeError "Cleanup stopped; original content was preserved"))
    else repair_failed_local_release sha256 job target local false ;;; throw e)) as Hk.
  { pose proof repair_quiet. emits_all. }
  eapply abides_step; [by apply quiet_may | exact E].
Qed.

Lemma verify_or_back base seen target local claimed (w : W) w' r :
  w_calls w = base ++ seen → confirmed target seen → CRename (local, claimed) (Ok tt) ∈ seen →
  catch (verify_and_unlink sha256 job target claimed) (put_back sha256 job target local claimed) w = (w', r) →
  abides (may_unlink base) w w'.
Proof.
  intros Ew Hc Hr E. unfold catch in E. destruct (verify_and_unlink _ _ _ _ w) as [w1 [u|e]] eqn:E1;
    pose proof (verify_and_unlink_may _ _ _ _ _ _ _ _ Ew Hc Hr E1) as Ha; [by injection E as <- _|].
  destruct (catchable e); [|by injection E as <- _]. etrans; [exact Ha|].
  destruct Ha as (n & _ & C & _). rewrite Ew, <- app_assoc in C. by eapply put_back_may.
Qed.

Lemma release_file_may base seen target local claimed (w : W) w' r :
  w_calls w = base ++ seen → confirmed target seen →
  release_file sha256 job target local claimed w = (w', r) → abides (may_unlink base) w w'.
Proof.
  intros Ew Hconf E. unfold release_file in E.
  assert (keeps (grows quiet) (catch_if is_missing (rename (P := P) (D := worker_db) local claimed)
     (fun _ => throw (RuntimeError "The local copy is no longer available")))) as Hk.
  { unfold rename. emits_all. }
  apply ebind_cases in E as [(e & E & _)|(w1 & [] & E1 & E)].
  { eapply abides_step; [by apply quiet_may | exact E]. }
  etrans; [eapply abides_step; [by apply quiet_may | exact E1]|].
  assert (∃ n1, w_calls w1 = w_calls w ++ n1 ∧ CRename (local, claimed) (Ok tt) ∈ n1) as (n1 & C1 & Hr).
  { unfold catch_if, catch in E1. destruct (rename local claimed w) as [w2 [[]|e]] eqn:E2.
    - injection E1 as <-. apply request_ok in E2 as [-> _]. eexists. split; [done | set_solver].
    - destruct (catchable e); [|done]. by destruct (is_missing e). }
  clear E1 Hk. rewrite Ew, <- app_assoc in C1.
  assert (Hc1 : confirmed target (seen ++ n1)) by (destruct Hconf as (h & Hh & ?); exists h; set_solver).
  assert (Hr1 : CRename (local, claimed) (Ok tt) ∈ seen ++ n1) by set_solver.
  apply ebind_cases in E as [(e & E & _)|(w2 & [] & E2 & E)].
  - by eapply verify_or_back.
  - etrans; [by eapply verify_or_back|]. eapply abides_step; [apply quiet_may, publish_release_quiet | exact E].
Qed.

(** The steps before the HEAD, and before the file is touched. *)
Definition prepare_release : eff W job_target :=
  still_active job "Freeing local space stopped" ;;;
  validate_cloud_vault probe ;;;
  still_active job "Freeing local space stopped" ;;;
  target <~ transaction (check_target job) ;;
  set_job (release_context job) (release_id job) "cleaning" "" (Some "job.verifying_cloud_copy") [] None ;;;
  still_active job "Freeing local space claim was lost" ;;;
  eret target.

Definition finish_release (target : job_target) : eff W unit :=
  confirm_in_cloud credentials job target ;;;
  still_active job "Freeing local space stopped" ;;;
  view <~ observe host_view ;;
  local <~ lift (safe_local_entry_path view (cj_source_root job) (j_path (cj_row job))) ;;
  token <~ observe uuid ;;
  release_file sha256 job target local (with_name local (claim_name (name_of local) (uuid_hex token))).

Lemma process_split w : process_free_space sha256 credentials probe job w = ebind prepare_release finish_release w.
Proof.
  unfold process_free_space, process_free_space_locked, prepare_release, finish_release, ebind, eret.
  repeat match goal with |- match ?x with _ => _ end = _ => destruct x as [? [?|?]]; [|done] end. done.
Qed.

Lemma prepare_quiet : keeps (grows quiet) probe → keeps (grows quiet) prepare_release.
Proof.
  intros Hp. pose proof still_active_quiet. pose proof check_target_quiet.
  pose proof (validate_emits probe quiet Hp). unfold prepare_release. emits_all.
Qed.

Lemma finish_may base seen target w w' r :
  w_calls w = base ++ seen → finish_release target w = (w', r) → abides (may_unlink base) w w'.
Proof.
  intros Ew E. unfold finish_release in E. apply ebind_cases in E as [(e & E & _)|(w1 & [] & E1 & E)].
  { eapply abides_step; [apply quiet_may, confirm_quiet | exact E]. }
  etrans; [eapply abides_step; [apply quiet_may, confirm_quiet | exact E1]|].
  apply confirm_ok in E1 as (n1 & C1 & (h & Hh & Hc)). rewrite Ew, <- app_assoc in C1.
  apply ebind_cases in E as [(e & E & _)|(w2 & [] & E2 & E)].
  { eapply abides_step; [apply quiet_may, still_active_quiet | exact E]. }
  etrans; [eapply abides_step; [apply quiet_may, still_active_quiet | exact E2]|].
  eapply emits_calls in E2 as (n2 & C2 & _); [|apply still_active_quiet]. rewrite C1, <- !app_assoc in C2.
  apply ebind_cases in E as [(e & E & _)|(w3 & view & [= <- <-] & E)]; [done|].
  apply ebind_cases in E as [(e & [= <- _] & _)|(w4 & local & [_ ->]%lift_ok & E)]; [by exists [], []; rewrite !app_nil_r|].
  apply ebind_cases in E as [(e & E & _)|(w5 & token & [= <- <-] & E)]; [done|].
  eapply release_file_may in E; [destruct E as (n & t & ?); by exists n, t | exact C2 |]. exists h. set_solver.
Qed.

(** C11: the worker takes a local file away only when it is proved to be safe in
    the cloud.  Whatever the disk, the provider and other processes do, every
    unlink of [process_free_space] either ends a way back, right after the same
    file was linked under its own name, or it removes a claimed file of which
    (1) the bytes were just read from one stable regular file and hash to the
    digest of a version [v]; (2) in the tables of the very transaction of the
    unlink, [v] is the newest listed version of the file, verified and available,
    the local copy is present, held for no conflict and has the size and time of
    the file that was hashed, and an automatic release is still wanted and due;
    (3) a HEAD of the exact [VersionId] answered during this run; and (4) the
    lease of the Job is still this worker's. *)
Theorem release_removes_only_proven_copies w w' r :
  keeps (grows quiet) probe →
  process_free_space sha256 credentials probe job w = (w', r) →
  ∃ new tables, w_calls w' = w_calls w ++ new ∧ w_tables w' = w_tables w ++ tables ∧ length tables = length new ∧
    ∀ i p a, new !! i = Some (CUnlink p a) →
      (∃ q, last (take i new) = Some (CLink (p, q) (Ok tt)))
      ∨ ∃ d, tables !! i = Some d ∧ released (take i new) p d.
Proof.
  intros Hp E. assert (Ha : abides (may_unlink (w_calls w)) w w').
  { rewrite process_split in E. apply ebind_cases in E as [(e & E & _)|(w1 & target & E1 & E)].
    { eapply abides_step; [by apply quiet_may, prepare_quiet | exact E]. }
    etrans; [eapply abides_step; [by apply quiet_may, prepare_quiet | exact E1]|].
    eapply emits_calls in E1 as (n1 & C1 & _); [|by apply prepare_quiet]. by eapply finish_may. }
  destruct Ha as (new & tables & Ec & Et & El & Hok). exists new, tables. do 3 (split; [done|]). intros i p a Hi.
  destruct (lookup_lt_is_Some_2 tables i) as [d Hd]; [rewrite El; by eapply lookup_lt_Some|].
  destruct (Hok i _ d Hi Hd (take i new) p a) as [?|?]; [done|done|by left|]. right. eauto.
Qed.
End safety.

(** ** A concrete release *)

(** A server with one file, [a/b.txt], which is claimed and then gone. *)
Definition w_stat : file_stat :=
  {| sx_kind := KRegular; sx_dev := 1; sx_ino := 7; sx_size := 10; sx_mtime_ns := 3; sx_ctime_ns := 4 |}.
Definition w_disk : Disk (list bytes) := {|
  k_lstat q p := (p, if name_of q =b "b.txt" then Raise (OSError "ENOENT") else Ok w_stat);
  k_stat q p := (p, Ok {| sx_kind := KDirectory; sx_dev := 1; sx_ino := 2; sx_size := 0; sx_mtime_ns := 0; sx_ctime_ns := 0 |});
  k_open q p := (p, Ok 3);
  k_fstat fd p := (p, Ok w_stat);
  k_read fd p := (p, Ok (map Ok p));
  k_read_byte fd p := (p, Ok tt);
  k_read_some q p := (p, Ok []);
  k_read_path q p := (p, Ok []);
  k_rename q p := (p, Ok tt);
  k_link q p := (p, Ok tt);
  k_unlink q p := (p, Ok tt);
  k_mkdirs q p := (p, Ok tt);
  k_iterdir q p := (p, Ok []);
  k_download q p := (p, Ok ([], Ok tt));
|}.
Definition w_host : Host := {|
  abspath _ := ["data"; "vault"];
  host_view _ := {| fs_absolute _ := ["data"; "vault"]; fs_resolve l := l; fs_is_symlink _ := false |};
  vault_local_access _ _ := {| ac_allowed := true; ac_health := "ok" |};
|}.

(** A provider that has every version it is asked for, with ten bytes. *)
Definition w_store : Provider (list bytes) := {|
  p_list := p_list (Provider := w_provider);
  p_head q p := (p, Ok {| hd_version_id := hr_version q; hd_delete_marker := false; hd_content_length := Some 10;
                          hd_storage_class := None; hd_restore := None; hd_metadata := None; hd_headers := [];
                          hd_checksum_sha256 := None; hd_checksum_type := None; hd_checksum_crc32 := None; hd_etag := None |});
  p_get := p_get (Provider := w_provider); p_tags := p_tags (Provider := w_provider);
  p_delete := p_delete (Provider := w_provider); p_copy := p_copy (Provider := w_provider);
  p_create := p_create (Provider := w_provider); p_part := p_part (Provider := w_provider);
  p_complete := p_complete (Provider := w_provider); p_abort := p_abort (Provider := w_provider);
  p_delete_batch := p_delete_batch (Provider := w_provider); p_restore := p_restore (Provider := w_provider);
|}.

Definition w_digest (_ : bytes) : bytes := [Byte.xab].
Definition w_safe_version : archive_version :=
  {| av_id := "v1"; av_vault_file_id := "f"; av_vault_id := 1; av_version_number := 1;
     av_object_key := Some "vaults/photos/a/b.txt"; av_provider_version_id := Some "p1";
     av_size := Some 10; av_storage_class := None; av_plaintext_sha256 := Some "ab";
     av_origin := Upload; av_integrity := Verified; av_verified_at := Some 0; av_availability := Available;
     av_availability_checked_at := None; av_restore_state := None; av_placement := new_placement 0; av_evidence := no_evidence |}.
Definition w_safe_copy : local_copy :=
  {| lc_vault_file_id := "f"; lc_presence := Present; lc_file_type := Regular; lc_size := Some 10;
     lc_mtime_ns := Some 3; lc_plaintext_sha256 := Some "ab"; lc_matched_archive_version_id := Some "v1";
     lc_cloud_only_version_id := None; lc_last_seen_at := Some 0; lc_observed_at := 0;
     lc_content_observed_at := Some 0; lc_recovered_at := None |}.

(** A Job of the given action in the given status, under this worker's lease. *)
Definition w_leased_job (action status : string) : Schema.job :=
  {| j_id := 1; j_vault_id := 1; j_vault_file_id := "f"; j_archive_version_id := Some "v1"; j_path := "a/b.txt";
     j_action := action; j_status := status; j_origin := "manual"; j_message := None; j_message_key := None;
     j_message_params := None; j_requested_by := Some 1; j_requested_at := 0; j_updated_at := 0; j_group_id := None;
     j_group_path := None; j_total_bytes := 10; j_transferred_bytes := 0; j_reason := None; j_confirmation_phrase := None;
     j_restore_tier := None; j_restore_days := None; j_target_storage_class := Some "GLACIER";
     j_upload_verification_requested := None; j_pending_until := None; j_retry_after := None; j_claim_token := Some "lease";
     j_claimed_at := Some 0; j_claim_expires_at := Some (seconds 300); j_upload := no_upload |}.
Definition w_server (c : catalog) : world worker_db (list bytes) :=
  {| w_db := w_worker_db c; w_cloud := []; w_calls := []; w_tables := []; w_steps := 0; w_lost := false;
     w_ready := false; w_echoes := [] |}.
Definition w_release_job : claimed_job :=
  {| cj_row := w_leased_job "free-space" "queued"; cj_bucket := "bucket"; cj_source_root := "/data/vault"; cj_s3_prefix := "vaults/photos" |}.
Definition w_protected_catalog (j : Schema.job) : catalog :=
  set_jobs [j] (set_copies [w_safe_copy] (set_versions [w_safe_version] CloudDeletion.w_catalog)).
Definition w_release : world worker_db (list bytes) * result unit :=
  process_free_space (Provider0 := w_store) (Disk0 := w_disk) (Environment0 := w_environment) (H := w_host) (H0 := w_messages)
    (H1 := w_transitions) w_digest (Ok tt) (eret tt) w_release_job (w_server (w_protected_catalog (cj_row w_release_job))).

Lemma release_removes_only_proven_copies_witness :
  w_release.2 = Ok tt ∧ lc_presence <$> t_copies (d_catalog (w_db w_release.1)) = [Missing]
  ∧ ∃ i p seen d, w_calls w_release.1 !! i = Some (CUnlink p (Ok tt)) ∧ released w_digest w_release_job seen p d.
Proof.
  split; [vm_compute; reflexivity|]. split; [vm_compute; reflexivity|].
  destruct (release_removes_only_proven_copies (Provider0 := w_store) (Disk0 := w_disk) (Environment0 := w_environment) (H := w_host)
              (H0 := w_messages) (H1 := w_transitions) w_digest (Ok tt) (eret tt) w_release_job
              (w_server (w_protected_catalog (cj_row w_release_job))) w_release.1 w_release.2) as (new & tables & Ec & _ & _ & H).
  - by apply emits_silent.
  - by vm_compute.
  - assert (En : new = w_calls w_release.1) by (rewrite Ec; reflexivity).
    assert (Hi : ∃ i p, new !! i = Some (CUnlink p (Ok tt)) ∧ ∃ c, last (take i new) = Some c ∧ ∀ q a, c ≠ CLink q a).
    { rewrite En. exists 7%nat. eexists. vm_compute. split; [reflexivity|]. eexists. split; [reflexivity|]. done. }
    destruct Hi as (i & p & Hi & c & Hl & Hc). destruct (H i p _ Hi) as [[q Hq]|(d & _ & Hd)].
    { rewrite Hl in Hq. injection Hq as ->. by destruct (Hc (p, q) (Ok tt)). }
    exists i, p, (take i new), d. split; [rewrite <- En; exact Hi | exact Hd].
Defined.
