(* ===== verification/WorkerStorageClass.v ===== *)
(** * WorkerStorageClass: one Archive Version onto another storage class

    Models [process_storage_class] of [src/app/storage.py] (with the ledger of a
    Vault move it hands over to [VaultMoves.process]), and of
    [src/app/services/restore_estimates.py] the tier and the days of a restore
    request; the amounts of the estimate are not modelled.

    [default_tier] and [default_days] are the settings of the installation;
    [date_of] is the instant an HTTP date of a Restore header denotes. *)
From S2P Require Import Prelude Sql PyString VaultPaths Schema JobScheduler JobClaims DirtyMarks Json Lifecycle Catalog CatalogIncidents CatalogVersions Notifications Effects S3Client S3Copy WorkerJobs CloudPreflight VaultMoves WorkerRelease.
Open Scope Z_scope.

(** ** Restore requests *)

(** The tiers of a class, in the order of [DEFAULT_RESTORE_HOURS]. *)
Definition restore_tiers (class_key : string) : list string :=
  if class_key =b "GLACIER" then ["Expedited"; "Standard"; "Bulk"]
  else if class_key =b "DEEP_ARCHIVE" then ["Standard"; "Bulk"] else [].

Definition normalize_restore_tier (tier : option string) (storage_class : string) : string :=
  let candidate := py_strip (if truthy tier then or_default tier "" else "Bulk") in
  let allowed := restore_tiers (upper storage_class) in
  if candidate ∈b allowed then candidate
  else if "Bulk" ∈b allowed then "Bulk" else or_default (head allowed) "Bulk".

Record restore_estimate := { re_size : Z; re_class : string; re_tier : string; re_days : Z }.

Definition estimate_restore (size : Z) (storage_class tier : string) (days_ : Z) : restore_estimate :=
  {| re_size := Z.max 0 size; re_class := upper storage_class;
     re_tier := normalize_restore_tier (Some tier) (upper storage_class); re_days := Z.max 1 days_ |}.

(** [job.get(...) or settings or default]. *)
Definition chosen_tier (default_tier : string) (j : job) : string :=
  if truthy (j_restore_tier j) then or_default (j_restore_tier j) "" else if truthy (Some default_tier) then default_tier else "Bulk".
Definition chosen_days (default_days : Z) (j : job) : Z :=
  let asked := or_default (j_restore_days j) 0 in
  if negb (asked =? 0) then asked else if negb (default_days =? 0) then default_days else 3.

(** [int(target.get("cloud_size") or job.get("total_bytes") or 0)]. *)
Definition target_size (t : job_target) (j : job) : Z :=
  let recorded := or_default (jt_cloud_size t) 0 in if negb (recorded =? 0) then recorded else j_total_bytes j.

Definition class_or_standard (c : option string) : string := upper (if truthy c then or_default c "" else "STANDARD").

(** The target has an exact and available version. *)
Definition copyable (t : job_target) : bool :=
  truthy (jt_archive_version_id t) && truthy (jt_object_key t) && truthy (jt_provider_version_id t)
  && bool_decide ((av_availability <$> jt_version t) = Some Available).

Section storage_class.
Context {P : Type} `{!Provider P} `{!Environment worker_db} `{!Messages} `{!UploadTransitions}.
Context (sha256 : bytes → bytes).
Context (str_of : json → string).
Context (credentials : result unit).
Context (fuel : nat).
Context (default_tier : string) (default_days : Z).
Context (date_of : string → timestamp).
Context (probe : eff (world worker_db P) unit).
Context (job : claimed_job).
Notation W := (world worker_db P).

Definition class_job_id : Z := j_id (cj_row job).
Definition class_context : option (Z * string) := job_claim_context job.
Definition class_active (message : string) : eff W unit := ensure_job_active class_context class_job_id message.
Definition target_class : string := upper (or_default (j_target_storage_class (cj_row job)) "").
Definition target_ref (t : job_target) : object_ref :=
  {| or_bucket := cj_bucket job; or_key := or_default (jt_object_key t) ""; or_version := or_default (jt_provider_version_id t) "" |}.

Definition load_class_target : eff W job_target :=
  target <~ transaction (read_db (fun d => get_job_target (d_catalog d) class_job_id)) ;;
  match target with
  | Some t => if copyable t then eret t else throw (RuntimeError "No available Archive Version for storage class change")
  | None => throw (RuntimeError "No available Archive Version for storage class change")
  end.

(** The HEAD of the exact source. *)
Definition head_source (t : job_target) : eff W head_answer :=
  h <~ head_object_with_checksum (cj_bucket job) (or_default (jt_object_key t) "") (jt_provider_version_id t) ;;
  throw! RuntimeError "The scheduled Archive Version is a Delete Marker" when hd_delete_marker h ;;
  throw! RuntimeError "The provider returned a different source VersionId" when
    truthy (hd_version_id h) && negb (bool_decide (hd_version_id h = jt_provider_version_id t)) ;;
  eret h.

(** Ask for the restore of a cold source unless that was done, and wait. *)
Definition wait_for_restore (t : job_target) (head_class : string) (state : string) (expiry : option string) : eff W unit :=
  let estimate := estimate_restore (target_size t (cj_row job)) head_class (chosen_tier default_tier (cj_row job))
                    (chosen_days default_days (cj_row job)) in
  pat! (state, expiry) <~
    (if (j_status (cj_row job) <>b "restoring") && (state =b "not_requested")
     then restore_object {| rr_object := target_ref t; rr_days := re_days estimate; rr_tier := re_tier estimate |} ;;;
          eret ("restoring", None)
     else eret (state, expiry)) ;;
  class_active "Storage class claim was lost" ;;;
  checked_at <~ now_iso ;;
  transaction (
    ensure_job_claim_owned_in_transaction class_context job "Storage class claim was lost" ;;;
    update_db (on_catalog (update_restore_state (or_default (jt_archive_version_id t) "") (Some state) (date_of <$> expiry) checked_at
                             (Some head_class)))) ;;;
  set_job class_context class_job_id "restoring" "" (Some "job.storage_class_restoring") [("storage_class", JStr head_class)] None ;;;
  eret tt.

Definition source_size (t : job_target) (h : head_answer) : result Z :=
  match (match hd_content_length h with Some n => Some n | None => jt_cloud_size t end) with
  | None => Raise (RuntimeError "S3 did not return the Archive Version size")
  | Some size => raise! RuntimeError "S3 returned a negative Archive Version size" when size <? 0; Ok size
  end.

Definition source_checksum (t : job_target) (h : head_answer) : eff W string :=
  match full_object_sha256_checksum h with
  | Some checksum => eret checksum
  | None => sha256_s3_version sha256 (Some class_active) (target_ref t)
  end.

(** The copy, read back before it is believed: its version and its ETag. *)
Definition copy_and_read_back (t : job_target) (h : head_answer) : eff W (string * option string) :=
  size <~ lift (source_size t h) ;;
  checksum <~ source_checksum t h ;;
  class_active "Storage class claim was lost" ;;;
  copied <~ copy_storage_class_version (Some class_active) (target_ref t) target_class size h None ;;
  class_active "Storage class change stopped" ;;;
  verify_storage_class_destination sha256 (Some class_active) (cj_bucket job) (or_default (jt_object_key t) "")
    (or_default (jt_provider_version_id t) "") (if truthy copied then copied else None) target_class size (Some checksum) None.

Definition publish_class (t : job_target) (version : string) (etag : option string) : eff W unit :=
  class_active "Storage class claim was lost" ;;;
  stamp <~ now_iso ;;
  transaction (
    ensure_job_claim_owned_in_transaction class_context job "Storage class claim was lost" ;;;
    in_db (fun d => '(c, _) ← publish_storage_class_copy class_job_id (or_default (jt_archive_version_id t) "") version target_class
                                etag stamp (d_catalog d);
                    Ok (set_catalog c d, tt))).

Definition change_class (t : job_target) (h : head_answer) : eff W unit :=
  set_job class_context class_job_id "uploading" "" (Some "job.storage_class_changing") [("storage_class", JStr target_class)] None ;;;
  class_active "Storage class change stopped" ;;;
  pat! (version, etag) <~ copy_and_read_back t h ;;
  publish_class t version etag ;;;
  set_job class_context class_job_id "completed" "" (Some "job.storage_class_completed") [("storage_class", JStr target_class)] None ;;;
  eret tt.

(** A Job without a ledger row. *)
Definition process_single_class : eff W unit :=
  class_active "Storage class change stopped" ;;;
  validate_cloud_vault probe ;;;
  throw! RuntimeError "Target storage class is missing" when target_class =b "" ;;
  t <~ load_class_target ;;
  lift credentials ;;;
  h <~ head_source t ;;
  let head_class := class_or_standard (hd_storage_class h) in
  let (state, expiry) := restore_header_state (hd_restore h) in
  if storage_class_requires_restore (Some head_class) && (state <>b "available")
  then wait_for_restore t head_class state expiry
  else if head_class =b target_class
  then set_job class_context class_job_id "completed" "" (Some "job.storage_class_skipped_same")
         [("storage_class", JStr target_class)] None ;;; eret tt
  else change_class t h.

Definition process_storage_class : eff W unit :=
  move <~ transaction (read_db (fun d => load d class_job_id)) ;;
  match move with
  | Some m => process sha256 str_of credentials fuel job probe m
  | None => process_single_class
  end.
End storage_class.

(** ** What a change of class rests on *)
Section proofs.
Context {P : Type} `{!Provider P} `{!Environment worker_db} `{!Messages} `{!UploadTransitions}.
Context (sha256 : bytes → bytes) (credentials : result unit) (default_tier : string) (default_days : Z).
Context (date_of : string → timestamp) (probe : eff (world worker_db P) unit) (job : claimed_job).
Notation W := (world worker_db P).

(** The digest of the source: the provider's checksum of the whole object in the
    HEAD of that version, or the hash of its bytes. *)
Definition source_proof (o : object_ref) (checksum : string) (seen : list call) : Prop :=
  ∃ mode h, CHead {| hr_bucket := or_bucket o; hr_key := or_key o; hr_version := Some (or_version o); hr_checksum_mode := mode |} (Ok h) ∈ seen
    ∧ hd_delete_marker h = false
    ∧ (full_object_sha256_checksum h = Some checksum
       ∨ ∃ chunks, CGet o (Ok (Some (map Ok chunks))) ∈ seen ∧ b64encode (sha256 (concat chunks)) = checksum).

(** The destination was read back: another version of the key with the class,
    the size and the digest.  Without a version id in the answer of the copy the
    HEAD is of the current object, which then names its version. *)
Definition copy_proof (o : object_ref) (version class : string) (size : Z) (checksum : string) (seen : list call) : Prop :=
  version ≠ or_version o ∧
  ∃ asked mode h, CHead {| hr_bucket := or_bucket o; hr_key := or_key o; hr_version := asked; hr_checksum_mode := mode |} (Ok h) ∈ seen
    ∧ (asked = Some version ∨ asked = None ∧ hd_version_id h = Some version)
    ∧ hd_delete_marker h = false ∧ hd_content_length h = Some size ∧ class_or_standard (hd_storage_class h) = class
    ∧ (full_object_sha256_checksum h = Some checksum
       ∨ ∃ chunks, CGet {| or_bucket := or_bucket o; or_key := or_key o; or_version := version |} (Ok (Some (map Ok chunks))) ∈ seen
           ∧ b64encode (sha256 (concat chunks)) = checksum).

Lemma source_proof_weaken o checksum seen seen' : seen ⊆ seen' → source_proof o checksum seen → source_proof o checksum seen'.
Proof. intros Hs (mode & h & Hh & Hm & [?|(cs & ? & ?)]); exists mode, h; eauto 10. Qed.

Lemma copy_proof_weaken o version class size checksum seen seen' :
  seen ⊆ seen' → copy_proof o version class size checksum seen → copy_proof o version class size checksum seen'.
Proof.
  intros Hs (Hne & asked & mode & h & Hh & Ha & Hm & Hl & Hc & Hp). split; [done|]. exists asked, mode, h.
  repeat (split; [by auto|]). destruct Hp as [?|(cs & ? & ?)]; eauto 10.
Qed.

Lemma class_active_silent : silent (S3Copy.check (Some (class_active (P := P) job))).
Proof. unfold silent, emits, S3Copy.check. apply ensure_job_active_silent. Qed.

Lemma read_back_proof o copied class size checksum (w : W) w' version etag :
  verify_storage_class_destination sha256 (Some (class_active job)) (or_bucket o) (or_key o) (or_version o)
    (if truthy copied then copied else None) class size (Some checksum) None w = (w', Ok (version, etag)) →
  ∃ new, w_calls w' = w_calls w ++ new ∧ copy_proof o version class size checksum new.
Proof.
  intros E. unfold verify_storage_class_destination in E. run_ok E. injection E as <- <- <-.
  apply bool_decide_eq_false in Hb2. apply negb_false_iff, bool_decide_eq_true in Hb4, Hb5, Hb6. injection Hb6 as Hx.
  apply head_with_checksum_ok in Hm as (mode & new & Ec & Hh). apply negb_false_iff in Hb0.
  assert (Hd : ∃ more, w_calls w1 = w_calls w0 ++ more
    ∧ (full_object_sha256_checksum a = Some checksum
       ∨ ∃ chunks, CGet {| or_bucket := or_bucket o; or_key := or_key o;
             or_version := or_default (if truthy (hd_version_id a) then hd_version_id a else if truthy copied then copied else None) "" |}
             (Ok (Some (map Ok chunks))) ∈ more ∧ b64encode (sha256 (concat chunks)) = checksum)).
  { unfold destination_checksum in Hm0. cbn in Hm0. destruct (full_object_sha256_checksum a) as [text|].
    - injection Hm0 as <- <-. exists []. rewrite app_nil_r. split; [done|]. left. congruence.
    - apply sha256_version_ok in Hm0 as (cs & -> & Hcs); [|apply class_active_silent]. eexists. split; [done|]. right.
      exists cs. split; [set_solver | congruence]. }
  destruct Hd as (more & -> & Hd). exists (new ++ more). rewrite Ec, <- app_assoc. split; [done|]. split; [done|].
  exists (if truthy copied then copied else None), mode, a. split; [destruct (truthy copied) eqn:Et; rewrite ?Et in Hh; set_solver|].
  split; [|do 3 (split; [done|]); destruct Hd as [?|(chunks & Hg & ?)]; [by left | right; exists chunks; set_solver]].
  destruct (truthy copied) eqn:Et.
  - left. cbn in Hb1. rewrite Et in Hb1. cbn in Hb1. by apply negb_false_iff, bool_decide_eq_true in Hb1.
  - right. split; [done|]. cbn in Hb0. destruct (truthy (hd_version_id a)) eqn:Ev; [by destruct (hd_version_id a) | done].
Qed.

Lemma head_source_ok t (w : W) w' h :
  truthy (jt_provider_version_id t) = true → head_source job t w = (w', Ok h) →
  ∃ new mode, w_calls w' = w_calls w ++ new ∧ hd_delete_marker h = false
    ∧ CHead {| hr_bucket := cj_bucket job; hr_key := or_default (jt_object_key t) "";
               hr_version := Some (or_default (jt_provider_version_id t) ""); hr_checksum_mode := mode |} (Ok h) ∈ new.
Proof.
  unfold head_source. intros Hv E. run_ok E. injection E as <- <-. apply head_with_checksum_ok in Hm as (mode & new & Ec & Hh).
  exists new, mode. split; [done|]. split; [done|]. by destruct (jt_provider_version_id t).
Qed.

(** *** Steps without copies *)
Notation no_copy := (fun c => ¬ is_copy c).

Lemma head_source_no_copy t : keeps (grows no_copy) (head_source (P := P) job t).
Proof. unfold head_source, head_object_with_checksum, head_object. emits_all. Qed.

Lemma load_no_copy : keeps (grows no_copy) (load_class_target (P := P) job).
Proof. unfold load_class_target. emits_all. Qed.

Lemma load_target_ok (w : W) w' t : load_class_target job w = (w', Ok t) → copyable t = true.
Proof.
  unfold load_class_target. intros E. apply ebind_ok in E as (w1 & o & _ & E). destruct o as [t'|]; [|done].
  destruct (copyable t') eqn:Ec; [|done]. by injection E as <- <-.
Qed.

Lemma wait_no_copy t c s e : keeps (grows no_copy) (wait_for_restore (P := P) default_tier default_days date_of job t c s e).
Proof. unfold wait_for_restore, class_active, restore_object, now_iso. emits_all. Qed.

Lemma copy_and_read_back_ok t h mode seen (w : W) w' version etag :
  CHead {| hr_bucket := cj_bucket job; hr_key := or_default (jt_object_key t) "";
           hr_version := Some (or_default (jt_provider_version_id t) ""); hr_checksum_mode := mode |} (Ok h) ∈ seen →
  hd_delete_marker h = false → copy_and_read_back sha256 job t h w = (w', Ok (version, etag)) →
  ∃ new size checksum, w_calls w' = w_calls w ++ new ∧ source_proof (target_ref job t) checksum (seen ++ new)
    ∧ copy_proof (target_ref job t) version (target_class job) size checksum (seen ++ new).
Proof.
  intros Hh Hm E. unfold copy_and_read_back in E.
  apply ebind_ok in E as (w1 & size & [_ ->]%lift_ok & E). apply ebind_ok in E as (w2 & checksum & E2 & E).
  apply ebind_ok in E as (w3 & [] & E3 & E). apply ebind_ok in E as (w4 & copied & E4 & E). apply ebind_ok in E as (w5 & [] & E5 & E).
  apply read_back_proof with (o := target_ref job t) in E as (n6 & C6 & Hp6).
  eapply emits_calls in E3 as (n3 & C3 & _); [|apply (ensure_job_active_silent _ (fun _ => True))].
  eapply emits_calls in E4 as (n4 & C4 & _); [|apply (copy_not_delete job)].
  eapply emits_calls in E5 as (n5 & C5 & _); [|apply (ensure_job_active_silent _ (fun _ => True))].
  assert (∃ n2, w_calls w2 = w_calls w ++ n2 ∧ source_proof (target_ref job t) checksum (seen ++ n2)) as (n2 & C2 & Hs).
  { unfold source_checksum in E2. destruct (full_object_sha256_checksum h) as [text|] eqn:Ef.
    - injection E2 as <- <-. exists []. rewrite !app_nil_r. split; [done|]. exists mode, h. auto.
    - apply sha256_version_ok in E2 as (cs & -> & ->); [|apply class_active_silent]. eexists. split; [done|].
      exists mode, h. split; [set_solver|]. split; [done|]. right. exists cs. split; [set_solver | done]. }
  exists (n2 ++ n3 ++ n4 ++ n5 ++ n6), size, checksum. split; [by rewrite C6, C5, C4, C3, C2, <- !app_assoc|]. split.
  - eapply source_proof_weaken, Hs. set_solver.
  - eapply copy_proof_weaken, Hp6. set_solver.
Qed.

End proofs.

(** ** A concrete change *)
Definition w_class_job : claimed_job :=
  {| cj_row := w_leased_job "storage-class" "queued"; cj_bucket := "bucket"; cj_source_root := "/data/vault"; cj_s3_prefix := "vaults/photos" |}.
Definition w_class_world : world worker_db (list w_object) :=
  w_move_world (w_worker_db (set_jobs [cj_row w_class_job] (set_versions [w_move_version] CloudDeletion.w_catalog))).
Definition w_class_change : world worker_db (list w_object) * result unit :=
  process_single_class (Provider0 := w_bucket) (Environment0 := w_environment) (H := w_messages) (H0 := w_transitions)
    (fun b => b) (Ok tt) "Bulk" 3 (fun _ => 0) (eret tt) w_class_job w_class_world.

