(* ===== verification/WorkerReconcile.v ===== *)
(** * WorkerReconcile: what becomes of Jobs a stopped worker left behind

    Models [_reconcile_interrupted_jobs_impl] of [src/app/storage.py] with
    [_reconcile_recover_job], [_reconcile_storage_class_job],
    [_storage_head_matches_catalog] and [_fail_storage_class_reconciliation], and
    the two gauges [observe_stuck_lease_jobs] and [observe_failed_job_backlog].

    One sweep is one transaction over at most a hundred Jobs whose lease has
    expired in a status in which a worker was at work.  [exn_text] is
    [str(exc)]; the counters of metrics are left out. *)
From S2P Require Import Prelude Sql PyString VaultPaths Schema ProtectionStates DirectoryAggregates JobScheduler JobClaims DirtyMarks CloudDeletion Fnmatch OperationPolicies Catalog Json Lifecycle CatalogIncidents CatalogVersions Notifications Effects S3Client S3Copy WorkerJobs LocalFiles CloudPreflight VaultMoves WorkerPurge WorkerRelease WorkerStorageClass.
Open Scope Z_scope.

Definition EXPIRED_LEASE_RECONCILE_BATCH : nat := 100.

(** [_INTERRUPTED_JOB_SQL]. *)
Definition interrupted (j : job) : bool :=
  ((j_action j =b "recover") && (j_status j ∈b ["downloading"; "verifying"]))
  || ((j_action j =b "upload") && (j_status j ∈b ["uploading"; "verifying"]))
  || ((j_action j =b "rename") && (j_status j ∈b ["uploading"; "verifying"; "cleaning"]))
  || ((j_action j =b "free-space") && (j_status j =b "cleaning"))
  || ((j_action j =b "storage-class") && (j_status j =b "uploading"))
  || ((j_action j =b "cloud-purge") && (j_status j =b "cleaning")).

(** The Jobs of a sweep, joined with the bucket and the root of their Vault. *)
Definition interrupted_jobs (d : worker_db) (at_ : timestamp) : list claimed_job :=
  omap (fun j => (fun v => {| cj_row := j; cj_source_root := va_source_root v; cj_s3_prefix := va_s3_prefix v;
                              cj_bucket := or_default (v_bucket <$> fetchone (fun p => v_id p =b va_id v) (d_plans d)) "" |})
                 <$> fetchone (fun v => va_id v =b j_vault_id j) (t_vaults (d_catalog d)))
    (take EXPIRED_LEASE_RECONCILE_BATCH
       (sort_by job_le (select (fun j => interrupted j && lease_free at_ j
                                         && exists_row (fun v => va_id v =b j_vault_id j) (t_vaults (d_catalog d)))
                          (t_jobs (d_catalog d))))).

Inductive outcome := Completed | Requeued | Failed | Skipped.
#[global] Instance outcome_eq_dec : EqDecision outcome.
Proof. solve_decision. Defined.

Record summary := { sm_completed : Z; sm_requeued : Z; sm_failed : Z }.
Definition count (o : outcome) (s : summary) : summary :=
  match o with
  | Completed => {| sm_completed := sm_completed s + 1; sm_requeued := sm_requeued s; sm_failed := sm_failed s |}
  | Requeued => {| sm_completed := sm_completed s; sm_requeued := sm_requeued s + 1; sm_failed := sm_failed s |}
  | Failed => {| sm_completed := sm_completed s; sm_requeued := sm_requeued s; sm_failed := sm_failed s + 1 |}
  | Skipped => s
  end.

Definition local_actions : list string := ["recover"; "upload"; "rename"; "free-space"].

(** [str(path)]. *)
Definition path_text (p : path) : string := "/" +:+ String.concat "/" p.

(** Provider proof of a catalogued destination. *)
Definition storage_head_matches_catalog (v : archive_version) (h : head_answer) (target : string) : bool :=
  let recorded := strip_quotes (if truthy (vp_etag (av_placement v)) then or_default (vp_etag (av_placement v)) "" else "") in
  let observed := strip_quotes (if truthy (hd_etag h) then or_default (hd_etag h) "" else "") in
  truthy (hd_version_id h) && bool_decide (or_default (hd_version_id h) "" = py_str (av_provider_version_id v))
  && (class_or_standard (hd_storage_class h) =b target)
  && match av_size v, hd_content_length h with Some a, Some b => a =? b | _, _ => true end
  && ((recorded =b "") || (observed =b "") || (recorded =b observed)).

Section reconcile.
Context {P : Type} `{!Provider P} `{!Disk P} `{!Environment worker_db} `{!Host} `{!Messages}.
Context (sha256 : bytes → bytes).
Context (credentials : result unit).
Context (fuel : nat).
Context (exn_text : exn → string).
Notation W := (world worker_db P).

(** One decision, with the notification of a terminal one. *)
Definition settle (job_id : Z) (at_ : timestamp) (status message : string) (reset complete : bool) : eff W bool :=
  changed <~ in_db (fun d => Ok (reconcile_job_transition job_id status message at_ reset complete d)) ;;
  (if changed && is_terminal status then update_db (notify_terminal job_id at_) else eret tt) ;;;
  eret changed.

Definition requeue (job_id : Z) (at_ : timestamp) (message : string) (reset : bool) : eff W outcome :=
  changed <~ settle job_id at_ "queued" message reset false ;; eret (if changed : bool then Requeued else Skipped).
Definition fail_job (job_id : Z) (at_ : timestamp) (message : string) : eff W outcome :=
  changed <~ settle job_id at_ "failed" message false false ;; eret (if changed : bool then Failed else Skipped).
Definition complete_job (job_id : Z) (at_ : timestamp) (message : string) : eff W outcome :=
  changed <~ settle job_id at_ "completed" message false true ;; eret (if changed : bool then Completed else Skipped).

(** ** Recoveries *)

(** [is_symlink() or not is_file()]. *)
Definition not_plain_file (p : path) : eff W bool :=
  symlink <~ catch_if is_os_error (info <~ lstat p ;; eret (sx_kind info =b KSymlink)) (fun _ => eret false) ;;
  if symlink : bool then eret true
  else plain <~ catch_if is_os_error (info <~ os_stat_follow p ;; eret (sx_kind info =b KRegular)) (fun _ => eret false) ;;
       eret (negb plain).

Definition is_value_error (e : exn) : bool := match e with ValueError _ => true | _ => false end.

(** The digest of the destination, or the text of a failure. *)
Definition destination_digest (expected : string) (p : path) : eff W (string * file_stat + string) :=
  catch_if (fun e => is_os_error e || is_value_error e || is_runtime_error e)
    (throw! ValueError "invalid literal for int() with base 16" when negb (is_int_base_16 expected) ;;
     found <~ hash_stable_regular_file sha256 p ;; eret (inl found))
    (fun e => eret (inr (exn_text e))).

Definition adopt_recovered (job : claimed_job) (at_ : timestamp) (digest : string) (version : option string) (info : file_stat)
  : eff W unit :=
  file_uuid <~ observe uuid ;;
  in_db (fun d => '(c, _) ← observe_local_copy (d_catalog d) (j_vault_id (cj_row job)) (j_path (cj_row job)) Regular
                              (Some (sx_size info)) (Some (sx_mtime_ns info)) at_ (Some at_) (Some at_) file_uuid;
                  c ← set_local_fingerprint (j_vault_id (cj_row job)) (j_path (cj_row job)) digest version at_ c;
                  Ok (set_catalog c d, tt)).

(** An absent destination is the only state in which a retry is safe. *)
Definition reconcile_recover_job (job : claimed_job) (target_path : path) (target : option job_target) (at_ : timestamp)
  : eff W outcome :=
  let id := j_id (cj_row job) in
  there <~ lexists target_path ;;
  if negb there then requeue id at_ "Recovery interrupted by restart; destination is absent and recovery will retry" true
  else
    odd <~ not_plain_file target_path ;;
    if odd : bool
    then fail_job id at_ "Recovery destination conflict preserved after restart; the final path is not a regular file"
    else
      let recorded := target ≫= jt_version_sha256 in
      let version := if truthy (target ≫= jt_archive_version_id) then target ≫= jt_archive_version_id
                     else j_archive_version_id (cj_row job) in
      if negb (truthy recorded) || negb (truthy version)
      then fail_job id at_ "Recovery destination preserved after restart; its Archive Version digest could not be verified"
      else
        let expected := lower (or_default recorded "") in
        if negb (String.length expected =? 64)%nat
        then fail_job id at_ "Recovery destination preserved after restart; its Archive Version digest is invalid"
        else
          found <~ destination_digest expected target_path ;;
          match found with
          | inr text => fail_job id at_ ("Recovery destination conflict preserved after restart; digest verification failed: " +:+ text)
          | inl (digest, info) =>
              if digest <>b expected
              then fail_job id at_
                     "Recovery destination conflict preserved after restart; its digest does not match the Archive Version"
              else
                out <~ complete_job id at_ "Recovered Local Copy verified and adopted after restart" ;;
                if out <>b Completed then eret out
                else adopt_recovered job at_ expected version info ;;; eret out
          end.

(** ** Releases of local space *)

(** [sorted(parent.glob("." + name + ".cleanup-*.tmp"))], of the application. *)
Definition surviving_claims (target : path) (names : list string) : list path :=
  map (fun n => parent_of target ++ [n])
    (sort_by String.leb
       (List.filter (fun n => fnmatchcase n ("." +:+ name_of target +:+ ".cleanup-*.tmp") && temporary_name "cleanup" (fun s => s =b "") n)
          names)).

Fixpoint restore_claims (claims : list path) (target : path) : eff W bool :=
  match claims with
  | [] => eret false
  | claim :: claims =>
      back <~ restore_claimed_local_copy claim target ;;
      there <~ (if back : bool then lexists target else eret false) ;;
      if there : bool then eret true else restore_claims claims target
  end.

Fixpoint first_existing (claims : list path) : eff W (option path) :=
  match claims with
  | [] => eret None
  | claim :: claims =>
      there <~ catch_if is_os_error (os_stat_follow claim ;;; eret true) (fun _ => eret false) ;;
      rest <~ first_existing claims ;;
      eret (if there : bool then Some claim else rest)
  end.

Definition reconcile_free_space_job (job : claimed_job) (target : path) (at_ : timestamp) : eff W outcome :=
  let id := j_id (cj_row job) in
  there <~ lexists target ;;
  if there : bool then requeue id at_ "Operation interrupted by restart; automatically resumed" true
  else
    names <~ catch_if is_os_error (iterdir (parent_of target)) (fun _ => eret []) ;;
    let claims := surviving_claims target names in
    restored <~ restore_claims claims target ;;
    if restored : bool then requeue id at_ "Cleanup claim restored after restart; free-space resumed" true
    else
      left_ <~ first_existing claims ;;
      match left_ with
      | Some claim =>
          fail_job id at_ ("Cleanup claim could not be restored after restart; original content was preserved at "
                           +:+ path_text claim)
      | None =>
          update_db (on_catalog (mark_local_copy_missing (j_vault_file_id (cj_row job)) at_)) ;;;
          complete_job id at_ "Local space freed (reconciled after restart)"
      end.

(** ** Changes of storage class *)
Definition no_retry (detail : string) : string := detail +:+ "; manual review is required and no automatic retry was scheduled".

(** Whether the HEAD of the catalogued destination matches, or what is known of
    a copy that was not recorded. *)
Definition observe_class (job : claimed_job) (v : archive_version) (target : string) : eff W (bool + string) :=
  let key := or_default (av_object_key v) "" in
  lift credentials ;;;
  if upper (or_default (av_storage_class v) "") =b target
  then
    h <~ head_object {| hr_bucket := cj_bucket job; hr_key := key; hr_version := av_provider_version_id v; hr_checksum_mode := false |} ;;
    eret (inl (storage_head_matches_catalog v h target))
  else
    h <~ head_object {| hr_bucket := cj_bucket job; hr_key := key; hr_version := None; hr_checksum_mode := false |} ;;
    eret (inr (if truthy (hd_version_id h) && (class_or_standard (hd_storage_class h) =b target)
               then "an unrecorded destination VersionId was observed" else "the provider could not prove the copy outcome")).

Definition reconcile_storage_class_job (job : claimed_job) (at_ : timestamp) : eff W outcome :=
  let id := j_id (cj_row job) in
  move <~ read_db (fun d => load d id) ;;
  match move with
  | Some _ => requeue id at_ "Vault move interrupted; exact-version ledger will resume" false
  | None =>
      let target := upper (or_default (j_target_storage_class (cj_row job)) "") in
      version <~ read_db (fun d => fetchone (fun v => bool_decide (Some (av_id v) = j_archive_version_id (cj_row job)))
                                     (t_versions (d_catalog d))) ;;
      match version with
      | Some v =>
          if (target =b "") || negb (truthy (av_object_key v))
          then fail_job id at_ (no_retry "Storage class change interrupted with no verifiable target")
          else
            seen <~ catch (observe_class job v target) (fun _ => eret (inr "the provider postcondition could not be verified")) ;;
            match seen with
            | inl true => complete_job id at_ "Storage class change completed before restart"
            | inl false => fail_job id at_ (no_retry "Catalogued storage-class destination no longer matches the provider")
            | inr detail => fail_job id at_ (no_retry ("Storage class change interrupted: " +:+ detail))
            end
      | None => fail_job id at_ (no_retry "Storage class change interrupted with no verifiable target")
      end
  end.

(** ** The sweep *)
Definition local_target (job : claimed_job) : eff W path :=
  view <~ observe host_view ;;
  dir <~ catch_if is_os_error (info <~ os_stat_follow (abspath (cj_source_root job)) ;; eret (sx_kind info =b KDirectory))
           (fun _ => eret false) ;;
  throw! RuntimeError "Source folder is unavailable" when negb dir ;;
  lift (safe_local_entry_path view (cj_source_root job) (j_path (cj_row job))).

Definition reconcile_one (job : claimed_job) (at_ : timestamp) : eff W outcome :=
  if j_action (cj_row job) =b "recover" then
    target <~ local_target job ;;
    remove_abandoned_restore_files target ;;;
    t <~ read_db (fun d => get_job_target (d_catalog d) (j_id (cj_row job))) ;;
    reconcile_recover_job job target t at_
  else if j_action (cj_row job) =b "free-space" then
    target <~ local_target job ;; reconcile_free_space_job job target at_
  else if j_action (cj_row job) =b "storage-class" then reconcile_storage_class_job job at_
  else requeue (j_id (cj_row job)) at_ "Operation interrupted by restart; automatically resumed" true.

(** Every stale member of a purge group nobody can prove anything about. *)
Definition fail_group (job : claimed_job) (at_ : timestamp) (e : exn) (s : summary) : eff W summary :=
  rows <~ read_db (fun d => select (fun j => (j_vault_id j =b j_vault_id (cj_row job)) && is_some (j_group_id (cj_row job))
                                             && bool_decide (j_group_id j = j_group_id (cj_row job)) && (j_action j =b "cloud-purge")
                                             && (j_status j =b "cleaning") && lease_free at_ j) (t_jobs (d_catalog d))) ;;
  efold (fun s j => out <~ fail_job (j_id j) at_ ("Post-restart reconciliation failed: " +:+ exn_text e) ;; eret (count out s)) s rows.

Definition sweep_group (at_ : timestamp) (s : summary) (job : claimed_job) : eff W summary :=
  catch (rc <~ reconcile_cloud_purge_group credentials fuel job at_ ;;
         eret {| sm_completed := sm_completed s; sm_requeued := sm_requeued s + rc_requeued rc; sm_failed := sm_failed s + rc_failed rc |})
    (fun e => fail_group job at_ e s).

Definition sweep_local (at_ : timestamp) (s : summary) (job : claimed_job) : eff W summary :=
  allowed <~ (if j_action (cj_row job) ∈b local_actions
              then observe (fun n => ac_allowed (vault_local_access n (cj_source_root job))) else eret true) ;;
  if negb allowed then eret s
  else catch (out <~ reconcile_one job at_ ;; eret (count out s))
         (fun e => out <~ fail_job (j_id (cj_row job)) at_ ("Post-restart reconciliation failed: " +:+ exn_text e) ;; eret (count out s)).

Definition sweep_job (at_ : timestamp) (st : list (Z * string) * summary) (job : claimed_job)
  : eff W (list (Z * string) * summary) :=
  if j_action (cj_row job) =b "cloud-purge" then
    let key := (j_vault_id (cj_row job), or_default (j_group_id (cj_row job)) "") in
    if key ∈b st.1 then eret st
    else s <~ sweep_group at_ st.2 job ;; eret (st.1 ++ [key], s)
  else s <~ sweep_local at_ st.2 job ;; eret (st.1, s).

Definition reconcile_interrupted_jobs : eff W summary :=
  transaction (
    at_ <~ now_iso ;;
    jobs <~ read_db (fun d => interrupted_jobs d at_) ;;
    st <~ efold (sweep_job at_) ([], {| sm_completed := 0; sm_requeued := 0; sm_failed := 0 |}) jobs ;;
    eret st.2).

(** ** Gauges: how many, and the age of the oldest in microseconds *)
Definition oldest (l : list timestamp) : option timestamp :=
  match l with [] => None | t :: l => Some (foldr Z.min t l) end.

Definition observe_stuck_lease_jobs : eff W (Z * Z) :=
  stamp <~ now_iso ;;
  now <~ now_iso ;;
  rows <~ transaction (read_db (fun d => select (fun j => interrupted j && lease_free stamp j) (t_jobs (d_catalog d)))) ;;
  eret (match (match oldest (omap j_claim_expires_at rows) with Some t => Some t | None => oldest (map j_updated_at rows) end) with
        | Some t => (Z.of_nat (length rows), Z.max 0 (now - t))
        | None => (0, 0)
        end).

Definition observe_failed_job_backlog : eff W (Z * Z) :=
  now <~ now_iso ;;
  rows <~ transaction (read_db (fun d => select (fun j => j_status j =b "failed") (t_jobs (d_catalog d)))) ;;
  eret (match oldest (map j_updated_at rows) with
        | Some t => (Z.of_nat (length rows), Z.max 0 (now - t))
        | None => (0, 0)
        end).
End reconcile.

(** ** Facts *)
Section reconcile_facts.
Context {P : Type} `{!Provider P} `{!Disk P} `{!Environment worker_db} `{!Host} `{!Messages}.
Context (sha256 : bytes → bytes) (credentials : result unit) (fuel : nat) (exn_text : exn → string).
Notation W := (world worker_db P).

(** Requests that only look. *)
Definition looks (c : call) : Prop :=
  match c with
  | CList _ _ | CHead _ _ | CLstat _ _ | CStat _ _ | COpen _ _ | CFstat _ _ | CRead _ _ | CIterdir _ _ | CLink _ _ => True
  | _ => False
  end.

(** A sweep changes nothing outside the tables except that it removes its own
    temporary files and puts claimed files back under their names. *)
Definition conservative (history : list call) (c : call) (d : worker_db) : Prop :=
  match c with
  | CUnlink p _ => is_restore_residue (name_of p) = true ∨ ∃ q, last history = Some (CLink (p, q) (Ok tt))
  | _ => looks c
  end.

Lemma looks_conservative {A} (m : eff W A) : keeps (grows looks) m → keeps (abides conservative) m.
Proof. apply abides_grows. by intros h [] d. Qed.

Lemma settle_looks id at_ status message reset complete : keeps (grows looks) (settle (P := P) id at_ status message reset complete).
Proof. unfold settle. emits_all. Qed.

Lemma requeue_looks id at_ message reset : keeps (grows looks) (requeue (P := P) id at_ message reset).
Proof. pose proof settle_looks. unfold requeue. emits_all. Qed.
Lemma fail_looks id at_ message : keeps (grows looks) (fail_job (P := P) id at_ message).
Proof. pose proof settle_looks. unfold fail_job. emits_all. Qed.
Lemma complete_looks id at_ message : keeps (grows looks) (complete_job (P := P) id at_ message).
Proof. pose proof settle_looks. unfold complete_job. emits_all. Qed.

Lemma lexists_looks p : keeps (grows looks) (lexists (P := P) (D := worker_db) p).
Proof. unfold lexists, lstat. emits_all. Qed.
Lemma plain_looks p : keeps (grows looks) (not_plain_file (P := P) p).
Proof. unfold not_plain_file, lstat, os_stat_follow. emits_all. Qed.
Lemma hash_looks p : keeps (grows looks) (hash_stable_regular_file (P := P) (D := worker_db) sha256 p).
Proof. unfold hash_stable_regular_file, lstat, os_open, fstat, read_all, append_chunk. emits_all. Qed.
Lemma digest_looks expected p : keeps (grows looks) (destination_digest (P := P) sha256 exn_text expected p).
Proof. pose proof hash_looks. unfold destination_digest. emits_all. Qed.
Lemma adopt_looks job at_ digest version info : keeps (grows looks) (adopt_recovered (P := P) job at_ digest version info).
Proof. unfold adopt_recovered. emits_all. Qed.
Lemma observe_class_looks job v target : keeps (grows looks) (observe_class (P := P) credentials job v target).
Proof. unfold observe_class, head_object. emits_all. Qed.

#[local] Hint Resolve requeue_looks fail_looks complete_looks lexists_looks plain_looks digest_looks adopt_looks observe_class_looks : eff.

Lemma recover_looks job p t at_ : keeps (grows looks) (reconcile_recover_job (P := P) sha256 exn_text job p t at_).
Proof. unfold reconcile_recover_job. repeat first [keeps_step | solve [auto 2 with eff]]. Qed.

Lemma class_looks job at_ : keeps (grows looks) (reconcile_storage_class_job (P := P) credentials job at_).
Proof. unfold reconcile_storage_class_job. repeat first [keeps_step | solve [auto 2 with eff]]. Qed.

Lemma local_target_looks job : keeps (grows looks) (local_target (P := P) job).
Proof. unfold local_target, os_stat_follow. repeat first [keeps_step | solve [eauto 3 with eff]]. Qed.

Lemma unlink_abides p : is_restore_residue (name_of p) = true → keeps (abides conservative) (unlink (P := P) (D := worker_db) p).
Proof.
  intros Hr w. destruct (unlink p w) as [w' r] eqn:E. pose proof (request_tables _ _ _ _ _ _ E) as Et.
  apply request_run in E as [Ec _]. cbn. exists [CUnlink p r], [w_db w]. do 3 (split; [done|]).
  intros [|i] c d [= <-] _. by left.
Qed.

Lemma residues_conservative target : keeps (abides conservative) (remove_abandoned_restore_files (P := P) (D := worker_db) target).
Proof.
  unfold remove_abandoned_restore_files. apply keeps_catch_if; [apply _ | | intros e; apply keeps_ret; apply _].
  apply keeps_bind; [apply _ | apply looks_conservative; unfold iterdir; eauto with eff | intros names].
  apply keeps_each; [apply _|]. intros name. unfold remove_residue. destruct (is_restore_residue name) eqn:En; [|apply keeps_ret; apply _].
  apply keeps_catch_if; [apply _ | | intros e; apply keeps_ret; apply _]. apply unlink_abides. unfold name_of. by rewrite last_snoc.
Qed.

Lemma restore_claimed_conservative claimed target :
  keeps (abides conservative) (restore_claimed_local_copy (P := P) (D := worker_db) claimed target).
Proof.
  intros w. destruct (restore_claimed_local_copy claimed target w) as [w' r] eqn:E.
  assert (keeps (grows (fun c => looks c ∨ is_unlink c)) (restore_claimed_local_copy (P := P) (D := worker_db) claimed target)) as Hg.
  { unfold restore_claimed_local_copy, link_back, entry_exists, lstat, os_link, unlink.
    repeat first [keeps_step | apply emits_request; intros ?; cbn; tauto | solve [eauto 3 with eff]]. }
  pose proof (grows_tables _ _ _ _ _ Hg E) as (new & tables & Ec & Et & El & Fn).
  apply restore_claimed_calls in E as (n & C & Hb). rewrite Ec in C. apply app_inv_head in C as <-.
  exists new, tables. do 3 (split; [done|]). intros i c d Hi _. pose proof (Forall_lookup_1 _ _ _ _ Fn Hi) as [Hl|Hu]; [by destruct c|].
  assert (∃ p r', c = CUnlink p r') as (p & r' & ->) by (destruct c; try done; eauto).
  destruct Hb as [Hq|(before & a & -> & Hq)]; [by destruct (Hq _ (list_elem_of_lookup_2 _ _ _ Hi))|].
  apply last_link in Hi as [-> Ht]; [|done]. right. exists target. by rewrite Ht, app_assoc, last_snoc.
Qed.

Lemma restore_claims_conservative claims target : keeps (abides conservative) (restore_claims (P := P) claims target).
Proof.
  induction claims as [|claim claims IH]; cbn; [apply keeps_ret; apply _|].
  apply keeps_bind; [apply _ | apply restore_claimed_conservative | intros back].
  apply keeps_bind; [apply _ | destruct back; [apply looks_conservative, lexists_looks | apply keeps_ret; apply _] | intros there].
  destruct there; [apply keeps_ret; apply _ | exact IH].
Qed.

Lemma first_existing_looks claims : keeps (grows looks) (first_existing (P := P) claims).
Proof.
  induction claims as [|claim claims IH]; cbn; [eauto with eff|].
  unfold os_stat_follow. repeat first [keeps_step | solve [eauto 3 with eff]].
Qed.

Lemma free_space_conservative job target at_ : keeps (abides conservative) (reconcile_free_space_job (P := P) job target at_).
Proof.
  unfold reconcile_free_space_job, iterdir. repeat first
    [ apply looks_conservative; solve [eauto 3 using first_existing_looks with eff] | apply restore_claims_conservative | keeps_step
    | apply looks_conservative; solve [emits_all] ].
Qed.

Lemma reconcile_one_conservative job at_ : keeps (abides conservative) (reconcile_one (P := P) sha256 credentials exn_text job at_).
Proof.
  unfold reconcile_one. pose proof residues_conservative. pose proof free_space_conservative.
  repeat first [ apply looks_conservative; solve [eauto 3 using local_target_looks, recover_looks, class_looks with eff] | solve [eauto 2] | keeps_step ].
Qed.

(** *** What a completion rests on *)
Lemma fail_not_completed id at_ message (w : W) w' : fail_job id at_ message w = (w', Ok Completed) → False.
Proof. unfold fail_job. intros E. apply ebind_ok in E as (w1 & [] & _ & E); done. Qed.
Lemma requeue_not_completed id at_ message reset (w : W) w' : requeue id at_ message reset w = (w', Ok Completed) → False.
Proof. unfold requeue. intros E. apply ebind_ok in E as (w1 & [] & _ & E); done. Qed.

Lemma calls_of {A} p (m : eff W A) w w' r : keeps (grows p) m → m w = (w', r) → ∃ new, w_calls w' = w_calls w ++ new.
Proof. intros Hm E. eapply emits_calls in E as (n & ? & _); [eauto | exact Hm]. Qed.

Lemma destination_digest_ok expected p (w : W) w' digest info :
  destination_digest sha256 exn_text expected p w = (w', Ok (inl (digest, info))) →
  ∃ new, w_calls w' = w_calls w ++ new ∧ hashed sha256 p digest info new.
Proof.
  unfold destination_digest, catch_if, catch. destruct (ebind _ _ w) as [w1 [x|e]] eqn:E.
  - intros [= <- ->]. apply throw_bind_ok in E as [_ E]. apply ebind_ok in E as (w2 & [dg i] & E & [= <- <- <-]).
    by apply hash_stable_ok in E as (_ & new & ? & ?); eauto.
  - destruct (catchable e); [|done]. by destruct (_ || _).
Qed.

(** The entry at [p] is a stable regular file with the digest. *)
Definition has_digest (p : path) (digest : string) (seen : list call) : Prop :=
  ∃ info before bytes_ after, seen = before ++ bytes_ ++ after ∧ hashed sha256 p digest info bytes_.

Lemma recover_evidence job p t at_ (w : W) w' :
  reconcile_recover_job sha256 exn_text job p t at_ w = (w', Ok Completed) →
  ∃ new recorded, w_calls w' = w_calls w ++ new ∧ (t ≫= jt_version_sha256) = Some recorded ∧ has_digest p (lower recorded) new.
Proof.
  unfold reconcile_recover_job. intros E. apply ebind_ok in E as (w1 & there & E1 & E). eapply calls_of in E1 as (n1 & C1); [|apply lexists_looks].
  destruct (negb there); [by apply requeue_not_completed in E|].
  apply ebind_ok in E as (w2 & odd & E2 & E). eapply calls_of in E2 as (n2 & C2); [|apply plain_looks].
  destruct odd; [by apply fail_not_completed in E|]. destruct (negb (truthy (t ≫= jt_version_sha256)) || _) eqn:Eb; [by apply fail_not_completed in E|].
  destruct (negb (_ =? 64)%nat); [by apply fail_not_completed in E|].
  apply ebind_ok in E as (w3 & found & E3 & E). destruct found as [[digest info]|text]; [|by apply fail_not_completed in E].
  apply destination_digest_ok in E3 as (n3 & C3 & Hh). destruct (bool_decide_reflect (digest = lower (or_default (t ≫= jt_version_sha256) ""))) as [->|];
    [|by apply fail_not_completed in E]. cbn in E.
  assert (∃ n4, w_calls w' = w_calls w3 ++ n4) as (n4 & C4).
  { eapply (calls_of looks) in E; [exact E|]. repeat first [keeps_step | solve [eauto 3 with eff]]. }
  destruct (t ≫= jt_version_sha256) as [recorded|]; [|done]. exists (n1 ++ n2 ++ n3 ++ n4), recorded.
  split; [by rewrite C4, C3, C2, C1, <- !app_assoc|]. split; [done|]. exists info, (n1 ++ n2), n3, n4. by rewrite <- !app_assoc.
Qed.

(** The name is gone, and so is every claim of it the listing showed. *)
Definition is_gone (p : path) (seen : list call) : Prop :=
  (∃ e, CLstat p (Raise e) ∈ seen)
  ∧ ∃ names, (CIterdir (parent_of p) (Ok names) ∈ seen ∨ names = [] ∧ ∃ e, CIterdir (parent_of p) (Raise e) ∈ seen)
      ∧ ∀ claim, claim ∈ surviving_claims p names → ∃ e, CStat claim (Raise e) ∈ seen.

(** [try: request ...; True except OSError: False], when it answers no. *)
Lemma caught_request {Q A} (op : Q → P → P * result A) (record : Q → result A → call) q (w : W) w' :
  catch_if is_os_error (request op record q ;;; eret true) (fun _ => eret false) w = (w', Ok false) →
  ∃ e, w_calls w' = w_calls w ++ [record q (Raise e)].
Proof.
  unfold catch_if, catch, ebind. destruct (request op record q w) as [w1 [a|e]] eqn:E; [done|].
  apply request_run in E as [Ec _]. destruct (catchable e); [|done]. destruct (is_os_error e); [|done]. intros [= <-]. eauto.
Qed.

Lemma first_existing_none claims (w : W) w' :
  first_existing claims w = (w', Ok None) →
  ∃ new, w_calls w' = w_calls w ++ new ∧ ∀ claim, claim ∈ claims → ∃ e, CStat claim (Raise e) ∈ new.
Proof.
  revert w. induction claims as [|c claims IH]; intros w; cbn.
  { intros [= <-]. exists []. rewrite app_nil_r. split; [done|]. intros ? []%elem_of_nil. }
  intros E. apply ebind_ok in E as (w1 & there & E1 & E). apply ebind_ok in E as (w2 & rest & E2 & E).
  destruct there; [done|]. injection E as -> ->. apply caught_request in E1 as (e & C1). apply IH in E2 as (n2 & C2 & H2).
  exists (CStat c (Raise e) :: n2). rewrite C2, C1, <- app_assoc. split; [done|].
  intros claim [->|Hc]%elem_of_cons; [exists e; set_solver|]. destruct (H2 _ Hc) as [e' ?]. exists e'. set_solver.
Qed.

Lemma restore_claims_calls claims target : keeps (grows (fun _ => True)) (restore_claims (P := P) claims target).
Proof.
  induction claims as [|c claims IH]; cbn; [eauto with eff|].
  unfold restore_claimed_local_copy, link_back, entry_exists, lexists, lstat, os_link, unlink.
  repeat first [keeps_step | solve [eauto 3 with eff]].
Qed.

Lemma release_evidence job p at_ (w : W) w' :
  reconcile_free_space_job job p at_ w = (w', Ok Completed) → ∃ new, w_calls w' = w_calls w ++ new ∧ is_gone p new.
Proof.
  unfold reconcile_free_space_job. intros E. apply ebind_ok in E as (w1 & there & E1 & E).
  destruct there; [by apply requeue_not_completed in E|]. apply caught_request in E1 as (e1 & C1).
  apply ebind_ok in E as (w2 & names & E2 & E).
  assert (∃ n2, w_calls w2 = w_calls w1 ++ n2 ∧ (CIterdir (parent_of p) (Ok names) ∈ n2 ∨ names = [] ∧ ∃ e, CIterdir (parent_of p) (Raise e) ∈ n2))
    as (n2 & C2 & Hn).
  { unfold catch_if, catch in E2. destruct (iterdir _ w1) as [w3 [l|e]] eqn:E3; apply request_run in E3 as [C3 _].
    - injection E2 as <- <-. eexists. split; [exact C3|]. left. set_solver.
    - destruct (catchable e); [|done]. destruct (is_os_error e); [|done]. injection E2 as <- <-. eexists. split; [exact C3|].
      right. split; [done|]. exists e. set_solver. }
  apply ebind_ok in E as (w3 & restored & E3 & E). destruct restored; [by apply requeue_not_completed in E|].
  eapply calls_of in E3 as (n3 & C3); [|apply restore_claims_calls].
  apply ebind_ok in E as (w4 & left_ & E4 & E). destruct left_ as [claim|]; [by apply fail_not_completed in E|].
  apply first_existing_none in E4 as (n4 & C4 & H4).
  assert (∃ n5, w_calls w' = w_calls w4 ++ n5) as (n5 & C5).
  { eapply (calls_of looks) in E; [exact E|]. repeat first [keeps_step | solve [eauto 3 with eff]]. }
  exists ([CLstat p (Raise e1)] ++ n2 ++ n3 ++ n4 ++ n5). split; [by rewrite C5, C4, C3, C2, C1, <- !app_assoc|].
  split; [exists e1; set_solver|]. exists names. split; [destruct Hn as [?|(-> & e & ?)]; [left | right; split; [done|exists e]]; set_solver|].
  intros claim Hc. destruct (H4 _ Hc) as [e ?]. exists e. set_solver.
Qed.

(** The destination of a copy is catalogued and the provider confirms it. *)
Definition class_confirmed (job : claimed_job) (d : worker_db) (seen : list call) : Prop :=
  load d (j_id (cj_row job)) = None ∧
  ∃ v h, v ∈ t_versions (d_catalog d) ∧ Some (av_id v) = j_archive_version_id (cj_row job)
    ∧ CHead {| hr_bucket := cj_bucket job; hr_key := or_default (av_object_key v) ""; hr_version := av_provider_version_id v;
               hr_checksum_mode := false |} (Ok h) ∈ seen
    ∧ storage_head_matches_catalog v h (upper (or_default (j_target_storage_class (cj_row job)) "")) = true.

Lemma class_evidence job at_ (w : W) w' :
  reconcile_storage_class_job credentials job at_ w = (w', Ok Completed) →
  ∃ new, w_calls w' = w_calls w ++ new ∧ class_confirmed job (w_db w) new.
Proof.
  unfold reconcile_storage_class_job. intros E. apply ebind_ok in E as (w1 & move & [= <- <-] & E).
  destruct (load _ _) eqn:El; [by apply requeue_not_completed in E|].
  apply ebind_ok in E as (w2 & version & [= <- <-] & E).
  destruct (fetchone _ _) as [v|] eqn:Ev; [|by apply fail_not_completed in E].
  apply fetchone_some in Ev as [Hv Hi%bool_decide_eq_true]. destruct (_ || _); [by apply fail_not_completed in E|].
  apply ebind_ok in E as (w3 & seen & E3 & E). destruct seen as [[]|]; try by apply fail_not_completed in E.
  assert (∃ n3 h, w_calls w3 = w_calls w ++ n3
    ∧ CHead {| hr_bucket := cj_bucket job; hr_key := or_default (av_object_key v) ""; hr_version := av_provider_version_id v;
               hr_checksum_mode := false |} (Ok h) ∈ n3
    ∧ storage_head_matches_catalog v h (upper (or_default (j_target_storage_class (cj_row job)) "")) = true) as (n3 & h & C3 & Hh & Hm).
  { unfold catch in E3. destruct (observe_class _ _ _ _ w) as [w4 [x|e]] eqn:E4; [|by destruct (catchable e)].
    injection E3 as <- ->. unfold observe_class in E4. apply ebind_ok in E4 as (w5 & [] & [_ ->]%lift_ok & E4).
    destruct (bool_decide _); [|by apply ebind_ok in E4 as (? & ? & _ & [=])].
    apply ebind_ok in E4 as (w6 & h & E6 & [= <- Hm]). apply request_ok in E6 as [C6 _]. eexists _, h. split; [exact C6|].
    split; [set_solver | done]. }
  assert (∃ n4, w_calls w' = w_calls w3 ++ n4) as (n4 & C4) by (eapply calls_of in E; [exact E | apply complete_looks]).
  exists (n3 ++ n4). split; [by rewrite C4, C3, <- app_assoc|]. split; [done|]. exists v, h. split; [done|]. split; [done|].
  split; [set_solver | done].
Qed.

(** *** The steps before a recovery is judged leave the tables alone *)
#[local] Instance same_tables : PreOrder (fun w w' : W => w_db w' = w_db w).
Proof. split; [done | congruence]. Qed.

Lemma request_same {Q A} (op : Q → P → P * result A) (record : Q → result A → call) q :
  keeps (fun w w' : W => w_db w' = w_db w) (request op record q).
Proof. intros w. destruct (request op record q w) as [w' r] eqn:E. by apply request_run in E as [_ E]. Qed.

Lemma residues_same target : keeps (fun w w' : W => w_db w' = w_db w) (remove_abandoned_restore_files target).
Proof.
  unfold remove_abandoned_restore_files, remove_residue, iterdir, unlink.
  repeat first [keeps_step | apply request_same | solve [eauto 3 with eff]].
Qed.

Lemma local_target_same job : keeps (fun w w' : W => w_db w' = w_db w) (local_target job).
Proof.
  unfold local_target, os_stat_follow. repeat first [keeps_step | apply request_same | by intros ? | solve [eauto 3 with eff]].
Qed.

(** What a Job that a restart completes must have shown, by its action. *)
Definition restart_evidence (job : claimed_job) (d : worker_db) (seen : list call) : Prop :=
  let action := j_action (cj_row job) in
  (action = "recover" ∧ ∃ p t v recorded, get_job_target (d_catalog d) (j_id (cj_row job)) = Some t ∧ jt_version t = Some v
     ∧ av_plaintext_sha256 v = Some recorded ∧ has_digest p (lower recorded) seen)
  ∨ (action = "free-space" ∧ ∃ p, is_gone p seen)
  ∨ (action = "storage-class" ∧ class_confirmed job d seen).


(** *** The whole sweep *)
Lemma pages_look n q st seen : keeps (grows looks) (list_pages (D := worker_db) (P := P) n q st seen).
Proof.
  revert q st seen. induction n as [|n IH]; intros q st seen; cbn; [emits_all|].
  unfold list_object_versions. apply keeps_bind; [apply _ | emits_all | intros pg]. destruct (pg_truncated pg); emits_all.
Qed.

Lemma purge_group_looks job at_ : keeps (grows looks) (reconcile_cloud_purge_group (P := P) credentials fuel job at_).
Proof.
  pose proof pages_look. unfold reconcile_cloud_purge_group, observe_item, listing_of, object_version_entries.
  repeat first [keeps_step | solve [eauto 3 with eff]].
Qed.

Lemma sweep_is_conservative : keeps (abides conservative) (reconcile_interrupted_jobs (P := P) sha256 credentials fuel exn_text).
Proof.
  pose proof purge_group_looks. pose proof reconcile_one_conservative.
  intros w. destruct (reconcile_interrupted_jobs _ _ _ _ w) as [w' r] eqn:E. revert E. apply abides_transaction. intros w0 w1 _.
  apply abides_step. apply keeps_bind; [apply _ | by apply looks_conservative, emits_observe | intros at_].
  apply keeps_bind; [apply _ | apply keeps_gets; apply _ | intros jobs].
  apply keeps_bind; [apply _ | | intros st; apply keeps_ret; apply _]. apply keeps_fold; [apply _|].
  intros st job. unfold sweep_job, sweep_group, sweep_local, fail_group.
  repeat first [ solve [eauto 2] | apply looks_conservative; solve [eauto 3 with eff] | keeps_step ].
Qed.
End reconcile_facts.

(** ** Names with wildcards

    The claims of a file are looked up with a glob pattern built from its name
    without escaping.  The claim of a name with brackets does not match it, so the
    release is reported as done while the bytes stay under the hidden name; and a
    name with a star takes the claim of another file as its own. *)
Definition w_claim_suffix : string := ".cleanup-0123456789abcdef0123456789abcdef.tmp".

Lemma claim_of_bracket_name_is_missed :
  temporary_name "cleanup" (fun s => s =b "") ("." +:+ "a[1].txt" +:+ w_claim_suffix) = true
  ∧ surviving_claims ["data"; "a[1].txt"] ["." +:+ "a[1].txt" +:+ w_claim_suffix] = [].
Proof. split; vm_compute; reflexivity. Qed.

Lemma claim_of_another_file_is_taken :
  surviving_claims ["data"; "a*"] ["." +:+ "ab" +:+ w_claim_suffix] = [["data"; "." +:+ "ab" +:+ w_claim_suffix]].
Proof. vm_compute. reflexivity. Qed.

(** ** A concrete restart *)
Definition w_restart_job : claimed_job :=
  {| cj_row := set_claim (Some "lease") (Some 0) (Some 0) (w_leased_job "free-space" "cleaning"); cj_bucket := "bucket";
     cj_source_root := "/data/vault"; cj_s3_prefix := "vaults/photos" |}.
Definition w_restart : world worker_db (list bytes) * result outcome :=
  reconcile_one (Provider0 := w_store) (Disk0 := w_disk) (Environment0 := w_environment) (H := w_host) (H0 := w_messages)
    w_digest (Ok tt) (fun _ => "error") w_restart_job 5 (w_server (w_protected_catalog (cj_row w_restart_job))).

