(* ===== verification/WorkerRecover.v ===== *)
(** * WorkerRecover: a cloud-only file comes back to the server

    Models [process_recover], [download_exact_version_plaintext] and
    [_ThrottledByteProgress] of [src/app/storage.py].

    The version is downloaded under a hidden name, hashed there and renamed only
    onto a name that does not exist.  Whether a restore from the archive is costly
    enough to be held for the Owner ([is_high_impact_restore] on the estimate) is
    the parameter [high_impact]; [approved] is [jobs.approved_at IS NOT NULL] of
    the claimed row.  The callback of a transfer runs on threads of boto3, outside
    the claim context of the worker. *)
From S2P Require Import Prelude Sql PyString VaultPaths Schema JobScheduler JobClaims DirtyMarks Json Catalog CatalogIncidents CatalogVersions Notifications Effects S3Client S3Copy WorkerJobs LocalFiles CloudPreflight WorkerRelease WorkerStorageClass.
Open Scope Z_scope.

(** The target has a verified and available version with an exact identity. *)
Definition recoverable_target (t : job_target) : bool :=
  bool_decide ((av_integrity <$> jt_version t) = Some Verified) && bool_decide ((av_availability <$> jt_version t) = Some Available)
  && truthy (jt_provider_version_id t) && truthy (jt_object_key t) && truthy (jt_version_sha256 t) && truthy (jt_archive_version_id t).

(** The row of a restore held for approval. *)
Definition held_row (until at_ : timestamp) (tier : string) (days_ : Z) (j : job) : job :=
  {| j_id := j_id j; j_vault_id := j_vault_id j; j_vault_file_id := j_vault_file_id j;
     j_archive_version_id := j_archive_version_id j; j_path := j_path j; j_action := j_action j;
     j_status := "pending_approval"; j_origin := j_origin j;
     j_message := Some "High-impact Glacier restore held for primary-owner approval; RestoreObject cannot be cancelled after AWS accepts it";
     j_message_key := j_message_key j; j_message_params := j_message_params j;
     j_requested_by := j_requested_by j; j_requested_at := j_requested_at j;
     j_updated_at := at_; j_group_id := j_group_id j; j_group_path := j_group_path j;
     j_total_bytes := j_total_bytes j; j_transferred_bytes := j_transferred_bytes j;
     j_reason := j_reason j; j_confirmation_phrase := j_confirmation_phrase j;
     j_restore_tier := Some tier; j_restore_days := Some days_;
     j_target_storage_class := j_target_storage_class j;
     j_upload_verification_requested := j_upload_verification_requested j;
     j_pending_until := Some until; j_retry_after := j_retry_after j;
     j_claim_token := None; j_claimed_at := None; j_claim_expires_at := None; j_upload := j_upload j |}.

Definition restore_name (name token : string) : string := "." +:+ name +:+ ".restore-" +:+ token +:+ ".tmp".

Section recover.
Context {P : Type} `{!Provider P} `{!Disk P} `{!Environment worker_db} `{!Host} `{!Messages} `{!UploadTransitions}.
Context (sha256 : bytes → bytes).
Context (credentials : result unit).
Context (default_tier : string) (default_days hold_seconds progress_ms : Z).
Context (date_of : string → timestamp).
Context (high_impact : restore_estimate → bool).
Context (approved : bool).
Context (probe : eff (world worker_db P) unit).
Context (job : claimed_job).
Notation W := (world worker_db P).

Definition recover_id : Z := j_id (cj_row job).
Definition recover_context : option (Z * string) := job_claim_context job.
Definition recover_active (message : string) : eff W unit := ensure_job_active recover_context recover_id message.

(** ** Progress of a transfer: the bytes so far and the time of the last report *)
Definition min_interval : Z := Z.max 50000 ((if progress_ms =? 0 then 500 else progress_ms) * 1000).

Definition report (bytes_ : Z) (ctx : option (Z * string)) : eff W unit :=
  set_job_progress ctx recover_id bytes_ (j_claim_token (cj_row job)) ;;; eret tt.

Definition add_bytes (st : Z * Z) (amount : Z) : eff W (Z * Z) :=
  if amount =? 0 then eret st
  else
    let transferred := Z.max 0 (st.1 + amount) in
    now <~ observe clock ;;
    if min_interval <=? now - st.2 then report transferred None ;;; eret (transferred, now) else eret (transferred, st.2).

Definition on_bytes (st : Z * Z) (amount : Z) : eff W (Z * Z) :=
  ensure_job_active None recover_id "Recovery stopped" ;;; add_bytes st amount.

Definition unlink_missing_ok (p : path) : eff W unit := catch_if is_missing (unlink p) (fun _ => eret tt).

Definition transfer (o : object_ref) (temporary : path) : eff W unit :=
  pat! (amounts, ended) <~ download_file o temporary ;;
  st <~ efold on_bytes (0, 0) amounts ;;
  lift ended ;;;
  report st.1 recover_context.

Definition download_exact_version_plaintext (o : object_ref) (temporary : path) : eff W unit :=
  throw! RuntimeError "Exact S3 VersionId is required for recovery" when or_version o =b "" ;;
  recover_active "Recovery stopped" ;;;
  mkdirs (parent_of temporary) ;;;
  lift credentials ;;;
  catch (transfer o temporary) (fun e => unlink_missing_ok temporary ;;; throw e) ;;;
  recover_active "Recovery stopped" ;;;
  plain <~ catch_if is_os_error (info <~ os_stat_follow temporary ;; eret (sx_kind info =b KRegular)) (fun _ => eret false) ;;
  throw_if (negb plain) (RuntimeError "S3 download did not create the recovered file").

(** ** The handler *)
Definition load_recover_target : eff W job_target :=
  target <~ transaction (read_db (fun d => get_job_target (d_catalog d) recover_id)) ;;
  match target with
  | Some t =>
      if negb (recoverable_target t) then throw (RuntimeError "The file is not available in the cloud")
      else if bool_decide ((lc_presence <$> jt_copy t) = Some Present) then throw (RuntimeError "A local copy is already present")
      else eret t
  | None => throw (RuntimeError "The file is not available in the cloud")
  end.

Definition estimate_of (t : job_target) (class : string) : restore_estimate :=
  estimate_restore (target_size t (cj_row job)) class (chosen_tier default_tier (cj_row job)) (chosen_days default_days (cj_row job)).

(** Whether the Job waits for the approval of the Owner. *)
Definition must_hold (t : job_target) : bool :=
  let class := jt_version t ≫= av_storage_class in
  storage_class_requires_restore class && negb (bool_decide ((jt_version t ≫= av_restore_state) = Some "available"))
  && negb approved && high_impact (estimate_of t (or_default class "")).

Definition hold_for_approval (t : job_target) : eff W unit :=
  let estimate := estimate_of t (or_default (jt_version t ≫= av_storage_class) "") in
  now <~ now_iso ;;
  transaction (
    stamp <~ now_iso ;;
    let token := claim_token_for recover_context recover_id in
    let p := if truthy token then renew_where recover_id (or_default token "") stamp else fun j => j_id j =b recover_id in
    update_db (on_catalog (fun c =>
      set_jobs (update_where p (held_row (now + seconds hold_seconds) stamp (re_tier estimate) (re_days estimate)) (t_jobs c)) c))).

Definition recover_ref (t : job_target) : object_ref :=
  {| or_bucket := cj_bucket job; or_key := or_default (jt_object_key t) ""; or_version := or_default (jt_provider_version_id t) "" |}.

(** A cold version: ask for its restore unless that was done, and wait. *)
Definition await_restore (t : job_target) (head_class : option string) (state : string) (expiry : option string) : eff W unit :=
  let estimate := estimate_of t (or_default head_class "") in
  pat! (state, expiry) <~
    (if (j_status (cj_row job) <>b "restoring") && (state =b "not_requested")
     then lift credentials ;;;
          restore_object {| rr_object := recover_ref t; rr_days := chosen_days default_days (cj_row job); rr_tier := re_tier estimate |} ;;;
          eret ("restoring", None)
     else eret (state, expiry)) ;;
  recover_active "Recovery claim was lost" ;;;
  checked_at <~ now_iso ;;
  transaction (
    ensure_job_claim_owned_in_transaction recover_context job "Recovery claim was lost" ;;;
    update_db (on_catalog (update_restore_state (or_default (jt_archive_version_id t) "") (Some state) (date_of <$> expiry) checked_at head_class))) ;;;
  set_job recover_context recover_id "restoring"
    "Waiting for Glacier restore; RestoreObject cannot be cancelled after AWS accepts it" None [] None ;;;
  eret tt.

(** The observation of the recovered copy, with its lease. *)
Definition publish_recovered (t : job_target) (head_class : option string) (expiry : option string) (info : file_stat) (digest : string)
  : eff W unit :=
  transaction (
    ensure_job_claim_owned_in_transaction recover_context job "Recovery claim was lost" ;;;
    at_ <~ now_iso ;;
    file_uuid <~ observe uuid ;;
    checked_at <~ now_iso ;;
    in_db (fun d =>
      '(c, _) ← observe_local_copy (d_catalog d) (j_vault_id (cj_row job)) (j_path (cj_row job)) Regular (Some (sx_size info))
                  (Some (sx_mtime_ns info)) at_ None (Some at_) file_uuid;
      c ← set_local_fingerprint (j_vault_id (cj_row job)) (j_path (cj_row job)) digest (jt_archive_version_id t) at_ c;
      let cold := storage_class_requires_restore head_class in
      Ok (set_catalog (if truthy (jt_version t ≫= av_restore_state) || cold
                       then update_restore_state (or_default (jt_archive_version_id t) "") (if cold then Some "available" else None)
                              (date_of <$> expiry) checked_at head_class c
                       else c) d, tt))).

(** Under the lock of the Vault's scans: the rename and its observation. *)
Definition publish_file (t : job_target) (head_class expiry : option string) (temporary destination : path) (digest : string)
    (info : file_stat) : eff W unit :=
  recover_active "Recovery claim was lost" ;;;
  same <~ local_stat_unchanged temporary info ;;
  throw! RuntimeError "Recovered plaintext changed before publication" when negb same ;;
  mkdirs (parent_of destination) ;;;
  there <~ lexists destination ;;
  throw! RuntimeError "A local copy already exists at the recovery destination" when there ;;
  rename temporary destination ;;;
  published <~ lstat destination ;;
  publish_recovered t head_class expiry info digest ;;;
  remember (j_vault_id (cj_row job)) (j_path (cj_row job)) published digest.

Definition fetch_and_publish (t : job_target) (head_class expiry : option string) (temporary destination : path) : eff W file_stat :=
  download_exact_version_plaintext (recover_ref t) temporary ;;;
  recover_active "Recovery stopped" ;;;
  set_job recover_context recover_id "verifying" "Verifying recovered plaintext" None [] None ;;;
  pat! (digest, info) <~ hash_stable_regular_file sha256 temporary ;;
  throw! RuntimeError "Recovered plaintext digest does not match the Archive Version" when
    digest <>b lower (or_default (jt_version_sha256 t) "") ;;
  publish_file t head_class expiry temporary destination (lower (or_default (jt_version_sha256 t) "")) info ;;;
  eret info.

Definition bring_back (t : job_target) (head_class expiry : option string) : eff W unit :=
  view <~ observe host_view ;;
  destination <~ lift (safe_local_entry_path view (cj_source_root job) (j_path (cj_row job))) ;;
  token <~ observe uuid ;;
  let temporary := with_name destination (restore_name (name_of destination) (uuid_hex token)) in
  set_job recover_context recover_id "downloading" "Downloading" None [] None ;;;
  info <~ finally (fetch_and_publish t head_class expiry temporary destination) (unlink_missing_ok temporary) ;;
  report (if j_total_bytes (cj_row job) =? 0 then sx_size info else j_total_bytes (cj_row job)) recover_context ;;;
  set_job recover_context recover_id "completed" ("Recovered to " +:+ "/" +:+ String.concat "/" destination) None [] None ;;;
  eret tt.

Definition process_recover : eff W unit :=
  recover_active "Recovery stopped" ;;;
  validate_cloud_vault probe ;;;
  t <~ load_recover_target ;;
  if must_hold t then hold_for_approval t
  else
    lift credentials ;;;
    h <~ head_object {| hr_bucket := cj_bucket job; hr_key := or_default (jt_object_key t) ""; hr_version := jt_provider_version_id t;
                        hr_checksum_mode := false |} ;;
    let head_class := if truthy (hd_storage_class h) then hd_storage_class h else jt_version t ≫= av_storage_class in
    let (state, expiry) := restore_header_state (hd_restore h) in
    if storage_class_requires_restore head_class && (state <>b "available")
    then await_restore t head_class state expiry
    else bring_back t head_class expiry.
End recover.

(** ** What a recovered file rests on *)
Section safety.
Context {P : Type} `{!Provider P} `{!Disk P} `{!Environment worker_db} `{!Host} `{!Messages} `{!UploadTransitions}.
Context (sha256 : bytes → bytes) (credentials : result unit).
Context (default_tier : string) (default_days hold_seconds progress_ms : Z).
Context (date_of : string → timestamp) (high_impact : restore_estimate → bool) (approved : bool).
Context (probe : eff (world worker_db P) unit) (job : claimed_job).
Notation W := (world worker_db P).

(** Requests that change neither names on the disk nor objects in the bucket;
    a download only writes the hidden name it is given. *)
Definition calm (c : call) : Prop :=
  match c with
  | CRename _ _ | CLink _ _ | CUnlink _ _ | CDelete _ _ | CDeleteBatch _ _ | CCopy _ _ | CCreate _ _ | CPart _ _ | CComplete _ _ => False
  | _ => True
  end.

(** The bytes at [a] are those of the version [v]: downloaded from its exact
    identity, then read from one stable file and hashed to its digest; the file
    was not touched since, and nothing had the name [b] right before. *)
Record brought (v : archive_version) (seen : list call) (a b : path) : Prop := {
  br_free : ∃ e, last seen = Some (CLstat b (Raise e)) ∧ is_os_error e = true;
  br_bytes : ∃ o amounts digest info info' before bytes_ after,
    seen = before ++ bytes_ ++ after
    ∧ o = {| or_bucket := cj_bucket job; or_key := or_default (av_object_key v) ""; or_version := or_default (av_provider_version_id v) "" |}
    ∧ CDownload (o, a) (Ok (amounts, Ok tt)) ∈ before
    ∧ hashed sha256 a digest info bytes_ ∧ digest = lower (or_default (av_plaintext_sha256 v) "")
    ∧ CLstat a (Ok info') ∈ after ∧ same_content_stat info' info = true ∧ sx_ctime_ns info' = sx_ctime_ns info;
}.

Definition is_restore_name (p : path) : Prop := ∃ q token, p = with_name q (restore_name (name_of q) (uuid_hex token)).

(** What the handler may do to names, after the calls [base ++ seen]. *)
Definition may_publish (v : archive_version) (base history : list call) (c : call) (d : worker_db) : Prop :=
  match c with
  | CRename (a, b) _ => is_restore_name a ∧ ∀ seen, history = base ++ seen → brought v seen a b
  | CUnlink p _ => is_restore_name p
  | _ => calm c
  end.

Lemma calm_may v base {A} (m : eff W A) : keeps (grows calm) m → keeps (abides (may_publish v base)) m.
Proof. apply abides_grows. intros h c d Hc. by destruct c. Qed.

(** *** Steps that are calm *)
Lemma recover_active_calm message : keeps (grows calm) (recover_active (P := P) job message).
Proof. unfold recover_active. emits_all. Qed.
Lemma report_calm n ctx : keeps (grows calm) (report (P := P) job n ctx).
Proof. unfold report. emits_all. Qed.
Lemma hash_calm p : keeps (grows calm) (hash_stable_regular_file (P := P) (D := worker_db) sha256 p).
Proof. unfold hash_stable_regular_file, lstat, os_open, fstat, read_all, append_chunk. emits_all. Qed.
Lemma unchanged_calm p i : keeps (grows calm) (local_stat_unchanged (P := P) (D := worker_db) p i).
Proof. unfold local_stat_unchanged, lstat. emits_all. Qed.
Lemma lexists_calm p : keeps (grows calm) (lexists (P := P) (D := worker_db) p).
Proof. unfold lexists, lstat. emits_all. Qed.
Lemma transfer_calm o p : keeps (grows calm) (transfer (P := P) progress_ms job o p).
Proof. unfold transfer, on_bytes, add_bytes, report, download_file. emits_all. Qed.
Lemma publish_recovered_calm t c e i d : keeps (grows calm) (publish_recovered (P := P) date_of job t c e i d).
Proof. unfold publish_recovered, now_iso. emits_all. Qed.
#[local] Hint Resolve recover_active_calm report_calm hash_calm unchanged_calm lexists_calm transfer_calm publish_recovered_calm : eff.

Lemma mkdirs_calm p : keeps (grows calm) (mkdirs (P := P) (D := worker_db) p).
Proof. unfold mkdirs. emits_all. Qed.
#[local] Hint Resolve mkdirs_calm : eff.

Lemma await_calm t c s e : keeps (grows calm) (await_restore (P := P) credentials default_tier default_days date_of job t c s e).
Proof. unfold await_restore, now_iso, restore_object. emits_all. Qed.
Lemma hold_calm t : keeps (grows calm) (hold_for_approval (P := P) default_tier default_days hold_seconds job t).
Proof. unfold hold_for_approval, now_iso. emits_all. Qed.

(** *** What the steps establish *)
Lemma lexists_false p (w : W) w' :
  lexists p w = (w', Ok false) → ∃ e, w_calls w' = w_calls w ++ [CLstat p (Raise e)] ∧ is_os_error e = true.
Proof.
  unfold lexists, catch_if, catch. destruct (ebind _ _ w) as [w1 [b|e]] eqn:E.
  - intros [= -> ->]. by apply ebind_ok in E as (w2 & i & _ & [=]).
  - destruct (catchable e); [|done]. destruct (is_os_error e) eqn:Ho; [|done]. intros [= <-].
    apply ebind_cases in E as [(e' & E & [= <-])|(w2 & i & _ & [=])]. apply request_run in E as [-> _]. eauto.
Qed.

Lemma unchanged_true p info (w : W) w' :
  local_stat_unchanged p info w = (w', Ok true) →
  ∃ info', w_calls w' = w_calls w ++ [CLstat p (Ok info')] ∧ same_content_stat info' info = true ∧ sx_ctime_ns info' = sx_ctime_ns info.
Proof.
  unfold local_stat_unchanged, catch_if, catch. destruct (ebind _ _ w) as [w1 [b|e]] eqn:E.
  - intros [= -> ->]. apply ebind_ok in E as (w2 & i & E & E2). injection E2 as <- Hs. bsimpl. apply request_ok in E as [-> _]. eauto.
  - destruct (catchable e); [|done]. by destruct (is_os_error e).
Qed.

Lemma transfer_ok o p (w : W) w' :
  transfer progress_ms job o p w = (w', Ok tt) →
  ∃ new amounts, w_calls w' = w_calls w ++ new ∧ CDownload (o, p) (Ok (amounts, Ok tt)) ∈ new.
Proof.
  unfold transfer. intros E. apply ebind_ok in E as (w1 & [amounts ended] & E1 & E). apply request_ok in E1 as [C1 _].
  apply ebind_ok in E as (w2 & st & E2 & E). apply ebind_ok in E as (w3 & [] & [-> ->]%lift_ok & E).
  eapply (emits_calls (fun _ => True)) in E2 as (n2 & C2 & _);
    [|unfold emits, on_bytes, add_bytes, report; emits_all].
  eapply (emits_calls (fun _ => True)) in E as (n3 & C3 & _); [|unfold emits, report; emits_all].
  eexists _, amounts. split; [rewrite C3, C2, C1, <- !app_assoc; done | set_solver].
Qed.

Lemma unlink_temporary_may v base p : is_restore_name p → keeps (abides (may_publish v base)) (unlink_missing_ok (P := P) p).
Proof.
  intros Hp w. unfold unlink_missing_ok, catch_if, catch. destruct (unlink p w) as [w1 r] eqn:E.
  pose proof (request_tables _ _ _ _ _ _ E) as Et. apply request_run in E as [Ec _].
  assert (Ha : abides (may_publish v base) w w1).
  { exists [CUnlink p r], [w_db w]. do 3 (split; [done|]). by intros [|i] c d [= <-] _. }
  destruct r as [u|e]; [done|]. destruct (catchable e); [|done]. by destruct (is_missing e).
Qed.

Lemma download_may v base o p :
  is_restore_name p → keeps (abides (may_publish v base)) (download_exact_version_plaintext (P := P) credentials progress_ms job o p).
Proof.
  intros Hp. unfold download_exact_version_plaintext, os_stat_follow.
  repeat match goal with |- keeps _ (ebind _ _) => apply keeps_bind; [apply _ | | intros ?] end;
    try (apply calm_may; solve [emits_all]).
  apply keeps_catch; [apply _ | by apply calm_may, transfer_calm|]. intros e.
  apply keeps_bind; [apply _ | by apply unlink_temporary_may | intros _; apply keeps_throw; apply _].
Qed.

Lemma download_ok o p (w : W) w' :
  download_exact_version_plaintext credentials progress_ms job o p w = (w', Ok tt) →
  ∃ new amounts, w_calls w' = w_calls w ++ new ∧ CDownload (o, p) (Ok (amounts, Ok tt)) ∈ new.
Proof.
  unfold download_exact_version_plaintext. intros E. run_ok E.
  unfold catch in Hm2. destruct (transfer _ _ _ _ _) as [wt [[]|e]] eqn:Et.
  2:{ destruct (catchable e); [|done]. by apply ebind_ok in Hm2 as (? & ? & _ & [=]). }
  destruct a2. injection Hm2 as ->. apply transfer_ok in Et as (nt & amounts & Ct & Hd).
  eapply (emits_calls (fun _ => True)) in Hm as (n1 & C1 & _); [|unfold emits, recover_active; emits_all].
  eapply (emits_calls (fun _ => True)) in Hm0 as (n2 & C2 & _); [|unfold emits, mkdirs; emits_all].
  apply lift_ok in Hm1 as [_ ->].
  eapply (emits_calls (fun _ => True)) in Hm3 as (n3 & C3 & _); [|unfold emits, recover_active; emits_all].
  eapply (emits_calls (fun _ => True)) in Hm4 as (n4 & C4 & _); [|unfold emits, os_stat_follow; emits_all].
  apply throw_if_ok in E as [_ ->].
  exists (n1 ++ n2 ++ nt ++ n3 ++ n4), amounts. split; [by rewrite C4, C3, Ct, C2, C1, <- !app_assoc | set_solver].
Qed.

(** The rename, after the download and the hash. *)
Lemma publish_file_may v base seen o amounts t head_class expiry a b digest info before bytes_ (w : W) w' r :
  w_calls w = base ++ seen → seen = before ++ bytes_ → is_restore_name a →
  o = {| or_bucket := cj_bucket job; or_key := or_default (av_object_key v) ""; or_version := or_default (av_provider_version_id v) "" |} →
  CDownload (o, a) (Ok (amounts, Ok tt)) ∈ before → hashed sha256 a digest info bytes_ →
  digest = lower (or_default (av_plaintext_sha256 v) "") →
  publish_file date_of job t head_class expiry a b digest info w = (w', r) → abides (may_publish v base) w w'.
Proof.
  intros Ew Hs Ha Ho Hd Hh Hg. unfold publish_file.
  apply abides_bind; [apply calm_may; emits_all|]. intros w1 [] E1.
  eapply emits_calls in E1 as (n1 & C1 & _); [|apply recover_active_calm].
  apply abides_bind; [apply calm_may; emits_all|]. intros w2 same E2.
  apply abides_bind; [apply calm_may; emits_all|]. intros w3 [] [Hb ->]%throw_if_ok. apply negb_false_iff in Hb as ->.
  apply unchanged_true in E2 as (info' & C2 & Hsame & Hct).
  apply abides_bind; [apply calm_may; emits_all|]. intros w4 [] E4. eapply emits_calls in E4 as (n4 & C4 & _); [|apply mkdirs_calm].
  apply abides_bind; [apply calm_may; emits_all|]. intros w5 there E5.
  apply abides_bind; [apply calm_may; emits_all|]. intros w6 [] [-> ->]%throw_if_ok.
  apply lexists_false in E5 as (e & C5 & He). intros E. apply ebind_cases in E as E'.
  assert (Hr : ∀ w7 x, rename a b w5 = (w7, x) → abides (may_publish v base) w5 w7).
  { intros w7 x E7. pose proof (request_tables _ _ _ _ _ _ E7) as Et. apply request_run in E7 as [Ec _].
    exists [CRename (a, b) x], [w_db w5]. do 3 (split; [done|]). intros [|i] c d [= <-] _. split; [done|].
    intros seen' Hs'. cbn in Hs'. rewrite app_nil_r, C5, C4, C2, C1, Ew, <- !app_assoc in Hs'. apply app_inv_head in Hs' as <-.
    split; [exists e; split; [by rewrite !app_assoc, last_snoc | done]|].
    exists o, amounts, digest, info, info', before, bytes_, (n1 ++ [CLstat a (Ok info')] ++ n4 ++ [CLstat b (Raise e)]).
    rewrite Hs, <- !app_assoc. repeat (split; [done|]). split; [set_solver | done]. }
  destruct E' as [(e' & E7 & _)|(w7 & [] & E7 & E8)]; [by eapply Hr|]. etrans; [by eapply Hr|].
  eapply abides_step; [|exact E8]. apply calm_may. unfold remember, set_echoes, lstat. emits_all.
Qed.

Lemma target_version t : recoverable_target t = true → ∃ v, jt_version t = Some v ∧ av_integrity v = Verified ∧ av_availability v = Available.
Proof. unfold recoverable_target. intros Ht. bsimpl. destruct (jt_version t) as [v|]; [|done]. naive_solver. Qed.

Lemma fetch_may v base seen t head_class expiry a b (w : W) w' r :
  w_calls w = base ++ seen → jt_version t = Some v → is_restore_name a →
  fetch_and_publish sha256 credentials progress_ms date_of job t head_class expiry a b w = (w', r) → abides (may_publish v base) w w'.
Proof.
  intros Ew Hv Ha. unfold fetch_and_publish.
  apply abides_bind; [by apply download_may|]. intros w1 [] (n1 & amounts & C1 & Hd)%download_ok.
  apply abides_bind; [apply calm_may; emits_all|]. intros w2 [] E2.
  eapply emits_calls in E2 as (n2 & C2 & _); [|apply recover_active_calm].
  apply abides_bind; [apply calm_may; emits_all|]. intros w3 ? E3.
  eapply emits_calls in E3 as (n3 & C3 & _); [|apply (set_job_silent _ calm)].
  apply abides_bind; [apply calm_may; emits_all|]. intros w4 [digest info] (_ & bytes_ & C4 & Hh)%hash_stable_ok.
  apply abides_bind; [apply calm_may; emits_all|]. intros w5 [] [Hg ->]%throw_if_ok.
  apply negb_false_iff, bool_decide_eq_true in Hg as ->.
  assert (Hpub : ∀ w6 x, publish_file date_of job t head_class expiry a b (lower (or_default (jt_version_sha256 t) "")) info w4 = (w6, x) →
    abides (may_publish v base) w4 w6).
  { intros w6 x. unfold recover_ref, jt_version_sha256, jt_object_key, jt_provider_version_id in *. rewrite Hv in *.
    eapply (publish_file_may v base (seen ++ n1 ++ n2 ++ n3 ++ bytes_) _ amounts _ _ _ _ _ _ _ (seen ++ n1 ++ n2 ++ n3) bytes_); try done.
    - by rewrite C4, C3, C2, C1, Ew, <- !app_assoc.
    - by rewrite <- !app_assoc.
    - set_solver. }
  intros [(e & E & _)|(w6 & [] & E & [= <- <-])]%ebind_cases; eauto.
Qed.

Lemma bring_back_may v base seen t head_class expiry (w : W) w' r :
  w_calls w = base ++ seen → jt_version t = Some v →
  bring_back sha256 credentials progress_ms date_of job t head_class expiry w = (w', r) → abides (may_publish v base) w w'.
Proof.
  intros Ew Hv. unfold bring_back.
  apply abides_bind; [apply calm_may; emits_all|]. intros w1 view [= <- <-].
  apply abides_bind; [apply calm_may; emits_all|]. intros w2 destination [_ ->]%lift_ok.
  apply abides_bind; [apply calm_may; emits_all|]. intros w3 token [= <- <-].
  set (a := with_name _ _). assert (Ha : is_restore_name a) by (eexists _, _; done).
  apply abides_bind; [apply calm_may; emits_all|]. intros w4 ? E4.
  eapply emits_calls in E4 as (n4 & C4 & _); [|apply (set_job_silent _ calm)].
  intros E. apply ebind_cases in E as E'.
  assert (Hf : ∀ w5 x, finally (fetch_and_publish sha256 credentials progress_ms date_of job t head_class expiry a destination)
    (unlink_missing_ok a) w4 = (w5, x) → abides (may_publish v base) w4 w5).
  { intros w5 x. unfold finally. destruct (fetch_and_publish _ _ _ _ _ _ _ _ _ _ w4) as [w6 y] eqn:E6. intros E7.
    etrans; [eapply (fetch_may v base (seen ++ n4)); [by rewrite C4; cbn; rewrite Ew, <- app_assoc | done | done | exact E6]|].
    revert E7. apply abides_bind; [by apply unlink_temporary_may|]. by intros w7 [] _ [= <- <-]. }
  destruct E' as [(e & E5 & _)|(w5 & info & E5 & E6)]; [by eapply Hf|]. etrans; [by eapply Hf|].
  eapply abides_step; [|exact E6]. apply calm_may. emits_all.
Qed.

(** *** A download that is not published is an exception *)
Definition only_to (p : path) (c : call) : Prop := match c with CDownload (_, a) _ => a = p | _ => True end.
Definition no_download (c : call) : Prop := match c with CDownload _ _ => False | _ => True end.

Notation any := (fun _ : call => True).

Lemma publish_file_renames t head_class expiry a b digest info (w : W) w' :
  publish_file date_of job t head_class expiry a b digest info w = (w', Ok tt) →
  ∃ new, w_calls w' = w_calls w ++ new ∧ CRename (a, b) (Ok tt) ∈ new.
Proof.
  unfold publish_file. intros E. run_step E. run_step E. run_step E. run_step E. run_step E. run_step E. run_step E. destruct a4.
  eapply (emits_calls any) in Hm as (n1 & C1 & _); [|unfold emits, recover_active; emits_all].
  eapply (emits_calls any) in Hm0 as (n2 & C2 & _); [|unfold emits, local_stat_unchanged, lstat; emits_all].
  eapply (emits_calls any) in Hm1 as (n3 & C3 & _); [|unfold emits, mkdirs; emits_all].
  eapply (emits_calls any) in Hm2 as (n4 & C4 & _); [|unfold emits, lexists, lstat; emits_all].
  apply request_ok in Hm3 as [C5 _].
  eapply (emits_calls any) in E as (n6 & C6 & _); [|unfold emits, publish_recovered, remember, set_echoes, now_iso, lstat; emits_all].
  exists (n1 ++ n2 ++ n3 ++ n4 ++ [CRename (a, b) (Ok tt)] ++ n6). split; [|set_solver].
  by rewrite C6, C5, C4, C3, C2, C1, <- !app_assoc.
Qed.

Lemma fetch_renames t head_class expiry a b (w : W) w' info :
  fetch_and_publish sha256 credentials progress_ms date_of job t head_class expiry a b w = (w', Ok info) →
  ∃ new, w_calls w' = w_calls w ++ new ∧ CRename (a, b) (Ok tt) ∈ new.
Proof.
  unfold fetch_and_publish. intros E. run_step E. run_step E. run_step E. apply ebind_ok in E as (w3 & [digest i] & Hh & E).
  run_step E. apply ebind_ok in E as (w4 & [] & (n4 & C4 & Hr)%publish_file_renames & [= <- <-]).
  destruct a0. apply download_ok in Hm as (n1 & _ & C1 & _).
  eapply (emits_calls any) in Hm0 as (n2 & C2 & _); [|unfold emits, recover_active; emits_all].
  eapply (emits_calls any) in Hm1 as (n3 & C3 & _); [|unfold emits; emits_all].
  apply hash_stable_ok in Hh as (_ & n5 & C5 & _).
  exists (n1 ++ n2 ++ n3 ++ n5 ++ n4). split; [by rewrite C4, C5, C3, C2, C1, <- !app_assoc | set_solver].
Qed.

Lemma fetch_only_to t head_class expiry a b :
  keeps (grows (only_to a)) (fetch_and_publish (P := P) sha256 credentials progress_ms date_of job t head_class expiry a b).
Proof.
  assert (Hd : ∀ o, keeps (grows (only_to a)) (download_file (P := P) (D := worker_db) o a)) by (intros o; by apply emits_request).
  unfold fetch_and_publish, download_exact_version_plaintext, transfer, on_bytes, add_bytes, report, recover_active, publish_file,
    publish_recovered, hash_stable_regular_file, local_stat_unchanged, lexists, unlink_missing_ok, append_chunk, remember, set_echoes, now_iso,
    mkdirs, lstat, os_open, fstat, read_all, rename, unlink, os_stat_follow.
  emits_all.
Qed.

(** A run of [bring_back] that returned: all downloads went to one name, which was published. *)
Lemma bring_back_published t head_class expiry (w : W) w' :
  bring_back sha256 credentials progress_ms date_of job t head_class expiry w = (w', Ok tt) →
  ∃ new a b, w_calls w' = w_calls w ++ new ∧ Forall (only_to a) new ∧ CRename (a, b) (Ok tt) ∈ new.
Proof.
  unfold bring_back. intros E. apply ebind_ok in E as (w1 & view & [= <- <-] & E). apply ebind_ok in E as (w2 & dest & [_ ->]%lift_ok & E).
  apply ebind_ok in E as (w3 & token & [= <- <-] & E). set (a := with_name _ _) in E.
  apply ebind_ok in E as (w4 & ? & E4 & E). eapply (emits_calls (only_to a)) in E4 as (n4 & C4 & F4); [|unfold emits; emits_all].
  apply ebind_ok in E as (w5 & info & E5 & E).
  eapply (emits_calls (only_to a)) in E as (n6 & C6 & F6); [|unfold emits, report; emits_all].
  unfold finally in E5. destruct (fetch_and_publish _ _ _ _ _ _ _ _ _ _ w4) as [w7 y] eqn:E7.
  apply ebind_ok in E5 as (w8 & [] & E8 & [-> ->]%lift_ok).
  eapply (emits_calls (only_to a)) in E8 as (n8 & C8 & F8); [|unfold emits, unlink_missing_ok, unlink; emits_all].
  pose proof (emits_calls _ _ _ _ _ (fetch_only_to t head_class expiry a dest) E7) as (n7 & C7 & F7).
  apply fetch_renames in E7 as (n7' & C7' & Hr). rewrite C7 in C7'. apply app_inv_head in C7' as <-.
  exists (n4 ++ n7 ++ n8 ++ n6), a, dest. split; [by rewrite C6, C8, C7, C4, <- !app_assoc|].
  rewrite !Forall_app. split; [done | set_solver].
Qed.

Lemma load_target_recoverable (w : W) w' t :
  load_recover_target job w = (w', Ok t) →
  w_calls w' = w_calls w ∧ ∃ v, jt_version t = Some v ∧ v ∈ t_versions (d_catalog (w_db w')) ∧ av_integrity v = Verified ∧ av_availability v = Available.
Proof.
  unfold load_recover_target. intros E. apply ebind_ok in E as (w1 & o & E1 & E). cbn in E1. injection E1 as <- <-.
  destruct (get_job_target _ _) as [t'|] eqn:Et; [|done]. destruct (negb _) eqn:Er; [done|]. destruct (bool_decide _); [done|].
  injection E as <- <-. split; [done|]. apply negb_false_iff, target_version in Er as (v & Hv & Hi & Ha). exists v.
  repeat (split; [done|]). split; [|done]. unfold get_job_target in Et. cbn. destruct (fetchone _ (t_jobs _)) as [j|]; [|done].
  injection Et as <-. cbn in Hv. by apply fetchone_some in Hv as [? _].
Qed.

(** What a run of the handler shows of the calls [new] with their [tables]. *)
Definition recovered (new : list call) (tables : list worker_db) : Prop :=
  ∃ v k q h d, new !! k = Some (CHead q (Ok h)) ∧ tables !! k = Some d ∧ Forall calm (take (S k) new)
    ∧ v ∈ t_versions (d_catalog d) ∧ av_integrity v = Verified ∧ av_availability v = Available
    ∧ ∀ i c, new !! i = Some c →
        match c with
        | CRename (a, b) _ => is_restore_name a ∧ brought v (take i new) a b
        | CUnlink p _ => is_restore_name p
        | _ => calm c
        end.

Notation run := (process_recover sha256 credentials default_tier default_days hold_seconds progress_ms date_of high_impact approved probe job).

(** The first steps: a recoverable target of the tables. *)
Definition first_steps : eff W job_target :=
  recover_active job "Recovery stopped" ;;; validate_cloud_vault probe ;;; load_recover_target job.

(** The rest: hold, wait or bring back. *)
Definition after_head (t : job_target) (h : head_answer) : eff W unit :=
  let head_class := if truthy (hd_storage_class h) then hd_storage_class h else jt_version t ≫= av_storage_class in
  let (state, expiry) := restore_header_state (hd_restore h) in
  if storage_class_requires_restore head_class && (state <>b "available")
  then await_restore credentials default_tier default_days date_of job t head_class state expiry
  else bring_back sha256 credentials progress_ms date_of job t head_class expiry.
Definition head_target (t : job_target) : eff W head_answer :=
  lift credentials ;;;
  head_object {| hr_bucket := cj_bucket job; hr_key := or_default (jt_object_key t) ""; hr_version := jt_provider_version_id t;
                 hr_checksum_mode := false |}.
Definition second_steps (t : job_target) : eff W unit :=
  if must_hold default_tier default_days high_impact approved job t then hold_for_approval default_tier default_days hold_seconds job t
  else h <~ head_target t ;; after_head t h.

Lemma run_split w : run w = ebind first_steps second_steps w.
Proof.
  unfold process_recover, first_steps, second_steps, head_target, ebind.
  repeat match goal with |- match ?x with _ => _ end = _ => destruct x as [? [?|?]]; [|done] end.
  destruct (must_hold _ _ _ _ _ _); [done|].
  by repeat match goal with |- match ?x with _ => _ end = _ => destruct x as [? [?|?]]; [|done] end.
Qed.

Lemma first_emits p : keeps (grows p) probe → keeps (grows p) first_steps.
Proof.
  intros Hp. pose proof (validate_emits probe p Hp). unfold first_steps, recover_active, load_recover_target. emits_all.
Qed.

Lemma first_steps_ok (w : W) w' t :
  first_steps w = (w', Ok t) →
  ∃ v, jt_version t = Some v ∧ v ∈ t_versions (d_catalog (w_db w')) ∧ av_integrity v = Verified ∧ av_availability v = Available.
Proof. unfold first_steps. intros E. run_ok E. by apply load_target_recoverable in E as [_ ?]. Qed.

Lemma head_target_ok t (w : W) w' h :
  head_target t w = (w', Ok h) →
  ∃ q, w_calls w' = w_calls w ++ [CHead q (Ok h)] ∧ w_tables w' = w_tables w ++ [w_db w].
Proof.
  unfold head_target. intros E. apply ebind_ok in E as (w1 & [] & [_ ->]%lift_ok & E).
  pose proof (request_tables _ _ _ _ _ _ E) as Et. apply request_ok in E as [Ec _]. eauto.
Qed.

Lemma head_target_calm t : keeps (grows calm) (head_target t).
Proof. unfold head_target, head_object. emits_all. Qed.

(** The calls of the part after the HEAD, seen from the start of the run. *)
Lemma after_head_may v t h (w0 w : W) w' r :
  (∃ seen, w_calls w = w_calls w0 ++ seen) → jt_version t = Some v →
  after_head t h w = (w', r) → abides (may_publish v (w_calls w0)) w w'.
Proof.
  intros [seen Ew] Hv. unfold after_head. destruct (restore_header_state _) as [state expiry]. destruct (_ && _).
  - intros E. eapply abides_step; [apply calm_may, await_calm | exact E].
  - intros E. by eapply bring_back_may.
Qed.

Lemma run_recovers (w : W) w' r :
  keeps (grows calm) probe → run w = (w', r) →
  ∃ new tables, w_calls w' = w_calls w ++ new ∧ w_tables w' = w_tables w ++ tables ∧ length tables = length new
    ∧ (Forall calm new ∨ recovered new tables).
Proof.
  intros Hp E. rewrite run_split in E.
  assert (Hcalm : grows calm w w' → ∃ new tables, w_calls w' = w_calls w ++ new ∧ w_tables w' = w_tables w ++ tables
    ∧ length tables = length new ∧ (Forall calm new ∨ recovered new tables)).
  { intros (n & tb & ? & ? & ? & ?). exists n, tb. auto. }
  pose proof (fun r1 w1 E1 => grows_tables _ _ w w1 r1 (first_emits _ Hp) E1) as Hfirst.
  apply ebind_cases in E as [(e & E & _)|(w1 & t & E1 & E)]; [by apply Hcalm, (Hfirst _ _ E)|].
  destruct (first_steps_ok _ _ _ E1) as (v & Hv & Hin & Hi & Ha). apply Hfirst in E1. clear Hfirst. unfold second_steps in E.
  destruct (must_hold _ _ _ _ _ _).
  { apply Hcalm. etrans; [exact E1|]. pose proof (hold_calm t w1) as Hg. by rewrite E in Hg. }
  apply ebind_cases in E as [(e & E & _)|(w2 & h & E2 & E)].
  { apply Hcalm. etrans; [exact E1|]. pose proof (head_target_calm t w1) as Hg. by rewrite E in Hg. }
  apply head_target_ok in E2 as (q & C2 & T2). destruct E1 as (n1 & t1 & C1 & T1 & L1 & F1). rewrite C1, <- app_assoc in C2.
  rewrite T1, <- app_assoc in T2.
  apply (after_head_may v t h w) in E as (n3 & t3 & C3 & T3 & L3 & H3); [|eauto|done].
  set (n2 := n1 ++ [CHead q (Ok h)]) in *. set (t2 := t1 ++ [w_db w1]) in *.
  assert (length t2 = length n2) as L2 by (subst t2 n2; rewrite !length_app; cbn; lia).
  assert (Forall calm n2) as F2 by (subst n2; apply Forall_app; split; [done | by repeat constructor]).
  exists (n2 ++ n3), (t2 ++ t3). split; [by rewrite C3, C2, app_assoc|]. split; [by rewrite T3, T2, app_assoc|].
  split; [rewrite !length_app; lia|]. right. exists v, (length n1), q, h, (w_db w1).
  assert (length n2 = S (length n1)) as Hl2 by (subst n2; rewrite length_app; cbn; lia).
  split; [by rewrite lookup_app_l by lia; apply list_lookup_middle|].
  split; [rewrite lookup_app_l by lia; by apply list_lookup_middle|].
  split; [rewrite take_app_le by lia; by rewrite take_ge by lia|]. do 3 (split; [done|]).
  intros i c Hc. destruct (decide (i < length n2)%nat) as [Hlt|Hge].
  - rewrite lookup_app_l in Hc by done. assert (Hcc : calm c) by (by eapply Forall_lookup in F2). by destruct c.
  - rewrite lookup_app_r in Hc by lia. destruct (lookup_lt_is_Some_2 t3 (i - length n2)) as [d Hd].
    { rewrite L3. by eapply lookup_lt_Some. }
    specialize (H3 _ _ _ Hc Hd). rewrite C2, <- app_assoc in H3. rewrite take_app_ge by lia.
    destruct c; try exact H3. destruct q0 as [a b]. destruct H3 as [? H3]. split; [done|]. by apply H3.
Qed.

Lemma run_publishes (w : W) w' new :
  keeps (grows no_download) probe → run w = (w', Ok tt) → w_calls w' = w_calls w ++ new →
  ∀ o a x, CDownload (o, a) x ∈ new → ∃ b, CRename (a, b) (Ok tt) ∈ new.
Proof.
  intros Hp E Ec o a x Hd. rewrite run_split in E. apply ebind_ok in E as (w1 & t & E1 & E).
  eapply emits_calls in E1 as (n1 & C1 & F1); [|by apply first_emits].
  assert (Hno : ∀ m : eff W unit, keeps (grows no_download) m → m w1 = (w', Ok tt) → False).
  { intros m Hm (n2 & C2 & F2)%(emits_calls _ _ _ _ _ Hm). rewrite Ec, C1, <- app_assoc in C2. apply app_inv_head in C2 as ->.
    apply elem_of_app in Hd as [Hd|Hd]; [rewrite Forall_forall in F1; by apply F1 in Hd | rewrite Forall_forall in F2; by apply F2 in Hd]. }
  unfold second_steps in E. destruct (must_hold _ _ _ _ _ _).
  { destruct (Hno (hold_for_approval default_tier default_days hold_seconds job t)); [unfold hold_for_approval, now_iso; emits_all | done]. }
  apply ebind_ok in E as (w2 & h & E2 & E). apply head_target_ok in E2 as Hh. destruct Hh as (q & C2 & _). unfold after_head in E.
  destruct (restore_header_state _) as [state expiry]. destruct (_ && _) eqn:Ec'.
  - exfalso. eapply (Hno (ebind (head_target t) (fun _ => await_restore credentials default_tier default_days date_of job t
      (if truthy (hd_storage_class h) then hd_storage_class h else jt_version t ≫= av_storage_class) state expiry))).
    + unfold head_target, head_object, await_restore, recover_active, restore_object, now_iso. emits_all.
    + apply ebind_ok. eauto.
  - apply bring_back_published in E as (n3 & p & b & C3 & F3 & Hr).
    rewrite Ec, C2, C1, <- !app_assoc in C3. apply app_inv_head in C3 as ->. exists b.
    rewrite Forall_forall in F1, F3. rewrite !elem_of_app in Hd. destruct Hd as [Hd|[Hd|Hd]].
    + by apply F1 in Hd.
    + by apply list_elem_of_singleton in Hd.
    + apply F3 in Hd as ->. set_solver.
Qed.

End safety.

(** ** A concrete recovery *)

(** A disk that does not have [b.txt] until a file is renamed. *)
Definition w_empty_disk : Disk (list bytes) := {|
  k_lstat q p := (p, if (name_of q =b "b.txt") && bool_decide (p = []) then Raise (OSError "ENOENT") else Ok w_stat);
  k_stat q p := (p, Ok w_stat);
  k_open q p := (p, Ok 3);
  k_fstat fd p := (p, Ok w_stat);
  k_read fd p := (p, Ok [Ok [Byte.x01]]);
  k_read_byte fd p := (p, Ok tt);
  k_read_some q p := (p, Ok []);
  k_read_path q p := (p, Ok []);
  k_rename q p := ([[Byte.x01]], Ok tt);
  k_link q p := (p, Ok tt);
  k_unlink q p := (p, Raise (OSError "ENOENT"));
  k_mkdirs q p := (p, Ok tt);
  k_iterdir q p := (p, Ok []);
  k_download q p := (p, Ok ([4; 6], Ok tt));
|}.
Definition w_sha256 (_ : bytes) : bytes := replicate 32 Byte.xab.
Definition w_archived : archive_version :=
  {| av_id := "v1"; av_vault_file_id := "f"; av_vault_id := 1; av_version_number := 1;
     av_object_key := Some "vaults/photos/a/b.txt"; av_provider_version_id := Some "p1";
     av_size := Some 10; av_storage_class := None; av_plaintext_sha256 := Some (hexdigest (w_sha256 []));
     av_origin := Upload; av_integrity := Verified; av_verified_at := Some 0; av_availability := Available;
     av_availability_checked_at := None; av_restore_state := None; av_placement := new_placement 0; av_evidence := no_evidence |}.
Definition w_recover_job : claimed_job :=
  {| cj_row := w_leased_job "recover" "queued"; cj_bucket := "bucket"; cj_source_root := "/data/vault"; cj_s3_prefix := "vaults/photos" |}.
Definition w_cloud_only : catalog :=
  set_jobs [cj_row w_recover_job] (set_copies [] (set_versions [w_archived] CloudDeletion.w_catalog)).
Definition w_recovery : world worker_db (list bytes) * result unit :=
  process_recover (Provider0 := w_store) (Disk0 := w_empty_disk) (Environment0 := w_environment) (H := w_host) (H0 := w_messages)
    (H1 := w_transitions) w_sha256 (Ok tt) "Bulk" 3 600 500 (fun _ => 0) (fun _ => false) false (eret tt) w_recover_job (w_server w_cloud_only).

