(* ===== verification/WorkerUpload.v ===== *)
(** * WorkerUpload: the upload of one file

    Models [process_upload] of [src/app/storage.py] and the functions it is made of:
    the units of work on the catalog, the block of a file that cannot be reconciled,
    the publication of a receipt, the resumption of a send, the transfer, the read-back
    and the completion with its clean-up.

    The identities of the read client and of the write client are [provider] and
    [write_provider]; [credentials] is whether a client can be made.  What the throttled
    progress reporter of a transfer tells, and when, is read from [progress_due] and
    [progress_total].  [remedy] is the text of a reason.  Metrics and the retries of a
    database unit are left out. *)
From S2P Require Import Prelude Sql PyString Json JsonText VaultPaths Schema JobClaims Lifecycle CloudDeletion OperationPolicies Catalog Automation CatalogVersions Notifications UploadTables Effects S3Client S3Copy WorkerJobs LocalFiles UploadSnapshot CloudPreflight S3Upload UploadReconcile VaultMoves UploadProvenance SnapshotCleanup UploadDiscovery UploadRemediation WorkerRelease.
Open Scope Z_scope.

Definition WAIT_REASONS : list string := ["vault_suspended"].
Definition TERMINAL_JOB_REASONS : list string := ["owner_cancelled"; "already_resolved"].

(** ** The statements on the tables *)
Definition set_blocked_reason (reason : string) (i : upload_intent) : upload_intent :=
  {| ui_id := ui_id i; ui_token := ui_token i; ui_vault_id := ui_vault_id i; ui_vault_file_id := ui_vault_file_id i;
     ui_original_job_id := ui_original_job_id i; ui_target := ui_target i; ui_snapshot := ui_snapshot i; ui_requested := ui_requested i;
     ui_inventory := ui_inventory i; ui_send_started := ui_send_started i; ui_archive_version_id := ui_archive_version_id i;
     ui_settled := ui_settled i; ui_blocked_reason := Some reason; ui_created_at := ui_created_at i |}.
Definition set_intent_version (v : string) (i : upload_intent) : upload_intent :=
  {| ui_id := ui_id i; ui_token := ui_token i; ui_vault_id := ui_vault_id i; ui_vault_file_id := ui_vault_file_id i;
     ui_original_job_id := ui_original_job_id i; ui_target := ui_target i; ui_snapshot := ui_snapshot i; ui_requested := ui_requested i;
     ui_inventory := ui_inventory i; ui_send_started := ui_send_started i; ui_archive_version_id := Some v;
     ui_settled := ui_settled i; ui_blocked_reason := ui_blocked_reason i; ui_created_at := ui_created_at i |}.

(** [INSERT INTO snapshot_reconciliation_blocks ... ON CONFLICT DO UPDATE]. *)
Definition upsert_block (file reason : string) (at_ : timestamp) (t : upload_tables) : upload_tables :=
  let row := {| rb_vault_file_id := file; rb_reason := reason; rb_updated_at := at_ |} in
  if exists_row (fun b => rb_vault_file_id b =b file) (ut_blocks t)
  then set_blocks (update_where (fun b => rb_vault_file_id b =b file) (fun _ => row) (ut_blocks t)) t
  else set_blocks (ut_blocks t ++ [row]) t.

(** The columns of [local_copies] a verification compares. *)
Definition copy_generation (file : string) (d : worker_db) :=
  (fun c => (lc_size c, lc_mtime_ns c, lc_plaintext_sha256 c, lc_matched_archive_version_id c, lc_observed_at c, lc_content_observed_at c))
  <$> local_copy_of (t_copies (d_catalog d)) file.

(** A version a scan saw before its receipt takes its place as an upload. *)
Definition promote_discovered (version file intent_id : string) (uploaded_at : timestamp) (d : worker_db) : worker_db :=
  let c := d_catalog d in
  let sent v := exists_row (fun i => (ui_id i =b intent_id) && bool_decide (ui_archive_version_id i = Some (av_id v))
                                     && (ui_vault_file_id i =b av_vault_file_id v) && ui_send_started i
                                     && bool_decide (ve_upload_snapshot (av_evidence v) = Some (ui_snapshot i))) (ut_intents (d_uploads d)) in
  let p v := (av_id v =b version) && (av_vault_file_id v =b file) && (av_origin v =b Discovered) && sent v in
  let f v := {| av_id := av_id v; av_vault_file_id := av_vault_file_id v; av_vault_id := av_vault_id v;
                av_version_number := or_default (list_max (version_numbers c (av_vault_file_id v))) 0 + 1;
                av_object_key := av_object_key v; av_provider_version_id := av_provider_version_id v; av_size := av_size v;
                av_storage_class := av_storage_class v; av_plaintext_sha256 := av_plaintext_sha256 v; av_origin := Upload;
                av_integrity := av_integrity v; av_verified_at := av_verified_at v; av_availability := av_availability v;
                av_availability_checked_at := av_availability_checked_at v; av_restore_state := av_restore_state v;
                av_placement := {| vp_etag := vp_etag (av_placement v); vp_uploaded_at := uploaded_at;
                                   vp_discovered_at := vp_discovered_at (av_placement v);
                                   vp_storage_class_source := vp_storage_class_source (av_placement v);
                                   vp_restore_expiry := vp_restore_expiry (av_placement v);
                                   vp_restore_checked_at := vp_restore_checked_at (av_placement v) |};
                av_evidence := av_evidence v |} in
  on_catalog (fun c => set_versions (update_where p f (t_versions c)) c) d.

(** What a verification works on: the row of the Job and its version, or what the
    upload has just written. *)
Record verify_target := {
  tv_version : string;
  tv_object_key : option string;
  tv_provider_version_id : option string;
  tv_cloud_size : option Z;
  tv_upload_sha256 : option string;
  tv_version_sha256 : option string;
  tv_integrity : option integrity;
  tv_availability : option availability;
  tv_snapshot : option string;
  tv_requested : option string;
  tv_proof : option upload_evidence;
}.

Definition target_of_job (version : string) (t : job_target) : verify_target :=
  {| tv_version := version; tv_object_key := jt_object_key t; tv_provider_version_id := jt_provider_version_id t;
     tv_cloud_size := jt_cloud_size t; tv_upload_sha256 := ju_plaintext_sha256 (j_upload (jt_job t)); tv_version_sha256 := jt_version_sha256 t;
     tv_integrity := av_integrity <$> jt_version t; tv_availability := av_availability <$> jt_version t;
     tv_snapshot := jt_version t ≫= (fun v => ve_upload_snapshot (av_evidence v));
     tv_requested := jt_version t ≫= (fun v => ve_verification_requested (av_evidence v)); tv_proof := None |}.

Definition target_of_reuse (v : archive_version) (digest : string) : verify_target :=
  {| tv_version := av_id v; tv_object_key := av_object_key v; tv_provider_version_id := av_provider_version_id v; tv_cloud_size := av_size v;
     tv_upload_sha256 := Some digest; tv_version_sha256 := None; tv_integrity := Some Unverified; tv_availability := Some (av_availability v);
     tv_snapshot := ve_upload_snapshot (av_evidence v); tv_requested := ve_verification_requested (av_evidence v); tv_proof := None |}.

Definition target_of_send (version key : string) (a : write_answer) (s : upload_snapshot) (requested : string) (proof : option upload_evidence)
    : verify_target :=
  {| tv_version := version; tv_object_key := Some key; tv_provider_version_id := wa_version_id a; tv_cloud_size := Some (us_size s);
     tv_upload_sha256 := Some (us_plaintext_sha256 s); tv_version_sha256 := None; tv_integrity := Some Unverified;
     tv_availability := Some Available; tv_snapshot := Some (as_json s); tv_requested := Some requested; tv_proof := proof |}.

Section digests.
Context (sha256 : bytes → bytes).

(** [_require_linked_upload_digest]. *)
Definition require_linked_upload_digest (t : verify_target) : result string :=
  from_snapshot ← match tv_snapshot t with
                  | None => Ok None
                  | Some raw =>
                      s ← from_json sha256 raw;
                      raise! RuntimeError "Upload Snapshot digest differs from durable upload digest" when
                        truthy (tv_upload_sha256 t) && (lower (or_default (tv_upload_sha256 t) "") <>b us_plaintext_sha256 s);
                      Ok (Some (us_plaintext_sha256 s))
                  end;
  let chosen := if truthy from_snapshot then from_snapshot else if truthy (tv_upload_sha256 t) then tv_upload_sha256 t
                else if bool_decide (tv_integrity t = Some Verified) then tv_version_sha256 t else None in
  let digest := lower (or_default chosen "") in
  raise! RuntimeError "The linked Archive Version has no durable upload fingerprint" when negb (String.length digest =? 64)%nat;
  raise! RuntimeError "The linked Archive Version has an invalid upload fingerprint" when negb (is_int_base_16 digest);
  Ok digest.

(** The evidence a version carries must be that of the upload. *)
Definition baseline (t : verify_target) (digest : string) : result (option upload_snapshot) :=
  match tv_snapshot t with
  | None => Ok None
  | Some raw =>
      s ← from_json sha256 raw;
      raise! RuntimeError "Upload Snapshot digest differs from durable upload digest" when us_plaintext_sha256 s <>b digest;
      Ok (Some s)
  end.
End digests.

(** [json.dumps(provider_proof)], with its default separators. *)
Definition proof_text (e : upload_evidence) : string :=
  let item k v := dumps (JStr k) +:+ ": " +:+ dumps (JStr v) in
  "{" +:+ String.concat ", " [item "algorithm" (ue_algorithm e); item "checksum_type" (ue_checksum_type e); item "checksum" (ue_checksum e);
                              item "version_id" (ue_version_id e); item "source" (ue_source e)] +:+ "}".

(** The hooks of [CatalogVersions]: lineage needs the tables of uploads, the capture of a
    new baseline is made on them afterwards. *)
Definition tables_lineage (sha256 : bytes → bytes) (d : worker_db) : Lineage :=
  {| CatalogVersions.has_lineage _ v file bucket provider := has_lineage sha256 d (Some v) file bucket provider |}.
Definition no_capture : TargetCapture := {| CatalogVersions.capture c _ _ := c |}.

Section upload.
Context {P : Type} `{!Provider P} `{!UploadProvider P} `{!ObjectReader P} `{!Disk P} `{!Environment worker_db} `{!Host} `{!Messages} `{!UploadTransitions}.
Notation W := (world worker_db P).
Context (sha256 crc32 : bytes → bytes) (provider write_provider : string) (fuel : nat).
Context (network_error names_checksum_mode : exn → bool) (bucket_still_ready : eff W bool).
Context (credentials : result unit) (probe : eff W unit).
Context (adjust_chunksize : Z → Z → Z) (single_attempt : bool) (operation_name : exn → option string).
Context (program : path → string → string → option Z → upload_args → manager).
Context (progress_due : nat → option Z) (progress_total : nat → Z) (progress_ms : Z) (remedy : string → string).
Context (job : claimed_job).

Definition job_id : Z := j_id (cj_row job).
Definition vault_id : Z := j_vault_id (cj_row job).
Definition upload_file_id : string := j_vault_file_id (cj_row job).
Definition upload_context : option (Z * string) := job_claim_context job.
Definition still_active (message : string) : eff W unit := ensure_job_active upload_context job_id message.
Definition tell (status message : string) (key : option string) : eff W unit :=
  set_job upload_context job_id status message key [] None ;;; eret tt.

(** ** One unit of work on the catalog *)

(** [_upload_catalog_unit]: the target still holds and the lease is renewed, in the
    transaction of the change. *)
Definition upload_unit {A} (m : eff W A) : eff W A :=
  transaction (
    ask (fun d => key ← job_key job; target d job key "db-fence") ;;;
    claim_owned job "Upload claim was lost" ;;;
    m).

Definition change (f : worker_db → result worker_db) : eff W unit := in_db (fun d => d ← f d; Ok (d, tt)).
Definition change_catalog (f : catalog → result catalog) : eff W unit := change (fun d => c ← f (d_catalog d); Ok (set_catalog c d)).

(** ** The problem of a file *)
Definition problem_key : string := "upload_reconciliation:" +:+ upload_file_id.

Definition upload_problem (active : bool) (params : message_params) (at_ : timestamp) (d : worker_db) : result worker_db :=
  '(b, _) ← set_problem notification_text weekly_summary_text smtp_configured (d_inbox d) problem_key
              "upload_reconciliation" (Some vault_id) active params false at_;
  Ok (set_inbox b d).

Definition clear_problem : eff W unit :=
  transaction (at_ <~ now_iso ;; change (upload_problem false [] at_)).

Definition persist_block (reason : string) : eff W unit :=
  transaction (
    at_ <~ now_iso ;;
    update_db (fun d =>
      let t := upsert_block upload_file_id reason at_ (d_uploads d) in
      let t := update_intents (fun i => (ui_vault_file_id i =b upload_file_id) && negb (ui_settled i)) (set_blocked_reason reason) t in
      set_uploads t d) ;;;
    captured_at <~ now_iso ;;
    update_db (fun d => UploadDiscovery.capture d captured_at None (Some upload_file_id))).

Definition record_upload_reconciliation_block (reason : string) : eff W unit :=
  if reason ∈b WAIT_REASONS then eret tt
  else
    over <~ (if reason ∈b TERMINAL_JOB_REASONS
             then row <~ query (fun d => Ok (job_by_id d job_id)) ;;
                  eret (match row with Some j => terminal_job j | None => false end)
             else eret false) ;;
    if over : bool then eret tt
    else
      persist_block reason ;;;
      transaction (
        throw! KeyError reason when negb (reason ∈b REMEDIES) ;;
        at_ <~ now_iso ;;
        change (upload_problem true [("path", JStr (j_path (cj_row job))); ("reason", JStr reason); ("remedy", JStr (remedy reason))] at_)).

Definition block_reason (e : exn) : option string :=
  match e with UploadBlocked reason => Some reason | ProvenAbsent => Some "ambiguous_send" | _ => None end.

(** [except UploadBlocked as exc: record the block; raise]. *)
Definition recording_blocks {A} (m : eff W A) : eff W A :=
  catch m (fun e => match block_reason e with
                    | Some reason => record_upload_reconciliation_block reason ;;; throw e
                    | None => throw e
                    end).

Definition purge_current_snapshot_superseded (keep_version_id : string) : eff W Z :=
  inventory_job_id <~ catch (cleanup sha256 provider fuel network_error bucket_still_ready job keep_version_id)
    (fun e => match block_reason e, e with
              | Some reason, _ => record_upload_reconciliation_block reason ;;; throw e
              | None, SourceVolumeUnavailable _ => throw e
              | None, _ => if is_cancellation e then throw e
                           else record_upload_reconciliation_block "cleanup_unavailable" ;;; throw e
              end) ;;
  clear_problem ;;;
  eret inventory_job_id.

(** ** The Local Copy after the upload *)
Definition inspect_local_copy (source : path) (upload_digest : string) (local_digest : option string) (local_stat : option file_stat)
    : eff W (option string * option file_stat * bool) :=
  known <~ match local_stat with
           | Some info =>
               if bool_decide (local_digest = Some upload_digest) || truthy local_digest then local_stat_unchanged source info else eret false
           | None => eret false
           end ;;
  if known : bool then eret (local_digest, local_stat, bool_decide (local_digest = Some upload_digest))
  else
    current <~ catch_if is_os_error (info <~ lstat source ;; eret (Some info)) (fun _ => eret None) ;;
    match current with
    | None => eret (None, None, false)
    | Some current =>
        if sx_kind current <>b KRegular then eret (None, None, false)
        else if negb (sx_size current =? j_total_bytes (cj_row job)) then eret (None, Some current, false)
        else
          catch (pat! (digest, hashed) <~ hash_stable_regular_file sha256 source ;; eret (Some digest, Some hashed, digest =b upload_digest))
            (fun e => if is_cancellation e then throw e else eret (None, Some current, false))
    end.

(** The transaction that records the verification: the Local Copy is only written when
    no other observation came in between. *)
Definition persist_verification (version upload_digest : string) (mark_verified stable : bool) (digest : option string)
    (info : option file_stat) (matches : bool) (before : option _) (verified_at : timestamp) : eff W unit :=
  upload_unit (
    (if mark_verified then change_catalog (mark_version_verified version upload_digest verified_at) else eret tt) ;;;
    now <~ read_db (copy_generation upload_file_id) ;;
    let publish := stable && bool_decide (now = before) in
    file_uuid <~ observe uuid ;;
    match info with
    | Some info =>
        if publish
        then change_catalog (fun c => '(c, _) ← observe_local_copy c vault_id (j_path (cj_row job)) Regular (Some (sx_size info))
                                                  (Some (sx_mtime_ns info)) verified_at None None file_uuid; Ok c)
        else eret tt
    | None => eret tt
    end ;;;
    match digest with
    | Some digest =>
        if publish
        then at_ <~ now_iso ;;
             change_catalog (set_local_fingerprint vault_id (j_path (cj_row job)) digest (if matches then Some version else None) at_) ;;;
             (if matches
              then update_db (fun d => set_uploads (set_pending_files (delete_where (fun r => pr_vault_file_id r =b upload_file_id) (ut_pending (d_uploads d)))
                                                      (d_uploads d)) d)
              else eret tt)
        else eret tt
    | None => eret tt
    end).

Definition complete_verified_upload (source : path) (version upload_digest : string) (mark_verified : bool) (local_digest : option string)
    (local_stat : option file_stat) : eff W unit :=
  require_upload_source_identity sha256 job ;;;
  before <~ transaction (read_db (copy_generation upload_file_id)) ;;
  pat! (digest, info, matches) <~ inspect_local_copy source upload_digest local_digest local_stat ;;
  stable <~ match info with Some info => local_stat_unchanged source info | None => eret false end ;;
  verified_at <~ now_iso ;;
  persist_verification version upload_digest mark_verified stable digest info matches before verified_at ;;;
  tell "uploading" "" (Some "job.purging_previous_snapshot") ;;;
  still_active "Upload claim was lost" ;;;
  lift credentials ;;;
  inventory_job_id <~ purge_current_snapshot_superseded version ;;
  upload_unit (update_db (fun d => record_cleanup d job_id inventory_job_id)) ;;;
  let total := j_total_bytes (cj_row job) in
  let progress := match local_stat with Some info => if total <=? 0 then sx_size info else total | None => total end in
  set_job_progress upload_context job_id progress None ;;;
  tell "completed" "" (Some "job.upload_verified").

(** ** An automatic upload must still be wanted *)
Definition automatic_upload_ready : eff W bool :=
  transaction (
    found <~ read_db (fun d => get_job_target (d_catalog d) job_id) ;;
    if match found with Some t => truthy (jt_archive_version_id t) | None => false end then eret true
    else
      admitted <~ read_db (fun d => load_for_job (d_uploads d) job_id) ;;
      if match admitted with Some i => ui_send_started i | None => false end then eret true
      else
        policy <~ read_db (fun d => get_policy (d_catalog d) vault_id) ;;
        row <~ read_db (fun d => vault_row d vault_id) ;;
        match row with
        | Some v =>
            if negb (va_enabled v) || negb (auto_upload policy) || (va_source_root v <>b cj_source_root job) then eret false
            else
              access <~ observe (fun n => vault_local_access n (va_source_root v)) ;;
              if negb (ac_allowed access) then eret false
              else match found with
                   | None => eret false
                   | Some t =>
                       if negb (auto_upload_path_is_included (j_path (cj_row job)) policy) then eret false
                       else
                         info <~ catch_if (fun e => is_os_error e || is_runtime_error e || match e with ValueError _ | InvalidLogicalPath => true | _ => false end)
                                   (validate_enrolled_scan_root sha256 v ;;;
                                    fs <~ observe host_view ;;
                                    source <~ lift (safe_local_path fs (cj_source_root job) (j_path (cj_row job))) ;;
                                    info <~ os_stat_follow source ;; eret (Some info))
                                   (fun _ => eret None) ;;
                         match info with
                         | None => eret false
                         | Some info =>
                             if sx_kind info <>b KRegular then eret false
                             else if negb (bool_decide ((Some (sx_size info), Some (sx_mtime_ns info)) = (jt_local_size t, jt_local_mtime t)))
                             then at_ <~ now_iso ;;
                                  file_uuid <~ observe uuid ;;
                                  change_catalog (fun c => '(c, _) ← observe_local_copy c vault_id (j_path (cj_row job)) Regular
                                    (Some (sx_size info)) (Some (sx_mtime_ns info)) at_ None None file_uuid; Ok c) ;;;
                                  eret false
                             else now <~ now_iso ;;
                                  eret (file_is_stable (sx_mtime_ns info) now (stability_seconds policy) (content_observed <$> jt_copy t))
                         end
                   end
        | None => eret false
        end).

(** ** The publication of a receipt *)

(** [response.get(...)] on the fields of a receipt. *)
Definition publication_of (pinned : pinned_target) (intent : upload_intent) (s : upload_snapshot) (response : fields) (version : string)
    (stamp : timestamp) : publication :=
  {| pb_vault_id := vault_id; pb_path := j_path (cj_row job); pb_object_key := tg_key pinned; pb_provider_version_id := version;
     pb_size := Some (us_size s); pb_storage_class := Some (or_default (get_text response "StorageClass") "STANDARD");
     pb_etag := Some (strip (fun a => bool_decide (a = Ascii.ascii_of_nat 34)) (or_default (get_text response "ETag") ""));
     pb_uploaded_at := ui_created_at intent; pb_observed_at := stamp; pb_scan_id := stamp; pb_origin := Upload;
     pb_vault_file_id := Some upload_file_id |}.

Definition publish_tables (intent : upload_intent) (rq : publication) (file_uuid version_uuid : string) (captured_at : timestamp) (d : worker_db)
    : result (worker_db * string) :=
  let format := upload_snapshot_format sha256 in
  _ ← require_target d job (ui_target intent);
  '(c, recorded) ← record_archive_version (d_catalog d) rq file_uuid version_uuid;
  let new := match fetchone (fun v => av_id v =b recorded) (t_versions c) with Some v => is_none (ve_upload_snapshot (av_evidence v)) | None => false end in
  c ← set_version_upload_snapshot (H := format) (H0 := no_capture) recorded (ui_snapshot intent) (ui_requested intent) captured_at c;
  let d := set_catalog c d in
  let d := if new : bool then UploadDiscovery.capture d captured_at (Some recorded) None else d in
  c ← set_upload_snapshot (H := format) job_id (ui_snapshot intent) (d_catalog d);
  let d := set_catalog (link_job_version job_id recorded c) d in
  let own i := (ui_id i =b ui_id intent) && (is_none (ui_archive_version_id i) || bool_decide (ui_archive_version_id i = Some recorded)) in
  let d := set_uploads (update_intents own (set_intent_version recorded) (d_uploads d)) d in
  Ok (promote_discovered recorded upload_file_id (ui_id intent) (ui_created_at intent) d, recorded).

Definition publish_upload_receipt (intent : upload_intent) (response : fields) : eff W string :=
  require_upload_source_identity sha256 job ;;;
  s <~ lift (from_json sha256 (ui_snapshot intent)) ;;
  match get_text response "VersionId" with
  | Some version =>
      throw! UploadBlocked "ambiguous_receipt" when
        (version =b "") || (version =b "null") || (version ∈b ki_versions (ui_inventory intent)) ;;
      stamp <~ now_iso ;;
      upload_unit (
        file_uuid <~ observe uuid ;;
        version_uuid <~ observe uuid ;;
        captured_at <~ now_iso ;;
        in_db (publish_tables intent (publication_of (ui_target intent) intent s response version stamp) file_uuid version_uuid captured_at))
  | None => throw (UploadBlocked "ambiguous_receipt")
  end.

(** ** Taking up a send that may have happened *)
Definition upload_protection_paused : eff W bool :=
  policy <~ transaction (read_db (fun d => get_policy (d_catalog d) vault_id)) ;;
  eret (negb (auto_upload policy) || negb (auto_upload_path_is_included (j_path (cj_row job)) policy)).

Definition rearm (intent : upload_intent) : eff W unit :=
  upload_unit (at_ <~ now_iso ;; change (fun d => rearm_after_proven_absence sha256 d job intent at_)) ;;;
  clear_problem.

(** The published version of the intent is still what was published. *)
Definition published_intact (intent : upload_intent) (raw : option fields) (linked : option job_target) (d : worker_db) : bool :=
  match fetchone (fun v => bool_decide (Some (av_id v) = ui_archive_version_id intent) && (av_vault_file_id v =b upload_file_id)
                           && (av_vault_id v =b vault_id)) (t_versions (d_catalog d)), raw with
  | Some exact, Some raw =>
      bool_decide (av_object_key exact = Some (tg_key (ui_target intent)))
      && bool_decide (av_provider_version_id exact = get_text raw "VersionId")
      && bool_decide (ve_upload_snapshot (av_evidence exact) = Some (ui_snapshot intent))
      && match linked with
         | Some t => negb (truthy (jt_archive_version_id t)) || bool_decide (jt_archive_version_id t = ui_archive_version_id intent)
         | None => true
         end
  | _, _ => false
  end.

Definition check_receipt (intent : upload_intent) (raw : option fields) : result unit :=
  match raw with
  | None => Ok tt
  | Some raw =>
      _ ← blocked_mismatch (s ← from_json sha256 (ui_snapshot intent);
            validated_s3_proof (proof_of_fields raw) (or_default (get_text raw "VersionId") "") s "upload_response" true);
      Ok tt
  end.

(** The answer is whether the Job may still only reconcile. *)
Definition resume_materialized_upload (intent : upload_intent) : eff W bool :=
  let only := ju_reconcile_only (j_upload (cj_row job)) in
  recording_blocks (
    upload_unit (ask (fun d => require_target d job (ui_target intent))) ;;;
    pat! (linked, raw) <~ query (fun d => raw ← receipt (d_uploads d) (ui_id intent); Ok (get_job_target (d_catalog d) job_id, raw)) ;;
    lift (check_receipt intent raw) ;;;
    if truthy (ui_archive_version_id intent)
    then
      intact <~ query (fun d => Ok (published_intact intent raw linked d)) ;;
      throw! UploadBlocked "ambiguous_receipt" when negb intact ;;
      (if match linked with Some t => truthy (jt_archive_version_id t) | None => false end then eret tt
       else upload_unit (update_db (on_catalog (link_job_version job_id (or_default (ui_archive_version_id intent) ""))))) ;;;
      eret only
    else
      outcome <~ catch (r <~ reconcile sha256 provider fuel network_error names_checksum_mode bucket_still_ready
                               (still_active "Upload reconciliation stopped") intent raw ;; eret (Some r))
                   (fun e => match e with ProvenAbsent => eret None | _ => throw e end) ;;
      match outcome with
      | None =>
          paused <~ (if only then upload_protection_paused else eret false) ;;
          throw! UploadBlocked "protection_paused" when paused ;;
          rearm intent ;;;
          eret false
      | Some response =>
          received_at <~ now_iso ;;
          append_receipt sha256 (ui_id intent) response received_at ;;;
          let version := or_default (get_text response "VersionId") "" in
          lift (blocked_mismatch (
            s ← from_json sha256 (ui_snapshot intent);
            _ ← match raw with
                | Some raw => validated_s3_proof (proof_of_fields raw) version s "upload_response" true
                | None => Ok None
                end;
            validated_s3_proof (proof_of_fields response) version s "exact_head" false)) ;;;
          publish_upload_receipt intent response ;;;
          eret only
      end).

(** ** The transfer *)
Definition report_progress (bytes_ : Z) : eff W unit := set_job_progress None job_id bytes_ (j_claim_token (cj_row job)) ;;; eret tt.

Definition on_sent (amount : Z) : eff W unit :=
  due <~ observe progress_due ;;
  match due with Some total => report_progress total | None => eret tt end.

Definition upload_s3_file (source : path) (key : string) (s : upload_snapshot) (token : string) (acknowledge : write_answer → eff W unit)
    : eff W transfer_outcome :=
  require_upload_source_identity sha256 job ;;;
  lift credentials ;;;
  throw! UploadBlocked "identity_changed" when write_provider <>b provider ;;
  outcome <~ upload_file sha256 crc32 (Some s) (still_active "Upload stopped") (Some acknowledge) on_sent single_attempt operation_name program
               source (cj_bucket job) key (Some {[ UPLOAD_TOKEN_KEY := token ]}) ;;
  match to_result outcome with
  | Ok a => total <~ observe progress_total ;; report_progress total ;;; eret outcome
  | Raise e => eret outcome
  end.

(** ** The read-back *)
Definition min_report_interval : Z := Z.max 50000 ((if progress_ms =? 0 then 500 else progress_ms) * 1000).

(** [job_progress_callback]: the time and the value of the last report. *)
Definition progress_step (floor : Z) (st : Z * Z) (transferred : Z) : eff W (Z * Z) :=
  let total := Z.max (j_total_bytes (cj_row job)) floor in
  let value := Z.max floor transferred in
  let value := if total =? 0 then value else Z.min value total in
  if value =? st.2 then eret st
  else
    now <~ observe clock ;;
    if (negb (total =? 0) && (total <=? value)) || (min_report_interval <=? now - st.1)
    then set_job_progress upload_context job_id value (j_claim_token (cj_row job)) ;;; eret (now, value)
    else eret st.

Fixpoint stream_chunks (floor : Z) (b : body) (content : bytes) (st : Z * Z) : eff W bytes :=
  match b with
  | [] => eret content
  | c :: b =>
      chunk <~ lift c ;;
      if bool_decide (chunk = []) then eret content
      else
        still_active "Upload stopped" ;;;
        st <~ progress_step floor st (Z.of_nat (length (content ++ chunk))) ;;
        stream_chunks floor b (content ++ chunk) st
  end.

Definition stream_plaintext_for_verification (t : verify_target) (source_size : Z) : eff W (string * Z) :=
  throw! RuntimeError "An exact Archive Version is required for verification" when
    negb (truthy (tv_provider_version_id t)) || negb (truthy (tv_object_key t)) ;;
  still_active "Upload stopped" ;;;
  lift credentials ;;;
  let version := or_default (tv_provider_version_id t) "" in
  answer <~ fetch_object {| or_bucket := cj_bucket job; or_key := or_default (tv_object_key t) ""; or_version := version |} ;;
  match ga_body answer with
  | None => throw (KeyError "Body")
  | Some b =>
      throw! RuntimeError "S3 returned a different verification VersionId" when or_default (ga_version_id answer) "" <>b version ;;
      let floor := Z.max 0 source_size in
      content <~ stream_chunks floor b [] (0, floor - 1) ;;
      still_active "Upload stopped" ;;;
      eret (hexdigest (sha256 content), Z.of_nat (length content))
  end.

(** ** Evidence of the provider *)
Definition evaluate_provider_proof (t : verify_target) (upload_digest : string) (s : upload_snapshot) (proof : provider_proof) (source : string)
    (completion : bool) : eff W (option upload_evidence) :=
  match validated_s3_proof proof (or_default (tv_provider_version_id t) "") s source completion with
  | Raise (UploadProofMismatch m) =>
      upload_unit (at_ <~ now_iso ;; change_catalog (mark_version_mismatch (tv_version t) upload_digest at_)) ;;;
      throw (UploadProofMismatch m)
  | r => lift r
  end.

Definition evaluate_head (t : verify_target) (upload_digest : string) (s : option upload_snapshot) (h : head_answer) : eff W unit :=
  match s with
  | Some s => evaluate_provider_proof t upload_digest s (proof_of_head h) "ordinary_head" false ;;; eret tt
  | None => eret tt
  end.

(** The HEAD of the exact version; a token must be that of an intent of this version. *)
Definition version_head (t : verify_target) : eff W head_answer :=
  h <~ verification_version_head (cj_bucket job) (tv_object_key t) (tv_provider_version_id t) (tv_cloud_size t) ;;
  let token := hd_metadata h ≫= lookup UPLOAD_TOKEN_KEY in
  if negb (truthy token) then eret h
  else
    known <~ query (fun d => Ok (fetchone (fun i => bool_decide (ui_archive_version_id i = Some (tv_version t))
                                                   && (ui_vault_file_id i =b upload_file_id) && bool_decide (Some (ui_token i) = token))
                                   (ut_intents (d_uploads d)))) ;;
    match known with
    | None => throw (UploadBlocked "ambiguous_receipt")
    | Some i =>
        throw! UploadBlocked "identity_changed" when
          negb (bool_decide (tg_provider (ui_target i) = Some provider)) || (tg_bucket (ui_target i) <>b cj_bucket job)
          || negb (bool_decide (Some (tg_key (ui_target i)) = tv_object_key t)) ;;
        eret h
    end.

(** ** Sending *)
Definition prepare_send (key : string) (s : upload_snapshot) (requested : string) : eff W upload_intent :=
  pinned <~ query (fun d => target d job key provider) ;;
  before <~ inventory fuel network_error bucket_still_ready (cj_bucket job) key ;;
  again <~ inventory fuel network_error bucket_still_ready (cj_bucket job) key ;;
  throw! UploadBlocked "inventory_changed" when negb (bool_decide (before = again)) ;;
  intent <~ upload_unit (
    at_ <~ now_iso ;;
    id <~ observe uuid ;;
    token <~ observe uuid ;;
    in_db (fun d => prepare d job pinned s requested before at_ (id, token))) ;;
  throw! UploadBlocked "identity_changed" when
    (ui_snapshot intent <>b as_json s) || negb (bool_decide (ui_inventory intent = before)) ;;
  upload_unit (at_ <~ now_iso ;; change (fun d => mark_send_started d job intent at_)) ;;;
  eret intent.

Definition acknowledge_receipt (intent : upload_intent) (a : write_answer) : eff W unit :=
  at_ <~ now_iso ;; append_receipt sha256 (ui_id intent) (write_fields a) at_.

(** A late answer is kept even when the transfer failed; a refusal on record re-arms. *)
Definition transfer (intent : upload_intent) (source : path) (key : string) (s : upload_snapshot) : eff W write_answer :=
  outcome <~ catch_all (upload_s3_file source key s (ui_token intent) (acknowledge_receipt intent))
               (fun e => eret {| to_result := Raise e; to_response := None; to_no_write := None |}) ;;
  match to_result outcome with
  | Ok a => acknowledge_receipt intent a ;;; eret a
  | Raise e =>
      match to_response outcome, to_no_write outcome with
      | Some a, _ => acknowledge_receipt intent a
      | None, Some operation =>
          if is_readiness_error [e]
          then upload_unit (at_ <~ now_iso ;; change (fun d => record_no_write sha256 d job intent operation at_))
          else eret tt
      | None, None => eret tt
      end ;;;
      throw e
  end.

Definition send_new (source : path) (s : upload_snapshot) (requested : string) : eff W (verify_target * head_answer) :=
  tell "uploading" "" (Some "job.plain_upload") ;;;
  key <~ lift (job_key job) ;;
  intent <~ prepare_send key s requested ;;
  a <~ transfer intent source key s ;;
  version <~ publish_upload_receipt intent (write_fields a) ;;
  let t := target_of_send version key a s requested in
  proof <~ evaluate_provider_proof (t None) (us_plaintext_sha256 s) s (proof_of_write a) "upload_response" true ;;
  h <~ version_head (t proof) ;;
  eret (t proof, h).

(** ** Verifying *)

(** What the work on one version has found out so far. *)
Record attempt := {
  at_target : verify_target;
  at_snapshot : option upload_snapshot;
  at_requested : string;
  at_digest : string;
  at_head : head_answer;
}.

(** A proof by checksum, or the reason why the bytes have to be read back. *)
Definition checksum_proof (a : attempt) : eff W (option upload_evidence * option string) :=
  let t := at_target a in
  match at_snapshot a with
  | None => eret (None, Some "legacy_expected_missing")
  | Some s =>
      if at_requested a <>b "s3_checksum" then eret (None, None)
      else match tv_proof t with
           | Some proof => eret (Some proof, None)
           | None =>
               catch (h <~ head_object {| hr_bucket := cj_bucket job; hr_key := or_default (tv_object_key t) "";
                                          hr_version := tv_provider_version_id t; hr_checksum_mode := true |} ;;
                      proof <~ evaluate_provider_proof t (at_digest a) s (proof_of_head h) "exact_head" false ;;
                      eret (proof, if is_some proof then None else Some "checksum_missing"))
                 (fun e => if unsupported_checksum_api names_checksum_mode e then eret (None, Some "checksum_api_unsupported") else throw e)
           end
  end.

Definition record_method_used (version method : string) (fallback : option string) (egress : option Z) (proof : option upload_evidence)
    : eff W unit :=
  upload_unit (change_catalog (fun c => Ok (set_version_verification_method version method fallback egress (proof_text <$> proof) c))).

Definition read_back (a : attempt) (source : path) (source_size : Z) (fallback : option string) (local_digest : option string)
    (local_stat : option file_stat) : eff W unit :=
  let t := at_target a in
  (if truthy fallback then tell "verifying" "" (Some "job.verifying_cloud_fallback") else eret tt) ;;;
  pat! (remote_digest, remote_size) <~ stream_plaintext_for_verification t source_size ;;
  record_method_used (tv_version t) "read_back" fallback (Some remote_size) None ;;;
  final_head <~ version_head t ;;
  evaluate_head t (at_digest a) (at_snapshot a) final_head ;;;
  throw! RuntimeError "Cloud verification stream length did not match the Archive Version" when
    match tv_cloud_size t with Some n => negb (remote_size =? n) | None => false end ;;
  if remote_digest <>b at_digest a
  then still_active "Upload claim was lost" ;;;
       upload_unit (at_ <~ now_iso ;; change_catalog (mark_version_mismatch (tv_version t) (at_digest a) at_)) ;;;
       record_upload_reconciliation_block "proof_mismatch" ;;;
       throw (RuntimeError "Cloud copy digest does not match local file")
  else complete_verified_upload source (tv_version t) (at_digest a) true local_digest local_stat.

Definition verify (a : attempt) (source : path) (local_digest : option string) (local_stat : option file_stat) : eff W unit :=
  let t := at_target a in
  evaluate_head t (at_digest a) (at_snapshot a) (at_head a) ;;;
  still_active "Upload stopped" ;;;
  tell "verifying" "" (Some "job.verifying_cloud_copy") ;;;
  still_active "Upload claim was lost" ;;;
  let total := j_total_bytes (cj_row job) in
  let source_size := match local_stat with
                     | Some info => sx_size info
                     | None => if total =? 0 then or_default (tv_cloud_size t) 0 else total
                     end in
  pat! (proof, fallback) <~ checksum_proof a ;;
  match proof with
  | Some proof =>
      record_method_used (tv_version t) "s3_checksum" fallback (Some 0) (Some proof) ;;;
      complete_verified_upload source (tv_version t) (at_digest a) true local_digest local_stat
  | None =>
      record_method_used (tv_version t) "read_back" fallback None None ;;;
      read_back a source source_size fallback local_digest local_stat
  end.

(** ** The two ways to a version *)

(** The Job already has a version: only verify it, and only against its own evidence. *)
Definition verify_linked (linked : job_target) (version requested : string) (source : path) : eff W unit :=
  let t := target_of_job version linked in
  let integrity := or_default (tv_integrity t) Unverified in
  digest <~ lift (require_linked_upload_digest sha256 t) ;;
  throw! RuntimeError "The linked Archive Version already mismatches the Local Copy" when integrity =b Mismatch ;;
  throw! RuntimeError "The linked Archive Version is no longer available" when
    match tv_availability t with Some a => a <>b Available | None => false end ;;
  throw! RuntimeError "The linked Archive Version cannot be verified safely" when
    negb (truthy (tv_object_key t)) || negb (truthy (tv_provider_version_id t)) ;;
  s <~ lift (baseline sha256 t digest) ;;
  h <~ version_head t ;;
  if integrity =b Verified
  then evaluate_head t digest s h ;;; complete_verified_upload source version digest false None None
  else
    let requested := if is_some s then (if truthy (tv_requested t) then or_default (tv_requested t) "" else "read_back") else requested in
    verify {| at_target := t; at_snapshot := s; at_requested := requested; at_digest := digest; at_head := h |} source None None.

(** The evidence of the upload goes onto the Job; the same bytes may be in the cloud. *)
Definition find_reusable (s : upload_snapshot) : eff W (option archive_version) :=
  upload_unit (
    change_catalog (set_upload_snapshot (H := upload_snapshot_format sha256) job_id (as_json s)) ;;;
    if upload_file_id =b "" then eret None
    else ask (fun d => find_reusable_upload_version (H := tables_lineage sha256 d) (d_catalog d) upload_file_id (us_plaintext_sha256 s)
                         (Some (cj_bucket job)) (Some provider))).

Definition reuse_verified (v : archive_version) (s : upload_snapshot) (info : file_stat) (source : path) : eff W unit :=
  let digest := us_plaintext_sha256 s in
  upload_unit (update_db (on_catalog (link_job_version job_id (av_id v)))) ;;;
  linked <~ upload_unit (read_db (fun d => get_job_target (d_catalog d) job_id)) ;;
  match linked with
  | None => throw (AttributeError "'NoneType' object has no attribute 'get'")
  | Some linked =>
      let t := target_of_job (av_id v) linked in
      original <~ lift (baseline sha256 t digest) ;;
      match original with
      | Some _ => h <~ version_head t ;; evaluate_head t digest original h
      | None => eret tt
      end ;;;
      complete_verified_upload source (av_id v) digest false (Some digest) (Some info)
  end.

Definition reuse_unverified (v : archive_version) (s : upload_snapshot) : eff W attempt :=
  throw! RuntimeError "The linked Archive Version cannot be verified safely" when
    negb (truthy (av_object_key v)) || negb (truthy (av_provider_version_id v)) ;;
  upload_unit (update_db (on_catalog (link_job_version job_id (av_id v)))) ;;;
  let t := target_of_reuse v (us_plaintext_sha256 s) in
  original <~ lift (if truthy (tv_snapshot t) then o ← from_json sha256 (or_default (tv_snapshot t) ""); Ok (Some o) else Ok None) ;;
  h <~ version_head t ;;
  eret {| at_target := t; at_snapshot := original;
          at_requested := if truthy (tv_requested t) then or_default (tv_requested t) "" else "read_back";
          at_digest := us_plaintext_sha256 s; at_head := h |}.

Definition send_and_verify (s : upload_snapshot) (info : file_stat) (requested : string) (source : path) : eff W unit :=
  pat! (t, h) <~ send_new source s requested ;;
  verify {| at_target := t; at_snapshot := Some s; at_requested := requested; at_digest := us_plaintext_sha256 s; at_head := h |} source
    (Some (us_plaintext_sha256 s)) (Some info).

Definition upload_or_reuse (s : upload_snapshot) (info : file_stat) (requested : string) (source : path) : eff W unit :=
  reusable <~ find_reusable s ;;
  match reusable with
  | Some v =>
      match av_integrity v with
      | Verified => reuse_verified v s info source
      | Unverified => a <~ reuse_unverified v s ;; verify a source (Some (us_plaintext_sha256 s)) (Some info)
      | Mismatch => send_and_verify s info requested source
      end
  | None => send_and_verify s info requested source
  end.

(** ** The handler *)
Definition is_automatic : bool := j_origin (cj_row job) =b "automatic".

Definition load_intent (d : worker_db) : result (worker_db * option upload_intent) :=
  match load_for_job (d_uploads d) job_id with
  | Some i => Ok (d, Some i)
  | None =>
      found ← outstanding (d_uploads d) upload_file_id;
      match found with
      | None => Ok (d, None)
      | Some i => d ← bind_for_resume d job_id i; Ok (d, Some i)
      end
  end.

(** The evidence of the file as it is now; [None] when the Job went back to the queue. *)
Definition hash_local (linked : option job_target) (source : path) : eff W (option (upload_snapshot * file_stat)) :=
  tell "uploading" "" (Some "job.hashing_local_file") ;;;
  pat! (s, info) <~ prepare_upload_snapshot sha256 adjust_chunksize (still_active "Upload claim was lost") source ;;
  throw! RuntimeError "Local file changed since fingerprinting" when
    match linked with
    | Some t => match ju_snapshot (j_upload (jt_job t)) with Some old => old <>b as_json s | None => false end
    | None => false
    end ;;
  still_active "Upload claim was lost" ;;;
  ready <~ (if is_automatic then automatic_upload_ready else eret true) ;;
  if ready : bool then eret (Some (s, info))
  else tell "queued" "Automatic upload waits for stable content" None ;;; eret None.

Definition upload_local (linked : option job_target) (requested : string) (source : path) : eff W unit :=
  prepared <~ hash_local linked source ;;
  match prepared with
  | None => eret tt
  | Some (s, info) =>
      lift credentials ;;;
      pin_inventory provider fuel network_error bucket_still_ready job None ;;;
      upload_or_reuse s info requested source
  end.

Definition upload_body (linked : option job_target) (requested : string) (source : path) : eff W unit :=
  match linked with
  | Some t =>
      if truthy (jt_archive_version_id t)
      then lift credentials ;;;
           pin_inventory provider fuel network_error bucket_still_ready job None ;;;
           verify_linked t (or_default (jt_archive_version_id t) "") requested source
      else upload_local linked requested source
  | None => upload_local linked requested source
  end.

Definition held_version (linked : option job_target) : option string :=
  match linked with Some t => jt_copy t ≫= lc_cloud_only_version_id | None => None end.
Definition requested_of (linked : option job_target) : string :=
  match linked with
  | Some t => match j_upload_verification_requested (jt_job t) with Some r => if r =b "" then "read_back" else r | None => "read_back" end
  | None => "read_back"
  end.

Definition process_upload : eff W unit :=
  still_active "Upload stopped" ;;;
  ready <~ (if is_automatic then automatic_upload_ready else eret true) ;;
  if negb ready then tell "queued" "Automatic upload waits for enabled protection and stable content" None
  else
    validate_cloud_vault probe ;;;
    require_upload_source_identity sha256 job ;;;
    fs <~ observe host_view ;;
    source <~ lift (safe_local_path fs (cj_source_root job) (j_path (cj_row job))) ;;
    present <~ catch_if is_os_error (info <~ os_stat_follow source ;; eret (sx_kind info =b KRegular)) (fun _ => eret false) ;;
    intent <~ upload_unit (in_db load_intent) ;;
    only <~ match intent with
            | Some i =>
                if ui_send_started i
                then lift credentials ;;;
                     pin_inventory provider fuel network_error bucket_still_ready job None ;;;
                     resume_materialized_upload i
                else eret (ju_reconcile_only (j_upload (cj_row job)))
            | None => eret (ju_reconcile_only (j_upload (cj_row job)))
            end ;;
    linked <~ upload_unit (read_db (fun d => get_job_target (d_catalog d) job_id)) ;;
    let has_version := match linked with Some t => truthy (jt_archive_version_id t) | None => false end in
    throw! UploadBlocked "ambiguous_send" when only && negb has_version ;;
    throw! RuntimeError "The file is no longer available in the source folder" when negb present && negb has_version ;;
    throw! RuntimeError "Upload held back: the path holds different content than a file kept only in the cloud" when
      negb has_version && truthy (held_version linked) ;;
    let requested := match intent with Some i => ui_requested i | None => requested_of linked end in
    catch (upload_body linked requested source)
      (fun e => match block_reason e, e with
                | Some reason, _ => record_upload_reconciliation_block reason ;;; throw e
                | None, UploadProofMismatch _ => record_upload_reconciliation_block "proof_mismatch" ;;; throw e
                | None, _ => throw e
                end).
End upload.

(** ** Which steps send *)
Definition is_write (c : call) : Prop := match c with CPut _ _ | CStart _ _ | CSend _ _ | CFinish _ _ => True | _ => False end.
Notation no_write := (fun c => ¬ is_write c).

Lemma elem_of_middle (c : call) x h y : c ∈ h → c ∈ x ++ h ++ y.
Proof. intros Hc. rewrite !elem_of_app. tauto. Qed.

Section facts.
Context {P : Type} `{!Provider P} `{!UploadProvider P} `{!ObjectReader P} `{!Disk P} `{!Environment worker_db} `{!Host} `{!Messages} `{!UploadTransitions}.
Notation W := (world worker_db P).
Context (sha256 crc32 : bytes → bytes) (provider write_provider : string) (fuel : nat).
Context (network_error names_checksum_mode : exn → bool) (bucket_still_ready : eff W bool).
Context (credentials : result unit) (probe : eff W unit).
Context (adjust_chunksize : Z → Z → Z) (single_attempt : bool) (operation_name : exn → option string).
Context (program : path → string → string → option Z → upload_args → manager).
Context (progress_due : nat → option Z) (progress_total : nat → Z) (progress_ms : Z) (remedy : string → string).
Context (job : claimed_job).
Context (Hready : emits looking bucket_still_ready) (Hprobe : keeps (grows no_write) probe).

Lemma look_no_write bucket key : keeps (grows no_write) (inventory fuel network_error bucket_still_ready bucket key).
Proof. eapply emits_mono, inventory_looking; [|exact Hready]. intros c Hl Hd. by destruct c. Qed.
#[local] Hint Resolve look_no_write query_quiet ask_quiet : eff.

Lemma keys_no_write keys : keeps (grows no_write) (inventories fuel network_error bucket_still_ready job keys).
Proof. induction keys as [|k keys IH]; cbn; emits_all. Qed.
#[local] Hint Resolve keys_no_write : eff.

Lemma source_no_write : keeps (grows no_write) (require_upload_source_identity (P := P) sha256 job).
Proof.
  unfold require_upload_source_identity, active, validate_enrolled_scan_root, root_identity, walk_component, lstat. emits_all.
Qed.
#[local] Hint Resolve source_no_write : eff.

Lemma pin_no_write id : keeps (grows no_write) (pin_inventory provider fuel network_error bucket_still_ready job id).
Proof. unfold pin_inventory, claim_owned, now_iso. emits_all. Qed.

Lemma chunks_no_write size b content : keeps (grows no_write) (read_chunks (P := P) job size b content).
Proof. revert content. unfold read_chunks, active. induction b as [|c b IH]; intros content; cbn; emits_all. Qed.
#[local] Hint Resolve pin_no_write chunks_no_write : eff.

Lemma cleanup_no_write id : keeps (grows no_write) (cleanup sha256 provider fuel network_error bucket_still_ready job id).
Proof.
  unfold cleanup, clear_versions, check_key, prove_candidate, fetch_duplicate, exact_duplicate, persist_proof, delete_candidate, delete_under_fences,
    source_in_place, persist_purge, note_deleted, validate_enrolled_scan_root, root_identity, walk_component, lstat, active, claim_owned,
    fetch_object, delete_s3_version, delete_object, job_cancelled, now_iso. emits_all.
Qed.
#[local] Hint Resolve cleanup_no_write : eff.

(** The shorthands of the handler, at these parameters. *)
Notation unit_of := (upload_unit (P := P) job).
Notation block := (record_upload_reconciliation_block (P := P) remedy job).
Notation complete := (complete_verified_upload sha256 provider fuel network_error bucket_still_ready credentials remedy job).

Lemma unit_quiet p {A} (m : eff W A) : keeps (grows p) m → keeps (grows p) (unit_of m).
Proof. intros Hm. unfold upload_unit, claim_owned. emits_all. Qed.

Lemma change_quiet p f : keeps (grows p) (change (P := P) f).
Proof. unfold change. emits_all. Qed.
Lemma change_catalog_quiet p f : keeps (grows p) (change_catalog (P := P) f).
Proof. apply change_quiet. Qed.
Lemma tell_quiet p status message key : keeps (grows p) (tell (P := P) job status message key).
Proof. unfold tell. emits_all. Qed.
Lemma upload_active_quiet p message : keeps (grows p) (still_active (P := P) job message).
Proof. unfold still_active. emits_all. Qed.
#[local] Hint Resolve change_quiet change_catalog_quiet tell_quiet upload_active_quiet : eff.

Lemma block_quiet p reason : keeps (grows p) (block reason).
Proof. unfold record_upload_reconciliation_block, persist_block, now_iso. emits_all. Qed.
Lemma clear_problem_quiet p : keeps (grows p) (clear_problem (P := P) job).
Proof. unfold clear_problem, now_iso. emits_all. Qed.
#[local] Hint Resolve block_quiet clear_problem_quiet : eff.

Ltac writes := repeat first [progress eauto with eff | apply unit_quiet | apply emits_transaction | keeps_step].

Lemma hash_no_write source : keeps (grows no_write) (hash_stable_regular_file (P := P) (D := worker_db) sha256 source).
Proof. unfold hash_stable_regular_file, append_chunk, lstat, os_open, fstat, read_all. emits_all. Qed.
Lemma unchanged_no_write source info : keeps (grows no_write) (local_stat_unchanged (P := P) (D := worker_db) source info).
Proof. unfold local_stat_unchanged, lstat. emits_all. Qed.
#[local] Hint Resolve hash_no_write unchanged_no_write : eff.

Lemma inspect_no_write source digest ld ls : keeps (grows no_write) (inspect_local_copy (P := P) sha256 job source digest ld ls).
Proof. unfold inspect_local_copy, lstat. emits_all. Qed.
#[local] Hint Resolve inspect_no_write : eff.

Lemma complete_no_write source version digest mark ld ls : keeps (grows no_write) (complete source version digest mark ld ls).
Proof.
  unfold complete_verified_upload, persist_verification, purge_current_snapshot_superseded, now_iso. writes.
Qed.
#[local] Hint Resolve complete_no_write : eff.

Notation evaluate := (evaluate_provider_proof (P := P) job).
Lemma evaluate_no_write t digest s proof source completion : keeps (grows no_write) (evaluate t digest s proof source completion).
Proof. unfold evaluate_provider_proof, now_iso. destruct (validated_s3_proof _ _ _ _ _) as [?|[]]; writes. Qed.
#[local] Hint Resolve evaluate_no_write : eff.
Lemma evaluate_head_no_write t digest s h : keeps (grows no_write) (evaluate_head (P := P) job t digest s h).
Proof. unfold evaluate_head. writes. Qed.
Lemma version_head_no_write t : keeps (grows no_write) (version_head (P := P) provider job t).
Proof. unfold version_head, verification_version_head, head_object. writes. Qed.
#[local] Hint Resolve evaluate_head_no_write version_head_no_write : eff.

Lemma stream_no_write floor b content st : keeps (grows no_write) (stream_chunks (P := P) progress_ms job floor b content st).
Proof. revert content st. unfold progress_step. induction b as [|c b IH]; intros content st; cbn; unfold progress_step; writes. Qed.
#[local] Hint Resolve stream_no_write : eff.

Lemma verify_no_write a source ld ls :
  keeps (grows no_write) (verify sha256 provider fuel network_error names_checksum_mode bucket_still_ready credentials progress_ms remedy job a source ld ls).
Proof.
  unfold verify, checksum_proof, record_method_used, read_back, stream_plaintext_for_verification, fetch_object, head_object, now_iso. writes.
Qed.
#[local] Hint Resolve verify_no_write : eff.

Lemma verify_linked_no_write t version requested source :
  keeps (grows no_write) (verify_linked sha256 provider fuel network_error names_checksum_mode bucket_still_ready credentials progress_ms remedy job
                            t version requested source).
Proof. unfold verify_linked. writes. Qed.
#[local] Hint Resolve verify_linked_no_write : eff.

Lemma ready_no_write : keeps (grows no_write) (automatic_upload_ready (P := P) sha256 job).
Proof.
  unfold automatic_upload_ready, validate_enrolled_scan_root, root_identity, walk_component, lstat, os_stat_follow, now_iso. writes.
Qed.

Lemma publish_no_write intent response : keeps (grows no_write) (publish_upload_receipt (P := P) sha256 job intent response).
Proof. unfold publish_upload_receipt, now_iso. writes. Qed.

Lemma pages_no_write n q found seen : keeps (grows no_write) (upload_pages network_error bucket_still_ready n q found seen).
Proof.
  assert (Hr : keeps (grows no_write) bucket_still_ready) by (eapply emits_mono, Hready; intros c Hl Hd; by destruct c).
  revert q found seen. induction n as [|n IH]; intros q found seen; cbn; [writes|].
  unfold guarded_listing, listing_block_reason, list_multipart_uploads. writes.
Qed.

Lemma reconcile_no_write intent saved :
  keeps (grows no_write) (reconcile sha256 provider fuel network_error names_checksum_mode bucket_still_ready
                            (still_active (P := P) job "Upload reconciliation stopped") intent saved).
Proof.
  pose proof pages_no_write. unfold reconcile, settled_observation, own_write_arrived, observe_key, match_version, prove_absent, incomplete_uploads,
    head_object. writes.
Qed.
#[local] Hint Resolve ready_no_write publish_no_write reconcile_no_write : eff.

Notation resume := (resume_materialized_upload sha256 provider fuel network_error names_checksum_mode bucket_still_ready remedy job).
Lemma resume_no_write intent : keeps (grows no_write) (resume intent).
Proof.
  unfold resume_materialized_upload, recording_blocks, upload_protection_paused, rearm, append_receipt, now_iso. writes.
Qed.

Lemma gate_no_write : keeps (grows no_write) (validate_cloud_vault probe).
Proof.
  unfold validate_cloud_vault, check, check_in_transaction, reuse_state, run_probe, publish, set_ready. writes.
Qed.
#[local] Hint Resolve resume_no_write gate_no_write : eff.

(** ** A transfer is recorded like any other step *)
Notation any := (fun _ : call => True).

Lemma any_of {A} p (m : eff W A) : keeps (grows p) m → keeps (grows any) m.
Proof. by apply emits_mono. Qed.

Section manager.
Context (snapshot : option upload_snapshot) (check_active : eff W unit) (hook : option (write_answer → eff W unit)) (on_progress : Z → eff W unit).
Context (Hactive : keeps (grows any) check_active) (Hhook : ∀ h a, hook = Some h → keeps (grows any) (h a)).
Context (Hprogress : ∀ n, keeps (grows any) (on_progress n)).

Lemma acknowledge_any a f : keeps (grows any) (acknowledge hook a f).
Proof.
  intros w. unfold acknowledge. destruct hook as [h|] eqn:E; [|reflexivity]. specialize (Hhook h a eq_refl w). by destruct (h a w) as [w' [?|?]].
Qed.

Lemma read_body_any left reads buffer : keeps (grows any) (read_body check_active left reads buffer).
Proof. revert left buffer. induction reads as [|c reads IH]; intros left buffer; cbn; emits_all. Qed.
#[local] Hint Resolve acknowledge_any read_body_any : eff.

Lemma run_manager_any m f failure : keeps (grows any) (run_manager sha256 snapshot check_active hook on_progress m f failure).
Proof.
  revert f failure. induction m; intros f failure; cbn;
    unfold facade_put, facade_create, facade_part, facade_complete, facade_abort, told, validated_body, put_object, start_upload, upload_part,
      finish_upload, abort_multipart_upload; emits_all.
Qed.

Lemma upload_file_any source bucket key metadata :
  keeps (grows any) (upload_file sha256 crc32 snapshot check_active hook on_progress single_attempt operation_name program source bucket key metadata).
Proof.
  assert (Hc : ∀ reads content, keeps (grows any) (check_chunks check_active reads content)).
  { induction reads as [|c reads IH]; intros content; cbn; emits_all. }
  pose proof run_manager_any. unfold upload_file, before_transfer, crc_of_file, conclude, abort_pending, facade_abort, told, lstat, os_stat_follow,
    read_path, head_object, abort_multipart_upload. emits_all.
Qed.
End manager.

Notation local_upload := (upload_local sha256 crc32 provider write_provider fuel network_error names_checksum_mode bucket_still_ready credentials
  adjust_chunksize single_attempt operation_name program progress_due progress_total progress_ms remedy job).

Lemma parts_no_write n fd part_size total plaintext parts :
  keeps (grows no_write) (read_parts (P := P) sha256 (still_active job "Upload claim was lost") n fd part_size total plaintext parts).
Proof.
  assert (Hp : ∀ n fd left part, keeps (grows no_write) (read_part (P := P) (still_active job "Upload claim was lost") n fd left part)).
  { clear. induction n as [|n IH]; intros fd left part; cbn; unfold read_some; writes. }
  revert plaintext parts. induction n as [|n IH]; intros plaintext parts; cbn; writes.
Qed.
#[local] Hint Resolve parts_no_write : eff.

Lemma hash_local_no_write linked source : keeps (grows no_write) (hash_local (P := P) sha256 adjust_chunksize job linked source).
Proof. unfold hash_local, prepare_upload_snapshot, lstat, os_open, fstat, read_some. writes. Qed.

Lemma upload_local_any linked requested source : keeps (grows any) (local_upload linked requested source).
Proof.
  pose proof (fun l s => any_of _ _ (hash_local_no_write l s)). pose proof (fun id => any_of _ _ (pin_no_write id)).
  pose proof (fun a b c d => any_of _ _ (verify_no_write a b c d)). pose proof (fun a b c d e f => any_of _ _ (complete_no_write a b c d e f)).
  pose proof (fun t => any_of _ _ (version_head_no_write t)). pose proof (fun a b c d => any_of _ _ (evaluate_head_no_write a b c d)).
  pose proof (fun a b c d e f => any_of _ _ (evaluate_no_write a b c d e f)). pose proof (fun a b => any_of _ _ (publish_no_write a b)).
  pose proof (any_of _ _ source_no_write). pose proof (fun b k => any_of _ _ (look_no_write b k)).
  assert (Ha : ∀ i a, keeps (grows any) (acknowledge_receipt (P := P) sha256 i a)) by (intros; unfold acknowledge_receipt, append_receipt, now_iso; writes).
  assert (Hs : ∀ n, keeps (grows any) (on_sent (P := P) progress_due job n)) by (intros; unfold on_sent, report_progress; writes).
  unfold upload_local, upload_or_reuse, find_reusable, reuse_verified, reuse_unverified, send_and_verify, send_new, prepare_send, transfer,
    upload_s3_file, report_progress, now_iso. writes.
  all: apply upload_file_any; eauto with eff. all: by intros hk ans [= <-].
Qed.

(** ** What calls must have shown before others are made *)
Section shown.
Context (bad : call → Prop) (Q : list call → Prop).

(** [h] continues [h0] with calls that show [Q]. *)
Definition since (h0 h : list call) : Prop := ∃ h', h = h0 ++ h' ∧ Q h'.
Definition only_since (h0 h : list call) (c : call) (_ : worker_db) : Prop := bad c → since h0 h.

Context (Hmore : ∀ x h y, Q h → Q (x ++ h ++ y)).

Lemma since_more h0 h h' : since h0 h → since h0 (h ++ h').
Proof. intros (new & -> & Hq). exists (new ++ h'). split; [by rewrite <- app_assoc|]. by apply (Hmore [] new h'). Qed.

Lemma since_prefix h0 h1 h : h0 `prefix_of` h1 → since h1 h → since h0 h.
Proof.
  intros [x ->] (h' & -> & Hq). exists (x ++ h'). split; [by rewrite <- app_assoc|]. apply (Hmore x h' []) in Hq. by rewrite app_nil_r in Hq.
Qed.

Lemma since_grows p h0 {A} (m : eff W A) (w w' : W) r : keeps (grows p) m → since h0 (w_calls w) → m w = (w', r) → since h0 (w_calls w').
Proof. intros Hm Hs E. eapply grows_tables in E as (n & _ & -> & _); [|done]. by apply since_more. Qed.

Lemma quiet_keeps h0 {A} (m : eff W A) : keeps (grows (fun c => ¬ bad c)) m → keeps (abides (only_since h0)) m.
Proof. apply abides_grows. by intros h c d Hc Hb. Qed.

Lemma quiet_step h0 {A B} (m : eff W A) (f : A → eff W B) (w w' : W) r :
  keeps (grows (fun c => ¬ bad c)) m → h0 `prefix_of` w_calls w →
  (∀ w1 a, m w = (w1, Ok a) → h0 `prefix_of` w_calls w1 → f a w1 = (w', r) → abides (only_since h0) w1 w') →
  ebind m f w = (w', r) → abides (only_since h0) w w'.
Proof.
  intros Hm Hp Hf. apply abides_bind; [by apply quiet_keeps|]. intros w1 a E. apply Hf; [done|].
  eapply grows_tables in E as (n & _ & -> & _); [|done]. by apply prefix_app_r.
Qed.

Lemma quiet_run h0 {A} (m : eff W A) (w w' : W) r : keeps (grows (fun c => ¬ bad c)) m → m w = (w', r) → abides (only_since h0) w w'.
Proof. intros Hm. apply abides_step. by apply quiet_keeps. Qed.

Lemma after_shown h0 {A} (m : eff W A) (w w' : W) r :
  keeps (grows any) m → since h0 (w_calls w) → m w = (w', r) → abides (only_since h0) w w'.
Proof.
  intros Hm Ha E. eapply grows_tables in E as (n & t & En & Et & El & _); [|done]. exists n, t. do 3 (split; [done|]).
  intros i c d _ _ _. by apply since_more.
Qed.

(** No bad call before [Q] is shown, and no success without it. *)
Definition awaits (h0 : list call) (w w' : W) (r : result unit) : Prop :=
  abides (only_since h0) w w' ∧ (r = Ok tt → since h0 (w_calls w')).

Lemma awaits_step h0 {A} (m : eff W A) (f : A → eff W unit) (w w' : W) r :
  keeps (grows (fun c => ¬ bad c)) m → h0 `prefix_of` w_calls w →
  (∀ w1 a, m w = (w1, Ok a) → h0 `prefix_of` w_calls w1 → f a w1 = (w', r) → awaits h0 w1 w' r) →
  ebind m f w = (w', r) → awaits h0 w w' r.
Proof.
  intros Hm Hp Hf E. split.
  - revert E. apply quiet_step; [done..|]. intros w1 a E1 Hw E. by destruct (Hf w1 a E1 Hw E).
  - intros ->. apply ebind_ok in E as (w1 & a & E1 & E). destruct (Hf w1 a) as [_ Hr]; try done; [|by apply Hr].
    eapply grows_tables in E1 as (n & _ & -> & _); [|done]. by apply prefix_app_r.
Qed.

Lemma awaits_shown h0 (m : eff W unit) (w w' : W) r : keeps (grows any) m → since h0 (w_calls w) → m w = (w', r) → awaits h0 w w' r.
Proof. intros Hm Hs E. split; [by eapply after_shown|]. intros _. by eapply since_grows. Qed.

Lemma awaits_failure h0 (m : eff W unit) (w w' : W) r :
  keeps (grows (fun c => ¬ bad c)) m → (∀ w w', m w ≠ (w', Ok tt)) → m w = (w', r) → awaits h0 w w' r.
Proof. intros Hm Hf E. split; [by eapply quiet_run|]. intros ->. by apply Hf in E. Qed.
End shown.

(** ** Absence *)

(** These calls show that a send of the file left nothing behind: the key as it was
    before the send, looked at completely, no unfinished upload of it, and the key again. *)
Definition absence_in (h : list call) : Prop :=
  ∃ intent before seen uploads pages after,
    h = before ++ seen ++ uploads_calls uploads ++ listed_calls pages ++ after
    ∧ tg_vault_file_id (ui_target intent) = upload_file_id job ∧ tg_bucket (ui_target intent) = cj_bucket job
    ∧ observed (ui_target intent) (ui_token intent) (ui_inventory intent) [] seen
    ∧ no_unfinished (ui_target intent) uploads ∧ complete_listing (ui_target intent) (ui_inventory intent) pages.

Lemma absence_more x h y : absence_in h → absence_in (x ++ h ++ y).
Proof. intros (i & b & s & u & p & a & -> & Ha). exists i, (x ++ b), s, u, p, (a ++ y). by rewrite <- !app_assoc. Qed.

Context (Hlist : ∀ q p, (p_list q p).2 ≠ Raise ProvenAbsent) (Hhead : ∀ q p, (p_head q p).2 ≠ Raise ProvenAbsent).
Context (Huploads : ∀ q p, (u_list q p).2 ≠ Raise ProvenAbsent) (Hnever : ∀ w, (bucket_still_ready w).2 ≠ Raise ProvenAbsent).

Lemma active_never message : never (still_active (P := P) job message).
Proof.
  unfold still_active, ensure_job_active, raise_signals, shutdown_checkpoint, job_cancelled, claim_is_lost, renew_claim_if_owned, renew_in_transaction,
    require_renewed, mark_claim_lost, now_iso.
  assert (Ht : ∀ A (m : eff W A), never m → never (transaction m)).
  { intros A m Hm w. unfold transaction. match goal with |- context [m ?x] => specialize (Hm x); by destruct (m x) as [? [?|?]] end. }
  repeat first [apply never_ret | by apply never_throw | by apply never_guard | apply never_bind; [|intros ?] | apply Ht | by intros ?
    | match goal with |- never (match ?x with _ => _ end) => destruct x end ].
Qed.

(** The target that still holds is that of the Job. *)
Lemma require_target_job d pinned :
  require_target d job pinned = Ok tt → tg_vault_file_id pinned = upload_file_id job ∧ tg_bucket pinned = cj_bucket job.
Proof.
  unfold require_target, target. destruct (tg_provider pinned) as [pr|]; [|done]. intros E. inv_ok. bsimpl. subst.
  destruct (vault_row _ _) as [v|]; [|done]. destruct (file_and_path _ _ _) as [[f p]|]; [|done].
  destruct (job_by_id _ _) as [c|]; [|done]. inv_ok. bsimpl. by rewrite <- E0.
Qed.

Lemma unit_ok {A} (m : eff W A) w w' a : unit_of m w = (w', Ok a) → ∃ w1, m w1 = (w', Ok a).
Proof. unfold upload_unit. intros (w0 & _ & _ & _ & E)%transaction_ok. run_ok E. by eexists. Qed.

(** A proved absence is the only way from a reconciliation to another send. *)
Lemma resume_proves_absence intent (w w' : W) :
  ju_reconcile_only (j_upload (cj_row job)) = true → resume intent w = (w', Ok false) → since absence_in (w_calls w) (w_calls w').
Proof.
  intros Ho E. unfold resume_materialized_upload, recording_blocks in E. rewrite Ho in E.
  apply catch_quiet_ok in E; [|intros e w1 w2 b; destruct (block_reason e); [|done]; unfold ebind; by destruct (block _ _) as [? [?|?]]].
  apply ebind_ok in E as (w1 & [] & E1 & E). apply ebind_ok in E as (w2 & [linked raw] & E2 & E). apply ebind_ok in E as (w3 & [] & E3 & E).
  assert (Hc : ∃ new, w_calls w3 = w_calls w ++ new).
  { apply lift_ok in E3 as [_ ->]. eapply (grows_tables any) in E2 as (n2 & _ & -> & _); [|apply query_quiet].
    eapply (grows_tables any) in E1 as (n1 & _ & -> & _); [|apply unit_quiet; eauto with eff]. rewrite <- app_assoc. by eexists. }
  destruct Hc as [new0 Hc]. apply unit_ok in E1 as (w0 & [_ Ht%require_target_job]%ask_ok).
  destruct (truthy (ui_archive_version_id intent)); [by run_ok E|].
  apply ebind_ok in E as (w4 & outcome & E4 & E). destruct outcome as [response|]; [by run_ok E|].
  unfold catch in E4. destruct (ebind _ _ w3) as [w5 [o|e]] eqn:E5.
  { injection E4 as -> ->. apply ebind_ok in E5 as (w6 & r & _ & [=]). }
  destruct (catchable e); [|done]. destruct e; try done. injection E4 as ->.
  apply ebind_cases in E5 as [(e & E5 & [= <-])|(? & ? & _ & [=])].
  apply reconcile_absence in E5 as (_ & pre & seen & uploads & pages & Ec & _ & Hs & Hu & Hp);
    [|first [done | apply upload_active_quiet | by apply active_never]..].
  assert (Hm : keeps (grows any) (paused <~ upload_protection_paused (P := P) job ;; throw! UploadBlocked "protection_paused" when paused ;;
                 rearm (P := P) sha256 job intent ;;; eret false)).
  { unfold upload_protection_paused, rearm, now_iso. writes. }
  specialize (Hm w4). rewrite E in Hm. destruct Hm as (new & tables & Hw & _). cbn in Hw. rewrite Hw, Ec. apply since_more; [apply absence_more|].
  exists (new0 ++ pre ++ seen ++ uploads_calls uploads ++ listed_calls pages). rewrite Hc, <- app_assoc. split; [done|].
  exists intent, (new0 ++ pre), seen, uploads, pages, []. rewrite app_nil_r, <- app_assoc. by destruct Ht.
Qed.

Notation run := (process_upload sha256 crc32 provider write_provider fuel network_error names_checksum_mode bucket_still_ready credentials probe
  adjust_chunksize single_attempt operation_name program progress_due progress_total progress_ms remedy job).

(** Whether the Job may still only reconcile, as the handler finds out. *)
Notation decide_only intent := (match intent with
  | Some i => if ui_send_started i then lift credentials ;;; pin_inventory provider fuel network_error bucket_still_ready job None ;;; resume i
              else eret true
  | None => eret true
  end).

Lemma only_after_absence intent (w w' : W) :
  ju_reconcile_only (j_upload (cj_row job)) = true → decide_only intent w = (w', Ok false) → since absence_in (w_calls w) (w_calls w').
Proof.
  intros Ho E. destruct intent as [i|]; [|done]. destruct (ui_send_started i); [|done].
  apply ebind_ok in E as (w1 & [] & [_ ->]%lift_ok & E). apply ebind_ok in E as (w2 & [] & E2 & E).
  eapply grows_tables in E2 as (n & _ & Hn & _); [|apply pin_no_write]. apply resume_proves_absence in E; [|done].
  eapply (since_prefix _ absence_more); [|exact E]. rewrite Hn. by apply prefix_app_r.
Qed.

Notation body := (upload_body sha256 crc32 provider write_provider fuel network_error names_checksum_mode bucket_still_ready credentials
  adjust_chunksize single_attempt operation_name program progress_due progress_total progress_ms remedy job).

Lemma body_any linked requested source : keeps (grows any) (body linked requested source).
Proof.
  pose proof (fun l r s => upload_local_any l r s). pose proof (fun id => any_of _ _ (pin_no_write id)).
  pose proof (fun a b c d => any_of _ _ (verify_linked_no_write a b c d)). unfold upload_body. writes.
Qed.
#[local] Hint Resolve body_any : eff.


(** ** Evidence before clean-up *)
Notation no_delete := (fun c => ¬ is_delete c).
Notation verify_run := (verify sha256 provider fuel network_error names_checksum_mode bucket_still_ready credentials progress_ms remedy job).

(** The version holds the bytes of the upload: its checksum, with the answer to the
    write or by a HEAD of the version, is that of the evidence, or its bytes were
    fetched by the version and have the digest and the size. *)
Definition confirmed (a : attempt) (h : list call) : Prop :=
  let t := at_target a in
  (∃ s, at_snapshot a = Some s ∧ at_requested a = "s3_checksum"
     ∧ (is_Some (tv_proof t)
        ∨ ∃ q answer proof, CHead q (Ok answer) ∈ h ∧ hr_bucket q = cj_bucket job ∧ hr_key q = or_default (tv_object_key t) ""
            ∧ hr_version q = tv_provider_version_id t ∧ hr_checksum_mode q = true
            ∧ validated_s3_proof (proof_of_head answer) (or_default (tv_provider_version_id t) "") s "exact_head" false = Ok (Some proof)))
  ∨ (∃ o answer b content, CFetch o (Ok answer) ∈ h ∧ or_bucket o = cj_bucket job ∧ tv_object_key t = Some (or_key o)
       ∧ tv_provider_version_id t = Some (or_version o) ∧ ga_version_id answer = Some (or_version o) ∧ ga_body answer = Some b
       ∧ body_bytes b = Some content ∧ hexdigest (sha256 content) = at_digest a
       ∧ ∀ n, tv_cloud_size t = Some n → Z.of_nat (length content) = n).

Lemma confirmed_more a x h y : confirmed a h → confirmed a (x ++ h ++ y).
Proof.
  intros [(s & Hs & Hr & [Hp|(q & an & pf & Hc & Hq)])|(o & an & b & ct & Hc & Ho)]; [left; exists s; eauto|left; exists s|right].
  - split; [done|]. split; [done|]. right. exists q, an, pf. split; [by apply elem_of_middle|done].
  - exists o, an, b, ct. split; [by apply elem_of_middle|done].
Qed.

Lemma evaluate_no_delete t digest s proof source completion : keeps (grows no_delete) (evaluate t digest s proof source completion).
Proof. unfold evaluate_provider_proof, now_iso. destruct (validated_s3_proof _ _ _ _ _) as [?|[]]; writes. Qed.
#[local] Hint Resolve evaluate_no_delete : eff.
Lemma evaluate_head_no_delete t digest s h : keeps (grows no_delete) (evaluate_head (P := P) job t digest s h).
Proof. unfold evaluate_head. writes. Qed.
Lemma version_head_no_delete t : keeps (grows no_delete) (version_head (P := P) provider job t).
Proof. unfold version_head, verification_version_head, head_object. writes. Qed.
Lemma stream_no_delete floor b content st : keeps (grows no_delete) (stream_chunks (P := P) progress_ms job floor b content st).
Proof. revert content st. induction b as [|c b IH]; intros content st; cbn; unfold progress_step; writes. Qed.
#[local] Hint Resolve evaluate_head_no_delete version_head_no_delete stream_no_delete : eff.
Notation checksum := (checksum_proof (P := P) names_checksum_mode job).
Lemma checksum_no_delete a : keeps (grows no_delete) (checksum a).
Proof. unfold checksum_proof, head_object. writes. Qed.
Notation stream := (stream_plaintext_for_verification (P := P) sha256 credentials progress_ms job).
Lemma plaintext_no_delete t size : keeps (grows no_delete) (stream t size).
Proof. unfold stream_plaintext_for_verification, fetch_object. writes. Qed.
Lemma method_no_delete version method fallback egress proof : keeps (grows no_delete) (record_method_used (P := P) job version method fallback egress proof).
Proof. unfold record_method_used. writes. Qed.
#[local] Hint Resolve checksum_no_delete plaintext_no_delete method_no_delete : eff.

Lemma stream_chunks_ok floor b content st (w w' : W) content' :
  stream_chunks progress_ms job floor b content st w = (w', Ok content') → ∃ rest, body_bytes b = Some rest ∧ content' = content ++ rest.
Proof.
  revert content st w. induction b as [|c b IH]; intros content st w; cbn [stream_chunks]; intros E.
  { injection E as <- <-. exists []. by rewrite app_nil_r. }
  apply ebind_ok in E as (w1 & chunk & [-> ->]%lift_ok & E). cbn [body_bytes]. destruct (bool_decide (chunk = [])).
  { injection E as <- <-. exists []. by rewrite app_nil_r. }
  run_ok E. apply IH in E as (rest & Hr & ->). exists (chunk ++ rest). rewrite Hr. by rewrite <- app_assoc.
Qed.

(** What was fetched, and that it was fetched by the version. *)
Lemma stream_ok t size (w w' : W) digest n :
  stream t size w = (w', Ok (digest, n)) →
  ∃ new o answer b content, w_calls w' = w_calls w ++ new ∧ CFetch o (Ok answer) ∈ new ∧ or_bucket o = cj_bucket job
    ∧ tv_object_key t = Some (or_key o) ∧ tv_provider_version_id t = Some (or_version o) ∧ ga_version_id answer = Some (or_version o)
    ∧ ga_body answer = Some b ∧ body_bytes b = Some content ∧ digest = hexdigest (sha256 content) ∧ n = Z.of_nat (length content).
Proof.
  unfold stream_plaintext_for_verification. intros E. run_ok E.
  destruct (ga_body _) as [b|] eqn:Eb; [|done]. run_ok E. injection E as <- <- <-. apply lift_ok in Hm0 as [_ ->].
  apply request_ok in Hm1 as [Ec _]. apply orb_false_iff in Hb as [Hv Hk].
  destruct (tv_provider_version_id t) as [v|]; [|done]. destruct (tv_object_key t) as [k|]; [|done]. cbn in *.
  pose proof (emits_calls _ _ _ _ _ (stream_no_delete _ _ _ _) Hm2) as (n2 & C2 & _). apply stream_chunks_ok in Hm2 as (rest & Hr & ->).
  pose proof (emits_calls any _ _ _ _ (upload_active_quiet _ _) Hm) as (n0 & C0 & _).
  pose proof (emits_calls any _ _ _ _ (upload_active_quiet _ _) Hm3) as (n3 & C3 & _).
  set (o := {| or_bucket := cj_bucket job; or_key := k; or_version := v |}) in *.
  exists (n0 ++ [CFetch o (Ok a1)] ++ n2 ++ n3), o, a1, b, rest.
  split; [by rewrite C3, C2, Ec, C0, <- !app_assoc|]. split; [by apply elem_of_middle, list_elem_of_singleton|]. cbn. do 3 (split; [done|]).
  bsimpl. destruct (ga_version_id a1) as [v'|]; cbn in *; subst; [|done]. done.
Qed.

Lemma evaluate_ok t digest s proof source completion (w w' : W) e :
  evaluate t digest s proof source completion w = (w', Ok e) →
  validated_s3_proof proof (or_default (tv_provider_version_id t) "") s source completion = Ok e ∧ w' = w.
Proof.
  unfold evaluate_provider_proof. destruct (validated_s3_proof _ _ _ _ _) as [x|[]]; try done; [by intros [= -> ->]|].
  intros (w1 & [] & _ & [=])%ebind_ok.
Qed.

(** The proof by checksum is that of the exact version. *)
Lemma checksum_ok a (w w' : W) proof fallback :
  checksum a w = (w', Ok (Some proof, fallback)) → ∃ new, w_calls w' = w_calls w ++ new ∧ confirmed a new.
Proof.
  unfold checksum_proof. destruct (at_snapshot a) as [s|] eqn:Es; [|done]. destruct (at_requested a <>b "s3_checksum") eqn:Hr; [done|].
  bsimpl. destruct (tv_proof (at_target a)) as [p|] eqn:Ep.
  { intros [= <- <- <-]. exists []. rewrite app_nil_r. split; [done|]. left. exists s. split_and!; [done..|]. left. by rewrite Ep. }
  intros E. unfold catch in E. destruct (ebind _ _ w) as [w1 [x|e]] eqn:E1.
  2:{ destruct (catchable e); [|done]. by destruct (unsupported_checksum_api _ e). }
  injection E as <- ->. apply ebind_ok in E1 as (w2 & answer & [Ec _]%request_ok & E1). apply ebind_ok in E1 as (w3 & p & E2 & [= <- -> _]).
  apply evaluate_ok in E2 as [Hv ->]. eexists. split; [exact Ec|]. left. exists s. split; [done|]. split; [done|]. right.
  eexists _, answer, proof. split; [by apply list_elem_of_singleton|]. done.
Qed.

Lemma complete_any source version digest mark ld ls : keeps (grows any) (complete source version digest mark ld ls).
Proof. eapply any_of, complete_no_write. Qed.
#[local] Hint Resolve complete_any : eff.

Notation read_back_run := (read_back sha256 provider fuel network_error bucket_still_ready credentials progress_ms remedy job).

Lemma read_back_awaits h0 a source size fallback ld ls (w w' : W) r :
  h0 `prefix_of` w_calls w → read_back_run a source size fallback ld ls w = (w', r) → awaits is_delete (confirmed a) h0 w w' r.
Proof.
  intros Hp. unfold read_back.
  apply awaits_step; [writes|done|]. intros w1 [] _ Q1.
  apply awaits_step; [writes|done|]. intros w2 [digest n] E2 Q2.
  apply stream_ok in E2 as (new & o & answer & b & content & C2 & Hin & Hb & Hk & Hv & Hav & Hbody & Hc & -> & ->).
  assert (S2 : since (fun h => CFetch o (Ok answer) ∈ h) h0 (w_calls w2)).
  { destruct Q1 as [x Hx]. exists (x ++ new). rewrite C2, Hx, <- app_assoc. split; [done|]. apply elem_of_app. by right. }
  pose proof (elem_of_middle (CFetch o (Ok answer))) as Hmore.
  apply awaits_step; [writes|done|]. intros w3 [] E3 Q3. eapply (since_grows _ Hmore no_delete) in E3; [|writes|exact S2].
  apply awaits_step; [writes|done|]. intros w4 h E4 Q4. eapply (since_grows _ Hmore no_delete) in E4; [|writes|exact E3].
  apply awaits_step; [writes|done|]. intros w5 [] E5 Q5. eapply (since_grows _ Hmore no_delete) in E5; [|writes|exact E4].
  apply awaits_step; [writes|done|]. intros w6 [] [Hsize ->]%throw_if_ok _.
  destruct (hexdigest (sha256 content) <>b at_digest a) eqn:Hd.
  - apply awaits_failure; [writes|]. intros v v' E. run_ok E. done.
  - apply awaits_shown; [apply confirmed_more|writes|]. destruct E5 as (h' & -> & Hin'). exists h'. split; [done|].
    right. exists o, answer, b, content. bsimpl. split_and!; try done. intros n Hn. rewrite Hn in Hsize. by bsimpl.
Qed.

End facts.

(** ** A send that left nothing behind *)

(** A bucket with the versions of one key and a disk with one file. *)
Definition w_site := (list UploadReconcile.w_object * bytes)%type.
Definition w_no_answer {A} (p : w_site) : w_site * result A := (p, Raise (ClientError "NotImplemented" 501)).
Definition w_on_store {A} (r : list UploadReconcile.w_object * result A) (p : w_site) : w_site * result A := ((r.1, p.2), r.2).
Definition w_bucket : Provider w_site := {|
  p_list q p := w_on_store (p_list (Provider := w_key_store) q p.1) p; p_head q p := w_on_store (p_head (Provider := w_key_store) q p.1) p;
  p_delete o p := ((List.filter (fun v => v.1 <>b or_version o) p.1, p.2), Ok tt);
  p_get _ := w_no_answer; p_tags _ := w_no_answer; p_copy _ := w_no_answer; p_create _ := w_no_answer; p_part _ := w_no_answer;
  p_complete _ := w_no_answer; p_abort _ := w_no_answer; p_delete_batch _ := w_no_answer; p_restore _ := w_no_answer;
|}.
Definition w_bucket_writes : UploadProvider w_site := {|
  u_put q p := ((p.1 ++ [("p1", ua_metadata (pu_args q) ≫= lookup UPLOAD_TOKEN_KEY)], p.2), Ok w_answer);
  u_start _ := w_no_answer; u_send _ := w_no_answer; u_finish _ := w_no_answer;
  u_list q p := w_on_store (u_list (UploadProvider := w_no_uploads) q p.1) p;
|}.
Definition w_bucket_reads : ObjectReader w_site := fun o p =>
  (p, Ok {| ga_version_id := Some (or_version o); ga_delete_marker := false; ga_content_length := Some 3; ga_metadata := None;
            ga_body := Some [Ok UploadSnapshot.w_content] |}).
Definition w_site_stat (q : path) : file_stat := if (length q <=? 1)%nat then w_directory else w_file_stat.
Definition w_site_disk : Disk w_site := {|
  k_lstat q p := (p, Ok (w_site_stat q)); k_stat q p := (p, Ok (w_site_stat q));
  k_open _ p := ((p.1, UploadSnapshot.w_content), Ok 3); k_fstat _ p := (p, Ok w_file_stat); k_read _ p := (p, Ok [Ok UploadSnapshot.w_content]);
  k_read_byte _ p := (p, Ok tt);
  k_read_some q p := ((p.1, drop (Z.to_nat q.2) p.2), Ok (take (Z.to_nat q.2) p.2));
  k_read_path _ p := (p, Ok [Ok UploadSnapshot.w_content]);
  k_rename _ := w_no_answer; k_link _ := w_no_answer; k_unlink _ := w_no_answer; k_mkdirs _ := w_no_answer; k_iterdir _ := w_no_answer;
  k_download _ := w_no_answer;
|}.

(** The first Job's send is on record; the second may only reconcile it. *)
Definition w_retry_job : claimed_job :=
  {| cj_row := set_job_upload None {| ju_plaintext_sha256 := None; ju_snapshot := None; ju_reconcile_only := true; ju_retry_count := 0 |}
                 (cj_row w_sending_job);
     cj_bucket := "bucket"; cj_source_root := "/src"; cj_s3_prefix := "vaults/photos" |}.
Definition w_retry_catalog : catalog :=
  set_vaults [w_rooted_vault] (set_versions [] (set_jobs [cj_row w_retry_job] w_catalog)).
Definition w_before_send : worker_db :=
  {| d_catalog := w_retry_catalog; d_inbox := w_inbox; d_plans := [w_plan]; d_uploads := no_uploads; d_moves := [];
     d_gate := Some {| gr_status := "ready"; gr_remediation := None; gr_failure_count := 0; gr_next_probe_at := None |} |}.
Definition w_sent_db : worker_db :=
  match target w_before_send w_retry_job "vaults/photos/a/b.txt" "s3" with
  | Ok pinned => match prepare w_before_send w_retry_job pinned w_snapshot "read_back" {| ki_versions := ["p0"]; ki_markers := [] |} 5 ("i1", "tok") with
                 | Ok (d, i) => match mark_send_started d w_retry_job i 6 with Ok d => d | _ => d end
                 | _ => w_before_send
                 end
  | _ => w_before_send
  end.
Definition w_lost_send : world worker_db w_site :=
  {| w_db := w_sent_db; w_cloud := ([("p0", None)], []); w_calls := []; w_tables := []; w_steps := 0; w_lost := false; w_ready := true;
     w_echoes := [] |}.
Definition w_retried : world worker_db w_site * result unit :=
  process_upload (Provider0 := w_bucket) (UploadProvider0 := w_bucket_writes) (ObjectReader0 := w_bucket_reads) (Disk0 := w_site_disk)
    (Environment0 := w_quiet_hour) (H := w_root_host) (H0 := w_messages) (H1 := remediation_transitions) w_prefix_hash w_prefix_hash "s3" "s3" 2
    (fun _ => false) (fun _ => false) (eret true) (Ok tt) (eret tt) w_adjust true (fun _ => None) w_put_program (fun _ => None) (fun _ => 3) 0
    (fun _ => "remedy") w_retry_job w_lost_send.


(** A version that was sent, beside the one it replaces. *)
Definition w_new_version : archive_version :=
  {| av_id := "v2"; av_vault_file_id := "f"; av_vault_id := 1; av_version_number := 2; av_object_key := Some "vaults/photos/a/b.txt";
     av_provider_version_id := Some "p1"; av_size := Some 3; av_storage_class := None; av_plaintext_sha256 := None; av_origin := Upload;
     av_integrity := Unverified; av_verified_at := None; av_availability := Available; av_availability_checked_at := None;
     av_restore_state := None; av_placement := new_placement 0; av_evidence := no_evidence |}.
Definition w_unconfirmed : world worker_db w_site :=
  {| w_db := set_catalog (set_versions [w_new_version] (d_catalog w_kept_db)) w_kept_db; w_cloud := ([("p0", None); ("p1", None)], []);
     w_calls := []; w_tables := []; w_steps := 0; w_lost := false; w_ready := true; w_echoes := [] |}.
Definition w_attempt (digest : string) : attempt :=
  {| at_target := target_of_reuse w_new_version digest; at_snapshot := None; at_requested := "read_back"; at_digest := digest;
     at_head := w_version_head ("p1", None) |}.
Definition w_verified (digest : string) : world worker_db w_site * result unit :=
  verify (Provider0 := w_bucket) (ObjectReader0 := w_bucket_reads) (Disk0 := w_site_disk) (Environment0 := w_quiet_hour) (H := w_root_host)
    (H0 := w_messages) (H1 := remediation_transitions) w_prefix_hash "s3" 2 (fun _ => false) (fun _ => false) (eret true) (Ok tt) 0
    (fun _ => "remedy") w_sending_job (w_attempt digest) ["src"; "a"; "b.txt"] None None w_unconfirmed.

